(* ===== verification/_CoqProject ===== *)
-Q . S2P
Prelude.v
GoString.v
GoTime.v
GoURL.v
Route.v
PurgeJournal.v
PurgeEdge.v
Converge.v
Certs.v
CacheRule.v
RateLimit.v
Controller.v
Trust.v
TrustCIDR.v
TransformRule.v
Coraza.v
Reload.v
EdgeStores.v
ServeMux.v
EdgeRules.v
Signer.v
EdgeServer.v
Rotation.v
CpClient.v
Remint.v
Metrics.v
Revoke.v
Events.v
Upstream.v
Debounce.v
Plugins.v
Watch.v
Mirror.v
WebSocket.v
Accounting.v
Programs.v
FsClient.v
