(* ===== verification/Prelude.v ===== *)
(** * Verification of the parapet ingress controller

    The repository is a Kubernetes ingress controller (package at the root of
    [src/]) with an optional tier of edge proxies outside the cluster ([src/edge])
    fed by an in-cluster control plane ([src/edgecp]).  This development
    translates the parts that carry the system's own logic into Rocq functions
    and step relations and proves what makes them correct.  This file is the
    root: after this overview it holds the definitions and lemmas every other
    file shares.

    ** The parts and how they interact

    - The controller watches Kubernetes objects ([Mirror]), keeps them in stores and
      rebuilds from them, debounced ([Debounce]), HTTP routes, port routes, host
      routes ([Controller]) and a certificate table ([Certs]).  A request passes the
      global middlewares ([Programs]), the plugins of its ingress ([Plugins]), and
      goes from a route ([ServeMux]) to a service address, through the route table
      to a pod that has not just failed ([Route]), and over a transport with retries
      of what was not sent ([Upstream]); a WebSocket goes through a tunnel
      ([WebSocket]).
    - The same cluster objects feed the control plane ([Watch], [EdgeStores]), which
      authorises each edge by token and serves it certificates, rule sets and cache
      invalidations ([EdgeServer]), tells it of changes ([Events]), signs its client
      certificate ([Signer]) and collects its metrics ([Metrics]).
    - An edge polls the control plane ([CpClient]).  It terminates TLS with
      certificates it fetches, possibly on demand inside a handshake ([Certs]), keeps
      its client certificate current ([Remint]), enforces the rule sets it holds
      ([EdgeRules]), caches responses under override rules ([CacheRule]), and applies
      the control plane's invalidations ([PurgeEdge]).
    - Rate limits, WAF rules, Coraza directives, transform rules and cache
      overrides are tenant documents in ConfigMaps, compiled all-or-nothing and
      hot-swapped while requests run.
    - The controller decides which peers it trusts from configured address ranges
      and from client certificates that chain to the edge CA, whose bundle it polls
      from the control plane.
    - A rotation of the edge CA ([Rotation]) is gated by an interlock ([Converge]) over
      metrics that every process exposes and a job reads back ([Revoke]).

    ** Files

    - [Prelude]: error results, fixed-width integers, time units, tactics,
      transition sequences, list and map lemmas, the hint database [go].
    - [GoString]: the string functions of Go's library that the source calls
      ([strings], [net.JoinHostPort] and [net.SplitHostPort], [strconv]).
    - [GoTime]: [time.ParseDuration] and [Duration.String], with binary64
      arithmetic where the library uses it.
    - [GoURL]: [net/url] (escaping, query parsing and encoding, the request URI)
      and the canonical keys of [http.Header].
    - [Route] ([src/route]): modules [BadAddr] (badaddr.go), [RRLB] (rrlb.go) and
      [Table] (table.go).  [RouteProps]: the round robin is fair, answers are
      sound, [Lookup] on every branch, and a failed dial keeps its pod out for
      exactly the penalty.
    - [Controller] ([src/controller.go]): objects as records, the four reloads,
      the incremental endpoint path, watch and resync, the request handler.
      [ControllerProps]: the incremental path refines the full rebuild; a declared
      route reaches a ready pod (by inductive predicates on the watched objects:
      [readyAddress], [targets], [selects]); the routes are those declared; resync
      reconciles; and the relabelled slice that the incremental path misses.
    - [Trust] ([src/trust/trust.go]): the bundle client, strict parsing, warm
      start, [apply], the polling loop and [VerifyClientCert]; [TrustConc] is the
      request path interleaved with [apply], [TrustSession] polls and restarts over
      one cache file.  [TrustProps]: positive answers are grounded in an installed
      pool, a rotated-out CA cannot be resurrected across restarts, parsing is
      all-or-nothing and terminates, failures keep the pool in force; and the race
      by which a rotated-out leaf stays trusted.
    - [TrustCIDR] ([src/trustcidr], wafvalidated.go and the trust predicate of
      main.go): the TRUST_PROXY language and when the WAF is skipped.
    - [TransformRule] ([src/transformrule]): parsing, compilation and execution of
      transform zones.  [TransformProps]: execution agrees with a reference that has
      no snapshot cache, compiled zones are well formed and in the declared order,
      rewritten queries read back, and a redirect's status is not checked.
    - [Coraza] ([src/corazawaf]): the hot-swappable engine.  [CorazaProps]: body
      inspection is bounded and transparent to the upstream.
    - [ServeMux]: the interface [MuxOps] of [net/http]'s multiplexer, and [Lit], its
      algorithm for the patterns that the source registers.
    - [Reload] (controller_waf.go, controller_ratelimit.go, controller_coraza.go,
      controller_transform.go, featurelabel.go, [src/wafrule]): how labelled
      ConfigMaps become global instances and zones, over a heap of instances and
      against the interface [Engine]/[EngineLaws], which the WAF, [Coraza] and
      [RateLimit] instances satisfy ([wafLaws], [corazaLaws], [rateLimitLaws]).
      [ReloadProps]: a registry serves the last good documents after any history,
      the order of ranges is not observable, fingerprints only save work.
    - [Certs]: module [CertTable] (cert/table.go), [CPCerts]
      (edgecp/certstore.go), [Authz] (edgecp/authz.go) and [EdgeCerts]
      (edge/certstore.go and the certificate part of edge/refresh.go), the last
      both as sequential operations and as interleaved steps ([cstep]).
      [CertProps]: resolution against a declarative choice, agreement of the two
      coverage indexes, exact authorisation, the bounds of on-demand fetching
      under every interleaving, and the lost update of overlapping [Update]s.
    - [PurgeJournal] (edgecp/purgestore.go): the journal refines an abstract log
      whatever its bound, and [Since] is exact.
    - [PurgeEdge] (edge/purge.go, edge/purgerefresh.go, the purge part of
      edge/cp.go): the epoch table is a class of operations and laws
      ([PurgeTableOps], [PurgeTableLaws]) with a reference instance; the protocol
      of polling, restarting and losing responses as a step relation; versioned
      persistence as another.  [PurgeProps]: nothing is under-invalidated while
      the control plane keeps its journal, a poll catches up, redelivery is
      harmless, persisted state never regresses, and a restarted journal that
      outgrew the edge's cursor is not noticed.
    - [Converge] (edgecp/converge/predicate.go): [Evaluate] phase by phase.
      [ConvergeProps]: it accepts exactly when every plane is ready for one
      target, dropping the old signer is safe then, and silence blocks.
    - [CacheRule] ([src/cacherule], edge/cache_override.go): validation,
      normalisation, all-or-nothing swap, evaluation, and the edge's global set
      and zones.  [CacheRuleProps]: a swap publishes exactly a valid batch or
      nothing, evaluation picks the declared best rule, errors never cache, and
      an update advances its ETag only when clean.
    - [RateLimit] ([src/ratelimitrule]): modules [SlidingWindow]
      (slidingwindow.go) and [RateLimit] (limiter.go, ratelimitrule.go) with an
      explicit heap of strategies.  [RateLimitProps]: the sliding window refines
      the full admission log, the invariant of live limits, counters carried
      across swaps, injective bucket keys, and the decision of a request.
    - [EdgeStores] (the stores of [src/edgecp], their reloads and the bindings of
      ingresses to zones).  [EdgeStoresProps]: an edge gets exactly what its domains
      bind, the bindings cover those of the core, and where the two disagree.
    - [EdgeRules] (the rule holders of [src/edge], their refreshes, the zone of a request,
      the WAF claim), over the interface [Engine] of [Reload].  [EdgeRulesProps]: a
      holder serves the last good snapshot, an edge enforces the zone that the core
      enforces, its claim is honest, and what joining documents loses.
    - [Signer] ([src/caid], edgecp/signer.go): PKI is the class [PKIOps].
      [SignerProps]: an id identifies a set of CAs, and what is signed has the shape, the
      identity and the lifetime that it must have.
    - [EdgeServer] (edgecp/server.go, issuance.go): the HTTP API.  [EdgeServerProps]: keys
      go to authorised edges only, and are those of the name's entry; tenants are isolated
      but for a generation counter; validators are exact, a
      certificate is issued under the identity of its token.
    - [CpClient] (edge/cp.go): [network] joins an edge to a server of [EdgeServer].
      [CpClientProps]: polling settles on what the server holds.
    - [Rotation] (edgecp/ca.go, signerreload.go): the compare-and-swap loops on the CA
      Secret and the reload of the signer.  [RotationProps]: they refine the phases of a
      rotation under any interleaving, trust is kept, issuance is never orphaned.
    - [Remint] (edge/remint.go, clientcert.go, refresh.go).  [RemintProps]: a mint
      converges on what the control plane advertises, after which only a target that
      differs starts another, and the coordinator is bounded.
    - [Metrics] (edgecp/metrics.go, metricstore.go).  [MetricsProps]: pushed series carry
      the identity of their edge, pushes are isolated, the merge is exact.
    - [Revoke] (converge/source.go, [src/cmd/edge-controlplane]).  [RevokeProps]: nothing
      irreversible happens ahead of its gate, the gates end, a rerun resumes, and what an
      edge's own metrics can make the interlock believe.
    - [Events] (edgecp/events.go, edge/events.go, the refresh loop of edge/refresh.go):
      [Events] the operations, [Feed] their interleaving.  [EventsProps]: wake-ups
      converge, subscriptions are capped, and the wake-up that a revisited version
      loses.
    - [Upstream] ([src/retry.go], [src/proxy]): [GoErr], [Writer], [Proxy], [Retry],
      [Probes].  [UpstreamProps]: a request is delivered at most once unless its
      transport says that it was not sent, a retry reaches a live pod, probes are
      single-flight, and the bodies that a retry loses.
    - [Debounce] ([src/debounce] and the rebuilds that it runs).  [DebounceProps]: no
      change is missed, prompt rebuilds publish the newest state, overlapping ones an old
      one.
    - [Plugins] ([src/plugin], [src/geoip], the order of main.go).  [PluginProps]:
      authentication fails closed, identity headers come from it only, address lists are
      exact, zones are the tenant's own.
    - [Watch] (the reloaders of [src/edgecp]): module [Relist] is their common loop, and
      [ReloaderLaws] what each of the seven reloaders discharges.  [RelistProps]: waiting
      with nothing queued after a list that succeeded means in step with the cluster, and
      the loop settles there, but for a failed list, which it does not retry.
    - [Mirror] (the start and the watches of [src/controller.go]): [Startup], [Mirror],
      [Wiring].  [MirrorProps]: ready means that everything was listed and then built; a
      store is the cluster but for the objects whose last change no event told (only
      deleted ones, when the API server opens a watch with its objects).
    - [WebSocket] ([src/wsh2], proxy/wstunnel.go, proxy/wsh2c.go, edge/wstunnel.go,
      edge/wsbridge.go, edge/forward.go): [Wsh2], [Wire], [Log], [CoreTunnel],
      [EdgeTunnel].  [WebSocketProps]: a handshake is served once, carries exactly the
      request, and is only accepted with its proof.
    - [Accounting] ([src/state], [src/metric], edge/requests.go, cachestatus.go,
      cacheegress.go, cachetotal.go): [State], [Labels], [Writers], [Counters].
      [AccountingProps]: states are isolated though their maps are reused, series are
      bounded, wrapped writers change nothing but what they say, gauges count what is
      open, and the status that an interim head hides.
    - [Programs] ([src/cmd]): [EdgeProxy], [ControlPlane], [Core]: what each checks before
      it serves and the order of its middlewares.  [ProgramsProps]: an edge and a control
      plane only start guarded, a request is vetted before the cache, the core judges
      before it transforms, and two checks that an empty value passes by.
    - [FsClient] ([src/k8s/fs.go]): the backend over a directory of manifests.
      [FsClientProps]: it serves what the files hold, and the writes and files that it
      mixes up.

    ** Conventions

    A Go function that can fail is an [option] or a [result] carrying the error.
    Mutable objects are records passed and returned; where several holders share
    an object (a strategy carried between limit sets) the heap is explicit, and
    where goroutines interleave (on-demand fetches, certificate updates, purge
    polls, persistence, endpoint events) the code is a step relation whose steps
    are its critical sections.  A map whose iteration order matters is visited
    through a list that the theorems quantify over all permutations of.
    Instants come in as arguments, one per reading of the clock; durations and
    counters are integers in nanoseconds or at their machine width ([u32],
    [u64]).  Byte strings are compared and folded as ASCII.

    Code outside [src/] is a parameter: the WAF predicate engine and the WAF
    itself, Coraza, YAML decoding, parapet's middlewares (fixed-window strategy, response
    cache with its epoch table, CIDR matching, host normalization, cors, compression),
    the HTTP/2 transports of [x/net], the Prometheus text format and its server,
    client-go, the GeoIP databases.  So are, from the standard library, X.509, PEM and
    key-pair parsing, TLS, hashing (SHA-1, SHA-256), base64 of proofs, JSON, regular
    expressions, [url.Parse], [strconv.ParseFloat], address and prefix parsing
    ([net/netip]) and HTTP/1.1 transports; the rest of the library that the modelled
    code uses is written out, [http.ServeMux] for the patterns that are registered.
    Where a theorem relies on laws of such code they are a class or a hypothesis, with
    a concrete instance that the witnesses use.

    ** Bounds and fuel

    [GoTime.durationLoop] takes the length of the string as fuel; every term
    consumes a character ([durationTerm_length]), so more fuel never changes the
    answer ([durationLoop_fuel]).  [Trust.strictPoolLoop], [Trust.appendCertsLoop] and
    [Signer.decodeAll] take the length of the bundle plus one; every PEM block consumes
    input ([Blocks_exist], [strictPoolLoop_blocks]).  [Metrics.evictLoop] takes the number
    of instances, of which every round removes one.  [Revoke.pollLoop] takes the number of
    polls that fit ahead of the deadline plus two, and [gate_terminates] shows that this is
    enough.  [FsClient.addObject] takes the length of the text plus one; documents and items
    are shorter than what holds them ([addObject_in]).  Every other recursion is structural: the
    compare-and-swap loops over the answers of the API server and the retry over the
    attempts that the source allows (5).  Termination of the loops that run forever is
    stated for the steps between two waits, by the measure [Watch.Relist.work].  The
    negative cache bound (4096), the in-flight cap (32 by default), identifier lengths
    (63), the key part cap (128), the body limits and the backoff limits are the source's
    constants.

    ** Not modelled

    - Logging, tracing, the registration of metrics, histograms and the counters that
      only forward an increment: they decide nothing.
    - The storage of the response cache on disk and its sizes, the reaper's ticker, and the
      loop that pushes an edge's metrics: I/O around third-party code.
    - The calls to the Kubernetes API ([src/k8s/cluster.go], which forwards each to
      client-go), and opening and reading the GeoIP databases.
    - The listeners of the programs, with their timeouts, TLS configurations and graceful
      shutdown, the profiler, byte sizes in the environment ([parseBytes]) and the
      upstream of the end-to-end tests.
    - The response side of a chain of middlewares in [Programs]: a stage there passes on a
      request or answers it; the wrappers of a response are in [Accounting] and [Upstream].
    - Of [controller_waf.go] and its kin, the recovery of a panic in the middle of a
      pass. *)

From Stdlib Require Export Ascii String ZArith Lia.
From stdpp Require Export base tactics option list gmap strings pretty sorting.

Set Default Proof Using "Type".

Declare Scope go_scope.
Delimit Scope go_scope with go.

(** ** Errors

    A Go function returning [(T, error)] is a [result]: the error value of the
    code is kept as data of type [E], so that a theorem can say which branch
    failed. *)

Inductive result (E A : Type) : Type :=
| Ok (a : A)
| Err (e : E).
Arguments Ok {E A} _.
Arguments Err {E A} _.

Definition rbind {E A B} (m : result E A) (k : A -> result E B) : result E B :=
  match m with
  | Ok a => k a
  | Err e => Err e
  end.

Notation "x <-r m ; k" := (rbind m (fun x => k))
  (at level 20, m at level 100, k at level 200, right associativity) : go_scope.

Definition is_ok {E A} (m : result E A) : bool :=
  match m with Ok _ => true | Err _ => false end.

(** ** Fixed-width integers

    A [uint32]/[uint64] is a [Z] kept in range by an explicit reduction. *)

Definition u32 (z : Z) : Z := (z mod 2 ^ 32)%Z.
Definition u64 (z : Z) : Z := (z mod 2 ^ 64)%Z.

Definition maxU64 : Z := (2 ^ 64 - 1)%Z.

Lemma u64_small z : (0 <= z < 2 ^ 64)%Z -> u64 z = z.
Proof. apply Z.mod_small. Qed.

Lemma u32_small z : (0 <= z < 2 ^ 32)%Z -> u32 z = z.
Proof. apply Z.mod_small. Qed.

Lemma u32_bounds z : (0 <= u32 z < 2 ^ 32)%Z.
Proof. apply Z.mod_pos_bound. lia. Qed.

Lemma u64_bounds z : (0 <= u64 z < 2 ^ 64)%Z.
Proof. apply Z.mod_pos_bound. lia. Qed.

(** ** Time

    Instants and durations are nanosecond counts ([time.Duration] is an
    [int64] of nanoseconds). *)

Definition nanosecond : Z := 1.
Definition millisecond : Z := 1000000.
Definition second : Z := 1000000000.
Definition minute : Z := (60 * second)%Z.
Definition hour : Z := (60 * minute)%Z.

(** ** Tactics *)

(** Case analysis on every [match]/[if] scrutinee of the goal, outermost first,
    keeping the equation. *)
Ltac split_match :=
  match goal with
  | |- context [match ?x with _ => _ end] =>
      lazymatch x with
      | context [match _ with _ => _ end] => fail
      | _ => destruct x eqn:?
      end
  end.

Ltac split_match_in H :=
  match type of H with
  | context [match ?x with _ => _ end] =>
      lazymatch x with
      | context [match _ with _ => _ end] => fail
      | _ => destruct x eqn:?
      end
  end.

(** Turn the boolean tests of the context into propositions. *)
Ltac bool_props :=
  repeat match goal with
  | H : (_ && _)%bool = true |- _ => apply andb_prop in H as [? ?]
  | H : (_ || _)%bool = false |- _ => apply orb_false_elim in H as [? ?]
  | H : negb _ = true |- _ => apply negb_true_iff in H
  | H : negb _ = false |- _ => apply negb_false_iff in H
  | H : bool_decide _ = true |- _ => apply bool_decide_eq_true in H
  | H : bool_decide _ = false |- _ => apply bool_decide_eq_false in H
  | H : (_ <? _)%Z = true |- _ => apply Z.ltb_lt in H
  | H : (_ <? _)%Z = false |- _ => apply Z.ltb_ge in H
  | H : (_ <=? _)%Z = true |- _ => apply Z.leb_le in H
  | H : (_ <=? _)%Z = false |- _ => apply Z.leb_gt in H
  | H : (_ =? _)%Z = true |- _ => apply Z.eqb_eq in H
  | H : (_ =? _)%Z = false |- _ => apply Z.eqb_neq in H
  | H : String.eqb _ _ = true |- _ => apply String.eqb_eq in H
  | H : String.eqb _ _ = false |- _ => apply String.eqb_neq in H
  end.

(** ** Transition sequences

    The reflexive-transitive closure of a step relation, and induction of an
    invariant along it. *)

Inductive star {A : Type} (R : A -> A -> Prop) : A -> A -> Prop :=
| star_refl a : star R a a
| star_step a b c : R a b -> star R b c -> star R a c.

Create HintDb go discriminated.
#[export] Hint Constructors star : go.
#[export] Hint Resolve u32_bounds u64_bounds : go.

Lemma star_invariant {A} (R : A -> A -> Prop) (I : A -> Prop) :
  (forall a b, I a -> R a b -> I b) ->
  forall a b, star R a b -> I a -> I b.
Proof. intros Hstep a b Hs. induction Hs; eauto. Qed.

Lemma star_trans {A} (R : A -> A -> Prop) a b c :
  star R a b -> star R b c -> star R a c.
Proof. intros H1 H2. induction H1; eauto with go. Qed.

(** ** Lists *)

Section lists.
Context {A : Type}.
Implicit Types (l : list A) (f : A -> bool).

(** [List.find] returns the first match, with everything before it failing. *)
Lemma find_some_split f l a :
  List.find f l = Some a <->
  exists l1 l2, l = l1 ++ a :: l2 /\ f a = true /\ Forall (fun x => f x = false) l1.
Proof.
  induction l as [|x l IH]; simpl.
  - split; [done|]. intros (l1 & l2 & H & _). by destruct l1.
  - destruct (f x) eqn:Hx; split.
    + intros [= ->]. exists [], l. repeat constructor. done.
    + intros (l1 & l2 & Hl & Ha & Hall). destruct l1 as [|y l1].
      * by simplify_eq/=.
      * simplify_eq/=. inversion Hall. congruence.
    + intros (l1 & l2 & -> & Ha & Hall)%IH. exists (x :: l1), l2.
      repeat split; [done|]. by constructor.
    + intros (l1 & l2 & Hl & Ha & Hall). destruct l1 as [|y l1].
      * simplify_eq/=. congruence.
      * simplify_eq/=. inversion Hall; subst. apply IH. eauto.
Qed.

Lemma find_none_forall f l :
  List.find f l = None <-> Forall (fun x => f x = false) l.
Proof.
  induction l as [|x l IH]; simpl; [by split|].
  destruct (f x) eqn:Hx; rewrite Forall_cons.
  - split; [done|]. intros [? _]. congruence.
  - rewrite IH. split; [by split|]. by intros [_ ?].
Qed.

Lemma find_app f l1 l2 :
  List.find f (l1 ++ l2) =
  match List.find f l1 with Some a => Some a | None => List.find f l2 end.
Proof. induction l1 as [|x l1 IH]; simpl; [done|]. by destruct (f x). Qed.

(** How many elements pass a test. *)
Fixpoint countb f l : nat :=
  match l with [] => 0 | x :: l => (if f x then 1 else 0) + countb f l end.

Lemma countb_app f l1 l2 : countb f (l1 ++ l2) = countb f l1 + countb f l2.
Proof. induction l1 as [|x l1 IH]; simpl; [done|]. rewrite IH. lia. Qed.

Lemma existsb_false_forall f l :
  existsb f l = false <-> Forall (fun x => f x = false) l.
Proof.
  induction l as [|x l IH]; simpl; [by split|].
  rewrite orb_false_iff, Forall_cons, IH. done.
Qed.

Lemma app_eq_nil_iff l1 l2 : l1 ++ l2 = [] <-> l1 = [] /\ l2 = [].
Proof. split; [apply app_eq_nil|]. by intros [-> ->]. Qed.

Lemma list_if_nil (b : bool) (x : A) :
  (if b then [x] else []) = [] <-> b = false.
Proof. by destruct b. Qed.

Lemma concat_nil_forall (ls : list (list A)) :
  List.concat ls = [] <-> Forall (fun l => l = []) ls.
Proof.
  induction ls as [|l ls IH]; simpl; [by split|].
  rewrite app_eq_nil_iff, IH, Forall_cons. done.
Qed.

Lemma filter_length_le (P : A -> Prop) `{!forall x, Decision (P x)} l :
  length (filter P l) <= length l.
Proof. apply length_filter. Qed.
End lists.

(** A duplicate-free image makes the function injective on the list. *)
Lemma NoDup_fmap_inj {A B} (f : A -> B) (l : list A) x y :
  NoDup (f <$> l) -> x ∈ l -> y ∈ l -> f x = f y -> x = y.
Proof.
  induction l as [|a l IH]; simpl; [by intros _ ?%elem_of_nil|].
  intros [Ha Hnd]%NoDup_cons. rewrite !elem_of_cons.
  intros [->|Hx] [->|Hy] Heq; [done| | |auto].
  - destruct Ha. rewrite Heq. by apply list_elem_of_fmap_2.
  - destruct Ha. rewrite <- Heq. by apply list_elem_of_fmap_2.
Qed.

Lemma countb_fmap {A B} (f : B -> bool) (g : A -> B) l : countb f (g <$> l) = countb (f ∘ g) l.
Proof. induction l as [|x l IH]; [done|]. rewrite fmap_cons. cbn [countb]. by rewrite IH. Qed.

(** ** Folding insertions into a map *)

Definition insertAll {V} (l : list (string * V)) (m : gmap string V) : gmap string V :=
  fold_left (fun m kv => <[kv.1 := kv.2]> m) l m.

Lemma insertAll_in {V} (l : list (string * V)) m k v :
  insertAll l m !! k = Some v -> (k, v) ∈ l \/ m !! k = Some v.
Proof.
  revert m. induction l as [|[k' v'] l IH]; intros m; simpl; [by right|].
  intros [Hin|Hm]%IH; [left; by right|].
  destruct (decide (k' = k)) as [->|Hne].
  - rewrite lookup_insert_eq in Hm. injection Hm as ->. left. by left.
  - rewrite lookup_insert_ne in Hm by done. by right.
Qed.

Lemma insertAll_some {V} (l : list (string * V)) m k :
  is_Some (insertAll l m !! k) <-> is_Some (m !! k) \/ exists v, (k, v) ∈ l.
Proof.
  revert m. induction l as [|[k' v'] l IH]; intros m; simpl.
  - split; [by left|]. intros [?|[v Hv%elem_of_nil]]; done.
  - rewrite IH. destruct (decide (k' = k)) as [->|Hne].
    + rewrite lookup_insert_eq. split; [|intros _; left; eauto].
      intros _. right. exists v'. by left.
    + rewrite lookup_insert_ne by done. setoid_rewrite elem_of_cons. naive_solver.
Qed.

(** Entries that agree on a key determine its value. *)
Lemma insertAll_iff {V} (l : list (string * V)) k v :
  (forall v1 v2, (k, v1) ∈ l -> (k, v2) ∈ l -> v1 = v2) ->
  insertAll l ∅ !! k = Some v <-> (k, v) ∈ l.
Proof.
  intros Huniq. split.
  - intros [?|H]%insertAll_in; [done|]. by rewrite lookup_empty in H.
  - intros Hin. assert (is_Some (insertAll l ∅ !! k)) as [v' Hv'] by (apply insertAll_some; eauto).
    rewrite Hv'. f_equal. apply insertAll_in in Hv' as [?|H]; [by eapply Huniq|].
    by rewrite lookup_empty in H.
Qed.

Lemma insertAll_ext {V} (l : list (string * V)) m m' k :
  m !! k = m' !! k -> insertAll l m !! k = insertAll l m' !! k.
Proof.
  revert m m'. induction l as [|[k0 v0] l IH]; intros m m' He; [done|]. apply IH.
  destruct (decide (k = k0)) as [->|Hne]; [by rewrite !lookup_insert_eq|]. by rewrite !lookup_insert_ne.
Qed.

(** A key of the list forgets what was there before. *)
Lemma insertAll_over {V} (l : list (string * V)) m m' k :
  (exists v, (k, v) ∈ l) -> insertAll l m !! k = insertAll l m' !! k.
Proof.
  revert m m'. induction l as [|[k0 v0] l IH]; intros m m' [v Hv]; [by apply elem_of_nil in Hv|].
  destruct (decide (k = k0)) as [->|Hne].
  - cbn [insertAll fold_left]. apply (insertAll_ext l). by rewrite !lookup_insert_eq.
  - apply IH. apply elem_of_cons in Hv as [[= -> _]|Hv]; [done|eauto].
Qed.

Lemma insertAll_app {V} (l1 l2 : list (string * V)) m :
  insertAll (l1 ++ l2) m = insertAll l2 (insertAll l1 m).
Proof. apply fold_left_app. Qed.

(** ** [sort.SliceStable] by an integer key *)

Section stable_sort.
Context {A : Type} (key : A -> Z).

Fixpoint insertByKey (x : A) (l : list A) : list A :=
  match l with
  | [] => [x]
  | y :: l' => if (key x <=? key y)%Z then x :: l else y :: insertByKey x l'
  end.

Definition sortByKey (l : list A) : list A := foldr insertByKey [] l.

Definition keyLe (x y : A) : Prop := (key x <= key y)%Z.

Lemma insertByKey_perm x l : insertByKey x l ≡ₚ x :: l.
Proof. induction l as [|y l IH]; simpl; [done|]. case_match; [done|]. rewrite IH. constructor. Qed.

Lemma sortByKey_perm l : sortByKey l ≡ₚ l.
Proof. induction l as [|x l IH]; simpl; [done|]. by rewrite insertByKey_perm, IH. Qed.

Lemma insertByKey_sorted x l : StronglySorted keyLe l -> StronglySorted keyLe (insertByKey x l).
Proof.
  induction 1 as [|y l Hs IH Hy]; simpl; [by repeat constructor|].
  destruct (Z.leb_spec (key x) (key y)).
  - constructor; [by constructor|]. constructor; [done|].
    eapply Forall_impl; [exact Hy|]. unfold keyLe. lia.
  - constructor; [done|]. rewrite insertByKey_perm. constructor; [unfold keyLe; lia|done].
Qed.

Lemma sortByKey_sorted l : StronglySorted keyLe (sortByKey l).
Proof. induction l; simpl; [constructor|]. by apply insertByKey_sorted. Qed.

(** Elements of equal key keep their order. *)
Lemma sortByKey_stable k l :
  List.filter (fun x => key x =? k)%Z (sortByKey l) = List.filter (fun x => key x =? k)%Z l.
Proof.
  induction l as [|x l IH]; [done|]. cbn [List.filter]. rewrite <- IH. simpl.
  generalize (sortByKey l). clear IH. intros m. induction m as [|y m IHm]; simpl; [by case_match|].
  destruct (Z.leb_spec (key x) (key y)); simpl; [by case_match|]. rewrite IHm.
  destruct (Z.eqb_spec (key x) k), (Z.eqb_spec (key y) k); try done. lia.
Qed.

(** [l'] is [l] put in the order of the key, equal keys keeping their order. *)
Definition StableSorted (l l' : list A) : Prop :=
  l' ≡ₚ l /\ StronglySorted keyLe l' /\
  forall k, List.filter (fun x => key x =? k)%Z l' = List.filter (fun x => key x =? k)%Z l.

Lemma sortByKey_spec l : StableSorted l (sortByKey l).
Proof.
  split; [apply sortByKey_perm|]. split; [apply sortByKey_sorted|]. intros k. apply sortByKey_stable.
Qed.
End stable_sort.
