(* ===== verification/GoString.v ===== *)
(** * Go's string primitives used by the controller

    Strings are byte strings ([String.string], one [ascii] per byte).  The
    functions of package [strings], [net] and [strconv] that the source calls
    are written out here from their documented behaviour; case folding and
    space trimming are the ASCII ones (DNS names, hosts and identifiers are
    ASCII; a byte above 0x7F is left unchanged). *)

From S2P Require Import Prelude.
Open Scope string_scope.
Open Scope list_scope.

#[global] Arguments String.append : simpl nomatch.

(** ** Characters *)

Definition c_dot : ascii := "."%char.
Definition c_colon : ascii := ":"%char.
Definition c_slash : ascii := "/"%char.
Definition c_comma : ascii := ","%char.

Definition lower_ascii (c : ascii) : ascii :=
  let n := nat_of_ascii c in
  if (65 <=? n)%nat && (n <=? 90)%nat then ascii_of_nat (n + 32) else c.

Definition is_space (c : ascii) : bool :=
  let n := nat_of_ascii c in
  ((9 <=? n) && (n <=? 13) || (n =? 32))%nat.

(** ** [strings.ToLower], [strings.TrimSpace] *)

Fixpoint to_lower (s : string) : string :=
  match s with
  | EmptyString => EmptyString
  | String c s => String (lower_ascii c) (to_lower s)
  end.

Fixpoint trim_left (s : string) : string :=
  match s with
  | EmptyString => EmptyString
  | String c s' => if is_space c then trim_left s' else s
  end.

Fixpoint trim_right (s : string) : string :=
  match s with
  | EmptyString => EmptyString
  | String c s' =>
      match trim_right s' with
      | EmptyString => if is_space c then EmptyString else String c EmptyString
      | s'' => String c s''
      end
  end.

Definition trim_space (s : string) : string := trim_right (trim_left s).

(** ** [strings.HasPrefix], [strings.TrimSuffix], slicing *)

Fixpoint has_prefix (s p : string) {struct p} : bool :=
  match p, s with
  | EmptyString, _ => true
  | String _ _, EmptyString => false
  | String a p', String b s' => Ascii.eqb a b && has_prefix s' p'
  end.

(** [strings.TrimSuffix(s, string(c))] for a one-byte suffix. *)
Fixpoint trim_suffix_char (c : ascii) (s : string) : string :=
  match s with
  | EmptyString => EmptyString
  | String a EmptyString => if Ascii.eqb a c then EmptyString else s
  | String a s' => String a (trim_suffix_char c s')
  end.

Fixpoint str_take (n : nat) (s : string) : string :=
  match n, s with
  | S n', String c s' => String c (str_take n' s')
  | _, _ => EmptyString
  end.

Fixpoint str_drop (n : nat) (s : string) : string :=
  match n, s with
  | S n', String _ s' => str_drop n' s'
  | _, _ => s
  end.

(** ** [strings.IndexByte], [strings.LastIndexByte] (None is -1) *)

Fixpoint index_byte (c : ascii) (s : string) : option nat :=
  match s with
  | EmptyString => None
  | String a s' =>
      if Ascii.eqb a c then Some 0 else S <$> index_byte c s'
  end.

Fixpoint last_index_byte (c : ascii) (s : string) : option nat :=
  match s with
  | EmptyString => None
  | String a s' =>
      match last_index_byte c s' with
      | Some i => Some (S i)
      | None => if Ascii.eqb a c then Some 0 else None
      end
  end.

Fixpoint mem_char (c : ascii) (s : string) : bool :=
  match s with
  | EmptyString => false
  | String a s' => Ascii.eqb a c || mem_char c s'
  end.

Fixpoint all_chars (p : ascii -> bool) (s : string) : bool :=
  match s with
  | EmptyString => true
  | String a s' => p a && all_chars p s'
  end.

(** ** [strings.Split] and [strings.Join] on a one-character separator *)

Fixpoint split_char (c : ascii) (s : string) : list string :=
  match s with
  | EmptyString => [""]
  | String a s' =>
      if Ascii.eqb a c then "" :: split_char c s'
      else match split_char c s' with
           | [] => [String a ""]
           | x :: xs => String a x :: xs
           end
  end.

Fixpoint join_char (c : ascii) (l : list string) : string :=
  match l with
  | [] => ""
  | [x] => x
  | x :: l' => x +:+ String c (join_char c l')
  end.

(** ** [sort.Strings]: byte-wise order *)

Definition str_le (a b : string) : Prop := String.leb a b = true.

#[global] Instance str_le_dec a b : Decision (str_le a b).
Proof. unfold str_le. apply _. Defined.

(** ** [strconv.Itoa] *)

Definition itoa (z : Z) : string := pretty z.

(** ** [strconv.Atoi]

    [None] is a syntax error (the value is then 0); out of range the value is the
    nearest [int64], as the function returns beside its error. *)

Definition is_digit (c : ascii) : bool :=
  let n := nat_of_ascii c in (48 <=? n)%nat && (n <=? 57)%nat.

Fixpoint decimal (s : string) (acc : Z) : Z :=
  match s with
  | EmptyString => acc
  | String c s => decimal s (10 * acc + (Z.of_nat (nat_of_ascii c) - 48))
  end.

Definition unsignedDigits (s : string) : option Z :=
  if String.eqb s "" || negb (all_chars is_digit s) then None else Some (decimal s 0).

Definition clamp64 (z : Z) : Z := Z.max (- 2 ^ 63) (Z.min (2 ^ 63 - 1) z).

Definition Atoi (s : string) : option Z :=
  match s with
  | String c t =>
      if (Ascii.eqb c "-")%char then clamp64 ∘ Z.opp <$> unsignedDigits t
      else if (Ascii.eqb c "+")%char then clamp64 <$> unsignedDigits t
      else clamp64 <$> unsignedDigits s
  | EmptyString => None
  end.

(** [strconv.ParseInt] in base 10 for 64 bits, and [strconv.Atoi] where its error is
    looked at: out of range is an error too. *)
Definition signedDigits (s : string) : option Z :=
  match s with
  | String c t =>
      if Ascii.eqb c "-" then Z.opp <$> unsignedDigits t
      else if Ascii.eqb c "+" then unsignedDigits t
      else unsignedDigits s
  | EmptyString => None
  end.
Definition ParseInt (s : string) : option Z :=
  match signedDigits s with
  | Some z => if ((- 2 ^ 63 <=? z) && (z <? 2 ^ 63))%Z then Some z else None
  | None => None
  end.

(** ** [net.JoinHostPort], [net.SplitHostPort] *)

Definition join_host_port (host port : string) : string :=
  if mem_char c_colon host
  then "[" +:+ host +:+ "]:" +:+ port
  else host +:+ ":" +:+ port.

(** [None] is the error return (host and port are then both empty). *)
Definition split_host_port (hp : string) : option (string * string) :=
  match last_index_byte c_colon hp with
  | None => None
  | Some i =>
      let finish (host : string) (j k : nat) :=
        if mem_char "["%char (str_drop j hp) then None
        else if mem_char "]"%char (str_drop k hp) then None
        else Some (host, str_drop (S i) hp) in
      if has_prefix hp "[" then
        match index_byte "]"%char hp with
        | None => None
        | Some e =>
            if (S e =? String.length hp)%nat then None
            else if (S e =? i)%nat
                 then finish (str_drop 1 (str_take e hp)) 1 (S e)
                 else None
        end
      else
        let host := str_take i hp in
        if mem_char c_colon host then None else finish host 0 0
  end.

(** ** Lemmas *)

Lemma mem_char_app c s t : mem_char c (s +:+ t) = mem_char c s || mem_char c t.
Proof. induction s as [|a s IH]; simpl; [done|]. by rewrite IH, orb_assoc. Qed.

Lemma str_take_app s t : str_take (String.length s) (s +:+ t) = s.
Proof.
  induction s as [|a s IH]; simpl; [by destruct t|]. by rewrite IH.
Qed.

Lemma str_drop_app s t : str_drop (String.length s) (s +:+ t) = t.
Proof. induction s as [|a s IH]; simpl; [by destruct t|done]. Qed.

Lemma str_drop_0 s : str_drop 0 s = s.
Proof. by destruct s. Qed.

Lemma str_drop_app_plus s k t : str_drop (String.length s + k) (s +:+ t) = str_drop k t.
Proof. induction s as [|a s IH]; simpl; done. Qed.

Lemma str_take_drop n s : str_take n s +:+ str_drop n s = s.
Proof.
  revert s. induction n as [|n IH]; intros [|a s]; simpl; try done. by rewrite IH.
Qed.

Lemma last_index_byte_none c s : last_index_byte c s = None <-> mem_char c s = false.
Proof.
  induction s as [|a s IH]; simpl; [done|].
  destruct (last_index_byte c s) eqn:E; rewrite orb_false_iff, <- IH.
  - by split; [|intros [_ ?]].
  - destruct (Ascii.eqb a c); by split; [|intros [? _]].
Qed.

Lemma last_index_byte_app c s t :
  last_index_byte c t = Some 0 ->
  last_index_byte c (s +:+ t) = Some (String.length s).
Proof.
  intros Ht. induction s as [|a s IH]; simpl; [done|]. by rewrite IH.
Qed.

Lemma last_index_byte_last c s t :
  mem_char c t = false ->
  last_index_byte c (s +:+ String c t) = Some (String.length s).
Proof.
  intros Ht. apply last_index_byte_app. simpl.
  apply last_index_byte_none in Ht. by rewrite Ht, Ascii.eqb_refl.
Qed.

Lemma index_byte_app c s t :
  mem_char c s = false ->
  index_byte c (s +:+ String c t) = Some (String.length s).
Proof.
  induction s as [|a s IH]; simpl.
  - by rewrite Ascii.eqb_refl.
  - intros [-> H]%orb_false_iff. by rewrite IH.
Qed.

Lemma index_byte_none c s : index_byte c s = None <-> mem_char c s = false.
Proof.
  induction s as [|a s IH]; simpl; [done|].
  destruct (Ascii.eqb a c); simpl; [done|].
  rewrite fmap_None. done.
Qed.

Lemma index_byte_some c s i :
  index_byte c s = Some i ->
  str_drop i s = String c (str_drop (S i) s) /\ mem_char c (str_take i s) = false.
Proof.
  revert i. induction s as [|a s IH]; intros i; simpl; [done|].
  destruct (Ascii.eqb a c) eqn:E.
  - intros [= <-]. apply Ascii.eqb_eq in E as ->. by destruct s.
  - intros (j & Hj & ->)%fmap_Some. destruct (IH j Hj) as [H1 H2]. simpl.
    rewrite E. split; [|done]. rewrite H1. by destruct s.
Qed.

Lemma str_app_assoc (a b c : string) : (a +:+ b) +:+ c = a +:+ (b +:+ c).
Proof. induction a as [|x a IH]; simpl; [done|]. by rewrite IH. Qed.

Lemma str_app_nil_r (a : string) : a +:+ "" = a.
Proof. induction a as [|x a IH]; simpl; [done|]. by rewrite IH. Qed.

Lemma str_app_inj_l (a b c : string) : a +:+ b = a +:+ c -> b = c.
Proof. induction a; simpl; [done|]. intros [= H]. auto. Qed.

Lemma str_length_app (a b : string) :
  String.length (a +:+ b) = (String.length a + String.length b)%nat.
Proof. induction a as [|x a IH]; simpl; [done|]. by rewrite IH. Qed.

(** A separator that occurs in neither left part splits a concatenation uniquely. *)
Lemma str_app_sep_inj c (a b s t : string) :
  mem_char c a = false -> mem_char c b = false ->
  a +:+ String c s = b +:+ String c t -> a = b /\ s = t.
Proof.
  revert b. induction a as [|x a IH]; intros [|y b]; simpl.
  - intros _ _ [= ->]. done.
  - intros _ Hb [= -> ?]. rewrite Ascii.eqb_refl in Hb. done.
  - intros Ha _ [= -> ?]. rewrite Ascii.eqb_refl in Ha. done.
  - intros [_ Ha]%orb_false_iff [_ Hb]%orb_false_iff [= -> H].
    destruct (IH b Ha Hb H) as [-> ->]. done.
Qed.

Lemma lower_ascii_idem c : lower_ascii (lower_ascii c) = lower_ascii c.
Proof. destruct c as [[] [] [] [] [] [] [] []]; reflexivity. Qed.

Lemma lower_ascii_sep c sep :
  sep = c_dot \/ sep = c_colon \/ sep = c_slash ->
  Ascii.eqb (lower_ascii c) sep = Ascii.eqb c sep.
Proof.
  destruct c as [[] [] [] [] [] [] [] []]; intros [-> | [-> | ->]]; reflexivity.
Qed.

Lemma to_lower_idem s : to_lower (to_lower s) = to_lower s.
Proof. induction s as [|c s IH]; simpl; [done|]. by rewrite lower_ascii_idem, IH. Qed.

Lemma to_lower_app s t : to_lower (s +:+ t) = to_lower s +:+ to_lower t.
Proof. induction s as [|c s IH]; simpl; [done|]. by rewrite IH. Qed.

(** Lower-casing and trimming one trailing dot commute. *)
Lemma to_lower_trim_suffix_dot s :
  to_lower (trim_suffix_char c_dot s) = trim_suffix_char c_dot (to_lower s).
Proof.
  induction s as [|c s IH]; [done|].
  destruct s as [|d s].
  - simpl. rewrite lower_ascii_sep by auto. by destruct (Ascii.eqb c c_dot).
  - change (trim_suffix_char c_dot (String c (String d s)))
      with (String c (trim_suffix_char c_dot (String d s))).
    change (to_lower (String c (String d s)))
      with (String (lower_ascii c) (String (lower_ascii d) (to_lower s))).
    cbn [to_lower]. rewrite IH. done.
Qed.

Lemma has_prefix_app p s : has_prefix (p +:+ s) p = true.
Proof. induction p as [|c p IH]; simpl; [done|]. by rewrite Ascii.eqb_refl, IH. Qed.

Lemma has_prefix_spec s p : has_prefix s p = true <-> exists t, s = p +:+ t.
Proof.
  split; [|intros [t ->]; apply has_prefix_app].
  revert s. induction p as [|c p IH]; intros s; simpl.
  { intros _. by exists s. }
  destruct s as [|d s]; [done|]. intros [Hc Hp]%andb_prop.
  apply Ascii.eqb_eq in Hc as ->. destruct (IH s Hp) as [t ->]. by exists t.
Qed.

(** The last colon and the closing bracket of a bracketed host and its port. *)
Lemma bracketed_last_colon host port :
  mem_char c_colon port = false ->
  last_index_byte c_colon (String "[" (host +:+ String "]" (String ":" port)))
  = Some (S (S (String.length host))).
Proof.
  intros Hc.
  replace (String "[" (host +:+ String "]" (String ":" port)))
    with ((String "[" (host +:+ "]")) +:+ String ":" port)
    by (simpl; by rewrite str_app_assoc).
  rewrite last_index_byte_last by done.
  simpl. rewrite str_length_app. simpl. f_equal. lia.
Qed.

Lemma bracketed_close host port :
  mem_char "]"%char host = false ->
  index_byte "]"%char (String "[" (host +:+ String "]" (String ":" port)))
  = Some (S (String.length host)).
Proof.
  intros Hr. cbn [index_byte]. change (Ascii.eqb "[" "]") with false. cbn iota.
  by rewrite index_byte_app by done.
Qed.

Lemma split_bracketed host port :
  mem_char "["%char host = false -> mem_char "]"%char host = false ->
  mem_char "["%char port = false -> mem_char "]"%char port = false ->
  mem_char c_colon port = false ->
  split_host_port (String "[" (host +:+ String "]" (String ":" port))) = Some (host, port).
Proof.
  intros Hl Hr Hpl Hpr Hc.
  unfold split_host_port.
  rewrite bracketed_last_colon by done.
  change (has_prefix (String "[" (host +:+ String "]" (String ":" port))) "[")
    with (true && has_prefix (host +:+ String "]" (String ":" port)) "").
  cbn [andb has_prefix].
  rewrite bracketed_close by done.
  assert (Hlen : (S (S (String.length host))
     =? String.length (String "[" (host +:+ String "]" (String ":" port))))%nat = false).
  { apply Nat.eqb_neq. simpl. rewrite str_length_app. simpl. lia. }
  rewrite Hlen, Nat.eqb_refl. cbv beta zeta.
  set (body := host +:+ String "]" (String ":" port)).
  change (str_drop 1 (String "[" body)) with (str_drop 0 body).
  change (str_drop 1 (str_take (S (String.length host)) (String "[" body)))
    with (str_drop 0 (str_take (String.length host) body)).
  change (str_drop (S (S (String.length host))) (String "[" body))
    with (str_drop (S (String.length host)) body).
  change (str_drop (S (S (S (String.length host)))) (String "[" body))
    with (str_drop (S (S (String.length host))) body).
  rewrite ?str_drop_0. subst body.
  rewrite str_take_app, <- (Nat.add_1_r (String.length host)), str_drop_app_plus.
  replace (S (String.length host + 1)) with (String.length host + 2) by lia.
  rewrite str_drop_app_plus, mem_char_app, Hl. simpl.
  rewrite Hpl, Hpr. by destruct port.
Qed.

Lemma split_plain host port :
  mem_char "["%char host = false -> mem_char "]"%char host = false ->
  mem_char "["%char port = false -> mem_char "]"%char port = false ->
  mem_char c_colon port = false -> mem_char c_colon host = false ->
  split_host_port (host +:+ String ":" port) = Some (host, port).
Proof.
  intros Hl Hr Hpl Hpr Hc Hcol.
  unfold split_host_port.
  rewrite last_index_byte_last by done.
  assert (Hnp : has_prefix (host +:+ String ":" port) "[" = false).
  { destruct host as [|c host]; [done|].
    change (mem_char "[" (String c host)) with (Ascii.eqb c "[" || mem_char "[" host) in Hl.
    apply orb_false_iff in Hl as [Hl _]. rewrite Ascii.eqb_sym in Hl.
    change (String c host +:+ String ":" port) with (String c (host +:+ String ":" port)).
    cbn [has_prefix]. by rewrite Hl. }
  rewrite Hnp, str_take_app, Hcol, !str_drop_0.
  rewrite <- (Nat.add_1_r (String.length host)), str_drop_app_plus.
  rewrite !mem_char_app, Hl, Hr. simpl. rewrite Hpl, Hpr. by destruct port.
Qed.

(** Joining and splitting a host and a port are inverse whenever the host has
    no bracket and the port is free of colons and brackets: the case of an IP
    address and a decimal port. *)
Lemma split_join_host_port host port :
  mem_char "["%char host = false -> mem_char "]"%char host = false ->
  mem_char c_colon port = false ->
  mem_char "["%char port = false -> mem_char "]"%char port = false ->
  split_host_port (join_host_port host port) = Some (host, port).
Proof.
  intros Hl Hr Hc Hpl Hpr. unfold join_host_port.
  destruct (mem_char c_colon host) eqn:Hcol.
  - by apply split_bracketed.
  - by apply split_plain.
Qed.

(** Trimming spaces is idempotent. *)
Lemma trim_right_idem s : trim_right (trim_right s) = trim_right s.
Proof.
  induction s as [|c s IH]; simpl; [done|].
  destruct (trim_right s) as [|d r] eqn:Hs.
  - destruct (is_space c) eqn:Hc; simpl; [done|by rewrite Hc].
  - cbn [trim_right] in *. cbn [trim_right]. by rewrite IH.
Qed.

Lemma trim_left_trim_right s : trim_left s = s -> trim_left (trim_right s) = trim_right s.
Proof.
  destruct s as [|c s]; simpl; [done|]. destruct (is_space c) eqn:Hc.
  - intros H. exfalso. assert (Hl : String.length (trim_left s) <= String.length s).
    { clear. induction s as [|d s IH]; simpl; [lia|]. destruct (is_space d); simpl; lia. }
    rewrite H in Hl. simpl in Hl. lia.
  - intros _. destruct (trim_right s); simpl; by rewrite Hc.
Qed.

Lemma trim_left_idem s : trim_left (trim_left s) = trim_left s.
Proof.
  induction s as [|c s IH]; simpl; [done|]. destruct (is_space c) eqn:Hc; [done|].
  simpl. by rewrite Hc.
Qed.

Lemma trim_space_idem s : trim_space (trim_space s) = trim_space s.
Proof.
  unfold trim_space. rewrite trim_left_trim_right by apply trim_left_idem.
  apply trim_right_idem.
Qed.

(** A string is trimmed to nothing when it holds spaces only. *)
Lemma trim_right_blank s : trim_right s = "" <-> all_chars is_space s = true.
Proof.
  induction s as [|c s IH]; simpl; [done|]. destruct (trim_right s); [|split; [done|]].
  - destruct (is_space c); simpl; [|done]. by rewrite <- IH.
  - intros [_ H]%andb_prop. by apply IH in H.
Qed.

Lemma trim_space_blank s : trim_space s = "" <-> all_chars is_space s = true.
Proof.
  unfold trim_space. rewrite trim_right_blank. induction s as [|c s IH]; simpl; [done|].
  destruct (is_space c) eqn:Hc; simpl; [done|by rewrite Hc].
Qed.

(** ** Counting a separator *)

Fixpoint count_char (c : ascii) (s : string) : nat :=
  match s with
  | EmptyString => 0
  | String a s => (if Ascii.eqb a c then 1 else 0) + count_char c s
  end.

Lemma count_char_app c s t : count_char c (s +:+ t) = count_char c s + count_char c t.
Proof. induction s as [|a s IH]; simpl; [done|]. rewrite IH. lia. Qed.

Lemma count_char_0 c s : count_char c s = 0 <-> mem_char c s = false.
Proof.
  induction s as [|a s IH]; simpl; [done|]. destruct (Ascii.eqb a c); simpl; [|done].
  split; [lia|done].
Qed.

(** A separator splits a concatenation uniquely when the right parts hold equally
    many of it. *)
Lemma str_app_count_inj c (a b s t : string) :
  count_char c s = count_char c t ->
  a +:+ String c s = b +:+ String c t -> a = b /\ s = t.
Proof.
  intros Hc. revert b. induction a as [|x a IH]; intros [|y b]; simpl.
  - by intros [= ->].
  - intros [= <- Hs]. apply (f_equal (count_char c)) in Hs.
    rewrite count_char_app in Hs. simpl in Hs. rewrite Ascii.eqb_refl in Hs. lia.
  - intros [= -> Hs]. apply (f_equal (count_char c)) in Hs.
    rewrite count_char_app in Hs. simpl in Hs. rewrite Ascii.eqb_refl in Hs. lia.
  - intros [= -> Hs]. by destruct (IH b Hs) as [-> ->].
Qed.

(** ** Decimal numbers *)

(** Digits and the minus sign. *)
Definition num_char (c : ascii) : bool :=
  let n := nat_of_ascii c in ((48 <=? n) && (n <=? 57) || (n =? 45))%nat.

Lemma all_chars_app p s t : all_chars p (s +:+ t) = all_chars p s && all_chars p t.
Proof. induction s as [|a s IH]; simpl; [done|]. by rewrite IH, andb_assoc. Qed.

Lemma pretty_N_go_num x s :
  all_chars num_char s = true -> all_chars num_char (pretty_N_go x s) = true.
Proof.
  revert s. induction (N.lt_wf_0 x) as [x _ IH]; intros s Hs.
  assert (x = 0 \/ 0 < x)%N as [->|Hx] by lia; [done|].
  rewrite pretty_N_go_step by done. apply IH; [by apply N.div_lt|].
  simpl. rewrite Hs, andb_true_r.
  assert (Hm : (x `mod` 10 < 10)%N) by (by apply N.mod_lt).
  generalize dependent (x `mod` 10)%N. clear. intros m Hm.
  destruct m as [|p]; [done|]. do 4 (destruct p as [p|p|]; try done; try lia).
Qed.

Lemma pretty_N_num (n : N) : all_chars num_char (pretty n) = true.
Proof. unfold pretty, pretty_N. case_decide; [done|]. by apply pretty_N_go_num. Qed.

Lemma itoa_num z : all_chars num_char (itoa z) = true.
Proof.
  unfold itoa. destruct z; [done|apply (pretty_N_num (Npos p))|].
  change (pretty (Z.neg p)) with ("-" +:+ pretty (Npos p)).
  rewrite all_chars_app. by rewrite (pretty_N_num (Npos p)).
Qed.

Lemma all_chars_mem p c s : all_chars p s = true -> p c = false -> mem_char c s = false.
Proof.
  intros Hs Hc. induction s as [|a s IH]; simpl in *; [done|]. bool_props.
  rewrite IH by done. destruct (Ascii.eqb_spec a c) as [->|]; [congruence|done].
Qed.

Lemma itoa_no_char c z : num_char c = false -> mem_char c (itoa z) = false.
Proof. intros Hc. by eapply all_chars_mem; [apply itoa_num|]. Qed.

Lemma itoa_inj z1 z2 : itoa z1 = itoa z2 -> z1 = z2.
Proof. apply (inj pretty). Qed.

Lemma str_app_inj_r (a b c : string) : a +:+ c = b +:+ c -> a = b.
Proof.
  intros H. assert (Hl : String.length a = String.length b).
  { apply (f_equal String.length) in H. rewrite !str_length_app in H. lia. }
  rewrite <- (str_take_app a c), H, Hl. apply str_take_app.
Qed.

(** ** Splitting and joining *)

Lemma split_char_cons c s : exists x xs, split_char c s = x :: xs.
Proof.
  destruct s as [|a s]; simpl; [by eexists _, _|].
  destruct (Ascii.eqb a c); [by eexists _, _|]. destruct (split_char c s); by eexists _, _.
Qed.

Lemma split_char_none c s : mem_char c s = false -> split_char c s = [s].
Proof.
  induction s as [|a s IH]; simpl; [done|]. intros [-> Hs]%orb_false_iff. by rewrite IH.
Qed.

Lemma split_char_app c s t :
  mem_char c s = false -> split_char c (s +:+ String c t) = s :: split_char c t.
Proof.
  induction s as [|a s IH]; simpl; [by rewrite Ascii.eqb_refl|].
  intros [-> Hs]%orb_false_iff. by rewrite IH.
Qed.

Lemma split_char_elem c s x : x ∈ split_char c s -> mem_char c x = false.
Proof.
  revert x. induction s as [|a s IH]; intros x; simpl; [by intros ->%list_elem_of_singleton|].
  destruct (Ascii.eqb a c) eqn:Ha.
  - intros [->|Hx]%elem_of_cons; [done|by apply IH].
  - destruct (split_char_cons c s) as (y & ys & Hs). rewrite Hs in *.
    intros [->|Hx]%elem_of_cons.
    + simpl. rewrite Ha. apply IH. by left.
    + apply IH. by right.
Qed.

Lemma split_join_char c l :
  l <> [] -> Forall (fun x => mem_char c x = false) l -> split_char c (join_char c l) = l.
Proof.
  induction l as [|x l IH]; [done|]. intros _ [Hx Hl]%Forall_cons.
  destruct l as [|y l]; [by apply split_char_none|].
  change (join_char c (x :: y :: l)) with (x +:+ String c (join_char c (y :: l))).
  by rewrite split_char_app, IH.
Qed.

Lemma join_char_mem c x y l : mem_char c (join_char c (x :: y :: l)) = true.
Proof.
  change (join_char c (x :: y :: l)) with (x +:+ String c (join_char c (y :: l))).
  rewrite mem_char_app. simpl. by rewrite Ascii.eqb_refl, orb_true_r.
Qed.

Lemma mem_char_trim_left c s : mem_char c s = false -> mem_char c (trim_left s) = false.
Proof.
  induction s as [|a s IH]; simpl; [done|]. intros [Ha Hs]%orb_false_iff.
  destruct (is_space a); [by apply IH|]. simpl. by rewrite Ha.
Qed.

Lemma mem_char_trim_right c s : mem_char c s = false -> mem_char c (trim_right s) = false.
Proof.
  induction s as [|a s IH]; simpl; [done|]. intros [Ha Hs]%orb_false_iff. specialize (IH Hs).
  destruct (trim_right s); [destruct (is_space a)|]; simpl in *; by rewrite ?Ha.
Qed.

Lemma mem_char_trim_space c s : mem_char c s = false -> mem_char c (trim_space s) = false.
Proof. intros H. by apply mem_char_trim_right, mem_char_trim_left. Qed.

(** ** The order of strings *)

Lemma str_le_cons x a y b :
  str_le (String x a) (String y b) <->
  (N_of_ascii x < N_of_ascii y)%N \/ x = y /\ str_le a b.
Proof.
  unfold str_le, String.leb. cbn [String.compare]. unfold Ascii.compare.
  destruct (N.compare_spec (N_of_ascii x) (N_of_ascii y)) as [He|Hlt|Hgt].
  - apply (f_equal ascii_of_N) in He. rewrite !ascii_N_embedding in He. subst.
    split; [by right|]. intros [?|[_ ?]]; [lia|done].
  - split; [by left|done].
  - split; [done|]. intros [?|[-> _]]; lia.
Qed.

Lemma str_le_trans a b c : str_le a b -> str_le b c -> str_le a c.
Proof.
  revert b c. induction a as [|x a IH]; intros [|y b] [|z c]; try done.
  rewrite !str_le_cons. intros [?|[-> ?]] [?|[-> ?]]; [left; lia|by left..|].
  right. split; [done|]. by eapply IH.
Qed.

Lemma str_le_total a b : str_le a b \/ str_le b a.
Proof. apply String.leb_total. Qed.

Lemma str_le_antisym a b : str_le a b -> str_le b a -> a = b.
Proof. apply String.leb_antisym. Qed.

#[export] Instance str_le_trans_inst : Transitive str_le.
Proof. intros a b c. apply str_le_trans. Qed.
#[export] Instance str_le_total_inst : Total str_le.
Proof. intros a b. apply str_le_total. Qed.
#[export] Instance str_le_antisym_inst : AntiSymm eq str_le.
Proof. intros a b. apply str_le_antisym. Qed.

(** The sorted list of strings does not depend on the order they come in. *)
Lemma sort_strings_perm l l' : l ≡ₚ l' -> merge_sort str_le l = merge_sort str_le l'.
Proof.
  intros Hp. apply (StronglySorted_unique str_le); [apply (StronglySorted_merge_sort str_le)..|].
  by rewrite !merge_sort_Permutation.
Qed.

