(* ===== verification/GoTime.v ===== *)
(** * Durations

    [time.ParseDuration], as documented and implemented by the Go standard
    library: a sign, then numbers with an optional fraction, each with a unit.
    Fractions go through IEEE binary64 arithmetic (the only place the parsers of
    the source meet floating point); integers are 64-bit with the overflow tests
    of the library. *)

From S2P Require Import Prelude GoString.
From Stdlib Require Import SpecFloat.

Set Default Proof Using "Type".

(** ** binary64 *)

Definition f64 : Type := spec_float.
Definition f64_prec : Z := 53.
Definition f64_emax : Z := 1024.

(** [float64(n)] of an unsigned integer. *)
Definition f64_of_Z (n : Z) : f64 := binary_normalize f64_prec f64_emax n 0 false.
Definition f64_mul : f64 -> f64 -> f64 := SFmul f64_prec f64_emax.
Definition f64_div : f64 -> f64 -> f64 := SFdiv f64_prec f64_emax.
Definition f64_add : f64 -> f64 -> f64 := SFadd f64_prec f64_emax.
Definition f64_sub : f64 -> f64 -> f64 := SFsub f64_prec f64_emax.

(** Conversion of a finite value to an integer truncates toward zero. *)
Definition f64_to_Z (x : f64) : Z :=
  match x with
  | S754_finite s m e =>
      let a := if (0 <=? e)%Z then Z.shiftl (Z.pos m) e else Z.shiftr (Z.pos m) (- e) in
      if s then (- a)%Z else a
  | _ => 0%Z
  end.

(** Integers of at most 53 bits are floats, exactly. *)
Lemma digits2_pos_bounds p : (2 ^ (Z.pos (digits2_pos p) - 1) <= Z.pos p < 2 ^ Z.pos (digits2_pos p))%Z.
Proof.
  induction p as [p IH|p IH|]; cbn [digits2_pos]; [| |lia];
    rewrite Pos2Z.inj_succ, Z.pow_succ_r by lia;
    replace (Z.succ (Z.pos (digits2_pos p)) - 1)%Z with (Z.succ (Z.pos (digits2_pos p) - 1)) by lia;
    rewrite Z.pow_succ_r by lia; lia.
Qed.

Lemma digits2_pos_unique p d : (0 < d)%Z -> (2 ^ (d - 1) <= Z.pos p < 2 ^ d)%Z -> Z.pos (digits2_pos p) = d.
Proof.
  intros Hd Hp. pose proof (digits2_pos_bounds p) as Hb.
  destruct (Z.lt_total (Z.pos (digits2_pos p)) d) as [Hlt|[?|Hgt]]; [|done|].
  - assert (2 ^ Z.pos (digits2_pos p) <= 2 ^ (d - 1))%Z by (apply Z.pow_le_mono_r; lia). lia.
  - assert (2 ^ d <= 2 ^ (Z.pos (digits2_pos p) - 1))%Z by (apply Z.pow_le_mono_r; lia). lia.
Qed.

Lemma pos_iter_xO m d : Z.pos (Pos.iter xO m d) = (Z.pos m * 2 ^ Z.pos d)%Z.
Proof.
  induction d as [|d IH] using Pos.peano_ind; [simpl; lia|].
  rewrite Pos.iter_succ, Pos2Z.inj_succ, Z.pow_succ_r by lia. lia.
Qed.

Lemma f64_of_Z_finite z :
  (0 < z < 2 ^ 53)%Z -> exists m e, f64_of_Z z = S754_finite false m e /\ (e <= 0)%Z /\ Z.pos m = (z * 2 ^ (- e))%Z.
Proof.
  intros Hz. destruct z as [|p|p]; try lia. unfold f64_of_Z, binary_normalize, binary_round.
  set (d := Z.pos (digits2_pos p)).
  assert (Hd : (1 <= d <= 53)%Z).
  { pose proof (digits2_pos_bounds p) as Hb. fold d in Hb. split; [unfold d; lia|].
    destruct (Z.le_gt_cases d 53); [done|]. assert (2 ^ 53 <= 2 ^ (d - 1))%Z by (apply Z.pow_le_mono_r; lia). lia. }
  assert (Hal : exists mz, shl_align p 0 (fexp f64_prec f64_emax (d + 0)) = (mz, (d - 53)%Z) /\ Z.pos mz = (Z.pos p * 2 ^ (53 - d))%Z).
  { unfold shl_align, fexp, emin, f64_prec, f64_emax.
    replace (Z.max (d + 0 - 53) (3 - 1024 - 53) - 0)%Z with (d - 53)%Z by lia.
    replace (Z.max (d + 0 - 53) (3 - 1024 - 53))%Z with (d - 53)%Z by lia.
    destruct (d - 53)%Z as [|q|q] eqn:He; [|lia|].
    - exists p. split; [done|]. replace (53 - d)%Z with 0%Z by lia. lia.
    - exists (Pos.iter xO p q). split; [done|]. rewrite pos_iter_xO. replace (53 - d)%Z with (Z.pos q) by lia. done. }
  destruct Hal as (mz & -> & Hmz).
  assert (Hdm : Z.pos (digits2_pos mz) = 53%Z).
  { apply digits2_pos_unique; [lia|]. pose proof (digits2_pos_bounds p) as Hb. fold d in Hb. rewrite Hmz.
    replace (2 ^ 53)%Z with (2 ^ d * 2 ^ (53 - d))%Z by (rewrite <- Z.pow_add_r by lia; f_equal; lia).
    replace (2 ^ (53 - 1))%Z with (2 ^ (d - 1) * 2 ^ (53 - d))%Z by (rewrite <- Z.pow_add_r by lia; f_equal; lia).
    pose proof (Z.pow_pos_nonneg 2 (53 - d) ltac:(lia) ltac:(lia)). nia. }
  assert (Hshr : shr_fexp f64_prec f64_emax (Z.pos mz) (d - 53) loc_Exact = ({| shr_m := Z.pos mz; shr_r := false; shr_s := false |}, (d - 53)%Z)).
  { unfold shr_fexp, fexp, emin, f64_prec, f64_emax. simpl Zdigits2. rewrite Hdm.
    replace (Z.max (53 + (d - 53) - 53) (3 - 1024 - 53) - (d - 53))%Z with 0%Z by lia. done. }
  exists mz, (d - 53)%Z. unfold binary_round_aux. rewrite Hshr. simpl round_nearest_even. rewrite Hshr. simpl.
  rewrite (proj2 (Z.leb_le _ _)) by (unfold f64_emax, f64_prec; lia).
  split; [done|]. split; [lia|]. rewrite Hmz. f_equal. f_equal. lia.
Qed.

Lemma f64_of_Z_eqb a b :
  (0 <= a < 2 ^ 53)%Z -> (0 <= b < 2 ^ 53)%Z -> SFeqb (f64_of_Z a) (f64_of_Z b) = true <-> a = b.
Proof.
  intros Ha Hb. destruct (Z.eq_dec a 0%Z) as [->|Ha0], (Z.eq_dec b 0%Z) as [->|Hb0]; [done| | |].
  - destruct (f64_of_Z_finite b) as (m & e & -> & _); [lia|]. split; [done|lia].
  - destruct (f64_of_Z_finite a) as (m & e & -> & _); [lia|]. split; [done|lia].
  - destruct (f64_of_Z_finite a) as (m & e & Hfa & He & Hm); [lia|].
    destruct (f64_of_Z_finite b) as (m' & e' & Hfb & He' & Hm'); [lia|]. split.
    + rewrite Hfa, Hfb. unfold SFeqb, SFcompare. destruct (Z.compare_spec e e') as [<-|?|?]; [|done|done].
      destruct (Pos.compare_cont Eq m m') eqn:Hc; [|done|done]. intros _.
      assert (m = m') as <- by by apply Pos.compare_eq. rewrite Hm in Hm'.
      pose proof (Z.pow_pos_nonneg 2 (- e) ltac:(lia) ltac:(lia)). nia.
    + intros <-. rewrite Hfb. unfold SFeqb, SFcompare. by rewrite Z.compare_refl, Pos.compare_cont_refl.
Qed.

(** A sum or product of durations wraps around. *)
Definition wrap64 (z : Z) : Z := ((z + 2 ^ 63) mod 2 ^ 64 - 2 ^ 63)%Z.

Lemma wrap64_small z : (- 2 ^ 63 <= z < 2 ^ 63)%Z -> wrap64 z = z.
Proof. intros ?. unfold wrap64. rewrite Z.mod_small by lia. lia. Qed.

(** ** [time.ParseDuration] *)

Definition is_digit (c : ascii) : bool :=
  let n := nat_of_ascii c in (48 <=? n)%nat && (n <=? 57)%nat.

Definition digit (c : ascii) : Z := Z.of_nat (nat_of_ascii c) - 48.

Definition max63 : Z := 2 ^ 63.

(** [leadingInt]: the value and the rest, [None] on overflow. *)
Fixpoint leadingInt (x : Z) (s : string) : option (Z * string) :=
  match s with
  | String c s' =>
      if is_digit c then
        if (max63 / 10 <? x)%Z then None
        else let x := (x * 10 + digit c)%Z in
             if (max63 <? x)%Z then None else leadingInt x s'
      else Some (x, s)
  | EmptyString => Some (x, s)
  end.

(** [leadingFraction]: digits past the precision are consumed and dropped. *)
Fixpoint leadingFraction (x : Z) (scale : f64) (overflow : bool) (s : string) :
    Z * f64 * string :=
  match s with
  | String c s' =>
      if is_digit c then
        if overflow then leadingFraction x scale true s'
        else if ((max63 - 1) / 10 <? x)%Z then leadingFraction x scale true s'
        else let y := (x * 10 + digit c)%Z in
             if (max63 <? y)%Z then leadingFraction x scale true s'
             else leadingFraction y (f64_mul scale (f64_of_Z 10)) false s'
      else (x, scale, s)
  | EmptyString => (x, scale, s)
  end.

Definition unitMap (u : string) : option Z :=
  if String.eqb u "ns" then Some nanosecond
  else if String.eqb u "us" then Some 1000%Z
  else if String.eqb u (String (ascii_of_nat 194) (String (ascii_of_nat 181) "s")) then Some 1000%Z
  else if String.eqb u (String (ascii_of_nat 206) (String (ascii_of_nat 188) "s")) then Some 1000%Z
  else if String.eqb u "ms" then Some millisecond
  else if String.eqb u "s" then Some second
  else if String.eqb u "m" then Some minute
  else if String.eqb u "h" then Some hour
  else None.

Definition unitChar (c : ascii) : bool := negb (Ascii.eqb c c_dot || is_digit c).

Fixpoint takeUnit (s : string) : string * string :=
  match s with
  | String c s' =>
      if unitChar c then let (u, r) := takeUnit s' in (String c u, r) else (EmptyString, s)
  | EmptyString => (EmptyString, EmptyString)
  end.

(** One number with its unit: its value in nanoseconds and the rest. *)
Definition durationTerm (s : string) : option (Z * string) :=
  match s with
  | EmptyString => None
  | String c _ =>
      if negb (Ascii.eqb c c_dot || is_digit c) then None
      else match leadingInt 0 s with
      | None => None
      | Some (v, s1) =>
          let pre := negb (String.length s =? String.length s1)%nat in
          let '(f, scale, s2, post) :=
            match s1 with
            | String c1 r =>
                if Ascii.eqb c1 c_dot then
                  let '(f, scale, s2) := leadingFraction 0 (f64_of_Z 1) false r in
                  (f, scale, s2, negb (String.length r =? String.length s2)%nat)
                else (0%Z, f64_of_Z 1, s1, false)
            | EmptyString => (0%Z, f64_of_Z 1, s1, false)
            end in
          if negb (pre || post) then None
          else
            let (u, s3) := takeUnit s2 in
            if String.eqb u "" then None
            else match unitMap u with
            | None => None
            | Some unit =>
                if (max63 / unit <? v)%Z then None
                else
                  let v := (v * unit)%Z in
                  let v := if (0 <? f)%Z
                           then (v + f64_to_Z (f64_mul (f64_of_Z f)
                                                 (f64_div (f64_of_Z unit) scale)))%Z
                           else v in
                  if (max63 <? v)%Z then None else Some (v, s3)
            end
      end
  end.

(** Every term consumes a character, so the length of the string bounds the
    number of terms. *)
Fixpoint durationLoop (fuel : nat) (d : Z) (s : string) : option Z :=
  match s with
  | EmptyString => Some d
  | _ =>
      match fuel with
      | O => None
      | S fuel =>
          match durationTerm s with
          | None => None
          | Some (v, s') =>
              let d := u64 (d + v) in
              if (max63 <? d)%Z then None else durationLoop fuel d s'
          end
      end
  end.

(** [None] is the error return. *)
Definition ParseDuration (s : string) : option Z :=
  let (neg, s) :=
    match s with
    | String c s' =>
        if Ascii.eqb c "-" then (true, s')
        else if Ascii.eqb c "+" then (false, s') else (false, s)
    | EmptyString => (false, s)
    end in
  if String.eqb s "0" then Some 0%Z
  else if String.eqb s "" then None
  else match durationLoop (String.length s) 0 s with
       | None => None
       | Some d => if neg then Some (- d)%Z
                   else if (max63 - 1 <? d)%Z then None else Some d
       end.

(** ** [time.Duration.String] *)

Definition digitChar (n : Z) : ascii := ascii_of_nat (Z.to_nat (48 + n)).

(** [fmtFrac]: the fraction with trailing zeros omitted, and the integer part. *)
Fixpoint fmtFrac (prec : nat) (v : Z) (print : bool) (acc : string) : string * Z :=
  match prec with
  | O => (if print then String c_dot acc else acc, v)
  | S prec =>
      let d := (v mod 10)%Z in
      let print := print || negb (d =? 0)%Z in
      fmtFrac prec (v / 10) print (if print then String (digitChar d) acc else acc)
  end.

Definition durationString (d : Z) : string :=
  let u := Z.abs d in
  let body :=
    if (u =? 0)%Z then "0s"
    else if (u <? second)%Z then
      let '(prec, unit) :=
        if (u <? 1000)%Z then (0, "ns")
        else if (u <? millisecond)%Z
             then (3, String (ascii_of_nat 194) (String (ascii_of_nat 181) "s"))
             else (6, "ms") in
      let (f, v) := fmtFrac prec u false "" in
      itoa v +:+ f +:+ unit
    else
      let (f, v) := fmtFrac 9 u false "" in
      let sec := itoa (v mod 60) +:+ f +:+ "s" in
      let v := (v / 60)%Z in
      if (0 <? v)%Z then
        let mins := itoa (v mod 60) +:+ "m" +:+ sec in
        let v := (v / 60)%Z in
        if (0 <? v)%Z then itoa v +:+ "h" +:+ mins else mins
      else sec in
  if (d <? 0)%Z then "-" +:+ body else body.

Example dstring_ex1 : durationString (90 * minute) = "1h30m0s". Proof. reflexivity. Qed.
Example dstring_ex2 : durationString 1500000000 = "1.5s". Proof. reflexivity. Qed.
Example dstring_ex3 : durationString (-1050) =
  String "-" (String "1" (String "." (String "0" (String "5"
    (String (ascii_of_nat 194) (String (ascii_of_nat 181) "s")))))).
Proof. reflexivity. Qed.
Example parse_ex1 : ParseDuration "1h30m" = Some (90 * minute)%Z. Proof. reflexivity. Qed.
Example parse_ex2 : ParseDuration "-1.5s" = Some (-1500000000)%Z. Proof. vm_compute. reflexivity. Qed.
Example parse_ex3 : ParseDuration ".5m" = Some (30 * second)%Z. Proof. vm_compute. reflexivity. Qed.
Example parse_ex4 : ParseDuration "30" = None. Proof. reflexivity. Qed.
Example parse_ex5 : ParseDuration "9223372036854775807ns" = Some (max63 - 1)%Z.
Proof. vm_compute. reflexivity. Qed.
Example parse_ex6 : ParseDuration "9223372036854775808ns" = None.
Proof. vm_compute. reflexivity. Qed.
Example parse_ex7 : ParseDuration "2562047h47m16.854775807s" = Some (max63 - 1)%Z.
Proof. vm_compute. reflexivity. Qed.

(** The result always fits the [int64] of a [time.Duration]. *)
Lemma durationLoop_bounds fuel d s r :
  (0 <= d <= max63)%Z -> durationLoop fuel d s = Some r -> (0 <= r <= max63)%Z.
Proof.
  revert d s. induction fuel as [|fuel IH]; intros d s Hd; simpl.
  { destruct s; [|done]. by intros [= <-]. }
  destruct s; [by intros [= <-]|].
  destruct (durationTerm _) as [[v s']|]; [|done].
  destruct (max63 <? u64 (d + v))%Z eqn:Hm; [done|]. apply IH.
  pose proof (u64_bounds (d + v)). bool_props. lia.
Qed.

Lemma ParseDuration_bounds s d :
  ParseDuration s = Some d -> (- 2 ^ 63 <= d < 2 ^ 63)%Z.
Proof.
  unfold ParseDuration. destruct (match s with String _ _ => _ | EmptyString => _ end) as [neg s'].
  destruct (String.eqb s' "0"); [intros [= <-]; lia|].
  destruct (String.eqb s' ""); [done|].
  destruct (durationLoop _ 0 s') as [r|] eqn:Hr; [|done].
  apply durationLoop_bounds in Hr; [|unfold max63; lia]. unfold max63 in *.
  destruct neg; [intros [= <-]; lia|]. destruct (_ <? r)%Z eqn:H; [done|].
  intros [= <-]. bool_props. lia.
Qed.

(** *** The fuel suffices

    A term consumes at least one character, so any fuel from the length of the
    string on gives the same answer: running out is never the reason for an
    error. *)

Lemma leadingInt_length x s v r : leadingInt x s = Some (v, r) -> String.length r <= String.length s.
Proof.
  revert x. induction s as [|c s IH]; intros x; simpl; [by intros [= _ <-]|].
  destruct (is_digit c); [|by intros [= _ <-]].
  destruct (_ <? x)%Z; [done|]. destruct (_ <? _)%Z; [done|]. intros H%IH. lia.
Qed.

Lemma leadingFraction_length x sc o s f sc' r :
  leadingFraction x sc o s = (f, sc', r) -> String.length r <= String.length s.
Proof.
  revert x sc o. induction s as [|c s IH]; intros x sc o; simpl; [by intros [= _ _ <-]|].
  destruct (is_digit c); [|by intros [= _ _ <-]].
  destruct o; [intros H%IH; lia|]. destruct (_ <? x)%Z; [intros H%IH; lia|].
  destruct (_ <? _)%Z; intros H%IH; lia.
Qed.

Lemma takeUnit_length s u r :
  takeUnit s = (u, r) -> String.length s = String.length u + String.length r.
Proof.
  revert u r. induction s as [|c s IH]; intros u r; simpl; [by intros [= <- <-]|].
  destruct (unitChar c); [|by intros [= <- <-]].
  destruct (takeUnit s) as [u' r']. intros [= <- <-]. simpl. by rewrite (IH u' r' eq_refl).
Qed.

Lemma durationTerm_length s v r : durationTerm s = Some (v, r) -> String.length r < String.length s.
Proof.
  unfold durationTerm. destruct s as [|c s0]; [done|]. set (s := String c s0).
  destruct (negb _); [done|]. destruct (leadingInt 0 s) as [[n s1]|] eqn:Hi; [|done].
  apply leadingInt_length in Hi.
  destruct (match s1 with String _ _ => _ | EmptyString => _ end) as [[[f sc] s2] post] eqn:Hf.
  assert (Hs2 : String.length s2 <= String.length s1).
  { destruct s1 as [|c1 r1]; [by simplify_eq|]. destruct (Ascii.eqb c1 c_dot); [|by simplify_eq].
    destruct (leadingFraction _ _ _ r1) as [[f' sc'] r2] eqn:Hl. apply leadingFraction_length in Hl.
    simplify_eq. simpl. lia. }
  destruct (negb _); [done|]. destruct (takeUnit s2) as [u s3] eqn:Hu. apply takeUnit_length in Hu.
  destruct (String.eqb_spec u "") as [|Hne]; [done|]. destruct (unitMap u) as [unit|]; [|done].
  destruct (_ <? n)%Z; [done|]. cbn zeta. destruct (max63 <? _)%Z; [done|]. intros [= _ <-].
  assert (String.length u <> 0) by (by destruct u). lia.
Qed.

Lemma durationLoop_fuel fuel d s :
  String.length s <= fuel -> durationLoop fuel d s = durationLoop (String.length s) d s.
Proof.
  enough (H : forall n, String.length s <= n -> forall d f1 f2, String.length s <= f1 ->
            String.length s <= f2 -> durationLoop f1 d s = durationLoop f2 d s).
  { intros Hf. by apply (H (String.length s)). }
  clear fuel d. intros n. revert s. induction n as [|n IH]; intros s Hn d f1 f2 H1 H2.
  - destruct s; [by destruct f1, f2|simpl in Hn; lia].
  - destruct s as [|c s]; [by destruct f1, f2|]. destruct f1 as [|f1], f2 as [|f2]; simpl in H1, H2; try lia.
    cbn [durationLoop]. destruct (durationTerm (String c s)) as [[v r]|] eqn:Ht; [|done].
    apply durationTerm_length in Ht. simpl in Ht, Hn. destruct (_ <? _)%Z; [done|]. apply IH; lia.
Qed.
