(* ===== verification/GoURL.v ===== *)
(** * URLs and headers

    The parts of [net/url], [net/http] and [net/textproto] that the modelled code
    uses: percent-encoding, query strings, [URL.RequestURI], and header maps with
    canonical keys.  Strings are bytes. *)

From S2P Require Import Prelude GoString.

Set Default Proof Using "Type".

(** ** Percent-encoding *)

(** Where an encoding is used: a path, or a query component. *)
Inductive encoding := encodePath | encodeQueryComponent.

Definition between (lo hi : nat) (c : ascii) : bool :=
  let n := nat_of_ascii c in ((lo <=? n) && (n <=? hi))%nat.

Definition is_alnum (c : ascii) : bool := between 97 122 c || between 65 90 c || between 48 57 c.

(** Membership in a literal set of characters. *)
Definition one_of (set : string) (c : ascii) : bool := mem_char c set.

Definition shouldEscape (c : ascii) (mode : encoding) : bool :=
  if is_alnum c then false
  else if one_of "-_.~" c then false
  else if one_of "$&+,/:;=?@" c then
    match mode with
    | encodePath => Ascii.eqb c "?"
    | encodeQueryComponent => true
    end
  else true.

Definition upperhex (n : nat) : ascii :=
  ascii_of_nat (if (n <? 10)%nat then 48 + n else 55 + n).

Definition ishex (c : ascii) : bool := between 48 57 c || between 97 102 c || between 65 70 c.

Definition unhex (c : ascii) : nat :=
  let n := nat_of_ascii c in
  if between 48 57 c then n - 48 else if between 97 102 c then n - 87 else n - 55.

Definition escapeByte (mode : encoding) (c : ascii) (rest : string) : string :=
  if shouldEscape c mode then
    match mode with
    | encodeQueryComponent => if Ascii.eqb c " " then String "+" rest
        else String "%" (String (upperhex (nat_of_ascii c / 16))
                          (String (upperhex (nat_of_ascii c mod 16)) rest))
    | encodePath => String "%" (String (upperhex (nat_of_ascii c / 16))
                                 (String (upperhex (nat_of_ascii c mod 16)) rest))
    end
  else String c rest.

Fixpoint escape (mode : encoding) (s : string) : string :=
  match s with
  | "" => ""
  | String c s => escapeByte mode c (escape mode s)
  end.

(** [None] is an escape error. *)
Fixpoint unescape (mode : encoding) (s : string) : option string :=
  match s with
  | "" => Some ""
  | String c s1 =>
      if Ascii.eqb c "%" then
        match s1 with
        | String a (String b s2) =>
            if ishex a && ishex b
            then String (ascii_of_nat (unhex a * 16 + unhex b)) <$> unescape mode s2
            else None
        | _ => None
        end
      else if Ascii.eqb c "+" then
        String (match mode with encodeQueryComponent => " " | encodePath => c end) <$> unescape mode s1
      else String c <$> unescape mode s1
  end.

Definition validEncodedByte (mode : encoding) (c : ascii) : bool :=
  one_of "!$&'()*+,;=:@" c || one_of "[]" c || one_of "%" c || negb (shouldEscape c mode).

Fixpoint validEncoded (mode : encoding) (s : string) : bool :=
  match s with
  | "" => true
  | String c s => validEncodedByte mode c && validEncoded mode s
  end.

(** ** URLs *)

Record URL := mkURL {
  Scheme : string;
  Opaque_ : string;
  Path : string;
  RawPath : string;
  ForceQuery : bool;
  RawQuery : string;
}.

Definition EscapedPath (u : URL) : string :=
  if negb (String.eqb (RawPath u) "") && validEncoded encodePath (RawPath u) &&
     match unescape encodePath (RawPath u) with Some p => String.eqb p (Path u) | None => false end
  then RawPath u
  else if String.eqb (Path u) "*" then "*"
  else escape encodePath (Path u).

Definition RequestURI (u : URL) : string :=
  let result :=
    if String.eqb (Opaque_ u) "" then
      let p := EscapedPath u in if String.eqb p "" then "/" else p
    else if has_prefix (Opaque_ u) "//" then Scheme u +:+ ":" +:+ Opaque_ u
    else Opaque_ u in
  result +:+ (if ForceQuery u || negb (String.eqb (RawQuery u) "") then "?" +:+ RawQuery u else "").

Definition setPath (p : string) (u : URL) : URL :=
  mkURL (Scheme u) (Opaque_ u) p "" (ForceQuery u) (RawQuery u).

Definition setRawQuery (q : string) (u : URL) : URL :=
  mkURL (Scheme u) (Opaque_ u) (Path u) (RawPath u) (ForceQuery u) q.

(** ** Query strings *)

(** A [url.Values]: each key's values, in order. *)
Abbreviation Values := (gmap string (list string)).

Definition Cut (c : ascii) (s : string) : string * string :=
  match index_byte c s with
  | Some i => (str_take i s, str_drop (S i) s)
  | None => (s, "")
  end.

(** One [&]-separated setting; ill-formed ones are skipped. *)
Definition addSetting (m : Values) (setting : string) : Values :=
  if mem_char ";" setting then m
  else if String.eqb setting "" then m
  else
    let (k, v) := Cut "=" setting in
    match unescape encodeQueryComponent k, unescape encodeQueryComponent v with
    | Some k, Some v => <[k := default [] (m !! k) ++ [v]]> m
    | _, _ => m
    end.

(** [URL.Query]: the valid settings of the raw query (the library's limit on their
    number is not modelled). *)
Definition ParseQuery (query : string) : Values :=
  fold_left addSetting (split_char "&" query) ∅.

Definition ValuesSet (k v : string) (m : Values) : Values := <[k := [v]]> m.
Definition ValuesDel (k : string) (m : Values) : Values := delete k m.

Definition encodeSetting (k v : string) : string :=
  escape encodeQueryComponent k +:+ String "=" (escape encodeQueryComponent v).

(** The settings in the order [Encode] writes them: keys sorted. *)
Definition encodeSettings (m : Values) : list string :=
  k ← merge_sort str_le (map_to_list m).*1;
  encodeSetting k <$> default [] (m !! k).

Definition Encode (m : Values) : string := join_char "&" (encodeSettings m).

(** ** Headers *)

Abbreviation Header := (gmap string (list string)).

Definition upper_ascii (c : ascii) : ascii :=
  if between 97 122 c then ascii_of_nat (nat_of_ascii c - 32) else c.

(** The bytes of a token ([validHeaderFieldByte]). *)
Definition tokenByte (c : ascii) : bool := is_alnum c || one_of "!#$%&'*+-.^_`|~" c.

Fixpoint canonicalLoop (upper : bool) (s : string) : string :=
  match s with
  | "" => ""
  | String c s =>
      String (if upper then upper_ascii c else lower_ascii c) (canonicalLoop (Ascii.eqb c "-") s)
  end.

(** A key that is not a token is left alone. *)
Definition CanonicalMIMEHeaderKey (s : string) : string :=
  if all_chars tokenByte s then canonicalLoop true s else s.

Definition HeaderSet (k v : string) (h : Header) : Header := <[CanonicalMIMEHeaderKey k := [v]]> h.
Definition HeaderDel (k : string) (h : Header) : Header := delete (CanonicalMIMEHeaderKey k) h.
Definition HeaderGet (k : string) (h : Header) : string :=
  match h !! CanonicalMIMEHeaderKey k with Some (v :: _) => v | _ => "" end.

(** ** Lemmas *)

Lemma unescape_escapeByte c rest :
  unescape encodeQueryComponent (escapeByte encodeQueryComponent c rest) =
  String c <$> unescape encodeQueryComponent rest.
Proof. destruct c as [[] [] [] [] [] [] [] []]; reflexivity. Qed.

(** Decoding inverts encoding on every byte string. *)
Lemma unescape_escape s : unescape encodeQueryComponent (escape encodeQueryComponent s) = Some s.
Proof. induction s as [|c s IH]; [done|]. cbn [escape]. by rewrite unescape_escapeByte, IH. Qed.

(** No encoded component contains a separator. *)
Definition separator (c : ascii) : bool := one_of "&=;" c.

Lemma escapeByte_no_sep x c rest :
  separator x = true -> mem_char x rest = false ->
  mem_char x (escapeByte encodeQueryComponent c rest) = false.
Proof.
  unfold separator, one_of. cbn [mem_char]. rewrite orb_false_r, !orb_true_iff, !Ascii.eqb_eq.
  intros Hx Hr.
  assert (mem_char x (escapeByte encodeQueryComponent c "") = false).
  { destruct c as [[] [] [] [] [] [] [] []]; destruct Hx as [<-|[<-|<-]]; reflexivity. }
  unfold escapeByte in *. destruct (shouldEscape _ _); [destruct (Ascii.eqb c " ")|];
    cbn [mem_char] in *; rewrite ?orb_false_r in *; rewrite Hr, ?orb_false_r; done.
Qed.

Lemma escape_no_sep x s : separator x = true -> mem_char x (escape encodeQueryComponent s) = false.
Proof. intros Hx. induction s as [|c s IH]; [done|]. cbn [escape]. by apply escapeByte_no_sep. Qed.

Lemma Cut_setting k v :
  Cut "=" (encodeSetting k v) = (escape encodeQueryComponent k, escape encodeQueryComponent v).
Proof.
  unfold Cut, encodeSetting. rewrite index_byte_app by (by apply escape_no_sep).
  rewrite str_take_app. f_equal.
  rewrite <- (Nat.add_1_r (String.length _)), str_drop_app_plus. apply str_drop_0.
Qed.

Lemma addSetting_encode m k v :
  addSetting m (encodeSetting k v) = <[k := default [] (m !! k) ++ [v]]> m.
Proof.
  unfold addSetting. rewrite Cut_setting, !unescape_escape.
  assert (mem_char ";" (encodeSetting k v) = false) as ->.
  { unfold encodeSetting. rewrite mem_char_app. cbn [mem_char]. by rewrite !escape_no_sep. }
  destruct (String.eqb_spec (encodeSetting k v) "") as [He|_]; [|done].
  unfold encodeSetting in He. by destruct (escape _ k).
Qed.

Lemma fold_settings k vs m :
  vs <> [] -> fold_left addSetting (encodeSetting k <$> vs) m = <[k := default [] (m !! k) ++ vs]> m.
Proof.
  revert m. induction vs as [|v vs IH]; [done|]. intros m _. rewrite fmap_cons. cbn [fold_left].
  rewrite addSetting_encode. destruct vs as [|w vs]; [done|]. rewrite IH by done.
  rewrite lookup_insert_eq, insert_insert_eq. simpl. by rewrite <- app_assoc.
Qed.

(** Reading settings back, key by key. *)
Lemma fold_encoded (m : Values) ks acc x :
  NoDup ks -> (forall k, k ∈ ks -> acc !! k = None) ->
  fold_left addSetting (k ← ks; encodeSetting k <$> default [] (m !! k)) acc !! x =
  if decide (x ∈ ks) then match m !! x with Some [] => None | o => o end else acc !! x.
Proof.
  revert acc. induction ks as [|k ks IH]; intros acc Hnd Hfresh; [done|].
  apply NoDup_cons in Hnd as [Hk Hnd]. rewrite bind_cons, fold_left_app.
  set (acc' := fold_left _ (encodeSetting k <$> _) acc).
  assert (Hacc : forall y, acc' !! y = if decide (y = k)
            then match m !! k with Some [] => None | o => o end else acc !! y).
  { intros y. subst acc'. destruct (m !! k) as [[|v vs]|]; simpl.
    - destruct (decide (y = k)) as [->|Hy]; [apply Hfresh; by left|done].
    - change (encodeSetting k v :: _) with (encodeSetting k <$> (v :: vs)).
      change (addSetting acc (encodeSetting k v)) with
        (fold_left addSetting [encodeSetting k v] acc).
      rewrite <- fold_left_app. change ([encodeSetting k v] ++ _) with (encodeSetting k <$> (v :: vs)).
      rewrite fold_settings by done. rewrite (Hfresh k) by (by left).
      destruct (decide (y = k)) as [->|Hy]; [by rewrite lookup_insert_eq|by rewrite lookup_insert_ne].
    - destruct (decide (y = k)) as [->|Hy]; [apply Hfresh; by left|done]. }
  rewrite IH; [|done|].
  - rewrite Hacc. clear IH. repeat case_decide; subst; rewrite ?elem_of_cons in *; try done; tauto.
  - intros y Hy. rewrite Hacc. destruct (decide (y = k)) as [->|]; [done|]. apply Hfresh. by right.
Qed.

(** The round trip of query strings: parsing an encoding gives back every key that
    has values. *)
Lemma ParseQuery_Encode m x :
  ParseQuery (Encode m) !! x = match m !! x with Some [] => None | o => o end.
Proof.
  assert (Hkeys : forall x, x ∈ merge_sort str_le (map_to_list m).*1 <-> is_Some (m !! x)).
  { intros y. rewrite merge_sort_Permutation, list_elem_of_fmap. split.
    - intros ([k v] & -> & Hin%elem_of_map_to_list). simpl. eauto.
    - intros [v Hv]. exists (y, v). split; [done|]. by apply elem_of_map_to_list. }
  assert (Hfold : fold_left addSetting (encodeSettings m) ∅ !! x =
            match m !! x with Some [] => None | o => o end).
  { unfold encodeSettings. rewrite fold_encoded.
    - case_decide as Hx; [done|]. rewrite Hkeys in Hx. destruct (m !! x); [by destruct Hx|done].
    - rewrite merge_sort_Permutation. apply NoDup_fst_map_to_list.
    - intros k _. apply lookup_empty. }
  unfold ParseQuery, Encode. destruct (decide (encodeSettings m = [])) as [He|Hne].
  - rewrite He in *. exact Hfold.
  - rewrite split_join_char; [done..|].
    unfold encodeSettings. apply Forall_forall. intros s (k & Hs & _)%list_elem_of_bind.
    apply list_elem_of_fmap in Hs as (v & -> & _).
    unfold encodeSetting. rewrite mem_char_app. cbn [mem_char]. by rewrite !escape_no_sep.
Qed.

Lemma canonicalLoop_idem u s : canonicalLoop u (canonicalLoop u s) = canonicalLoop u s.
Proof.
  revert u. induction s as [|c s IH]; intros u; [done|]. cbn [canonicalLoop].
  assert (Hc : forall b : bool, Ascii.eqb (if b then upper_ascii c else lower_ascii c) "-" = Ascii.eqb c "-").
  { intros b. destruct c as [[] [] [] [] [] [] [] []], b; reflexivity. }
  rewrite Hc, IH. f_equal. destruct c as [[] [] [] [] [] [] [] []], u; reflexivity.
Qed.
