(* ===== verification/Route.v ===== *)
(** * Upstream routing: bad-address table, round-robin balancer, route table

    Models [src/route/badaddr.go], [src/route/rrlb.go] and
    [src/route/table.go].  A [*RRLB] installed in the table is owned by its one
    host entry (the controller builds a fresh balancer for every host it
    installs), so the table stores balancers by value and [Lookup] writes the
    advanced counter back.  Time is read through a clock argument: [now k] is
    what the [k]-th [time.Now()] of the call returns. *)

From S2P Require Import Prelude GoString.

(** ** Bad addresses: host -> instant of the last failed dial *)

Module BadAddr.

Definition badDuration : Z := (2 * second)%Z.

(** [IsBad]; [None] is the nil receiver. *)
Definition IsBad (now : Z) (t : option (gmap string Z)) (host : string) : bool :=
  match t with
  | None => false
  | Some t =>
      match t !! host with
      | None => false
      | Some p => (now - p <=? badDuration)%Z
      end
  end.

(** [mark]: the flag says whether the host was good before. *)
Definition mark (now : Z) (t : gmap string Z) (host : string) : bool * gmap string Z :=
  (negb (IsBad now (Some t) host), <[host := now]> t).

Definition MarkBad (now : Z) (t : gmap string Z) (addr : string) : gmap string Z :=
  let host := match split_host_port addr with Some (h, _) => h | None => "" end in
  let host := if String.eqb host "" then addr else host in
  snd (mark now t host).

Definition Clear (now : Z) (t : gmap string Z) : gmap string Z :=
  filter (fun '(_, v) => ~ (badDuration < now - v)%Z) t.

Lemma IsBad_insert now t h v h' :
  IsBad now (Some (<[h := v]> t)) h' =
    if decide (h = h') then (now - v <=? badDuration)%Z else IsBad now (Some t) h'.
Proof. unfold IsBad. rewrite lookup_insert. by case_decide. Qed.

(** Dropping a port: marking the address a lookup returned marks the pod IP. *)
Lemma MarkBad_join now t ip port :
  ip <> "" ->
  mem_char "["%char ip = false -> mem_char "]"%char ip = false ->
  mem_char c_colon port = false ->
  mem_char "["%char port = false -> mem_char "]"%char port = false ->
  MarkBad now t (join_host_port ip port) = <[ip := now]> t.
Proof.
  intros Hne ? ? ? ? ?. unfold MarkBad.
  rewrite split_join_host_port by done.
  destruct (String.eqb_spec ip ""); done.
Qed.
End BadAddr.

(** ** Round-robin load balancer *)

Module RRLB.
Import BadAddr.

Record RRLB := mkRRLB {
  IPs : list string;      (* immutable *)
  current : Z;            (* uint32, advanced atomically *)
}.

(** The probe loop [for k := 0; k < l; k++]: the first index from [p],
    cyclically, whose address is not bad. *)
Definition probe (now : nat -> Z) (bad : option (gmap string Z))
    (ips : list string) (p : nat) : option nat :=
  List.find (fun k => negb (IsBad (now k) bad
               (default "" (ips !! ((p + k) mod length ips)%nat))))
    (seq 0 (length ips)).

Definition Get (now : nat -> Z) (bad : option (gmap string Z)) (lb : RRLB) :
    string * RRLB :=
  let l := length (IPs lb) in
  if (l =? 0)%nat then ("", lb)
  else if (l =? 1)%nat then (default "" (IPs lb !! 0%nat), lb)
  else
    let c := u32 (current lb + 1) in
    let p := Z.to_nat (c mod u32 (Z.of_nat l)) in
    let lb' := mkRRLB (IPs lb) c in
    match probe now bad (IPs lb) p with
    | Some k => (default "" (IPs lb !! ((p + k) mod l)%nat), lb')
    | None => ("", lb')
    end.

(** [n] consecutive calls; [now i] is the clock of the [i]-th call. *)
Fixpoint Gets (now : nat -> nat -> Z) (bad : option (gmap string Z)) (n : nat) (lb : RRLB) :
    list string * RRLB :=
  match n with
  | O => ([], lb)
  | S n' =>
      let '(ip, lb') := Get (now 0%nat) bad lb in
      let '(rest, lb'') := Gets (fun i => now (S i)) bad n' lb' in
      (ip :: rest, lb'')
  end.

Definition wf (lb : RRLB) : Prop := (0 <= current lb < 2 ^ 32)%Z.

Lemma Get_IPs now bad lb : IPs (snd (Get now bad lb)) = IPs lb.
Proof. unfold Get. repeat case_match; done. Qed.

Lemma Get_wf now bad lb : wf lb -> wf (snd (Get now bad lb)).
Proof. unfold Get, wf. intros H. repeat case_match; simpl; auto with go. Qed.

Lemma probe_some now bad ips p k :
  probe now bad ips p = Some k ->
  (k < length ips)%nat /\
  IsBad (now k) bad (default "" (ips !! ((p + k) mod length ips)%nat)) = false.
Proof.
  intros (l1 & l2 & Hl & Hk & _)%find_some_split.
  apply negb_true_iff in Hk. split; [|done].
  assert (Hin : In k (seq 0 (length ips))) by (rewrite Hl; apply in_elt).
  apply in_seq in Hin. lia.
Qed.

Lemma mod_lookup (ips : list string) i :
  (0 < length ips)%nat -> is_Some (ips !! (i mod length ips)%nat).
Proof. intros H. apply lookup_lt_is_Some. apply Nat.mod_upper_bound. lia. Qed.

Lemma Get_in now bad lb :
  fst (Get now bad lb) = "" \/ fst (Get now bad lb) ∈ IPs lb.
Proof.
  unfold Get. case_match eqn:E0; [by left|]. apply Nat.eqb_neq in E0.
  case_match eqn:E1.
  - right. simpl. apply Nat.eqb_eq in E1.
    destruct (IPs lb) as [|x l]; simpl in *; [done|]. apply list_elem_of_here.
  - case_match; simpl; [|by left]. right.
    destruct (mod_lookup (IPs lb)
      (Z.to_nat (u32 (current lb + 1) mod u32 (Z.of_nat (length (IPs lb)))) + n)) as [x Hx];
      [lia|].
    rewrite Hx. simpl. by eapply list_elem_of_lookup_2.
Qed.

(** Every index is probed, so a miss means every address was bad. *)
Lemma probe_none now bad ips p :
  probe now bad ips p = None ->
  forall i, (i < length ips)%nat ->
  exists k, (k < length ips)%nat /\ IsBad (now k) bad (default "" (ips !! i)) = true.
Proof.
  intros H i Hi. apply find_none_forall in H. rewrite Forall_forall in H.
  set (l := length ips) in *.
  exists ((i + l - p mod l) mod l)%nat.
  assert (Hk : ((i + l - p mod l) mod l < l)%nat) by (apply Nat.mod_upper_bound; lia).
  split; [done|].
  specialize (H ((i + l - p mod l) mod l)%nat).
  assert (Hidx : ((p + (i + l - p mod l) mod l) mod l)%nat = i).
  { rewrite Nat.Div0.add_mod_idemp_r.
    rewrite <- Nat.Div0.add_mod_idemp_l.
    assert (p mod l < l)%nat by (apply Nat.mod_upper_bound; lia).
    replace (p mod l + (i + l - p mod l))%nat with (i + 1 * l)%nat by lia.
    rewrite Nat.Div0.mod_add. apply Nat.mod_small. lia. }
  rewrite Hidx in H. apply negb_false_iff, H.
  apply list_elem_of_In, in_seq. lia.
Qed.

(** With a quiet table the balancer returns the slot the counter selects. *)
Lemma Get_rotates now bad lb :
  (2 <= length (IPs lb))%nat -> (Z.of_nat (length (IPs lb)) < 2 ^ 32)%Z ->
  (0 <= current lb)%Z -> (current lb + 1 < 2 ^ 32)%Z ->
  (forall t ip, ip ∈ IPs lb -> IsBad t bad ip = false) ->
  Get now bad lb =
    (default "" (IPs lb !! ((Z.to_nat (current lb) + 1) mod length (IPs lb))%nat),
     mkRRLB (IPs lb) (current lb + 1)).
Proof.
  intros Hlen H32 Hc0 Hc1 Hgood. unfold Get.
  destruct (Nat.eqb_spec (length (IPs lb)) 0); [lia|].
  destruct (Nat.eqb_spec (length (IPs lb)) 1); [lia|].
  rewrite !u32_small by lia.
  set (l := length (IPs lb)) in *.
  assert (Hp : Z.to_nat ((current lb + 1) mod Z.of_nat l)
               = ((Z.to_nat (current lb) + 1) mod l)%nat).
  { rewrite Z2Nat.inj_mod, Z2Nat.inj_add, Nat2Z.id by lia. done. }
  rewrite Hp. set (p := ((Z.to_nat (current lb) + 1) mod l)%nat).
  assert (Hprobe : probe now bad (IPs lb) p = Some 0%nat).
  { unfold probe. fold l. destruct l as [|l'] eqn:El; [lia|]. simpl.
    destruct (mod_lookup (IPs lb) (p + 0)) as [x Hx]; [lia|].
    fold l in Hx. rewrite El in Hx. cbn [Nat.modulo] in Hx |- *. rewrite Hx. simpl.
    rewrite Hgood by (by eapply list_elem_of_lookup_2). done. }
  rewrite Hprobe, Nat.add_0_r. subst p. by rewrite Nat.Div0.mod_mod.
Qed.

Lemma Gets_rotates n now bad lb :
  (2 <= length (IPs lb))%nat -> (Z.of_nat (length (IPs lb)) < 2 ^ 32)%Z ->
  (0 <= current lb)%Z -> (current lb + Z.of_nat n < 2 ^ 32)%Z ->
  (forall t ip, ip ∈ IPs lb -> IsBad t bad ip = false) ->
  fst (Gets now bad n lb) =
    map (fun i => default "" (IPs lb !! ((Z.to_nat (current lb) + 1 + i) mod length (IPs lb))%nat))
      (seq 0 n).
Proof.
  revert now lb. induction n as [|n IH]; intros now lb Hlen H32 Hc0 Hc Hgood; [done|].
  cbn [Gets]. rewrite Get_rotates by (done || lia).
  pose proof (IH (fun i => now (S i)) (mkRRLB (IPs lb) (current lb + 1))) as IH'.
  simpl in IH'. specialize (IH' Hlen H32 ltac:(lia) ltac:(lia) Hgood).
  destruct (Gets _ bad n _) as [rest lb''] eqn:E. simpl in IH' |- *. subst rest.
  rewrite Nat.add_0_r. f_equal. rewrite <- seq_shift, map_map.
  apply map_ext. intros i. do 3 f_equal. lia.
Qed.
End RRLB.

(** A cyclic shift of the indices is a permutation of them. *)
Lemma rotation_permutation a l :
  (0 < l)%nat -> map (fun i => (a + i) mod l)%nat (seq 0 l) ≡ₚ seq 0 l.
Proof.
  intros Hl.
  assert (Hinj : forall i j, (i < l)%nat -> (j < l)%nat ->
            ((a + i) mod l = (a + j) mod l)%nat -> i = j).
  { intros i j Hi Hj H.
    pose proof (Nat.div_mod_eq (a + i) l). pose proof (Nat.div_mod_eq (a + j) l).
    set (q1 := ((a + i) / l)%nat) in *. set (q2 := ((a + j) / l)%nat) in *.
    destruct (Nat.lt_trichotomy q1 q2) as [?|[Hq|?]].
    - assert (l * q1 + l <= l * q2)%nat by nia. lia.
    - rewrite Hq in *. lia.
    - assert (l * q2 + l <= l * q1)%nat by nia. lia. }
  apply submseteq_length_Permutation; [|by rewrite length_map, !length_seq].
  apply NoDup_submseteq.
  - apply (NoDup_fmap_2_strong (fun i => (a + i) mod l)%nat); [|apply NoDup_ListNoDup, seq_NoDup].
    intros i j [_ Hi]%list_elem_of_In%in_seq [_ Hj]%list_elem_of_In%in_seq. by apply Hinj.
  - intros x (i & -> & _)%list_elem_of_fmap.
    apply list_elem_of_In, in_seq. split; [lia|]. apply Nat.mod_upper_bound. lia.
Qed.

(** ** The route table *)

Module Table.
Import BadAddr RRLB.

Record Table := mkTable {
  addrToTargetHost : gmap string RRLB;       (* service host -> balancer *)
  addrToTargetPort : gmap string string;     (* service host:port -> pod port *)
  addrToExternalName : gmap string string;   (* service host -> DNS name *)
  badAddr : gmap string Z;
}.

Definition empty : Table := mkTable ∅ ∅ ∅ ∅.

Definition Lookup (now : nat -> Z) (t : Table) (addr : string) : string * Table :=
  match last_index_byte c_colon addr with
  | None => ("", t)
  | Some i =>
      let host := str_take i addr in
      match addrToTargetPort t !! addr with
      | None => ("", t)
      | Some targetPort =>
          match addrToTargetHost t !! host with
          | Some lb =>
              let '(hostIP, lb') := Get now (Some (badAddr t)) lb in
              let t' := mkTable (<[host := lb']> (addrToTargetHost t))
                          (addrToTargetPort t) (addrToExternalName t) (badAddr t) in
              if String.eqb hostIP "" then ("", t')
              else (join_host_port hostIP targetPort, t')
          | None =>
              match addrToExternalName t !! host with
              | Some externalName => (join_host_port externalName targetPort, t)
              | None => ("", t)
              end
          end
      end
  end.

Definition SetHostRoutes (routes : gmap string RRLB) (t : Table) : Table :=
  mkTable routes (addrToTargetPort t) (addrToExternalName t) (badAddr t).

(** [None] is the nil balancer, which deletes the host. *)
Definition SetHostRoute (host : string) (lb : option RRLB) (t : Table) : Table :=
  mkTable (match lb with
           | Some lb => <[host := lb]> (addrToTargetHost t)
           | None => delete host (addrToTargetHost t)
           end)
    (addrToTargetPort t) (addrToExternalName t) (badAddr t).

Definition SetPortRoutes (routes : gmap string string) (t : Table) : Table :=
  mkTable (addrToTargetHost t) routes (addrToExternalName t) (badAddr t).

Definition SetExternalNameRoutes (routes : gmap string string) (t : Table) : Table :=
  mkTable (addrToTargetHost t) (addrToTargetPort t) routes (badAddr t).

Definition MarkBad (now : Z) (addr : string) (t : Table) : Table :=
  mkTable (addrToTargetHost t) (addrToTargetPort t) (addrToExternalName t)
    (BadAddr.MarkBad now (badAddr t) addr).

Lemma join_host_port_ne h p : join_host_port h p <> "".
Proof. unfold join_host_port. case_match; [done|]. by destruct h. Qed.

(** The pool behind an address never loses an IP to a lookup. *)
Lemma Lookup_pool now t addr h :
  IPs <$> (addrToTargetHost (snd (Lookup now t addr)) !! h) =
  IPs <$> (addrToTargetHost t !! h).
Proof.
  unfold Lookup. repeat case_match; simpl; try done.
  all: match goal with HG : Get _ _ ?lb = (_, ?lb') |- _ =>
         pose proof (Get_IPs now (Some (badAddr t)) lb) as Hips; rewrite HG in Hips end.
  all: rewrite lookup_insert; case_decide; subst; [|done].
  all: simpl in *; by simplify_option_eq; rewrite Hips.
Qed.

Lemma split_addr host port :
  mem_char c_colon port = false ->
  last_index_byte c_colon (host +:+ String c_colon port) = Some (String.length host) /\
  str_take (String.length host) (host +:+ String c_colon port) = host.
Proof. intros H. split; [by apply last_index_byte_last|apply str_take_app]. Qed.
End Table.

(** ** Properties *)

Module RouteProps.
Import BadAddr RRLB Table.

(** The balancer is fair.  While no pool address is bad and the [uint32]
    counter does not wrap, any [length IPs] consecutive [Get]s return every
    address of the pool exactly once. *)
Theorem round_robin_fair now bad lb :
  (2 <= length (IPs lb))%nat ->
  (0 <= current lb)%Z -> (current lb + Z.of_nat (length (IPs lb)) < 2 ^ 32)%Z ->
  (forall t ip, ip ∈ IPs lb -> IsBad t bad ip = false) ->
  fst (Gets now bad (length (IPs lb)) lb) ≡ₚ IPs lb.
Proof.
  intros Hlen H0 Hc Hgood. rewrite Gets_rotates by (done || lia).
  set (f := fun j => default "" (IPs lb !! j)).
  set (l := length (IPs lb)).
  change (map (fun i => f ((Z.to_nat (current lb) + 1 + i) mod l)%nat) (seq 0 l) ≡ₚ IPs lb).
  rewrite <- (map_map (fun i => ((Z.to_nat (current lb) + 1 + i) mod l)%nat) f).
  rewrite (rotation_permutation _ l) by lia.
  replace (map f (seq 0 l)) with (IPs lb); [done|].
  apply list_eq. intros i. subst f l. rewrite list_lookup_fmap.
  destruct (decide (i < length (IPs lb))%nat) as [Hi|Hi].
  - rewrite lookup_seq_lt by done. simpl.
    by destruct (lookup_lt_is_Some_2 (IPs lb) i Hi) as [x ->].
  - rewrite lookup_seq_ge, lookup_ge_None_2 by lia. done.
Qed.

Lemma round_robin_fair_witness :
  fst (Gets (fun _ _ => 5%Z) (Some ∅) 3 (mkRRLB ["10.0.0.1"; "10.0.0.2"; "10.0.0.3"] 7))
    ≡ₚ ["10.0.0.1"; "10.0.0.2"; "10.0.0.3"].
Proof.
  apply (round_robin_fair (fun _ _ => 5%Z) (Some ∅)
           (mkRRLB ["10.0.0.1"; "10.0.0.2"; "10.0.0.3"] 7)); simpl; try lia.
  intros t ip _. reflexivity.
Defined.

(** What [Get] answers for a pool of two or more: a non-empty answer was
    healthy when probed, and the empty answer is given only when every address
    of the pool was bad at some probe of this call; the pool is unchanged. *)
Theorem Get_sound now bad lb :
  (2 <= length (IPs lb))%nat -> "" ∉ IPs lb ->
  let '(ip, lb') := Get now bad lb in
  IPs lb' = IPs lb /\ current lb' = u32 (current lb + 1) /\
  if String.eqb ip ""
  then forall x, x ∈ IPs lb -> exists k, (k < length (IPs lb))%nat /\ IsBad (now k) bad x = true
  else ip ∈ IPs lb /\ exists k, (k < length (IPs lb))%nat /\ IsBad (now k) bad ip = false.
Proof.
  intros Hlen Hne. unfold Get.
  destruct (Nat.eqb_spec (length (IPs lb)) 0); [lia|].
  destruct (Nat.eqb_spec (length (IPs lb)) 1); [lia|].
  set (p := Z.to_nat _). destruct (probe now bad (IPs lb) p) as [k|] eqn:Hp; simpl.
  - destruct (probe_some _ _ _ _ _ Hp) as [Hk Hgood].
    destruct (mod_lookup (IPs lb) (p + k)) as [x Hx]; [lia|].
    rewrite Hx in Hgood |- *. simpl in *.
    apply list_elem_of_lookup_2 in Hx.
    destruct (String.eqb_spec x "") as [->|_]; [done|]. eauto 10.
  - repeat split. intros x [i Hi]%list_elem_of_lookup_1.
    destruct (probe_none _ _ _ _ Hp i) as (k & Hk & Hbad); [by eapply lookup_lt_Some|].
    rewrite Hi in Hbad. eauto.
Qed.

Lemma Get_sound_witness :
  let lb := mkRRLB ["10.0.0.1"; "10.0.0.2"] 0 in
  let bad := Some {["10.0.0.2" := 100%Z]} in
  let '(ip, lb') := Get (fun _ => 200%Z) bad lb in
  IPs lb' = IPs lb /\ current lb' = u32 1 /\
  if String.eqb ip ""
  then forall x, x ∈ IPs lb -> exists k, (k < 2)%nat /\ IsBad 200 bad x = true
  else ip ∈ IPs lb /\ exists k, (k < 2)%nat /\ IsBad 200 bad ip = false.
Proof.
  apply (Get_sound (fun _ => 200%Z) (Some {["10.0.0.2" := 100%Z]})
           (mkRRLB ["10.0.0.1"; "10.0.0.2"] 0)); [simpl; lia|].
  apply (bool_decide_unpack _). reflexivity.
Defined.

(** What [Lookup] resolves, on every branch.  An address with no port
    route is unresolved; otherwise a host with pods answers from its balancer
    and from nothing else, and only a host without pods falls back to its
    external name. *)
Theorem Lookup_spec now t host port :
  mem_char c_colon port = false ->
  let addr := host +:+ String c_colon port in
  fst (Lookup now t addr) =
    match addrToTargetPort t !! addr with
    | None => ""
    | Some targetPort =>
        match addrToTargetHost t !! host, addrToExternalName t !! host with
        | Some lb, _ =>
            let ip := fst (Get now (Some (badAddr t)) lb) in
            if String.eqb ip "" then "" else join_host_port ip targetPort
        | None, Some name => join_host_port name targetPort
        | None, None => ""
        end
    end.
Proof.
  intros Hport addr. destruct (split_addr host port Hport) as [Hl Ht].
  unfold Lookup, addr. rewrite Hl, Ht.
  repeat (case_match; simpl); simplify_eq/=; congruence.
Qed.

Lemma Lookup_spec_witness :
  mem_char c_colon "80" = false /\
  fst (Lookup (fun _ => 0%Z)
         (mkTable {["web.ns.svc.cluster.local" := mkRRLB ["10.0.0.1"] 0]}
            {["web.ns.svc.cluster.local:80" := "8080"]}
            {["web.ns.svc.cluster.local" := "example.com"]} ∅)
         "web.ns.svc.cluster.local:80") = "10.0.0.1:8080".
Proof.
  split; [reflexivity|].
  etransitivity; [apply (Lookup_spec _ _ "web.ns.svc.cluster.local" "80"); reflexivity|].
  vm_compute. reflexivity.
Defined.

(** An IP address or DNS name as the endpoints carry it. *)
Definition plain (s : string) : Prop :=
  s <> "" /\ mem_char "["%char s = false /\ mem_char "]"%char s = false.

Definition plain_port (s : string) : Prop :=
  mem_char c_colon s = false /\ mem_char "["%char s = false /\ mem_char "]"%char s = false.

Lemma join_host_port_inj a b p :
  plain a -> plain b -> plain_port p -> join_host_port a p = join_host_port b p -> a = b.
Proof.
  intros (_ & ? & ?) (_ & ? & ?) (? & ? & ?) E.
  apply (f_equal split_host_port) in E. rewrite !split_join_host_port in E by done. congruence.
Qed.

(** The dial-failure feedback.  After [MarkBad] on the address of one pod
    of a pool of at least two, no lookup whose clock stays within the
    two-second penalty answers with that pod, and once the penalty is over
    the pod counts as healthy again. *)
Theorem dial_failure_feedback now t host port targetPort lb ip at_ :
  mem_char c_colon port = false ->
  addrToTargetPort t !! (host +:+ String c_colon port) = Some targetPort ->
  addrToTargetHost t !! host = Some lb ->
  (2 <= length (IPs lb))%nat -> Forall plain (IPs lb) -> plain ip -> plain_port targetPort ->
  (forall k, now k <= at_ + badDuration)%Z ->
  let t' := MarkBad at_ (join_host_port ip targetPort) t in
  fst (Lookup now t' (host +:+ String c_colon port)) <> join_host_port ip targetPort /\
  forall later, (at_ + badDuration < later)%Z -> IsBad later (Some (badAddr t')) ip = false.
Proof.
  intros Hport Htp Hth Hlen Hpl Hip Htgt Hnow t'.
  assert (Hbad : badAddr t' = <[ip := at_]> (badAddr t)).
  { unfold t', MarkBad. simpl. destruct Hip as (? & ? & ?), Htgt as (? & ? & ?).
    by apply MarkBad_join. }
  split; [|intros later Hl; rewrite Hbad, IsBad_insert, decide_True by done;
           apply Z.leb_gt; lia].
  rewrite Lookup_spec by done.
  change (addrToTargetPort t') with (addrToTargetPort t).
  change (addrToTargetHost t') with (addrToTargetHost t). rewrite Htp, Hth. cbv zeta.
  assert (Hne : "" ∉ IPs lb).
  { intros Hin. rewrite Forall_forall in Hpl. by destruct (Hpl _ Hin) as [? _]. }
  pose proof (Get_sound now (Some (badAddr t')) lb Hlen Hne) as HS.
  destruct (Get now (Some (badAddr t')) lb) as [ip' lb']. simpl.
  destruct HS as (_ & _ & HS). destruct (String.eqb ip' ""); [|].
  { intros E. symmetry in E. by apply join_host_port_ne in E. }
  destruct HS as (Hin & k & _ & HS). intros E.
  apply join_host_port_inj in E; [subst ip'|by eapply Forall_forall|done|done].
  rewrite Hbad, IsBad_insert, decide_True in HS by done.
  apply Z.leb_gt in HS. specialize (Hnow k). lia.
Qed.

Lemma dial_failure_feedback_witness :
  let t := mkTable {["web.ns.svc.cluster.local" := mkRRLB ["10.0.0.1"; "fd00::2"] 0]}
             {["web.ns.svc.cluster.local:80" := "8080"]} ∅ ∅ in
  let t' := MarkBad 1000 (join_host_port "fd00::2" "8080") t in
  fst (Lookup (fun _ => second) t' "web.ns.svc.cluster.local:80") <> "[fd00::2]:8080" /\
  forall later, (1000 + badDuration < later)%Z ->
    IsBad later (Some (badAddr t')) "fd00::2" = false.
Proof.
  apply (dial_failure_feedback (fun _ => second)
    (mkTable {["web.ns.svc.cluster.local" := mkRRLB ["10.0.0.1"; "fd00::2"] 0]}
             {["web.ns.svc.cluster.local:80" := "8080"]} ∅ ∅)
    "web.ns.svc.cluster.local" "80" "8080" (mkRRLB ["10.0.0.1"; "fd00::2"] 0) "fd00::2" 1000).
  all: try reflexivity.
  all: try (repeat constructor; done).
Defined.

(** The background sweep is unobservable: after [Clear] every host answers
    [IsBad] exactly as it would have without the sweep, at every later instant. *)
Theorem Clear_unobservable now later t h :
  (now <= later)%Z -> IsBad later (Some (Clear now t)) h = IsBad later (Some t) h.
Proof.
  intros Hle. unfold IsBad, Clear. rewrite map_lookup_filter.
  destruct (t !! h) as [v|]; simpl; [|done].
  case_guard as Hg; simpl; [done|].
  symmetry. apply Z.leb_gt. unfold badDuration in *. lia.
Qed.

Lemma Clear_unobservable_witness :
  IsBad (3 * second) (Some (Clear second {["10.0.0.1" := 10%Z]})) "10.0.0.1"
    = IsBad (3 * second) (Some {["10.0.0.1" := 10%Z]}) "10.0.0.1".
Proof. apply Clear_unobservable. unfold second. lia. Defined.
End RouteProps.
