(* ===== verification/PurgeJournal.v ===== *)
(** * The control plane's purge journal

    Models [src/edgecp/purgestore.go]: a bounded append-only journal with
    monotonic [uint64] sequence numbers, trimmed from the front, which each edge
    reads from its own cursor.  The abstract journal is the full list of purges
    ever issued ([store_of]); the theorems say the bounded store answers for it. *)

From S2P Require Import Prelude GoString.

(** ** Data *)

Definition purgeScopeFlushAll : string := "flush-all".
Definition purgeScopeHost : string := "host".
Definition purgeScopeURL : string := "url".
Definition purgeScopePrefix : string := "prefix".
Definition purgeScopeTag : string := "tag".

Definition defaultPurgeJournalMax : Z := 4096.

(** A validated purge, before it is numbered. *)
Record purge := mkPurge {
  p_scope : string;
  p_host : string;
  p_uri : string;
  p_tag : string;
}.

Record purgeRecord := mkRec {
  r_seq : Z;          (* uint64 *)
  r_purge : purge;
}.

Record PurgeSince := mkSince {
  Entries : list purgeRecord;
  MaxSeq : Z;
  FlushRequired : bool;
}.

Record PurgeStore := mkStore {
  entries : list purgeRecord;
  lastSeq : Z;
  minSeq : Z;
  maxKeep : Z;
}.

(** ** Operations *)

Definition NewPurgeStore (maxEntries : Z) : PurgeStore :=
  mkStore [] 0 1 (if (maxEntries <=? 0)%Z then defaultPurgeJournalMax else maxEntries).

Definition normHostCP (host : string) : string :=
  let h := to_lower (trim_space host) in
  match split_host_port h with
  | Some (hh, _) => hh
  | None => h
  end.

(** The validation switch of [Add]: the record to append, or the 400. *)
Definition canonPurge (scope host uri tag : string) : option purge :=
  let scope := trim_space scope in
  if String.eqb scope purgeScopeFlushAll then Some (mkPurge scope "" "" "")
  else if String.eqb scope purgeScopeHost then
    let host := normHostCP host in
    if String.eqb host "" then None else Some (mkPurge scope host "" "")
  else if String.eqb scope purgeScopeURL || String.eqb scope purgeScopePrefix then
    let host := normHostCP host in
    let uri := trim_space uri in
    if String.eqb host "" || negb (has_prefix uri "/") then None
    else Some (mkPurge scope host uri "")
  else if String.eqb scope purgeScopeTag then
    let tag := trim_space tag in
    if String.eqb tag "" then None else Some (mkPurge scope "" "" tag)
  else None.

(** The locked part of [Add].  [maxKeep] is positive ([NewPurgeStore]), so the
    trimmed slice is never empty and [s.entries[0]] exists. *)
Definition appendPurge (p : purge) (s : PurgeStore) : PurgeStore :=
  let last := u64 (lastSeq s + 1) in
  let es := entries s ++ [mkRec last p] in
  let es := if (maxKeep s <? Z.of_nat (length es))%Z
            then drop (length es - Z.to_nat (maxKeep s)) es else es in
  let min := match es with r :: _ => r_seq r | [] => minSeq s end in
  mkStore es last min (maxKeep s).

Definition Add (scope host uri tag : string) (s : PurgeStore) : (Z * bool) * PurgeStore :=
  match canonPurge scope host uri tag with
  | None => ((0%Z, false), s)
  | Some p => let s' := appendPurge p s in ((lastSeq s', true), s')
  end.

(** Flush-all and tag entries reach every edge; the others only the edges the
    host is allowed for. *)
Definition visible (allow : string -> bool) (p : purge) : bool :=
  String.eqb (p_scope p) purgeScopeFlushAll || String.eqb (p_scope p) purgeScopeTag
  || allow (p_host p).

Definition Since (since : Z) (allow : string -> bool) (s : PurgeStore) : PurgeSince :=
  if (lastSeq s <? since)%Z then mkSince [] (lastSeq s) true
  else if (u64 (since + 1) <? minSeq s)%Z then mkSince [] (lastSeq s) true
  else mkSince
    (List.filter (fun e => (since <? r_seq e)%Z && visible allow (r_purge e)) (entries s))
    (lastSeq s) false.

(** ** The abstract journal *)

Fixpoint number (i : Z) (l : list purge) : list purgeRecord :=
  match l with
  | [] => []
  | p :: l => mkRec i p :: number (i + 1) l
  end.

(** The store that holds the history [h], bounded to [k] records. *)
Definition trimmed (k : Z) (h : list purge) : nat := length h - Z.to_nat k.

Definition store_of (k : Z) (h : list purge) : PurgeStore :=
  mkStore (number (Z.of_nat (trimmed k h) + 1) (drop (trimmed k h) h))
    (Z.of_nat (length h)) (Z.of_nat (trimmed k h) + 1) k.

(** What an edge with cursor [since] must learn from the history. *)
Definition pending (since : Z) (allow : string -> bool) (h : list purge) : list purgeRecord :=
  List.filter (fun e => visible allow (r_purge e))
    (number (since + 1) (drop (Z.to_nat since) h)).

Definition since_spec (k since : Z) (allow : string -> bool) (h : list purge) : PurgeSince :=
  if (Z.of_nat (length h) <? since)%Z || (since <? Z.of_nat (trimmed k h))%Z
  then mkSince [] (Z.of_nat (length h)) true
  else mkSince (pending since allow h) (Z.of_nat (length h)) false.

Lemma length_number i l : length (number i l) = length l.
Proof. revert i. induction l; intros i; simpl; [done|]. f_equal. auto. Qed.

Lemma number_app i l1 l2 :
  number i (l1 ++ l2) = number i l1 ++ number (i + Z.of_nat (length l1)) l2.
Proof.
  revert i. induction l1 as [|p l1 IH]; intros i; simpl.
  - f_equal. lia.
  - f_equal. rewrite IH. do 2 f_equal. lia.
Qed.

Lemma drop_number n i l : drop n (number i l) = number (i + Z.of_nat n) (drop n l).
Proof.
  revert i l. induction n as [|n IH]; intros i l.
  - by rewrite !drop_0, Z.add_0_r.
  - destruct l as [|p l]; [done|]. cbn [number]. rewrite !skipn_cons, IH.
    f_equal. lia.
Qed.

Lemma number_seq_bounds i l e :
  In e (number i l) -> (i <= r_seq e < i + Z.of_nat (length l))%Z.
Proof.
  revert i. induction l as [|p l IH]; intros i; simpl; [done|].
  intros [<- | Hin]; simpl; [lia|]. apply IH in Hin. lia.
Qed.

Lemma number_in i l e :
  In e (number i l) <->
  (i <= r_seq e)%Z /\ l !! Z.to_nat (r_seq e - i) = Some (r_purge e).
Proof.
  revert i. induction l as [|p l IH]; intros i; simpl.
  { rewrite lookup_nil. split; [done|]. by intros [_ ?]. }
  split.
  - intros [<- | Hin].
    + simpl. split; [lia|]. by rewrite Z.sub_diag.
    + pose proof (number_seq_bounds _ _ _ Hin). apply IH in Hin as [H1 H2].
      split; [lia|]. replace (Z.to_nat (r_seq e - i)) with (S (Z.to_nat (r_seq e - (i + 1)))) by lia.
      done.
  - intros [Hle Hlk]. destruct (decide (r_seq e = i)) as [He|He].
    + left. rewrite He, Z.sub_diag in Hlk. simpl in Hlk. destruct e; simpl in *. congruence.
    + right. apply IH. split; [lia|].
      replace (Z.to_nat (r_seq e - i)) with (S (Z.to_nat (r_seq e - (i + 1)))) in Hlk by lia.
      done.
Qed.

(** Filtering a numbered list by a lower bound is dropping a prefix. *)
Lemma filter_number_since (f : purgeRecord -> bool) i l since :
  (i <= since + 1)%Z ->
  List.filter (fun e => (since <? r_seq e)%Z && f e) (number i l) =
  List.filter f (number (since + 1) (drop (Z.to_nat (since + 1 - i)) l)).
Proof.
  revert i. induction l as [|p l IH]; intros i Hi; simpl.
  { by rewrite drop_nil. }
  destruct (decide (i = since + 1)%Z) as [->|Hne].
  - rewrite Z.sub_diag. simpl.
    destruct (Z.ltb_spec since (since + 1)); [simpl|lia].
    assert (Hrest : List.filter (fun e => (since <? r_seq e)%Z && f e) (number (since + 1 + 1) l)
                    = List.filter f (number (since + 1 + 1) l)).
    { apply List.filter_ext_in. intros e He. apply number_seq_bounds in He.
      destruct (Z.ltb_spec since (r_seq e)); [done|lia]. }
    by rewrite Hrest.
  - destruct (Z.ltb_spec since i); [lia|]. simpl.
    replace (Z.to_nat (since + 1 - i)) with (S (Z.to_nat (since + 1 - (i + 1)))) by lia.
    simpl. apply IH. lia.
Qed.

Lemma NewPurgeStore_store_of n :
  NewPurgeStore n = store_of (maxKeep (NewPurgeStore n)) [].
Proof. reflexivity. Qed.

Lemma NewPurgeStore_maxKeep n : (0 < maxKeep (NewPurgeStore n))%Z.
Proof. simpl. case_match eqn:H; bool_props; [done|lia]. Qed.

Lemma appendPurge_store_of k h p :
  (0 < k)%Z -> (Z.of_nat (length h) + 1 < 2 ^ 64)%Z ->
  appendPurge p (store_of k h) = store_of k (h ++ [p]).
Proof.
  intros Hk Hb. unfold appendPurge.
  cbn [lastSeq entries maxKeep minSeq store_of].
  rewrite u64_small by lia.
  set (d := trimmed k h). assert (Hd : d <= length h) by (unfold d, trimmed; lia).
  assert (Hes : number (Z.of_nat d + 1) (drop d h) ++ [mkRec (Z.of_nat (length h) + 1) p]
    = number (Z.of_nat d + 1) (drop d (h ++ [p]))).
  { rewrite drop_app_le by lia. rewrite number_app, length_drop.
    f_equal. simpl. do 2 f_equal. lia. }
  rewrite Hes, length_number, length_drop, length_app. simpl (length [p]).
  set (d' := trimmed k (h ++ [p])).
  assert (Hd' : d' = (length h + 1 - Z.to_nat k)%nat) by (unfold d', trimmed; rewrite length_app; done).
  assert (Hkeep : (if (k <? Z.of_nat (length h + 1 - d))%Z
                   then drop (length h + 1 - d - Z.to_nat k)
                          (number (Z.of_nat d + 1) (drop d (h ++ [p])))
                   else number (Z.of_nat d + 1) (drop d (h ++ [p])))
                  = number (Z.of_nat d' + 1) (drop d' (h ++ [p]))).
  { unfold d, trimmed in *. destruct (Z.ltb_spec k (Z.of_nat (length h + 1 - (length h - Z.to_nat k)))).
    - rewrite drop_number, drop_drop. f_equal; [lia|]. f_equal. lia.
    - f_equal; [lia|]. f_equal. lia. }
  rewrite Hkeep. unfold store_of. fold d'. rewrite length_app. simpl (length [p]).
  assert (Hlt : (d' < length (h ++ [p]))%nat) by (rewrite length_app; simpl; lia).
  destruct (drop d' (h ++ [p])) as [|q rest] eqn:Hdrop.
  { apply (f_equal length) in Hdrop. rewrite length_drop in Hdrop. simpl in Hdrop. lia. }
  simpl. f_equal. lia.
Qed.

Lemma Since_store_of k h since allow :
  (0 < k)%Z -> (Z.of_nat (length h) + 1 < 2 ^ 64)%Z -> (0 <= since)%Z ->
  Since since allow (store_of k h) = since_spec k since allow h.
Proof.
  intros Hk Hb Hs. unfold Since, since_spec. cbn [lastSeq entries minSeq store_of].
  destruct (Z.ltb_spec (Z.of_nat (length h)) since); [done|]. simpl.
  set (d := trimmed k h) in *.
  rewrite u64_small by lia.
  destruct (Z.ltb_spec (since + 1) (Z.of_nat d + 1)), (Z.ltb_spec since (Z.of_nat d)); try lia; [done|].
  f_equal. unfold pending.
  rewrite (filter_number_since (fun e => visible allow (r_purge e))) by lia.
  rewrite drop_drop. do 3 f_equal. lia.
Qed.

(** ** Runs of the journal *)

Definition request : Type := string * string * string * string.

Definition canonReq (q : request) : option purge :=
  let '(scope, host, uri, tag) := q in canonPurge scope host uri tag.

(** A sequence of admin requests against a store, with the answers. *)
Fixpoint Adds (qs : list request) (s : PurgeStore) : list (Z * bool) * PurgeStore :=
  match qs with
  | [] => ([], s)
  | (scope, host, uri, tag) :: qs =>
      let '(ack, s1) := Add scope host uri tag s in
      let '(acks, s2) := Adds qs s1 in
      (ack :: acks, s2)
  end.

(** The answers the abstract journal gives: consecutive numbers, from [n]. *)
Fixpoint acks_spec (n : Z) (qs : list request) : list (Z * bool) :=
  match qs with
  | [] => []
  | q :: qs =>
      match canonReq q with
      | None => (0%Z, false) :: acks_spec n qs
      | Some _ => ((n + 1)%Z, true) :: acks_spec (n + 1) qs
      end
  end.

Lemma Add_store_of k h scope host uri tag :
  (0 < k)%Z -> (Z.of_nat (length h) + 1 < 2 ^ 64)%Z ->
  Add scope host uri tag (store_of k h) =
    match canonPurge scope host uri tag with
    | None => ((0%Z, false), store_of k h)
    | Some p => ((Z.of_nat (length h) + 1, true)%Z, store_of k (h ++ [p]))
    end.
Proof.
  intros Hk Hb. unfold Add. destruct (canonPurge scope host uri tag) as [p|]; [|done].
  rewrite appendPurge_store_of by done.
  cbn [lastSeq store_of]. rewrite length_app. simpl (length [p]).
  do 2 f_equal. lia.
Qed.

Lemma Adds_store_of k qs h :
  (0 < k)%Z -> (Z.of_nat (length h) + Z.of_nat (length qs) + 1 < 2 ^ 64)%Z ->
  Adds qs (store_of k h) =
    (acks_spec (Z.of_nat (length h)) qs, store_of k (h ++ omap canonReq qs)).
Proof.
  intros Hk. revert h. induction qs as [|[[[scope host] uri] tag] qs IH]; intros h Hb.
  - simpl. by rewrite app_nil_r.
  - cbn [Adds acks_spec canonReq omap list_omap]. cbn [length] in Hb.
    rewrite Add_store_of by (done || lia).
    destruct (canonPurge scope host uri tag) as [p|] eqn:Hp.
    + rewrite IH by (rewrite ?length_app; simpl; lia).
      rewrite length_app, <- app_assoc. simpl (length [p]).
      replace (Z.of_nat (length h + 1)) with (Z.of_nat (length h) + 1)%Z by lia.
      done.
    + rewrite IH by lia. done.
Qed.

Lemma pending_in since allow h e :
  (0 <= since)%Z ->
  In e (pending since allow h) <->
  (since < r_seq e)%Z /\ h !! Z.to_nat (r_seq e - 1) = Some (r_purge e) /\
  visible allow (r_purge e) = true.
Proof.
  intros Hs. unfold pending. rewrite filter_In, number_in, lookup_drop.
  replace (Z.to_nat since + Z.to_nat (r_seq e - (since + 1)))%nat
    with (if decide (since < r_seq e)%Z then Z.to_nat (r_seq e - 1) else Z.to_nat since)
    by (case_decide; lia).
  case_decide as Hd; split; intros ([? ?] & ?) || intros (? & ? & ?); try lia; repeat split; done || lia.
Qed.

Lemma trimmed_le k h : (trimmed k h <= length h)%nat.
Proof. unfold trimmed. lia. Qed.

(** ** Properties *)

Module JournalProps.

(** C6: the bounded store refines the unbounded history.  Any sequence of
    [Add]s against a fresh journal is answered with the consecutive sequence
    numbers 1, 2, ... for the accepted requests and a rejection for the others,
    and leaves exactly the last [maxKeep] accepted purges, numbered by their
    position in the history. *)
Theorem journal_refines n qs :
  (Z.of_nat (length qs) + 1 < 2 ^ 64)%Z ->
  let k := maxKeep (NewPurgeStore n) in
  let h := omap canonReq qs in
  Adds qs (NewPurgeStore n) = (acks_spec 0 qs, store_of k h) /\
  (Z.of_nat (length (entries (store_of k h))) <= k)%Z.
Proof.
  intros Hb k h. split.
  - rewrite NewPurgeStore_store_of. fold k.
    rewrite Adds_store_of; [done|apply NewPurgeStore_maxKeep|simpl; lia].
  - cbn [entries store_of]. rewrite length_number, length_drop.
    pose proof (NewPurgeStore_maxKeep n). fold k in H. unfold trimmed. lia.
Qed.

Lemma journal_refines_witness :
  Adds [("host", "A.com:443", "", ""); ("url", "a.com", "x", ""); ("tag", "", "", " t ")]
    (NewPurgeStore 1)
  = ([(1, true); (0, false); (2, true)],
     mkStore [mkRec 2 (mkPurge "tag" "" "" "t")] 2 2 1)%Z.
Proof.
  exact (proj1 (journal_refines 1
    [("host", "A.com:443", "", ""); ("url", "a.com", "x", ""); ("tag", "", "", " t ")]
    ltac:(reflexivity))).
Defined.

(** A poll is exact.  Against a journal with history [h], an edge whose
    cursor is [since] is told to flush exactly when its cursor is ahead of the
    journal or some purge after its cursor was trimmed; otherwise it receives
    every purge issued after its cursor that is visible to it, each with its
    number, and nothing else. *)
Theorem Since_exact k h since allow :
  (0 < k)%Z -> (Z.of_nat (length h) + 1 < 2 ^ 64)%Z -> (0 <= since)%Z ->
  let r := Since since allow (store_of k h) in
  MaxSeq r = Z.of_nat (length h) /\
  (FlushRequired r = true <->
     (Z.of_nat (length h) < since \/ since + k < Z.of_nat (length h))%Z) /\
  (FlushRequired r = true -> Entries r = []) /\
  (FlushRequired r = false -> forall e,
     In e (Entries r) <->
     (since < r_seq e)%Z /\ h !! Z.to_nat (r_seq e - 1) = Some (r_purge e) /\
     visible allow (r_purge e) = true).
Proof.
  intros Hk Hb Hs r. subst r. rewrite Since_store_of by done. unfold since_spec.
  destruct (Z.ltb_spec (Z.of_nat (length h)) since) as [H1|H1]; simpl.
  { split; [done|]. split; [naive_solver|]. split; done. }
  destruct (Z.ltb_spec since (Z.of_nat (trimmed k h))) as [H2|H2]; simpl.
  - split; [done|]. split; [|split; done].
    split; [|done]. intros _. right. unfold trimmed in *. lia.
  - split; [done|]. split; [|split; [done|]].
    + split; [done|]. unfold trimmed in *. lia.
    + intros _ e. by apply pending_in.
Qed.

Lemma Since_exact_witness :
  let h := [mkPurge "host" "a.com" "" ""; mkPurge "flush-all" "" "" ""; mkPurge "host" "b.com" "" ""] in
  let r := Since 1 (String.eqb "a.com") (store_of 2 h) in
  MaxSeq r = 3%Z /\
  (FlushRequired r = true <-> (3 < 1 \/ 1 + 2 < 3)%Z) /\
  (FlushRequired r = true -> Entries r = []) /\
  (FlushRequired r = false -> forall e,
     In e (Entries r) <->
     (1 < r_seq e)%Z /\ h !! Z.to_nat (r_seq e - 1) = Some (r_purge e) /\
     visible (String.eqb "a.com") (r_purge e) = true).
Proof.
  apply (Since_exact 2
    [mkPurge "host" "a.com" "" ""; mkPurge "flush-all" "" "" ""; mkPurge "host" "b.com" "" ""]
    1 (String.eqb "a.com")); reflexivity || (simpl; lia).
Defined.

End JournalProps.
