(* ===== verification/PurgeEdge.v ===== *)
(** * Cache invalidation at the edge, and its distribution protocol

    Models [src/edge/purge.go] (the journal cursor over the invalidation table,
    its application of journal records and its persistence) and
    [src/edge/purgerefresh.go] (one poll).  The invalidation table itself is a
    package outside the repository ([pkg/cache/purge]): it is the parameter
    [PurgeTableOps], and what the edge relies on is the class [PurgeTableLaws].
    The last part composes the edge with the control plane's journal
    ([PurgeJournal]) into a step relation and shows that no acknowledged purge
    is ever lost. *)

From S2P Require Import Prelude GoString PurgeJournal.

(** ** The interface of the invalidation table *)

(** The operations the edge calls; the first argument of a purge is the instant
    at which the table stamps it. *)
Class PurgeTableOps (T S : Type) := {
  pt_empty : T;
  pt_FlushAll : Z -> T -> T;
  pt_PurgeHost : Z -> string -> T -> T;
  pt_PurgeURL : Z -> string -> string -> T -> T;
  pt_PurgePrefix : Z -> string -> string -> T -> T;
  pt_PurgeTag : Z -> string -> T -> T;
  pt_Snapshot : T -> S;
  pt_Restore : S -> T -> T;
}.

(** What the table promises: [pt_epoch t o] is the instant up to which the
    cached object [o] is invalid.  Epochs only grow, a purge stamps every object
    it covers, and a restored snapshot invalidates what the saved table did. *)
Class PurgeTableLaws (T S Obj : Type) `{PurgeTableOps T S} := {
  pt_epoch : T -> Obj -> Z;
  covers_host : string -> Obj -> Prop;
  covers_url : string -> string -> Obj -> Prop;
  covers_prefix : string -> string -> Obj -> Prop;
  covers_tag : string -> Obj -> Prop;
  epoch_FlushAll now t o : (Z.max now (pt_epoch t o) <= pt_epoch (pt_FlushAll now t) o)%Z;
  epoch_PurgeHost_mono now h t o : (pt_epoch t o <= pt_epoch (pt_PurgeHost now h t) o)%Z;
  epoch_PurgeHost now h t o : covers_host h o -> (now <= pt_epoch (pt_PurgeHost now h t) o)%Z;
  epoch_PurgeURL_mono now h u t o : (pt_epoch t o <= pt_epoch (pt_PurgeURL now h u t) o)%Z;
  epoch_PurgeURL now h u t o :
    covers_url h u o -> (now <= pt_epoch (pt_PurgeURL now h u t) o)%Z;
  epoch_PurgePrefix_mono now h u t o : (pt_epoch t o <= pt_epoch (pt_PurgePrefix now h u t) o)%Z;
  epoch_PurgePrefix now h u t o :
    covers_prefix h u o -> (now <= pt_epoch (pt_PurgePrefix now h u t) o)%Z;
  epoch_PurgeTag_mono now g t o : (pt_epoch t o <= pt_epoch (pt_PurgeTag now g t) o)%Z;
  epoch_PurgeTag now g t o : covers_tag g o -> (now <= pt_epoch (pt_PurgeTag now g t) o)%Z;
  epoch_Restore t o : (pt_epoch t o <= pt_epoch (pt_Restore (pt_Snapshot t) pt_empty) o)%Z;
}.

(** ** The edge's purge table *)

Section edge.
Context {T S : Type} `{!PurgeTableOps T S}.

Record persistState := mkPersist {
  ps_snapshot : S;
  ps_cursor : Z;
}.

Record PurgeTable := mkTbl {
  tbl : T;
  cursor : Z;          (* uint64: last journal seq applied *)
  dirtyVer : Z;
  persistedVer : Z;
  path : string;
  file : option persistState;   (* the state file at [path], None when absent *)
}.

(** The outcome of [atomicWriteFile]: failed before the rename, failed after it
    (the directory sync), or succeeded. *)
Inductive writeResult := WriteFailed | WriteRenamed | WriteOk.

Definition applyOne (now : Z) (p : purge) (t : T) : T :=
  if String.eqb (p_scope p) purgeScopeFlushAll then pt_FlushAll now t
  else if String.eqb (p_scope p) purgeScopeHost then pt_PurgeHost now (p_host p) t
  else if String.eqb (p_scope p) purgeScopeURL then pt_PurgeURL now (p_host p) (p_uri p) t
  else if String.eqb (p_scope p) purgeScopePrefix then pt_PurgePrefix now (p_host p) (p_uri p) t
  else if String.eqb (p_scope p) purgeScopeTag then pt_PurgeTag now (p_tag p) t
  else t.

(** The loop of [Apply]: entries at or below the pre-batch cursor are skipped. *)
Fixpoint applyEntries (now base : Z) (es : list purgeRecord) (t : T) : bool * T :=
  match es with
  | [] => (false, t)
  | e :: es =>
      if (r_seq e <=? base)%Z then applyEntries now base es t
      else let '(_, t') := applyEntries now base es (applyOne now (r_purge e) t) in (true, t')
  end.

Definition snapshotLocked (t : PurgeTable) : (persistState * Z) * PurgeTable :=
  let v := u64 (dirtyVer t + 1) in
  ((mkPersist (pt_Snapshot (tbl t)) (cursor t), v),
   mkTbl (tbl t) (cursor t) v (persistedVer t) (path t) (file t)).

(** The part of [Apply] under [mu]: the new table and the snapshot to persist. *)
Definition applyLocked (now : Z) (es : list purgeRecord) (maxSeq : Z) (t : PurgeTable) :
    option (persistState * Z) * PurgeTable :=
  let '(changed, tb) := applyEntries now (cursor t) es (tbl t) in
  let adv := (cursor t <? maxSeq)%Z in
  let t1 := mkTbl tb (if adv then maxSeq else cursor t)
              (dirtyVer t) (persistedVer t) (path t) (file t) in
  if changed || adv then let '(s, t2) := snapshotLocked t1 in (Some s, t2) else (None, t1).

Definition flushLocked (now maxSeq : Z) (t : PurgeTable) :
    option (persistState * Z) * PurgeTable :=
  let t1 := mkTbl (pt_FlushAll now (tbl t)) maxSeq
              (dirtyVer t) (persistedVer t) (path t) (file t) in
  let '(s, t2) := snapshotLocked t1 in (Some s, t2).

(** [persist]; the flag is whether it returned an error. *)
Definition persist (w : writeResult) (snap : persistState) (ver : Z) (t : PurgeTable) :
    bool * PurgeTable :=
  if String.eqb (path t) "" then (false, t)
  else if (ver <=? persistedVer t)%Z then (false, t)
  else match w with
       | WriteFailed => (true, t)
       | WriteRenamed =>
           (true, mkTbl (tbl t) (cursor t) (dirtyVer t) (persistedVer t) (path t) (Some snap))
       | WriteOk =>
           (false, mkTbl (tbl t) (cursor t) (dirtyVer t) ver (path t) (Some snap))
       end.

Definition persistPending (w : writeResult) (r : option (persistState * Z) * PurgeTable) :
    bool * PurgeTable :=
  match r with
  | (None, t) => (false, t)
  | (Some (snap, ver), t) => persist w snap ver t
  end.

Definition Apply (w : writeResult) (now : Z) (es : list purgeRecord) (maxSeq : Z)
    (t : PurgeTable) : bool * PurgeTable :=
  persistPending w (applyLocked now es maxSeq t).

Definition FlushAll (w : writeResult) (now maxSeq : Z) (t : PurgeTable) : bool * PurgeTable :=
  persistPending w (flushLocked now maxSeq t).

(** [NewPurgeTable] and [load]: [readable] is false when the file cannot be read
    or parsed. *)
Definition load (readable : bool) (path : string) (f : option persistState) : PurgeTable :=
  let fresh := mkTbl pt_empty 0 0 0 path f in
  if String.eqb path "" then fresh
  else match f with
       | Some st =>
           if readable
           then mkTbl (pt_Restore (ps_snapshot st) pt_empty) (ps_cursor st) 0 0 path f
           else fresh
       | None => fresh
       end.

(** ** One poll *)

Inductive fetch := FetchErr | FetchDisabled | FetchOk (res : PurgeSince).

Definition RefreshPurgeOnce (w : writeResult) (now : Z) (res : fetch) (t : PurgeTable) :
    PurgeTable :=
  match res with
  | FetchErr => t
  | FetchDisabled => t
  | FetchOk res =>
      if FlushRequired res || (MaxSeq res <? cursor t)%Z
      then snd (FlushAll w now (MaxSeq res) t)
      else snd (Apply w now (Entries res) (MaxSeq res) t)
  end.

(** ** Lemmas: the locked parts only touch what they should *)

Lemma persist_mem w snap ver t :
  let t' := snd (persist w snap ver t) in
  tbl t' = tbl t /\ cursor t' = cursor t /\ dirtyVer t' = dirtyVer t /\ path t' = path t.
Proof. unfold persist. repeat case_match; done. Qed.

Lemma persist_file w snap ver t :
  file (snd (persist w snap ver t)) = file t \/ file (snd (persist w snap ver t)) = Some snap.
Proof. unfold persist. repeat case_match; simpl; auto. Qed.

Lemma Apply_mem w now es m t :
  let t' := snd (Apply w now es m t) in
  tbl t' = snd (applyEntries now (cursor t) es (tbl t)) /\
  cursor t' = Z.max (cursor t) m /\ path t' = path t.
Proof.
  unfold Apply, applyLocked. destruct (applyEntries now (cursor t) es (tbl t)) as [ch tb].
  destruct (Z.ltb_spec (cursor t) m) as [Hlt|Hge].
  - rewrite orb_true_r. simpl.
    edestruct persist_mem as (-> & -> & _ & ->). simpl. split; [done|]. split; [lia|done].
  - rewrite orb_false_r. destruct ch; simpl.
    + edestruct persist_mem as (-> & -> & _ & ->). simpl. split; [done|]. split; [lia|done].
    + split; [done|]. split; [lia|done].
Qed.

Lemma FlushAll_mem w now m t :
  let t' := snd (FlushAll w now m t) in
  tbl t' = pt_FlushAll now (tbl t) /\ cursor t' = m /\ path t' = path t.
Proof.
  unfold FlushAll, flushLocked. simpl.
  edestruct persist_mem as (-> & -> & _ & ->). done.
Qed.

(** The file holds either what it held or a snapshot of the new state. *)
Lemma Apply_file w now es m t :
  let t' := snd (Apply w now es m t) in
  file t' = file t \/ file t' = Some (mkPersist (pt_Snapshot (tbl t')) (cursor t')).
Proof.
  unfold Apply, applyLocked. destruct (applyEntries now (cursor t) es (tbl t)) as [ch tb].
  destruct (ch || _); simpl; [|by left].
  edestruct persist_mem as (-> & -> & _ & _). simpl.
  edestruct persist_file as [-> | ->]; simpl; auto.
Qed.

Lemma FlushAll_file w now m t :
  let t' := snd (FlushAll w now m t) in
  file t' = file t \/ file t' = Some (mkPersist (pt_Snapshot (tbl t')) (cursor t')).
Proof.
  unfold FlushAll, flushLocked. simpl.
  edestruct persist_mem as (-> & -> & _ & _). simpl.
  edestruct persist_file as [-> | ->]; simpl; auto.
Qed.

End edge.
Arguments persistState : clear implicits.
Arguments PurgeTable : clear implicits.

(** ** What an applied record guarantees *)

Section laws.
Context {T S Obj : Type} `{!PurgeTableOps T S} `{!PurgeTableLaws T S Obj}.

(** Which cached objects a purge is meant to invalidate. *)
Definition covers (p : purge) (o : Obj) : Prop :=
  if String.eqb (p_scope p) purgeScopeFlushAll then True
  else if String.eqb (p_scope p) purgeScopeHost then covers_host (p_host p) o
  else if String.eqb (p_scope p) purgeScopeURL then covers_url (p_host p) (p_uri p) o
  else if String.eqb (p_scope p) purgeScopePrefix then covers_prefix (p_host p) (p_uri p) o
  else if String.eqb (p_scope p) purgeScopeTag then covers_tag (p_tag p) o
  else False.

Lemma applyOne_mono now p t o : (pt_epoch t o <= pt_epoch (applyOne now p t) o)%Z.
Proof.
  unfold applyOne. repeat case_match; auto using epoch_PurgeHost_mono, epoch_PurgeURL_mono,
    epoch_PurgePrefix_mono, epoch_PurgeTag_mono with lia.
  pose proof (epoch_FlushAll now t o). lia.
Qed.

Lemma applyOne_covers now p t o : covers p o -> (now <= pt_epoch (applyOne now p t) o)%Z.
Proof.
  unfold covers, applyOne. repeat case_match; auto using epoch_PurgeHost, epoch_PurgeURL,
    epoch_PurgePrefix, epoch_PurgeTag; try done.
  intros _. pose proof (epoch_FlushAll now t o). lia.
Qed.

Lemma applyEntries_cons now base e es t :
  snd (applyEntries now base (e :: es) t) =
    snd (applyEntries now base es
           (if (r_seq e <=? base)%Z then t else applyOne now (r_purge e) t)).
Proof. simpl. case_match; [done|]. by destruct (applyEntries _ _ _ _). Qed.

Lemma applyEntries_mono now base es t o :
  (pt_epoch t o <= pt_epoch (snd (applyEntries now base es t)) o)%Z.
Proof.
  revert t. induction es as [|e es IH]; intros t; [simpl; lia|].
  rewrite applyEntries_cons. etransitivity; [|apply IH].
  case_match; [done|]. apply applyOne_mono.
Qed.

Lemma applyEntries_covers now base es t o e :
  In e es -> (base < r_seq e)%Z -> covers (r_purge e) o ->
  (now <= pt_epoch (snd (applyEntries now base es t)) o)%Z.
Proof.
  intros Hin Hseq Hcov. revert t. induction es as [|e' es IH]; intros t; [done|].
  rewrite applyEntries_cons. destruct Hin as [->|Hin]; [|by apply IH].
  destruct (Z.leb_spec (r_seq e) base); [lia|].
  etransitivity; [by apply applyOne_covers|apply applyEntries_mono].
Qed.

(** Re-delivering a batch the cursor already covers changes nothing in the table. *)
Lemma applyEntries_stale now base es t :
  Forall (fun e => r_seq e <= base)%Z es -> applyEntries now base es t = (false, t).
Proof.
  intros H. revert t. induction H as [|e es He _ IH]; intros t; simpl; [done|].
  destruct (Z.leb_spec (r_seq e) base); [apply IH|lia].
Qed.

(** ** The distribution protocol

    One control plane and one edge.  Purges are issued at any time; the edge's
    single refresh goroutine fetches, and the answer may be delivered after
    more purges were issued, or lost; the edge may crash and reload its file. *)

Context (allow : string -> bool) (statePath : string).

Record World := mkWorld {
  w_now : Z;
  w_keep : Z;
  w_hist : list (purge * Z);       (* every accepted purge, with its instant *)
  w_store : PurgeStore;
  w_edge : PurgeTable T S;
  w_inflight : option PurgeSince;
}.

Definition initWorld (now n : Z) : World :=
  mkWorld now (maxKeep (NewPurgeStore n)) [] (NewPurgeStore n) (load true statePath None) None.

Inductive step : World -> World -> Prop :=
| st_tick w d :
    (0 <= d)%Z ->
    step w (mkWorld (w_now w + d) (w_keep w) (w_hist w) (w_store w) (w_edge w) (w_inflight w))
| st_issue w scope host uri tag :
    (Z.of_nat (length (w_hist w)) + 2 < 2 ^ 64)%Z ->
    step w (mkWorld (w_now w) (w_keep w)
              (w_hist w ++ match canonPurge scope host uri tag with
                           | Some p => [(p, w_now w)] | None => [] end)
              (snd (Add scope host uri tag (w_store w))) (w_edge w) (w_inflight w))
| st_fetch w :
    step w (mkWorld (w_now w) (w_keep w) (w_hist w) (w_store w) (w_edge w)
              (Some (Since (cursor (w_edge w)) allow (w_store w))))
| st_lost w f wr :
    f = FetchErr \/ f = FetchDisabled ->
    step w (mkWorld (w_now w) (w_keep w) (w_hist w) (w_store w)
              (RefreshPurgeOnce wr (w_now w) f (w_edge w)) None)
| st_deliver w wr r :
    w_inflight w = Some r ->
    step w (mkWorld (w_now w) (w_keep w) (w_hist w) (w_store w)
              (RefreshPurgeOnce wr (w_now w) (FetchOk r) (w_edge w)) None)
| st_crash w readable :
    step w (mkWorld (w_now w) (w_keep w) (w_hist w) (w_store w)
              (load readable statePath (file (w_edge w))) None).

(** Every purge numbered at most [c] is effective in [t]. *)
Definition effective (h : list (purge * Z)) (t : T) (c : Z) : Prop :=
  forall i p ts o, (Z.of_nat i < c)%Z -> h !! i = Some (p, ts) ->
  visible allow p = true -> covers p o -> (ts <= pt_epoch t o)%Z.

Record Inv (w : World) : Prop := {
  inv_keep : (0 < w_keep w)%Z;
  inv_bound : (Z.of_nat (length (w_hist w)) + 1 < 2 ^ 64)%Z;
  inv_store : w_store w = store_of (w_keep w) (w_hist w).*1;
  inv_past : Forall (fun '(_, ts) => ts <= w_now w)%Z (w_hist w);
  inv_cursor : (0 <= cursor (w_edge w) <= Z.of_nat (length (w_hist w)))%Z;
  inv_effective : effective (w_hist w) (tbl (w_edge w)) (cursor (w_edge w));
  inv_file : forall st, file (w_edge w) = Some st ->
    (0 <= ps_cursor st <= Z.of_nat (length (w_hist w)))%Z /\
    effective (w_hist w) (pt_Restore (ps_snapshot st) pt_empty) (ps_cursor st);
  inv_inflight : forall r, w_inflight w = Some r ->
    exists n, (n <= length (w_hist w))%nat /\
      r = since_spec (w_keep w) (cursor (w_edge w)) allow (take n (w_hist w).*1);
}.

Lemma effective_app h h' t c :
  (c <= Z.of_nat (length h))%Z -> effective h t c -> effective (h ++ h') t c.
Proof.
  intros Hc He i p ts o Hi Hlk. rewrite lookup_app_l in Hlk by lia. by eapply He.
Qed.

Lemma effective_snapshot h t c :
  effective h t c -> effective h (pt_Restore (pt_Snapshot t) pt_empty) c.
Proof.
  intros He i p ts o Hi Hlk Hv Hc. pose proof (He i p ts o Hi Hlk Hv Hc).
  pose proof (epoch_Restore t o). lia.
Qed.

Lemma effective_flush now h t c :
  Forall (fun '(_, ts) => ts <= now)%Z h -> effective h (pt_FlushAll now t) c.
Proof.
  intros Hp i p ts o _ Hlk _ _. eapply Forall_lookup_1 in Hp; [|done]. simpl in Hp.
  pose proof (epoch_FlushAll now t o). lia.
Qed.

(** Applying what an exact poll of a prefix of the history returned advances the
    effective cursor to the end of that prefix. *)
Lemma effective_apply now h t c n :
  Forall (fun '(_, ts) => ts <= now)%Z h -> (0 <= c)%Z -> (n <= length h)%nat ->
  effective h t c ->
  effective h (snd (applyEntries now c (pending c allow (take n h.*1)) t))
    (Z.max c (Z.of_nat n)).
Proof.
  intros Hp Hc Hn He i p ts o Hi Hlk Hv Hcov.
  destruct (decide (Z.of_nat i < c)%Z) as [Hlt|Hge].
  - pose proof (He i p ts o Hlt Hlk Hv Hcov).
    pose proof (applyEntries_mono now c (pending c allow (take n h.*1)) t o). lia.
  - eapply Forall_lookup_1 in Hp; [|done]. simpl in Hp.
    etransitivity; [exact Hp|].
    apply applyEntries_covers with (e := mkRec (Z.of_nat i + 1) p); simpl; [|lia|done].
    apply pending_in; [done|]. simpl. split; [lia|]. split; [|done].
    replace (Z.to_nat (Z.of_nat i + 1 - 1)) with i by lia.
    rewrite lookup_take_lt by lia. by rewrite list_lookup_fmap, Hlk.
Qed.

Lemma Inv_init now n : Inv (initWorld now n).
Proof.
  constructor; simpl.
  - pose proof (NewPurgeStore_maxKeep n). done.
  - lia.
  - done.
  - constructor.
  - unfold load. repeat case_match; simpl; lia.
  - intros i p ts o _ Hlk. by rewrite lookup_nil in Hlk.
  - unfold load. repeat case_match; simpl; done.
  - done.
Qed.

Lemma Inv_issue w scope host uri tag :
  Inv w -> (Z.of_nat (length (w_hist w)) + 2 < 2 ^ 64)%Z ->
  Inv (mkWorld (w_now w) (w_keep w)
         (w_hist w ++ match canonPurge scope host uri tag with
                      | Some p => [(p, w_now w)] | None => [] end)
         (snd (Add scope host uri tag (w_store w))) (w_edge w) (w_inflight w)).
Proof.
  intros [Hk Hb Hst Hp Hc He Hf Hi] Hb2.
  assert (Hstore : snd (Add scope host uri tag (w_store w)) =
     store_of (w_keep w) (w_hist w ++ match canonPurge scope host uri tag with
                      | Some p => [(p, w_now w)] | None => [] end).*1).
  { rewrite Hst, Add_store_of by (rewrite ?length_fmap; done || lia).
    destruct (canonPurge scope host uri tag); simpl; rewrite ?app_nil_r, ?fmap_app; done. }
  rewrite Hstore. clear Hstore.
  destruct (canonPurge scope host uri tag) as [p|];
    [|rewrite app_nil_r; constructor; simpl; auto].
  constructor; simpl; rewrite ?length_app; simpl; try done || lia.
  - apply Forall_app. split; [done|]. by repeat constructor.
  - apply effective_app; [lia|done].
  - intros st Hst'. destruct (Hf st Hst') as [? ?]. split; [lia|]. apply effective_app; [lia|done].
  - intros r Hr. destruct (Hi r Hr) as (n & Hn & ->). exists n. split; [lia|].
    rewrite fmap_app, take_app_le by (rewrite length_fmap; lia). done.
Qed.

(** A step of the edge that keeps the cursor's guarantee keeps the invariant. *)
Lemma Inv_edge w e :
  Inv w ->
  (0 <= cursor e <= Z.of_nat (length (w_hist w)))%Z ->
  effective (w_hist w) (tbl e) (cursor e) ->
  (file e = file (w_edge w) \/
   file e = Some (mkPersist (pt_Snapshot (tbl e)) (cursor e))) ->
  Inv (mkWorld (w_now w) (w_keep w) (w_hist w) (w_store w) e None).
Proof.
  intros [Hk Hb Hst Hp Hc He Hf Hi] Hc' He' Hfile.
  constructor; simpl; try done.
  intros st Hst'. destruct Hfile as [Hfile|Hfile]; rewrite Hfile in Hst'; [by apply Hf|].
  injection Hst' as <-. simpl. split; [done|]. by apply effective_snapshot.
Qed.

Lemma since_spec_MaxSeq k s h : MaxSeq (since_spec k s allow h) = Z.of_nat (length h).
Proof. unfold since_spec. by case_match. Qed.

Lemma Inv_deliver w wr r :
  Inv w -> w_inflight w = Some r ->
  Inv (mkWorld (w_now w) (w_keep w) (w_hist w) (w_store w)
         (RefreshPurgeOnce wr (w_now w) (FetchOk r) (w_edge w)) None).
Proof.
  intros HI Hr. destruct (inv_inflight w HI r Hr) as (n & Hn & ->).
  set (r := since_spec _ _ _ _).
  assert (Hmax : MaxSeq r = Z.of_nat n).
  { unfold r. rewrite since_spec_MaxSeq, length_take, length_fmap. lia. }
  pose proof (inv_cursor w HI). simpl.
  destruct (FlushRequired r || (MaxSeq r <? cursor (w_edge w))%Z) eqn:Hflush.
  - destruct (FlushAll_mem wr (w_now w) (MaxSeq r) (w_edge w)) as (Ht & Hc & _).
    apply Inv_edge; [done| | |apply FlushAll_file].
    + rewrite Hc, Hmax. lia.
    + rewrite Ht. apply effective_flush, HI.
  - apply orb_false_iff in Hflush as [Hnf Hge]. apply Z.ltb_ge in Hge.
    assert (Hent : Entries r = pending (cursor (w_edge w)) allow (take n (w_hist w).*1)).
    { unfold r, since_spec in *. by destruct (_ || _). }
    destruct (Apply_mem wr (w_now w) (Entries r) (MaxSeq r) (w_edge w)) as (Ht & Hc & _).
    apply Inv_edge; [done| | |apply Apply_file].
    + rewrite Hc, Hmax. lia.
    + rewrite Ht, Hc, Hmax, Hent. apply effective_apply; [apply HI|lia|done|apply HI].
Qed.

Lemma Inv_crash w readable :
  Inv w ->
  Inv (mkWorld (w_now w) (w_keep w) (w_hist w) (w_store w)
         (load readable statePath (file (w_edge w))) None).
Proof.
  intros HI. pose proof (inv_file w HI) as Hf.
  assert (Hfresh : forall t, effective (w_hist w) t 0) by (intros t i p ts o Hi; lia).
  apply Inv_edge; [done| | |left]; unfold load; repeat case_match; simpl; auto;
    try lia; by apply Hf.
Qed.

Lemma Inv_step w w' : Inv w -> step w w' -> Inv w'.
Proof.
  intros HI Hs. destruct Hs.
  - destruct HI. constructor; simpl; try done.
    eapply Forall_impl; [done|]. intros [? ?] ?. simpl in *. lia.
  - by apply Inv_issue.
  - destruct HI. constructor; simpl; try done.
    intros r [= <-]. exists (length (w_hist w)). split; [done|].
    rewrite inv_store0, Since_store_of by (rewrite ?length_fmap; done || lia).
    by rewrite take_ge by (by rewrite length_fmap).
  - apply Inv_edge; destruct H as [-> | ->]; simpl; try apply HI; auto.
  - by apply Inv_deliver.
  - by apply Inv_crash.
Qed.

Lemma Inv_reachable now n w : star step (initWorld now n) w -> Inv w.
Proof. intros Hs. eapply star_invariant; [apply Inv_step|done|apply Inv_init]. Qed.

End laws.

(** ** Concurrent persistence

    [Apply] and [FlushAll] release [mu] before they write, so snapshots may
    reach the disk in any order.  [pw_snaps] is the list of all snapshots taken
    (version [v] is its [v]-th element), [pw_pending] those not yet written. *)

Section persistence.
Context {T S : Type} `{!PurgeTableOps T S}.

Record PWorld := mkPW {
  pw_tbl : PurgeTable T S;
  pw_pending : list (persistState S * Z);
  pw_snaps : list (persistState S);
}.

Inductive pstep : PWorld -> PWorld -> Prop :=
| ps_apply w now es m pend t' :
    applyLocked now es m (pw_tbl w) = (pend, t') ->
    pstep w (mkPW t' (pw_pending w ++ option_list pend)
               (pw_snaps w ++ option_list (fst <$> pend)))
| ps_flush w now m pend t' :
    flushLocked now m (pw_tbl w) = (pend, t') ->
    pstep w (mkPW t' (pw_pending w ++ option_list pend)
               (pw_snaps w ++ option_list (fst <$> pend)))
| ps_write w wr snap ver l1 l2 :
    pw_pending w = l1 ++ (snap, ver) :: l2 -> wr <> WriteRenamed ->
    pstep w (mkPW (snd (persist wr snap ver (pw_tbl w))) (l1 ++ l2) (pw_snaps w)).

Definition snapshot_now (t : PurgeTable T S) : persistState S :=
  mkPersist (pt_Snapshot (tbl t)) (cursor t).

Record PInv (w : PWorld) : Prop := {
  pi_ver : dirtyVer (pw_tbl w) = Z.of_nat (length (pw_snaps w));
  pi_pending : Forall (fun '(s, v) =>
    (0 < v)%Z /\ pw_snaps w !! Z.to_nat (v - 1) = Some s) (pw_pending w);
  pi_last : pw_snaps w <> [] -> last (pw_snaps w) = Some (snapshot_now (pw_tbl w));
  pi_persisted : (0 <= persistedVer (pw_tbl w))%Z;
  pi_file : (0 < persistedVer (pw_tbl w))%Z ->
    file (pw_tbl w) = pw_snaps w !! Z.to_nat (persistedVer (pw_tbl w) - 1) /\
    is_Some (file (pw_tbl w));
}.

Lemma applyEntries_unchanged now base es t t' :
  applyEntries now base es t = (false, t') -> t' = t.
Proof.
  revert t. induction es as [|e es IH]; intros t; simpl; [by intros [= ->]|].
  case_match; [by auto|]. by destruct (applyEntries now base es _).
Qed.

(** What a locked operation hands over: nothing and no change, or the snapshot
    of the new state under the next version. *)
Definition hands_over (t : PurgeTable T S) (pend : option (persistState S * Z))
    (t' : PurgeTable T S) : Prop :=
  persistedVer t' = persistedVer t /\ file t' = file t /\
  match pend with
  | None => tbl t' = tbl t /\ cursor t' = cursor t /\ dirtyVer t' = dirtyVer t
  | Some (s, v) => s = snapshot_now t' /\ v = u64 (dirtyVer t + 1) /\ dirtyVer t' = v
  end.

Lemma applyLocked_hands now es m t pend t' :
  applyLocked now es m t = (pend, t') -> hands_over t pend t'.
Proof.
  unfold applyLocked, hands_over.
  destruct (applyEntries now (cursor t) es (tbl t)) as [ch tb] eqn:E.
  destruct (ch || (cursor t <? m)%Z) eqn:Hor; intros [= <- <-]; [done|].
  apply orb_false_iff in Hor as [-> ->]. apply applyEntries_unchanged in E as ->. done.
Qed.

Lemma flushLocked_hands now m t pend t' :
  flushLocked now m t = (pend, t') -> hands_over t pend t'.
Proof. unfold flushLocked, hands_over. by intros [= <- <-]. Qed.

Lemma PInv_hands w pend t' :
  PInv w -> (dirtyVer (pw_tbl w) + 1 < 2 ^ 64)%Z -> hands_over (pw_tbl w) pend t' ->
  PInv (mkPW t' (pw_pending w ++ option_list pend) (pw_snaps w ++ option_list (fst <$> pend))).
Proof.
  intros [Hv Hpd Hl Hp Hf] Hb (Hpv & Hfl & Hm).
  destruct pend as [[s v]|]; simpl.
  - destruct Hm as (-> & Hvv & Hdv). rewrite u64_small in Hvv by lia.
    constructor; simpl; rewrite ?Hpv, ?Hfl; try done.
    + rewrite Hdv, Hvv, length_app. simpl. lia.
    + apply Forall_app. split.
      * eapply Forall_impl; [exact Hpd|]. intros [s v'] [? Hlk]. split; [done|].
        by apply lookup_app_l_Some.
      * repeat constructor; [lia|]. rewrite lookup_app_r by lia.
        by replace (Z.to_nat (v - 1) - length (pw_snaps w))%nat with 0%nat by lia.
    + intros _. by rewrite last_snoc.
    + intros Hgt. destruct (Hf Hgt) as [Hfe Hs]. split; [|done].
      rewrite Hfe in Hs |- *. symmetry. destruct Hs as [x Hx]. rewrite Hx.
      by apply lookup_app_l_Some.
  - destruct Hm as (Ht & Hc & Hd). rewrite !app_nil_r.
    constructor; simpl; rewrite ?Hpv, ?Hfl, ?Hd; try done.
    unfold snapshot_now. by rewrite Ht, Hc.
Qed.

Lemma PInv_write w wr snap ver l1 l2 :
  PInv w -> pw_pending w = l1 ++ (snap, ver) :: l2 -> wr <> WriteRenamed ->
  PInv (mkPW (snd (persist wr snap ver (pw_tbl w))) (l1 ++ l2) (pw_snaps w)) /\
  (persistedVer (pw_tbl w) <= persistedVer (snd (persist wr snap ver (pw_tbl w))))%Z.
Proof.
  intros [Hv Hpd Hl Hp Hf] Hpend Hwr.
  rewrite Hpend, Forall_app, Forall_cons in Hpd. destruct Hpd as (H1 & [Hv0 Hlk] & H2).
  assert (Hrest : Forall (fun '(s, v) =>
    (0 < v)%Z /\ pw_snaps w !! Z.to_nat (v - 1) = Some s) (l1 ++ l2)) by (by apply Forall_app).
  assert (Hsame : PInv (mkPW (pw_tbl w) (l1 ++ l2) (pw_snaps w))) by (by constructor).
  unfold persist. case_match; simpl; [by split|].
  destruct (Z.leb_spec ver (persistedVer (pw_tbl w))); simpl; [by split|].
  destruct wr; simpl; [by split|done|].
  split; [|lia]. constructor; simpl; try done; try lia.
Qed.

End persistence.
Arguments PWorld : clear implicits.

(** ** A concrete invalidation table: the log of the purges *)

Module LogTable.

Record Obj := mkObj { o_host : string; o_uri : string; o_tags : list string }.

Inductive op := OpAll | OpHost (h : string) | OpURL (h u : string) | OpPrefix (h u : string)
  | OpTag (t : string).

Definition opCovers (p : op) (o : Obj) : bool :=
  match p with
  | OpAll => true
  | OpHost h => String.eqb h (o_host o)
  | OpURL h u => String.eqb h (o_host o) && String.eqb u (o_uri o)
  | OpPrefix h u => String.eqb h (o_host o) && has_prefix (o_uri o) u
  | OpTag t => existsb (String.eqb t) (o_tags o)
  end.

Definition T := list (Z * op).

Fixpoint epoch (t : T) (o : Obj) : Z :=
  match t with
  | [] => 0
  | (n, p) :: t => if opCovers p o then Z.max n (epoch t o) else epoch t o
  end.

#[export] Instance ops : PurgeTableOps T T := {|
  pt_empty := [];
  pt_FlushAll now t := (now, OpAll) :: t;
  pt_PurgeHost now h t := (now, OpHost h) :: t;
  pt_PurgeURL now h u t := (now, OpURL h u) :: t;
  pt_PurgePrefix now h u t := (now, OpPrefix h u) :: t;
  pt_PurgeTag now g t := (now, OpTag g) :: t;
  pt_Snapshot t := t;
  pt_Restore s _ := s;
|}.

#[export] Program Instance laws : PurgeTableLaws T T Obj := {|
  pt_epoch := epoch;
  covers_host h o := opCovers (OpHost h) o = true;
  covers_url h u o := opCovers (OpURL h u) o = true;
  covers_prefix h u o := opCovers (OpPrefix h u) o = true;
  covers_tag g o := opCovers (OpTag g) o = true;
|}.
Solve All Obligations with intros; simpl in *; repeat case_match; congruence || lia.

End LogTable.

(** ** Properties *)

Module PurgeProps.
Import LogTable.

Section props.
Context {T S Obj : Type} `{!PurgeTableOps T S} `{!PurgeTableLaws T S Obj}.
Context (allow : string -> bool) (statePath : string).

(** C3: no under-invalidation.  In every state reachable by issuing, polling
    (with lost and delayed answers), flushing, failed or partial writes and
    crashes of the edge, every purge at or below the edge's cursor that is
    visible to it is effective: whatever it covers is invalid at least up to the
    instant the purge was issued. *)
Theorem no_under_invalidation now n w i p ts o :
  star (step allow statePath) (initWorld statePath now n) w ->
  w_hist w !! i = Some (p, ts) -> (Z.of_nat i < cursor (w_edge w))%Z ->
  visible allow p = true -> covers p o ->
  (ts <= pt_epoch (tbl (w_edge w)) o)%Z.
Proof.
  intros Hs Hlk Hi Hv Hc. apply Inv_reachable in Hs. by eapply (inv_effective _ _ Hs).
Qed.

(** A poll catches up.  From every reachable state, one poll that is
    answered brings the cursor to the end of the journal and makes every purge
    issued so far and visible to the edge effective, whatever happens to the
    state file. *)
Theorem poll_catches_up now n w wr :
  star (step allow statePath) (initWorld statePath now n) w ->
  let e' := RefreshPurgeOnce wr (w_now w)
              (FetchOk (Since (cursor (w_edge w)) allow (w_store w))) (w_edge w) in
  cursor e' = lastSeq (w_store w) /\ lastSeq (w_store w) = Z.of_nat (length (w_hist w)) /\
  forall i p ts o, w_hist w !! i = Some (p, ts) -> visible allow p = true -> covers p o ->
    (ts <= pt_epoch (tbl e') o)%Z.
Proof.
  intros Hs e'.
  assert (Hs' : star (step allow statePath) (initWorld statePath now n)
    (mkWorld (w_now w) (w_keep w) (w_hist w) (w_store w) e' None)).
  { eapply star_trans; [exact Hs|]. eapply star_step; [apply st_fetch|].
    eapply star_step; [by apply st_deliver with (wr := wr)|]. apply star_refl. }
  pose proof (Inv_reachable _ _ _ _ _ Hs) as HI.
  pose proof (Inv_reachable _ _ _ _ _ Hs') as HI'.
  pose proof (inv_store _ _ HI) as Hst. pose proof (inv_keep _ _ HI) as Hk.
  pose proof (inv_bound _ _ HI) as Hb. pose proof (inv_cursor _ _ HI) as Hcur.
  assert (Hlast : lastSeq (w_store w) = Z.of_nat (length (w_hist w))).
  { rewrite Hst. simpl. by rewrite length_fmap. }
  assert (Hc : cursor e' = lastSeq (w_store w)).
  { unfold e'. cbn [RefreshPurgeOnce].
    assert (Hmax : MaxSeq (Since (cursor (w_edge w)) allow (w_store w)) = lastSeq (w_store w))
      by (unfold Since; by repeat case_match).
    case_match.
    - destruct (FlushAll_mem wr (w_now w)
        (MaxSeq (Since (cursor (w_edge w)) allow (w_store w))) (w_edge w)) as (_ & -> & _). done.
    - edestruct Apply_mem as (_ & -> & _). rewrite Hmax. lia. }
  split; [done|]. split; [done|].
  intros i p ts o Hlk Hv Hcov.
  apply (inv_effective _ _ HI' i p ts o); [|done..]. simpl.
  apply lookup_lt_Some in Hlk. lia.
Qed.

(** Idempotence.  Delivering again a batch that came with [maxSeq] (whose
    entries the control plane numbers at most [maxSeq]) changes neither the
    table nor the cursor, and nothing is handed to the disk. *)
Theorem redelivery_is_noop now now' es m (t : PurgeTable T S) :
  Forall (fun e => r_seq e <= m)%Z es ->
  let t1 := snd (applyLocked now es m t) in
  applyLocked now' es m t1 = (None, mkTbl (tbl t1) (cursor t1) (dirtyVer t1)
                                      (persistedVer t1) (path t1) (file t1)).
Proof.
  intros Hes t1.
  assert (Hc : (m <= cursor t1)%Z).
  { unfold t1, applyLocked. destruct (applyEntries _ _ _ _) as [ch tb].
    destruct (Z.ltb_spec (cursor t) m); destruct (ch || _); simpl; lia. }
  unfold applyLocked. rewrite applyEntries_stale.
  - destruct (Z.ltb_spec (cursor t1) m); [lia|]. done.
  - eapply Forall_impl; [exact Hes|]. simpl. lia.
Qed.

(** Persistence is ordered.  Whatever the interleaving of batches, flushes
    and (successful or failed) writes, the version on disk never goes back, the
    file always holds exactly the snapshot of the version recorded as persisted,
    and once the latest version is persisted the file holds the table and the
    cursor that are in memory. *)
Theorem persistence_ordered (w w' : PWorld T S) :
  PInv w -> (dirtyVer (pw_tbl w) + 1 < 2 ^ 64)%Z -> pstep w w' ->
  PInv w' /\ (persistedVer (pw_tbl w) <= persistedVer (pw_tbl w'))%Z /\
  ((0 < persistedVer (pw_tbl w'))%Z -> persistedVer (pw_tbl w') = dirtyVer (pw_tbl w') ->
   file (pw_tbl w') = Some (snapshot_now (pw_tbl w'))).
Proof.
  intros HI Hb Hs.
  assert (Hlatest : forall w, PInv w -> (0 < persistedVer (pw_tbl w))%Z ->
            persistedVer (pw_tbl w) = dirtyVer (pw_tbl w) ->
            file (pw_tbl w) = Some (snapshot_now (pw_tbl w))).
  { clear. intros w [Hv _ Hl _ Hf] Hpos Heq. destruct (Hf Hpos) as [-> Hsome].
    rewrite Heq, Hv in *.
    destruct (pw_snaps w) as [|s l] eqn:El using rev_ind; [simpl in Hpos; lia|].
    rewrite <- Hl by (by destruct l). rewrite last_snoc, length_app. simpl.
    rewrite lookup_app_r by lia.
    by replace (Z.to_nat (Z.of_nat (length l + 1) - 1) - length l)%nat with 0%nat by lia. }
  destruct Hs as [? ? ? ? ? ? H|? ? ? ? ? H|? wr snap ver l1 l2 Hp Hwr].
  - apply applyLocked_hands in H. pose proof (PInv_hands _ _ _ HI Hb H) as HI'.
    split; [done|]. split; [destruct H as [Hpv _]; simpl; rewrite Hpv; lia|]. by apply Hlatest.
  - apply flushLocked_hands in H. pose proof (PInv_hands _ _ _ HI Hb H) as HI'.
    split; [done|]. split; [destruct H as [Hpv _]; simpl; rewrite Hpv; lia|]. by apply Hlatest.
  - destruct (PInv_write _ wr snap ver l1 l2 HI Hp Hwr) as [HI' Hle].
    split; [done|]. split; [done|]. by apply Hlatest.
Qed.

End props.

(** *** Witnesses over the log table *)

Definition allowA (h : string) : bool := String.eqb h "a.com".

Definition w0 : World (T := T) (S := T) := initWorld "/state" 100 8.

(** A purge of a.com is issued at 100, then fetched and delivered at 105. *)
Definition w1 : World (T := T) (S := T) :=
  mkWorld 100 8 [(mkPurge "host" "a.com" "" "", 100%Z)]
    (snd (Add "host" "a.com" "" "" (NewPurgeStore 8))) (w_edge w0) None.

Lemma w1_reachable : star (step allowA "/state") w0 w1.
Proof.
  eapply star_step; [apply (st_issue _ _ _ "host" "a.com" "" ""); reflexivity|]. apply star_refl.
Qed.

Definition w2 : World (T := T) (S := T) :=
  mkWorld 100 8 (w_hist w1) (w_store w1)
    (RefreshPurgeOnce WriteOk 100 (FetchOk (Since 0 allowA (w_store w1))) (w_edge w1)) None.

Lemma w2_reachable : star (step allowA "/state") w0 w2.
Proof.
  eapply star_trans; [exact w1_reachable|]. eapply star_step; [apply st_fetch|].
  eapply star_step; [by apply st_deliver with (wr := WriteOk)|]. apply star_refl.
Qed.

Lemma no_under_invalidation_witness :
  (100 <= epoch (tbl (w_edge w2)) (mkObj "a.com" "/x" []))%Z.
Proof.
  apply (no_under_invalidation (T := T) (S := T) (Obj := Obj) (PurgeTableLaws0 := laws) allowA "/state" 100 8 w2 0
           (mkPurge "host" "a.com" "" "") 100 (mkObj "a.com" "/x" []));
    [exact w2_reachable|reflexivity|reflexivity|reflexivity|reflexivity].
Defined.

Lemma poll_catches_up_witness :
  cursor (w_edge w2) = lastSeq (w_store w1) /\ lastSeq (w_store w1) = 1%Z /\
  forall i p ts o, w_hist w1 !! i = Some (p, ts) -> visible allowA p = true -> covers p o ->
    (ts <= epoch (tbl (w_edge w2)) o)%Z.
Proof. exact (poll_catches_up (T := T) (S := T) (PurgeTableLaws0 := laws) allowA "/state" 100 8 w1 WriteOk w1_reachable). Defined.

Lemma redelivery_is_noop_witness :
  let es := [mkRec 1 (mkPurge "host" "a.com" "" "")] in
  let t1 := snd (applyLocked 100 es 1 (w_edge w0)) in
  applyLocked 200 es 1 t1 = (None, mkTbl (tbl t1) (cursor t1) (dirtyVer t1)
                                     (persistedVer t1) (path t1) (file t1)).
Proof.
  apply (redelivery_is_noop 100 200 [mkRec 1 (mkPurge "host" "a.com" "" "")] 1 (w_edge w0)).
  repeat constructor. simpl. lia.
Defined.

Lemma persistence_ordered_witness :
  let t := w_edge w0 in
  let r := flushLocked 100 5 t in
  let w' := mkPW (snd r) ([] ++ option_list (fst r)) ([] ++ option_list (fst <$> fst r)) in
  PInv w' /\ (0 <= persistedVer (pw_tbl w'))%Z /\
  ((0 < persistedVer (pw_tbl w'))%Z -> persistedVer (pw_tbl w') = dirtyVer (pw_tbl w') ->
   file (pw_tbl w') = Some (snapshot_now (pw_tbl w'))).
Proof.
  apply (persistence_ordered (mkPW (w_edge w0) [] [])).
  - constructor; simpl; done.
  - reflexivity.
  - eapply ps_flush. reflexivity.
Defined.

(** A restarted journal that has outgrown an edge's cursor is not detected.
    The edge has applied seq 1; the control plane restarts with an empty journal
    and accepts two purges before the next poll.  The poll is not told to flush,
    the cursor moves to the end of the new journal, and the first new purge
    (visible to the edge, covering a cached object) never takes effect. *)
Theorem restarted_journal_skips_purge :
  let e := w_edge w2 in
  let s := snd (Adds [("host", "a.com", "", ""); ("url", "a.com", "/y", "")] (NewPurgeStore 8)) in
  let o := mkObj "a.com" "/x" [] in
  let e' := RefreshPurgeOnce WriteOk 900 (FetchOk (Since (cursor e) allowA s)) e in
  (exists p, canonPurge "host" "a.com" "" "" = Some p /\ visible allowA p = true /\ covers p o) /\
  FlushRequired (Since (cursor e) allowA s) = false /\
  cursor e' = lastSeq s /\
  epoch (tbl e') o = epoch (tbl e) o /\ (epoch (tbl e') o < 900)%Z.
Proof.
  cbv zeta. split; [|vm_compute; repeat split].
  exists (mkPurge "host" "a.com" "" ""). repeat split.
Qed.

End PurgeProps.
