(* ===== verification/Converge.v ===== *)
(** * The edge-CA rotation interlock

    Models [src/edgecp/converge/predicate.go]: [Evaluate], the pure predicate
    over a metric snapshot that decides whether the old CA may be dropped.
    A [float64] field is a [spec_float] compared with IEEE comparisons; a Go map
    used as a set of floats keeps Go's key semantics (a NaN never equals a key).
    [now] is not read by the code and is left out. *)

From Stdlib Require Import SpecFloat.
From S2P Require Import Prelude GoString.

(** ** Data *)

Record Blocker := mkBlocker {
  Plane : string;
  Reporter : string;
  Reason : string;
}.

Definition ReasonCPTargetSplit := "cp-target-split".
Definition ReasonGenerationSplit := "generation-split".
Definition ReasonExpectedSetEmpty := "expected-set-empty".
Definition ReasonNoTarget := "no-target".
Definition ReasonCountMismatch := "count-mismatch".
Definition ReasonUpDown := "up-down".
Definition ReasonNeverScraped := "never-scraped".
Definition ReasonWrongCAID := "wrong-ca_id".
Definition ReasonNotOverlap := "not-overlap".
Definition ReasonTargetNotObserved := "target-not-observed".
Definition ReasonRefreshStale := "refresh-stale".
Definition ReasonRemintChurn := "remint-churn".
Definition ReasonLiveOldLeaf := "live-old-leaf".
Definition ReasonAuthzSplit := "authz-split".
Definition ReasonEdgeCountBelowFloor := "edge-count-below-floor".
Definition ReasonRevokedUnverified := "revoked-unverified".
Definition ReasonRevokedLeafPresent := "revoked-leaf-present".
Definition ReasonTargetMismatch := "target-mismatch".
Definition ReasonAuthzPinUnset := "authz-pin-unset".
Definition ReasonCPSignerSplit := "cp-signer-split".
Definition ReasonCPNotNewSigner := "cp-not-new-signer".
Definition ReasonAuthzNotConverged := "authz-not-converged".
Definition ReasonRevokedIssuedUnderNew := "revoked-issued-under-new".
Definition ReasonEdgeSignerUnresolved := "edge-signer-unresolved".
Definition ReasonEdgeOldSigner := "edge-old-signer".
Definition ReasonEdgeSignerNotObserved := "edge-signer-not-observed".
Definition ReasonLiveOldSigner := "live-old-signer".

Record ExcludedEdge := mkExcluded {
  ex_EdgeID : string;
  ex_Reason : string;
}.

Record Config := mkConfig {
  ExpectedCP : Z;
  ExpectedCore : Z;
  MinEdges : Z;
  Exclude : list ExcludedEdge;
  ExpectedTargetCAID : string;
  ExpectedActiveSignerFP : string;
  ExpectedAuthzGen : spec_float;
  RevokedEdgeID : string;
}.

Record CPReplica := mkCP {
  cp_Instance : string;
  cp_Up : bool;
  TargetCAID : string;
  SignerCAID : string;
  SignerGen : Z;
  BundleCerts : Z;
  AuthzGen : spec_float;
  ActiveSignerFP : string;
  RevokedIssuedUnderNew : spec_float;
}.

Record CoreReplica := mkCore {
  core_Instance : string;
  core_Up : bool;
  HeldCAID : string;
}.

Record EdgeReporter := mkEdge {
  EdgeID : string;
  edge_Up : bool;
  LiveCAID : string;
  ObservedTarget : string;
  RefreshedInWindow : bool;
  FailedRemints : bool;
  LiveSignerFP : string;
  ObservedSignerFP : string;
}.

Record Observations := mkObs {
  CP : list CPReplica;
  Core : list CoreReplica;
  Edges : list EdgeReporter;
  ExpectedEdges : list string;
  RevokedProbeRan : bool;
  RevokedProbeStatus : Z;
}.

Record Result := mkResult {
  Converged : bool;
  Target : string;
  Blockers : list Blocker;
  Excluded : list ExcludedEdge;
}.

(** ** Evaluate *)

Definition finalize (target : string) (bs : list Blocker) (cfg : Config) : Result :=
  mkResult (match bs with [] => true | _ => false end) target bs (Exclude cfg).

Definition excluded (cfg : Config) (id : string) : bool :=
  existsb (fun ex => String.eqb (ex_EdgeID ex) id) (Exclude cfg).

Definition fpPinned (cfg : Config) : bool := negb (String.eqb (ExpectedActiveSignerFP cfg) "").

(** [x == 0] for a float. *)
Definition fl_is_zero (x : spec_float) : bool := SFeqb x (S754_zero false).
Definition fl_positive (x : spec_float) : bool := SFltb (S754_zero false) x.

(** The configuration guards before anything is scored. *)
Definition configBlockers (cfg : Config) : list Blocker :=
  flat_map (fun ex => if String.eqb (ex_Reason ex) ""
                      then [mkBlocker "config" (ex_EdgeID ex) "exclude-without-reason"] else [])
    (Exclude cfg)
  ++ (if (ExpectedCP cfg <=? 0)%Z || (ExpectedCore cfg <=? 0)%Z || (MinEdges cfg <=? 0)%Z
      then [mkBlocker "config" "" "expected-counts-unset"] else [])
  ++ (if fpPinned cfg && fl_is_zero (ExpectedAuthzGen cfg)
      then [mkBlocker "config" "" ReasonAuthzPinUnset] else []).

Definition nothingObserved (obs : Observations) : bool :=
  match CP obs, Core obs, Edges obs, ExpectedEdges obs with
  | [], [], [], [] => true
  | _, _, _, _ => false
  end.

(** The distinct targets the live replicas advertise. *)
Fixpoint targets (cps : list CPReplica) : gset string :=
  match cps with
  | [] => ∅
  | cp :: cps =>
      if cp_Up cp && negb (String.eqb (TargetCAID cp) "")
      then {[TargetCAID cp]} ∪ targets cps else targets cps
  end.

(** Phase (2): one replica of the control plane.  The loop state is what the
    code keeps across iterations. *)
Record cpState := mkCpState {
  cs_blockers : list Blocker;
  cpAtT : Z;
  gens : gset Z;
  authz : list spec_float;
  signerFPs : gset string;
}.

Definition fl_insert (x : spec_float) (l : list spec_float) : list spec_float :=
  if existsb (SFeqb x) l then l else l ++ [x].

Definition cpStep (cfg : Config) (T : string) (st : cpState) (cp : CPReplica) : cpState :=
  let block r st := mkCpState (cs_blockers st ++ [mkBlocker "cp" (cp_Instance cp) r])
                      (cpAtT st) (gens st) (authz st) (signerFPs st) in
  if negb (cp_Up cp) then block ReasonUpDown st
  else if negb (String.eqb (SignerCAID cp) T) then block ReasonWrongCAID st
  else
    let st := if (BundleCerts cp =? 2)%Z then st else block ReasonNotOverlap st in
    let st := mkCpState (cs_blockers st) (cpAtT st + 1) ({[SignerGen cp]} ∪ gens st)
                (fl_insert (AuthzGen cp) (authz st)) (signerFPs st) in
    if fpPinned cfg then
      let st := mkCpState (cs_blockers st) (cpAtT st) (gens st) (authz st)
                  ({[ActiveSignerFP cp]} ∪ signerFPs st) in
      let st := if String.eqb (ActiveSignerFP cp) (ExpectedActiveSignerFP cfg) then st
                else block ReasonCPNotNewSigner st in
      let st := if SFeqb (AuthzGen cp) (ExpectedAuthzGen cfg) then st
                else block ReasonAuthzNotConverged st in
      if negb (String.eqb (RevokedEdgeID cfg) "") && fl_positive (RevokedIssuedUnderNew cp)
      then block ReasonRevokedIssuedUnderNew st else st
    else st.

Definition cpPlane (cfg : Config) (T : string) (obs : Observations) : list Blocker :=
  let st := fold_left (cpStep cfg T) (CP obs) (mkCpState [] 0 ∅ [] ∅) in
  cs_blockers st
  ++ (if (1 <? size (gens st))%nat then [mkBlocker "cp" "" ReasonGenerationSplit] else [])
  ++ (if (1 <? length (authz st))%nat then [mkBlocker "cp" "" ReasonAuthzSplit] else [])
  ++ (if fpPinned cfg && (1 <? size (signerFPs st))%nat
      then [mkBlocker "cp" "" ReasonCPSignerSplit] else [])
  ++ (if (cpAtT st =? ExpectedCP cfg)%Z then [] else [mkBlocker "cp" "" ReasonCountMismatch]).

(** Phase (3): the cores. *)
Definition coreStep (T : string) (st : list Blocker * Z) (c : CoreReplica) : list Blocker * Z :=
  let '(bs, n) := st in
  if negb (core_Up c) then (bs ++ [mkBlocker "core" (core_Instance c) ReasonUpDown], n)
  else if negb (String.eqb (HeldCAID c) T)
  then (bs ++ [mkBlocker "core" (core_Instance c) ReasonWrongCAID], n)
  else (bs, (n + 1)%Z).

Definition corePlane (cfg : Config) (T : string) (obs : Observations) : list Blocker :=
  let '(bs, coreAtT) := fold_left (coreStep T) (Core obs) ([], 0%Z) in
  bs ++ (if (coreAtT =? ExpectedCore cfg)%Z then [] else [mkBlocker "core" "" ReasonCountMismatch]).

(** Phase (4): the expected edges.  [byID] keeps the last reporter of an id. *)
Definition byID (obs : Observations) : gmap string EdgeReporter :=
  fold_left (fun m e => <[EdgeID e := e]> m) (Edges obs) ∅.

Definition expectedEdge (cfg : Config) (T : string) (e : EdgeReporter) : option string :=
  let pinned := fpPinned cfg in
  if negb (edge_Up e) then Some ReasonUpDown
  else if negb (String.eqb (LiveCAID e) T) then Some ReasonWrongCAID
  else if negb (String.eqb (ObservedTarget e) T) then Some ReasonTargetNotObserved
  else if negb (RefreshedInWindow e) then Some ReasonRefreshStale
  else if FailedRemints e then Some ReasonRemintChurn
  else if pinned && String.eqb (LiveSignerFP e) "" then Some ReasonEdgeSignerUnresolved
  else if pinned && negb (String.eqb (LiveSignerFP e) (ExpectedActiveSignerFP cfg))
  then Some ReasonEdgeOldSigner
  else if pinned && negb (String.eqb (ObservedSignerFP e) (ExpectedActiveSignerFP cfg))
  then Some ReasonEdgeSignerNotObserved
  else None.

Definition expectedEdges (cfg : Config) (T : string) (obs : Observations) : list Blocker :=
  flat_map (fun id =>
    if excluded cfg id then []
    else match byID obs !! id with
         | None => [mkBlocker "edge" id ReasonNeverScraped]
         | Some e => match expectedEdge cfg T e with
                     | Some r => [mkBlocker "edge" id r]
                     | None => []
                     end
         end) (ExpectedEdges obs).

Definition edgePlane (cfg : Config) (T : string) (obs : Observations) : list Blocker :=
  (if (Z.of_nat (length (ExpectedEdges obs)) <? MinEdges cfg)%Z
   then [mkBlocker "edge" "" ReasonEdgeCountBelowFloor] else [])
  ++ expectedEdges cfg T obs.

(** Phase (5): the vetoes of any edge still live on old material. *)
Definition liveVeto (cfg : Config) (T : string) (e : EdgeReporter) : list Blocker :=
  if excluded cfg (EdgeID e)
     || (negb (String.eqb (RevokedEdgeID cfg) "") && String.eqb (EdgeID e) (RevokedEdgeID cfg))
  then []
  else
    (if edge_Up e && negb (String.eqb (LiveCAID e) "") && negb (String.eqb (LiveCAID e) T)
     then [mkBlocker "edge" (EdgeID e) ReasonLiveOldLeaf] else [])
    ++ (if fpPinned cfg && edge_Up e && negb (String.eqb (LiveSignerFP e) "")
           && negb (String.eqb (LiveSignerFP e) (ExpectedActiveSignerFP cfg))
        then [mkBlocker "edge" (EdgeID e) ReasonLiveOldSigner] else []).

(** Phase (6): the revoked-token probe. *)
Definition revokedProbe (obs : Observations) : list Blocker :=
  if negb (RevokedProbeRan obs) then [mkBlocker "revoked" "" ReasonRevokedUnverified]
  else if negb (RevokedProbeStatus obs =? 401)%Z && negb (RevokedProbeStatus obs =? 403)%Z
  then [mkBlocker "revoked" "" ReasonRevokedLeafPresent] else [].

Definition Evaluate (obs : Observations) (cfg : Config) : Result :=
  let bs := configBlockers cfg in
  if nothingObserved obs
  then finalize "" (bs ++ [mkBlocker "config" "" ReasonExpectedSetEmpty]) cfg
  else
    match elements (targets (CP obs)) with
    | [] => finalize "" (bs ++ [mkBlocker "cp" "" ReasonNoTarget]) cfg
    | [T] =>
        if negb (String.eqb (ExpectedTargetCAID cfg) "")
           && negb (String.eqb T (ExpectedTargetCAID cfg))
        then finalize T (bs ++ [mkBlocker "cp" "" ReasonTargetMismatch]) cfg
        else finalize T
          (bs ++ cpPlane cfg T obs ++ corePlane cfg T obs ++ edgePlane cfg T obs
           ++ flat_map (liveVeto cfg T) (Edges obs) ++ revokedProbe obs) cfg
    | _ => finalize "" (bs ++ [mkBlocker "cp" "" ReasonCPTargetSplit]) cfg
    end.

(** ** The declarative reading of convergence *)

(** A replica of the control plane that does not block. *)
Definition cpReady (cfg : Config) (T : string) (cp : CPReplica) : Prop :=
  cp_Up cp = true /\ SignerCAID cp = T /\ BundleCerts cp = 2%Z /\
  (ExpectedActiveSignerFP cfg <> "" ->
     ActiveSignerFP cp = ExpectedActiveSignerFP cfg /\
     SFeqb (AuthzGen cp) (ExpectedAuthzGen cfg) = true /\
     (RevokedEdgeID cfg <> "" -> fl_positive (RevokedIssuedUnderNew cp) = false)).

Definition coreReady (T : string) (c : CoreReplica) : Prop :=
  core_Up c = true /\ HeldCAID c = T.

Definition edgeReady (cfg : Config) (T : string) (e : EdgeReporter) : Prop :=
  edge_Up e = true /\ LiveCAID e = T /\ ObservedTarget e = T /\
  RefreshedInWindow e = true /\ FailedRemints e = false /\
  (ExpectedActiveSignerFP cfg <> "" ->
     LiveSignerFP e = ExpectedActiveSignerFP cfg /\
     ObservedSignerFP e = ExpectedActiveSignerFP cfg).

(** An observed edge that is not living on old trust material. *)
Definition notOnOld (cfg : Config) (T : string) (e : EdgeReporter) : Prop :=
  excluded cfg (EdgeID e) = true \/
  (RevokedEdgeID cfg <> "" /\ EdgeID e = RevokedEdgeID cfg) \/
  ((edge_Up e = true -> LiveCAID e = "" \/ LiveCAID e = T) /\
   (ExpectedActiveSignerFP cfg <> "" -> edge_Up e = true ->
      LiveSignerFP e = "" \/ LiveSignerFP e = ExpectedActiveSignerFP cfg)).

(** The authorisation generations agree with the first one reported. *)
Definition authzAgree (cps : list CPReplica) : Prop :=
  match cps with
  | [] => True
  | cp :: cps => Forall (fun c => SFeqb (AuthzGen c) (AuthzGen cp) = true) cps
  end.

Definition gensAgree (cps : list CPReplica) : Prop :=
  forall c1 c2, c1 ∈ cps -> c2 ∈ cps -> SignerGen c1 = SignerGen c2.

Record ready (obs : Observations) (cfg : Config) (T : string) : Prop := {
  rd_excludes : forall ex, ex ∈ Exclude cfg -> ex_Reason ex <> "";
  rd_counts : (0 < ExpectedCP cfg /\ 0 < ExpectedCore cfg /\ 0 < MinEdges cfg)%Z;
  rd_authz_pin : ExpectedActiveSignerFP cfg <> "" -> fl_is_zero (ExpectedAuthzGen cfg) = false;
  rd_pin : ExpectedTargetCAID cfg = "" \/ ExpectedTargetCAID cfg = T;
  rd_target : targets (CP obs) = {[T]};
  rd_cp : Forall (cpReady cfg T) (CP obs);
  rd_cp_count : Z.of_nat (length (CP obs)) = ExpectedCP cfg;
  rd_gens : gensAgree (CP obs);
  rd_authz : authzAgree (CP obs);
  rd_core : Forall (coreReady T) (Core obs);
  rd_core_count : Z.of_nat (length (Core obs)) = ExpectedCore cfg;
  rd_floor : (MinEdges cfg <= Z.of_nat (length (ExpectedEdges obs)))%Z;
  rd_expected : forall id, id ∈ ExpectedEdges obs -> excluded cfg id = false ->
    exists e, byID obs !! id = Some e /\ edgeReady cfg T e;
  rd_live : Forall (notOnOld cfg T) (Edges obs);
  rd_revoked : RevokedProbeRan obs = true /\
    (RevokedProbeStatus obs = 401 \/ RevokedProbeStatus obs = 403)%Z;
}.

(** ** Lemmas *)

Lemma fpPinned_true cfg : fpPinned cfg = true <-> ExpectedActiveSignerFP cfg <> "".
Proof. unfold fpPinned. by rewrite negb_true_iff, String.eqb_neq. Qed.

Lemma fpPinned_false cfg : fpPinned cfg = false <-> ExpectedActiveSignerFP cfg = "".
Proof. unfold fpPinned. by rewrite negb_false_iff, String.eqb_eq. Qed.

Lemma flat_map_nil {A B} (f : A -> list B) l :
  flat_map f l = [] <-> Forall (fun x => f x = []) l.
Proof.
  induction l as [|x l IH]; simpl; [by split|].
  rewrite app_eq_nil_iff, IH, Forall_cons. done.
Qed.

Lemma if_nil_true {A} (b : bool) (x : A) : (if b then [] else [x]) = [] <-> b = true.
Proof. by destruct b. Qed.

Lemma size_le_1 `{Countable A} (X : gset A) :
  (1 <? size X)%nat = false <-> forall x y, x ∈ X -> y ∈ X -> x = y.
Proof.
  rewrite Nat.ltb_ge. split.
  - intros Hs x y Hx Hy. destruct (decide (size X = 1)) as [H1|H1].
    + by apply (size_singleton_inv X).
    + assert (size X = 0) as H0 by lia. apply size_empty_inv in H0. set_solver.
  - intros Hall. destruct (set_choose_or_empty X) as [[x Hx]|He].
    + assert (X ≡ {[x]}) as -> by set_solver. by rewrite size_singleton.
    + rewrite He, size_empty. lia.
Qed.

Lemma elements_singleton_inv (X : gset string) T : elements X = [T] <-> X = {[T]}.
Proof.
  split; [|intros ->; apply elements_singleton].
  intros Helt. apply set_eq. intros x. rewrite <- elem_of_elements, Helt, list_elem_of_singleton, elem_of_singleton. done.
Qed.

Lemma configBlockers_nil cfg :
  configBlockers cfg = [] <->
  (forall ex, ex ∈ Exclude cfg -> ex_Reason ex <> "") /\
  (0 < ExpectedCP cfg /\ 0 < ExpectedCore cfg /\ 0 < MinEdges cfg)%Z /\
  (ExpectedActiveSignerFP cfg <> "" -> fl_is_zero (ExpectedAuthzGen cfg) = false).
Proof.
  unfold configBlockers.
  rewrite !app_eq_nil_iff, flat_map_nil, !list_if_nil, Forall_forall.
  assert (H1 : (forall ex, ex ∈ Exclude cfg ->
      (if String.eqb (ex_Reason ex) "" then [mkBlocker "config" (ex_EdgeID ex) "exclude-without-reason"]
       else []) = []) <-> (forall ex, ex ∈ Exclude cfg -> ex_Reason ex <> "")).
  { split; intros Hall ex Hin; specialize (Hall ex Hin);
      rewrite list_if_nil, String.eqb_neq in *; done. }
  rewrite H1, !orb_false_iff, !Z.leb_gt, andb_false_iff, fpPinned_false.
  split.
  - intros (Hex & [[? ?] ?] & Hz). split; [done|]. split; [lia|].
    intros Hp. by destruct Hz.
  - intros (Hex & (? & ? & ?) & Hz). split; [done|]. split; [by repeat split|].
    destruct (decide (ExpectedActiveSignerFP cfg = "")); auto.
Qed.

(** *** The control-plane loop *)

Lemma cpStep_ready cfg T st cp :
  cpReady cfg T cp ->
  cpStep cfg T st cp =
    mkCpState (cs_blockers st) (cpAtT st + 1) ({[SignerGen cp]} ∪ gens st)
      (fl_insert (AuthzGen cp) (authz st))
      (if fpPinned cfg then {[ActiveSignerFP cp]} ∪ signerFPs st else signerFPs st).
Proof.
  intros (Hup & Hs & Hb & Hpin). unfold cpStep.
  rewrite Hup, Hs, String.eqb_refl, Hb. simpl.
  destruct (fpPinned cfg) eqn:Hp; [|done].
  apply fpPinned_true in Hp. destruct (Hpin Hp) as (-> & -> & Hrev).
  rewrite String.eqb_refl. simpl.
  destruct (String.eqb_spec (RevokedEdgeID cfg) ""); [done|]. by rewrite Hrev.
Qed.

Lemma cpStep_grows cfg T st cp :
  exists l, cs_blockers (cpStep cfg T st cp) = cs_blockers st ++ l.
Proof.
  unfold cpStep. repeat (case_match; simpl);
    rewrite <- ?app_assoc; eauto; exists []; by rewrite app_nil_r.
Qed.

Lemma cpStep_blocks cfg T st cp :
  cs_blockers (cpStep cfg T st cp) = [] -> cpReady cfg T cp.
Proof.
  unfold cpStep, cpReady.
  destruct (cp_Up cp); simpl; [|by intros []%app_nil].
  destruct (String.eqb_spec (SignerCAID cp) T) as [HT|]; simpl; [|by intros []%app_nil].
  destruct (fpPinned cfg) eqn:Hp; simpl; revgoals.
  { apply fpPinned_false in Hp. destruct (Z.eqb_spec (BundleCerts cp) 2); simpl.
    - intros _. done.
    - by intros []%app_nil. }
  intros Hnil.
  destruct (Z.eqb_spec (BundleCerts cp) 2); simpl in *; revgoals.
  { exfalso. revert Hnil. repeat (case_match; simpl); intros E;
      repeat (apply app_nil in E as [E ?]); by simplify_eq/=. }
  destruct (String.eqb_spec (ActiveSignerFP cp) (ExpectedActiveSignerFP cfg)); simpl in *; revgoals.
  { exfalso. revert Hnil. repeat (case_match; simpl); intros E;
      repeat (apply app_nil in E as [E ?]); by simplify_eq/=. }
  destruct (SFeqb (AuthzGen cp) (ExpectedAuthzGen cfg)); simpl in *; revgoals.
  { exfalso. revert Hnil. repeat (case_match; simpl); intros E;
      repeat (apply app_nil in E as [E ?]); by simplify_eq/=. }
  split; [done|]. split; [done|]. split; [done|]. intros _. split; [done|]. split; [done|].
  intros Hr. apply String.eqb_neq in Hr. rewrite Hr in Hnil. simpl in Hnil.
  destruct (fl_positive _); [|done]. simpl in Hnil. by apply app_nil in Hnil as [].
Qed.

Lemma cpLoop_grows cfg T cps st :
  exists l, cs_blockers (fold_left (cpStep cfg T) cps st) = cs_blockers st ++ l.
Proof.
  revert st. induction cps as [|cp cps IH]; intros st; simpl.
  { exists []. by rewrite app_nil_r. }
  destruct (IH (cpStep cfg T st cp)) as [l Hl].
  destruct (cpStep_grows cfg T st cp) as [l' Hl'].
  rewrite Hl, Hl', <- app_assoc. eauto.
Qed.

Lemma cpLoop_nil cfg T cps st :
  cs_blockers (fold_left (cpStep cfg T) cps st) = [] ->
  cs_blockers st = [] /\ Forall (cpReady cfg T) cps.
Proof.
  revert st. induction cps as [|cp cps IH]; intros st Hnil; simpl in *; [done|].
  destruct (IH _ Hnil) as [Hst Hall]. pose proof (cpStep_blocks _ _ _ _ Hst).
  destruct (cpStep_grows cfg T st cp) as [l Hl]. rewrite Hl in Hst.
  apply app_nil in Hst as [? _]. auto.
Qed.

Lemma cpLoop_ready cfg T cps st :
  Forall (cpReady cfg T) cps ->
  fold_left (cpStep cfg T) cps st =
    mkCpState (cs_blockers st) (cpAtT st + Z.of_nat (length cps))
      (list_to_set (SignerGen <$> cps) ∪ gens st)
      (fold_left (fun l cp => fl_insert (AuthzGen cp) l) cps (authz st))
      (if fpPinned cfg then list_to_set (ActiveSignerFP <$> cps) ∪ signerFPs st
       else signerFPs st).
Proof.
  intros Hall. revert st. induction Hall as [|cp cps Hcp _ IH]; intros st; simpl.
  { destruct st, (fpPinned cfg); simpl; f_equal; try lia; set_solver. }
  rewrite IH, cpStep_ready by done. simpl.
  destruct (fpPinned cfg); f_equal; lia || set_solver.
Qed.

Lemma fl_insert_cons x y l : exists z, fl_insert x (y :: l) = y :: z.
Proof. unfold fl_insert. case_match; [by eexists|]. simpl. by eexists. Qed.

(** The generations kept are at most one exactly when all agree with the first. *)
Lemma authz_single cps :
  (1 <? length (fold_left (fun l cp => fl_insert (AuthzGen cp) l) cps []))%nat = false <->
  authzAgree cps.
Proof.
  destruct cps as [|cp cps]; simpl; [done|]. rewrite Nat.ltb_ge.
  change (fl_insert (AuthzGen cp) []) with [AuthzGen cp].
  set (x := AuthzGen cp).
  assert (Hlong : forall cps a b l,
    2 <= length (fold_left (fun l cp => fl_insert (AuthzGen cp) l) cps (a :: b :: l))).
  { clear. intros cps. induction cps as [|c cps IH]; intros a b l; simpl; [lia|].
    unfold fl_insert at 2. case_match; [apply IH|]. apply IH. }
  induction cps as [|c cps IH]; simpl.
  { split; [by constructor|lia]. }
  unfold fl_insert at 2. simpl. rewrite orb_false_r, Forall_cons.
  destruct (SFeqb (AuthzGen c) x).
  - rewrite IH. naive_solver.
  - simpl. pose proof (Hlong cps x (AuthzGen c) []). split; [lia|]. by intros [? _].
Qed.

Lemma cpPlane_nil cfg T obs :
  cpPlane cfg T obs = [] <->
  Forall (cpReady cfg T) (CP obs) /\ Z.of_nat (length (CP obs)) = ExpectedCP cfg /\
  gensAgree (CP obs) /\ authzAgree (CP obs).
Proof.
  unfold cpPlane. cbv zeta. split.
  - rewrite !app_eq_nil_iff, !list_if_nil, if_nil_true.
    intros (Hnil & Hg & Ha & _ & Hc). apply cpLoop_nil in Hnil as [_ Hall].
    rewrite cpLoop_ready in Hg, Ha, Hc by done. simpl in *.
    apply Z.eqb_eq in Hc. rewrite authz_single in Ha. rewrite size_le_1 in Hg.
    split; [done|]. split; [lia|]. split; [|done].
    intros c1 c2 H1 H2. apply Hg; apply elem_of_union_l, elem_of_list_to_set, list_elem_of_fmap_2; done.
  - intros (Hall & Hlen & Hg & Ha). rewrite cpLoop_ready by done. simpl.
    rewrite !app_eq_nil_iff, !list_if_nil, if_nil_true, size_le_1, authz_single, Z.eqb_eq.
    split; [|split; [done|split; [|lia]]].
    + intros x y. rewrite union_empty_r_L, !elem_of_list_to_set, !list_elem_of_fmap.
      intros (c1 & -> & H1) (c2 & -> & H2). auto.
    + destruct (fpPinned cfg) eqn:Hp; [simpl|done]. apply size_le_1.
      intros x y. rewrite union_empty_r_L, !elem_of_list_to_set, !list_elem_of_fmap.
      intros (c1 & -> & H1) (c2 & -> & H2). rewrite Forall_forall in Hall.
      apply fpPinned_true in Hp.
      destruct (Hall c1 H1) as (_ & _ & _ & P1). destruct (Hall c2 H2) as (_ & _ & _ & P2).
      destruct (P1 Hp) as [-> _]. by destruct (P2 Hp) as [-> _].
Qed.

(** *** The other planes *)

Lemma corePlane_nil cfg T obs :
  corePlane cfg T obs = [] <->
  Forall (coreReady T) (Core obs) /\ Z.of_nat (length (Core obs)) = ExpectedCore cfg.
Proof.
  unfold corePlane.
  assert (Hgrow : forall cs bs n, exists l, fst (fold_left (coreStep T) cs (bs, n)) = bs ++ l).
  { intros cs. induction cs as [|c cs IH]; intros bs n; simpl.
    - exists []. by rewrite app_nil_r.
    - repeat case_match; try apply IH; edestruct IH as [l ->]; rewrite <- app_assoc; eauto. }
  assert (Hnil : forall cs n, fst (fold_left (coreStep T) cs ([], n)) = [] ->
            Forall (coreReady T) cs).
  { intros cs. induction cs as [|c cs IH]; intros n; simpl; [by constructor|].
    unfold coreReady. destruct (core_Up c) eqn:Hu, (String.eqb_spec (HeldCAID c) T); simpl;
      try (intros Hn; edestruct Hgrow as [l Hl]; rewrite Hn in Hl; done).
    intros Hn. constructor; [done|]. by eapply IH. }
  assert (Hok : forall cs bs n, Forall (coreReady T) cs ->
            fold_left (coreStep T) cs (bs, n) = (bs, n + Z.of_nat (length cs))%Z).
  { intros cs bs n Hall. revert bs n. induction Hall as [|c cs [Hu Hh] _ IH]; intros bs n; simpl.
    - f_equal. lia.
    - rewrite Hu, Hh, String.eqb_refl. simpl. rewrite IH. f_equal. lia. }
  split.
  - destruct (fold_left (coreStep T) (Core obs) ([], 0%Z)) as [bs n] eqn:E.
    rewrite app_eq_nil_iff, if_nil_true, Z.eqb_eq. intros [-> Hn].
    assert (Hall : Forall (coreReady T) (Core obs)) by (eapply Hnil; by rewrite E).
    split; [done|]. rewrite Hok in E by done. simplify_eq. lia.
  - intros [Hall Hn]. rewrite Hok by done.
    rewrite app_eq_nil_iff, if_nil_true, Z.eqb_eq. split; [done|lia].
Qed.

(** Closes [Some r = None <-> conditions] when one of the conditions is refuted. *)
Ltac refute_iff := split; [done|intros ?; destruct_and?; done].

Lemma expectedEdge_none cfg T e : expectedEdge cfg T e = None <-> edgeReady cfg T e.
Proof.
  unfold expectedEdge, edgeReady.
  destruct (edge_Up e); simpl; [|refute_iff].
  destruct (String.eqb_spec (LiveCAID e) T); simpl; [|refute_iff].
  destruct (String.eqb_spec (ObservedTarget e) T); simpl; [|refute_iff].
  destruct (RefreshedInWindow e); simpl; [|refute_iff].
  destruct (FailedRemints e); simpl; [refute_iff|].
  destruct (fpPinned cfg) eqn:Hp; simpl.
  - apply fpPinned_true in Hp.
    assert (Hiff : (true = true /\ LiveCAID e = T /\ ObservedTarget e = T /\ true = true /\
       false = false /\ (ExpectedActiveSignerFP cfg <> "" ->
         LiveSignerFP e = ExpectedActiveSignerFP cfg /\
         ObservedSignerFP e = ExpectedActiveSignerFP cfg)) <->
       LiveSignerFP e = ExpectedActiveSignerFP cfg /\
       ObservedSignerFP e = ExpectedActiveSignerFP cfg) by tauto.
    rewrite Hiff. clear Hiff.
    destruct (String.eqb_spec (LiveSignerFP e) "").
    { split; [done|]. intros [? _]. congruence. }
    destruct (String.eqb_spec (LiveSignerFP e) (ExpectedActiveSignerFP cfg)); simpl; [|refute_iff].
    destruct (String.eqb_spec (ObservedSignerFP e) (ExpectedActiveSignerFP cfg)); simpl; [done|refute_iff].
  - apply fpPinned_false in Hp. split; [|done]. intros _. by repeat split.
Qed.

Lemma edgePlane_nil cfg T obs :
  edgePlane cfg T obs = [] <->
  (MinEdges cfg <= Z.of_nat (length (ExpectedEdges obs)))%Z /\
  (forall id, id ∈ ExpectedEdges obs -> excluded cfg id = false ->
    exists e, byID obs !! id = Some e /\ edgeReady cfg T e).
Proof.
  unfold edgePlane, expectedEdges.
  rewrite app_eq_nil_iff, list_if_nil, Z.ltb_ge, flat_map_nil, Forall_forall.
  assert (Hid : forall id,
    (if excluded cfg id then []
     else match byID obs !! id with
          | None => [mkBlocker "edge" id ReasonNeverScraped]
          | Some e => match expectedEdge cfg T e with
                      | Some r => [mkBlocker "edge" id r] | None => [] end
          end) = [] <->
    (excluded cfg id = false -> exists e, byID obs !! id = Some e /\ edgeReady cfg T e)).
  { intros id. destruct (excluded cfg id); [done|].
    destruct (byID obs !! id) as [e|]; [|naive_solver].
    pose proof (expectedEdge_none cfg T e) as Hn.
    destruct (expectedEdge cfg T e); split; try done.
    - intros Hx. destruct (Hx eq_refl) as (e' & [= <-] & Hr). apply Hn in Hr. done.
    - intros _ _. exists e. split; [done|]. by apply Hn. }
  setoid_rewrite Hid. done.
Qed.

Lemma liveVeto_nil cfg T e : liveVeto cfg T e = [] <-> notOnOld cfg T e.
Proof.
  unfold liveVeto, notOnOld.
  destruct (excluded cfg (EdgeID e)); simpl; [naive_solver|].
  destruct (String.eqb_spec (RevokedEdgeID cfg) "") as [Hr|Hr]; simpl;
    [|destruct (String.eqb_spec (EdgeID e) (RevokedEdgeID cfg)); simpl; [naive_solver|]].
  all: rewrite app_eq_nil_iff, !list_if_nil, !andb_false_iff, !negb_false_iff, !String.eqb_eq, fpPinned_false.
  all: destruct (edge_Up e), (decide (ExpectedActiveSignerFP cfg = "")); intuition congruence.
Qed.

Lemma revokedProbe_nil obs :
  revokedProbe obs = [] <->
  RevokedProbeRan obs = true /\ (RevokedProbeStatus obs = 401 \/ RevokedProbeStatus obs = 403)%Z.
Proof.
  unfold revokedProbe. destruct (RevokedProbeRan obs); simpl; [|naive_solver].
  destruct (Z.eqb_spec (RevokedProbeStatus obs) 401), (Z.eqb_spec (RevokedProbeStatus obs) 403);
    simpl; naive_solver.
Qed.

Lemma nothingObserved_targets obs T : targets (CP obs) = {[T]} -> nothingObserved obs = false.
Proof. unfold nothingObserved. destruct (CP obs); simpl; [set_solver|done]. Qed.

Lemma Forall_iff_list {A} (P Q : A -> Prop) l :
  (forall x, P x <-> Q x) -> Forall P l <-> Forall Q l.
Proof. intros Heq. by apply Forall_iff. Qed.

Lemma finalize_converged T bs cfg : Converged (finalize T bs cfg) = true <-> bs = [].
Proof. by destruct bs. Qed.

(** Every phase clears exactly when the declarative reading holds. *)
Lemma phases_nil obs cfg T :
  targets (CP obs) = {[T]} ->
  (ExpectedTargetCAID cfg = "" \/ ExpectedTargetCAID cfg = T) ->
  configBlockers cfg ++ cpPlane cfg T obs ++ corePlane cfg T obs ++ edgePlane cfg T obs
    ++ flat_map (liveVeto cfg T) (Edges obs) ++ revokedProbe obs = [] <-> ready obs cfg T.
Proof.
  intros Ht Hp.
  rewrite !app_eq_nil_iff, configBlockers_nil, cpPlane_nil, corePlane_nil, edgePlane_nil,
    flat_map_nil, revokedProbe_nil.
  rewrite (Forall_iff_list _ _ _ (liveVeto_nil cfg T)).
  split.
  - intros ((? & ? & ?) & (? & ? & ? & ?) & (? & ?) & (? & ?) & ? & ?). by constructor.
  - intros []. tauto.
Qed.

(** ** Properties *)

Lemma Evaluate_ready obs cfg :
  Converged (Evaluate obs cfg) = true <-> exists T, ready obs cfg T.
Proof.
  unfold Evaluate. cbv zeta. split.
  - destruct (nothingObserved obs); [rewrite finalize_converged; by intros []%app_nil|].
    destruct (elements (targets (CP obs))) as [|T [|]] eqn:Helt;
      [rewrite finalize_converged; by intros []%app_nil| |
       rewrite finalize_converged; by intros []%app_nil].
    apply elements_singleton_inv in Helt.
    destruct (String.eqb_spec (ExpectedTargetCAID cfg) ""); cbn [negb andb];
      [|destruct (String.eqb_spec T (ExpectedTargetCAID cfg)); cbn [negb andb];
        [|rewrite finalize_converged; by intros []%app_nil]].
    all: rewrite finalize_converged, phases_nil by auto; eauto.
  - intros [T Hr]. rewrite (nothingObserved_targets _ T) by apply Hr.
    rewrite (proj2 (elements_singleton_inv _ T)) by apply Hr.
    pose proof (rd_pin _ _ _ Hr) as Hpin.
    destruct (String.eqb_spec (ExpectedTargetCAID cfg) ""); cbn [negb andb].
    + rewrite finalize_converged, phases_nil; [done|apply Hr|by left].
    + destruct Hpin as [|Hpin]; [done|].
      rewrite Hpin, String.eqb_refl. cbn [negb andb].
      rewrite finalize_converged, phases_nil; [done|apply Hr|by right].
Qed.

Module ConvergeProps.

(** C16: the interlock is exact and fails closed.  [Evaluate] reports
    convergence if and only if there is one target on which every condition of
    [ready] holds: sane configuration, every expected control-plane replica and
    core present, up and on the target, generations in agreement, every
    expected non-excluded edge present, fresh and re-minted, no other edge live
    on old material, and the revoked token proved dead; with the signer pinned,
    additionally everything signed by the new CA. *)
Theorem Evaluate_iff obs cfg :
  Converged (Evaluate obs cfg) = true <-> exists T, ready obs cfg T.
Proof. apply Evaluate_ready. Qed.

(** Dropping the old CA is safe.  When the drop checkpoint (signer
    fingerprint pinned) converges, no edge that is neither waived nor the one
    being revoked is up with a leaf it reports as signed by another CA, every
    expected edge reports a leaf signed by the new CA, and no replica has minted
    anything for the revoked edge under the new CA. *)
Theorem drop_is_safe obs cfg :
  Converged (Evaluate obs cfg) = true -> ExpectedActiveSignerFP cfg <> "" ->
  (forall e, e ∈ Edges obs -> excluded cfg (EdgeID e) = false ->
     EdgeID e <> RevokedEdgeID cfg \/ RevokedEdgeID cfg = "" -> edge_Up e = true ->
     LiveSignerFP e = "" \/ LiveSignerFP e = ExpectedActiveSignerFP cfg) /\
  (forall id, id ∈ ExpectedEdges obs -> excluded cfg id = false ->
     exists e, byID obs !! id = Some e /\ edge_Up e = true /\
       LiveSignerFP e = ExpectedActiveSignerFP cfg) /\
  (forall cp, cp ∈ CP obs -> ActiveSignerFP cp = ExpectedActiveSignerFP cfg /\
     (RevokedEdgeID cfg <> "" -> fl_positive (RevokedIssuedUnderNew cp) = false)) /\
  Z.of_nat (length (CP obs)) = ExpectedCP cfg /\
  (0 < MinEdges cfg <= Z.of_nat (length (ExpectedEdges obs)))%Z.
Proof.
  intros Hc Hpin. apply Evaluate_ready in Hc as [T Hr].
  repeat split.
  - intros e Hin Hex Hrev Hup. pose proof (rd_live _ _ _ Hr) as Hl.
    rewrite Forall_forall in Hl. destruct (Hl e Hin) as [?|[[? ?]|[_ Hs]]]; [congruence|naive_solver|auto].
  - intros id Hin Hex. destruct (rd_expected _ _ _ Hr id Hin Hex) as (e & Hb & Hup & _ & _ & _ & _ & Hs).
    exists e. split; [done|]. split; [done|]. by apply Hs.
  - pose proof (rd_cp _ _ _ Hr) as Hl. rewrite Forall_forall in Hl.
    destruct (Hl cp H) as (_ & _ & _ & Hs). by apply Hs.
  - pose proof (rd_cp _ _ _ Hr) as Hl. rewrite Forall_forall in Hl.
    destruct (Hl cp H) as (_ & _ & _ & Hs). by apply Hs.
  - apply Hr.
  - apply Hr.
  - apply Hr.
Qed.

Definition okCfg : Config :=
  mkConfig 2 1 1 [] "T" "NEW" (S754_finite false 7 0) "revoked".

Definition okCP (i : string) : CPReplica :=
  mkCP i true "T" "T" 3 2 (S754_finite false 7 0) "NEW" (S754_zero false).

Definition okObs : Observations :=
  mkObs [okCP "cp-0"; okCP "cp-1"] [mkCore "core-0" true "T"]
    [mkEdge "e1" true "T" "T" true false "NEW" "NEW";
     mkEdge "revoked" true "T" "T" true false "OLD" ""]
    ["e1"] true 403.

Lemma drop_is_safe_witness :
  Converged (Evaluate okObs okCfg) = true /\
  (forall id, id ∈ ["e1"] -> exists e, byID okObs !! id = Some e /\ edge_Up e = true /\
       LiveSignerFP e = "NEW").
Proof.
  assert (Hc : Converged (Evaluate okObs okCfg) = true) by (vm_compute; reflexivity).
  split; [exact Hc|]. intros id Hin.
  exact (proj1 (proj2 (drop_is_safe okObs okCfg Hc ltac:(discriminate))) id Hin eq_refl).
Defined.

(** Silence blocks.  With positive expectations nothing converges while a
    whole plane is silent: no control-plane replica, no core, or fewer expected
    edges than the floor. *)
Theorem silent_plane_blocks obs cfg :
  CP obs = [] \/ Core obs = [] \/ (Z.of_nat (length (ExpectedEdges obs)) < MinEdges cfg)%Z \/
  RevokedProbeRan obs = false ->
  Converged (Evaluate obs cfg) = false /\ Blockers (Evaluate obs cfg) <> [].
Proof.
  intros Hs. destruct (Converged (Evaluate obs cfg)) eqn:Hc.
  - exfalso. apply Evaluate_ready in Hc as [T []].
    destruct Hs as [E|[E|[E|E]]]; rewrite ?E in *; simpl in *; [lia|lia|lia|naive_solver].
  - split; [done|]. revert Hc. unfold Evaluate.
    repeat case_match; unfold finalize; simpl; by case_match.
Qed.

Lemma silent_plane_blocks_witness :
  Converged (Evaluate (mkObs [] [mkCore "core-0" true "T"] [] ["e1"] true 403) okCfg) = false /\
  Blockers (Evaluate (mkObs [] [mkCore "core-0" true "T"] [] ["e1"] true 403) okCfg) <> [].
Proof. apply silent_plane_blocks. by left. Defined.

End ConvergeProps.
