(* ===== verification/Certs.v ===== *)
(** * Certificates: SNI tables, edge authorisation and on-demand fetching

    Models [src/cert/table.go] (the SNI table of the controller and the edge),
    [src/edgecp/certstore.go] (the control plane's index of the same material),
    [src/edgecp/authz.go] (the per-edge token registry) and the on-demand guards
    of [src/edge/certstore.go].  A certificate is its parsed leaf; what
    [crypto/x509] and [crypto/tls] compute from its bytes (the parsed leaf, the
    handshake's [SupportsCertificate]) is data of the records. *)

From S2P Require Import Prelude GoString.

Set Default Proof Using "Type".

(** ** Names *)

(** [cert.Table.Get] lower-cases, then trims one trailing dot. *)
Definition tableName (serverName : string) : string :=
  trim_suffix_char c_dot (to_lower serverName).

(** The other users trim first ([normalizeSNI], [CertStore.Get], [Allowed]). *)
Definition normalizeSNI (sni : string) : string :=
  to_lower (trim_suffix_char c_dot sni).

(** The leftmost label replaced by a star, when there is a dot. *)
Definition wildcardName (name : string) : option string :=
  (fun i => "*" +:+ str_drop i name) <$> index_byte c_dot name.

(** A pattern covers a name: equal, or the name's single-label wildcard. *)
Definition coversName (pat name : string) : bool :=
  String.eqb pat name ||
  match wildcardName name with Some w => String.eqb pat w | None => false end.

Lemma tableName_normalizeSNI s : tableName s = normalizeSNI s.
Proof. unfold tableName, normalizeSNI. by rewrite to_lower_trim_suffix_dot. Qed.

(** ** The SNI table *)

Module CertTable.

Record x509Leaf := mkLeaf { DNSNames : list string }.

(** [Leaf] may be cached already; [parsed] is what [x509.ParseCertificate]
    answers for the first block. *)
Record Certificate := mkCert {
  cert_id : Z;
  Leaf : option x509Leaf;
  parsed : option x509Leaf;
}.

Record ClientHelloInfo := mkHello {
  ServerName : string;
  SupportsCertificate : Certificate -> bool;
}.

Definition leafOf (c : Certificate) : option x509Leaf :=
  match Leaf c with Some l => Some l | None => parsed c end.

(** The loop body caches the parsed leaf in the certificate. *)
Definition cacheLeaf (c : Certificate) : Certificate :=
  mkCert (cert_id c) (leafOf c) (parsed c).

Definition addNames (c : Certificate) (names : list string)
    (m : gmap string (list Certificate)) : gmap string (list Certificate) :=
  fold_left (fun m san => <[san := default [] (m !! san) ++ [c]]> m) names m.

Definition buildStep (m : gmap string (list Certificate)) (c : Certificate) :
    gmap string (list Certificate) :=
  match leafOf c with
  | None => m
  | Some l => addNames (cacheLeaf c) (DNSNames l) m
  end.

Definition buildNameToCertificate (certs : list Certificate) : gmap string (list Certificate) :=
  fold_left buildStep certs ∅.

Definition findSupportCert (certs : list Certificate) (hello : ClientHelloInfo) :
    option Certificate :=
  List.find (SupportsCertificate hello) certs.

Definition Table : Type := gmap string (list Certificate).

Definition Set_ (certs : list Certificate) : Table := buildNameToCertificate certs.

Definition Get (t : Table) (hello : ClientHelloInfo) : option Certificate :=
  let name := tableName (ServerName hello) in
  let wild :=
    match wildcardName name with
    | Some w => match t !! w with
                | Some cs => findSupportCert cs hello
                | None => None
                end
    | None => None
    end in
  match t !! name with
  | Some cs => match findSupportCert cs hello with
               | Some c => Some c
               | None => wild
               end
  | None => wild
  end.

(** *** What the index holds *)

Definition sans (c : Certificate) : list string :=
  match leafOf c with Some l => DNSNames l | None => [] end.

Lemma addNames_find (f : Certificate -> bool) c names m n :
  List.find f (default [] (addNames c names m !! n)) =
    match List.find f (default [] (m !! n)) with
    | Some x => Some x
    | None => if bool_decide (n ∈ names) && f c then Some c else None
    end.
Proof.
  unfold addNames. revert m. induction names as [|s names IH]; intros m; simpl.
  { by case_match. }
  rewrite IH, lookup_insert. destruct (decide (s = n)) as [<-|Hs].
  - simpl. rewrite find_app. simpl.
    rewrite (bool_decide_eq_true_2 (s ∈ s :: names)) by set_solver.
    destruct (List.find f (default [] (m !! s))); [done|]. simpl.
    destruct (f c); [done|]. by rewrite andb_false_r.
  - destruct (List.find f (default [] (m !! n))); [done|].
    assert (bool_decide (n ∈ s :: names) = bool_decide (n ∈ names)) as ->; [|done].
    apply bool_decide_ext. set_solver.
Qed.

Lemma build_find (f : Certificate -> bool) certs m n :
  List.find f (default [] (fold_left buildStep certs m !! n)) =
    match List.find f (default [] (m !! n)) with
    | Some x => Some x
    | None => List.find (fun c => bool_decide (n ∈ sans c) && f c) (cacheLeaf <$> certs)
    end.
Proof.
  revert m. induction certs as [|c certs IH]; intros m; simpl.
  { by case_match. }
  rewrite IH. unfold buildStep, sans.
  change (leafOf (cacheLeaf c)) with (match leafOf c with Some l => Some l | None => parsed c end).
  destruct (leafOf c) as [l|] eqn:Hl.
  - rewrite addNames_find. destruct (List.find f (default [] (m !! n))); [done|].
    by destruct (bool_decide (n ∈ DNSNames l) && f (cacheLeaf c)).
  - assert (parsed c = None) as ->.
    { unfold leafOf in Hl. by destruct (Leaf c). }
    destruct (List.find f (default [] (m !! n))); [done|].
    by rewrite bool_decide_eq_false_2 by set_solver.
Qed.

End CertTable.

(** ** The control plane's certificate store *)

Module CPCerts.

Record PEMPair := mkPair { ChainPEM : string; KeyPEM : string }.

Record certEntry := mkEntry { ce_chainPEM : string; ce_keyPEM : string; ce_etag : string }.

Definition setNames (e : certEntry) (names : list string) (m : gmap string certEntry) :
    gmap string certEntry :=
  fold_left (fun m n => <[to_lower n := e]> m) names m.

Lemma setNames_lookup e names m n :
  setNames e names m !! n = if bool_decide (n ∈ to_lower <$> names) then Some e else m !! n.
Proof.
  unfold setNames. revert m. induction names as [|x names IH]; intros m.
  { rewrite bool_decide_eq_false_2 by set_solver. done. }
  cbn [fold_left]. rewrite IH. case_bool_decide as H1; case_bool_decide as H2; try done.
  - set_solver.
  - assert (n = to_lower x) as -> by set_solver. by rewrite lookup_insert_eq.
  - apply lookup_insert_ne. set_solver.
Qed.

Section store.
(** The SAN names of the first certificate of a chain, and the two hashes. *)
Context (sanDNSNames : string -> list string).
Context (etagOf : string -> string -> string) (etagOfString : string -> string).

Record CertStore := mkStore {
  byName : gmap string certEntry;
  loaded : bool;
  version : string;
}.

Definition NewCertStore : CertStore := mkStore ∅ false (etagOfString "").

Definition entryOf (p : PEMPair) : certEntry :=
  mkEntry (ChainPEM p) (KeyPEM p) (etagOf (ChainPEM p) (KeyPEM p)).

(** A pair without SAN names contributes nothing. *)
Definition setStep (m : gmap string certEntry) (p : PEMPair) : gmap string certEntry :=
  match sanDNSNames (ChainPEM p) with
  | [] => m
  | names => setNames (entryOf p) names m
  end.

Definition buildIndex (pairs : list PEMPair) : gmap string certEntry :=
  fold_left setStep pairs ∅.

Definition newline : string := String (ascii_of_nat 10) EmptyString.

Definition fingerprint (m : gmap string certEntry) : string :=
  let names := merge_sort str_le (map_to_list m).*1 in
  foldr (fun n acc => n +:+ "=" +:+ match m !! n with Some e => ce_etag e | None => "" end
                      +:+ newline +:+ acc) "" names.

Definition Set_ (pairs : list PEMPair) (s : CertStore) : CertStore :=
  let m := buildIndex pairs in
  mkStore m true (etagOfString (fingerprint m)).

Definition Get (sni : string) (s : CertStore) : option certEntry :=
  let name := normalizeSNI sni in
  if String.eqb name "" then None
  else match byName s !! name with
       | Some e => Some e
       | None => match wildcardName name with
                 | Some w => byName s !! w
                 | None => None
                 end
       end.

Definition lowerSANs (p : PEMPair) : list string := to_lower <$> sanDNSNames (ChainPEM p).

Lemma setStep_lookup m p n :
  setStep m p !! n = if bool_decide (n ∈ lowerSANs p) then Some (entryOf p) else m !! n.
Proof.
  unfold setStep, lowerSANs. destruct (sanDNSNames (ChainPEM p)).
  - rewrite bool_decide_eq_false_2; [done|apply not_elem_of_nil].
  - apply setNames_lookup.
Qed.

(** The last pair that names [n] owns it. *)
Definition owner (pairs : list PEMPair) (n : string) : option certEntry :=
  entryOf <$> List.find (fun p => bool_decide (n ∈ lowerSANs p)) (rev pairs).

Lemma buildIndex_lookup pairs n : buildIndex pairs !! n = owner pairs n.
Proof.
  unfold buildIndex, owner. induction pairs as [|p pairs IH] using rev_ind; [done|].
  rewrite fold_left_app, rev_app_distr. simpl. rewrite setStep_lookup, IH.
  by destruct (bool_decide (n ∈ lowerSANs p)).
Qed.

Lemma owner_is_Some pairs n :
  is_Some (owner pairs n) <-> Exists (fun p => n ∈ lowerSANs p) pairs.
Proof.
  unfold owner. rewrite fmap_is_Some, Exists_exists. split.
  - intros [p Hp]. apply List.find_some in Hp as [Hin Hn].
    exists p. split; [by apply list_elem_of_In, in_rev|]. by bool_props.
  - intros (p & Hin & Hn). destruct (List.find _ _) eqn:Hf; [by eauto|].
    eapply List.find_none in Hf; [|by apply (proj1 (in_rev pairs p)), list_elem_of_In].
    by bool_props.
Qed.

End store.
Arguments CertStore : clear implicits.
End CPCerts.

(** ** Authorisation of the edges *)

Module Authz.

Record Entry := mkEntry { ID : string; Domains : list string; Disabled : bool }.

Definition normalizeDomains (domains : list string) : list string :=
  (fun d => to_lower (trim_space d)) <$> domains.

(** [Authz.entries]. *)
Definition Authz : Type := gmap string Entry.

Definition normEntry (e : Entry) : Entry :=
  mkEntry (to_lower (trim_space (ID e))) (normalizeDomains (Domains e)) (Disabled e).

Definition NewAuthzEntries (entries : gmap string Entry) : Authz := normEntry <$> entries.

Definition NewAuthz (tokens : gmap string (list string)) : Authz :=
  NewAuthzEntries ((fun domains => mkEntry "" (normalizeDomains domains) false) <$> tokens).

Definition lookup_ (a : Authz) (token : string) : option Entry :=
  match a !! token with
  | None => None
  | Some e => if Disabled e then None else Some e
  end.

Definition Known (a : Authz) (token : string) : bool :=
  match lookup_ a token with Some _ => true | None => false end.

Definition Allowed (a : Authz) (token host : string) : bool :=
  match lookup_ a token with
  | None => false
  | Some e =>
      let name := normalizeSNI host in
      if String.eqb name "" then false
      else if existsb (fun d => String.eqb d "*" || String.eqb d name) (Domains e) then true
      else match wildcardName name with
           | Some wildcard => existsb (fun d => String.eqb d wildcard) (Domains e)
           | None => false
           end
  end.

Definition Identity (a : Authz) (token : string) : option string :=
  match lookup_ a token with
  | None => None
  | Some e => if String.eqb (ID e) "" then None else Some (ID e)
  end.

Lemma lookup_NewAuthzEntries entries token :
  lookup_ (NewAuthzEntries entries) token =
  match entries !! token with
  | Some e => if Disabled e then None else Some (normEntry e)
  | None => None
  end.
Proof.
  unfold lookup_, NewAuthzEntries, Authz.
  rewrite (lookup_fmap normEntry entries token). by destruct (entries !! token).
Qed.

Lemma lookup_inactive entries token :
  (forall e, entries !! token = Some e -> Disabled e = true) ->
  lookup_ (NewAuthzEntries entries) token = None.
Proof.
  intros H. rewrite lookup_NewAuthzEntries. destruct (entries !! token) as [e|]; [|done].
  by rewrite (H e).
Qed.

Lemma existsb_eqb (l : list string) x :
  existsb (fun d => String.eqb d x) l = true <-> x ∈ l.
Proof.
  rewrite existsb_exists. split.
  - intros (d & Hd & ?). bool_props. subst. by apply list_elem_of_In.
  - intros H. exists x. split; [by apply list_elem_of_In|]. apply String.eqb_refl.
Qed.

(** What a domain grant covers: the catch-all, the exact name, or the name's
    single-label wildcard. *)
Definition grants (d name : string) : bool := String.eqb d "*" || coversName d name.

Lemma Allowed_domains (e : Entry) name :
  (if existsb (fun d => String.eqb d "*" || String.eqb d name) (Domains e) then true
   else match wildcardName name with
        | Some wildcard => existsb (fun d => String.eqb d wildcard) (Domains e)
        | None => false
        end) = existsb (fun d => grants d name) (Domains e).
Proof.
  unfold grants, coversName. destruct (wildcardName name) as [w|].
  - induction (Domains e) as [|d l IH]; simpl; [done|].
    destruct (String.eqb d "*"), (String.eqb d name), (String.eqb d w); simpl in *;
      rewrite <- ?IH; try done; by destruct (existsb _ l).
  - induction (Domains e) as [|d l IH]; simpl; [done|].
    destruct (String.eqb d "*"), (String.eqb d name); simpl in *; done.
Qed.

End Authz.

(** ** The edge's certificate store *)

Module EdgeCerts.
Import CertTable.

Definition defaultOnDemandNegTTL : Z := (30 * second)%Z.
Definition defaultOnDemandMaxInFlight : nat := 32.
Definition maxNegCacheEntries : nat := 4096.

Record cachedCert := mkCached { cc_cert : Certificate; cc_etag : string }.

(** [sf_sem] is the number of semaphore slots taken and [sem] the capacity. *)
Record CertStore := mkStore {
  table : Table;
  cache : gmap string cachedCert;
  loaded : bool;
  sf_sem : nat;
  sem : nat;
  negTTL : Z;
  miss : gmap string Z;
}.

Definition NewCertStore : CertStore :=
  mkStore ∅ ∅ false 0 defaultOnDemandMaxInFlight defaultOnDemandNegTTL ∅.

Definition ConfigureOnDemand (ttl maxInFlight : Z) (s : CertStore) : CertStore :=
  let s := if (ttl >? 0)%Z
           then mkStore (table s) (cache s) (loaded s) (sf_sem s) (sem s) ttl (miss s) else s in
  if (maxInFlight >? 0)%Z
  then mkStore (table s) (cache s) (loaded s) 0 (Z.to_nat maxInFlight) (negTTL s) (miss s) else s.

Definition with_miss (m : gmap string Z) (s : CertStore) : CertStore :=
  mkStore (table s) (cache s) (loaded s) (sf_sem s) (sem s) (negTTL s) m.
Definition with_sem (n : nat) (s : CertStore) : CertStore :=
  mkStore (table s) (cache s) (loaded s) n (sem s) (negTTL s) (miss s).
Definition with_table (t : Table) (s : CertStore) : CertStore :=
  mkStore t (cache s) true (sf_sem s) (sem s) (negTTL s) (miss s).
Definition with_cache (c : gmap string cachedCert) (s : CertStore) : CertStore :=
  mkStore (table s) c (loaded s) (sf_sem s) (sem s) (negTTL s) (miss s).

(** Answers, and evicts an expired entry. *)
Definition suppressed (now : Z) (sni : string) (s : CertStore) : bool * CertStore :=
  match miss s !! sni with
  | None => (false, s)
  | Some until =>
      if (until <? now)%Z then (false, with_miss (delete sni (miss s)) s) else (true, s)
  end.

Definition sweepMiss (now : Z) (m : gmap string Z) : gmap string Z :=
  filter (fun kv => ~ (kv.2 < now)%Z) m.

Definition recordMiss (now now' : Z) (sni : string) (s : CertStore) : CertStore :=
  if (maxNegCacheEntries <=? size (miss s))%nat then
    let m := sweepMiss now (miss s) in
    if (maxNegCacheEntries <=? size m)%nat then with_miss m s
    else with_miss (<[sni := (now' + negTTL s)%Z]> m) s
  else with_miss (<[sni := (now' + negTTL s)%Z]> (miss s)) s.

Definition clearMiss (key : string) (s : CertStore) : CertStore :=
  with_miss (delete key (miss s)) s.

Definition cached (key : string) (s : CertStore) : bool :=
  match cache s !! key with Some _ => true | None => false end.

(** The certificates of the cache; the map's iteration order is unspecified,
    so the steps below accept any permutation of this list. *)
Definition cacheCerts (c : gmap string cachedCert) : list Certificate :=
  cc_cert <$> (map_to_list c).*2.

Definition Etag (key : string) (s : CertStore) : string :=
  match cache s !! key with Some c => cc_etag c | None => "" end.

Definition Keys (s : CertStore) : list string := (map_to_list (cache s)).*1.
Definition Len (s : CertStore) : nat := size (cache s).
Definition Loaded (s : CertStore) : bool := loaded s.

(** The answer of [CpClient.FetchCert]. *)
Inductive CertFetch : Type :=
| FetchErr
| Unchanged
| Material (ChainPEM KeyPEM etag : string).

Section ops.
(** [tls.X509KeyPair]: [None] is the error. *)
Context (X509KeyPair : string -> string -> option Certificate).

(** The two halves of [Update]: the cache under its lock, then the table, the
    flag and the negative cache. *)
Definition updateCache (key : string) (crt : Certificate) (etag : string) (s : CertStore) :
    CertStore :=
  with_cache (<[key := mkCached crt etag]> (cache s)) s.

Definition publish (key : string) (certs : list Certificate) (s : CertStore) : CertStore :=
  clearMiss key (with_table (CertTable.Set_ certs) s).

Definition Update (key chain kpem etag : string) (s : CertStore) : bool * CertStore :=
  match X509KeyPair chain kpem with
  | None => (false, s)
  | Some crt =>
      let s1 := updateCache key crt etag s in
      (true, publish key (cacheCerts (cache s1)) s1)
  end.

(** [FetchCert domain etag] is the control plane's answer to the request. *)
Definition RefreshCertOnce (FetchCert : string -> string -> CertFetch) (domain : string)
    (s : CertStore) : CertStore :=
  match FetchCert domain (Etag domain s) with
  | FetchErr => s
  | Unchanged => s
  | Material chain kpem etag => snd (Update domain chain kpem etag s)
  end.

Definition RefreshCertsAll (FetchCert : string -> string -> CertFetch) (domains : list string)
    (s : CertStore) : nat * CertStore :=
  let s' := fold_left (fun s d => RefreshCertOnce FetchCert d s) domains s in
  (Len s', s').

(** One sweep of [RunCertRefresh]: configured domains then cached ones, each once. *)
Fixpoint dedup (seen : gset string) (ds : list string) : list string :=
  match ds with
  | [] => []
  | d :: ds => if decide (d ∈ seen) then dedup seen ds else d :: dedup ({[ d ]} ∪ seen) ds
  end.

Definition refreshSweep (FetchCert : string -> string -> CertFetch) (domains : list string)
    (s : CertStore) : CertStore :=
  fold_left (fun s d => RefreshCertOnce FetchCert d s) (dedup ∅ (domains ++ Keys s)) s.

Inductive outcome := OSuppressed | OShed | OHit | OMiss.

(** The three guards around the fetch, run by the leader of the SNI. *)
Definition fetchOnDemand (now now1 now2 : Z) (onDemand : string -> CertStore -> CertStore)
    (sni : string) (s : CertStore) : outcome * CertStore :=
  match suppressed now sni s with
  | (true, s) => (OSuppressed, s)
  | (false, s) =>
      if (sem s <=? sf_sem s)%nat then (OShed, s)
      else
        let s := onDemand sni (with_sem (S (sf_sem s)) s) in
        let (o, s) := if cached sni s then (OHit, clearMiss sni s)
                      else (OMiss, recordMiss now1 now2 sni s) in
        (o, with_sem (pred (sf_sem s)) s)
  end.

(** [None] is [(nil, nil)]: the handshake falls back to the self-signed
    certificate.  [onDemand] is [None] in pinned mode. *)
Definition GetCertificate (now now1 now2 : Z)
    (onDemand : option (string -> CertStore -> CertStore)) (hello : ClientHelloInfo)
    (s : CertStore) : option Certificate * CertStore :=
  match CertTable.Get (table s) hello with
  | Some c => (Some c, s)
  | None =>
      match onDemand with
      | Some fetch =>
          if String.eqb (ServerName hello) "" then (None, s)
          else
            let sni := normalizeSNI (ServerName hello) in
            if String.eqb sni "" then (None, s)
            else
              let s' := snd (fetchOnDemand now now1 now2 fetch sni s) in
              (CertTable.Get (table s') hello, s')
      | None => (None, s)
      end
  end.

End ops.

(** *** Interleaved handshakes

    Many handshakes and the refresh loop run the operations above concurrently.
    A handshake passes the negative cache ([checked]), leads the single flight
    of its SNI ([leading], with a semaphore slot), and ends by looking the key
    up ([verdict]) and recording the outcome.  An update puts its certificate
    in the cache, keeping the snapshot of certificates it will publish, and
    publishes it in a later step. *)

Inductive phase := Fetching | Verdict (found : bool).

Record conc := mkConc {
  now : Z;
  store : CertStore;
  checked : list string;
  leading : gmap string phase;
  publishing : list (string * list Certificate);
}.

Inductive event :=
| Tick (d : Z)
| ECheck (sni : string)
| ELead (sni : string)
| EShed (sni : string)
| ELook (sni : string)
| EFinish (sni : string)
| ECache (key : string)
| EPublish (key : string).

Inductive cstep : event -> conc -> conc -> Prop :=
| st_tick d c : (0 <= d)%Z ->
    cstep (Tick d) c
      (mkConc (now c + d) (store c) (checked c) (leading c) (publishing c))
| st_check sni c b s' : suppressed (now c) sni (store c) = (b, s') ->
    cstep (ECheck sni) c
      (mkConc (now c) s' (if b then checked c else sni :: checked c) (leading c) (publishing c))
| st_lead sni c l1 l2 : checked c = l1 ++ sni :: l2 -> leading c !! sni = None ->
    sf_sem (store c) < sem (store c) ->
    cstep (ELead sni) c
      (mkConc (now c) (with_sem (S (sf_sem (store c))) (store c)) (l1 ++ l2)
         (<[sni := Fetching]> (leading c)) (publishing c))
| st_shed sni c l1 l2 : checked c = l1 ++ sni :: l2 ->
    cstep (EShed sni) c (mkConc (now c) (store c) (l1 ++ l2) (leading c) (publishing c))
| st_look sni c : leading c !! sni = Some Fetching ->
    cstep (ELook sni) c
      (mkConc (now c) (store c) (checked c)
         (<[sni := Verdict (cached sni (store c))]> (leading c)) (publishing c))
| st_finish sni c b : leading c !! sni = Some (Verdict b) ->
    cstep (EFinish sni) c
      (mkConc (now c)
         (let s := if b then clearMiss sni (store c)
                   else recordMiss (now c) (now c) sni (store c) in
          with_sem (pred (sf_sem s)) s)
         (checked c) (delete sni (leading c)) (publishing c))
| st_cache key crt etag c certs :
    certs ≡ₚ cacheCerts (cache (updateCache key crt etag (store c))) ->
    cstep (ECache key) c
      (mkConc (now c) (updateCache key crt etag (store c)) (checked c) (leading c)
         ((key, certs) :: publishing c))
| st_publish key certs c l1 l2 : publishing c = l1 ++ (key, certs) :: l2 ->
    cstep (EPublish key) c
      (mkConc (now c) (publish key certs (store c)) (checked c) (leading c) (l1 ++ l2)).

Inductive run : list event -> conc -> conc -> Prop :=
| run_nil c : run [] c c
| run_cons e tr a b c : cstep e a b -> run tr b c -> run (e :: tr) a c.

Definition initial (t : Z) (s : CertStore) : conc := mkConc t s [] ∅ [].

(** What holds of every reachable state. *)
Definition CInv (c : conc) : Prop :=
  size (miss (store c)) <= maxNegCacheEntries /\
  sf_sem (store c) = size (leading c) /\
  size (leading c) <= sem (store c).

Lemma sweepMiss_size t m : size (sweepMiss t m) <= size m.
Proof. unfold sweepMiss. apply map_subseteq_size, map_filter_subseteq. Qed.

Lemma recordMiss_size t1 t2 sni s :
  size (miss s) <= maxNegCacheEntries ->
  size (miss (recordMiss t1 t2 sni s)) <= maxNegCacheEntries.
Proof.
  intros H. unfold recordMiss.
  assert (Hins : forall m : gmap string Z, size m < maxNegCacheEntries ->
            size (<[sni := (t2 + negTTL s)%Z]> m) <= maxNegCacheEntries).
  { intros m Hm. rewrite map_size_insert. destruct (m !! sni); unfold id; lia. }
  destruct (Nat.leb_spec maxNegCacheEntries (size (miss s))); cbn [miss with_miss]; [|auto].
  destruct (Nat.leb_spec maxNegCacheEntries (size (sweepMiss t1 (miss s))));
    cbn [miss with_miss]; [|auto].
  pose proof (sweepMiss_size t1 (miss s)). lia.
Qed.

Lemma delete_size_le (m : gmap string Z) k : size (delete k m) <= size m.
Proof. apply map_subseteq_size, delete_subseteq. Qed.

Lemma suppressed_store t sni s b s' :
  suppressed t sni s = (b, s') ->
  s' = with_miss (miss s') s /\ size (miss s') <= size (miss s).
Proof.
  unfold suppressed. intros H. repeat split_match_in H; simplify_eq/=.
  - split; [done|]. apply delete_size_le.
  - by destruct s'.
  - by destruct s'.
Qed.

Lemma finish_store t1 t2 sni (b : bool) s :
  let s' := if b then clearMiss sni s else recordMiss t1 t2 sni s in
  s' = with_miss (miss s') s.
Proof. destruct b; [done|]. unfold recordMiss. cbn zeta. repeat split_match; done. Qed.

Lemma CInv_step e a b : CInv a -> cstep e a b -> CInv b.
Proof.
  intros (Hm & Hs & Hc) Hstep. unfold CInv.
  destruct Hstep; cbn [store leading miss sf_sem sem with_sem with_miss updateCache with_cache
    publish clearMiss with_table] in *; try done.
  - apply suppressed_store in H as [-> Hle]. cbn [sf_sem sem miss with_miss] in *. lia.
  - rewrite map_size_insert_None by done. lia.
  - rewrite map_size_insert_Some by eauto. done.
  - pose proof (finish_store (now c) (now c) sni b (store c)) as Heq.
    cbn zeta in Heq. rewrite Heq. cbn [sf_sem sem miss with_miss].
    rewrite map_size_delete_Some by eauto. split; [|lia].
    destruct b; [|by apply recordMiss_size].
    cbn. pose proof (delete_size_le (miss (store c)) sni). lia.
  - pose proof (delete_size_le (miss (store c)) key). lia.
Qed.

End EdgeCerts.

(** ** Properties *)

Module CertProps.
Import CertTable.

(** *** Resolution *)

(** The first certificate listing exactly [n] that the handshake supports. *)
Definition pick (certs : list Certificate) (hello : ClientHelloInfo) (n : string) :
    option Certificate :=
  List.find (fun c => bool_decide (n ∈ sans c) && SupportsCertificate hello c)
    (cacheLeaf <$> certs).

Lemma Set_find certs hello n :
  match Set_ certs !! n with
  | Some cs => findSupportCert cs hello
  | None => None
  end = pick certs hello n.
Proof.
  pose proof (build_find (SupportsCertificate hello) certs ∅ n) as H.
  rewrite lookup_empty in H. simpl in H. unfold pick. rewrite <- H.
  unfold Set_, buildNameToCertificate, findSupportCert.
  unfold Table. by destruct (fold_left buildStep certs ∅ !! n).
Qed.

(** The table built from a certificate list resolves a handshake to the first
    certificate, in list order, that names the SNI exactly and that the handshake
    supports; failing that, to the first such certificate of the single-label
    wildcard; failing that to none, and unparseable certificates never match. *)
Theorem table_Get_spec certs hello :
  Get (Set_ certs) hello =
  let name := normalizeSNI (ServerName hello) in
  match pick certs hello name with
  | Some c => Some c
  | None => match wildcardName name with
            | Some w => pick certs hello w
            | None => None
            end
  end.
Proof.
  unfold Get. rewrite tableName_normalizeSNI. cbn zeta.
  rewrite <- (Set_find certs hello (normalizeSNI _)).
  destruct (wildcardName _) as [w|]; [rewrite <- (Set_find certs hello w)|];
    by destruct (Set_ certs !! normalizeSNI (ServerName hello)).
Qed.

Lemma sans_cacheLeaf c : sans (cacheLeaf c) = sans c.
Proof.
  unfold sans, leafOf, cacheLeaf. simpl. unfold leafOf. by destruct (Leaf c), (parsed c).
Qed.

Lemma covers_split {A} (names : A -> list string) (l : list A) name :
  Exists (fun a => name ∈ names a) l \/
  (exists w, wildcardName name = Some w /\ Exists (fun a => w ∈ names a) l) <->
  Exists (fun a => Exists (fun san => coversName san name = true) (names a)) l.
Proof.
  unfold coversName. repeat setoid_rewrite Exists_exists. split.
  - intros [(c & ? & ?)|(w & Hw & c & ? & ?)]; exists c; (split; [done|]); eexists;
      (split; [done|]); [by rewrite String.eqb_refl|].
    rewrite Hw, String.eqb_refl. apply orb_true_r.
  - intros (c & ? & san & ? & [Heq|Heq]%orb_prop).
    + bool_props. subst. left. by eauto.
    + destruct (wildcardName name) as [w|]; [|done]. bool_props. subst. right. eauto.
Qed.

Section supported.
Context (certs : list Certificate) (hello : ClientHelloInfo).
Context (Hsup : forall c, SupportsCertificate hello c = true).

Lemma pick_is_Some n : is_Some (pick certs hello n) <-> Exists (fun c => n ∈ sans c) certs.
Proof using Hsup.
  unfold pick. rewrite Exists_exists. split.
  - intros [c Hc]. apply List.find_some in Hc as [Hin Hb].
    rewrite Hsup, andb_true_r in Hb. bool_props.
    apply list_elem_of_In, list_elem_of_fmap in Hin as (c0 & -> & Hin).
    exists c0. by rewrite sans_cacheLeaf in Hb.
  - intros (c & Hin & Hn). destruct (List.find _ _) eqn:Hf; [by eauto|].
    eapply (List.find_none _ _) with (x := cacheLeaf c) in Hf.
    + rewrite Hsup, andb_true_r, sans_cacheLeaf in Hf. by bool_props.
    + apply list_elem_of_In, list_elem_of_fmap. by eauto.
Qed.

Lemma Get_is_Some_pick :
  is_Some (Get (Set_ certs) hello) <->
  is_Some (pick certs hello (normalizeSNI (ServerName hello))) \/
  exists w, wildcardName (normalizeSNI (ServerName hello)) = Some w /\
            is_Some (pick certs hello w).
Proof using Type.
  rewrite <- Set_find. setoid_rewrite <- (Set_find certs hello).
  unfold Get. rewrite tableName_normalizeSNI. set (name := normalizeSNI _).
  assert (Hno : ~ @is_Some Certificate None) by (by intros [? ?]).
  destruct (Set_ certs !! name) as [cs|]; [destruct (findSupportCert cs hello)|];
    destruct (wildcardName name) as [w|]; naive_solver.
Qed.

Lemma table_Get_is_Some :
  is_Some (Get (Set_ certs) hello) <->
  Exists (fun c => Exists (fun san => coversName san (normalizeSNI (ServerName hello)) = true)
                     (sans c)) certs.
Proof using Hsup.
  rewrite Get_is_Some_pick, pick_is_Some. setoid_rewrite pick_is_Some.
  apply covers_split.
Qed.
End supported.

Section cp.
Context (sanDNSNames : string -> list string).
Context (etagOf : string -> string -> string) (etagOfString : string -> string).

(** The control plane's store answers for an SNI with the last pair of the
    list that names it exactly (lower-cased), failing that with the last pair of
    its single-label wildcard, and with nothing for an empty name. *)
Theorem cp_Get_spec pairs st sni :
  CPCerts.Get sni (CPCerts.Set_ sanDNSNames etagOf etagOfString pairs st) =
  let name := normalizeSNI sni in
  if String.eqb name "" then None
  else match CPCerts.owner sanDNSNames etagOf pairs name with
       | Some e => Some e
       | None => match wildcardName name with
                 | Some w => CPCerts.owner sanDNSNames etagOf pairs w
                 | None => None
                 end
       end.
Proof.
  unfold CPCerts.Get, CPCerts.Set_. simpl. rewrite CPCerts.buildIndex_lookup.
  destruct (wildcardName _); rewrite ?CPCerts.buildIndex_lookup; done.
Qed.

Lemma cp_Get_is_Some pairs st sni :
  normalizeSNI sni <> "" ->
  is_Some (CPCerts.Get sni (CPCerts.Set_ sanDNSNames etagOf etagOfString pairs st)) <->
  Exists (fun p => Exists (fun san => coversName san (normalizeSNI sni) = true)
                     (CPCerts.lowerSANs sanDNSNames p)) pairs.
Proof.
  intros Hne. unfold CPCerts.Get, CPCerts.Set_. simpl. apply String.eqb_neq in Hne as ->.
  rewrite !CPCerts.buildIndex_lookup. set (name := normalizeSNI sni).
  transitivity (Exists (fun p => name ∈ CPCerts.lowerSANs sanDNSNames p) pairs \/
    exists w, wildcardName name = Some w /\
      Exists (fun p => w ∈ CPCerts.lowerSANs sanDNSNames p) pairs).
  - setoid_rewrite <- (CPCerts.owner_is_Some sanDNSNames etagOf).
    assert (Hno : ~ @is_Some CPCerts.certEntry None) by (by intros [? ?]).
    destruct (CPCerts.owner _ _ pairs name), (wildcardName name) as [w|];
      rewrite ?CPCerts.buildIndex_lookup; naive_solver.
  - apply covers_split.
Qed.

(** The controller's table and the control plane's store agree on coverage:
    built from the same secrets, whose SAN names are already lower-case, they
    have a certificate for exactly the same (non-empty) names, whatever other
    differences in which of several certificates they prefer. *)
Theorem coverage_agrees pairs certs st hello :
  Forall2 (fun p c => sans c = sanDNSNames (CPCerts.ChainPEM p)) pairs certs ->
  (forall p san, p ∈ pairs -> san ∈ sanDNSNames (CPCerts.ChainPEM p) -> to_lower san = san) ->
  (forall c, SupportsCertificate hello c = true) ->
  normalizeSNI (ServerName hello) <> "" ->
  is_Some (CPCerts.Get (ServerName hello)
             (CPCerts.Set_ sanDNSNames etagOf etagOfString pairs st)) <->
  is_Some (Get (Set_ certs) hello).
Proof.
  intros Hsame Hlow Hsup Hne. rewrite cp_Get_is_Some, table_Get_is_Some by done.
  set (name := normalizeSNI _). clearbody name. clear Hsup Hne.
  induction Hsame as [|p c pairs certs Hpc Hsame IH]; [by rewrite !Exists_nil|].
  rewrite !Exists_cons, IH by (intros; eapply Hlow; [by right|done]).
  unfold CPCerts.lowerSANs. rewrite Hpc.
  assert (to_lower <$> sanDNSNames (CPCerts.ChainPEM p) = sanDNSNames (CPCerts.ChainPEM p))
    as ->; [|done].
  rewrite <- (list_fmap_id (sanDNSNames _)) at 2. apply list_fmap_ext.
  intros i san Hi. apply (Hlow p); [by left|]. by eapply list_elem_of_lookup_2.
Qed.

End cp.

Definition exCert (id : Z) (names : list string) : Certificate :=
  mkCert id (Some (mkLeaf names)) None.
Definition exHello (name : string) : ClientHelloInfo := mkHello name (fun _ => true).

Lemma coverage_agrees_witness :
  is_Some (CPCerts.Get "WWW.acme.com."
     (CPCerts.Set_ (fun chain => [chain]) (fun a b => a +:+ b) id
        [CPCerts.mkPair "*.acme.com" "k"] (CPCerts.NewCertStore id))) <->
  is_Some (Get (Set_ [exCert 1 ["*.acme.com"]]) (exHello "WWW.acme.com.")).
Proof.
  apply (coverage_agrees (fun chain => [chain]) (fun a b => a +:+ b) id
           [CPCerts.mkPair "*.acme.com" "k"] [exCert 1 ["*.acme.com"]]
           (CPCerts.NewCertStore id) (exHello "WWW.acme.com.")).
  - by repeat constructor.
  - intros p san ->%list_elem_of_singleton ->%list_elem_of_singleton. reflexivity.
  - reflexivity.
  - by vm_compute.
Defined.

(** Coverage is not the same for a certificate whose SAN has an upper-case
    letter: the control plane lower-cases its index key and serves the name, but
    the SNI table keeps the SAN as written and looks up the lower-cased name, so
    the controller (and the edge that fetched the certificate) has none. *)
Theorem uppercase_san_disagrees :
  is_Some (CPCerts.Get "acme.com"
     (CPCerts.Set_ (fun chain => [chain]) (fun a b => a +:+ b) id
        [CPCerts.mkPair "Acme.com" "k"] (CPCerts.NewCertStore id))) /\
  (forall name, Get (Set_ [exCert 1 ["Acme.com"]]) (exHello name) = None).
Proof.
  split; [vm_compute; by eauto|]. intros name. apply eq_None_not_Some.
  rewrite table_Get_is_Some by done. simpl.
  intros [c [->%list_elem_of_singleton Hc]]%Exists_exists.
  apply Exists_exists in Hc as [san [->%list_elem_of_singleton Hs]].
  apply orb_prop in Hs as [Hs|Hs].
  - bool_props. unfold normalizeSNI in Hs. apply (f_equal to_lower) in Hs as Hl.
    rewrite to_lower_idem, <- Hs in Hl. by vm_compute in Hl.
  - unfold wildcardName in Hs. destruct (index_byte c_dot _); [|done]. simpl in Hs.
    bool_props. discriminate.
Qed.


(** *** Authorisation *)

(** An edge is allowed a host exactly when its token is registered, not
    disabled, and one of its domains, trimmed and lower-cased, is the catch-all,
    the host's normalised (non-empty) name or that name's single-label wildcard. *)
Theorem Allowed_iff entries token host :
  Authz.Allowed (Authz.NewAuthzEntries entries) token host = true <->
  exists e d, entries !! token = Some e /\ Authz.Disabled e = false /\
    d ∈ Authz.Domains e /\ normalizeSNI host <> "" /\
    let g := to_lower (trim_space d) in
    (g = "*" \/ coversName g (normalizeSNI host) = true).
Proof.
  unfold Authz.Allowed. rewrite Authz.lookup_NewAuthzEntries.
  destruct (entries !! token) as [e|]; [|split; [done|naive_solver]].
  destruct (Authz.Disabled e) eqn:Hdis; [split; [done|naive_solver congruence]|].
  destruct (String.eqb_spec (normalizeSNI host) "") as [Hz|Hz]; [split; [done|naive_solver]|].
  rewrite Authz.Allowed_domains, existsb_exists. unfold Authz.grants. simpl.
  unfold Authz.normalizeDomains. split.
  - intros (g & Hin & Hg). apply list_elem_of_In, list_elem_of_fmap in Hin as (d & -> & Hd).
    exists e, d. repeat split; try done. apply orb_prop in Hg as [Hg|Hg]; [left|by right].
    by bool_props.
  - intros (e' & d & [= <-] & _ & Hd & _ & Hg). exists (to_lower (trim_space d)).
    split; [apply list_elem_of_In, list_elem_of_fmap; eauto|].
    destruct Hg as [->| ->]; [done|apply orb_true_r].
Qed.

(** A disabled token is indistinguishable from an absent one: not known, no
    identity to mint a certificate for, and no host allowed, whatever its domains. *)
Theorem authz_lockout entries token host :
  (forall e, entries !! token = Some e -> Authz.Disabled e = true) ->
  Authz.Known (Authz.NewAuthzEntries entries) token = false /\
  Authz.Identity (Authz.NewAuthzEntries entries) token = None /\
  Authz.Allowed (Authz.NewAuthzEntries entries) token host = false.
Proof.
  intros H. unfold Authz.Known, Authz.Identity, Authz.Allowed.
  by rewrite Authz.lookup_inactive.
Qed.

Lemma authz_lockout_witness :
  let entries := {[ "tok" := Authz.mkEntry "edge-1" ["*"] true ]} in
  Authz.Known (Authz.NewAuthzEntries entries) "tok" = false /\
  Authz.Identity (Authz.NewAuthzEntries entries) "tok" = None /\
  Authz.Allowed (Authz.NewAuthzEntries entries) "tok" "acme.com" = false.
Proof.
  apply (authz_lockout {[ "tok" := Authz.mkEntry "edge-1" ["*"] true ]} "tok" "acme.com").
  intros e He. rewrite lookup_singleton_eq in He. by injection He as <-.
Defined.

(** *** On-demand fetching *)

Import EdgeCerts.

Lemma run_CInv tr a b : run tr a b -> CInv a -> CInv b.
Proof. induction 1; intros; [done|]. eauto using CInv_step. Qed.

(** However handshakes, fetches and updates interleave, the negative cache
    never holds more than 4096 names, at most [maxInFlight] control-plane fetches
    run at once, each for a different SNI, and the semaphore counts exactly them. *)
Theorem ondemand_guards_hold t ttl cap tr c :
  run tr (initial t (ConfigureOnDemand ttl cap NewCertStore)) c ->
  size (miss (store c)) <= maxNegCacheEntries /\
  size (leading c) <= sem (store c) /\
  sf_sem (store c) = size (leading c).
Proof.
  intros Hrun. apply run_CInv in Hrun as (? & ? & ?); [done|].
  unfold CInv, initial, ConfigureOnDemand, NewCertStore.
  destruct (ttl >? 0)%Z, (cap >? 0)%Z; cbn [store leading miss sf_sem sem];
    rewrite !map_size_empty; lia.
Qed.

Lemma ondemand_guards_hold_witness :
  let c := mkConc 0 (with_sem 1 NewCertStore) [] {[ "acme.com" := Fetching ]} [] in
  size (miss (store c)) <= maxNegCacheEntries /\
  size (leading c) <= sem (store c) /\ sf_sem (store c) = size (leading c).
Proof.
  apply (ondemand_guards_hold 0 0 0 [ECheck "acme.com"; ELead "acme.com"]).
  eapply run_cons; [by eapply (st_check "acme.com" _ false NewCertStore)|].
  eapply run_cons; [|apply run_nil].
  apply (st_lead "acme.com" (mkConc 0 NewCertStore ["acme.com"] ∅ []) [] []);
    [done|done|vm_compute; lia].
Defined.

Definition is_lead (sni : string) (e : event) : bool :=
  match e with ELead k => String.eqb k sni | _ => false end.

Definition leads_of (sni : string) (tr : list event) : nat := countb (is_lead sni) tr.

Definition checks_of (sni : string) (c : conc) : nat :=
  countb (fun x => String.eqb x sni) (checked c).

(** While a name is suppressed and nothing is installed under it. *)
Definition Suppressed (sni : string) (until : Z) (c : conc) : Prop :=
  (exists u, miss (store c) !! sni = Some u /\ (until <= u)%Z) /\
  (until <= now c + negTTL (store c))%Z /\
  cached sni (store c) = false /\
  leading c !! sni <> Some (Verdict true).

Lemma recordMiss_keeps t1 t2 k s sni u until :
  miss s !! sni = Some u -> (until <= u)%Z -> (t1 <= until)%Z ->
  (until <= t2 + negTTL s)%Z ->
  exists u', miss (recordMiss t1 t2 k s) !! sni = Some u' /\ (until <= u')%Z.
Proof.
  intros Hu Hle Ht1 Ht2. unfold recordMiss.
  assert (Hsweep : sweepMiss t1 (miss s) !! sni = Some u).
  { apply map_lookup_filter_Some. split; [done|]. simpl. lia. }
  assert (Hins : forall m : gmap string Z, m !! sni = Some u ->
            exists u', <[k := (t2 + negTTL s)%Z]> m !! sni = Some u' /\ (until <= u')%Z).
  { intros m Hm. destruct (decide (k = sni)) as [->|Hk].
    - rewrite lookup_insert_eq. eauto.
    - rewrite lookup_insert_ne by done. eauto. }
  cbn zeta. repeat split_match; cbn [miss with_miss]; eauto.
Qed.

Lemma suppressed_keeps t k s b s' sni u until :
  suppressed t k s = (b, s') -> miss s !! sni = Some u -> (until <= u)%Z -> (t <= until)%Z ->
  miss s' !! sni = Some u /\ (k = sni -> b = true).
Proof.
  unfold suppressed. intros H Hu Hle Ht.
  repeat split_match_in H; simplify_eq/=; bool_props.
  - assert (k <> sni) by (intros ->; simplify_eq; lia).
    by rewrite lookup_delete_ne.
  - done.
  - split; [done|]. intros ->. congruence.
Qed.

Lemma Suppressed_step sni until e a b :
  e <> ECache sni -> e <> EPublish sni -> (now a <= until)%Z ->
  Suppressed sni until a -> cstep e a b ->
  Suppressed sni until b /\ checks_of sni b + leads_of sni [e] <= checks_of sni a.
Proof.
  intros Hc Hp Hnow ((u & Hu & Hle) & Httl & Hcache & Hlead) Hstep.
  unfold Suppressed, checks_of, leads_of. destruct Hstep;
    cbn [store now leading checked miss negTTL with_sem with_miss updateCache with_cache publish
         clearMiss with_table countb is_lead] in *.
  - repeat split; [eauto|lia|done|done|lia].
  - pose proof (suppressed_keeps _ _ _ _ _ _ _ _ H Hu Hle Hnow) as [Hu' Hb].
    apply suppressed_store in H as [-> _]. cbn [negTTL cached cache with_miss miss] in *.
    repeat split; [eauto|lia|done|done|].
    destruct b; [lia|]. cbn [countb]. destruct (String.eqb_spec sni0 sni); [|lia]. naive_solver.
  - rewrite H, !countb_app. cbn [countb]. repeat split; [eauto|lia|done| |lia].
    destruct (decide (sni0 = sni)) as [->|?];
      [by rewrite lookup_insert_eq|by rewrite lookup_insert_ne].
  - rewrite H, !countb_app. cbn [countb]. repeat split; [eauto|lia|done|done|lia].
  - repeat split; [eauto|lia|done| |lia].
    destruct (decide (sni0 = sni)) as [->|?];
      [by rewrite lookup_insert_eq, Hcache|by rewrite lookup_insert_ne].
  - pose proof (finish_store (now c) (now c) sni0 b (store c)) as Heq. cbn zeta in Heq.
    set (s' := if b then _ else _) in *. rewrite Heq.
    cbn [negTTL cached cache with_miss miss]. repeat split; [|lia|done| |lia].
    + subst s'. destruct b; [|by eapply recordMiss_keeps].
      assert (sni0 <> sni) by congruence. cbn. rewrite lookup_delete_ne by done. eauto.
    + rewrite lookup_delete. case_decide; done.
  - repeat split; [eauto|lia| |done|lia].
    unfold cached. cbn. rewrite lookup_insert_ne by congruence. done.
  - repeat split; [|lia|done|done|lia]. rewrite lookup_delete_ne by congruence. eauto.
Qed.

Lemma cstep_now e a b : cstep e a b -> (now a <= now b)%Z.
Proof. destruct 1; simpl; lia. Qed.

Lemma run_now tr a b : run tr a b -> (now a <= now b)%Z.
Proof. induction 1 as [|e tr a b c H]; [lia|]. apply cstep_now in H. lia. Qed.

(** While an SNI is in the negative cache and no certificate is installed
    under it, no interleaving fetches it again: the fetches started before the
    entry expires are only those of handshakes that had already passed the check
    when the miss was recorded, and no further handshake passes it. *)
Theorem suppression_bounds_fetches sni until tr a b :
  run tr a b -> Suppressed sni until a -> (now b <= until)%Z ->
  (forall e, e ∈ tr -> e <> ECache sni /\ e <> EPublish sni) ->
  checks_of sni b + leads_of sni tr <= checks_of sni a.
Proof.
  intros Hrun. induction Hrun as [|e tr a b c Hstep Hrun IH]; intros Hs Hnow Htr.
  { unfold leads_of. simpl. lia. }
  pose proof (run_now _ _ _ Hrun). pose proof (cstep_now _ _ _ Hstep).
  destruct (Htr e) as [? ?]; [by left|].
  destruct (Suppressed_step sni until e a b) as [Hs' Hle]; [done|done|lia|done|done|].
  specialize (IH Hs' Hnow (fun e' He' => Htr e' (list_elem_of_further _ _ _ He'))).
  unfold leads_of in *. cbn [countb] in *. lia.
Qed.

Lemma suppression_bounds_fetches_witness :
  let s := with_miss {[ "acme.com" := 30 ]}%Z NewCertStore in
  let a := mkConc 0 s ["acme.com"] ∅ [] in
  let b := mkConc 0 (with_sem 1 s) [] {[ "acme.com" := Fetching ]} [] in
  checks_of "acme.com" b + leads_of "acme.com" [ELead "acme.com"] <= checks_of "acme.com" a.
Proof.
  intros s a b. apply (suppression_bounds_fetches "acme.com" 30).
  - eapply run_cons; [|apply run_nil]. apply (st_lead "acme.com" a [] []); [done|done|].
    vm_compute. lia.
  - split; [|split; [|split]]; [exists 30%Z; by vm_compute|by vm_compute|done|done].
  - by vm_compute.
  - intros e ->%list_elem_of_singleton. done.
Defined.

(** Updates one at a time: a cache insertion waits for the previous publication. *)
Inductive serial_run : conc -> conc -> Prop :=
| sr_nil c : serial_run c c
| sr_snoc e a b c : serial_run a b ->
    (forall key, e = ECache key -> publishing b = []) ->
    cstep e b c -> serial_run a c.

Definition PubInv (c : conc) : Prop :=
  match publishing c with
  | [] => exists certs, certs ≡ₚ cacheCerts (cache (store c)) /\
                        table (store c) = CertTable.Set_ certs
  | [(_, certs)] => certs ≡ₚ cacheCerts (cache (store c))
  | _ => False
  end.

Lemma PubInv_step e a b :
  (forall key, e = ECache key -> publishing a = []) ->
  PubInv a -> cstep e a b -> PubInv b.
Proof.
  unfold PubInv. intros Hser Hinv Hstep.
  destruct Hstep; cbn [publishing store with_sem cache table updateCache with_cache] in *;
    try exact Hinv.
  - apply suppressed_store in H as [-> _]. exact Hinv.
  - pose proof (finish_store (now c) (now c) sni b (store c)) as Heq. cbn zeta in Heq.
    cbn zeta. rewrite Heq. exact Hinv.
  - by rewrite (Hser key eq_refl).
  - rewrite H in Hinv. destruct l1 as [|[] [|? ?]]; [|done|done].
    destruct l2; [|done]. simpl in *. exists certs. by split.
Qed.

(** When updates do not overlap, the SNI table always indexes exactly the
    certificates of the cache once the last one has been published. *)
Theorem serial_updates_publish t c :
  serial_run (initial t NewCertStore) c -> publishing c = [] ->
  exists certs, certs ≡ₚ cacheCerts (cache (store c)) /\
                table (store c) = CertTable.Set_ certs.
Proof.
  intros Hrun Hpub. assert (PubInv c) as H.
  { clear Hpub. remember (initial t NewCertStore) as a eqn:Ha.
    induction Hrun as [|e a b c Hrun IH Hser Hstep]; subst.
    - exists []. by split.
    - eauto using PubInv_step. }
  unfold PubInv in H. by rewrite Hpub in H.
Qed.

(** The store with one certificate cached and published, then two. *)
Definition exPub1 : conc :=
  let s := updateCache "a.com" (exCert 1 ["a.com"]) "e1" NewCertStore in
  mkConc 0 (publish "a.com" [exCert 1 ["a.com"]] s) [] ∅ [].

Lemma serial_updates_publish_witness :
  exists certs, certs ≡ₚ cacheCerts (cache (store exPub1)) /\
                table (store exPub1) = CertTable.Set_ certs.
Proof.
  apply (serial_updates_publish 0); [|done].
  set (A := exCert 1 ["a.com"]). set (s := updateCache "a.com" A "e1" NewCertStore).
  set (mid := mkConc 0 s [] ∅ [("a.com", [A])]).
  apply (sr_snoc (EPublish "a.com") _ mid).
  - apply (sr_snoc (ECache "a.com") _ (initial 0 NewCertStore)); [apply sr_nil|done|].
    apply (st_cache "a.com" A "e1" (initial 0 NewCertStore) [A]). by vm_compute.
  - done.
  - exact (st_publish "a.com" [A] mid [] [] eq_refl).
Defined.

(** Two updates that overlap can lose one: [Update] takes its snapshot of the
    cache under the lock but publishes the table after releasing it, so when the
    earlier snapshot is published last, the other name stays in the cache but out
    of the table.  From then on a handshake for it is fetched on demand, the
    control plane answers 304 to the cached ETag, and the client is still served
    the self-signed fallback, and no miss is recorded. *)
Theorem overlapping_updates_lose_a_name :
  exists c,
    run [ECache "a.com"; ECache "b.com"; EPublish "b.com"; EPublish "a.com"]
      (initial 0 NewCertStore) c /\
    publishing c = [] /\ cached "b.com" (store c) = true /\
    forall kp t1 t2 t3,
      let fetch := RefreshCertOnce kp (fun _ etag => if String.eqb etag "" then FetchErr else Unchanged) in
      let '(crt, s') := GetCertificate t1 t2 t3 (Some fetch) (exHello "b.com") (store c) in
      crt = None /\ table s' = table (store c) /\ cache s' = cache (store c) /\ miss s' = ∅.
Proof.
  set (A := exCert 1 ["a.com"]). set (B := exCert 2 ["b.com"]).
  set (s1 := updateCache "a.com" A "e1" NewCertStore).
  set (s2 := updateCache "b.com" B "e2" s1).
  exists (mkConc 0 (publish "a.com" [A] (publish "b.com" (cacheCerts (cache s2)) s2)) [] ∅ []).
  split; [|split; [done|split; [done|]]].
  - set (c0 := initial 0 NewCertStore).
    set (c1 := mkConc 0 s1 [] ∅ [("a.com", [A])]).
    set (c2 := mkConc 0 s2 [] ∅ [("b.com", cacheCerts (cache s2)); ("a.com", [A])]).
    set (c3 := mkConc 0 (publish "b.com" (cacheCerts (cache s2)) s2) [] ∅ [("a.com", [A])]).
    apply (run_cons _ _ _ c1).
    { apply (st_cache "a.com" A "e1" c0 [A]). by vm_compute. }
    apply (run_cons _ _ _ c2); [by apply (st_cache "b.com" B "e2" c1)|].
    apply (run_cons _ _ _ c3); [exact (st_publish _ _ c2 [] [("a.com", [A])] eq_refl)|].
    eapply run_cons; [exact (st_publish _ _ c3 [] [] eq_refl)|]. apply run_nil.
  - intros kp t1 t2 t3. split; [|split; [|split]]; reflexivity.
Qed.

(** In serve-all mode a handshake whose name is neither in the table nor
    suppressed, with a free fetch slot, is served at once when the control plane
    answers with a parseable pair: the returned certificate names the SNI, the
    store now holds it under that key, and any negative entry is gone. *)
Theorem ondemand_serves kp chain kpem etag l t1 t2 t3 (FetchCert : string -> string -> CertFetch)
    (hello : ClientHelloInfo) s :
  let sni := normalizeSNI (ServerName hello) in
  CertTable.Get (table s) hello = None -> sni <> "" ->
  fst (suppressed t1 sni s) = false -> sf_sem s < sem s ->
  FetchCert sni (Etag sni s) = Material chain kpem etag ->
  kp chain kpem = Some (mkCert 0 (Some l) None) -> sni ∈ DNSNames l ->
  (forall c, SupportsCertificate hello c = true) ->
  exists c s',
    GetCertificate t1 t2 t3 (Some (RefreshCertOnce kp FetchCert)) hello s = (Some c, s') /\
    cached sni s' = true /\ miss s' !! sni = None /\ sf_sem s' = sf_sem s /\ loaded s' = true.
Proof.
  intros sni Hget Hne Hsup Hsem Hfetch Hkp Hin Hall.
  unfold GetCertificate. rewrite Hget.
  destruct (String.eqb_spec (ServerName hello) "") as [He|_].
  { destruct Hne. unfold sni. by rewrite He. }
  fold sni. apply String.eqb_neq in Hne as ->.
  unfold fetchOnDemand. destruct (suppressed t1 sni s) as [b s1] eqn:Hs1. simpl in Hsup. subst b.
  apply suppressed_store in Hs1 as [Hs1 _]. rewrite Hs1.
  cbn [sem sf_sem with_miss]. rewrite (proj2 (Nat.leb_gt _ _)) by done.
  unfold RefreshCertOnce, Etag. cbn [cache with_sem with_miss]. 
  unfold Etag in Hfetch. rewrite Hfetch. unfold Update. rewrite Hkp.
  set (crt := mkCert 0 (Some l) None) in *.
  unfold cached. cbn [snd updateCache publish clearMiss with_table with_miss with_sem with_cache
    cache miss table sf_sem loaded fst].
  rewrite lookup_insert_eq.
  cbn [snd updateCache publish clearMiss with_table with_miss with_sem with_cache
    cache miss table sf_sem loaded fst].
  set (t' := CertTable.Set_ _).
  assert (is_Some (CertTable.Get t' hello)) as [c Hc].
  { apply table_Get_is_Some; [done|]. apply Exists_exists. exists crt. split.
    - unfold cacheCerts. apply list_elem_of_fmap. exists (mkCached crt etag). split; [done|].
      apply list_elem_of_fmap. exists (sni, mkCached crt etag). split; [done|].
      apply elem_of_map_to_list, lookup_insert_eq.
    - apply Exists_exists. exists sni. split; [done|]. unfold coversName.
      fold sni. by rewrite String.eqb_refl. }
  eexists c, _. split; [by rewrite Hc|].
  cbn [cache miss sf_sem loaded clearMiss with_miss with_sem publish updateCache with_table
    with_cache].
  by rewrite lookup_insert_eq, lookup_delete_eq.
Qed.

Lemma ondemand_serves_witness :
  exists c s',
    GetCertificate 1 2 3 (Some (RefreshCertOnce (fun chain _ => Some (exCert 0 [chain]))
                                  (fun sni _ => Material sni "key" "e1")))
      (exHello "Acme.com.") NewCertStore = (Some c, s') /\
    cached "acme.com" s' = true /\ miss s' !! "acme.com" = None /\
    sf_sem s' = 0 /\ loaded s' = true.
Proof.
  apply (ondemand_serves (fun chain _ => Some (exCert 0 [chain])) "acme.com" "key" "e1"
           (mkLeaf ["acme.com"]) 1 2 3 (fun sni _ => Material sni "key" "e1")
           (exHello "Acme.com.") NewCertStore).
  - by vm_compute.
  - by vm_compute.
  - by vm_compute.
  - vm_compute. lia.
  - by vm_compute.
  - done.
  - by apply list_elem_of_singleton.
  - done.
Defined.

End CertProps.
