(* ===== verification/CacheRule.v ===== *)
(** * Cache override rules

    Models [src/cacherule] (parsing, validation and evaluation of one override
    set) and [src/edge/cache_override.go] (the edge's global set and zones).

    The WAF predicate engine ([waf.NewPredicate], [Predicate.Eval]) and the YAML
    decoder are third-party code: section parameters here.  [Eval] answers
    [None] for a runtime error.  Every decision function also returns the trace
    of metric observations it makes. *)

From S2P Require Import Prelude GoString GoTime.

Set Default Proof Using "Type".

Module CacheRule.

(** ** Data *)

Definition maxIDLen : nat := 63.
Definition minTTL : Z := second.
Definition defaultPriority : Z := 100.

Record Override := mkOverride {
  ID : string;
  Action : string;
  Filter : string;
  TTL : string;
  Policy : string;
  StaleWhileRevalidate : string;
  StaleIfError : string;
  Status : list Z;
  Mode : string;
  Priority : Z;
}.

Inductive action := actionCache | actionBypass.
Inductive mode := modeEnforce | modeShadow.

(** [cache.OverrideMode] of the cache the rules feed. *)
Inductive OverrideMode := OverrideBalanced | OverrideConservative | OverrideAggressive.

#[global] Instance action_eq_dec : EqDecision action.
Proof. solve_decision. Defined.
#[global] Instance mode_eq_dec : EqDecision mode.
Proof. solve_decision. Defined.

(** [cache.Override]. *)
Record Forced := mkForced { fTTL : Z; fSWR : Z; fSIE : Z; fMode : OverrideMode }.

Inductive observation := resultApplied | resultShadow | resultError.

(** The errors of validation. *)
Inductive ruleError :=
| EIDRequired | EIDTooLong | EIDChar (c : ascii)
| EAction (a : string) | EMode (m : string) | EPolicy (p : string)
| ETTLRequired | ETTLInvalid | ETTLBelowMin (d : Z)
| EStaleInvalid (field : string) | EStaleNegative (field : string)
| EStatus (s : Z) | EBypassFields | EFilter | EDuplicate.

Definition idChar (c : ascii) : bool :=
  let n := nat_of_ascii c in
  ((97 <=? n) && (n <=? 122) || (65 <=? n) && (n <=? 90) || (48 <=? n) && (n <=? 57)
   || (n =? 45) || (n =? 95) || (n =? 46))%nat.

Fixpoint firstBadChar (s : string) : option ascii :=
  match s with
  | EmptyString => None
  | String c s => if idChar c then firstBadChar s else Some c
  end.

Definition validateID (id : string) : list ruleError :=
  if String.eqb id "" then [EIDRequired]
  else if (maxIDLen <? String.length id)%nat then [EIDTooLong]
  else match firstBadChar id with Some c => [EIDChar c] | None => [] end.

Definition blank (s : string) : bool := String.eqb (trim_space s) "".

Definition parseStaleWindow (field raw : string) : Z * list ruleError :=
  if blank raw then (0%Z, [])
  else match ParseDuration raw with
       | None => (0%Z, [EStaleInvalid field])
       | Some d => if (d <? 0)%Z then (0%Z, [EStaleNegative field]) else (d, [])
       end.

Definition compileTTL (raw : string) : Z * list ruleError :=
  if blank raw then (0%Z, [ETTLRequired])
  else match ParseDuration raw with
       | None => (0%Z, [ETTLInvalid])
       | Some d => if (d <? minTTL)%Z then (0%Z, [ETTLBelowMin d]) else (d, [])
       end.

Definition compilePolicy (p : string) : OverrideMode * list ruleError :=
  if String.eqb p "" || String.eqb p "balanced" then (OverrideBalanced, [])
  else if String.eqb p "conservative" then (OverrideConservative, [])
  else if String.eqb p "aggressive" then (OverrideAggressive, [])
  else (OverrideBalanced, [EPolicy p]).

Definition statusOK (s : Z) : bool := negb ((s <? 100) || (599 <? s))%Z.

(** [None] is the nil map: any cacheable status. *)
Definition compileStatus (l : list Z) : option (gset Z) * list ruleError :=
  match l with
  | [] => (None, [])
  | _ => (Some (list_to_set (List.filter statusOK l)),
          EStatus <$> List.filter (fun s => negb (statusOK s)) l)
  end.

(** The action=cache fields. *)
Record force := mkForce { ttl : Z; swr : Z; sie : Z; omode : OverrideMode; status : option (gset Z) }.

Definition noForce : force := mkForce 0 0 0 OverrideBalanced None.

Definition compileForce (ov : Override) : force * list ruleError :=
  let (t, e1) := compileTTL (TTL ov) in
  let (om, e2) := compilePolicy (Policy ov) in
  let (w, e3) := parseStaleWindow "stale_while_revalidate" (StaleWhileRevalidate ov) in
  let (i, e4) := parseStaleWindow "stale_if_error" (StaleIfError ov) in
  let (st, e5) := compileStatus (Status ov) in
  (mkForce t w i om st, e1 ++ e2 ++ e3 ++ e4 ++ e5).

(** The zero value of [act] is [actionCache]: an unknown action is validated as
    a cache rule as well. *)
Definition compileAction (a : string) : action * string * list ruleError :=
  if String.eqb a "" || String.eqb a "cache" then (actionCache, "cache", [])
  else if String.eqb a "bypass" then (actionBypass, a, [])
  else (actionCache, a, [EAction a]).

Definition compileMode (m : string) : mode * string * list ruleError :=
  if String.eqb m "" || String.eqb m "enforce" then (modeEnforce, "enforce", [])
  else if String.eqb m "shadow" then (modeShadow, m, [])
  else (modeEnforce, m, [EMode m]).

Definition bypassFields (ov : Override) : list ruleError :=
  if negb (blank (TTL ov)) || negb (blank (Policy ov)) || negb (blank (StaleWhileRevalidate ov))
     || negb (blank (StaleIfError ov)) || match Status ov with [] => false | _ => true end
  then [EBypassFields] else [].

Section engine.
Context {Predicate Input : Type}.
(** [waf.NewPredicate] under the options, [Predicate.Eval]. *)
Context (NewPredicate : Z -> bool -> string -> option Predicate).
Context (Eval : Predicate -> Input -> option bool).
(** [yaml.Unmarshal] of one document. *)
Context (unmarshal : string -> option (list Override)).

Record compiledOverride := mkCompiled {
  c_id : string;
  c_action : action;
  c_filter : option Predicate;
  c_mode : mode;
  c_priority : Z;
  c_observe : option (string * string);
  c_force : force;
}.

Record ruleset := mkRuleset {
  bypass : list compiledOverride;
  forced : list compiledOverride;
  source : list Override;
  needsFilter : bool;
}.

(** [Observe] is whether a metric factory is wired; an observer is then the pair
    of labels it was built with. *)
Record Ruleset := mkRS {
  set : option ruleset;
  NamePrefix : string;
  Observe : bool;
  FilterCostLimit : Z;
  FilterDisableMacros : bool;
}.

Definition Overrides (rs : Ruleset) : list Override :=
  match set rs with None => [] | Some s => source s end.

Definition NeedsFilter (rs : Ruleset) : bool :=
  match set rs with None => false | Some s => needsFilter s end.

Definition compileFilter (rs : Ruleset) (f : string) : option Predicate * list ruleError :=
  if String.eqb f "" then (None, [])
  else match NewPredicate (FilterCostLimit rs) (FilterDisableMacros rs) f with
       | Some p => (Some p, [])
       | None => (None, [EFilter])
       end.

Definition compile (rs : Ruleset) (ov : Override) :
    result (list ruleError) (compiledOverride * Override) :=
  let e1 := validateID (ID ov) in
  let '(act, actS, e2) := compileAction (Action ov) in
  let '(m, mS, e3) := compileMode (Mode ov) in
  let prio := if (Priority ov =? 0)%Z then defaultPriority else Priority ov in
  let (fc, e4) := match act with
                  | actionCache => compileForce ov
                  | actionBypass => (noForce, bypassFields ov)
                  end in
  let fS := trim_space (Filter ov) in
  let (filter, e5) := compileFilter rs fS in
  match e1 ++ e2 ++ e3 ++ e4 ++ e5 with
  | [] =>
      Ok (mkCompiled (ID ov) act filter m prio
            (if Observe rs then Some (NamePrefix rs +:+ ":" +:+ ID ov, actS) else None) fc,
          mkOverride (ID ov) actS fS (TTL ov) (Policy ov) (StaleWhileRevalidate ov)
            (StaleIfError ov) (Status ov) mS prio)
  | errs => Err errs
  end.

(** The accumulators of the loop of [SetOverrides]. *)
Record batch := mkBatch {
  b_errs : list (nat * list ruleError);
  b_seen : gset string;
  b_bypass : list compiledOverride;
  b_force : list compiledOverride;
  b_source : list Override;
  b_needsFilter : bool;
}.

Definition batchStep (rs : Ruleset) (i : nat) (ov : Override) (b : batch) : batch :=
  match compile rs ov with
  | Err e => mkBatch (b_errs b ++ [(i, e)]) (b_seen b) (b_bypass b) (b_force b) (b_source b)
               (b_needsFilter b)
  | Ok (c, norm) =>
      if decide (c_id c ∈ b_seen b)
      then mkBatch (b_errs b ++ [(i, [EDuplicate])]) (b_seen b) (b_bypass b) (b_force b)
             (b_source b) (b_needsFilter b)
      else
        mkBatch (b_errs b) ({[ c_id c ]} ∪ b_seen b)
          (match c_action c with actionBypass => b_bypass b ++ [c] | actionCache => b_bypass b end)
          (match c_action c with actionBypass => b_force b | actionCache => b_force b ++ [c] end)
          (b_source b ++ [norm])
          (b_needsFilter b || match c_filter c with Some _ => true | None => false end)
  end.

Fixpoint batchLoop (rs : Ruleset) (i : nat) (ovs : list Override) (b : batch) : batch :=
  match ovs with
  | [] => b
  | ov :: ovs => batchLoop rs (S i) ovs (batchStep rs i ov b)
  end.

Definition emptyBatch : batch := mkBatch [] ∅ [] [] [] false.

(** [sort.SliceStable] by priority. *)
Fixpoint insertByPriority (c : compiledOverride) (l : list compiledOverride) :
    list compiledOverride :=
  match l with
  | [] => [c]
  | d :: l' => if (c_priority c <=? c_priority d)%Z then c :: l else d :: insertByPriority c l'
  end.

Definition sortByPriority (l : list compiledOverride) : list compiledOverride :=
  foldr insertByPriority [] l.

Definition with_set (s : ruleset) (rs : Ruleset) : Ruleset :=
  mkRS (Some s) (NamePrefix rs) (Observe rs) (FilterCostLimit rs) (FilterDisableMacros rs).

Definition SetOverrides (ovs : list Override) (rs : Ruleset) :
    list (nat * list ruleError) * Ruleset :=
  let b := batchLoop rs 0 ovs emptyBatch in
  match b_errs b with
  | [] => ([], with_set (mkRuleset (b_bypass b) (sortByPriority (b_force b)) (b_source b)
                           (b_needsFilter b)) rs)
  | errs => (errs, rs)
  end.

(** One observation, when an observer is wired. *)
Definition observe (o : option (string * string)) (r : observation) :
    list (string * string * observation) :=
  match o with Some lbl => [(lbl, r)] | None => [] end.

(** A filter's verdict: matched, or [None] for a runtime error. *)
Definition filterVerdict (c : compiledOverride) (i : Input) : option bool :=
  match c_filter c with Some p => Eval p i | None => Some true end.

Fixpoint bypassLoop (l : list compiledOverride) (i : Input) :
    bool * list (string * string * observation) :=
  match l with
  | [] => (false, [])
  | b :: l =>
      let '(matched, errored) :=
        match filterVerdict b i with
        | None => (true, true)
        | Some ok => (ok, false)
        end in
      if negb matched then bypassLoop l i
      else match c_mode b with
           | modeShadow => let (r, tr) := bypassLoop l i in (r, observe (c_observe b) resultShadow ++ tr)
           | modeEnforce =>
               (true, observe (c_observe b) (if errored then resultError else resultApplied))
           end
  end.

Definition MatchBypass (rs : Ruleset) (i : Input) : bool * list (string * string * observation) :=
  match set rs with
  | None => (false, [])
  | Some s => bypassLoop (bypass s) i
  end.

Definition statusMatches (c : compiledOverride) (st : Z) : bool :=
  match status (c_force c) with Some m => bool_decide (st ∈ m) | None => true end.

Definition forcedOf (c : compiledOverride) : Forced :=
  mkForced (ttl (c_force c)) (swr (c_force c)) (sie (c_force c)) (omode (c_force c)).

Fixpoint forceLoop (l : list compiledOverride) (st : Z) (i : Input) :
    option Forced * list (string * string * observation) :=
  match l with
  | [] => (None, [])
  | f :: l =>
      if negb (statusMatches f st) then forceLoop l st i
      else match filterVerdict f i with
      | None => let (r, tr) := forceLoop l st i in (r, observe (c_observe f) resultError ++ tr)
      | Some false => forceLoop l st i
      | Some true =>
          match c_mode f with
          | modeShadow => let (r, tr) := forceLoop l st i in (r, observe (c_observe f) resultShadow ++ tr)
          | modeEnforce => (Some (forcedOf f), observe (c_observe f) resultApplied)
          end
      end
  end.

Definition Force (rs : Ruleset) (st : Z) (i : Input) :
    option Forced * list (string * string * observation) :=
  match set rs with
  | None => (None, [])
  | Some s => forceLoop (forced s) st i
  end.

(** [Parse]: the overrides of the documents, with the number of documents that
    failed to decode. *)
Fixpoint Parse (docs : list string) : list Override * nat :=
  match docs with
  | [] => ([], 0)
  | doc :: docs =>
      let (out, errs) := Parse docs in
      if blank doc then (out, errs)
      else match unmarshal doc with
           | None => (out, S errs)
           | Some ovs => (ovs ++ out, errs)
           end
  end.

(** ** The edge: a global set and zones *)

Record EdgeCacheOverride := mkEdge {
  global : Ruleset;
  zones : gmap string Ruleset;
  routeZone : gmap string string;
  generation : Z;
  etag : string;
}.

Definition newRuleset (prefix : string) : Ruleset := mkRS None prefix true 0 false.
Definition newZone (key : string) : Ruleset := newRuleset ("zone:" +:+ key).

Definition NewEdgeCacheOverride : EdgeCacheOverride :=
  mkEdge (newRuleset "global") ∅ ∅ 0 "".

(** Parse then compile into one set: the flag is whether an error was noted. *)
Definition updateSet (docs : list string) (rs : Ruleset) : bool * Ruleset :=
  match Parse docs with
  | (ovs, O) =>
      let (errs, rs') := SetOverrides ovs rs in
      (match errs with [] => false | _ => true end, rs')
  | (_, S _) => (true, rs)
  end.

Definition zoneInstance (cur : gmap string Ruleset) (key : string) : Ruleset :=
  match cur !! key with Some z => z | None => newZone key end.

Definition updateZones (cur : gmap string Ruleset) (zoneDocs : gmap string (list string)) :
    gmap string (bool * Ruleset) :=
  map_imap (fun key docs => Some (updateSet docs (zoneInstance cur key))) zoneDocs.

Definition anyError (m : gmap string (bool * Ruleset)) : bool :=
  existsb (fun kv => fst (snd kv)) (map_to_list m).

Definition Update (gen : Z) (globalDocs : list string) (zoneDocs : gmap string (list string))
    (rz : gmap string string) (et : string) (e : EdgeCacheOverride) : bool * EdgeCacheOverride :=
  let (gerr, g) := updateSet globalDocs (global e) in
  let zs := updateZones (zones e) zoneDocs in
  let failed := gerr || anyError zs in
  (failed,
   mkEdge g (snd <$> zs) rz (if failed then generation e else gen) (if failed then etag e else et)).

(** [resolve] is the route matcher: [http.ServeMux] on the patterns. *)
Definition resolveZone (resolve : gmap string string -> Input -> option string)
    (e : EdgeCacheOverride) (i : Input) : option Ruleset :=
  match resolve (routeZone e) i with
  | None => None
  | Some key => zones e !! key
  end.

Definition Cacheable (resolve : gmap string string -> Input -> option string)
    (e : EdgeCacheOverride) (i : Input) : bool :=
  if fst (MatchBypass (global e) i) then false
  else match resolveZone resolve e i with
       | Some z => negb (fst (MatchBypass z i))
       | None => true
       end.

Definition OverrideHook (resolve : gmap string string -> Input -> option string)
    (e : EdgeCacheOverride) (st : Z) (i : Input) : option Forced :=
  match fst (Force (global e) st i) with
  | Some ov => Some ov
  | None => match resolveZone resolve e i with
            | Some z => fst (Force z st i)
            | None => None
            end
  end.

End engine.
End CacheRule.

(** ** Lemmas *)

Module CacheRuleLemmas.
Import CacheRule.

Section engine.
Context {Predicate Input : Type}.
Context (NewPredicate : Z -> bool -> string -> option Predicate).
Context (Eval : Predicate -> Input -> option bool).

#[local] Abbreviation rule := (@compiledOverride Predicate).

(** *** The priority sort *)

Definition prioLe (c d : rule) : Prop := (c_priority c <= c_priority d)%Z.

Lemma insertByPriority_perm (c : rule) l : insertByPriority c l ≡ₚ c :: l.
Proof.
  induction l as [|d l IH]; simpl; [done|]. case_match; [done|].
  rewrite IH. constructor.
Qed.

Lemma sortByPriority_perm (l : list rule) : sortByPriority l ≡ₚ l.
Proof.
  induction l as [|c l IH]; simpl; [done|]. by rewrite insertByPriority_perm, IH.
Qed.

Lemma insertByPriority_sorted (c : rule) l :
  StronglySorted prioLe l -> StronglySorted prioLe (insertByPriority c l).
Proof.
  induction 1 as [|d l Hs IH Hd]; simpl; [by repeat constructor|].
  destruct (c_priority c <=? c_priority d)%Z eqn:Hle; bool_props.
  - constructor; [by constructor|]. constructor; [done|].
    eapply Forall_impl; [exact Hd|]. unfold prioLe. lia.
  - constructor; [done|]. rewrite insertByPriority_perm. constructor; [unfold prioLe; lia|done].
Qed.

Lemma sortByPriority_sorted (l : list rule) : StronglySorted prioLe (sortByPriority l).
Proof. induction l; simpl; [constructor|]. by apply insertByPriority_sorted. Qed.

Lemma find_insertByPriority f (c : rule) l :
  StronglySorted prioLe l ->
  List.find f (insertByPriority c l) =
  if f c then match List.find f l with
              | Some d => if (c_priority c <=? c_priority d)%Z then Some c else Some d
              | None => Some c
              end
  else List.find f l.
Proof.
  induction 1 as [|d l Hs IH Hd]; simpl; [by destruct (f c)|].
  destruct (c_priority c <=? c_priority d)%Z eqn:Hle; simpl.
  - destruct (f c) eqn:Hc; [|done]. destruct (f d); [by rewrite Hle|].
    destruct (List.find f l) as [e|] eqn:He; [|done].
    apply List.find_some in He as [He _]. apply list_elem_of_In in He.
    rewrite Forall_forall in Hd. specialize (Hd e He). unfold prioLe in Hd. bool_props.
    by rewrite (proj2 (Z.leb_le _ _)) by lia.
  - destruct (f d) eqn:Hfd; [by destruct (f c); rewrite ?Hle|]. done.
Qed.

(** The first match of the sorted list is the declared rule of least priority
    number, the earliest on a tie. *)
Definition bestRule (f : rule -> bool) (cs : list rule) (k : nat) (c : rule) : Prop :=
  cs !! k = Some c /\ f c = true /\
  forall j d, cs !! j = Some d -> f d = true ->
    (c_priority c < c_priority d)%Z \/ (c_priority c = c_priority d /\ k <= j).

Lemma find_sortByPriority f (cs : list rule) c :
  List.find f (sortByPriority cs) = Some c -> exists k, bestRule f cs k c.
Proof.
  revert c. induction cs as [|e cs IH]; intros c; simpl; [done|].
  rewrite find_insertByPriority by apply sortByPriority_sorted.
  destruct (List.find f (sortByPriority cs)) as [d|] eqn:Hd.
  - destruct (IH d eq_refl) as (k & Hk & Hfd & Hbest).
    assert (Hskip : (f e = true -> (c_priority d < c_priority e)%Z) ->
              bestRule f (e :: cs) (S k) d).
    { intros He. split; [done|split; [done|]]. intros [|j] x Hx Hfx; simplify_eq/=; [auto|].
      destruct (Hbest j x Hx Hfx) as [?|[? ?]]; [by left|]. right. split; [done|lia]. }
    destruct (f e) eqn:He; [|intros [= <-]; exists (S k); by apply Hskip].
    destruct (c_priority e <=? c_priority d)%Z eqn:Hle; intros [= <-]; bool_props;
      [|exists (S k); apply Hskip; intros; lia].
    exists 0. split; [done|split; [done|]]. intros [|j] x Hx Hfx; simplify_eq/=; [right; lia|].
    destruct (Hbest j x Hx Hfx); [left|destruct (decide (c_priority e = c_priority x));
      [right|left]]; lia.
  - destruct (f e) eqn:He; [|done]. intros [= <-]. exists 0.
    split; [done|split; [done|]]. intros [|j] x Hx Hfx; simplify_eq/=; [right; lia|].
    exfalso. rewrite find_none_forall, sortByPriority_perm, Forall_forall in Hd.
    apply list_elem_of_lookup_2 in Hx. specialize (Hd x Hx). simpl in Hd. congruence.
Qed.

(** *** Evaluation *)

Definition enforced (c : rule) : bool := bool_decide (c_mode c = modeEnforce).

Definition bypasses (i : Input) (c : rule) : bool :=
  enforced c && match filterVerdict Eval c i with Some false => false | _ => true end.

Definition applies (st : Z) (i : Input) (c : rule) : bool :=
  enforced c && statusMatches c st &&
  match filterVerdict Eval c i with Some true => true | _ => false end.

Lemma bypassLoop_existsb l i : fst (bypassLoop Eval l i) = existsb (bypasses i) l.
Proof.
  induction l as [|b l IH]; simpl; [done|]. unfold bypasses at 1, enforced.
  destruct (filterVerdict Eval b i) as [[]|]; simpl; rewrite <- IH;
    destruct (c_mode b); simpl; try done; by destruct (bypassLoop Eval l i).
Qed.

Lemma forceLoop_find l st i :
  fst (forceLoop Eval l st i) = forcedOf <$> List.find (applies st i) l.
Proof.
  induction l as [|f l IH]; simpl; [done|]. unfold applies at 1, enforced.
  destruct (statusMatches f st); simpl; [|by rewrite andb_false_r].
  rewrite andb_true_r.
  destruct (filterVerdict Eval f i) as [[]|]; simpl; rewrite ?andb_false_r, ?andb_true_r;
    [|done|]; destruct (c_mode f); simpl; try done; rewrite <- IH; by destruct (forceLoop Eval l st i).
Qed.

(** *** Validation *)

Fixpoint idCharsOK (s : string) : bool :=
  match s with EmptyString => true | String c s => idChar c && idCharsOK s end.

Definition validID (id : string) : Prop :=
  id <> "" /\ String.length id <= maxIDLen /\ idCharsOK id = true.

Lemma validateID_nil id : validateID id = [] <-> validID id.
Proof.
  unfold validateID, validID.
  destruct (String.eqb_spec id "") as [->|Hne]; [split; [done|by intros [? _]]|].
  destruct (Nat.ltb_spec maxIDLen (String.length id)); [split; [done|intros (_ & ? & _); lia]|].
  assert (Hc : firstBadChar id = None <-> idCharsOK id = true).
  { clear. induction id as [|c id IH]; simpl; [done|]. destruct (idChar c); simpl; [done|].
    by split. }
  destruct (firstBadChar id).
  - split; [done|]. intros (_ & _ & H1). apply Hc in H1. done.
  - split; [|done]. intros _. repeat split; [done|done|]. by apply Hc.
Qed.

Definition validForce (f : force) : Prop :=
  (minTTL <= ttl f)%Z /\ (0 <= swr f)%Z /\ (0 <= sie f)%Z /\
  forall m, status f = Some m -> forall st, st ∈ m -> (100 <= st <= 599)%Z.

Lemma parseStaleWindow_nil field raw w e :
  parseStaleWindow field raw = (w, e) -> e = [] -> (0 <= w)%Z.
Proof.
  unfold parseStaleWindow. intros H ->. repeat split_match_in H; simplify_eq; bool_props; lia.
Qed.

Lemma compileStatus_nil l m st : compileStatus l = (Some m, []) -> st ∈ m -> (100 <= st <= 599)%Z.
Proof.
  unfold compileStatus. destruct l as [|x l]; [done|]. intros [= <- _].
  rewrite elem_of_list_to_set, list_elem_of_In.
  change (List.In st (List.filter statusOK (x :: l)) -> (100 <= st <= 599)%Z).
  intros [_ Hs]%List.filter_In.
  unfold statusOK in Hs. bool_props. lia.
Qed.

Lemma compileForce_valid ov f : compileForce ov = (f, []) -> validForce f.
Proof.
  unfold compileForce.
  destruct (compileTTL (TTL ov)) as [t e1] eqn:H1, (compilePolicy (Policy ov)) as [om e2],
    (parseStaleWindow _ (StaleWhileRevalidate ov)) as [w e3] eqn:H3,
    (parseStaleWindow _ (StaleIfError ov)) as [i e4] eqn:H4,
    (compileStatus (Status ov)) as [m e5] eqn:H5.
  intros [= <- (He1 & He)%app_eq_nil_iff]. rewrite !app_eq_nil_iff in He.
  destruct He as (_ & He3 & He4 & ->).
  split; [|split; [|split]]; simpl; [|by eapply parseStaleWindow_nil..|].
  - unfold compileTTL in H1. repeat split_match_in H1; simplify_eq; by bool_props.
  - intros m' -> st Hst. by eapply compileStatus_nil.
Qed.
(** What an accepted override compiles to. *)
Lemma compile_ok rs ov c n :
  compile NewPredicate rs ov = Ok (c, n) ->
  validID (ID ov) /\ c_id c = ID ov /\ (c_action c = actionCache -> validForce (c_force c)).
Proof.
  unfold compile.
  destruct (compileAction (Action ov)) as [[act actS] e2] eqn:Hact,
    (compileMode (Mode ov)) as [[m mS] e3].
  destruct (match act with actionCache => _ | actionBypass => _ end) as [fc e4] eqn:Hf.
  destruct (compileFilter _ rs _) as [filter e5].
  destruct (_ ++ _) eqn:Herr; [|done]. intros [= <- <-].
  rewrite !app_eq_nil_iff in Herr. destruct Herr as (Hid & _ & _ & -> & _).
  split; [by apply validateID_nil|]. split; [done|]. simpl. intros ->.
  by apply (compileForce_valid ov).
Qed.

(** *** The batch loop *)

Definition isCache (c : rule) : bool := match c_action c with actionCache => true | actionBypass => false end.
Definition isBypass (c : rule) : bool := negb (isCache c).
Definition hasFilter (c : rule) : bool := match c_filter c with Some _ => true | None => false end.

(** The rules an override list compiles to, when all of them do. *)
Definition Compiled (rs : @Ruleset Predicate) (ovs : list Override) (cs : list (rule * Override)) : Prop :=
  Forall2 (fun ov cn => compile NewPredicate rs ov = Ok cn) ovs cs /\ NoDup (c_id <$> cs.*1).

Lemma batchStep_errs rs i ov b : b_errs b <> [] -> b_errs (batchStep NewPredicate rs i ov b) <> [].
Proof.
  unfold batchStep. intros H. repeat split_match; simpl; try done;
    intros [? ?]%app_eq_nil_iff; done.
Qed.

Lemma batchLoop_errs rs i ovs b :
  b_errs b <> [] -> b_errs (batchLoop NewPredicate rs i ovs b) <> [].
Proof. revert i b. induction ovs; simpl; intros; auto using batchStep_errs. Qed.

Definition extend (b : @batch Predicate) (cs : list (rule * Override)) : batch :=
  mkBatch [] (list_to_set (c_id <$> cs.*1) ∪ b_seen b)
    (b_bypass b ++ List.filter isBypass cs.*1) (b_force b ++ List.filter isCache cs.*1)
    (b_source b ++ cs.*2) (b_needsFilter b || existsb hasFilter cs.*1).

Lemma batchStep_ok rs i ov b :
  b_errs b = [] -> b_errs (batchStep NewPredicate rs i ov b) = [] ->
  exists c n, compile NewPredicate rs ov = Ok (c, n) /\ (c_id c ∉ b_seen b) /\
    batchStep NewPredicate rs i ov b = extend b [(c, n)].
Proof.
  unfold batchStep. intros Hb. destruct (compile _ _ _) as [[c n]|e]; simpl.
  - case_decide as Hd; simpl; [by intros [_ [=]]%app_eq_nil_iff|]. intros _.
    exists c, n. split; [done|]. split; [done|]. unfold extend, isBypass, isCache, hasFilter. simpl.
    rewrite Hb, union_empty_r_L, orb_false_r.
    by destruct (c_action c); rewrite ?app_nil_r.
  - by intros [_ [=]]%app_eq_nil_iff.
Qed.

Lemma extend_app b cs1 cs2 : extend (extend b cs1) cs2 = extend b (cs1 ++ cs2).
Proof.
  unfold extend. simpl. rewrite !fmap_app, !List.filter_app, existsb_app, list_to_set_app_L.
  f_equal; [set_solver|by rewrite <- app_assoc..|by rewrite orb_assoc].
Qed.

Lemma batchLoop_ok rs i ovs b :
  b_errs b = [] -> b_errs (batchLoop NewPredicate rs i ovs b) = [] ->
  exists cs, Compiled rs ovs cs /\ (forall x, x ∈ (c_id <$> cs.*1) -> x ∉ b_seen b) /\
    batchLoop NewPredicate rs i ovs b = extend b cs.
Proof.
  revert i b. induction ovs as [|ov ovs IH]; intros i b Hb; simpl.
  - intros _. exists []. split; [split; [constructor|apply NoDup_nil_2]|].
    split; [intros x; simpl; by rewrite elem_of_nil|]. unfold extend. simpl. destruct b. simpl in *. subst.
    by rewrite !app_nil_r, orb_false_r, union_empty_l_L.
  - intros H. assert (Hs : b_errs (batchStep NewPredicate rs i ov b) = []).
    { apply dec_stable. intros He. by eapply batchLoop_errs. }
    destruct (batchStep_ok rs i ov b Hb Hs) as (c & n & Hc & Hfresh & Heq).
    rewrite Heq in H |- *. destruct (IH (S i) (extend b [(c, n)]) eq_refl H) as (cs & [Hcs Hnd] & Hdis & ->).
    simpl in Hdis. exists ((c, n) :: cs). split; [split; [by constructor|]|split; [|apply extend_app]].
    + simpl. apply NoDup_cons. split; [|done]. intros Hin. apply (Hdis _ Hin). set_solver.
    + simpl. intros x [->|Hx]%elem_of_cons; [done|]. specialize (Hdis x Hx). set_solver.
Qed.

Lemma batchStep_compiled rs i ov b c n :
  compile NewPredicate rs ov = Ok (c, n) -> b_errs b = [] -> c_id c ∉ b_seen b ->
  b_errs (batchStep NewPredicate rs i ov b) = [] /\
  b_seen (batchStep NewPredicate rs i ov b) = {[ c_id c ]} ∪ b_seen b.
Proof. unfold batchStep. intros -> Hb Hc. by rewrite decide_False. Qed.

Lemma batchLoop_compiled rs i ovs b cs :
  Compiled rs ovs cs -> b_errs b = [] -> (forall x, x ∈ (c_id <$> cs.*1) -> x ∉ b_seen b) ->
  b_errs (batchLoop NewPredicate rs i ovs b) = [].
Proof.
  intros [Hcs Hnd]. revert i b Hnd.
  induction Hcs as [|ov [c n] ovs cs Hc Hcs IH]; intros i b Hnd Hb Hdis; simpl in *; [done|].
  apply NoDup_cons in Hnd as [Hnew Hnd].
  destruct (batchStep_compiled rs i ov b c n Hc Hb) as [He Hs]; [apply Hdis; by left|].
  apply IH; [done|done|]. intros x Hx. rewrite Hs.
  assert (x <> c_id c) by (by intros ->). specialize (Hdis x). set_solver.
Qed.

(** The set a list of compiled rules is published as. *)
Definition published (cs : list (rule * Override)) : ruleset :=
  mkRuleset (List.filter isBypass cs.*1) (sortByPriority (List.filter isCache cs.*1)) cs.*2
    (existsb hasFilter cs.*1).

Lemma SetOverrides_compiled ovs rs cs :
  Compiled rs ovs cs -> SetOverrides NewPredicate ovs rs = ([], with_set (published cs) rs).
Proof.
  intros Hc. unfold SetOverrides.
  pose proof (batchLoop_compiled rs 0 ovs emptyBatch cs Hc eq_refl) as He.
  rewrite He by (simpl; set_solver).
  destruct (batchLoop_ok rs 0 ovs emptyBatch eq_refl) as (cs' & [Hcs' _] & _ & ->).
  { apply He. simpl; set_solver. }
  assert (cs' = cs) as ->; [|done].
  destruct Hc as [Hc _]. clear He. revert cs Hc. induction Hcs' as [|ov cn ovs cs' Hcn Hcs' IH];
    intros cs Hc; inversion Hc as [|? ? ? ? Hc1 Hc2]; subst; [done|].
  rewrite Hcn in Hc1. injection Hc1 as ->. f_equal. by apply IH.
Qed.

Lemma SetOverrides_cases ovs rs :
  (exists cs, Compiled rs ovs cs /\ SetOverrides NewPredicate ovs rs = ([], with_set (published cs) rs)) \/
  (exists errs, errs <> [] /\ SetOverrides NewPredicate ovs rs = (errs, rs) /\
     forall cs, ~ Compiled rs ovs cs).
Proof.
  destruct (b_errs (batchLoop NewPredicate rs 0 ovs emptyBatch)) as [|e errs] eqn:He.
  - left. destruct (batchLoop_ok rs 0 ovs emptyBatch eq_refl He) as (cs & Hc & _ & _).
    exists cs. split; [done|]. by apply SetOverrides_compiled.
  - right. exists (e :: errs). split; [done|]. split; [unfold SetOverrides; by rewrite He|].
    intros cs Hc. pose proof (batchLoop_compiled rs 0 ovs emptyBatch cs Hc eq_refl) as H.
    rewrite H in He; [done|]. simpl. set_solver.
Qed.

(** *** Normalisation *)

Lemma compileAction_norm a act actS :
  compileAction a = (act, actS, []) -> compileAction actS = (act, actS, []).
Proof.
  unfold compileAction. destruct (String.eqb a "" || String.eqb a "cache") eqn:H1.
  { by intros [= <- <-]. }
  destruct (String.eqb a "bypass") eqn:H2; [|done]. intros [= <- <-]. by rewrite H1, H2.
Qed.

Lemma compileMode_norm m md mS :
  compileMode m = (md, mS, []) -> compileMode mS = (md, mS, []).
Proof.
  unfold compileMode. destruct (String.eqb m "" || String.eqb m "enforce") eqn:H1.
  { by intros [= <- <-]. }
  destruct (String.eqb m "shadow") eqn:H2; [|done]. intros [= <- <-]. by rewrite H1, H2.
Qed.

Lemma compile_normalized rs ov c n :
  compile NewPredicate rs ov = Ok (c, n) -> compile NewPredicate rs n = Ok (c, n).
Proof.
  unfold compile.
  destruct (compileAction (Action ov)) as [[act actS] e2] eqn:Hact,
    (compileMode (Mode ov)) as [[m mS] e3] eqn:Hm.
  destruct (match act with actionCache => _ | actionBypass => _ end) as [fc e4] eqn:Hf.
  destruct (compileFilter _ rs _) as [filter e5] eqn:Hfil.
  destruct (_ ++ _) eqn:Herr; [|done]. intros [= <- <-].
  rewrite !app_eq_nil_iff in Herr. destruct Herr as (Hid & -> & -> & -> & ->).
  cbn [ID Action Mode Filter Priority].
  rewrite (compileAction_norm _ _ _ Hact), (compileMode_norm _ _ _ Hm).
  rewrite trim_space_idem, Hfil, Hid.
  assert (Hfc : forall n', TTL n' = TTL ov -> Policy n' = Policy ov ->
            StaleWhileRevalidate n' = StaleWhileRevalidate ov ->
            StaleIfError n' = StaleIfError ov -> Status n' = Status ov ->
            match act with actionCache => compileForce n' | actionBypass => (noForce, bypassFields n') end
            = (fc, [])).
  { intros n' H1 H2 H3 H4 H5. rewrite <- Hf. unfold compileForce, bypassFields.
    by rewrite H1, H2, H3, H4, H5. }
  rewrite Hfc by done. simpl.
  assert (Hp : forall p, (if ((if (p =? 0) then defaultPriority else p) =? 0)%Z then defaultPriority
                     else if (p =? 0)%Z then defaultPriority else p)
                    = if (p =? 0)%Z then defaultPriority else p).
  { intros p. destruct (p =? 0)%Z eqn:Hp; [done|]. by rewrite Hp. }
  by rewrite !Hp.
Qed.

Lemma Compiled_normalized rs ovs cs : Compiled rs ovs cs -> Compiled rs cs.*2 cs.
Proof.
  intros [Hcs Hnd]. split; [|done]. clear Hnd.
  induction Hcs as [|ov [c n] ovs cs Hc Hcs IH]; simpl; constructor; [|done].
  by apply (compile_normalized rs ov).
Qed.

Lemma compile_with_set rs s ov : compile NewPredicate (with_set s rs) ov = compile NewPredicate rs ov.
Proof. done. Qed.

Lemma Compiled_valid rs ovs cs :
  Compiled rs ovs cs ->
  Forall (fun cn => validID (c_id cn.1) /\
                    (c_action cn.1 = actionCache -> validForce (c_force cn.1))) cs.
Proof.
  intros [Hcs _]. induction Hcs as [|ov [c n] ovs cs Hc Hcs IH]; constructor; [|done].
  simpl. apply compile_ok in Hc as (? & -> & ?). done.
Qed.

End engine.
End CacheRuleLemmas.

(** ** Properties *)

Module CacheRuleProps.
Import CacheRule CacheRuleLemmas.

Section engine.
Context {Predicate Input : Type}.
Context (NewPredicate : Z -> bool -> string -> option Predicate).
Context (unmarshal : string -> option (list Override)).

(** [SetOverrides] is all-or-nothing. It reports no error exactly when every
    override of the batch compiles and the identifiers are distinct; then the
    live set holds exactly those rules (bypass in declaration order, cache rules
    as a permutation sorted by priority), each with a valid identifier, a forced
    TTL of at least a second, non-negative stale windows and statuses in
    100..599. Otherwise the previous set stays live, untouched. *)
Theorem SetOverrides_all_or_nothing ovs rs :
  let '(errs, rs') := SetOverrides NewPredicate ovs rs in
  (errs = [] <-> exists cs, Compiled NewPredicate rs ovs cs) /\
  (errs <> [] -> rs' = rs) /\
  (errs = [] -> exists cs s, Compiled NewPredicate rs ovs cs /\ set rs' = Some s /\
     bypass s = List.filter isBypass cs.*1 /\
     forced s ≡ₚ List.filter isCache cs.*1 /\ StronglySorted prioLe (forced s) /\
     source s = cs.*2 /\
     Forall (fun c => validID (c_id c)) (bypass s ++ forced s) /\
     Forall (fun c => validForce (c_force c)) (forced s)).
Proof.
  destruct (SetOverrides_cases NewPredicate ovs rs) as [(cs & Hc & ->)|(errs & Hne & -> & Hno)].
  - split; [|split; [done|]]; [split; [by eauto|done]|]. intros _.
    exists cs, (published cs). split; [done|]. split; [done|]. split; [done|].
    split; [apply sortByPriority_perm|]. split; [apply sortByPriority_sorted|]. split; [done|].
    apply Compiled_valid in Hc. rewrite Forall_forall in Hc.
    assert (Hv : forall f, Forall (fun c => validID (c_id c) /\
              (c_action c = actionCache -> validForce (c_force c))) (List.filter f cs.*1)).
    { intros f. apply Forall_forall. intros c Hin. apply list_elem_of_In, List.filter_In in Hin as [Hin _].
      apply list_elem_of_In, list_elem_of_fmap in Hin as (cn & -> & Hin). by apply Hc. }
    simpl. split.
    + apply Forall_app. rewrite sortByPriority_perm.
      split; eapply Forall_impl; [apply Hv| |apply Hv|]; naive_solver.
    + rewrite sortByPriority_perm. apply Forall_forall. intros c Hin.
      specialize (Hv isCache). rewrite Forall_forall in Hv. apply (Hv c Hin).
      apply list_elem_of_In, List.filter_In in Hin as [_ Hin]. unfold isCache in Hin.
      by destruct (c_action c).
  - split; [|split; [done|by intros ->]]. split; [by intros ->|]. intros [cs Hc].
    by destruct (Hno cs).
Qed.

(** The normalised source of a live set is a fixed point: feeding
    [Overrides] back into [SetOverrides] is accepted and publishes the same set. *)
Theorem normalized_roundtrip ovs rs rs' :
  SetOverrides NewPredicate ovs rs = ([], rs') ->
  SetOverrides NewPredicate (Overrides rs') rs' = ([], rs').
Proof.
  destruct (SetOverrides_cases NewPredicate ovs rs) as [(cs & Hc & ->)|(errs & Hne & -> & _)];
    [|congruence].
  intros [= <-]. change (Overrides (with_set (published cs) rs)) with cs.*2.
  rewrite (SetOverrides_compiled NewPredicate _ _ cs); [done|].
  by apply (Compiled_normalized NewPredicate rs ovs).
Qed.

(** A request bypasses the cache under a set exactly when some enforced bypass
    rule's filter matches or fails to evaluate; shadow rules and clean
    non-matches never bypass. *)
Theorem MatchBypass_iff (Eval : Predicate -> Input -> option bool) rs i :
  fst (MatchBypass Eval rs i) = true <->
  exists s c, set rs = Some s /\ c ∈ bypass s /\ c_mode c = modeEnforce /\
    filterVerdict Eval c i <> Some false.
Proof.
  unfold MatchBypass. destruct (set rs) as [s|]; [|split; [done|by intros (? & ? & [=] & _)]].
  rewrite bypassLoop_existsb, existsb_exists. unfold bypasses, enforced. split.
  - intros (c & Hin & Hb). exists s, c. bool_props.
    split; [done|]. split; [by apply list_elem_of_In|]. split; [done|].
    by destruct (filterVerdict Eval c i) as [[]|].
  - intros (s' & c & [= <-] & Hin & Hm & Hv). exists c. split; [by apply list_elem_of_In|].
    rewrite Hm. simpl. by destruct (filterVerdict Eval c i) as [[]|].
Qed.

(** The policy forced on a fill is that of the applicable cache rule with the
    least priority number, the earliest declared on a tie (applicable: enforced,
    status in scope, filter cleanly true); the origin is honoured exactly when no
    rule applies. *)
Theorem Force_picks_best (Eval : Predicate -> Input -> option bool) ovs rs cs st i :
  Compiled NewPredicate rs ovs cs ->
  match fst (Force Eval (snd (SetOverrides NewPredicate ovs rs)) st i) with
  | Some f => exists k c, bestRule (applies Eval st i) (List.filter isCache cs.*1) k c /\
                          f = forcedOf c
  | None => Forall (fun c => applies Eval st i c = false) (List.filter isCache cs.*1)
  end.
Proof.
  intros Hc. rewrite (SetOverrides_compiled NewPredicate _ _ cs Hc). unfold Force. simpl.
  rewrite forceLoop_find.
  destruct (List.find _ _) as [c|] eqn:Hf; simpl.
  - apply find_sortByPriority in Hf as [k Hk]. eauto.
  - by rewrite find_none_forall, sortByPriority_perm in Hf.
Qed.

Lemma MatchBypass_errors (Eval Eval' : Predicate -> Input -> option bool) i :
  (forall p, Eval' p i = None \/ Eval' p i = Eval p i) ->
  forall rs, fst (MatchBypass Eval rs i) = true -> fst (MatchBypass Eval' rs i) = true.
Proof.
  intros Herr rs. unfold MatchBypass. destruct (set rs) as [s|]; [|done].
  rewrite !bypassLoop_existsb, !existsb_exists. intros (c & Hin & Hb). exists c. split; [done|].
  unfold bypasses, filterVerdict in *. bool_props. rewrite H. simpl.
  destruct (c_filter c) as [p|]; [|done]. by destruct (Herr p) as [->| ->].
Qed.

Lemma Force_errors (Eval Eval' : Predicate -> Input -> option bool) st i :
  (forall p, Eval' p i = None \/ Eval' p i = Eval p i) ->
  forall rs ov, fst (Force Eval' rs st i) = Some ov ->
    exists s c, set rs = Some s /\ c ∈ forced s /\ applies Eval st i c = true /\ ov = forcedOf c.
Proof.
  intros Herr rs ov. unfold Force. destruct (set rs) as [s|]; [|done].
  rewrite forceLoop_find. destruct (List.find _ _) as [c|] eqn:Hc; [|done]. intros [= <-].
  apply List.find_some in Hc as [Hin Ha]. exists s, c.
  split; [done|]. split; [by apply list_elem_of_In|]. split; [|done].
  unfold applies, filterVerdict in *. bool_props. rewrite H, H1. simpl.
  destruct (c_filter c) as [p|]; [|done]. destruct (Herr p) as [Hp|Hp]; rewrite Hp in *; done.
Qed.

(** C37: filter errors only ever withhold caching at the edge: when an evaluation
    fails where another succeeds (and agrees with it elsewhere), a request still
    cacheable was cacheable without the failures, and a policy that is forced
    comes from an enforced rule in scope whose filter is cleanly true. *)
Theorem errors_never_cache (Eval Eval' : Predicate -> Input -> option bool) resolve e st i :
  (forall p, Eval' p i = None \/ Eval' p i = Eval p i) ->
  (Cacheable Eval' resolve e i = true -> Cacheable Eval resolve e i = true) /\
  (forall ov, OverrideHook Eval' resolve e st i = Some ov ->
     exists rs s c, (rs = global e \/ resolveZone resolve e i = Some rs) /\
       set rs = Some s /\ c ∈ forced s /\ applies Eval st i c = true /\ ov = forcedOf c).
Proof.
  intros Herr.
  pose proof (MatchBypass_errors Eval Eval' i Herr) as Hbyp.
  pose proof (Force_errors Eval Eval' st i Herr) as Hforce.
  split.
  - unfold Cacheable. intros H.
    destruct (fst (MatchBypass Eval (global e) i)) eqn:Hg; [by rewrite Hbyp in H|].
    destruct (fst (MatchBypass Eval' (global e) i)); [done|].
    destruct (resolveZone resolve e i) as [z|]; [|done].
    destruct (fst (MatchBypass Eval z i)) eqn:Hz; [|done]. by rewrite Hbyp in H.
  - intros ov. unfold OverrideHook. destruct (fst (Force Eval' (global e) st i)) as [o|] eqn:Hg.
    + intros [= <-]. destruct (Hforce _ _ Hg) as (s & c & ?). exists (global e), s, c. by split; [left|].
    + destruct (resolveZone resolve e i) as [z|]; [|done]. intros Hz.
      destruct (Hforce _ _ Hz) as (s & c & ?). exists z, s, c. by split; [right|].
Qed.

(** A payload that parses and compiles for an instance. *)
Definition loads (docs : list string) (rs : @Ruleset Predicate) : Prop :=
  exists ovs cs, Parse unmarshal docs = (ovs, 0) /\ Compiled NewPredicate rs ovs cs.

Lemma updateSet_spec docs rs :
  (fst (updateSet NewPredicate unmarshal docs rs) = false <-> loads docs rs) /\
  (fst (updateSet NewPredicate unmarshal docs rs) = true ->
   snd (updateSet NewPredicate unmarshal docs rs) = rs).
Proof.
  unfold updateSet, loads. destruct (Parse unmarshal docs) as [ovs [|n]].
  - destruct (SetOverrides_cases NewPredicate ovs rs) as [(cs & Hc & ->)|(errs & Hne & -> & Hno)].
    + split; [|done]. split; [eauto|done].
    + destruct errs; [done|]. split; [|done]. split; [done|].
      intros (ovs' & cs & [= <-] & Hc). by destruct (Hno cs).
  - split; [|done]. split; [done|]. by intros (? & ? & [=] & _).
Qed.

(** One control-plane payload at the edge: the update is clean exactly when the
    global set and every zone of the payload load; the ETag and the generation
    advance only then (so a rejected payload is fetched again); each set that does
    not load keeps its last good rules while the others are replaced; and zones
    absent from the payload are dropped. *)
Theorem edge_Update_spec gen gdocs zdocs rz et e :
  let '(failed, e') := Update NewPredicate unmarshal gen gdocs zdocs rz et e in
  (failed = false <->
     loads gdocs (global e) /\
     forall key docs, zdocs !! key = Some docs -> loads docs (zoneInstance (zones e) key)) /\
  (etag e', generation e') = (if failed then (etag e, generation e) else (et, gen)) /\
  (~ loads gdocs (global e) -> global e' = global e) /\
  forall key,
    match zdocs !! key with
    | None => zones e' !! key = None
    | Some docs => exists z, zones e' !! key = Some z /\
        (~ loads docs (zoneInstance (zones e) key) -> z = zoneInstance (zones e) key)
    end.
Proof.
  unfold Update. destruct (updateSet _ _ gdocs (global e)) as [gerr g] eqn:Hg.
  pose proof (updateSet_spec gdocs (global e)) as [Hg1 Hg2]. rewrite Hg in Hg1, Hg2. simpl in *.
  set (zs := updateZones _ _ _ _).
  assert (Hzs : forall key, zs !! key =
            (fun docs => updateSet NewPredicate unmarshal docs (zoneInstance (zones e) key))
              <$> (zdocs !! key)).
  { intros key. unfold zs, updateZones. rewrite map_lookup_imap. by destruct (zdocs !! key). }
  split; [|split; [by destruct (gerr || anyError zs)|split]].
  - rewrite orb_false_iff, Hg1. unfold anyError. rewrite existsb_false_forall, Forall_forall.
    split; intros [? H]; (split; [done|]).
    + intros key docs Hk. apply updateSet_spec.
      apply (H (key, updateSet NewPredicate unmarshal docs (zoneInstance (zones e) key))).
      apply elem_of_map_to_list. by rewrite Hzs, Hk.
    + intros [key [b z]] Hin%elem_of_map_to_list. rewrite Hzs in Hin.
      destruct (zdocs !! key) as [docs|] eqn:Hk; [|done]. simpl in *.
      pose proof (updateSet_spec docs (zoneInstance (zones e) key)) as [[_ Hok] _].
      injection Hin as Hin. rewrite Hin in Hok. by apply Hok, H.
  - intros Hno. apply Hg2. destruct gerr; [done|]. by destruct Hno, Hg1; auto.
  - intros key. simpl. rewrite lookup_fmap, Hzs. destruct (zdocs !! key) as [docs|]; [|done]. simpl.
    eexists. split; [done|]. intros Hno.
    pose proof (updateSet_spec docs (zoneInstance (zones e) key)) as [[Hok _] Hbad].
    apply Hbad. destruct (fst _); [done|]. by destruct Hno; auto.
Qed.

End engine.
(** A toy predicate engine: a filter is a path to match, "bad" does not compile and
    "err" fails at run time. *)
Definition toyNew (_ : Z) (_ : bool) (f : string) : option string :=
  if String.eqb f "bad" then None else Some f.
Definition toyEval (p i : string) : option bool :=
  if String.eqb p "err" then None else Some (String.eqb p i).
Definition toyEval' (p i : string) : option bool := None.

Definition exCache (id filter policy : string) (prio : Z) : Override :=
  mkOverride id "" filter "30s" policy "" "" [200%Z] "" prio.
Definition exBatch : list Override :=
  [exCache "a" "/x" "" 0; exCache "b" "" "aggressive" 50; exCache "c" "" "conservative" 50;
   mkOverride "d" "bypass" " err " "" "" "" "" [] "shadow" 0].
Definition exSet : @Ruleset string := snd (SetOverrides toyNew exBatch (newRuleset "global")).

Lemma normalized_roundtrip_witness : SetOverrides toyNew (Overrides exSet) exSet = ([], exSet).
Proof.
  apply (normalized_roundtrip toyNew exBatch (newRuleset "global") exSet).
  vm_compute. reflexivity.
Defined.

Lemma Force_picks_best_witness :
  match fst (Force toyEval exSet 200 "/x") with
  | Some f => exists k c, bestRule (applies toyEval 200 "/x")
        (List.filter isCache
           (omap (fun ov => match compile toyNew (newRuleset "global") ov with
                            | Ok cn => Some cn | Err _ => None end) exBatch).*1) k c /\
        f = forcedOf c
  | None => False
  end.
Proof.
  apply (Force_picks_best toyNew toyEval exBatch (newRuleset "global") _ 200 "/x").
  split; [|by apply (bool_decide_eq_true_1 _); vm_compute].
  repeat (apply Forall2_cons; split; [vm_compute; reflexivity|]). apply Forall2_nil_2.
Defined.

Lemma errors_never_cache_witness :
  let e := mkEdge exSet ∅ ∅ 0 "" in
  let resolve := fun (_ : gmap string string) (_ : string) => @None string in
  (Cacheable toyEval' resolve e "/x" = true -> Cacheable toyEval resolve e "/x" = true) /\
  (forall ov, OverrideHook toyEval' resolve e 200 "/x" = Some ov ->
     exists rs s c, (rs = global e \/ resolveZone resolve e "/x" = Some rs) /\
       set rs = Some s /\ c ∈ forced s /\ applies toyEval 200 "/x" c = true /\ ov = forcedOf c).
Proof.
  intros e resolve. apply (errors_never_cache toyEval toyEval' resolve e 200 "/x").
  by left.
Defined.

End CacheRuleProps.
