(* ===== verification/RateLimit.v ===== *)
(** * Rate limits

    Models [src/ratelimitrule]: parsing and validation of limits, the hot swap
    that carries live counters over, the request path, the bucket key and the
    sliding-window strategy.

    Third-party code is a parameter: the WAF predicate engine, the YAML decoder
    and parapet's fixed-window strategy (its state and two operations).  The
    textual address and prefix parsers of [net/netip] are parameters too; the
    addresses they produce, prefix containment and the per-/64 aggregation are
    written out.  Counters live behind pointers, so a strategy carried from one
    set to the next is shared with the requests still running on the old set:
    the model keeps an explicit heap of strategies.  Every floating-point operation is
    rounded by itself: the fused multiply-add that a compiler may emit on some
    architectures is not modelled. *)

From S2P Require Import Prelude GoString GoTime.

Set Default Proof Using "Type".

(** ** The sliding window *)

Module SlidingWindow.

Record slidingWindowStrategy := mkSW {
  window : Z;
  cur : gmap string Z;
  prev : gmap string Z;
  max : Z;
  size : Z;
}.

Definition newSlidingWindow (rate window : Z) : slidingWindowStrategy :=
  mkSW 0 ∅ ∅ rate window.

(** A missing map key reads as zero. *)
Definition count (m : gmap string Z) (key : string) : Z := default 0%Z (m !! key).

Definition roll (currentWindow : Z) (s : slidingWindowStrategy) : slidingWindowStrategy :=
  let d := (currentWindow - window s)%Z in
  if (d <=? 0)%Z then s
  else if (d =? 1)%Z then mkSW currentWindow ∅ (cur s) (max s) (size s)
  else mkSW currentWindow ∅ ∅ (max s) (size s).

Definition f1 : f64 := f64_of_Z 1.

Definition weightedCount (prev cur now size : Z) : f64 :=
  let elapsed := f64_div (f64_of_Z (Z.rem now size)) (f64_of_Z size) in
  f64_add (f64_mul (f64_of_Z prev) (f64_sub f1 elapsed)) (f64_of_Z cur).

(** [a > b] and [a <= b] of the language: false on an unordered pair. *)
Definition f64_gt (a b : f64) : bool := SpecFloat.SFltb b a.
Definition f64_lt (a b : f64) : bool := SpecFloat.SFltb a b.
Definition f64_le (a b : f64) : bool := SpecFloat.SFleb a b.

Definition Take (now : Z) (key : string) (s : slidingWindowStrategy) :
    bool * slidingWindowStrategy :=
  let s := roll (Z.quot now (size s)) s in
  let p := count (prev s) key in
  let c := count (cur s) key in
  if f64_gt (f64_add (weightedCount p c now (size s)) f1) (f64_of_Z (max s))
  then (false, s)
  else (true, mkSW (window s) (<[key := (c + 1)%Z]> (cur s)) (prev s) (max s) (size s)).

Definition afterAt (maxTokens prev cur size now : Z) : Z :=
  if f64_le (f64_add (weightedCount prev cur now size) f1) (f64_of_Z maxTokens) then 0%Z
  else
    let curFrac := f64_div (f64_of_Z (Z.rem now size)) (f64_of_Z size) in
    let toBoundary := ((Z.quot now size + 1) * size - now)%Z in
    let late :=
      if (cur + 1 <=? maxTokens)%Z then toBoundary
      else if (maxTokens <=? 0)%Z then toBoundary
      else
        let nextFrac := f64_sub f1 (f64_div (f64_sub (f64_of_Z maxTokens) f1) (f64_of_Z cur)) in
        (toBoundary + f64_to_Z (f64_mul nextFrac (f64_of_Z size)) + 1)%Z in
    if ((0 <? prev) && (cur + 1 <=? maxTokens))%Z then
      let targetFrac :=
        f64_sub f1 (f64_div (f64_sub (f64_sub (f64_of_Z maxTokens) (f64_of_Z cur)) f1)
                      (f64_of_Z prev)) in
      if f64_gt targetFrac curFrac && f64_lt targetFrac f1
      then (f64_to_Z (f64_mul (f64_sub targetFrac curFrac) (f64_of_Z size)) + 1)%Z
      else late
    else late.

(** The two counts [After] reads, rolled on locals. *)
Definition afterCounts (currentWindow : Z) (key : string) (s : slidingWindowStrategy) : Z * Z :=
  let d := (currentWindow - window s)%Z in
  if (d <=? 0)%Z then (count (prev s) key, count (cur s) key)
  else if (d =? 1)%Z then (count (cur s) key, 0%Z)
  else (0%Z, 0%Z).

Definition After (now : Z) (key : string) (s : slidingWindowStrategy) : Z :=
  let (p, c) := afterCounts (Z.quot now (size s)) key s in
  afterAt (max s) p c (size s) now.

(** *** Reference: a log of admissions

    The specification remembers every admitted request with the window it
    counted into (never earlier than the latest window seen) and looks the two
    relevant counts up. *)

Record log := mkLog { seen : Z; admits : list (Z * string) }.

Definition logCount (w : Z) (key : string) (l : list (Z * string)) : Z :=
  Z.of_nat (countb (fun e => (fst e =? w)%Z && String.eqb (snd e) key) l).

Definition specTake (mx sz now : Z) (key : string) (l : log) : bool * log :=
  let w := Z.max (seen l) (Z.quot now sz) in
  let p := logCount (w - 1) key (admits l) in
  let c := logCount w key (admits l) in
  if f64_gt (f64_add (weightedCount p c now sz) f1) (f64_of_Z mx)
  then (false, mkLog w (admits l))
  else (true, mkLog w ((w, key) :: admits l)).

Definition specAfter (mx sz now : Z) (key : string) (l : log) : Z :=
  let w := Z.max (seen l) (Z.quot now sz) in
  afterAt mx (logCount (w - 1) key (admits l)) (logCount w key (admits l)) sz now.

Inductive call := CTake (now : Z) (key : string) | CAfter (now : Z) (key : string).
Inductive answer := ATake (admitted : bool) | AAfter (wait : Z).

Fixpoint runCalls (cs : list call) (s : slidingWindowStrategy) :
    list answer * slidingWindowStrategy :=
  match cs with
  | [] => ([], s)
  | CTake t k :: cs =>
      let (b, s') := Take t k s in
      let (r, s'') := runCalls cs s' in (ATake b :: r, s'')
  | CAfter t k :: cs =>
      let (r, s') := runCalls cs s in (AAfter (After t k s) :: r, s')
  end.

Fixpoint runSpec (mx sz : Z) (cs : list call) (l : log) : list answer * log :=
  match cs with
  | [] => ([], l)
  | CTake t k :: cs =>
      let (b, l') := specTake mx sz t k l in
      let (r, l'') := runSpec mx sz cs l' in (ATake b :: r, l'')
  | CAfter t k :: cs =>
      let (r, l') := runSpec mx sz cs l in (AAfter (specAfter mx sz t k l) :: r, l')
  end.

(** The generations are the log seen through the last two windows. *)
Record Repr (s : slidingWindowStrategy) (l : log) : Prop := {
  repr_window : window s = seen l;
  repr_cur k : count (cur s) k = logCount (seen l) k (admits l);
  repr_prev k : count (prev s) k = logCount (seen l - 1) k (admits l);
  repr_past : Forall (fun e => (fst e <= seen l)%Z) (admits l);
}.

Lemma logCount_future w k n l :
  Forall (fun e => (fst e <= n)%Z) l -> (n < w)%Z -> logCount w k l = 0%Z.
Proof.
  unfold logCount. induction 1 as [|e l He Hl IH]; intros Hw; simpl; [done|].
  destruct (fst e =? w)%Z eqn:Hew; bool_props; simpl; [lia|]. by apply IH.
Qed.

Lemma logCount_cons w k e l :
  logCount w k (e :: l) =
  ((if (fst e =? w)%Z && String.eqb (snd e) k then 1 else 0) + logCount w k l)%Z.
Proof. unfold logCount. simpl. destruct (_ && _); lia. Qed.

Lemma count_empty k : count ∅ k = 0%Z.
Proof. unfold count. by rewrite lookup_empty. Qed.

Lemma Repr_roll w s l :
  Repr s l -> Repr (roll w s) (mkLog (Z.max (seen l) w) (admits l)).
Proof.
  intros [Hw Hc Hp Hl]. unfold roll.
  destruct (w - window s <=? 0)%Z eqn:H1; bool_props.
  { rewrite Z.max_l by lia. by split. }
  assert (Hl' : Forall (fun e : Z * string => (fst e <= w)%Z) (admits l)).
  { eapply Forall_impl; [exact Hl|]. simpl. intros. lia. }
  rewrite Z.max_r by lia.
  destruct (w - window s =? 1)%Z eqn:H2; bool_props; split; simpl; try done; intros k;
    rewrite ?count_empty.
  - symmetry. apply (logCount_future _ _ (seen l)); [exact Hl|lia].
  - replace (w - 1)%Z with (seen l) by lia. apply Hc.
  - symmetry. apply (logCount_future _ _ (seen l)); [exact Hl|lia].
  - symmetry. apply (logCount_future _ _ (seen l)); [exact Hl|lia].
Qed.

Lemma roll_params w s : max (roll w s) = max s /\ size (roll w s) = size s.
Proof. unfold roll. by repeat case_match. Qed.

Lemma Take_params t k s :
  max (snd (Take t k s)) = max s /\ size (snd (Take t k s)) = size s.
Proof.
  unfold Take. destruct (roll_params (Z.quot t (size s)) s) as [H1 H2].
  set (s1 := roll _ s) in *. cbn zeta. destruct (f64_gt _ _); simpl; by rewrite H1, H2.
Qed.

Lemma Repr_Take now k s l :
  Repr s l ->
  fst (Take now k s) = fst (specTake (max s) (size s) now k l) /\
  Repr (snd (Take now k s)) (snd (specTake (max s) (size s) now k l)) /\
  max (snd (Take now k s)) = max s /\ size (snd (Take now k s)) = size s.
Proof.
  intros HR. apply (Repr_roll (Z.quot now (size s))) in HR. unfold Take, specTake.
  destruct (roll_params (Z.quot now (size s)) s) as [Hmax Hsize].
  set (s1 := roll _ s) in *. set (w := Z.max _ _) in *. destruct HR as [Hw Hc Hp Hl]. simpl in *.
  rewrite Hmax, Hsize, Hc, Hp.
  destruct (f64_gt _ _); simpl; (split; [done|]); (split; [|done]); split; simpl; try done.
  - intros k'. rewrite logCount_cons. simpl. rewrite Z.eqb_refl. simpl. unfold count.
    destruct (String.eqb_spec k k') as [->|Hne].
    + rewrite lookup_insert_eq. simpl. lia.
    + rewrite lookup_insert_ne by done. rewrite <- Hc. done.
  - intros k'. rewrite logCount_cons. simpl. rewrite (proj2 (Z.eqb_neq _ _)) by lia.
    simpl. apply Hp.
  - constructor; [simpl; lia|done].
Qed.

Lemma After_spec now k s l :
  Repr s l -> After now k s = specAfter (max s) (size s) now k l.
Proof.
  intros HR. unfold After, specAfter, afterCounts.
  destruct HR as [Hw Hc Hp Hl]. set (w := Z.quot now (size s)).
  destruct (w - window s <=? 0)%Z eqn:H1; bool_props.
  { rewrite Z.max_l by lia. by rewrite Hc, Hp. }
  rewrite Z.max_r by lia. rewrite (logCount_future w k (seen l)) by (exact Hl || lia).
  destruct (w - window s =? 1)%Z eqn:H2; bool_props.
  - replace (w - 1)%Z with (seen l) by lia. by rewrite Hc.
  - by rewrite (logCount_future (w - 1) k (seen l)) by (exact Hl || lia).
Qed.

End SlidingWindow.

(** ** Limits *)

Module RateLimit.

(** *** Addresses ([netip.Addr], [netip.Prefix]) *)

Inductive Addr := V4 (a : Z) | V6 (a : Z).
Record Prefix := mkPrefix { p_addr : Addr; p_bits : Z }.

(** 4-in-6 addresses fold onto IPv4. *)
Definition Unmap (a : Addr) : Addr :=
  match a with
  | V4 _ => a
  | V6 x => if (Z.shiftr x 32 =? 65535)%Z then V4 (Z.land x (2 ^ 32 - 1)) else a
  end.

Definition Contains (p : Prefix) (a : Addr) : bool :=
  match p_addr p, a with
  | V4 x, V4 y => (Z.shiftr (Z.lxor x y) (32 - p_bits p) =? 0)%Z
  | V6 x, V6 y => (Z.shiftr (Z.lxor x y) (128 - p_bits p) =? 0)%Z
  | _, _ => false
  end.

(** The [n] low bytes of an integer, most significant first. *)
Fixpoint bytesBE (n : nat) (x : Z) (acc : string) : string :=
  match n with
  | O => acc
  | S n => bytesBE n (Z.shiftr x 8) (String (ascii_of_nat (Z.to_nat (Z.land x 255))) acc)
  end.

(** *** Data *)

Definition minWindow : Z := second.
Definition maxWindow : Z := hour.
Definition maxIDLen : nat := 63.
Definition acmeChallengePrefix : string := "/.well-known/acme-challenge".
Definition collapsedHost : string := "other".
Definition maxKeyPartLen : nat := 128.
Definition defaultStatus : Z := 429.
Definition statusServiceUnavailable : Z := 503.
Definition defaultMessage : string := "Too Many Requests".

Inductive keyKind := keyIP | keyHost | keyASN | keyCountry | keyHeader | keyCookie.
Record keyPart := mkPart { kind : keyKind; name : string }.
Inductive mode := modeEnforce | modeShadow.

#[global] Instance keyKind_eq_dec : EqDecision keyKind.
Proof. solve_decision. Defined.
#[global] Instance mode_eq_dec : EqDecision mode.
Proof. solve_decision. Defined.

Record Limit := mkLimit {
  ID : string;
  Key : list string;
  Rate : Z;
  Window : string;
  Algorithm : string;
  Mode : string;
  Status : Z;
  Message : string;
  Exclude : list string;
  Filter : string;
}.

Inductive limitError :=
| EIDRequired | EIDTooLong | EIDChar (c : ascii)
| ESuffix (k : string) | EUnknownKey (k : string) | EDupKey (k : string)
| ENoASN | ENoCountry | ENoName | ENameChar (c : ascii)
| ERate | EWindowRequired | EWindowInvalid | EWindowBounds (d : Z)
| EAlgorithm (a : string) | EMode (m : string) | EStatus (s : Z)
| EExclude (c : string) | EFilter | EDuplicate.

Definition idChar (c : ascii) : bool :=
  let n := nat_of_ascii c in
  ((97 <=? n) && (n <=? 122) || (65 <=? n) && (n <=? 90) || (48 <=? n) && (n <=? 57)
   || (n =? 45) || (n =? 95) || (n =? 46))%nat.

(** HTTP token characters. *)
Definition tokenChar (c : ascii) : bool :=
  let n := nat_of_ascii c in
  ((97 <=? n) && (n <=? 122) || (65 <=? n) && (n <=? 90) || (48 <=? n) && (n <=? 57))%nat
  || mem_char c "!#$%&'*+-.^_`|~".

Fixpoint firstBad (p : ascii -> bool) (s : string) : option ascii :=
  match s with
  | EmptyString => None
  | String c s => if p c then firstBad p s else Some c
  end.

Definition validateID (id : string) : list limitError :=
  if String.eqb id "" then [EIDRequired]
  else if (maxIDLen <? String.length id)%nat then [EIDTooLong]
  else match firstBad idChar id with Some c => [EIDChar c] | None => [] end.

Definition validateFieldName (n : string) : list limitError :=
  if String.eqb n "" then [ENoName]
  else match firstBad tokenChar n with Some c => [ENameChar c] | None => [] end.

(** A request, as far as this package looks at it. [headerGet] is
    [Header.Get]; [cookieList] is [Cookies]. *)
Record Request := mkRequest {
  RequestURI : string;
  Host : string;
  XRealIP : string;
  headerGet : string -> string;
  cookieList : list (string * string);
}.

(** *** Bucket keys *)

Definition truncPart (v : string) : string :=
  if (maxKeyPartLen <? String.length v)%nat then str_take maxKeyPartLen v else v.

Definition ipKey (addr : option Addr) (rawIP : string) : string :=
  match addr with
  | None => rawIP
  | Some (V4 a) => bytesBE 4 a ""
  | Some (V6 a) => bytesBE 16 (Z.shiftl (Z.shiftr a 64) 64) ""
  end.

Definition hostKey (host : string) (knownHost : option (string -> bool)) : string :=
  match knownHost with
  | Some known => if known host then host else collapsedHost
  | None => host
  end.

(** Cookies by name, the first occurrence winning. *)
Definition cookieMap (l : list (string * string)) : gmap string string :=
  fold_left (fun m kv => match m !! kv.1 with Some _ => m | None => <[kv.1 := kv.2]> m end) l ∅.

Definition newline : string := String (ascii_of_nat 10) "".

(** [strings.Join]-like composition with newlines. *)
Fixpoint joinParts (vs : list string) : string :=
  match vs with
  | [] => ""
  | [v] => v
  | v :: vs => v +:+ newline +:+ joinParts vs
  end.

Definition joinComma (l : list string) : string :=
  match l with
  | [] => ""
  | x :: l => fold_left (fun acc y => acc +:+ "," +:+ y) l x
  end.

Section engine.
Context {Predicate Input FixedState : Type}.
Context (NewPredicate : Z -> bool -> string -> option Predicate).
Context (Eval : Predicate -> Input -> option bool).
Context (NewInput : Request -> string -> Z -> Input).
Context (unmarshal : string -> option (list Limit)).
Context (ParseAddr : string -> option (Addr * string)).
Context (ParsePrefix : string -> option Prefix).
(** [ratelimit.FixedWindowStrategy]: its zero state, [Take] and [After] under
    [Max] and [Size]. *)
Context (fixedNew : FixedState).
Context (fixedTake : Z -> Z -> Z -> string -> FixedState -> bool * FixedState).
Context (fixedAfter : Z -> Z -> Z -> string -> FixedState -> Z).

Inductive Strategy :=
| Fixed (fMax fSize : Z) (st : FixedState)
| Sliding (s : SlidingWindow.slidingWindowStrategy).

Definition sTake (now : Z) (key : string) (s : Strategy) : bool * Strategy :=
  match s with
  | Fixed m sz st => let (b, st') := fixedTake m sz now key st in (b, Fixed m sz st')
  | Sliding s => let (b, s') := SlidingWindow.Take now key s in (b, Sliding s')
  end.

Definition sAfter (now : Z) (key : string) (s : Strategy) : Z :=
  match s with
  | Fixed m sz st => fixedAfter m sz now key st
  | Sliding s => SlidingWindow.After now key s
  end.

(** [strategy] is the pointer. *)
Record compiledLimit := mkCompiled {
  id : string;
  keyParts : list keyPart;
  strategy : nat;
  c_mode : mode;
  c_status : Z;
  c_message : string;
  c_exclude : list Prefix;
  c_observe : option string;
  c_filter : option Predicate;
  cfgKey : string;
}.

Record set_ := mkSet {
  limits : list compiledLimit;
  source : list Limit;
  needsIP : bool;
  needsCookie : bool;
  needsFilter : bool;
  knownHost : option (string -> bool);
  country : option (Request -> string);
  asn : option (Request -> Z);
}.

Record Limiter := mkLimiter {
  live : option set_;
  heap : gmap nat Strategy;
  next : nat;
  NamePrefix : string;
  Observe : bool;
  KnownHost : option (string -> bool);
  Country : option (Request -> string);
  ASN : option (Request -> Z);
  FilterCostLimit : Z;
  FilterDisableMacros : bool;
}.

Definition Limits (l : Limiter) : list Limit :=
  match live l with None => [] | Some s => source s end.
Definition IDs (l : Limiter) : list string :=
  match live l with None => [] | Some s => id <$> limits s end.

(** *** Validation *)

Record keyAcc := mkAcc { k_parts : list keyPart; k_norm : list string; k_errs : list limitError }.

Definition addKey (norm : string) (p : keyPart) (a : keyAcc) : keyAcc :=
  if decide (norm ∈ k_norm a) then mkAcc (k_parts a) (k_norm a) (k_errs a ++ [EDupKey norm])
  else mkAcc (k_parts a ++ [p]) (k_norm a ++ [norm]) (k_errs a).

Definition keyErr (es : list limitError) (a : keyAcc) : keyAcc :=
  mkAcc (k_parts a) (k_norm a) (k_errs a ++ es).

Definition namedKey (prefix norm name : string) (knd : keyKind) (a : keyAcc) : keyAcc :=
  match validateFieldName name with
  | [] => addKey (prefix +:+ ":" +:+ norm) (mkPart knd name) a
  | es => keyErr es a
  end.

Definition compileKey (l : Limiter) (spec : string) (a : keyAcc) : keyAcc :=
  let '(k, nm, hasName) :=
    match index_byte c_colon spec with
    | Some i => (str_take i spec, str_drop (S i) spec, true)
    | None => (spec, "", false)
    end in
  if hasName && negb (String.eqb k "header" || String.eqb k "cookie") then keyErr [ESuffix k] a
  else if String.eqb k "" || String.eqb k "ip" then addKey "ip" (mkPart keyIP "") a
  else if String.eqb k "host" then addKey "host" (mkPart keyHost "") a
  else if String.eqb k "ip-host" then
    addKey "host" (mkPart keyHost "") (addKey "ip" (mkPart keyIP "") a)
  else if String.eqb k "asn" then
    match ASN l with Some _ => addKey "asn" (mkPart keyASN "") a | None => keyErr [ENoASN] a end
  else if String.eqb k "country" then
    match Country l with
    | Some _ => addKey "country" (mkPart keyCountry "") a
    | None => keyErr [ENoCountry] a
    end
  else if String.eqb k "header" then namedKey "header" (to_lower nm) nm keyHeader a
  else if String.eqb k "cookie" then namedKey "cookie" nm nm keyCookie a
  else keyErr [EUnknownKey k] a.

Definition compileKeys (l : Limiter) (keys : list string) : keyAcc :=
  fold_left (fun a k => compileKey l k a) (match keys with [] => ["ip"] | _ => keys end)
    (mkAcc [] [] []).

(** The window in nanoseconds and its normalised spelling. *)
Definition compileWindow (w : string) : Z * string * list limitError :=
  if String.eqb (trim_space w) "" then (0%Z, w, [EWindowRequired])
  else match ParseDuration w with
       | None => (0%Z, w, [EWindowInvalid])
       | Some d => if ((d <? minWindow) || (maxWindow <? d))%Z then (0%Z, w, [EWindowBounds d])
                   else (d, durationString d, [])
       end.

Definition compileAlgorithm (a : string) : string * list limitError :=
  if String.eqb a "" || String.eqb a "fixed" then ("fixed", [])
  else if String.eqb a "sliding" then (a, []) else (a, [EAlgorithm a]).

Definition compileMode (m : string) : mode * string * list limitError :=
  if String.eqb m "" || String.eqb m "enforce" then (modeEnforce, "enforce", [])
  else if String.eqb m "shadow" then (modeShadow, m, []) else (modeEnforce, m, [EMode m]).

Definition compileStatus (s : Z) : Z * list limitError :=
  if ((s =? 0) || (s =? defaultStatus))%Z then (defaultStatus, [])
  else if (s =? statusServiceUnavailable)%Z then (s, []) else (s, [EStatus s]).

Definition compileExclude (cidrs : list string) : list Prefix * list limitError :=
  fold_right (fun c acc => match ParsePrefix (trim_space c) with
                           | Some p => (p :: fst acc, snd acc)
                           | None => (fst acc, EExclude c :: snd acc)
                           end) ([], []) cidrs.

Definition compileFilter (l : Limiter) (f : string) : option Predicate * list limitError :=
  if String.eqb f "" then (None, [])
  else match NewPredicate (FilterCostLimit l) (FilterDisableMacros l) f with
       | Some p => (Some p, [])
       | None => (None, [EFilter])
       end.

Definition cfgKeyOf (keys : list string) (alg : string) (rate : Z) (window : string) : string :=
  joinComma keys +:+ "|" +:+ alg +:+ "|" +:+ itoa rate +:+ "|" +:+ window.

(** The compiled limit (pointing at [ptr]), its strategy, and the normalised
    source. *)
Definition compileLimit (l : Limiter) (ptr : nat) (lim : Limit) :
    result (list limitError) (compiledLimit * Strategy * Limit) :=
  let e1 := validateID (ID lim) in
  let ka := compileKeys l (Key lim) in
  let e3 := if (Rate lim <=? 0)%Z then [ERate] else [] in
  let '(window, winS, e4) := compileWindow (Window lim) in
  let (alg, e5) := compileAlgorithm (Algorithm lim) in
  let '(m, mS, e6) := compileMode (Mode lim) in
  let (st, e7) := compileStatus (Status lim) in
  let msg := if String.eqb (Message lim) "" then defaultMessage else Message lim in
  let (ex, e8) := compileExclude (Exclude lim) in
  let fS := trim_space (Filter lim) in
  let (f, e9) := compileFilter l fS in
  match e1 ++ k_errs ka ++ e3 ++ e4 ++ e5 ++ e6 ++ e7 ++ e8 ++ e9 with
  | [] =>
      Ok (mkCompiled (ID lim) (k_parts ka) ptr m st msg ex
            (if Observe l then Some (NamePrefix l +:+ ":" +:+ ID lim) else None) f
            (cfgKeyOf (k_norm ka) alg (Rate lim) winS),
          (if String.eqb alg "sliding" then Sliding (SlidingWindow.newSlidingWindow (Rate lim) window)
           else Fixed (Rate lim) window fixedNew),
          mkLimit (ID lim) (k_norm ka) (Rate lim) winS alg mS st msg (Exclude lim) fS)
  | errs => Err errs
  end.

(** *** The hot swap *)

Record batch := mkBatch {
  b_errs : list (nat * list limitError);
  b_compiled : list compiledLimit;
  b_source : list Limit;
  b_heap : gmap nat Strategy;
  b_next : nat;
}.

Definition batchStep (l : Limiter) (i : nat) (lim : Limit) (b : batch) : batch :=
  match compileLimit l (b_next b) lim with
  | Err e => mkBatch (b_errs b ++ [(i, e)]) (b_compiled b) (b_source b) (b_heap b) (b_next b)
  | Ok (c, st, norm) =>
      if decide (id c ∈ (id <$> b_compiled b))
      then mkBatch (b_errs b ++ [(i, [EDuplicate])]) (b_compiled b) (b_source b) (b_heap b) (b_next b)
      else mkBatch (b_errs b) (b_compiled b ++ [c]) (b_source b ++ [norm])
             (<[b_next b := st]> (b_heap b)) (S (b_next b))
  end.

Fixpoint batchLoop (l : Limiter) (i : nat) (lims : list Limit) (b : batch) : batch :=
  match lims with
  | [] => b
  | lim :: lims => batchLoop l (S i) lims (batchStep l i lim b)
  end.

Definition with_strategy (p : nat) (c : compiledLimit) : compiledLimit :=
  mkCompiled (id c) (keyParts c) p (c_mode c) (c_status c) (c_message c) (c_exclude c)
    (c_observe c) (c_filter c) (cfgKey c).

(** The old limit of the same identifier, the last one when the map is built. *)
Definition oldLimit (old : list compiledLimit) (i : string) : option compiledLimit :=
  List.find (fun o => String.eqb (id o) i) (rev old).

Definition carry (old : list compiledLimit) (c : compiledLimit) : compiledLimit :=
  match oldLimit old (id c) with
  | Some o => if String.eqb (cfgKey o) (cfgKey c) then with_strategy (strategy o) c else c
  | None => c
  end.

Definition hasKind (k : keyKind) (c : compiledLimit) : bool :=
  existsb (fun p => bool_decide (kind p = k)) (keyParts c).

Definition mkLive (l : Limiter) (compiled : list compiledLimit) (src : list Limit) : set_ :=
  mkSet compiled src
    (existsb (fun c => match c_exclude c with [] => false | _ => true end || hasKind keyIP c) compiled)
    (existsb (hasKind keyCookie) compiled)
    (existsb (fun c => match c_filter c with Some _ => true | None => false end) compiled)
    (KnownHost l) (Country l) (ASN l).

Definition SetLimits (lims : list Limit) (l : Limiter) : list (nat * list limitError) * Limiter :=
  let b := batchLoop l 0 lims (mkBatch [] [] [] (heap l) (next l)) in
  match b_errs b with
  | [] =>
      let old := match live l with Some cur => limits cur | None => [] end in
      let compiled := carry old <$> b_compiled b in
      ([], mkLimiter (Some (mkLive l compiled (b_source b))) (b_heap b) (b_next b)
             (NamePrefix l) (Observe l) (KnownHost l) (Country l) (ASN l)
             (FilterCostLimit l) (FilterDisableMacros l))
  | errs => (errs, l)
  end.

(** *** The request path *)

Definition partValue (s : set_) (r : Request) (addr : option Addr) (rawIP : string)
    (cookies : gmap string string) (p : keyPart) : string :=
  match kind p with
  | keyHost => hostKey (Host r) (knownHost s)
  | keyASN => match asn s with Some f => itoa (f r) | None => "" end
  | keyCountry => match country s with Some f => f r | None => "" end
  | keyHeader => truncPart (headerGet r (name p))
  | keyCookie => truncPart (default "" (cookies !! name p))
  | keyIP => ipKey addr rawIP
  end.

Definition bucketKey (s : set_) (lim : compiledLimit) (r : Request) (addr : option Addr)
    (rawIP : string) (cookies : gmap string string) : string :=
  match keyParts lim with
  | [p] => partValue s r addr rawIP cookies p
  | ps => joinParts (partValue s r addr rawIP cookies <$> ps)
  end.

Definition skip (lim : compiledLimit) (addr : option Addr) : bool :=
  match addr with
  | None => false
  | Some a => existsb (fun p => Contains p a) (c_exclude lim)
  end.

Definition inputOf (s : set_) (r : Request) : Input :=
  NewInput r (match country s with Some f => f r | None => "" end)
    (match asn s with Some f => f r | None => 0%Z end).

(** Whether the limit is evaluated for the request: not excluded, and its filter
    cleanly true (an error fails open). *)
Definition inScope (s : set_) (r : Request) (addr : option Addr) (lim : compiledLimit) : bool :=
  negb (skip lim addr) &&
  match c_filter lim with
  | None => true
  | Some p => match Eval p (inputOf s r) with Some true => true | _ => false end
  end.

Inductive outcome :=
| Passed
| Rejected (status : Z) (message : string) (retryAfter : option Z).

Inductive event := Allowed (label : string) | Limited (label : string).

Definition observe (c : compiledLimit) (e : string -> event) : list event :=
  match c_observe c with Some l => [e l] | None => [] end.

Definition retryAfter (after : Z) : option Z :=
  if (0 <? after)%Z then Some (Z.quot (after + second - 1) second) else None.

(** [clock i] are the instants read by [Take] and [After] of the [i]-th limit. A
    dangling pointer (impossible in the code, ruled out by the invariant below)
    passes the limit. *)
Fixpoint serveLoop (clock : nat -> Z * Z) (i : nat) (s : set_) (lims : list compiledLimit)
    (r : Request) (addr : option Addr) (rawIP : string) (cookies : gmap string string)
    (h : gmap nat Strategy) : outcome * gmap nat Strategy * list event :=
  match lims with
  | [] => (Passed, h, [])
  | lim :: lims =>
      if negb (inScope s r addr lim) then serveLoop clock (S i) s lims r addr rawIP cookies h
      else
        match h !! strategy lim with
        | None => serveLoop clock (S i) s lims r addr rawIP cookies h
        | Some st =>
            let key := bucketKey s lim r addr rawIP cookies in
            let (ok, st') := sTake (fst (clock i)) key st in
            let h' := <[strategy lim := st']> h in
            let next := serveLoop clock (S i) s lims r addr rawIP cookies h' in
            if ok then (fst (fst next), snd (fst next), observe lim Allowed ++ snd next)
            else
              match c_mode lim with
              | modeShadow => (fst (fst next), snd (fst next), observe lim Limited ++ snd next)
              | modeEnforce =>
                  (Rejected (c_status lim) (c_message lim)
                     (retryAfter (sAfter (snd (clock i)) key st')), h', observe lim Limited)
              end
        end
  end.

Definition clientAddr (s : set_) (r : Request) : option Addr :=
  if needsIP s then
    match ParseAddr (XRealIP r) with
    | Some (a, zone) => if String.eqb zone "" then Some (Unmap a) else None
    | None => None
    end
  else None.

Definition serve (clock : nat -> Z * Z) (s : set_) (r : Request) (h : gmap nat Strategy) :
    outcome * gmap nat Strategy * list event :=
  if has_prefix (RequestURI r) acmeChallengePrefix then (Passed, h, [])
  else serveLoop clock 0 s (limits s) r (clientAddr s r) (if needsIP s then XRealIP r else "")
         (if needsCookie s then cookieMap (cookieList r) else ∅) h.

(** The set is loaded once; the strategies it points at are shared. *)
Definition Serve (clock : nat -> Z * Z) (r : Request) (l : Limiter) :
    outcome * gmap nat Strategy * list event :=
  match live l with
  | None => (Passed, heap l, [])
  | Some s => match limits s with
              | [] => (Passed, heap l, [])
              | _ => serve clock s r (heap l)
              end
  end.

(** Documents that decode to no limit are errors too. *)
Fixpoint Parse (docs : list string) : list Limit * nat :=
  match docs with
  | [] => ([], 0)
  | doc :: docs =>
      let (out, errs) := Parse docs in
      if String.eqb (trim_space doc) "" then (out, errs)
      else match unmarshal doc with
           | None | Some [] => (out, S errs)
           | Some lims => (lims ++ out, errs)
           end
  end.

End engine.
End RateLimit.

(** ** Lemmas *)

Module RateLimitLemmas.
Import RateLimit.

(** *** The configuration fingerprint *)

Definition bar : ascii := "|"%char.

Lemma digitChar_bar n : (0 <= n < 10)%Z -> Ascii.eqb (digitChar n) bar = false.
Proof.
  intros Hn. apply Ascii.eqb_neq. intros Heq. apply (f_equal nat_of_ascii) in Heq.
  unfold digitChar in Heq. rewrite nat_ascii_embedding in Heq by lia.
  change (nat_of_ascii bar) with 124 in Heq. lia.
Qed.

Lemma fmtFrac_bar prec v print acc :
  mem_char bar acc = false -> mem_char bar (fst (fmtFrac prec v print acc)) = false.
Proof.
  revert v print acc. induction prec as [|prec IH]; intros v print acc Hacc; simpl.
  { by destruct print. }
  apply IH. destruct (print || _); [|done]. simpl.
  by rewrite digitChar_bar by (apply Z.mod_pos_bound; lia).
Qed.

Lemma durationString_bar d : mem_char bar (durationString d) = false.
Proof.
  unfold durationString.
  assert (Hnum : forall z, mem_char bar (itoa z) = false) by (intros z; by apply itoa_no_char).
  assert (Hneg : forall b s, mem_char bar s = false ->
            mem_char bar (if b : bool then "-" +:+ s else s) = false) by (by intros []).
  apply Hneg. repeat case_match; simplify_eq; try done;
    rewrite ?mem_char_app, ?Hnum; simpl; rewrite ?mem_char_app, ?Hnum; simpl;
    rewrite ?mem_char_app, ?Hnum; simpl;
    match goal with
    | H : fmtFrac ?p ?v ?b ?a = (?f, _) |- _ =>
        pose proof (fmtFrac_bar p v b a eq_refl) as Hf; rewrite H in Hf; simpl in Hf
    end; rewrite ?Hf; try done.
Qed.

Lemma cfgKeyOf_inj k1 a1 r1 w1 k2 a2 r2 w2 :
  mem_char bar a1 = false -> mem_char bar a2 = false ->
  mem_char bar w1 = false -> mem_char bar w2 = false ->
  cfgKeyOf k1 a1 r1 w1 = cfgKeyOf k2 a2 r2 w2 ->
  joinComma k1 = joinComma k2 /\ a1 = a2 /\ r1 = r2 /\ w1 = w2.
Proof.
  intros Ha1 Ha2 Hw1 Hw2 H. unfold cfgKeyOf in H.
  assert (Hn : forall z, mem_char bar (itoa z) = false) by (intros z; by apply itoa_no_char).
  assert (Hc : forall a r w, mem_char bar a = false -> mem_char bar w = false ->
            count_char bar (a +:+ "|" +:+ itoa r +:+ "|" +:+ w) = 2).
  { intros a r w Ha Hw. rewrite !count_char_app. simpl.
    rewrite (proj2 (count_char_0 bar a)), (proj2 (count_char_0 bar (itoa r))),
      (proj2 (count_char_0 bar w)) by done. done. }
  apply (str_app_count_inj bar) in H as [Hk H]; [|by rewrite !Hc].
  apply (str_app_sep_inj bar) in H as [-> H]; [|done..].
  apply (str_app_sep_inj bar) in H as [Hr ->]; [|done..].
  by apply itoa_inj in Hr as ->.
Qed.

(** *** Bucket keys *)

Lemma joinParts_cons v w vs : joinParts (v :: w :: vs) = v +:+ newline +:+ joinParts (w :: vs).
Proof. done. Qed.

Definition nl : ascii := ascii_of_nat 10.

Lemma count_joinParts vs :
  Forall (fun v => mem_char nl v = false) vs ->
  count_char nl (joinParts vs) = pred (length vs).
Proof.
  induction 1 as [|v vs Hv Hvs IH]; [done|]. destruct vs as [|w vs].
  - by apply count_char_0.
  - rewrite joinParts_cons, count_char_app. simpl. rewrite (proj2 (count_char_0 _ _)) by done.
    change (S (count_char nl (joinParts (w :: vs))) = S (length vs)). by rewrite IH.
Qed.

(** Two value lists agree when their joins do, provided at most the value at one
    same position may hold a newline. *)
Lemma joinParts_inj (ips : list bool) vs ws :
  countb (fun b => b) ips <= 1 ->
  Forall2 (fun (ip : bool) v => ip = false -> mem_char nl v = false) ips vs ->
  Forall2 (fun (ip : bool) v => ip = false -> mem_char nl v = false) ips ws ->
  joinParts vs = joinParts ws -> vs = ws.
Proof.
  intros Hn Hvs. revert ws. induction Hvs as [|ip v ips vs Hv Hvs IH]; intros ws Hws Heq.
  { by inversion Hws. }
  inversion Hws as [|? w ? ws' Hw Hws']; subst.
  pose proof (Forall2_length _ _ _ Hvs) as Hl1. pose proof (Forall2_length _ _ _ Hws') as Hl2.
  destruct vs as [|v2 vs], ws' as [|w2 ws']; simpl in Hl1, Hl2; try lia.
  { simpl in Heq. by subst. }
  rewrite !joinParts_cons in Heq. simpl in Hn. destruct ip.
  - simpl in Hn.
    assert (Hall : forall us, Forall2 (fun (ip : bool) v => ip = false -> mem_char nl v = false) ips us ->
              Forall (fun v => mem_char nl v = false) us).
    { intros us Hus. assert (Hz : countb (fun b => b) ips = 0) by lia. clear -Hus Hz.
      induction Hus as [|ip u ips us Hu Hus IHu]; constructor; simpl in Hz; destruct ip;
        simpl in Hz; try lia; auto. }
    apply (str_app_count_inj nl) in Heq as [-> Heq].
    + f_equal. apply IH; [lia|done|done].
    + rewrite !count_joinParts by (by apply Hall). simpl. lia.
  - apply (str_app_sep_inj nl) in Heq as [-> Heq]; [|by auto..].
    f_equal. apply IH; [lia|done|done].
Qed.

(** *** Key specifications *)

Section engine.
Context {Predicate Input FixedState : Type}.
Context (NewPredicate : Z -> bool -> string -> option Predicate).
Context (Eval : Predicate -> Input -> option bool).
Context (NewInput : Request -> string -> Z -> Input).
Context (ParseAddr : string -> option (Addr * string)).
Context (ParsePrefix : string -> option Prefix).
Context (fixedNew : FixedState).
Context (fixedTake : Z -> Z -> Z -> string -> FixedState -> bool * FixedState).
Context (fixedAfter : Z -> Z -> Z -> string -> FixedState -> Z).

#[local] Abbreviation limiter := (@Limiter Predicate FixedState).
#[local] Abbreviation climit := (@compiledLimit Predicate).
#[local] Abbreviation strat := (@Strategy FixedState).

Definition isIP (p : keyPart) : bool := bool_decide (kind p = keyIP).

Record KeysOK (l : limiter) (a : keyAcc) : Prop := {
  ko_nodup : NoDup (k_norm a);
  ko_ip : countb isIP (k_parts a) <= 1;
  ko_ip0 : "ip" ∉ k_norm a -> countb isIP (k_parts a) = 0;
  ko_res : Forall (fun p => (kind p = keyASN -> is_Some (ASN l)) /\
                            (kind p = keyCountry -> is_Some (Country l))) (k_parts a);
}.

Lemma addKey_ok l norm p a :
  KeysOK l a -> (norm = "ip" <-> kind p = keyIP) ->
  (kind p = keyASN -> is_Some (ASN l)) -> (kind p = keyCountry -> is_Some (Country l)) ->
  KeysOK l (addKey norm p a).
Proof.
  intros [Hnd Hip Hip0 Hres] Hn Ha Hc. unfold addKey. case_decide as Hin; [by split|].
  split; simpl.
  - apply NoDup_app. split; [done|]. split; [|apply NoDup_singleton].
    intros x Hx ->%list_elem_of_singleton. done.
  - rewrite countb_app. simpl. unfold isIP at 2. case_bool_decide as Hk; [|lia].
    rewrite Hip0; [lia|]. apply Hn in Hk as <-. done.
  - rewrite not_elem_of_app, countb_app. intros [Hn1 Hn2]. rewrite Hip0 by done. simpl.
    unfold isIP. case_bool_decide as Hk; [|done]. apply Hn in Hk as ->. set_solver.
  - apply Forall_app. split; [done|]. by constructor.
Qed.

Lemma keyErr_ok l es a : KeysOK l a -> KeysOK l (keyErr es a).
Proof. intros [? ? ? ?]. by split. Qed.

Lemma namedKey_ok l prefix norm nm knd a :
  KeysOK l a -> (knd = keyHeader \/ knd = keyCookie) -> has_prefix prefix "ip" = false ->
  KeysOK l (namedKey prefix norm nm knd a).
Proof.
  intros Ha Hk Hp. unfold namedKey. destruct (validateFieldName nm); [|by apply keyErr_ok].
  apply addKey_ok; [done| |by destruct Hk as [->| ->]..].
  split; [|by destruct Hk as [->| ->]]. intros Hip. exfalso.
  destruct prefix as [|x [|y prefix]]; [done|..]; simpl in *; [congruence|].
  injection Hip as -> -> _. done.
Qed.

Lemma compileKey_ok l spec a : KeysOK l a -> KeysOK l (compileKey l spec a).
Proof.
  intros Ha. unfold compileKey.
  destruct (match index_byte c_colon spec with Some _ => _ | None => _ end) as [[k nm] has].
  destruct (has && _); [by apply keyErr_ok|].
  destruct (_ || _); [by apply addKey_ok|].
  destruct (String.eqb k "host"); [by apply addKey_ok|].
  destruct (String.eqb k "ip-host"); [by apply addKey_ok; [apply addKey_ok|..]|].
  destruct (String.eqb k "asn").
  { destruct (ASN l) eqn:HA; [apply addKey_ok; simpl; rewrite ?HA; eauto; done|by apply keyErr_ok]. }
  destruct (String.eqb k "country").
  { destruct (Country l) eqn:HC; [apply addKey_ok; simpl; rewrite ?HC; eauto; done|by apply keyErr_ok]. }
  destruct (String.eqb k "header"); [by apply namedKey_ok; auto|].
  destruct (String.eqb k "cookie"); [by apply namedKey_ok; auto|]. by apply keyErr_ok.
Qed.

Lemma compileKeys_ok l keys : KeysOK l (compileKeys l keys).
Proof.
  unfold compileKeys. generalize (match keys with [] => ["ip"] | _ => keys end). intros ks.
  assert (H : KeysOK l (mkAcc [] [] [])).
  { split; simpl; [apply NoDup_nil_2|lia|done|constructor]. }
  revert H. generalize (mkAcc [] [] []). induction ks as [|k ks IH]; intros a Ha; simpl; [done|].
  by apply IH, compileKey_ok.
Qed.

(** *** Well-formed limiters *)

Definition okWindow (sz : Z) (norm : Limit) : Prop :=
  (minWindow <= sz <= maxWindow)%Z /\ durationString sz = Window norm.

(** The strategy runs the limit it was built for. *)
Definition strat_for (norm : Limit) (st : strat) : Prop :=
  match st with
  | Fixed m sz _ => Algorithm norm = "fixed" /\ m = Rate norm /\ okWindow sz norm
  | Sliding sw => Algorithm norm = "sliding" /\ SlidingWindow.max sw = Rate norm /\
                  okWindow (SlidingWindow.size sw) norm
  end.

(** No counts yet. *)
Definition fresh_strat (st : strat) : Prop :=
  match st with
  | Fixed _ _ f => f = fixedNew
  | Sliding sw => SlidingWindow.cur sw = ∅ /\ SlidingWindow.prev sw = ∅
  end.

Record limit_ok (l : limiter) (h : gmap nat strat) (c : climit) (norm : Limit) : Prop := {
  lo_id : id c = ID norm;
  lo_rate : (0 < Rate norm)%Z;
  lo_status : c_status c = defaultStatus \/ c_status c = statusServiceUnavailable;
  lo_cfg : cfgKey c = cfgKeyOf (Key norm) (Algorithm norm) (Rate norm) (Window norm);
  lo_alg : Algorithm norm = "fixed" \/ Algorithm norm = "sliding";
  lo_win : mem_char bar (Window norm) = false;
  lo_ip : countb isIP (keyParts c) <= 1;
  lo_res : Forall (fun p => (kind p = keyASN -> is_Some (ASN l)) /\
                            (kind p = keyCountry -> is_Some (Country l))) (keyParts c);
  lo_strat : exists st, h !! strategy c = Some st /\ strat_for norm st;
}.

Lemma limit_ok_heap l h h' c norm :
  limit_ok l h c norm -> h' !! strategy c = h !! strategy c -> limit_ok l h' c norm.
Proof. intros [? ? ? ? ? ? ? ? ?] Hh. split; try done. by rewrite Hh. Qed.

Lemma compileWindow_ok w d ws :
  compileWindow w = (d, ws, []) -> (minWindow <= d <= maxWindow)%Z /\ durationString d = ws.
Proof.
  unfold compileWindow. intros H. repeat split_match_in H; simplify_eq. bool_props. split; [lia|done].
Qed.

Lemma compileAlgorithm_ok a alg : compileAlgorithm a = (alg, []) -> alg = "fixed" \/ alg = "sliding".
Proof.
  unfold compileAlgorithm. intros H. repeat split_match_in H; simplify_eq; [by left|].
  bool_props. subst. by right.
Qed.

Lemma compileStatus_ok s st :
  compileStatus s = (st, []) -> st = defaultStatus \/ st = statusServiceUnavailable.
Proof.
  unfold compileStatus. intros H. repeat split_match_in H; simplify_eq; [by left|].
  bool_props. by right.
Qed.

Lemma compileLimit_ok l ptr lim c st norm h :
  compileLimit NewPredicate ParsePrefix fixedNew l ptr lim = Ok (c, st, norm) ->
  h !! ptr = Some st ->
  limit_ok l h c norm /\ strategy c = ptr /\ fresh_strat st /\ ID norm = ID lim.
Proof.
  unfold compileLimit.
  destruct (compileWindow (Window lim)) as [[d ws] e4] eqn:Hw,
    (compileAlgorithm (Algorithm lim)) as [alg e5] eqn:Ha,
    (compileMode (Mode lim)) as [[m mS] e6],
    (compileStatus (Status lim)) as [cs e7] eqn:Hs,
    (compileExclude ParsePrefix (Exclude lim)) as [ex e8],
    (compileFilter NewPredicate l (trim_space (Filter lim))) as [f e9].
  destruct (_ ++ _) eqn:Herr; [|done].
  rewrite !app_eq_nil_iff in Herr. destruct Herr as (_ & _ & Hr & -> & -> & _ & -> & _ & _).
  apply compileWindow_ok in Hw as [Hd Hws]. apply compileAlgorithm_ok in Ha.
  apply compileStatus_ok in Hs. pose proof (compileKeys_ok l (Key lim)) as [_ Hip _ Hres].
  intros [= <- <- <-] Hh.
  split; [|split; [done|split; [by destruct (String.eqb alg "sliding")|done]]].
  split; simpl; try done.
  - destruct (Rate lim <=? 0)%Z eqn:Hle; [done|]. by bool_props.
  - rewrite <- Hws. apply durationString_bar.
  - eexists. split; [exact Hh|]. destruct Ha as [-> | ->]; simpl; done.
Qed.

(** *** The loop *)

Record BatchInv (l : limiter) (b : @batch Predicate FixedState) : Prop := {
  bi_next : next l <= b_next b;
  bi_free p : b_next b <= p -> b_heap b !! p = None;
  bi_old p : p < next l -> b_heap b !! p = heap l !! p;
  bi_ok : Forall2 (limit_ok l (b_heap b)) (b_compiled b) (b_source b);
  bi_ids : NoDup (id <$> b_compiled b);
  bi_ptrs : NoDup (strategy <$> b_compiled b);
  bi_new : Forall (fun c => next l <= strategy c < b_next b /\
             exists st, b_heap b !! strategy c = Some st /\ fresh_strat st) (b_compiled b);
}.

Lemma Forall2_limit_ok_insert l h p st cs src :
  Forall2 (limit_ok l h) cs src -> Forall (fun c => strategy c <> p) cs ->
  Forall2 (limit_ok l (<[p := st]> h)) cs src.
Proof.
  induction 1 as [|c n cs src Hc Hcs IH]; intros Hp; [constructor|].
  apply Forall_cons in Hp as [Hne Hp]. constructor; [|auto].
  eapply limit_ok_heap; [done|]. by rewrite lookup_insert_ne.
Qed.

Lemma batchStep_inv l i lim b :
  BatchInv l b -> BatchInv l (batchStep NewPredicate ParsePrefix fixedNew l i lim b).
Proof.
  intros [Hnext Hfree Hold Hok Hids Hptrs Hnew]. unfold batchStep.
  destruct (compileLimit _ _ _ _ _ _) as [[[c st] norm]|e] eqn:Hc; [|by split].
  case_decide as Hdup; [by split|].
  destruct (compileLimit_ok _ _ _ _ _ _ (<[b_next b := st]> (b_heap b)) Hc) as (Hcok & Hptr & Hfr & _);
    [apply lookup_insert_eq|].
  assert (Hlt : Forall (fun c => strategy c <> b_next b) (b_compiled b)).
  { eapply Forall_impl; [exact Hnew|]. simpl. intros x [Hx _]. lia. }
  split; simpl.
  - lia.
  - intros p Hp. rewrite lookup_insert_ne by lia. apply Hfree. lia.
  - intros p Hp. rewrite lookup_insert_ne by lia. by apply Hold.
  - apply Forall2_app; [by apply Forall2_limit_ok_insert|by constructor].
  - rewrite fmap_app. apply NoDup_app. split; [done|]. split; [|apply NoDup_singleton].
    intros x Hx ->%list_elem_of_singleton. done.
  - rewrite fmap_app. apply NoDup_app. split; [done|]. split; [|apply NoDup_singleton].
    intros x Hx ->%list_elem_of_singleton. apply list_elem_of_fmap in Hx as (y & Hy & Hin).
    rewrite Forall_forall in Hlt. apply (Hlt y Hin). congruence.
  - apply Forall_app. split.
    + rewrite Forall_forall in Hnew, Hlt |- *. intros x Hx. destruct (Hnew x Hx) as [? (s & ? & ?)].
      split; [lia|]. exists s. rewrite lookup_insert_ne by (intros Heq; by apply (Hlt x)). done.
    + constructor; [|constructor]. rewrite Hptr. split; [lia|]. exists st.
      by rewrite lookup_insert_eq.
Qed.

Lemma batchLoop_inv l i lims b :
  BatchInv l b -> BatchInv l (batchLoop NewPredicate ParsePrefix fixedNew l i lims b).
Proof. revert i b. induction lims; simpl; intros; auto using batchStep_inv. Qed.

Lemma limitBatchStep_errs l i lim b :
  b_errs b <> [] -> b_errs (batchStep NewPredicate ParsePrefix fixedNew l i lim b) <> [].
Proof.
  unfold batchStep. intros H. repeat split_match; simpl; try done; intros [? ?]%app_eq_nil_iff; done.
Qed.

Lemma limitBatchLoop_errs l i lims b :
  b_errs b <> [] -> b_errs (batchLoop NewPredicate ParsePrefix fixedNew l i lims b) <> [].
Proof. revert i b. induction lims; simpl; intros; auto using limitBatchStep_errs. Qed.

(** An accepted batch keeps every limit, in order. *)
Lemma batchLoop_source l i lims b :
  b_errs (batchLoop NewPredicate ParsePrefix fixedNew l i lims b) = [] ->
  ID <$> b_source (batchLoop NewPredicate ParsePrefix fixedNew l i lims b)
  = (ID <$> b_source b) ++ (ID <$> lims).
Proof.
  revert i b. induction lims as [|lim lims IH]; intros i b; simpl; [by rewrite app_nil_r|].
  intros He. rewrite IH by done.
  assert (Hs : b_errs (batchStep NewPredicate ParsePrefix fixedNew l i lim b) = []).
  { apply dec_stable. intros Hne. by eapply limitBatchLoop_errs. }
  revert Hs. unfold batchStep.
  destruct (compileLimit _ _ _ _ _ _) as [[[c st] norm]|e] eqn:Hc;
    [|simpl; by intros [_ [=]]%app_eq_nil_iff].
  case_decide; simpl; [by intros [_ [=]]%app_eq_nil_iff|]. intros _.
  destruct (compileLimit_ok _ _ _ _ _ _ (<[b_next b := st]> (b_heap b)) Hc) as (_ & _ & _ & Hid);
    [apply lookup_insert_eq|].
  rewrite fmap_app. simpl. by rewrite Hid, <- app_assoc.
Qed.

(** *** The invariant of a limiter *)

Record SetInv (l : limiter) (h : gmap nat strat) (s : set_) : Prop := {
  si_ok : Forall2 (limit_ok l h) (limits s) (source s);
  si_ids : NoDup (id <$> limits s);
  si_ptrs : NoDup (strategy <$> limits s);
  si_res : asn s = ASN l /\ country s = Country l /\ knownHost s = KnownHost l;
}.

Record Inv (l : limiter) : Prop := {
  inv_free p : next l <= p -> heap l !! p = None;
  inv_set s : live l = Some s -> SetInv l (heap l) s;
}.

Definition oldLimits (l : limiter) : list climit :=
  match live l with Some cur => limits cur | None => [] end.

Lemma oldLimits_ok l :
  Inv l -> exists src, Forall2 (limit_ok l (heap l)) (oldLimits l) src /\
    NoDup (strategy <$> oldLimits l) /\
    Forall (fun o => strategy o < next l) (oldLimits l).
Proof.
  intros [Hfree Hset]. unfold oldLimits. destruct (live l) as [s|].
  - destruct (Hset s eq_refl) as [Hok _ Hptrs _]. exists (source s). split; [done|]. split; [done|].
    clear Hptrs. induction Hok as [|c n cs src Hc Hcs IH]; constructor; [|done].
    destruct (lo_strat _ _ _ _ Hc) as (st & Hst & _).
    apply Nat.nle_gt. intros Hle. rewrite Hfree in Hst by done. done.
  - exists []. split; [constructor|]. split; [apply NoDup_nil_2|constructor].
Qed.

Lemma carry_fields old (c : climit) :
  id (carry old c) = id c /\ keyParts (carry old c) = keyParts c /\
  c_status (carry old c) = c_status c /\ cfgKey (carry old c) = cfgKey c.
Proof. unfold carry. destruct (oldLimit old (id c)); [case_match|]; done. Qed.

Lemma carry_cases old (c : climit) :
  (exists o, o ∈ old /\ id o = id c /\ cfgKey o = cfgKey c /\ strategy (carry old c) = strategy o) \/
  (carry old c = c /\ forall o, NoDup (id <$> old) -> o ∈ old -> id o = id c -> cfgKey o <> cfgKey c).
Proof.
  unfold carry, oldLimit. destruct (List.find _ (rev old)) as [o|] eqn:Hf.
  - apply List.find_some in Hf as [Hin Hid]. apply in_rev, list_elem_of_In in Hin. bool_props.
    destruct (String.eqb_spec (cfgKey o) (cfgKey c)) as [He|He].
    + left. by exists o.
    + right. split; [done|]. intros o' Hnd Hin' Hid'.
      by rewrite (NoDup_fmap_inj id old o' o) by congruence.
  - right. split; [done|]. intros o _ Hin Hid. eapply List.find_none in Hf.
    + rewrite Hid, String.eqb_refl in Hf. done.
    + by apply (proj1 (in_rev old _)), list_elem_of_In.
Qed.

Lemma strat_for_cfg (c o : climit) l1 l2 h1 h2 n n' st :
  limit_ok l1 h1 c n -> limit_ok l2 h2 o n' -> cfgKey o = cfgKey c ->
  strat_for n' st -> strat_for n st.
Proof.
  intros Hc Ho Heq Hst. rewrite (lo_cfg _ _ _ _ Hc), (lo_cfg _ _ _ _ Ho) in Heq.
  assert (Halg : forall l h c n, limit_ok l h c n -> mem_char bar (Algorithm n) = false).
  { intros l h c0 n0 H0. by destruct (lo_alg _ _ _ _ H0) as [->| ->]. }
  apply cfgKeyOf_inj in Heq as (_ & Ha & Hr & Hw);
    [|by eapply Halg|by eapply Halg|by eapply lo_win|by eapply lo_win].
  unfold strat_for, okWindow in *. by rewrite <- Ha, <- Hr, <- Hw.
Qed.

Lemma carry_ok l b c n :
  Inv l -> BatchInv l b -> limit_ok l (b_heap b) c n ->
  limit_ok l (b_heap b) (carry (oldLimits l) c) n.
Proof.
  intros HI Hb Hc.
  destruct (carry_cases (oldLimits l) c) as [(o & Hin & Hid & Hcfg & Hptr)|[-> _]]; [|done].
  destruct (oldLimits_ok l HI) as (src & Hok & _ & Hlt).
  apply list_elem_of_lookup in Hin as [i Hi].
  destruct (Forall2_lookup_l _ _ _ _ _ Hok Hi) as (n' & _ & Ho).
  destruct (carry_fields (oldLimits l) c) as (H1 & H2 & H3 & H4).
  pose proof Hc as [Hid0 Hrate Hst Hcf Ha Hw Hip Hres _].
  split; rewrite ?H1, ?H2, ?H3, ?H4; try done.
  destruct (lo_strat _ _ _ _ Ho) as (st & Hh & Hfor). exists st. rewrite Hptr. split.
  - rewrite (bi_old _ _ Hb); [done|]. rewrite Forall_forall in Hlt.
    by apply Hlt, list_elem_of_lookup_2 with i.
  - by eapply strat_for_cfg.
Qed.

Lemma carry_ptrs_nodup l b :
  Inv l -> BatchInv l b -> NoDup (strategy <$> (carry (oldLimits l) <$> b_compiled b)).
Proof.
  intros HI Hb. destruct (oldLimits_ok l HI) as (src & Hok & Hnd & Hlt).
  rewrite <- list_fmap_compose.
  apply (NoDup_fmap_2_strong (strategy ∘ carry (oldLimits l)));
    [|by eapply NoDup_fmap_1, (bi_ids _ _ Hb)].
  rewrite Forall_forall in Hlt. pose proof (bi_new _ _ Hb) as Hnew. rewrite Forall_forall in Hnew.
  intros x y Hx Hy Heq. simpl in Heq.
  destruct (carry_cases (oldLimits l) x) as [(o1 & Hin1 & Hid1 & _ & Hp1)|[Hx' _]],
    (carry_cases (oldLimits l) y) as [(o2 & Hin2 & Hid2 & _ & Hp2)|[Hy' _]].
  - assert (o1 = o2) as -> by (apply (NoDup_fmap_inj strategy (oldLimits l)); congruence).
    apply (NoDup_fmap_inj id (b_compiled b)); [apply Hb|done|done|congruence].
  - specialize (Hlt o1 Hin1). destruct (Hnew y Hy) as [? _]. rewrite Hy' in Heq. lia.
  - specialize (Hlt o2 Hin2). destruct (Hnew x Hx) as [? _]. rewrite Hx' in Heq. lia.
  - rewrite Hx', Hy' in Heq. apply (NoDup_fmap_inj strategy (b_compiled b)); [apply Hb|done..].
Qed.

Lemma emptyBatch_inv l :
  Inv l -> BatchInv l (mkBatch [] [] [] (heap l) (next l)).
Proof.
  intros [Hfree _]. split; simpl; try done; try apply NoDup_nil_2; try constructor.
Qed.

Definition theBatch (lims : list Limit) (l : limiter) : batch :=
  batchLoop NewPredicate ParsePrefix fixedNew l 0 lims (mkBatch [] [] [] (heap l) (next l)).

Lemma SetLimits_inv lims l :
  Inv l -> Inv (snd (SetLimits NewPredicate ParsePrefix fixedNew lims l)).
Proof.
  intros HI. unfold SetLimits. fold (theBatch lims l).
  pose proof (batchLoop_inv l 0 lims _ (emptyBatch_inv l HI)) as Hb. fold (theBatch lims l) in Hb.
  destruct (b_errs (theBatch lims l)); [|done]. simpl. fold (oldLimits l).
  split; simpl; [by apply Hb|]. intros s [= <-]. split; simpl; [| |by apply carry_ptrs_nodup|done].
  - pose proof (bi_ok _ _ Hb) as Hok.
    apply Forall2_fmap_l. eapply Forall2_impl; [exact Hok|].
    intros c n Hc. destruct (carry_ok l _ c n HI Hb Hc) as [? ? ? ? ? ? ? ? ?]. by split.
  - rewrite <- list_fmap_compose.
    rewrite (list_fmap_ext _ id); [apply Hb|]. intros i c _. simpl.
    apply carry_fields.
Qed.

(** *** Serving keeps every strategy's parameters *)

Definition same_params (a b : strat) : Prop :=
  match a, b with
  | Fixed m sz _, Fixed m' sz' _ => m = m' /\ sz = sz'
  | Sliding x, Sliding y => SlidingWindow.max x = SlidingWindow.max y /\
                            SlidingWindow.size x = SlidingWindow.size y
  | _, _ => False
  end.

Definition heap_le (h h' : gmap nat strat) : Prop :=
  forall p, match h !! p, h' !! p with
            | Some a, Some b => same_params a b
            | None, None => True
            | _, _ => False
            end.

#[global] Instance same_params_preorder : PreOrder same_params.
Proof.
  split.
  - by intros [].
  - intros [] [] []; simpl; try done; by intros [-> ->] [-> ->].
Qed.

#[global] Instance heap_le_preorder : PreOrder heap_le.
Proof.
  split.
  - intros h p. by destruct (h !! p).
  - intros h1 h2 h3 H12 H23 p. specialize (H12 p). specialize (H23 p).
    destruct (h1 !! p), (h2 !! p), (h3 !! p); try done. by etransitivity.
Qed.

Lemma sTake_params t k st b st' : sTake fixedTake t k st = (b, st') -> same_params st st'.
Proof.
  destruct st as [m sz f|sw]; simpl.
  - destruct (fixedTake m sz t k f). by intros [= _ <-].
  - destruct (SlidingWindow.Take t k sw) as [b' sw'] eqn:Ht. intros [= _ <-]. simpl.
    pose proof (SlidingWindow.Take_params t k sw) as [H1 H2]. by rewrite Ht in H1, H2.
Qed.

Lemma heap_le_insert h p st st' :
  h !! p = Some st -> same_params st st' -> heap_le h (<[p := st']> h).
Proof.
  intros Hp Hs q. destruct (decide (p = q)) as [->|?].
  - by rewrite Hp, lookup_insert_eq.
  - rewrite lookup_insert_ne by done. by destruct (h !! q).
Qed.

Lemma serveLoop_heap clock i s lims r addr rawIP cookies h :
  heap_le h (snd (fst (serveLoop Eval NewInput fixedTake fixedAfter clock i s lims r addr rawIP cookies h))).
Proof.
  revert i h. induction lims as [|lim lims IH]; intros i h; simpl; [done|].
  destruct (negb _); [done|]. destruct (h !! strategy lim) as [st|] eqn:Hst; [|done].
  destruct (sTake _ _ _ _) as [ok st'] eqn:Ht. apply sTake_params in Ht.
  pose proof (heap_le_insert h _ _ _ Hst Ht) as Hle.
  destruct ok; simpl; [by etransitivity|]. destruct (c_mode lim); simpl; [done|by etransitivity].
Qed.

Lemma serve_heap clock s r h :
  heap_le h (snd (fst (serve Eval NewInput ParseAddr fixedTake fixedAfter clock s r h))).
Proof. unfold serve. destruct (has_prefix _ _); [done|]. apply serveLoop_heap. Qed.

Definition with_heap (h : gmap nat strat) (l : limiter) : limiter :=
  mkLimiter (live l) h (next l) (NamePrefix l) (Observe l) (KnownHost l) (Country l) (ASN l)
    (FilterCostLimit l) (FilterDisableMacros l).

Lemma with_heap_inv l h : Inv l -> heap_le (heap l) h -> Inv (with_heap h l).
Proof.
  intros [Hfree Hset] Hle. split; simpl.
  - intros p Hp. specialize (Hle p). rewrite Hfree in Hle by done. by destruct (h !! p).
  - intros s Hs. destruct (Hset s Hs) as [Hok Hids Hptrs Hres]. split; try done.
    eapply Forall2_impl; [exact Hok|]. intros c n [? ? ? ? ? ? ? ? (st & Hst & Hfor)].
    split; try done. specialize (Hle (strategy c)). rewrite Hst in Hle.
    destruct (h !! strategy c) as [st'|]; [|done]. exists st'. split; [done|].
    destruct st, st'; simpl in *; try done; destruct Hle as [Hl1 Hl2]; by rewrite <- Hl1, <- Hl2.
Qed.

End engine.
End RateLimitLemmas.

(** ** Properties *)

Module RateLimitProps.
Import RateLimit RateLimitLemmas.

(** C7: the two-generation sliding window is observationally the strategy that logs
    every admission: for any sequence of [Take] and [After] calls at any instants,
    clock steps backward included, every answer is the one computed from the full
    log, where a request counts into the latest window seen so far; so no
    admission of the last two windows is ever forgotten. *)
Theorem sliding_window_refines_log rate sz cs :
  fst (SlidingWindow.runCalls cs (SlidingWindow.newSlidingWindow rate sz)) =
  fst (SlidingWindow.runSpec rate sz cs (SlidingWindow.mkLog 0 [])).
Proof.
  assert (Hgen : forall s l, SlidingWindow.Repr s l -> SlidingWindow.max s = rate ->
            SlidingWindow.size s = sz ->
            fst (SlidingWindow.runCalls cs s) = fst (SlidingWindow.runSpec rate sz cs l)).
  { induction cs as [|[t k|t k] cs IH]; intros s l HR Hm Hs; simpl; [done|..].
    - destruct (SlidingWindow.Repr_Take t k s l HR) as (H1 & H2 & H3 & H4).
      rewrite Hm, Hs in H1, H2. rewrite Hm in H3. rewrite Hs in H4.
      destruct (SlidingWindow.Take t k s) as [b s'], (SlidingWindow.specTake rate sz t k l) as [b' l'].
      simpl in *. specialize (IH s' l' H2 H3 H4).
      destruct (SlidingWindow.runCalls cs s'), (SlidingWindow.runSpec rate sz cs l').
      simpl in *. congruence.
    - specialize (IH s l HR Hm Hs). rewrite (SlidingWindow.After_spec t k s l HR), Hm, Hs.
      destruct (SlidingWindow.runCalls cs s), (SlidingWindow.runSpec rate sz cs l).
      simpl in *. congruence. }
  apply Hgen; [|done|done]. split; simpl; try done.
Qed.

Section engine.
Context {Predicate Input FixedState : Type}.
Context (NewPredicate : Z -> bool -> string -> option Predicate).
Context (Eval : Predicate -> Input -> option bool).
Context (NewInput : Request -> string -> Z -> Input).
Context (ParseAddr : string -> option (Addr * string)).
Context (ParsePrefix : string -> option Prefix).
Context (fixedNew : FixedState).
Context (fixedTake : Z -> Z -> Z -> string -> FixedState -> bool * FixedState).
Context (fixedAfter : Z -> Z -> Z -> string -> FixedState -> Z).

#[local] Abbreviation limiter := (@Limiter Predicate FixedState).

(** One step of a limiter's life: a configuration swap, a request loading the live
    set, or a request running on a set loaded earlier. *)
Inductive lstep : limiter * list set_ -> limiter * list set_ -> Prop :=
| ls_set lims l snaps :
    lstep (l, snaps) (snd (SetLimits NewPredicate ParsePrefix fixedNew lims l), snaps)
| ls_load s l snaps : live l = Some s -> lstep (l, snaps) (l, s :: snaps)
| ls_serve clock s r l snaps : s ∈ snaps ->
    lstep (l, snaps)
      (with_heap (snd (fst (serve Eval NewInput ParseAddr fixedTake fixedAfter clock s r (heap l)))) l,
       snaps).

(** A limiter before its first [SetLimits]. *)
Definition newLimiter (prefix : string) (obs : bool) (kh : option (string -> bool))
    (co : option (Request -> string)) (asn : option (Request -> Z)) : limiter :=
  mkLimiter None ∅ 0 prefix obs kh co asn 0 false.

(** Whatever sequence of configuration swaps, loads and requests (on the current
    or on an earlier set), the live limits stay well formed: distinct identifiers
    and strategies, a positive rate, a window of one second to one hour, a
    rejection status of 429 or 503, at most one IP key part, country and ASN keys
    only with their resolver wired, and each pointing at a strategy of its own
    algorithm, rate and window. *)
Theorem limiter_invariant prefix obs kh co asn l snaps :
  star lstep (newLimiter prefix obs kh co asn, []) (l, snaps) -> Inv l.
Proof.
  intros Hs. change l with (fst (l, snaps)).
  apply (star_invariant lstep (fun x => Inv (fst x))) in Hs; [done|..].
  - intros [a ?] [b ?] Ha Hstep. inversion Hstep; subst; simpl in *; [|done|].
    + by apply SetLimits_inv.
    + apply with_heap_inv; [done|]. apply serve_heap.
  - split; simpl; [intros; apply lookup_empty|done].
Qed.

(** A batch of limits is applied all-or-nothing, and an accepted batch carries
    live counters over: each new limit keeps the very strategy (same pointer,
    counters untouched) of the live limit with its identifier and fingerprint,
    and every other limit starts on a new strategy with no counts. A rejected
    batch leaves the limiter as it was. *)
Theorem SetLimits_carries_counters lims (l : limiter) :
  Inv l ->
  let '(errs, l') := SetLimits NewPredicate ParsePrefix fixedNew lims l in
  (errs <> [] -> l' = l) /\
  (errs = [] -> exists s, live l' = Some s /\ ID <$> source s = ID <$> lims /\
     forall c, c ∈ limits s ->
       (exists o, o ∈ oldLimits l /\ id o = id c /\ cfgKey o = cfgKey c /\
          strategy c = strategy o /\ heap l' !! strategy c = heap l !! strategy o) \/
       ((forall o, o ∈ oldLimits l -> id o = id c -> cfgKey o <> cfgKey c) /\
        heap l !! strategy c = None /\
        exists st, heap l' !! strategy c = Some st /\ fresh_strat fixedNew st)).
Proof.
  intros HI. unfold SetLimits. fold (theBatch NewPredicate ParsePrefix fixedNew lims l).
  pose proof (batchLoop_inv NewPredicate ParsePrefix fixedNew l 0 lims _ (emptyBatch_inv fixedNew l HI)) as Hb.
  fold (theBatch NewPredicate ParsePrefix fixedNew lims l) in Hb. fold (oldLimits l).
  destruct (b_errs (theBatch _ _ _ lims l)) as [|e es] eqn:He; [|done].
  split; [done|]. intros _. eexists. split; [done|]. simpl. split.
  { by apply (batchLoop_source NewPredicate ParsePrefix fixedNew l 0 lims). }
  intros c' (c & -> & Hin)%list_elem_of_fmap.
  destruct (oldLimits_ok l HI) as (src & _ & _ & Hlt). rewrite Forall_forall in Hlt.
  destruct (carry_fields (oldLimits l) c) as (Hid & _ & _ & Hcfg). rewrite Hid, Hcfg.
  destruct (carry_cases (oldLimits l) c) as [(o & Ho & H1 & H2 & H3)|[-> Hno]].
  - left. exists o. rewrite H3. repeat split; try done. apply (bi_old _ _ _ Hb). by apply Hlt.
  - right. split.
    + intros o Ho Hoid. apply Hno; [|done|done]. destruct HI as [_ Hset].
      unfold oldLimits. destruct (live l) as [s|]; [by apply Hset|apply NoDup_nil_2].
    + pose proof (bi_new _ _ _ Hb) as Hnew. rewrite Forall_forall in Hnew.
      destruct (Hnew c Hin) as [Hr Hst]. split; [|exact Hst]. apply (inv_free _ HI). lia.
Qed.

(** A bucket key identifies the values of all the limit's characteristics: for a
    limit that compiled, and requests whose host, header, cookie and country
    values hold no newline (an IPv4 or IPv6 part may), two requests share a key
    only if every part agrees. *)
Theorem bucketKey_injective (l : limiter) ptr lim c st norm s r1 r2 a1 a2 raw1 raw2 ck1 ck2 :
  compileLimit NewPredicate ParsePrefix fixedNew l ptr lim = Ok (c, st, norm) ->
  (forall p, p ∈ keyParts c -> kind p <> keyIP ->
     mem_char nl (partValue s r1 a1 raw1 ck1 p) = false /\
     mem_char nl (partValue s r2 a2 raw2 ck2 p) = false) ->
  bucketKey s c r1 a1 raw1 ck1 = bucketKey s c r2 a2 raw2 ck2 ->
  partValue s r1 a1 raw1 ck1 <$> keyParts c = partValue s r2 a2 raw2 ck2 <$> keyParts c.
Proof.
  intros Hc Hnl Heq.
  destruct (compileLimit_ok NewPredicate ParsePrefix fixedNew _ _ _ _ _ _ {[ ptr := st ]} Hc)
    as ([_ _ _ _ _ _ Hip _ _] & _); [apply lookup_singleton_eq|].
  unfold bucketKey in Heq. destruct (keyParts c) as [|p [|q ps]]; [done|simpl; by rewrite Heq|].
  set (ks := p :: q :: ps) in *. clearbody ks.
  apply (joinParts_inj (isIP <$> ks)); [| | |done].
  - by rewrite countb_fmap.
  - clear Heq Hip. induction ks as [|k ks IH]; simpl; constructor.
    + intros Hk. apply (Hnl k); [by left|]. unfold isIP in Hk. by bool_props.
    + apply IH. intros k' Hin. apply Hnl. by right.
  - clear Heq Hip. induction ks as [|k ks IH]; simpl; constructor.
    + intros Hk. apply (Hnl k); [by left|]. unfold isIP in Hk. by bool_props.
    + apply IH. intros k' Hin. apply Hnl. by right.
Qed.

(** *** The request path as a decision on the counters at arrival *)

Section request.
Context (clock : nat -> Z * Z) (s : @set_ Predicate) (r : Request) (addr : option Addr)
  (rawIP : string) (cookies : gmap string string).

#[local] Abbreviation strat := (@Strategy FixedState).
#[local] Abbreviation climit := (@compiledLimit Predicate).

(** The [i]-th limit's [Take] on a heap: admitted or not, and the new counters. *)
Definition takeOf (i : nat) (lim : climit) (h : gmap nat strat) : option (bool * strat) :=
  sTake fixedTake (fst (clock i)) (bucketKey s lim r addr rawIP cookies) <$> h !! strategy lim.

Definition denies (i : nat) (lim : climit) (h : gmap nat strat) : bool :=
  inScope Eval NewInput s r addr lim && bool_decide (c_mode lim = modeEnforce) &&
  match takeOf i lim h with Some (false, _) => true | _ => false end.

Fixpoint firstDenied (i : nat) (lims : list climit) (h : gmap nat strat) : option (nat * climit) :=
  match lims with
  | [] => None
  | lim :: lims => if denies i lim h then Some (i, lim) else firstDenied (S i) lims h
  end.

Definition rejection (i : nat) (lim : climit) (h : gmap nat strat) : outcome :=
  Rejected (c_status lim) (c_message lim)
    (match takeOf i lim h with
     | Some (_, st) => retryAfter (sAfter fixedAfter (snd (clock i))
                                     (bucketKey s lim r addr rawIP cookies) st)
     | None => None
     end).

Lemma takeOf_insert i lim p st h : strategy lim <> p -> takeOf i lim (<[p := st]> h) = takeOf i lim h.
Proof. intros Hne. unfold takeOf. by rewrite lookup_insert_ne. Qed.

Lemma firstDenied_insert i lims p st h :
  p ∉ (strategy <$> lims) -> firstDenied i lims (<[p := st]> h) = firstDenied i lims h.
Proof.
  revert i. induction lims as [|lim lims IH]; intros i; simpl; [done|].
  intros [Hne Hp]%not_elem_of_cons. unfold denies. rewrite takeOf_insert by done. by rewrite IH.
Qed.

Lemma firstDenied_ge i lims h k lim : firstDenied i lims h = Some (k, lim) -> i <= k.
Proof.
  revert i. induction lims as [|x lims IH]; intros i; simpl; [done|].
  case_match; [intros [= <- _]; lia|]. intros H1. apply IH in H1. lia.
Qed.

(** Whether the [i]-th limit is charged, given where the request stopped. *)
Definition reached (stop : option (nat * climit)) (i : nat) : bool :=
  match stop with Some (k, _) => (i <=? k)%nat | None => true end.

Lemma firstDenied_in i lims h k lim : firstDenied i lims h = Some (k, lim) -> lim ∈ lims.
Proof.
  revert i. induction lims as [|x lims IH]; intros i; simpl; [done|].
  case_match; [intros [= _ <-]; by left|]. intros H1. right. by eapply IH.
Qed.

Definition LoopSpec (i : nat) (lims : list climit) (h : gmap nat strat) (o : outcome)
    (h' : gmap nat strat) : Prop :=
  o = match firstDenied i lims h with Some (k, lim) => rejection k lim h | None => Passed end /\
  (forall p, p ∉ (strategy <$> lims) -> h' !! p = h !! p) /\
  (forall j lim, lims !! j = Some lim ->
     h' !! strategy lim =
     if inScope Eval NewInput s r addr lim && reached (firstDenied i lims h) (i + j)
     then snd <$> takeOf (i + j) lim h else h !! strategy lim).

(** The heap after one limit that does not stop the request. *)
Definition chargeOf (i : nat) (lim : climit) (h : gmap nat strat) : gmap nat strat :=
  if inScope Eval NewInput s r addr lim
  then match takeOf i lim h with Some (_, st) => <[strategy lim := st]> h | None => h end
  else h.

Lemma chargeOf_other i lim h p : strategy lim <> p -> chargeOf i lim h !! p = h !! p.
Proof.
  intros Hne. unfold chargeOf. case_match; [|done]. destruct (takeOf i lim h) as [[b st]|]; [|done].
  by rewrite lookup_insert_ne.
Qed.

Lemma chargeOf_own i lim h :
  chargeOf i lim h !! strategy lim =
  if inScope Eval NewInput s r addr lim then snd <$> takeOf i lim h else h !! strategy lim.
Proof.
  unfold chargeOf. case_match; [|done]. unfold takeOf.
  destruct (h !! strategy lim) as [st|] eqn:Hst; [|done]. simpl.
  destruct (sTake _ _ _ _) as [b st']. by rewrite lookup_insert_eq.
Qed.

Lemma firstDenied_charge i k lim lims h :
  strategy lim ∉ (strategy <$> lims) -> firstDenied i lims (chargeOf k lim h) = firstDenied i lims h.
Proof.
  intros Hp. unfold chargeOf. case_match; [|done]. destruct (takeOf k lim h) as [[b st]|]; [|done].
  by apply firstDenied_insert.
Qed.

Lemma LoopSpec_cons i lim lims h o h' :
  strategy lim ∉ (strategy <$> lims) -> denies i lim h = false ->
  LoopSpec (S i) lims (chargeOf i lim h) o h' -> LoopSpec i (lim :: lims) h o h'.
Proof.
  intros Hnew Hden (Ho & Hout & Hin). unfold LoopSpec. cbn [firstDenied]. rewrite Hden.
  rewrite firstDenied_charge in Ho, Hin by done.
  assert (Htake : forall j x, x ∈ lims -> takeOf j x (chargeOf i lim h) = takeOf j x h).
  { intros j x Hx. unfold takeOf. rewrite chargeOf_other; [done|]. intros Heq.
    apply Hnew. rewrite Heq. by apply list_elem_of_fmap_2. }
  split; [|split].
  - rewrite Ho. destruct (firstDenied (S i) lims h) as [[k x]|] eqn:Hf; [|done].
    unfold rejection. rewrite Htake; [done|]. by eapply firstDenied_in.
  - intros p [Hne Hp]%not_elem_of_cons. rewrite Hout by done. by apply chargeOf_other.
  - intros [|j] x Hx; simpl in Hx.
    + injection Hx as <-. rewrite Hout, chargeOf_own by done. rewrite Nat.add_0_r.
      assert (reached (firstDenied (S i) lims h) i = true) as ->; [|by rewrite andb_true_r].
      destruct (firstDenied (S i) lims h) as [[k x]|] eqn:Hf; [|done].
      apply firstDenied_ge in Hf. apply Nat.leb_le. lia.
    + rewrite (Hin j x Hx). replace (S i + j) with (i + S j) by lia.
      assert (Hxin : x ∈ lims) by (by eapply list_elem_of_lookup_2).
      rewrite Htake by done. rewrite chargeOf_other; [done|]. intros Heq.
      apply Hnew. rewrite Heq. by apply list_elem_of_fmap_2.
Qed.

Lemma serveLoop_spec i lims h :
  NoDup (strategy <$> lims) ->
  let res := serveLoop Eval NewInput fixedTake fixedAfter clock i s lims r addr rawIP cookies h in
  LoopSpec i lims h (fst (fst res)) (snd (fst res)).
Proof.
  revert i h. induction lims as [|lim lims IH]; intros i h; simpl; [done|].
  intros [Hnew Hnd]%NoDup_cons.
  destruct (inScope Eval NewInput s r addr lim) eqn:Hsc; simpl.
  2: { apply LoopSpec_cons; [done|by unfold denies; rewrite Hsc|].
       unfold chargeOf. rewrite Hsc. by apply IH. }
  destruct (h !! strategy lim) as [st|] eqn:Hst.
  2: { assert (takeOf i lim h = None) as Ht by (unfold takeOf; by rewrite Hst).
       apply LoopSpec_cons; [done|unfold denies; by rewrite Ht, andb_false_r|].
       unfold chargeOf. rewrite Hsc, Ht. by apply IH. }
  destruct (sTake _ _ _ st) as [ok st'] eqn:Htk.
  assert (takeOf i lim h = Some (ok, st')) as Ht by (unfold takeOf; by rewrite Hst; simpl; rewrite Htk).
  assert (Hch : chargeOf i lim h = <[strategy lim := st']> h) by (unfold chargeOf; by rewrite Hsc, Ht).
  destruct ok; [|destruct (c_mode lim) eqn:Hm]; simpl.
  - apply LoopSpec_cons; [done|unfold denies; by rewrite Ht, andb_false_r|]. rewrite Hch. by apply IH.
  - assert (Hden : denies i lim h = true) by (unfold denies; by rewrite Hsc, Hm, Ht).
    unfold LoopSpec. cbn [firstDenied]. rewrite Hden. split; [|split].
    + unfold rejection. by rewrite Ht.
    + intros p [Hne Hp]%not_elem_of_cons. by rewrite lookup_insert_ne.
    + intros [|j] x Hx; simpl in Hx; simpl.
      * injection Hx as <-. by rewrite lookup_insert_eq, Nat.add_0_r, Hsc, Nat.leb_refl, Ht.
      * rewrite (proj2 (Nat.leb_gt _ _)) by lia. rewrite andb_false_r.
        apply lookup_insert_ne. intros Heq. apply Hnew. rewrite Heq.
        apply list_elem_of_fmap_2. by eapply list_elem_of_lookup_2.
  - apply LoopSpec_cons; [done|unfold denies; by rewrite Hm, andb_false_r|]. rewrite Hch. by apply IH.
Qed.
End request.

(** A request is decided on the counters it finds on arrival. ACME challenges
    pass and charge nothing. Otherwise the request is rejected, with the status,
    message and Retry-After of its own limit, exactly by the first enforced limit
    in scope (client not excluded, filter cleanly true) whose strategy does not
    admit its key; limits in scope up to that one are charged exactly once, and
    those after it or out of scope not at all. *)
Theorem serve_spec clock (s : @set_ Predicate) r (h : gmap nat (@Strategy FixedState)) :
  NoDup (strategy <$> limits s) ->
  let addr := clientAddr ParseAddr s r in
  let raw := if needsIP s then XRealIP r else "" in
  let ck := if needsCookie s then cookieMap (cookieList r) else ∅ in
  let res := serve Eval NewInput ParseAddr fixedTake fixedAfter clock s r h in
  let stop := firstDenied clock s r addr raw ck 0 (limits s) h in
  if has_prefix (RequestURI r) acmeChallengePrefix then res = (Passed, h, [])
  else
    fst (fst res) = match stop with
                    | Some (k, lim) => rejection clock s r addr raw ck k lim h
                    | None => Passed
                    end /\
    forall j lim, limits s !! j = Some lim ->
      snd (fst res) !! strategy lim =
      if inScope Eval NewInput s r addr lim && reached stop j
      then snd <$> takeOf clock s r addr raw ck j lim h
      else h !! strategy lim.
Proof.
  intros Hnd addr raw ck res stop. subst res. unfold serve. destruct (has_prefix _ _); [done|].
  fold addr raw ck.
  destruct (serveLoop_spec clock s r addr raw ck 0 (limits s) h Hnd) as (Ho & _ & Hin).
  split; [exact Ho|exact Hin].
Qed.

End engine.
(** A toy engine: filters are paths, the fixed window is a plain counter per key. *)
Definition toyNew (_ : Z) (_ : bool) (f : string) : option string := Some f.
Definition toyEval (p i : string) : option bool := Some (String.eqb p i).
Definition toyInput (r : Request) (_ : string) (_ : Z) : string := RequestURI r.
Definition toyAddr (x : string) : option (Addr * string) :=
  if String.eqb x "10.0.0.1" then Some (V4 167772161, "") else None.
Definition toyPrefix (x : string) : option Prefix := Some (mkPrefix (V4 167772160) 8).
Definition toyTake (m _ _ : Z) (k : string) (st : gmap string Z) : bool * gmap string Z :=
  let c := SlidingWindow.count st k in
  if (m <=? c)%Z then (false, st) else (true, <[k := (c + 1)%Z]> st).
Definition toyAfter (_ sz now : Z) (_ : string) (_ : gmap string Z) : Z := (sz - now mod sz)%Z.

Definition exLimits : list Limit :=
  [mkLimit "a" ["ip-host"; "header:X-Key"] 1 "1m" "" "" 0 "" [] "";
   mkLimit "b" [] 2 "1s" "sliding" "shadow" 503 "slow down" ["10.0.0.0/8"] " /x "].
Definition exNew : @Limiter string (gmap string Z) := newLimiter "global" true None None None.
Definition exLimiter : @Limiter string (gmap string Z) :=
  snd (SetLimits toyNew toyPrefix ∅ exLimits exNew).
Definition exRequest : Request := mkRequest "/y" "acme.com" "1.2.3.4.5" (fun _ => "k") [].

Lemma limiter_invariant_witness : Inv exLimiter.
Proof.
  apply (limiter_invariant toyNew toyEval toyInput toyAddr toyPrefix ∅ toyTake toyAfter
           "global" true None None None exLimiter []).
  eapply star_step; [apply (ls_set _ _ _ _ _ _ _ _ exLimits)|apply star_refl].
Defined.

Lemma exLimiter_ok : Inv exLimiter.
Proof.
  apply (SetLimits_inv toyNew toyPrefix ∅ exLimits exNew).
  split; simpl; [intros; apply lookup_empty|done].
Qed.

(** Reloading the same limits keeps the very same strategies. *)
Lemma SetLimits_carries_counters_witness :
  let res := SetLimits toyNew toyPrefix ∅ exLimits exLimiter in
  (fst res <> [] -> snd res = exLimiter) /\
  (strategy <$> oldLimits (snd res)) = (strategy <$> oldLimits exLimiter).
Proof.
  pose proof (SetLimits_carries_counters toyNew toyPrefix ∅ exLimits exLimiter exLimiter_ok) as H.
  destruct (SetLimits toyNew toyPrefix ∅ exLimits exLimiter) as [errs l'] eqn:He.
  split; [apply H|]. change l' with (snd (errs, l')). rewrite <- He. vm_compute. reflexivity.
Defined.

Lemma bucketKey_injective_witness :
  exists (c : @compiledLimit string) s,
    limits s = [c] /\
    (bucketKey s c exRequest None "1.2.3.4.5" ∅ =
     bucketKey s c (mkRequest "/z" "acme.com" "1.2.3.4.5" (fun _ => "k") []) None "1.2.3.4.5" ∅ ->
     partValue s exRequest None "1.2.3.4.5" ∅ <$> keyParts c =
     partValue s (mkRequest "/z" "acme.com" "1.2.3.4.5" (fun _ => "k") []) None "1.2.3.4.5" ∅
       <$> keyParts c).
Proof.
  destruct (compileLimit toyNew toyPrefix (∅ : gmap string Z) exNew 0
              (mkLimit "a" ["ip-host"; "header:X-Key"] 1 "1m" "" "" 0 "" [] ""))
    as [[[c st] norm]|e] eqn:Hc; [|by vm_compute in Hc].
  exists c, (mkSet [c] [] true false false None None None). split; [done|].
  apply (bucketKey_injective toyNew toyPrefix (∅ : gmap string Z) exNew 0 _ c st norm _ _ _ _ _ _ _ _ _ Hc).
  vm_compute in Hc. injection Hc as <- <- <-. intros p Hp _. simpl in Hp.
  repeat (apply elem_of_cons in Hp as [->|Hp]; [by vm_compute|]). by apply elem_of_nil in Hp.
Defined.

Lemma serve_spec_witness :
  exists s, live exLimiter = Some s /\
    let res := serve toyEval toyInput toyAddr toyTake toyAfter (fun _ => (0, 0)%Z) s exRequest
                 (heap exLimiter) in
    fst (fst res) =
    match firstDenied toyEval toyInput toyTake (fun _ => (0, 0)%Z) s exRequest
            (clientAddr toyAddr s exRequest) "1.2.3.4.5" ∅ 0 (limits s) (heap exLimiter) with
    | Some (k, lim) => rejection toyTake toyAfter (fun _ => (0, 0)%Z) s exRequest
                         (clientAddr toyAddr s exRequest) "1.2.3.4.5" ∅ k lim (heap exLimiter)
    | None => Passed
    end.
Proof.
  destruct (live exLimiter) as [s|] eqn:Hs; [|by vm_compute in Hs].
  exists s. split; [done|]. intros res.
  assert (Hnd : NoDup (strategy <$> limits s)) by apply (inv_set _ exLimiter_ok s Hs).
  pose proof (serve_spec toyEval toyInput toyAddr toyTake toyAfter (fun _ => (0, 0)%Z) s exRequest
           (heap exLimiter) Hnd) as H.
  vm_compute in Hs. injection Hs as <-. exact (proj1 H).
Defined.

End RateLimitProps.
