(* ===== verification/Controller.v ===== *)
(** * The controller: Kubernetes objects to routes

    Models [src/controller.go]: the watched stores, the reloads that turn them
    into HTTP routes, port routes, host routes and the certificate table, the
    incremental endpoint path, the watch and resync loop, the start-up list
    retry and the request handler.

    Kubernetes objects are records with the fields the controller reads.  A
    [sync.Map] keyed by namespace/name is a [gmap]; its [Range] visits the
    entries in no fixed order, so every reload takes the visited list as an
    argument and the theorems quantify over all permutations of the store. *)

From S2P Require Import Prelude GoString Route Certs.

Set Default Proof Using "Type".

Module Controller.
Import RRLB Table.

(** ** Objects *)

Inductive PathType := Prefix | Exact | ImplementationSpecific | OtherPathType.

Record BackendService := mkBackend { be_Name : string; be_PortName : string; be_PortNumber : Z }.
Record HTTPPath := mkPath {
  Path : string;
  pathType : option PathType;
  backend : option BackendService;
}.
Record Rule := mkRule { Host : string; HTTP : option (list HTTPPath) }.
Record Ingress := mkIngress {
  ing_Namespace : string;
  ing_Name : string;
  IngressClassName : option string;
  Annotations : gmap string string;
  Rules : list Rule;
  TLSSecretNames : list string;
}.

Inductive IntOrString := IntVal (v : Z) | StrVal (s : string).
Record ServicePort := mkSvcPort {
  p_Name : string;
  p_Port : Z;
  TargetPort : IntOrString;
  AppProtocol : option string;
}.
Inductive ServiceType := ExternalNameType | OtherServiceType (t : string).
Record Service := mkService {
  svc_Namespace : string;
  svc_Name : string;
  Type_ : ServiceType;
  ExternalName : string;
  Ports : list ServicePort;
}.

Inductive AddressType := FQDN | IPv4 | IPv6.
Record Endpoint := mkEndpoint { Ready : option bool; Addresses : list string }.
Record EndpointPort := mkEPPort { epp_Name : option string; epp_Port : option Z }.
Record EndpointSlice := mkSlice {
  es_Namespace : string;
  es_Name : string;
  Labels : gmap string string;
  addressType : AddressType;
  endpoints : list Endpoint;
  es_Ports : list EndpointPort;
}.
Record Subset := mkSubset { ss_Addresses : list string; ss_Ports : list (string * Z) }.
Record Endpoints := mkEndpoints { ep_Namespace : string; ep_Name : string; Subsets : list Subset }.

(** ** Names *)

Definition IngressClass : string := "parapet".

Definition objectKey (ns name : string) : string := ns +:+ "/" +:+ name.
Definition svcSuffix : string := ".svc.cluster.local".
Definition buildHost (ns name : string) : string := name +:+ "." +:+ ns +:+ svcSuffix.
Definition buildHostPort (ns name : string) (port : Z) : string :=
  name +:+ "." +:+ ns +:+ ".svc.cluster.local:" +:+ itoa port.

Definition getIngressClass (ing : Ingress) : string :=
  match IngressClassName ing with
  | Some c => c
  | None => default "" (Annotations ing !! "kubernetes.io/ingress.class")
  end.

Definition sliceServiceName (es : EndpointSlice) : string :=
  default "" (Labels es !! "kubernetes.io/service-name").

(** ** Backends *)

Record backendConfig := mkConfig { Protocol : string; PortName : string; PortNumber : Z }.

Definition setProtocol (p : ServicePort) (proto : string) : string :=
  match AppProtocol p with Some a => a | None => proto end.

(** The last port of that name wins. *)
Definition byNameStep (name : string) (c : backendConfig) (p : ServicePort) : backendConfig :=
  if String.eqb (p_Name p) name
  then mkConfig (setProtocol p (Protocol c)) (PortName c) (p_Port p) else c.

Definition byNumberStep (num : Z) (acc : backendConfig * bool) (p : ServicePort) :
    backendConfig * bool :=
  if (p_Port p =? num)%Z
  then (mkConfig (setProtocol p (Protocol (fst acc))) (p_Name p) (PortNumber (fst acc)), true)
  else acc.

Definition getBackendConfig (b : BackendService) (svc : Service) : backendConfig * bool :=
  if negb (String.eqb (be_PortName b) "") then
    let c := fold_left (byNameStep (be_PortName b)) (Ports svc) (mkConfig "" (be_PortName b) 0) in
    if (PortNumber c =? 0)%Z then (c, false) else (c, true)
  else fold_left (byNumberStep (be_PortNumber b)) (Ports svc) (mkConfig "" "" (be_PortNumber b), false).

(** ** HTTP routes *)

(** What a route runs: a backend, or a handler a plugin registered. *)
Record BackendHandler := mkHandler {
  h_ingress : Ingress;
  h_service : Service;
  h_config : backendConfig;
  h_target : string;
}.
Inductive Handler := HBackend (b : BackendHandler) | HPlugin (src : string).

Definition normPath (p : string) : string :=
  let p := if String.eqb p "" then "/" else p in
  if has_prefix p "/" then p else "/" +:+ p.

(** The route keys of one path of one rule. *)
Definition routeKeys (host path : string) (pt : PathType) : list string :=
  match pt with
  | Prefix =>
      let src := host +:+ trim_suffix_char c_slash path in
      (if String.eqb path "/" then [] else [src]) ++ [src +:+ "/"]
  | Exact => [if String.eqb path "/" then host +:+ path else host +:+ trim_suffix_char c_slash path]
  | ImplementationSpecific => [host +:+ path]
  | OtherPathType => []
  end.

(** The handler of one path, when its backend resolves. *)
Definition pathHandler (services : gmap string Service) (ing : Ingress) (p : HTTPPath) :
    option BackendHandler :=
  match backend p with
  | None => None
  | Some b =>
      match services !! objectKey (ing_Namespace ing) (be_Name b) with
      | None => None
      | Some svc =>
          let (config, ok) := getBackendConfig b svc in
          if negb ok then None
          else if (PortNumber config <=? 0)%Z then None
          else Some (mkHandler ing svc config
                       (buildHostPort (ing_Namespace ing) (be_Name b) (PortNumber config)))
      end
  end.

Definition pathRoutes (services : gmap string Service) (ing : Ingress) (host : string)
    (p : HTTPPath) : list (string * Handler) :=
  match pathHandler services ing p with
  | None => []
  | Some h => (fun k => (k, HBackend h)) <$>
                routeKeys (to_lower host) (normPath (Path p))
                  (default ImplementationSpecific (pathType p))
  end.

Definition ruleRoutes (services : gmap string Service) (ing : Ingress) (r : Rule) :
    list (string * Handler) :=
  match HTTP r with
  | None => []
  | Some paths => List.concat (pathRoutes services ing (Host r) <$> paths)
  end.

Definition ingressRoutes (services : gmap string Service) (ing : Ingress) : list (string * Handler) :=
  List.concat (ruleRoutes services ing <$> Rules ing).

Definition addRoutes (rs : list (string * Handler)) (m : gmap string Handler) : gmap string Handler :=
  insertAll rs m.

(** Plugins run first on an ingress and may register routes of their own. *)
Definition loadIngress (plugins : list (Ingress -> gmap string Handler -> gmap string Handler))
    (services : gmap string Service) (m : gmap string Handler) (ing : Ingress) :
    gmap string Handler :=
  if negb (String.eqb (getIngressClass ing) IngressClass) then m
  else addRoutes (ingressRoutes services ing) (fold_left (fun m pl => pl ing m) plugins m).

Definition buildKnownHosts (routes : gmap string Handler) : gset string :=
  list_to_set (omap (fun r => match index_byte c_slash r with
                              | Some (S i) => Some (str_take (S i) r)
                              | _ => None
                              end) (map_to_list routes).*1).

(** ** Ports and external names *)

Definition ipsOf (es : EndpointSlice) : list string :=
  match addressType es with
  | FQDN => []
  | _ => List.concat (Addresses <$>
           List.filter (fun e => match Ready e with Some false => false | _ => true end) (endpoints es))
  end.

Definition appendReadyIPs (ips : list string) (es : EndpointSlice) : list string := ips ++ ipsOf es.
Definition appendEndpointsReadyIPs (ips : list string) (ep : Endpoints) : list string :=
  ips ++ List.concat (ss_Addresses <$> Subsets ep).

Definition ownedBy (ns name : string) (es : EndpointSlice) : bool :=
  String.eqb (es_Namespace es) ns && String.eqb (sliceServiceName es) name.

Definition namedSlicePort (name : string) (p : EndpointPort) : option Z :=
  match epp_Name p, epp_Port p with
  | Some n, Some v => if String.eqb n name && (0 <? v)%Z then Some v else None
  | _, _ => None
  end.

(** [slices] is the order in which the slice store is visited. *)
Definition resolveTargetPort (slices : list EndpointSlice) (eps : gmap string Endpoints)
    (s : Service) (p : ServicePort) : option string :=
  match TargetPort p with
  | IntVal v => if (0 <? v)%Z then Some (itoa v) else Some (itoa (p_Port p))
  | StrVal _ =>
      let mine := List.filter (ownedBy (svc_Namespace s) (svc_Name s)) slices in
      match omap (namedSlicePort (p_Name p)) (List.concat (es_Ports <$> mine)) with
      | v :: _ => Some (itoa v)
      | [] =>
          match mine with
          | _ :: _ => None
          | [] =>
              match eps !! objectKey (svc_Namespace s) (svc_Name s) with
              | None => None
              | Some ep =>
                  itoa ∘ snd <$>
                    List.find (fun np => String.eqb (fst np) (p_Name p) && (0 <? snd np)%Z)
                      (List.concat (ss_Ports <$> Subsets ep))
              end
          end
      end
  end.

Definition trimmedExternalName (s : Service) : string :=
  trim_suffix_char c_dot (trim_space (ExternalName s)).

(** The port routes and external name of one service. *)
Definition portRoute (slices : list EndpointSlice) (eps : gmap string Endpoints) (s : Service)
    (p : ServicePort) : option (string * string) :=
  match Type_ s with
  | ExternalNameType =>
      if String.eqb (trimmedExternalName s) "" then None
      else Some (buildHostPort (svc_Namespace s) (svc_Name s) (p_Port p), itoa (p_Port p))
  | OtherServiceType _ =>
      (fun t => (buildHostPort (svc_Namespace s) (svc_Name s) (p_Port p), t))
        <$> resolveTargetPort slices eps s p
  end.

Definition serviceStep (slices : list EndpointSlice) (eps : gmap string Endpoints)
    (acc : gmap string string * gmap string string) (s : Service) :
    gmap string string * gmap string string :=
  let (ports, exts) := acc in
  (insertAll (omap (portRoute slices eps s) (Ports s)) ports,
   match Type_ s with
   | ExternalNameType =>
       if String.eqb (trimmedExternalName s) "" then exts
       else <[buildHost (svc_Namespace s) (svc_Name s) := trimmedExternalName s]> exts
   | OtherServiceType _ => exts
   end).

Definition serviceTables (slices : list EndpointSlice) (eps : gmap string Endpoints)
    (svcs : list Service) : gmap string string * gmap string string :=
  fold_left (serviceStep slices eps) svcs (∅, ∅).

(** ** Host routes *)

Definition nonEmptyLB (ips : list string) : option RRLB :=
  match ips with [] => None | _ => Some (mkRRLB ips 0) end.

Definition aggregateIPs (slices : list EndpointSlice) (eps : gmap string Endpoints)
    (ns name : string) : list string :=
  let mine := List.filter (ownedBy ns name) slices in
  match mine with
  | [] => match eps !! objectKey ns name with
          | Some ep => appendEndpointsReadyIPs [] ep
          | None => []
          end
  | _ => fold_left appendReadyIPs mine []
  end.

Definition aggregateServiceIPs (slices : list EndpointSlice) (eps : gmap string Endpoints)
    (ns name : string) : option RRLB :=
  nonEmptyLB (aggregateIPs slices eps ns name).

Definition fullSliceStep (m : gmap string (list string)) (es : EndpointSlice) :
    gmap string (list string) :=
  let svc := sliceServiceName es in
  if String.eqb svc "" then m
  else let host := buildHost (es_Namespace es) svc in
       <[host := appendReadyIPs (default [] (m !! host)) es]> m.

Definition fullEndpointsStep (sliceHosts : gmap string (list string))
    (m : gmap string (list string)) (ep : Endpoints) : gmap string (list string) :=
  let host := buildHost (ep_Namespace ep) (ep_Name ep) in
  match sliceHosts !! host with
  | Some _ => m
  | None => <[host := appendEndpointsReadyIPs (default [] (m !! host)) ep]> m
  end.

(** The whole table; [eps] is the visiting order of the legacy store. *)
Definition fullHostRoutes (slices : list EndpointSlice) (eps : list Endpoints) : gmap string RRLB :=
  let bySlice := fold_left fullSliceStep slices ∅ in
  omap nonEmptyLB (fold_left (fullEndpointsStep bySlice) eps bySlice).

(** ** Secrets *)

Record Secret := mkSecret {
  sec_Namespace : string; sec_Name : string; sec_isTLS : bool; tls_crt : string; tls_key : string }.

Section certs.
Context (X509KeyPair : string -> string -> option CertTable.Certificate).

Definition secretCert (s : Secret) : option CertTable.Certificate := X509KeyPair (tls_crt s) (tls_key s).

Definition ingressSecretKeys (ings : list Ingress) : gset string :=
  list_to_set (List.concat ((fun ing => objectKey (ing_Namespace ing) <$> TLSSecretNames ing) <$> ings)).

(** [keys] is the visiting order of the key set ([LoadAllCerts] off). *)
Definition certsOf (loadAll : bool) (secrets : gmap string Secret) (visited : list Secret)
    (keys : list string) : list CertTable.Certificate :=
  if loadAll then omap secretCert (List.filter sec_isTLS visited)
  else omap secretCert (omap (fun k => secrets !! k) keys).

Definition reloadSecretTable (loadAll : bool) (secrets : gmap string Secret) (visited : list Secret)
    (keys : list string) : CertTable.Table :=
  CertTable.Set_ (certsOf loadAll secrets visited keys).
End certs.

(** ** The controller's state and its reloads *)

Record Controller := mkController {
  watchedIngresses : gmap string Ingress;
  watchedServices : gmap string Service;
  watchedEndpointSlices : gmap string EndpointSlice;
  watchedEndpoints : gmap string Endpoints;
  routes : gmap string Handler;
  knownHosts : gset string;
  routeTable : Table;
}.

Definition New : Controller := mkController ∅ ∅ ∅ ∅ ∅ ∅ Table.empty.

Definition with_table (t : Table) (c : Controller) : Controller :=
  mkController (watchedIngresses c) (watchedServices c) (watchedEndpointSlices c)
    (watchedEndpoints c) (routes c) (knownHosts c) t.

Definition reloadIngress (plugins : list (Ingress -> gmap string Handler -> gmap string Handler))
    (ings : list Ingress) (c : Controller) : Controller :=
  let rs := fold_left (loadIngress plugins (watchedServices c)) ings ∅ in
  mkController (watchedIngresses c) (watchedServices c) (watchedEndpointSlices c)
    (watchedEndpoints c) rs (buildKnownHosts rs) (routeTable c).

Definition IsKnownHost (c : Controller) (host : string) : bool := bool_decide (host ∈ knownHosts c).

Definition reloadService (svcs : list Service) (slices : list EndpointSlice) (c : Controller) :
    Controller :=
  let (ports, exts) := serviceTables slices (watchedEndpoints c) svcs in
  with_table (SetExternalNameRoutes exts (SetPortRoutes ports (routeTable c))) c.

Definition reloadEndpoint (slices : list EndpointSlice) (eps : list Endpoints) (c : Controller) :
    Controller :=
  with_table (SetHostRoutes (fullHostRoutes slices eps) (routeTable c)) c.

(** [slices] is the slice store as visited by the aggregation. *)
Definition reloadEndpointSlice (slices : list EndpointSlice) (es : EndpointSlice) (c : Controller) :
    Controller :=
  let svc := sliceServiceName es in
  if String.eqb svc "" then c
  else with_table (SetHostRoute (buildHost (es_Namespace es) svc)
                     (aggregateServiceIPs slices (watchedEndpoints c) (es_Namespace es) svc)
                     (routeTable c)) c.

Definition reloadEndpointsObject (slices : list EndpointSlice) (ep : Endpoints) (c : Controller) :
    Controller :=
  with_table (SetHostRoute (buildHost (ep_Namespace ep) (ep_Name ep))
                (aggregateServiceIPs slices (watchedEndpoints c) (ep_Namespace ep) (ep_Name ep))
                (routeTable c)) c.

(** ** Serving *)

Inductive Response :=
| ServiceUnavailable
| Proxied (scheme : option string) (target : string).

(** [makeHandler]'s request function. *)
Definition serveBackend (now : nat -> Z) (h : BackendHandler) (t : Table) : Response * Table :=
  let (target, t') := Lookup now t (h_target h) in
  if String.eqb target "" then (ServiceUnavailable, t')
  else (Proxied (if String.eqb (Protocol (h_config h)) "" then None else Some (Protocol (h_config h)))
          target, t').

(** ** Watching one resource type *)

Inductive EventType := Added | Modified | Deleted | OtherEvent.

(** Store update and callback of one event. *)
Inductive Callback := OnUpsert | OnDelete.

Definition watchEvent {T} (key : T -> string) (ev : EventType) (obj : T) (store : gmap string T) :
    gmap string T * option Callback :=
  match ev with
  | Added | Modified => (<[key obj := obj]> store, Some OnUpsert)
  | Deleted => (delete (key obj) store, Some OnDelete)
  | OtherEvent => (store, None)
  end.

(** [None] is a failed list: the store is kept and no callback runs. *)
Definition resyncStore {T} (key : T -> string) (listed : option (list T)) (store : gmap string T) :
    gmap string T * bool :=
  match listed with
  | None => (store, false)
  | Some items =>
      let present : gset string := list_to_set (key <$> items) in
      let stored := fold_left (fun m o => <[key o := o]> m) items store in
      (filter (fun kv => kv.1 ∈ present) stored, true)
  end.

(** ** Start-up list with retry

    [results] are the outcomes of successive attempts; the answer is the waits
    between them and whether the loop has returned. *)

Definition baseBackoff : Z := (500 * millisecond)%Z.
Definition maxBackoff : Z := (10 * second)%Z.

Definition nextBackoff (b : Z) : Z :=
  if (b <? maxBackoff)%Z then (if (maxBackoff <? b * 2)%Z then maxBackoff else b * 2)%Z else b.

Fixpoint preloadLoop (backoff : Z) (results : list bool) : list Z * bool :=
  match results with
  | [] => ([], false)
  | true :: _ => ([], true)
  | false :: rest =>
      let (ws, done) := preloadLoop (nextBackoff backoff) rest in (backoff :: ws, done)
  end.

Definition preloadList (results : list bool) : list Z * bool := preloadLoop baseBackoff results.

End Controller.

(** ** Lemmas *)

Module ControllerLemmas.
Import BadAddr RRLB Table Controller.

(** *** Names *)

Lemma buildHost_inj ns1 n1 ns2 n2 :
  mem_char c_dot n1 = false -> mem_char c_dot n2 = false ->
  buildHost ns1 n1 = buildHost ns2 n2 -> ns1 = ns2 /\ n1 = n2.
Proof.
  intros H1 H2 H. unfold buildHost in H. apply (str_app_sep_inj c_dot) in H as [-> H]; [|done..].
  by apply str_app_inj_r in H as ->.
Qed.

Lemma objectKey_inj ns1 n1 ns2 n2 :
  mem_char c_slash ns1 = false -> mem_char c_slash ns2 = false ->
  objectKey ns1 n1 = objectKey ns2 n2 -> ns1 = ns2 /\ n1 = n2.
Proof. intros H1 H2 H. by apply (str_app_sep_inj c_slash) in H. Qed.

Lemma buildHostPort_host ns name port :
  buildHostPort ns name port = buildHost ns name +:+ String c_colon (itoa port).
Proof. unfold buildHostPort, buildHost, svcSuffix. rewrite !str_app_assoc. done. Qed.

Lemma buildHostPort_inj ns1 n1 p1 ns2 n2 p2 :
  mem_char c_dot n1 = false -> mem_char c_dot n2 = false ->
  buildHostPort ns1 n1 p1 = buildHostPort ns2 n2 p2 -> ns1 = ns2 /\ n1 = n2 /\ p1 = p2.
Proof.
  intros H1 H2 H. rewrite !buildHostPort_host in H.
  apply (str_app_count_inj c_colon) in H as [Hh Hp].
  - apply buildHost_inj in Hh as [-> ->]; [|done..]. by apply itoa_inj in Hp.
  - by rewrite !(proj2 (count_char_0 _ _)) by (by apply itoa_no_char).
Qed.

(** *** Full host routes, host by host *)

Definition sliceOf (host : string) (es : EndpointSlice) : bool :=
  negb (String.eqb (sliceServiceName es) "") &&
  String.eqb (buildHost (es_Namespace es) (sliceServiceName es)) host.

Definition epOf (host : string) (ep : Endpoints) : bool :=
  String.eqb (buildHost (ep_Namespace ep) (ep_Name ep)) host.

Definition epIPs (ep : Endpoints) : list string := List.concat (ss_Addresses <$> Subsets ep).

(** Appending the addresses of a group of objects to a host's entry, when the
    group is not empty. *)
Definition appended {A} (f : A -> list string) (l : list A) (cur : option (list string)) :
    option (list string) :=
  match l with [] => cur | _ => Some (default [] cur ++ List.concat (f <$> l)) end.

Lemma appended_cons {A} (f : A -> list string) a l cur :
  appended f l (Some (default [] cur ++ f a)) = appended f (a :: l) cur.
Proof. destruct l; simpl; [by rewrite app_nil_r|by rewrite <- !app_assoc]. Qed.

Lemma fullSlice_lookup slices m host :
  fold_left fullSliceStep slices m !! host =
  appended ipsOf (List.filter (sliceOf host) slices) (m !! host).
Proof.
  revert m. induction slices as [|es slices IH]; intros m; simpl; [done|].
  rewrite IH. unfold fullSliceStep, sliceOf at 2.
  destruct (String.eqb (sliceServiceName es) ""); simpl; [done|].
  destruct (String.eqb_spec (buildHost (es_Namespace es) (sliceServiceName es)) host) as [->|Hne].
  - rewrite lookup_insert_eq. apply appended_cons.
  - by rewrite lookup_insert_ne.
Qed.

Lemma fullEndpoints_lookup sh eps m host :
  fold_left (fullEndpointsStep sh) eps m !! host =
  match sh !! host with
  | Some _ => m !! host
  | None => appended epIPs (List.filter (epOf host) eps) (m !! host)
  end.
Proof.
  revert m. induction eps as [|ep eps IH]; intros m; simpl; [by destruct (sh !! host)|].
  rewrite IH. unfold fullEndpointsStep, epOf at 2.
  destruct (String.eqb_spec (buildHost (ep_Namespace ep) (ep_Name ep)) host) as [->|Hne].
  - destruct (sh !! host); [done|]. rewrite lookup_insert_eq. apply (appended_cons epIPs).
  - destruct (sh !! host) eqn:Hsh;
      destruct (sh !! buildHost (ep_Namespace ep) (ep_Name ep)); try done;
      by rewrite lookup_insert_ne.
Qed.

Lemma fold_appendReadyIPs l acc :
  fold_left appendReadyIPs l acc = acc ++ List.concat (ipsOf <$> l).
Proof.
  revert acc. induction l as [|es l IH]; intros acc; simpl; [by rewrite app_nil_r|].
  rewrite IH. unfold appendReadyIPs. by rewrite <- app_assoc.
Qed.

(** *** Well-formed stores *)

Definition okName (s : string) : Prop := mem_char c_dot s = false.

Definition values {T} (m : gmap string T) : list T := (map_to_list m).*2.

Record StoresOK (sl : gmap string EndpointSlice) (eps : gmap string Endpoints) : Prop := {
  so_slice k es : sl !! k = Some es ->
    k = objectKey (es_Namespace es) (es_Name es) /\ mem_char c_slash (es_Namespace es) = false /\
    okName (sliceServiceName es);
  so_eps k ep : eps !! k = Some ep ->
    k = objectKey (ep_Namespace ep) (ep_Name ep) /\ mem_char c_slash (ep_Namespace ep) = false /\
    okName (ep_Name ep);
}.

Lemma elem_of_values {T} (m : gmap string T) x : x ∈ values m <-> exists k, m !! k = Some x.
Proof.
  unfold values. rewrite list_elem_of_fmap. split.
  - intros ([k y] & -> & Hin%elem_of_map_to_list). eauto.
  - intros [k Hk]. exists (k, x). split; [done|]. by apply elem_of_map_to_list.
Qed.

Lemma values_insert {T} (m : gmap string T) k x :
  values (<[k := x]> m) ≡ₚ x :: values (delete k m).
Proof.
  unfold values. rewrite <- insert_delete_eq.
  rewrite map_to_list_insert by apply lookup_delete_eq. done.
Qed.

Lemma values_delete {T} (m : gmap string T) k x :
  m !! k = Some x -> values m ≡ₚ x :: values (delete k m).
Proof. intros Hk. rewrite <- (insert_id m k x) at 1 by done. apply values_insert. Qed.

Lemma filter_perm {T} (f : T -> bool) l1 l2 : l1 ≡ₚ l2 -> List.filter f l1 ≡ₚ List.filter f l2.
Proof.
  induction 1 as [|x l1 l2 _ IH|x y l|l1 l2 l3 _ IH1 _ IH2]; simpl; [done| | |by rewrite IH1].
  - destruct (f x); [by constructor|done].
  - destruct (f x), (f y); try done. constructor.
Qed.

Lemma filter_ext_in {T} (f g : T -> bool) l :
  (forall x, x ∈ l -> f x = g x) -> List.filter f l = List.filter g l.
Proof.
  intros H. induction l as [|x l IH]; simpl; [done|].
  rewrite (H x) by (by left). rewrite IH; [done|]. intros y Hy. apply H. by right.
Qed.

(** *** The host of a service *)

Lemma sliceOf_owned sl eps ns name slices :
  StoresOK sl eps -> slices ≡ₚ values sl -> okName name -> name <> "" ->
  List.filter (sliceOf (buildHost ns name)) slices = List.filter (ownedBy ns name) slices.
Proof.
  intros Hok Hp Hn Hne. apply filter_ext_in. intros es Hin.
  rewrite Hp, elem_of_values in Hin. destruct Hin as [k Hk].
  destruct (so_slice _ _ Hok _ _ Hk) as (_ & _ & Hes). unfold sliceOf, ownedBy.
  destruct (String.eqb_spec (buildHost (es_Namespace es) (sliceServiceName es)) (buildHost ns name))
    as [Heq|Hdiff].
  - apply buildHost_inj in Heq as [-> ->]; [|done..].
    apply String.eqb_neq in Hne. by rewrite Hne, !String.eqb_refl.
  - rewrite andb_false_r. symmetry. apply andb_false_iff.
    destruct (String.eqb_spec (es_Namespace es) ns) as [Hns|]; [right|by left].
    apply String.eqb_neq. intros Hsv. apply Hdiff. by rewrite Hns, Hsv.
Qed.

Lemma filter_values_key {T} (f : T -> bool) (m : gmap string T) k :
  (forall k' x, m !! k' = Some x -> f x = true -> k' = k) ->
  List.filter f (values m) = match m !! k with
                             | Some x => if f x then [x] else []
                             | None => []
                             end.
Proof.
  intros Huniq.
  assert (Hnone : forall m' : gmap string T, (forall k' x, m' !! k' = Some x -> f x = false) ->
            List.filter f (values m') = []).
  { intros m' H. destruct (List.filter f (values m')) as [|x l] eqn:He; [done|].
    assert (Hin : List.In x (List.filter f (values m'))) by (rewrite He; by left).
    apply List.filter_In in Hin as [Hin Hfx]. apply list_elem_of_In, elem_of_values in Hin as [k' Hk'].
    rewrite (H k' x Hk') in Hfx. done. }
  destruct (m !! k) as [x|] eqn:Hk.
  - pose proof (filter_perm f _ _ (values_delete m k x Hk)) as Hp. simpl in Hp.
    rewrite (Hnone (delete k m)) in Hp.
    + destruct (f x); [by apply Permutation_singleton_r in Hp|by apply Permutation_nil_r in Hp].
    + intros k' y Hy. apply lookup_delete_Some in Hy as [Hne Hy].
      destruct (f y) eqn:Hfy; [|done]. by destruct Hne; rewrite (Huniq k' y).
  - apply Hnone. intros k' y Hy. destruct (f y) eqn:Hfy; [|done].
    rewrite (Huniq k' y Hy Hfy) in Hy. congruence.
Qed.

Lemma epOf_key sl eps ns name epl :
  StoresOK sl eps -> epl ≡ₚ values eps -> mem_char c_slash ns = false -> okName name ->
  List.filter (epOf (buildHost ns name)) epl =
  match eps !! objectKey ns name with Some ep => [ep] | None => [] end.
Proof.
  intros Hok Hp Hns Hn.
  assert (Heq : List.filter (epOf (buildHost ns name)) (values eps) =
            match eps !! objectKey ns name with Some ep => [ep] | None => [] end).
  { rewrite (filter_values_key _ _ (objectKey ns name)).
    - destruct (eps !! objectKey ns name) as [ep|] eqn:Hk; [|done].
      destruct (so_eps _ _ Hok _ _ Hk) as (Hkey & Hs & _). unfold epOf.
      apply objectKey_inj in Hkey as [-> ->]; [|done..]. by rewrite String.eqb_refl.
    - intros k ep Hk Hh. destruct (so_eps _ _ Hok _ _ Hk) as (-> & _ & Hepn).
      unfold epOf in Hh. bool_props. by apply buildHost_inj in Hh as [-> ->]. }
  pose proof (filter_perm (epOf (buildHost ns name)) _ _ Hp) as Hf. rewrite Heq in Hf.
  destruct (eps !! _); [by apply Permutation_singleton_r in Hf|by apply Permutation_nil_r in Hf].
Qed.

(** The full rebuild gives a service's host exactly what the per-service
    aggregation computes. *)
Lemma fullHostRoutes_lookup sl eps ns name slices epl :
  StoresOK sl eps -> slices ≡ₚ values sl -> epl ≡ₚ values eps ->
  mem_char c_slash ns = false -> okName name -> name <> "" ->
  fullHostRoutes slices epl !! buildHost ns name = aggregateServiceIPs slices eps ns name.
Proof.
  intros Hok Hsl Hep Hns Hn Hne. unfold fullHostRoutes, aggregateServiceIPs, aggregateIPs.
  rewrite lookup_omap, fullEndpoints_lookup, !fullSlice_lookup, lookup_empty.
  rewrite (sliceOf_owned sl eps) by done. rewrite (epOf_key sl eps) by done.
  destruct (List.filter (ownedBy ns name) slices) as [|es l]; simpl.
  - destruct (eps !! objectKey ns name) as [ep|]; simpl; [|done].
    unfold epIPs, appendEndpointsReadyIPs. by rewrite app_nil_r.
  - rewrite fold_appendReadyIPs. done.
Qed.

(** *** Incremental updates *)

(** The same pool up to the order of its addresses. *)
Definition samePool (a b : option RRLB) : Prop :=
  match a, b with
  | Some x, Some y => IPs x ≡ₚ IPs y
  | None, None => True
  | _, _ => False
  end.

#[global] Instance samePool_equiv : Equivalence samePool.
Proof.
  split.
  - intros [x|]; simpl; done.
  - intros [x|] [y|]; simpl; done.
  - intros [x|] [y|] [z|]; simpl; try done. intros H1 H2. by etransitivity.
Qed.

Lemma nonEmptyLB_perm l1 l2 : l1 ≡ₚ l2 -> samePool (nonEmptyLB l1) (nonEmptyLB l2).
Proof.
  intros Hp. destruct l1 as [|x l1]; [by apply Permutation_nil_l in Hp as ->|].
  destruct l2 as [|y l2]; [by apply Permutation_nil_r in Hp|]. exact Hp.
Qed.

Lemma concat_perm {A B} (f : A -> list B) l1 l2 :
  l1 ≡ₚ l2 -> List.concat (f <$> l1) ≡ₚ List.concat (f <$> l2).
Proof.
  induction 1 as [|x l1 l2 _ IH|x y l|l1 l2 l3 _ IH1 _ IH2]; simpl; [done| | |by rewrite IH1].
  - by rewrite IH.
  - rewrite !app_assoc. apply Permutation_app_tail, Permutation_app_comm.
Qed.

(** The aggregation depends on the service's own slices only, in any order. *)
Lemma aggregate_perm sl1 sl2 eps1 eps2 ns name :
  List.filter (ownedBy ns name) sl1 ≡ₚ List.filter (ownedBy ns name) sl2 ->
  eps1 !! objectKey ns name = eps2 !! objectKey ns name ->
  samePool (aggregateServiceIPs sl1 eps1 ns name) (aggregateServiceIPs sl2 eps2 ns name).
Proof.
  intros Hp He. apply nonEmptyLB_perm. unfold aggregateIPs.
  destruct (List.filter (ownedBy ns name) sl1) as [|x l1].
  - apply Permutation_nil_l in Hp as <-. by rewrite He.
  - destruct (List.filter (ownedBy ns name) sl2) as [|y l2]; [by apply Permutation_nil_r in Hp|].
    rewrite !fold_appendReadyIPs. by apply (concat_perm ipsOf).
Qed.

Definition slicesOf (c : Controller) : list EndpointSlice := values (watchedEndpointSlices c).

Definition set_slices (m : gmap string EndpointSlice) (c : Controller) : Controller :=
  mkController (watchedIngresses c) (watchedServices c) m (watchedEndpoints c) (routes c)
    (knownHosts c) (routeTable c).
Definition set_endpoints (m : gmap string Endpoints) (c : Controller) : Controller :=
  mkController (watchedIngresses c) (watchedServices c) (watchedEndpointSlices c) m (routes c)
    (knownHosts c) (routeTable c).

Definition sliceKey (es : EndpointSlice) : string := objectKey (es_Namespace es) (es_Name es).
Definition epKey (ep : Endpoints) : string := objectKey (ep_Namespace ep) (ep_Name ep).

Definition okSlice (es : EndpointSlice) : Prop :=
  mem_char c_slash (es_Namespace es) = false /\ okName (sliceServiceName es).
Definition okEndpoints (ep : Endpoints) : Prop :=
  mem_char c_slash (ep_Namespace ep) = false /\ okName (ep_Name ep).

(** The stored slice of the same key, if any, belongs to the same service. *)
Definition keepsService (c : Controller) (es : EndpointSlice) : Prop :=
  forall old, watchedEndpointSlices c !! sliceKey es = Some old ->
    sliceServiceName old = sliceServiceName es.

(** What the two endpoint watchers, the resync, the service reload and the request
    path do to the stores and the route table. *)
Inductive estep (c : Controller) : Controller -> Prop :=
| es_slice ev es m slices : okSlice es -> keepsService c es ->
    fst (watchEvent sliceKey ev es (watchedEndpointSlices c)) = m -> ev <> OtherEvent ->
    slices ≡ₚ values m ->
    estep c (reloadEndpointSlice slices es (set_slices m c))
| es_endpoints ev ep m slices : okEndpoints ep ->
    fst (watchEvent epKey ev ep (watchedEndpoints c)) = m -> ev <> OtherEvent ->
    slices ≡ₚ slicesOf c ->
    estep c (reloadEndpointsObject slices ep (set_endpoints m c))
| es_resyncSlices items slices eps : Forall okSlice items ->
    slices ≡ₚ values (fst (resyncStore sliceKey (Some items) (watchedEndpointSlices c))) ->
    eps ≡ₚ values (watchedEndpoints c) ->
    estep c (reloadEndpoint slices eps
               (set_slices (fst (resyncStore sliceKey (Some items) (watchedEndpointSlices c))) c))
| es_resyncEndpoints items slices eps : Forall okEndpoints items ->
    slices ≡ₚ slicesOf c ->
    eps ≡ₚ values (fst (resyncStore epKey (Some items) (watchedEndpoints c))) ->
    estep c (reloadEndpoint slices eps
               (set_endpoints (fst (resyncStore epKey (Some items) (watchedEndpoints c))) c))
| es_service svcs slices : estep c (reloadService svcs slices c)
| es_lookup now addr : estep c (with_table (snd (Lookup now (routeTable c) addr)) c)
| es_markBad now addr : estep c (with_table (MarkBad now addr (routeTable c)) c).

Record HostInv (c : Controller) : Prop := {
  hi_ok : StoresOK (watchedEndpointSlices c) (watchedEndpoints c);
  hi_host ns name : mem_char c_slash ns = false -> okName name -> name <> "" ->
    samePool (addrToTargetHost (routeTable c) !! buildHost ns name)
             (aggregateServiceIPs (slicesOf c) (watchedEndpoints c) ns name);
}.

Lemma resyncStore_lookup {T} (key : T -> string) items (m : gmap string T) k x :
  fst (resyncStore key (Some items) m) !! k = Some x -> x ∈ items /\ k = key x.
Proof.
  simpl. rewrite map_lookup_filter_Some. intros [Hk Hin]. simpl in Hin.
  rewrite elem_of_list_to_set in Hin.
  assert (Hgen : forall m0 : gmap string T, fold_left (fun m o => <[key o := o]> m) items m0 !! k = Some x ->
            k ∈ (key <$> items) -> x ∈ items /\ k = key x).
  { clear. induction items as [|o items IH]; intros m0; simpl; [by intros _ ?%elem_of_nil|].
    intros Hk Hin. destruct (decide (k ∈ (key <$> items))) as [Hin'|Hnin].
    - destruct (IH _ Hk Hin'). split; [by right|done].
    - assert (k = key o) as -> by (by apply elem_of_cons in Hin as [?|?]).
      assert (Hl : fold_left (fun m o => <[key o := o]> m) items (<[key o := o]> m0) !! key o = Some o).
      { clear -Hnin. assert (H0 : <[key o := o]> m0 !! key o = Some o) by apply lookup_insert_eq.
        revert H0. generalize (<[key o := o]> m0). induction items as [|p items IH]; intros m1 H1; simpl; [done|].
        rewrite fmap_cons, not_elem_of_cons in Hnin. destruct Hnin as [Hne Hnin].
        apply IH; [done|]. by rewrite lookup_insert_ne. }
      rewrite Hl in Hk. injection Hk as ->. split; [by left|done]. }
  eauto.
Qed.

Lemma StoresOK_watch_slice sl eps ev es :
  StoresOK sl eps -> okSlice es -> StoresOK (fst (watchEvent sliceKey ev es sl)) eps.
Proof.
  intros [H1 H2] [Hns Hsv]. split; [|done]. intros k x.
  destruct ev; simpl; try apply H1;
    [intros [[<- <-]|[_ ?]]%lookup_insert_Some; auto..|intros [_ ?]%lookup_delete_Some; auto].
Qed.

Lemma StoresOK_watch_endpoints sl eps ev ep :
  StoresOK sl eps -> okEndpoints ep -> StoresOK sl (fst (watchEvent epKey ev ep eps)).
Proof.
  intros [H1 H2] [Hns Hsv]. split; [done|]. intros k x.
  destruct ev; simpl; try apply H2;
    [intros [[<- <-]|[_ ?]]%lookup_insert_Some; auto..|intros [_ ?]%lookup_delete_Some; auto].
Qed.

(** An event for one service leaves every other service's slices alone. *)
Lemma watch_slice_other sl eps ev es ns name :
  StoresOK sl eps -> okSlice es ->
  (forall old, sl !! sliceKey es = Some old -> sliceServiceName old = sliceServiceName es) ->
  (es_Namespace es, sliceServiceName es) <> (ns, name) ->
  List.filter (ownedBy ns name) (values (fst (watchEvent sliceKey ev es sl)))
  ≡ₚ List.filter (ownedBy ns name) (values sl).
Proof.
  intros Hok [Hns _] Hkeep Hne.
  assert (Hnot : forall x, sliceServiceName x = sliceServiceName es -> es_Namespace x = es_Namespace es ->
            ownedBy ns name x = false).
  { intros x H1 H2. unfold ownedBy. rewrite H1, H2. apply andb_false_iff.
    destruct (String.eqb_spec (es_Namespace es) ns), (String.eqb_spec (sliceServiceName es) name);
      auto. congruence. }
  assert (Hold : forall old, sl !! sliceKey es = Some old -> ownedBy ns name old = false).
  { intros old Ho. apply Hnot; [by apply Hkeep|].
    destruct (so_slice _ _ Hok _ _ Ho) as (Hk & Hns' & _). by apply objectKey_inj in Hk as [-> _]. }
  assert (Hdel : List.filter (ownedBy ns name) (values (delete (sliceKey es) sl))
                 ≡ₚ List.filter (ownedBy ns name) (values sl)).
  { destruct (sl !! sliceKey es) as [old|] eqn:Ho.
    - rewrite (filter_perm _ _ _ (values_delete sl _ _ Ho)). simpl. by rewrite (Hold old).
    - by rewrite delete_id. }
  assert (Hins : List.filter (ownedBy ns name) (values (<[sliceKey es := es]> sl))
                 ≡ₚ List.filter (ownedBy ns name) (values sl)).
  { rewrite (filter_perm _ _ _ (values_insert sl (sliceKey es) es)). simpl. by rewrite (Hnot es). }
  by destruct ev.
Qed.

(** A full rebuild establishes the invariant. *)
Lemma reloadEndpoint_inv c slices eps :
  StoresOK (watchedEndpointSlices c) (watchedEndpoints c) ->
  slices ≡ₚ slicesOf c -> eps ≡ₚ values (watchedEndpoints c) ->
  HostInv (reloadEndpoint slices eps c).
Proof.
  intros Hok Hs He. split; [done|]. intros ns name Hns Hn Hne. simpl.
  rewrite (fullHostRoutes_lookup (watchedEndpointSlices c) (watchedEndpoints c)) by done.
  apply aggregate_perm; [|done]. by apply filter_perm.
Qed.

(** Replacing one host's pool. *)
Lemma setHost_inv c t ns0 name0 pool :
  StoresOK (watchedEndpointSlices c) (watchedEndpoints c) ->
  okName name0 ->
  samePool pool (aggregateServiceIPs (slicesOf c) (watchedEndpoints c) ns0 name0) ->
  (forall ns name, mem_char c_slash ns = false -> okName name -> name <> "" -> (ns0, name0) <> (ns, name) ->
     samePool (addrToTargetHost t !! buildHost ns name)
              (aggregateServiceIPs (slicesOf c) (watchedEndpoints c) ns name)) ->
  HostInv (with_table (SetHostRoute (buildHost ns0 name0) pool t) c).
Proof.
  intros Hok Hn0 Hpool Hother. split; [done|]. intros ns name Hns Hn Hne.
  unfold SetHostRoute. simpl.
  assert (Hlk : forall ns name, okName name -> (ns0, name0) <> (ns, name) ->
            buildHost ns0 name0 <> buildHost ns name).
  { intros ns1 name1 Hn1 Hd Heq. by apply buildHost_inj in Heq as [-> ->]. }
  destruct (decide ((ns0, name0) = (ns, name))) as [[= -> ->]|Hd].
  - destruct pool as [lb|]; [by rewrite lookup_insert_eq|by rewrite lookup_delete_eq].
  - specialize (Hother ns name Hns Hn Hne Hd).
    destruct pool as [lb|]; [rewrite lookup_insert_ne by auto|rewrite lookup_delete_ne by auto];
      exact Hother.
Qed.

Lemma Lookup_samePool now t addr h :
  samePool (addrToTargetHost (snd (Lookup now t addr)) !! h) (addrToTargetHost t !! h).
Proof.
  pose proof (Lookup_pool now t addr h) as H.
  destruct (addrToTargetHost (snd (Lookup now t addr)) !! h), (addrToTargetHost t !! h);
    simpl in *; congruence || (injection H as ->; done) || done.
Qed.

Lemma estep_inv a b : HostInv a -> estep a b -> HostInv b.
Proof.
  intros [Hok Hhost] Hstep.
  destruct Hstep as [ev es m slices Hes Hkeep <- Hev Hp|ev ep m slices Hep <- Hev Hp
    |items slices eps Hitems Hs He|items slices eps Hitems Hs He|svcs slices|now addr|now addr].
  - unfold reloadEndpointSlice.
    pose proof (StoresOK_watch_slice _ _ ev es Hok Hes) as Hok'.
    destruct (String.eqb_spec (sliceServiceName es) "") as [Hempty|_].
    + split; [done|]. intros ns name Hns Hn Hne. simpl. etransitivity; [by apply Hhost|].
      apply aggregate_perm; [|done]. symmetry. apply (watch_slice_other _ (watchedEndpoints a)); try done.
      intros [= _ H]. congruence.
    + apply setHost_inv; [done|apply Hes| |].
      * apply aggregate_perm; [|done]. by apply filter_perm.
      * intros ns name Hns Hn Hne Hd. etransitivity; [by apply Hhost|].
        apply aggregate_perm; [|done]. symmetry. by apply (watch_slice_other _ (watchedEndpoints a)).
  - unfold reloadEndpointsObject.
    pose proof (StoresOK_watch_endpoints _ _ ev ep Hok Hep) as Hok'.
    apply setHost_inv; [done|apply Hep| |].
    + apply aggregate_perm; [|done]. by apply filter_perm.
    + intros ns name Hns Hn Hne Hd. etransitivity; [by apply Hhost|].
      apply aggregate_perm; [done|]. simpl. destruct Hep as [Hepns _].
      assert (epKey ep <> objectKey ns name).
      { intros Heq. apply Hd. by apply objectKey_inj in Heq as [-> ->]. }
      destruct ev; simpl; try done; [by rewrite lookup_insert_ne..|by rewrite lookup_delete_ne].
  - apply reloadEndpoint_inv; [|done|done]. split; [|apply Hok]. intros k es Hk.
    apply resyncStore_lookup in Hk as [Hin ->]. rewrite Forall_forall in Hitems.
    destruct (Hitems es Hin). done.
  - apply reloadEndpoint_inv; [|done|done]. split; [apply Hok|]. intros k ep Hk.
    apply resyncStore_lookup in Hk as [Hin ->]. rewrite Forall_forall in Hitems.
    destruct (Hitems ep Hin). done.
  - unfold reloadService. destruct (serviceTables _ _ _). by split.
  - split; [done|]. intros ns name Hns Hn Hne. simpl.
    etransitivity; [apply Lookup_samePool|by apply Hhost].
  - by split.
Qed.

(** *** HTTP routes *)

Definition classed (ing : Ingress) : bool := String.eqb (getIngressClass ing) IngressClass.

Lemma loadIngress_all services ings m :
  fold_left (loadIngress [] services) ings m =
  insertAll (List.concat (ingressRoutes services <$> List.filter classed ings)) m.
Proof.
  revert m. induction ings as [|ing ings IH]; intros m; simpl; [done|]. rewrite IH.
  unfold loadIngress, classed at 2, addRoutes.
  destruct (String.eqb (getIngressClass ing) IngressClass); simpl; [|done].
  by rewrite insertAll_app.
Qed.

Lemma elem_of_concat {A} (ls : list (list A)) x : x ∈ List.concat ls <-> exists l, l ∈ ls /\ x ∈ l.
Proof.
  rewrite list_elem_of_In, in_concat. setoid_rewrite list_elem_of_In. naive_solver.
Qed.

(** A route comes from a path of a rule of an ingress. *)
Definition declares (services : gmap string Service) (ing : Ingress) (k : string) (h : BackendHandler) : Prop :=
  exists r paths p, r ∈ Rules ing /\ HTTP r = Some paths /\ p ∈ paths /\
    pathHandler services ing p = Some h /\
    k ∈ routeKeys (to_lower (Host r)) (normPath (Path p))
          (default ImplementationSpecific (pathType p)).

Lemma ingressRoutes_iff services ing k h :
  (k, h) ∈ ingressRoutes services ing <-> exists b, h = HBackend b /\ declares services ing k b.
Proof.
  unfold ingressRoutes, ruleRoutes, declares. rewrite elem_of_concat. split.
  - intros (l & (r & -> & Hr)%list_elem_of_fmap & Hin).
    destruct (HTTP r) as [paths|] eqn:Hh; [|by apply elem_of_nil in Hin].
    apply elem_of_concat in Hin as (l & (p & -> & Hp)%list_elem_of_fmap & Hin).
    unfold pathRoutes in Hin. destruct (pathHandler services ing p) as [b|] eqn:Hb;
      [|by apply elem_of_nil in Hin].
    apply list_elem_of_fmap in Hin as (k' & [= -> ->] & Hk). exists b. split; [done|].
    by exists r, paths, p.
  - intros (b & -> & r & paths & p & Hr & Hh & Hp & Hb & Hk).
    eexists. split; [apply list_elem_of_fmap; exists r; by split|]. rewrite Hh.
    apply elem_of_concat. eexists. split; [apply list_elem_of_fmap; exists p; by split|].
    unfold pathRoutes. rewrite Hb. apply list_elem_of_fmap. by exists k.
Qed.

Lemma knownHosts_iff (rs : gmap string Handler) host :
  host ∈ buildKnownHosts rs <->
  host <> "" /\ mem_char c_slash host = false /\ exists path, is_Some (rs !! (host +:+ "/" +:+ path)).
Proof.
  unfold buildKnownHosts. rewrite elem_of_list_to_set, list_elem_of_omap. split.
  - intros (r & ([r' h] & -> & Hin%elem_of_map_to_list)%list_elem_of_fmap & Hr). cbn [fst] in Hr.
    destruct (index_byte c_slash r') as [[|i]|] eqn:Hi; try done.
    assert (str_take (S i) r' = host) as <- by congruence.
    apply index_byte_some in Hi as [Hd Ht].
    split; [by destruct r'; [|]|]. split; [done|]. exists (str_drop (S (S i)) r').
    assert (str_take (S i) r' +:+ "/" +:+ str_drop (S (S i)) r' = r') as ->; [|by eauto].
    transitivity (str_take (S i) r' +:+ str_drop (S i) r'); [by rewrite Hd|apply str_take_drop].
  - intros (Hne & Hs & path & h & Hh). exists (host +:+ "/" +:+ path). split.
    + apply list_elem_of_fmap. exists (host +:+ "/" +:+ path, h). split; [done|].
      by apply elem_of_map_to_list.
    + change (host +:+ "/" +:+ path) with (host +:+ String c_slash path).
      rewrite index_byte_app by done. destruct host as [|a host]; [done|].
      simpl String.length. cbn iota.
      change (S (String.length host)) with (String.length (String a host)). by rewrite str_take_app.
Qed.

(** *** Ports *)

Lemma serviceTables_ports slices eps svcs acc :
  fst (fold_left (serviceStep slices eps) svcs acc) =
  insertAll (List.concat ((fun s => omap (portRoute slices eps s) (Ports s)) <$> svcs)) (fst acc).
Proof.
  revert acc. induction svcs as [|s svcs IH]; intros acc; simpl; [done|].
  rewrite IH, insertAll_app. by destruct acc.
Qed.

Definition ServicesOK (svcs : gmap string Service) : Prop :=
  forall k s, svcs !! k = Some s ->
    k = objectKey (svc_Namespace s) (svc_Name s) /\ mem_char c_slash (svc_Namespace s) = false /\
    okName (svc_Name s) /\ NoDup (p_Port <$> Ports s).

Lemma portRoute_key slices eps s p k t :
  portRoute slices eps s p = Some (k, t) ->
  k = buildHostPort (svc_Namespace s) (svc_Name s) (p_Port p).
Proof.
  unfold portRoute. destruct (Type_ s); [by destruct (String.eqb _ _); [|intros [= <- _]]|].
  destruct (resolveTargetPort slices eps s p); [|done]. by intros [= <- _].
Qed.

Lemma port_entries slices eps m svcs k t :
  ServicesOK m -> svcs ≡ₚ values m ->
  (k, t) ∈ List.concat ((fun s => omap (portRoute slices eps s) (Ports s)) <$> svcs) <->
  exists s p, m !! objectKey (svc_Namespace s) (svc_Name s) = Some s /\ p ∈ Ports s /\
    portRoute slices eps s p = Some (k, t).
Proof.
  intros Hok Hp. rewrite elem_of_concat. split.
  - intros (l & (s & -> & Hs)%list_elem_of_fmap & Hin).
    rewrite Hp, elem_of_values in Hs. destruct Hs as [k' Hk'].
    destruct (Hok _ _ Hk') as [-> _]. apply list_elem_of_omap in Hin as (p & Hpin & Hr).
    by exists s, p.
  - intros (s & p & Hs & Hpin & Hr). eexists. split.
    + apply list_elem_of_fmap. exists s. split; [done|]. rewrite Hp. apply elem_of_values. eauto.
    + apply list_elem_of_omap. eauto.
Qed.

Lemma serviceTables_port_lookup slices eps m svcs ns name port t :
  ServicesOK m -> svcs ≡ₚ values m -> mem_char c_slash ns = false -> okName name ->
  fst (serviceTables slices eps svcs) !! buildHostPort ns name port = Some t <->
  exists s p, m !! objectKey ns name = Some s /\ p ∈ Ports s /\ p_Port p = port /\
    portRoute slices eps s p = Some (buildHostPort ns name port, t).
Proof.
  intros Hok Hp Hns Hn. unfold serviceTables. rewrite serviceTables_ports. simpl.
  assert (Hkey : forall t', (buildHostPort ns name port, t')
            ∈ List.concat ((fun s => omap (portRoute slices eps s) (Ports s)) <$> svcs) <->
            exists s p, m !! objectKey ns name = Some s /\ p ∈ Ports s /\ p_Port p = port /\
              portRoute slices eps s p = Some (buildHostPort ns name port, t')).
  { intros t'. rewrite (port_entries slices eps m) by done. split.
    - intros (s & p & Hs & Hpin & Hr). exists s, p.
      destruct (Hok _ _ Hs) as (_ & Hsl & Hsn & _).
      pose proof (portRoute_key _ _ _ _ _ _ Hr) as Hk.
      apply buildHostPort_inj in Hk as (-> & -> & ->); [|done..]. done.
    - intros (s & p & Hs & Hpin & _ & Hr). exists s, p.
      destruct (Hok _ _ Hs) as (Hk & Hsl & _). by rewrite <- Hk. }
  rewrite insertAll_iff; [apply Hkey|].
  intros t1 t2 (s1 & p1 & Hs1 & Hp1 & Hport1 & Hr1)%Hkey (s2 & p2 & Hs2 & Hp2 & Hport2 & Hr2)%Hkey.
  rewrite Hs1 in Hs2. injection Hs2 as <-. destruct (Hok _ _ Hs1) as (_ & _ & _ & Hnd).
  assert (p1 = p2) as <- by (apply (NoDup_fmap_inj p_Port (Ports s1)); congruence).
  congruence.
Qed.

Definition extRoute (s : Service) : option (string * string) :=
  match Type_ s with
  | ExternalNameType =>
      if String.eqb (trimmedExternalName s) "" then None
      else Some (buildHost (svc_Namespace s) (svc_Name s), trimmedExternalName s)
  | OtherServiceType _ => None
  end.

Lemma serviceTables_exts slices eps svcs acc :
  snd (fold_left (serviceStep slices eps) svcs acc) = insertAll (omap extRoute svcs) (snd acc).
Proof.
  revert acc. induction svcs as [|s svcs IH]; intros [ports exts]; simpl; [done|].
  rewrite IH. unfold extRoute at 2. simpl. destruct (Type_ s); [|done].
  by destruct (String.eqb (trimmedExternalName s) "").
Qed.

Lemma serviceTables_ext_lookup slices eps m svcs s :
  ServicesOK m -> svcs ≡ₚ values m -> m !! objectKey (svc_Namespace s) (svc_Name s) = Some s ->
  Type_ s = ExternalNameType -> trimmedExternalName s <> "" ->
  snd (serviceTables slices eps svcs) !! buildHost (svc_Namespace s) (svc_Name s) =
  Some (trimmedExternalName s).
Proof.
  intros Hok Hp Hs Ht Hne. unfold serviceTables. rewrite serviceTables_exts. simpl.
  assert (Hin : forall v, (buildHost (svc_Namespace s) (svc_Name s), v) ∈ omap extRoute svcs ->
            v = trimmedExternalName s).
  { intros v (s' & Hs' & He)%list_elem_of_omap. rewrite Hp, elem_of_values in Hs'.
    destruct Hs' as [k Hk]. destruct (Hok _ _ Hk) as (-> & _ & Hn' & _).
    destruct (Hok _ _ Hs) as (_ & _ & Hn & _). unfold extRoute in He.
    destruct (Type_ s'); [|done]. destruct (String.eqb _ _); [done|]. injection He as Hh <-.
    apply buildHost_inj in Hh as [H1 H2]; [|done..]. rewrite H1, H2, Hs in Hk. by injection Hk as ->. }
  apply insertAll_iff; [intros v1 v2 H1%Hin H2%Hin; congruence|].
  apply list_elem_of_omap. exists s. split; [rewrite Hp; apply elem_of_values; eauto|].
  unfold extRoute. rewrite Ht. by destruct (String.eqb_spec (trimmedExternalName s) "").
Qed.

(** The empty answer of a balancer whose addresses are all named means that every
    one of them was found bad. *)
Lemma Get_empty now bad lb :
  "" ∉ IPs lb -> IPs lb <> [] -> fst (Get now bad lb) = "" ->
  forall ip, ip ∈ IPs lb -> exists k, IsBad (now k) bad ip = true.
Proof.
  intros Hno Hne. unfold Get.
  destruct (Nat.eqb_spec (length (IPs lb)) 0) as [H0|_]; [by apply nil_length_inv in H0|].
  destruct (Nat.eqb_spec (length (IPs lb)) 1) as [H1|_].
  { simpl. destruct (IPs lb) as [|x [|]]; simpl in *; try done. intros ->. set_solver. }
  destruct (probe now bad (IPs lb) _) as [k|] eqn:Hp; simpl.
  - intros He. exfalso. apply Hno.
    destruct (mod_lookup (IPs lb) (Z.to_nat (u32 (current lb + 1) mod u32 (Z.of_nat (length (IPs lb)))) + k))
      as [x Hx]; [destruct (IPs lb); [done|simpl; lia]|].
    rewrite Hx in He. simpl in He. subst. by eapply list_elem_of_lookup_2.
  - intros _ ip [i Hi]%list_elem_of_lookup.
    destruct (probe_none _ _ _ _ Hp i) as (k & _ & Hk); [by eapply lookup_lt_Some|].
    exists k. by rewrite Hi in Hk.
Qed.

Lemma pathHandler_service svcs ing p h :
  ServicesOK svcs -> mem_char c_slash (ing_Namespace ing) = false ->
  pathHandler svcs ing p = Some h ->
  svcs !! objectKey (svc_Namespace (h_service h)) (svc_Name (h_service h)) = Some (h_service h) /\
  h_target h = buildHostPort (svc_Namespace (h_service h)) (svc_Name (h_service h))
                 (PortNumber (h_config h)).
Proof.
  intros Hok Hns. unfold pathHandler. destruct (backend p) as [b|]; [|done].
  destruct (svcs !! objectKey (ing_Namespace ing) (be_Name b)) as [svc|] eqn:Hs; [|done].
  destruct (getBackendConfig b svc) as [config ok]. destruct ok; [simpl|done].
  destruct (_ <=? 0)%Z; [done|]. intros [= <-]. simpl.
  destruct (Hok _ _ Hs) as (Hk & Hsl & _). pose proof Hk as Hk'.
  apply objectKey_inj in Hk as [H1 H2]; [|done..]. by rewrite <- H1, <- H2.
Qed.

(** A lookup of a service address, table by table. *)
Lemma Lookup_target now t ns name port :
  fst (Lookup now t (buildHostPort ns name port)) =
  match addrToTargetPort t !! buildHostPort ns name port with
  | None => ""
  | Some tp =>
      match addrToTargetHost t !! buildHost ns name with
      | Some lb => let ip := fst (Get now (Some (badAddr t)) lb) in
                   if String.eqb ip "" then "" else join_host_port ip tp
      | None => match addrToExternalName t !! buildHost ns name with
                | Some ext => join_host_port ext tp
                | None => ""
                end
      end
  end.
Proof.
  unfold Lookup. rewrite buildHostPort_host.
  destruct (split_addr (buildHost ns name) (itoa port)) as [-> ->]; [by apply itoa_no_char|].
  destruct (addrToTargetPort t !! _); [|done].
  destruct (addrToTargetHost t !! buildHost ns name) as [lb|].
  - destruct (Get now _ lb) as [ip lb']. simpl. by destruct (String.eqb ip "").
  - by destruct (addrToExternalName t !! buildHost ns name).
Qed.

(** The tables after the service and endpoint reloads, seen from one watched
    service: its host, its declared ports, its external name, and the bad addresses
    that survive. *)
Lemma reloaded_tables c svcs slices eps svc :
  ServicesOK (watchedServices c) -> svcs ≡ₚ values (watchedServices c) ->
  StoresOK (watchedEndpointSlices c) (watchedEndpoints c) ->
  slices ≡ₚ slicesOf c -> eps ≡ₚ values (watchedEndpoints c) ->
  watchedServices c !! objectKey (svc_Namespace svc) (svc_Name svc) = Some svc ->
  svc_Name svc <> "" ->
  let t' := routeTable (reloadEndpoint slices eps (reloadService svcs slices c)) in
  addrToTargetHost t' !! buildHost (svc_Namespace svc) (svc_Name svc)
    = nonEmptyLB (aggregateIPs slices (watchedEndpoints c) (svc_Namespace svc) (svc_Name svc)) /\
  (forall sp t, sp ∈ Ports svc ->
     portRoute slices (watchedEndpoints c) svc sp
       = Some (buildHostPort (svc_Namespace svc) (svc_Name svc) (p_Port sp), t) ->
     addrToTargetPort t' !! buildHostPort (svc_Namespace svc) (svc_Name svc) (p_Port sp) = Some t) /\
  (Type_ svc = ExternalNameType -> trimmedExternalName svc <> "" ->
     addrToExternalName t' !! buildHost (svc_Namespace svc) (svc_Name svc)
       = Some (trimmedExternalName svc)) /\
  badAddr t' = badAddr (routeTable c).
Proof.
  intros Hsv Hsvcs Hok Hsl Hep Hsvc Hname t'. destruct (Hsv _ _ Hsvc) as (_ & Hsl' & Hn & _).
  subst t'. unfold reloadEndpoint, reloadService.
  destruct (serviceTables _ _ _) as [ports exts] eqn:Htab. simpl.
  split; [by rewrite (fullHostRoutes_lookup (watchedEndpointSlices c) (watchedEndpoints c))|].
  split; [|split; [|done]].
  - intros sp t Hsp Ht.
    pose proof (serviceTables_port_lookup slices (watchedEndpoints c) (watchedServices c) svcs
                  (svc_Namespace svc) (svc_Name svc) (p_Port sp) t Hsv Hsvcs Hsl' Hn) as Hp.
    rewrite Htab in Hp. apply Hp. by exists svc, sp.
  - intros Hty Hext.
    pose proof (serviceTables_ext_lookup slices (watchedEndpoints c) _ _ svc Hsv Hsvcs Hsvc Hty Hext) as Hx.
    by rewrite Htab in Hx.
Qed.

(** What a request on a resolved backend is answered, in the terms of the tables. *)
Lemma resolved_route_is_served c ing p h svcs slices eps sp now :
  ServicesOK (watchedServices c) -> svcs ≡ₚ values (watchedServices c) ->
  StoresOK (watchedEndpointSlices c) (watchedEndpoints c) ->
  slices ≡ₚ slicesOf c -> eps ≡ₚ values (watchedEndpoints c) ->
  mem_char c_slash (ing_Namespace ing) = false ->
  pathHandler (watchedServices c) ing p = Some h ->
  svc_Name (h_service h) <> "" ->
  sp ∈ Ports (h_service h) -> p_Port sp = PortNumber (h_config h) ->
  let svc := h_service h in
  let ips := aggregateIPs slices (watchedEndpoints c) (svc_Namespace svc) (svc_Name svc) in
  let c' := reloadEndpoint slices eps (reloadService svcs slices c) in
  let scheme := if String.eqb (Protocol (h_config h)) "" then None else Some (Protocol (h_config h)) in
  let resp := fst (serveBackend now h (routeTable c')) in
  match Type_ svc with
  | OtherServiceType _ =>
      forall t, resolveTargetPort slices (watchedEndpoints c) svc sp = Some t ->
        ips <> [] -> "" ∉ ips ->
        (exists ip, ip ∈ ips /\ resp = Proxied scheme (join_host_port ip t)) \/
        (resp = ServiceUnavailable /\
         forall ip, ip ∈ ips -> exists k, IsBad (now k) (Some (badAddr (routeTable c))) ip = true)
  | ExternalNameType =>
      ips = [] -> trimmedExternalName svc <> "" ->
      resp = Proxied scheme (join_host_port (trimmedExternalName svc) (itoa (PortNumber (h_config h))))
  end.
Proof.
  intros Hsv Hsvcs Hok Hsl Hep Hns Hph Hname Hsp Hport svc ips c' scheme resp.
  destruct (pathHandler_service _ _ _ _ Hsv Hns Hph) as [Hsvc Htarget]. fold svc in Hsvc, Htarget.
  destruct (reloaded_tables c svcs slices eps svc) as (Hhost & Hports & Hx & Hbad); try done.
  fold c' in Hhost, Hports, Hx, Hbad. fold ips in Hhost.
  specialize (Hports sp). rewrite Hport, <- Htarget in Hports.
  assert (Hlk := Lookup_target now (routeTable c') (svc_Namespace svc) (svc_Name svc) (PortNumber (h_config h))).
  rewrite <- Htarget, Hhost, Hbad in Hlk.
  subst resp. unfold serveBackend. destruct (Type_ svc) as [|ty] eqn:Hty.
  - intros Hips Hext. rewrite (Hports (itoa (PortNumber (h_config h))) Hsp) in Hlk.
    2: { unfold portRoute. rewrite Hty, Hport, Htarget. by destruct (String.eqb_spec (trimmedExternalName svc) ""). }
    rewrite Hips in Hlk. cbn [nonEmptyLB] in Hlk.
    rewrite (Hx eq_refl Hext) in Hlk. destruct (Lookup now (routeTable c') (h_target h)) as [tg t']. cbn [fst] in Hlk.
    subst tg. rewrite (proj2 (String.eqb_neq _ _)) by apply join_host_port_ne. done.
  - intros t Ht Hips Hno. rewrite (Hports t Hsp) in Hlk.
    2: { unfold portRoute. by rewrite Hty, Ht, Hport, Htarget. }
    destruct ips as [|ip0 ips'] eqn:Hipseq; [done|]. rewrite <- Hipseq in *. clear Hipseq.
    assert (Hlb : nonEmptyLB ips = Some (mkRRLB ips 0)) by (destruct ips; done).
    rewrite Hlb in Hlk. cbn zeta in Hlk.
    pose proof (Get_in now (Some (badAddr (routeTable c))) (mkRRLB ips 0)) as Hin.
    pose proof (Get_empty now (Some (badAddr (routeTable c))) (mkRRLB ips 0) Hno Hips) as Hbad'.
    destruct (Lookup now (routeTable c') (h_target h)) as [tg t']. cbn [fst] in Hlk.
    destruct (String.eqb_spec (fst (Get now (Some (badAddr (routeTable c))) (mkRRLB ips 0))) "")
      as [He|He]; subst tg; cbn [String.eqb fst].
    + right. split; [done|]. by apply Hbad'.
    + left. destruct Hin as [Hin|Hin]; [done|]. eexists. split; [exact Hin|].
      by rewrite (proj2 (String.eqb_neq _ _)) by apply join_host_port_ne.
Qed.

(** *** What the cluster declares *)

(** A watched slice of a service: in its namespace, and labelled with its name. *)
Definition ownedSlice (sl : gmap string EndpointSlice) (ns name : string) (es : EndpointSlice) : Prop :=
  (exists k, sl !! k = Some es) /\ es_Namespace es = ns /\
  Labels es !! "kubernetes.io/service-name" = Some name.

(** The ready addresses of a service: those of the endpoints of its slices that are not
    reported unready; of its legacy object when it has no slice. *)
Inductive readyAddress (sl : gmap string EndpointSlice) (eps : gmap string Endpoints) (ns name : string) :
    string -> Prop :=
| ready_in_slice es e ip :
    ownedSlice sl ns name es -> addressType es <> FQDN -> e ∈ endpoints es -> Ready e <> Some false ->
    ip ∈ Addresses e -> readyAddress sl eps ns name ip
| ready_in_endpoints ep ss ip :
    (forall es, ~ ownedSlice sl ns name es) -> eps !! objectKey ns name = Some ep -> ss ∈ Subsets ep ->
    ip ∈ ss_Addresses ss -> readyAddress sl eps ns name ip.

(** The ports a service port stands for: the number it gives, the port itself when it
    gives none, and for a named one the port of that name of its slices, or of its legacy
    object when it has no slice. *)
Inductive targets (sl : gmap string EndpointSlice) (eps : gmap string Endpoints) (svc : Service)
    (sp : ServicePort) : string -> Prop :=
| target_number v : TargetPort sp = IntVal v -> (0 < v)%Z -> targets sl eps svc sp (itoa v)
| target_same v : TargetPort sp = IntVal v -> (v <= 0)%Z -> targets sl eps svc sp (itoa (p_Port sp))
| target_in_slice n es pt v :
    TargetPort sp = StrVal n -> ownedSlice sl (svc_Namespace svc) (svc_Name svc) es -> pt ∈ es_Ports es ->
    epp_Name pt = Some (p_Name sp) -> epp_Port pt = Some v -> (0 < v)%Z -> targets sl eps svc sp (itoa v)
| target_in_endpoints n ep ss v :
    TargetPort sp = StrVal n -> (forall es, ~ ownedSlice sl (svc_Namespace svc) (svc_Name svc) es) ->
    eps !! objectKey (svc_Namespace svc) (svc_Name svc) = Some ep -> ss ∈ Subsets ep ->
    (p_Name sp, v) ∈ ss_Ports ss -> (0 < v)%Z -> targets sl eps svc sp (itoa v).

(** The port of a service that an ingress backend selects: by its name, which no other
    port of the service has, or without one by its number. *)
Inductive selects (b : BackendService) (svc : Service) (sp : ServicePort) : Prop :=
| by_name :
    be_PortName b <> "" -> sp ∈ Ports svc -> p_Name sp = be_PortName b ->
    (forall sp', sp' ∈ Ports svc -> p_Name sp' = be_PortName b -> sp' = sp) -> selects b svc sp
| by_number :
    be_PortName b = "" -> sp ∈ Ports svc -> p_Port sp = be_PortNumber b -> selects b svc sp.

Section declared.
Context (sl : gmap string EndpointSlice) (eps : gmap string Endpoints) (slices : list EndpointSlice).
Context (Hsl : slices ≡ₚ values sl).
#[local] Set Default Proof Using "Type*".

Lemma ownedBy_iff ns name es :
  name <> "" -> es ∈ List.filter (ownedBy ns name) slices <-> ownedSlice sl ns name es.
Proof.
  intros Hne. rewrite list_elem_of_In, List.filter_In, <- list_elem_of_In, Hsl, elem_of_values.
  unfold ownedBy, ownedSlice, sliceServiceName. rewrite andb_true_iff, !String.eqb_eq.
  destruct (Labels es !! _) as [n|]; simpl; naive_solver.
Qed.

Lemma no_owned ns name :
  name <> "" -> List.filter (ownedBy ns name) slices = [] <-> forall es, ~ ownedSlice sl ns name es.
Proof.
  intros Hne. setoid_rewrite <- ownedBy_iff; [|done]. destruct (List.filter _ _) as [|es l].
  - split; [by intros _ es ?%elem_of_nil|done].
  - split; [done|]. intros H. exfalso. apply (H es). by left.
Qed.

Lemma ipsOf_iff es ip :
  ip ∈ ipsOf es <->
  addressType es <> FQDN /\ exists e, e ∈ endpoints es /\ Ready e <> Some false /\ ip ∈ Addresses e.
Proof.
  unfold ipsOf.
  assert (H : ip ∈ List.concat (Addresses <$> List.filter
                (fun e => match Ready e with Some false => false | _ => true end) (endpoints es)) <->
              exists e, e ∈ endpoints es /\ Ready e <> Some false /\ ip ∈ Addresses e).
  { rewrite elem_of_concat. split.
    - intros (l & (e & -> & He)%list_elem_of_fmap & Hip).
      apply list_elem_of_In, List.filter_In in He as [He Hr]. exists e. split; [by apply list_elem_of_In|].
      split; [|done]. intros Hf. by rewrite Hf in Hr.
    - intros (e & He & Hr & Hip). exists (Addresses e). split; [|done]. apply list_elem_of_fmap. exists e.
      split; [done|]. apply list_elem_of_In, List.filter_In. split; [by apply list_elem_of_In|].
      by destruct (Ready e) as [[]|]. }
  destruct (addressType es); rewrite ?H, ?elem_of_nil; naive_solver.
Qed.

(** The aggregated pool is the ready addresses. *)
Lemma aggregateIPs_iff ns name ip :
  name <> "" -> ip ∈ aggregateIPs slices eps ns name <-> readyAddress sl eps ns name ip.
Proof.
  intros Hne. unfold aggregateIPs. destruct (List.filter (ownedBy ns name) slices) as [|es0 l] eqn:Hf.
  - rewrite (no_owned ns name Hne) in Hf. split.
    + destruct (eps !! objectKey ns name) as [ep|] eqn:Hep; [|by intros ?%elem_of_nil].
      unfold appendEndpointsReadyIPs. simpl.
      intros (ips & (ss & -> & Hss)%list_elem_of_fmap & Hip)%elem_of_concat. by eapply ready_in_endpoints.
    + intros [es e ip' Ho|ep ss ip' _ Hep Hss Hip]; [by apply Hf in Ho|]. rewrite Hep.
      unfold appendEndpointsReadyIPs. simpl. apply elem_of_concat. exists (ss_Addresses ss).
      split; [|done]. apply list_elem_of_fmap. by exists ss.
  - rewrite <- Hf. rewrite fold_appendReadyIPs. simpl. rewrite elem_of_concat.
    assert (Hin : forall es, es ∈ List.filter (ownedBy ns name) slices <-> ownedSlice sl ns name es)
      by (intros; by apply ownedBy_iff).
    split.
    + intros (ips & (es & -> & Hes%Hin)%list_elem_of_fmap & (Hty & e & He & Hr & Hip)%ipsOf_iff).
      by eapply ready_in_slice.
    + intros [es e ip' Ho Hty He Hr Hip|ep ss ip' Hno _ _ _].
      * exists (ipsOf es). split; [apply list_elem_of_fmap; exists es; split; [done|]; by apply Hin|].
        apply ipsOf_iff. split; [done|]. by exists e.
      * exfalso. apply (Hno es0), Hin. rewrite Hf. by left.
Qed.

Lemma namedSlicePort_iff name pt v :
  namedSlicePort name pt = Some v <-> epp_Name pt = Some name /\ epp_Port pt = Some v /\ (0 < v)%Z.
Proof.
  unfold namedSlicePort. destruct (epp_Name pt) as [n|], (epp_Port pt) as [w|]; try naive_solver.
  destruct (String.eqb_spec n name) as [->|Hne], (Z.ltb_spec 0 w); simpl; try naive_solver lia.
Qed.

(** The ports of that name in the slices of the service. *)
Lemma named_ports_iff svc sp v :
  svc_Name svc <> "" ->
  v ∈ omap (namedSlicePort (p_Name sp)) (List.concat (es_Ports <$>
        List.filter (ownedBy (svc_Namespace svc) (svc_Name svc)) slices)) <->
  exists es pt, ownedSlice sl (svc_Namespace svc) (svc_Name svc) es /\ pt ∈ es_Ports es /\
    epp_Name pt = Some (p_Name sp) /\ epp_Port pt = Some v /\ (0 < v)%Z.
Proof.
  intros Hne. pose proof (fun es => ownedBy_iff (svc_Namespace svc) (svc_Name svc) es Hne) as How.
  rewrite list_elem_of_omap. split.
  - intros (pt & (ps & Hps & Hpt)%elem_of_concat & Hv). apply list_elem_of_fmap in Hps as (es & -> & Hes).
    apply How in Hes. apply namedSlicePort_iff in Hv. by exists es, pt.
  - intros (es & pt & Ho & Hpt & Hv). exists pt. split; [|by apply namedSlicePort_iff].
    apply elem_of_concat. exists (es_Ports es). split; [|done]. apply list_elem_of_fmap. exists es.
    split; [done|]. by apply How.
Qed.

(** The port is resolved to one that it stands for, and whenever there is one. *)
Lemma resolveTargetPort_sound svc sp t :
  svc_Name svc <> "" -> resolveTargetPort slices eps svc sp = Some t -> targets sl eps svc sp t.
Proof.
  intros Hne. unfold resolveTargetPort. destruct (TargetPort sp) as [v|n] eqn:Ht.
  { destruct (Z.ltb_spec 0 v); intros [= <-]; [by eapply target_number|by eapply target_same]. }
  pose proof (named_ports_iff svc sp) as Hn. pose proof (no_owned (svc_Namespace svc) (svc_Name svc) Hne) as Hno.
  destruct (omap _ _) as [|v vs].
  - destruct (List.filter _ _) as [|es0 l]; [|done].
    destruct (eps !! _) as [ep|] eqn:Hep; [|done]. intros ([n' v] & Hf & ->)%fmap_Some. simpl.
    apply List.find_some in Hf as [Hin Hc]. simpl in Hc.
    apply andb_true_iff in Hc as [->%String.eqb_eq Hv%Z.ltb_lt].
    apply list_elem_of_In, elem_of_concat in Hin as (ps & (ss & -> & Hss)%list_elem_of_fmap & Hin).
    eapply target_in_endpoints; [done|by apply Hno|done..].
  - intros [= <-]. destruct (proj1 (Hn v Hne)) as (es & pt & Ho & Hpt & H1 & H2 & H3); [by left|].
    by eapply target_in_slice.
Qed.

Lemma resolveTargetPort_complete svc sp t :
  svc_Name svc <> "" -> targets sl eps svc sp t -> is_Some (resolveTargetPort slices eps svc sp).
Proof.
  intros Hne Htg. unfold resolveTargetPort.
  pose proof (named_ports_iff svc sp) as Hn. pose proof (no_owned (svc_Namespace svc) (svc_Name svc) Hne) as Hno.
  destruct Htg as [v -> Hv|v -> Hv|n es pt v -> Ho Hpt H1 H2 H3|n ep ss v -> Hnone Hep Hss Hin Hv];
    [by destruct (_ <? _)%Z..| |].
  - specialize (Hn v Hne). destruct (omap _ _) as [|w vs]; [|done].
    exfalso. assert (Hx : v ∈ @nil Z) by (apply Hn; by exists es, pt). by apply elem_of_nil in Hx.
  - destruct (omap _ _) as [|w vs]; [|done]. rewrite (proj2 Hno Hnone), Hep.
    apply fmap_is_Some. destruct (List.find _ _) eqn:Hf; [done|]. exfalso.
    eapply List.find_none in Hf; [|apply list_elem_of_In, elem_of_concat; exists (ss_Ports ss); split; [|exact Hin];
      apply list_elem_of_fmap; by exists ss].
    simpl in Hf. rewrite String.eqb_refl in Hf. simpl in Hf. by apply Z.ltb_ge in Hf; lia.
Qed.

End declared.

(** The scheme of a handler, from the protocol of the port. *)
Lemma scheme_default (proto : option string) :
  (if String.eqb (default "" proto) "" then None else Some (default "" proto)) =
  match proto with Some "" | None => None | Some proto => Some proto end.
Proof. by destruct proto as [[|c proto]|]. Qed.

(** A fold that only one element of the list can move. *)
Lemma fold_left_only {A B} (f : B -> A -> B) (x : A) l b :
  (forall b y, y ∈ l -> y <> x -> f b y = b) -> NoDup l -> x ∈ l -> fold_left f l b = f b x.
Proof.
  intros Hf Hnd Hx. revert b. induction Hnd as [|y l Hy Hnd IH]; [by apply elem_of_nil in Hx|].
  intros b. simpl. apply elem_of_cons in Hx as [->|Hx].
  - assert (Hid : forall b, fold_left f l b = b); [|by rewrite Hid].
    assert (Hl : forall b z, z ∈ l -> f b z = b).
    { intros b' z Hz. apply Hf; [by right|]. by intros ->. }
    clear -Hl. induction l as [|z l IH]; intros b; [done|]. simpl. rewrite Hl by (by left).
    apply IH. intros b' w Hw. apply Hl. by right.
  - rewrite Hf; [|by left|by intros ->]. apply IH; [|done]. intros b' z Hz. apply Hf. by right.
Qed.

(** The configuration of a backend is the port that it selects. *)
Lemma getBackendConfig_selects b svc sp :
  NoDup (p_Port <$> Ports svc) -> (0 < p_Port sp)%Z -> selects b svc sp ->
  exists cfg, getBackendConfig b svc = (cfg, true) /\ PortNumber cfg = p_Port sp /\
    Protocol cfg = default "" (AppProtocol sp).
Proof.
  intros Hnd Hpos Hs. pose proof (NoDup_fmap_1 _ _ Hnd) as Hnd'. unfold getBackendConfig.
  destruct Hs as [Hne Hin Hname Huniq|He Hin Hnum].
  - rewrite (proj2 (String.eqb_neq _ _) Hne). simpl.
    rewrite (fold_left_only _ sp); [|intros c y Hy Hyne|done..].
    2:{ unfold byNameStep. destruct (String.eqb_spec (p_Name y) (be_PortName b)) as [Hn|]; [|done].
        by destruct (Hyne (Huniq y Hy Hn)). }
    unfold byNameStep, setProtocol. rewrite Hname, String.eqb_refl. simpl.
    rewrite (proj2 (Z.eqb_neq _ _)) by lia. eexists. split; [done|]. split; [done|]. by destruct (AppProtocol sp).
  - rewrite He. simpl. rewrite (fold_left_only _ sp); [|intros c y Hy Hyne|done..].
    2:{ unfold byNumberStep. destruct (Z.eqb_spec (p_Port y) (be_PortNumber b)) as [Hn|]; [|done].
        destruct Hyne. apply (NoDup_fmap_inj p_Port (Ports svc)); congruence. }
    unfold byNumberStep, setProtocol. rewrite Hnum, Z.eqb_refl. simpl. eexists. split; [done|].
    split; [done|]. by destruct (AppProtocol sp).
Qed.

Lemma pathHandler_selects svcs ing p b svc sp :
  backend p = Some b -> svcs !! objectKey (ing_Namespace ing) (be_Name b) = Some svc ->
  NoDup (p_Port <$> Ports svc) -> (0 < p_Port sp)%Z -> selects b svc sp ->
  exists h, pathHandler svcs ing p = Some h /\ h_service h = svc /\
    PortNumber (h_config h) = p_Port sp /\ Protocol (h_config h) = default "" (AppProtocol sp).
Proof.
  intros Hb Hsvc Hnd Hpos Hs. unfold pathHandler. rewrite Hb, Hsvc.
  destruct (getBackendConfig_selects b svc sp Hnd Hpos Hs) as (cfg & -> & Hport & Hproto). simpl.
  rewrite (proj2 (Z.leb_gt _ _)) by lia. by eexists.
Qed.

End ControllerLemmas.

(** ** Properties *)

Module ControllerProps.
Import BadAddr RRLB Table Controller ControllerLemmas.

(** C4: applying endpoint events one service at a time is the same as rebuilding the
    whole table: after any sequence of slice and legacy-endpoints events (a slice
    keeping its service), resyncs, service reloads, lookups and dial failures,
    every service's host holds, up to order, the pool that its own slices (or,
    with none, its legacy object) yield, and a full rebuild, whatever the order it
    visits the stores in, would install the same pools. *)
Theorem endpoints_incremental_refines_full c ns name slices eps :
  star (fun a b => estep a b) New c ->
  mem_char c_slash ns = false -> okName name -> name <> "" ->
  slices ≡ₚ slicesOf c -> eps ≡ₚ values (watchedEndpoints c) ->
  samePool (addrToTargetHost (routeTable c) !! buildHost ns name)
           (aggregateServiceIPs slices (watchedEndpoints c) ns name) /\
  samePool (addrToTargetHost (routeTable c) !! buildHost ns name)
           (addrToTargetHost (routeTable (reloadEndpoint slices eps c)) !! buildHost ns name).
Proof.
  intros Hrun Hns Hn Hne Hsl Hep.
  assert (HI : HostInv c).
  { apply (star_invariant (fun a b => estep a b) HostInv) in Hrun; [done|apply estep_inv|].
    split; [split; intros k x; simpl; by rewrite lookup_empty|]. intros ns' name' _ _ _. done. }
  assert (H1 : samePool (addrToTargetHost (routeTable c) !! buildHost ns name)
                 (aggregateServiceIPs slices (watchedEndpoints c) ns name)).
  { etransitivity; [by apply HI|]. apply aggregate_perm; [|done]. apply filter_perm. by symmetry. }
  split; [done|]. etransitivity; [exact H1|]. simpl.
  rewrite (fullHostRoutes_lookup (watchedEndpointSlices c) (watchedEndpoints c)) by (done || apply HI).
  done.
Qed.

Definition exSlice (svc ip : string) : EndpointSlice :=
  mkSlice "ns" "s1" {[ "kubernetes.io/service-name" := svc ]} IPv4 [mkEndpoint None [ip]] [].

Lemma endpoints_incremental_refines_full_witness :
  let c := reloadEndpointSlice [exSlice "web" "10.0.0.1"] (exSlice "web" "10.0.0.1")
             (set_slices (<["ns/s1" := exSlice "web" "10.0.0.1"]> ∅) New) in
  samePool (addrToTargetHost (routeTable c) !! buildHost "ns" "web")
           (aggregateServiceIPs [exSlice "web" "10.0.0.1"] ∅ "ns" "web") /\
  samePool (addrToTargetHost (routeTable c) !! buildHost "ns" "web")
           (addrToTargetHost (routeTable (reloadEndpoint [exSlice "web" "10.0.0.1"] [] c)) !! buildHost "ns" "web").
Proof.
  intros c. apply (endpoints_incremental_refines_full c "ns" "web"); try done.
  eapply star_step; [|apply star_refl].
  by apply (es_slice New Added (exSlice "web" "10.0.0.1") _ [exSlice "web" "10.0.0.1"]).
Defined.

(** Without that proviso the incremental path diverges: when a stored slice is
    relabelled to another service, only the new service's host is recomputed, so
    the old service keeps routing to the slice's pods, where a full rebuild drops
    the host. *)
Theorem relabelled_slice_leaves_stale_route :
  let es1 := exSlice "old" "10.0.0.1" in
  let es2 := exSlice "new" "10.0.0.1" in
  let c1 := reloadEndpointSlice [es1] es1
              (set_slices (fst (watchEvent sliceKey Added es1 (watchedEndpointSlices New))) New) in
  let c2 := reloadEndpointSlice [es2] es2
              (set_slices (fst (watchEvent sliceKey Modified es2 (watchedEndpointSlices c1))) c1) in
  slicesOf c2 = [es2] /\
  addrToTargetHost (routeTable c2) !! buildHost "ns" "old" = Some (mkRRLB ["10.0.0.1"] 0) /\
  addrToTargetHost (routeTable (reloadEndpoint [es2] [] c2)) !! buildHost "ns" "old" = None.
Proof. split; [|split]; vm_compute; reflexivity. Qed.

(** The HTTP routes after a reload are exactly those the ingresses of the
    controller's class declare: a key is routed if and only if some path of some
    rule declares it with a backend whose service and port exist, the handler
    installed is one that was declared for it, and a host is known if and only if
    some route key starts with it. *)
Theorem routes_are_declared ings c k :
  let rs := routes (reloadIngress [] ings c) in
  (is_Some (rs !! k) <->
     exists ing h, ing ∈ ings /\ getIngressClass ing = IngressClass /\ declares (watchedServices c) ing k h) /\
  (forall h, rs !! k = Some h ->
     exists ing b, h = HBackend b /\ ing ∈ ings /\ getIngressClass ing = IngressClass /\
       declares (watchedServices c) ing k b) /\
  (forall host, IsKnownHost (reloadIngress [] ings c) host = true <->
     host <> "" /\ mem_char c_slash host = false /\
     exists path, is_Some (rs !! (host +:+ "/" +:+ path))).
Proof.
  intros rs. subst rs. simpl. rewrite loadIngress_all.
  set (l := List.concat _).
  assert (Hl : forall k h, (k, h) ∈ l <-> exists ing b, h = HBackend b /\ ing ∈ ings /\
            getIngressClass ing = IngressClass /\ declares (watchedServices c) ing k b).
  { intros k0 h. unfold l. rewrite elem_of_concat. split.
    - intros (x & (ing & -> & Hing)%list_elem_of_fmap & Hin).
      apply list_elem_of_In, List.filter_In in Hing as [Hing Hcl]. apply list_elem_of_In in Hing.
      apply ingressRoutes_iff in Hin as (b & -> & Hd). exists ing, b.
      unfold classed in Hcl. by bool_props.
    - intros (ing & b & -> & Hing & Hcl & Hd). eexists. split.
      + apply list_elem_of_fmap. exists ing. split; [done|]. apply list_elem_of_In, List.filter_In.
        split; [by apply list_elem_of_In|]. by apply String.eqb_eq.
      + apply ingressRoutes_iff. eauto. }
  split; [|split].
  - rewrite insertAll_some, lookup_empty. setoid_rewrite Hl. split.
    + intros [[? ?]|(v & ing & b & _ & H)]; [done|]. eauto.
    + intros (ing & h & H). right. exists (HBackend h), ing, h. done.
  - intros h [Hin|H]%insertAll_in; [by apply Hl|]. by rewrite lookup_empty in H.
  - intros host. unfold IsKnownHost. simpl. rewrite loadIngress_all. fold l.
    rewrite bool_decide_eq_true. apply knownHosts_iff.
Qed.

(** C5: a declared route reaches a ready pod.  For well-formed object names and distinct port
    numbers: a path whose backend names a watched service and selects a port of it, by a
    name that no other port has or by number, has a handler, and after the service and endpoint reloads a
    request on it is proxied, with the scheme of the port's protocol, to a ready address of
    the service (that of an endpoint of its slices not reported unready, or of its legacy
    object when it has no slice) on a port that the selected port stands for, or answered
    503 only when every ready address is marked bad, provided that there is a ready
    address and such a port, and that no address is empty.  On an ExternalName service without pods it is proxied to
    the trimmed external name on the service port. *)
Theorem declared_route_is_served c ing p b svc sp svcs slices eps now :
  ServicesOK (watchedServices c) -> svcs ≡ₚ values (watchedServices c) ->
  StoresOK (watchedEndpointSlices c) (watchedEndpoints c) ->
  slices ≡ₚ slicesOf c -> eps ≡ₚ values (watchedEndpoints c) ->
  mem_char c_slash (ing_Namespace ing) = false ->
  backend p = Some b -> watchedServices c !! objectKey (ing_Namespace ing) (be_Name b) = Some svc ->
  svc_Name svc <> "" -> selects b svc sp -> (0 < p_Port sp)%Z ->
  exists h, pathHandler (watchedServices c) ing p = Some h /\ h_service h = svc /\
  let ready := readyAddress (watchedEndpointSlices c) (watchedEndpoints c) (svc_Namespace svc) (svc_Name svc) in
  let target := targets (watchedEndpointSlices c) (watchedEndpoints c) svc sp in
  let c' := reloadEndpoint slices eps (reloadService svcs slices c) in
  let scheme := match AppProtocol sp with Some "" | None => None | Some proto => Some proto end in
  let resp := fst (serveBackend now h (routeTable c')) in
  match Type_ svc with
  | OtherServiceType _ =>
      (exists t, target t) -> (exists ip, ready ip) -> ~ ready "" ->
      (exists ip t, ready ip /\ target t /\ resp = Proxied scheme (join_host_port ip t)) \/
      (resp = ServiceUnavailable /\
       forall ip, ready ip -> exists k, IsBad (now k) (Some (badAddr (routeTable c))) ip = true)
  | ExternalNameType =>
      (forall ip, ~ ready ip) -> trimmedExternalName svc <> "" ->
      resp = Proxied scheme (join_host_port (trimmedExternalName svc) (itoa (p_Port sp)))
  end.
Proof.
  intros Hsv Hsvcs Hok Hsl Hep Hns Hb Hsvc Hname Hsel Hpos.
  assert (Hnd : NoDup (p_Port <$> Ports svc)) by apply (Hsv _ _ Hsvc).
  assert (Hsp : sp ∈ Ports svc) by (by destruct Hsel).
  destruct (pathHandler_selects _ ing p b svc sp Hb Hsvc Hnd Hpos Hsel) as (h & Hph & <- & Hport & Hproto).
  exists h. split; [done|]. split; [done|]. cbn zeta.
  pose proof (fun ip => aggregateIPs_iff (watchedEndpointSlices c) (watchedEndpoints c) slices Hsl
                (svc_Namespace (h_service h)) (svc_Name (h_service h)) ip Hname) as Hready.
  pose proof (resolved_route_is_served c ing p h svcs slices eps sp now Hsv Hsvcs Hok Hsl Hep Hns Hph Hname Hsp
                (eq_sym Hport)) as H.
  cbn zeta in H. rewrite Hproto, (scheme_default (AppProtocol sp)) in H.
  destruct (Type_ (h_service h)) as [|ty].
  - intros Hno Hext. rewrite H, Hport; [done| |done].
    destruct (aggregateIPs _ _ _ _) as [|ip l]; [done|]. exfalso. apply (Hno ip), Hready. by left.
  - intros [t0 Ht0] [ip0 Hip0] Hnoempty.
    destruct (resolveTargetPort_complete _ _ slices Hsl (h_service h) sp t0 Hname Ht0) as [t Ht].
    destruct (H t Ht) as [(ip & Hip & Hr)|[Hr Hbad]].
    + intros He. apply Hready in Hip0. rewrite He in Hip0. by apply elem_of_nil in Hip0.
    + by intros Hin%Hready.
    + left. exists ip, t. split; [by apply Hready|]. split; [by eapply resolveTargetPort_sound|done].
    + right. split; [done|]. intros ip Hip%Hready. by apply Hbad.
Qed.

Definition exService : Service :=
  mkService "ns" "web" (OtherServiceType "ClusterIP") "" [mkSvcPort "http" 80 (IntVal 8080) None].
Definition exPath : HTTPPath := mkPath "/" (Some Prefix) (Some (mkBackend "web" "http" 0)).
Definition exIngress : Ingress :=
  mkIngress "ns" "ing" (Some "parapet") ∅ [mkRule "Acme.com" (Some [exPath])] [].
(** One pod is ready and one is not. *)
Definition exPods : EndpointSlice :=
  mkSlice "ns" "s1" {[ "kubernetes.io/service-name" := "web" ]} IPv4
    [mkEndpoint (Some true) ["10.0.0.1"]; mkEndpoint (Some false) ["10.0.0.9"]] [].
Definition exController : Controller :=
  mkController {[ "ns/ing" := exIngress ]} {[ "ns/web" := exService ]} {[ "ns/s1" := exPods ]} ∅ ∅ ∅ Table.empty.

Lemma exPods_ready ip : readyAddress {[ "ns/s1" := exPods ]} ∅ "ns" "web" ip <-> ip = "10.0.0.1".
Proof.
  rewrite <- (aggregateIPs_iff _ ∅ [exPods]); [|by vm_compute|done].
  assert (He : aggregateIPs [exPods] ∅ "ns" "web" = ["10.0.0.1"]) by (vm_compute; reflexivity).
  by rewrite He, list_elem_of_singleton.
Defined.

Lemma declared_route_is_served_witness :
  exists h, pathHandler (watchedServices exController) exIngress exPath = Some h /\ h_service h = exService /\
  let resp := fst (serveBackend (fun _ => 0%Z) h
                (routeTable (reloadEndpoint [exPods] [] (reloadService [exService] [exPods] exController)))) in
  resp = Proxied None "10.0.0.1:8080" /\
  ((exists ip t, readyAddress {[ "ns/s1" := exPods ]} ∅ "ns" "web" ip /\
      targets {[ "ns/s1" := exPods ]} ∅ exService (mkSvcPort "http" 80 (IntVal 8080) None) t /\
      resp = Proxied None (join_host_port ip t)) \/
   (resp = ServiceUnavailable /\
    forall ip, readyAddress {[ "ns/s1" := exPods ]} ∅ "ns" "web" ip ->
      exists k : nat, IsBad 0 (Some ∅) ip = true)).
Proof.
  destruct (declared_route_is_served exController exIngress exPath (mkBackend "web" "http" 0) exService
           (mkSvcPort "http" 80 (IntVal 8080) None) [exService] [exPods] [] (fun _ => 0%Z)) as (h & Hh & Hs & H);
    try reflexivity; try done.
  - intros k s. unfold exController. simpl. rewrite lookup_singleton_Some. intros [<- <-].
    repeat split; try reflexivity. apply NoDup_singleton.
  - split; intros k s; unfold exController; simpl.
    + rewrite lookup_singleton_Some. by intros [<- <-].
    + by rewrite lookup_empty.
  - apply by_name; [done|by apply list_elem_of_singleton|done|].
    by intros sp' ->%list_elem_of_singleton.
  - exists h. split; [exact Hh|]. split; [exact Hs|].
    vm_compute in Hh. injection Hh as <-. split; [by vm_compute|]. apply H.
    + exists "8080". by apply (target_number _ _ _ _ 8080).
    + exists "10.0.0.1". by apply exPods_ready.
    + by intros Hx%exPods_ready.
Defined.

(** A resync that lists makes the store exactly the authoritative list, keyed,
    whatever it held before (missed deletions included); one that cannot list
    leaves the store alone and runs no reload. *)
Theorem resync_reconciles {T} (key : T -> string) items (store : gmap string T) :
  resyncStore key None store = (store, false) /\
  snd (resyncStore key (Some items) store) = true /\
  (NoDup (key <$> items) ->
   forall k x, fst (resyncStore key (Some items) store) !! k = Some x <-> x ∈ items /\ k = key x).
Proof.
  split; [done|split; [done|]]. intros Hnd k x. split; [apply resyncStore_lookup|].
  intros [Hin ->]. simpl. apply map_lookup_filter_Some. split.
  - revert store. induction items as [|o items IH]; [by apply elem_of_nil in Hin|].
    rewrite fmap_cons in Hnd. apply NoDup_cons in Hnd as [Hnew Hnd]. intros store. simpl.
    apply elem_of_cons in Hin as [->|Hin]; [|by apply IH].
    assert (H0 : <[key o := o]> store !! key o = Some o) by apply lookup_insert_eq.
    revert H0. generalize (<[key o := o]> store). clear IH Hnd.
    induction items as [|p items IH]; intros m1 H1; simpl; [done|].
    rewrite fmap_cons, not_elem_of_cons in Hnew. destruct Hnew as [Hne Hnew].
    apply IH; [done|]. by rewrite lookup_insert_ne.
  - simpl. apply elem_of_list_to_set. by apply list_elem_of_fmap_2.
Qed.

(** The start-up list: waits double from half a second up to ten seconds, one per
    failed attempt, and the loop returns at the first success. *)
Lemma preloadLoop_spec b results :
  (0 < b <= maxBackoff)%Z ->
  let '(ws, returned) := preloadLoop b results in
  Forall (fun w => (0 < w <= maxBackoff)%Z) ws /\ returned = existsb (fun ok => ok) results /\
  (returned = true -> exists rest, results = replicate (length ws) false ++ true :: rest).
Proof.
  revert b. induction results as [|[] results IH]; intros b Hb; simpl; [by constructor| |].
  { split; [constructor|split; [done|]]. intros _. by exists results. }
  specialize (IH (nextBackoff b)). destruct (preloadLoop (nextBackoff b) results) as [ws returned].
  destruct IH as (H1 & H2 & H3).
  { unfold nextBackoff, maxBackoff in *. repeat case_match; bool_props; lia. }
  split; [by constructor|split; [done|]]. intros Hr. destruct (H3 Hr) as [rest ->]. by exists rest.
Qed.

End ControllerProps.
