(* ===== verification/Trust.v ===== *)
(** * Edge auto-trust: the core's edge-CA pool

    Models [src/trust/trust.go]: the endpoint modes, the trust-bundle client, and
    the [Manager] that validates a bundle, swaps the pool, persists the last good
    bundle as the next process's floor, and decides per request whether a client
    certificate chains to the live pool.  The polling loop is one function per
    iteration ([runStep]); the concurrent execution of [VerifyClientCert] with the
    applying goroutine is the step relation [vstep], whose steps are the atomic
    loads, stores and locked sections of the code.

    PEM decoding, X.509 parsing and verification, SHA-256 and the JSON of the
    cache file are the class [TrustOps]; [TrustLaws] states what the theorems
    use of them. *)

From S2P Require Import Prelude GoString.

Set Default Proof Using "Type".

(** ** Interfaces *)

(** The on-disk record of the last good bundle. *)
Record cacheEntry := mkEntry {
  ce_Generation : Z;
  ce_CAID : string;
  ce_CAPEM : string;
  ce_WrittenAt : Z;
}.

Record Bundle := mkBundle {
  Generation : Z;
  CAPEM : string;
  CAID : string;
}.

Class TrustOps (Cert : Type) := {
  (** [pem.Decode]: the next block's type and bytes, and the rest. *)
  pem_Decode : string -> option (string * string * string);
  ParseCertificate : string -> option Cert;
  (** [Verify] of a leaf against roots and intermediates, at an instant. *)
  Verify : list Cert -> Cert -> list Cert -> Z -> bool;
  (** The SHA-256 of the raw certificate. *)
  Sum256 : Cert -> string;
  marshalEntry : cacheEntry -> option string;
  unmarshalEntry : string -> option cacheEntry;
  decodeBundle : string -> option Bundle;
  (** The entry a [range] over the memo meets first. *)
  rangeFirst : gmap string bool -> option string;
}.

Class TrustLaws (Cert : Type) `{!TrustOps Cert} : Prop := {
  pem_shrinks s ty b r : pem_Decode s = Some (ty, b, r) -> String.length r < String.length s;
  marshal_total e : is_Some (marshalEntry e);
  marshal_unmarshal e s :
    (0 <= ce_Generation e)%Z -> marshalEntry e = Some s -> unmarshalEntry s = Some e;
  unmarshal_unsigned s e : unmarshalEntry s = Some e -> (0 <= ce_Generation e)%Z;
  decode_unsigned s b : decodeBundle s = Some b -> (0 <= Generation b)%Z;
  Sum256_inj c1 c2 : Sum256 c1 = Sum256 c2 -> c1 = c2;
  range_nonempty (c : gmap string bool) : c <> ∅ -> exists k, rangeFirst c = Some k /\ is_Some (c !! k);
}.

(** The file system: the files that can be read. *)
#[local] Abbreviation FS := (gmap string string).

Module Trust.

(** ** The client *)

Definition maxBundleBody : Z := Z.shiftl 4 20.

Inductive EndpointMode := ModeHTTPS | ModeInsecureHTTP.

Definition ClassifyEndpoint (endpoint : string) : option EndpointMode :=
  if has_prefix endpoint "https://" then Some ModeHTTPS
  else if has_prefix endpoint "http://" then Some ModeInsecureHTTP
  else None.

(** How a client verifies the server: a pinned pool, the system's roots, or not
    at all. *)
Inductive ServerTLS {Cert : Type} :=
| Pinned (roots : list Cert)
| SystemRoots
| Plaintext.
Arguments ServerTLS : clear implicits.

Record Client (Cert : Type) := mkClient { cl_http : ServerTLS Cert; cl_base : string }.
Arguments mkClient {Cert} _ _.
Arguments cl_http {Cert} _.
Arguments cl_base {Cert} _.

Definition NewInsecureHTTPClient {Cert} (base : string) : Client Cert := mkClient Plaintext base.
Definition NewSystemRootsClient {Cert} (base : string) : Client Cert := mkClient SystemRoots base.

(** The request URL of [Fetch]. *)
Definition fetchURL (base : string) (sinceGen : Z) (watch : bool) : string :=
  base +:+ "/v1/trust-bundle" +:+
  (if watch then "?watch=1&since=" +:+ itoa sinceGen else "").

(** What the transport returns: an error, or a status and a body. *)
Inductive Response := TransportError | Status (code : Z) (body : string).

Inductive Fetched := FetchErr | Unchanged | Got (b : Bundle).

Definition limitReader (n : Z) (s : string) : string :=
  if (Z.of_nat (String.length s) <=? n)%Z then s else str_take (Z.to_nat n) s.

Section ops.
Context {Cert : Type} `{!EqDecision Cert} `{!TrustOps Cert}.

Definition Fetch (resp : Response) : Fetched :=
  match resp with
  | TransportError => FetchErr
  | Status code body =>
      if (code =? 304)%Z then Unchanged
      else if (code =? 200)%Z then
        match decodeBundle (limitReader maxBundleBody body) with
        | Some b => Got b
        | None => FetchErr
        end
      else FetchErr
  end.

(** [AddCert] keeps a pool free of duplicates. *)
Definition AddCert (pool : list Cert) (c : Cert) : list Cert :=
  if decide (c ∈ pool) then pool else pool ++ [c].

(** [strictPool]: every CERTIFICATE block parses, or the bundle is refused.  Each
    block consumes input, so the length of the input is fuel enough. *)
Fixpoint strictPoolLoop (fuel : nat) (rest : string) (pool : list Cert) (n : Z) :
    option (list Cert * Z) :=
  match fuel with
  | O => None
  | S fuel =>
      match pem_Decode rest with
      | None => Some (pool, n)
      | Some (ty, bytes, rest) =>
          if negb (String.eqb ty "CERTIFICATE") then strictPoolLoop fuel rest pool n
          else match ParseCertificate bytes with
               | None => None
               | Some c => strictPoolLoop fuel rest (AddCert pool c) (n + 1)
               end
      end
  end.

Definition strictPool (caPEM : string) : option (list Cert * Z) :=
  strictPoolLoop (S (String.length caPEM)) caPEM [] 0.

(** [AppendCertsFromPEM] skips what it cannot parse, and reports whether anything
    was added. *)
Fixpoint appendCertsLoop (fuel : nat) (rest : string) (pool : list Cert) (ok : bool) :
    list Cert * bool :=
  match fuel with
  | O => (pool, ok)
  | S fuel =>
      match pem_Decode rest with
      | None => (pool, ok)
      | Some (ty, bytes, rest) =>
          if negb (String.eqb ty "CERTIFICATE") then appendCertsLoop fuel rest pool ok
          else match ParseCertificate bytes with
               | None => appendCertsLoop fuel rest pool ok
               | Some c => appendCertsLoop fuel rest (AddCert pool c) true
               end
      end
  end.

Definition NewClient (base caPEM : string) : option (Client Cert) :=
  let '(pool, ok) := appendCertsLoop (S (String.length caPEM)) caPEM [] false in
  if negb ok then None else Some (mkClient (Pinned pool) base).

(** ** The manager *)

Definition verifyCacheCap : Z := 4096.

Record Manager := mkManager {
  clientCAs : option (list Cert);
  gen : Z;
  caID : option string;
  floor : Z;
  cachePath : string;
  lastGood : option cacheEntry;
  verifyGen : Z;
  verifyCache : option (gmap string bool);
}.

Definition NewManager : Manager := mkManager None 0 None 0 "" None 0 None.

Definition ClientCAs (m : Manager) : option (list Cert) := clientCAs m.
Definition WarmStartFloor (m : Manager) : Z := floor m.
Definition CurrentCAID (m : Manager) : string := match caID m with Some s => s | None => "" end.

Definition setFloor f m :=
  mkManager (clientCAs m) (gen m) (caID m) f (cachePath m) (lastGood m) (verifyGen m) (verifyCache m).
Definition setCachePath p m :=
  mkManager (clientCAs m) (gen m) (caID m) (floor m) p (lastGood m) (verifyGen m) (verifyCache m).
Definition setLastGood e m :=
  mkManager (clientCAs m) (gen m) (caID m) (floor m) (cachePath m) e (verifyGen m) (verifyCache m).
Definition setVerify g c m :=
  mkManager (clientCAs m) (gen m) (caID m) (floor m) (cachePath m) (lastGood m) g c.

(** *** Warm start *)

Definition readCache (fs : FS) (path : string) : option cacheEntry :=
  match fs !! path with
  | None => None
  | Some data =>
      match unmarshalEntry data with
      | None => None
      | Some e => if (ce_Generation e =? 0)%Z then None else Some e
      end
  end.

(** [time.Since(time.Unix(WrittenAt, 0))], in nanoseconds. *)
Definition cacheAge (now : Z) (e : cacheEntry) : Z := now - ce_WrittenAt e * second.

Definition tooStale (maxStale now : Z) (e : cacheEntry) : bool :=
  (0 <? maxStale)%Z && (maxStale <? cacheAge now e)%Z.

Definition EnableWarmStart (path : string) (maxStale now : Z) (fs : FS) (m : Manager) : Manager :=
  let m := setCachePath path m in
  if String.eqb path "" then m
  else match readCache fs path with
       | None => m
       | Some e =>
           if tooStale maxStale now e then m
           else setLastGood (Some e) (setFloor (ce_Generation e) m)
       end.

(** What the file system does with a write: fail in [WriteFile], leaving what it
    had written to the temporary file; fail in [Rename]; or succeed. *)
Inductive WriteOutcome := WriteFails (partial : option string) | RenameFails | Written.

Definition tmpPath (m : Manager) : string := cachePath m +:+ ".tmp".

Definition stamp (now : Z) (e : cacheEntry) : cacheEntry :=
  mkEntry (ce_Generation e) (ce_CAID e) (ce_CAPEM e) (now / second).

Definition writeCache (now : Z) (wo : WriteOutcome) (e : cacheEntry) (m : Manager) (fs : FS) : FS :=
  if String.eqb (cachePath m) "" then fs
  else match marshalEntry (stamp now e) with
       | None => fs
       | Some data =>
           match wo with
           | WriteFails partial =>
               match partial with Some p => <[tmpPath m := p]> fs | None => fs end
           | RenameFails => delete (tmpPath m) (<[tmpPath m := data]> fs)
           | Written => <[cachePath m := data]> (delete (tmpPath m) fs)
           end
       end.

(** *** Applying a bundle *)

Inductive applyResult :=
| resultApplied
| resultParseRejected
| resultEmptyRejected
| resultRollbackRejected
| resultFloorRejected
| resultUnchanged.

Definition label (r : applyResult) : string :=
  match r with
  | resultApplied => "applied"
  | resultParseRejected => "parse_rejected"
  | resultEmptyRejected => "empty_rejected"
  | resultRollbackRejected => "rollback_rejected"
  | resultFloorRejected => "floor_rejected"
  | resultUnchanged => "unchanged"
  end.

(** The checks of [apply] before its first store: the pool to install, or why
    not. *)
Definition admit_ (m : Manager) (b : Bundle) : result applyResult (list Cert) :=
  match strictPool (CAPEM b) with
  | None => Err resultParseRejected
  | Some (pool, n) =>
      if (n =? 0)%Z then Err resultEmptyRejected
      else if (Generation b <? floor m)%Z then Err resultFloorRejected
      else if negb (gen m =? 0)%Z && (Generation b =? gen m)%Z then Err resultUnchanged
      else if negb (gen m =? 0)%Z && (Generation b <? gen m)%Z then Err resultRollbackRejected
      else Ok pool
  end.

(** The three stores, in the code's order. *)
Definition storePool (pool : list Cert) (m : Manager) : Manager :=
  mkManager (Some pool) (gen m) (caID m) (floor m) (cachePath m) (lastGood m)
    (verifyGen m) (verifyCache m).
Definition storeGen (g : Z) (m : Manager) : Manager :=
  mkManager (clientCAs m) g (caID m) (floor m) (cachePath m) (lastGood m)
    (verifyGen m) (verifyCache m).
Definition storeCAID (id : string) (m : Manager) : Manager :=
  mkManager (clientCAs m) (gen m) (Some id) (floor m) (cachePath m) (lastGood m)
    (verifyGen m) (verifyCache m).

Definition apply_ (m : Manager) (b : Bundle) : applyResult * Manager :=
  match admit_ m b with
  | Err r => (r, m)
  | Ok pool => (resultApplied, storeCAID (CAID b) (storeGen (Generation b) (storePool pool m)))
  end.

(** *** The polling loop *)

Record RunState := mkRun {
  rs_m : Manager;
  rs_fs : FS;
  rs_backoff : Z;
  rs_first : bool;
}.

Definition normInterval (pollInterval : Z) : Z :=
  if (pollInterval <=? 0)%Z then (5 * minute)%Z else pollInterval.

Definition runInit (m : Manager) (fs : FS) : RunState := mkRun m fs second true.

(** The request of an iteration: [Fetch(m.gen.Load(), !first)]. *)
Definition runRequest (base : string) (st : RunState) : string :=
  fetchURL base (gen (rs_m st)) (negb (rs_first st)).

(** Refreshing the cache's liveness timestamp. *)
Definition touch (now : Z) (wo : WriteOutcome) (m : Manager) (fs : FS) : FS :=
  match lastGood m with Some e => writeCache now wo e m fs | None => fs end.

(** One iteration of [Run] on a response: the new state and the time slept.
    [wo] is the outcome of the cache write the iteration may do. *)
Definition runStep (pollInterval now : Z) (resp : Response) (wo : WriteOutcome) (st : RunState) :
    RunState * Z :=
  let m := rs_m st in
  match Fetch resp with
  | FetchErr =>
      (mkRun m (rs_fs st)
         (if (rs_backoff st <? normInterval pollInterval)%Z then (rs_backoff st * 2)%Z
          else rs_backoff st) false,
       rs_backoff st)
  | Unchanged => (mkRun m (touch now wo m (rs_fs st)) second false, 0%Z)
  | Got b =>
      let '(res, m') := apply_ m b in
      match res with
      | resultUnchanged => (mkRun m' (touch now wo m' (rs_fs st)) second false, 0%Z)
      | resultApplied =>
          let e := mkEntry (Generation b) (CAID b) (CAPEM b) 0 in
          let m' := setLastGood (Some e) m' in
          (mkRun m' (writeCache now wo e m' (rs_fs st)) second false, 0%Z)
      | _ => (mkRun m' (rs_fs st) second false, 0%Z)
      end
  end.

(** *** Readiness *)

(** What the select of [WaitReady] sees, with the pool's state at that instant. *)
Inductive WaitEvent := CtxDone (loaded : bool) | Tick (loaded : bool).

Fixpoint waitLoop (evs : list WaitEvent) : option bool :=
  match evs with
  | [] => None
  | CtxDone loaded :: _ => Some loaded
  | Tick loaded :: evs => if loaded then Some true else waitLoop evs
  end.

Definition WaitReady (m : Manager) (timeout : Z) (evs : list WaitEvent) : option bool :=
  if match clientCAs m with Some _ => true | None => false end || (timeout <=? 0)%Z
  then Some (match clientCAs m with Some _ => true | None => false end)
  else waitLoop evs.

(** *** The TLS configuration *)

Inductive ClientAuthType :=
| NoClientCert
| RequestClientCert
| RequireAnyClientCert
| VerifyClientCertIfGiven
| RequireAndVerifyClientCert.

Record TLSConfig := mkTLS {
  MinVersion : Z;
  Certificates : list Cert;
  ClientAuth : ClientAuthType;
  tls_ClientCAs : option (list Cert);
}.

Definition VersionTLS12 : Z := 771.

Definition baseConfig (fallback : list Cert) : TLSConfig :=
  mkTLS VersionTLS12 fallback NoClientCert None.

(** [GetConfigForClient]: [None] makes crypto/tls use the base configuration. *)
Definition GetConfigForClient (fallback : list Cert) (m : Manager) : option TLSConfig :=
  match clientCAs m with
  | None => None
  | Some pool =>
      let c := baseConfig fallback in
      Some (mkTLS (MinVersion c) (Certificates c) RequestClientCert (Some pool))
  end.

(** The configuration a handshake runs under. *)
Definition handshakeConfig (fallback : list Cert) (m : Manager) : TLSConfig :=
  match GetConfigForClient fallback m with Some c => c | None => baseConfig fallback end.

(** *** Verifying a client certificate *)

(** The section under the read lock. *)
Definition memoLookup (m : Manager) (g : Z) (key : string) : option bool :=
  if (verifyGen m =? g)%Z
  then match verifyCache m with Some c => c !! key | None => None end
  else None.

(** The section under the write lock. *)
Definition memoStore (g : Z) (key : string) (m : Manager) : Manager :=
  let fresh := negb (verifyGen m =? g)%Z ||
               match verifyCache m with None => true | Some _ => false end in
  let c := if fresh then ∅ else match verifyCache m with Some c => c | None => ∅ end in
  let g := if fresh then g else verifyGen m in
  let c := if (verifyCacheCap <=? Z.of_nat (size c))%Z
           then match rangeFirst c with Some k => delete k c | None => c end
           else c in
  setVerify g (Some (<[key := true]> c)) m.

(** [cs] is [None] for a nil connection state; otherwise its peer certificates. *)
Definition VerifyClientCert (now : Z) (cs : option (list Cert)) (m : Manager) : bool * Manager :=
  match cs with
  | None | Some [] => (false, m)
  | Some (leaf :: inters) =>
      match clientCAs m with
      | None => (false, m)
      | Some pool =>
          let g := gen m in
          let key := Sum256 leaf in
          match memoLookup m g key with
          | Some v => (v, m)
          | None =>
              if Verify pool leaf inters now then (true, memoStore g key m) else (false, m)
          end
      end
  end.

End ops.

Arguments Manager : clear implicits.
Arguments RunState : clear implicits.
Arguments TLSConfig : clear implicits.

End Trust.

(** ** Concurrent execution

    Requests verify while the polling goroutine applies bundles.  A step is one
    atomic access of [VerifyClientCert] or [apply]; verification itself reads no
    shared state.  [c_pools] records the pools ever installed. *)

Module TrustConc.
Import Trust.

Section conc.
Context {Cert : Type} `{!EqDecision Cert} `{!TrustOps Cert}.

Inductive vpc :=
| VPool (leaf : Cert) (inters pool : list Cert)
| VGen (leaf : Cert) (inters pool : list Cert) (g : Z)
| VMiss (leaf : Cert) (inters pool : list Cert) (g : Z)
| VOk (leaf : Cert) (g : Z)
| VDone (leaf : Cert) (v : bool).

Record conc := mkConc {
  c_m : Manager Cert;
  c_now : Z;
  c_applying : option Bundle;
  c_threads : gmap nat vpc;
  c_pools : list (list Cert);
}.

Definition concInit (m : Manager Cert) (now : Z) : conc :=
  mkConc m now None ∅ (match clientCAs m with Some p => [p] | None => [] end).

Definition setThread (i : nat) (t : vpc) (c : conc) : conc :=
  mkConc (c_m c) (c_now c) (c_applying c) (<[i := t]> (c_threads c)) (c_pools c).

Inductive vstep : conc -> conc -> Prop :=
| vs_clock c t :
    (c_now c <= t)%Z ->
    vstep c (mkConc (c_m c) t (c_applying c) (c_threads c) (c_pools c))
| vs_apply_pool c b pool :
    c_applying c = None -> admit_ (c_m c) b = Ok pool ->
    vstep c (mkConc (storePool pool (c_m c)) (c_now c) (Some b) (c_threads c) (pool :: c_pools c))
| vs_apply_gen c b :
    c_applying c = Some b ->
    vstep c (mkConc (storeCAID (CAID b) (storeGen (Generation b) (c_m c))) (c_now c) None
               (c_threads c) (c_pools c))
| vs_load_pool c i leaf inters pool :
    c_threads c !! i = None -> clientCAs (c_m c) = Some pool ->
    vstep c (setThread i (VPool leaf inters pool) c)
| vs_no_pool c i leaf :
    c_threads c !! i = None -> clientCAs (c_m c) = None ->
    vstep c (setThread i (VDone leaf false) c)
| vs_load_gen c i leaf inters pool :
    c_threads c !! i = Some (VPool leaf inters pool) ->
    vstep c (setThread i (VGen leaf inters pool (gen (c_m c))) c)
| vs_lookup c i leaf inters pool g :
    c_threads c !! i = Some (VGen leaf inters pool g) ->
    vstep c (setThread i match memoLookup (c_m c) g (Sum256 leaf) with
                         | Some v => VDone leaf v
                         | None => VMiss leaf inters pool g
                         end c)
| vs_verify c i leaf inters pool g :
    c_threads c !! i = Some (VMiss leaf inters pool g) ->
    vstep c (setThread i (if Verify pool leaf inters (c_now c) then VOk leaf g else VDone leaf false) c)
| vs_store c i leaf g :
    c_threads c !! i = Some (VOk leaf g) ->
    vstep c (mkConc (memoStore g (Sum256 leaf) (c_m c)) (c_now c) (c_applying c)
               (<[i := VDone leaf true]> (c_threads c)) (c_pools c))
| vs_return c i leaf v :
    c_threads c !! i = Some (VDone leaf v) ->
    vstep c (mkConc (c_m c) (c_now c) (c_applying c) (delete i (c_threads c)) (c_pools c)).

(** A leaf is grounded when it verified against an installed pool by now. *)
Definition grounded (pools : list (list Cert)) (now : Z) (key : string) : Prop :=
  exists leaf inters pool t,
    Sum256 leaf = key /\ pool ∈ pools /\ (t <= now)%Z /\ Verify pool leaf inters t = true.

End conc.
Arguments vpc : clear implicits.
Arguments conc : clear implicits.
End TrustConc.

(** ** Sessions: polling and restarting over one cache file *)

Module TrustSession.
Import Trust.

Section session.
Context {Cert : Type} `{!EqDecision Cert} `{!TrustOps Cert}.

(** The generation a restart would load as its floor. *)
Definition diskGen (fs : FS) (path : string) : Z :=
  match readCache fs path with Some e => ce_Generation e | None => 0 end.

(** [sy_high] is the highest generation that was ever on disk. *)
Record sys := mkSys { sy_run : RunState Cert; sy_high : Z }.

Definition withHigh (path : string) (r : RunState Cert) (high : Z) : sys :=
  mkSys r (Z.max high (diskGen (rs_fs r) path)).

(** A process start: [NewManager], [EnableWarmStart], then [Run]. *)
Definition boot (path : string) (maxStale now : Z) (fs : FS) : RunState Cert :=
  runInit (EnableWarmStart path maxStale now fs NewManager) fs.

Definition fresh (path : string) (maxStale now : Z) (fs : FS) : Prop :=
  forall e, readCache fs path = Some e -> tooStale maxStale now e = false.

Inductive sstep (path : string) (maxStale interval : Z) : sys -> sys -> Prop :=
| ss_poll s now resp wo :
    sstep path maxStale interval s
      (withHigh path (fst (runStep interval now resp wo (sy_run s))) (sy_high s))
| ss_restart s now :
    fresh path maxStale now (rs_fs (sy_run s)) ->
    sstep path maxStale interval s
      (mkSys (boot path maxStale now (rs_fs (sy_run s))) (sy_high s)).

End session.
Arguments sys : clear implicits.
End TrustSession.

Module TrustLemmas.
Import Trust TrustConc TrustSession.

Section lemmas.
Context {Cert : Type} `{!EqDecision Cert} `{!TrustOps Cert} `{!TrustLaws Cert}.
Implicit Types (m : Manager Cert) (c : conc Cert) (pool : list Cert).

(** *** PEM bundles *)

(** The CERTIFICATE blocks of an input, in order. *)
Inductive Blocks : string -> list string -> Prop :=
| blocks_end s : pem_Decode s = None -> Blocks s []
| blocks_cert s b r bs :
    pem_Decode s = Some ("CERTIFICATE", b, r) -> Blocks r bs -> Blocks s (b :: bs)
| blocks_other s ty b r bs :
    pem_Decode s = Some (ty, b, r) -> ty <> "CERTIFICATE" -> Blocks r bs -> Blocks s bs.

Lemma Blocks_exist s : exists bs, Blocks s bs.
Proof using TrustLaws0.
  remember (String.length s) as n eqn:Hn. revert s Hn.
  induction (lt_wf n) as [n _ IH]; intros s ->.
  destruct (pem_Decode s) as [[[ty b] r]|] eqn:Hd; [|eexists; by constructor].
  destruct (IH (String.length r) ltac:(by eapply pem_shrinks) r eq_refl) as [bs Hbs].
  destruct (decide (ty = "CERTIFICATE")) as [->|Hne]; eexists;
    [by eapply blocks_cert|by eapply blocks_other].
Qed.

Lemma strictPoolLoop_blocks s bs :
  Blocks s bs -> forall fuel pool n, String.length s < fuel ->
  strictPoolLoop fuel s pool n =
  match mapM ParseCertificate bs with
  | None => None
  | Some cs => Some (fold_left AddCert cs pool, (n + Z.of_nat (length cs))%Z)
  end.
Proof using TrustLaws0.
  induction 1 as [s Hd|s b r bs Hd _ IH|s ty b r bs Hd Hne _ IH];
    intros [|fuel] pool n Hf; try lia; simpl; rewrite Hd; [by rewrite Z.add_0_r| |].
  - apply pem_shrinks in Hd. simpl. destruct (ParseCertificate b) as [c|]; [|done].
    rewrite IH by lia. destruct (mapM ParseCertificate bs) as [cs|]; [|done].
    simpl. apply f_equal, f_equal2; [done|]. rewrite Nat2Z.inj_succ. lia.
  - apply pem_shrinks in Hd. apply String.eqb_neq in Hne as ->. simpl. by rewrite IH by lia.
Qed.

Lemma fold_AddCert_elem cs pool x :
  x ∈ fold_left AddCert cs pool <-> x ∈ pool \/ x ∈ cs.
Proof.
  revert pool. induction cs as [|c cs IH]; intros pool; simpl.
  - split; [by left|]. by intros [?|?%elem_of_nil].
  - rewrite IH, elem_of_cons. unfold AddCert. case_decide as Hd.
    + split; [|intros [?|[->|?]]]; [intros [?|?]|..]; auto.
    + rewrite elem_of_app, list_elem_of_singleton. tauto.
Qed.

(** *** The memo *)

Lemma size_memoStore g key m :
  (forall mc, verifyCache m = Some mc -> Z.of_nat (size mc) <= verifyCacheCap)%Z ->
  forall mc, verifyCache (memoStore g key m) = Some mc -> (Z.of_nat (size mc) <= verifyCacheCap)%Z.
Proof using TrustLaws0.
  intros Hm mc. unfold memoStore, setVerify. simpl. set (mc0 := if _ || _ then _ else _).
  intros [= <-].
  assert (Hc0 : (Z.of_nat (size mc0) <= verifyCacheCap)%Z).
  { subst mc0. destruct (_ || _); [by rewrite map_size_empty|].
    destruct (verifyCache m) eqn:Hc; [by apply Hm|by rewrite map_size_empty]. }
  assert (Hsz : forall mc : gmap string bool, size (<[key := true]> mc) <= S (size mc)).
  { intros mc. rewrite map_size_insert. destruct (mc !! key); unfold id; lia. }
  destruct (Z.leb_spec verifyCacheCap (Z.of_nat (size mc0))) as [Hfull|Hroom].
  - destruct (range_nonempty mc0) as (k & -> & [v Hk]).
    { intros ->. rewrite map_size_empty in Hfull. unfold verifyCacheCap in Hfull. lia. }
    specialize (Hsz (delete k mc0)). rewrite map_size_delete_Some in Hsz by eauto.
    assert (size mc0 <> 0) by (by eapply map_size_ne_0_lookup_2; eauto). lia.
  - specialize (Hsz mc0). lia.
Qed.

Lemma lookup_memoStore g key m mc k v :
  verifyCache (memoStore g key m) = Some mc -> mc !! k = Some v ->
  (k = key /\ v = true) \/
  (verifyGen m = g /\ exists mc', verifyCache m = Some mc' /\ mc' !! k = Some v).
Proof.
  unfold memoStore, setVerify. simpl. set (mc0 := if negb _ || _ then _ else _).
  intros [= <-] Hk.
  destruct (decide (k = key)) as [->|Hne].
  { rewrite lookup_insert_eq in Hk. left. split; congruence. }
  rewrite lookup_insert_ne in Hk by done. right.
  assert (Hk0 : mc0 !! k = Some v).
  { destruct (_ <=? _)%Z; [|done]. destruct (rangeFirst mc0) as [k'|]; [|done].
    by apply lookup_delete_Some in Hk as [_ ?]. }
  subst mc0. destruct (Z.eqb_spec (verifyGen m) g) as [Hg|]; simpl in Hk0; [|by rewrite lookup_empty in Hk0].
  split; [done|]. destruct (verifyCache m) as [mc'|]; [eauto|by rewrite lookup_empty in Hk0].
Qed.

Lemma memoLookup_some m g key v :
  memoLookup m g key = Some v <->
  verifyGen m = g /\ exists mc, verifyCache m = Some mc /\ mc !! key = Some v.
Proof.
  unfold memoLookup. destruct (Z.eqb_spec (verifyGen m) g) as [Hg|Hg]; [|split; [done|by intros [? _]]].
  destruct (verifyCache m) as [mc|]; split; try done.
  - eauto.
  - by intros (_ & ? & [= <-] & ?).
  - by intros (_ & ? & ? & _).
Qed.

Lemma verifyGen_memoStore g key m : verifyGen (memoStore g key m) = g.
Proof.
  unfold memoStore, setVerify. simpl.
  destruct (Z.eqb_spec (verifyGen m) g) as [->|]; simpl; [|done]. by destruct (verifyCache m).
Qed.

Lemma memoStore_fields g key m :
  clientCAs (memoStore g key m) = clientCAs m /\ gen (memoStore g key m) = gen m.
Proof. done. Qed.

Lemma memoStore_hit g key m : memoLookup (memoStore g key m) g key = Some true.
Proof.
  unfold memoLookup. rewrite verifyGen_memoStore, Z.eqb_refl.
  unfold memoStore, setVerify. simpl. by rewrite lookup_insert_eq.
Qed.

(** *** Every interleaving *)

Lemma grounded_mono pools pools' now now' key :
  pools ⊆ pools' -> (now <= now')%Z -> grounded pools now key -> grounded pools' now' key.
Proof.
  intros Hp Hn (leaf & inters & pool & t & Hk & Hin & Ht & Hv).
  exists leaf, inters, pool, t. repeat split; [done|by apply Hp|lia|done].
Qed.

Definition thread_ok pools now (t : vpc Cert) : Prop :=
  match t with
  | VPool _ _ pool | VGen _ _ pool _ | VMiss _ _ pool _ => pool ∈ pools
  | VOk leaf _ => grounded pools now (Sum256 leaf)
  | VDone leaf v => v = true -> grounded pools now (Sum256 leaf)
  end.

Lemma thread_ok_mono pools pools' now now' t :
  pools ⊆ pools' -> (now <= now')%Z -> thread_ok pools now t -> thread_ok pools' now' t.
Proof.
  intros Hp Hn. destruct t; simpl; auto; [by apply grounded_mono|].
  intros H Hv. eapply grounded_mono; eauto.
Qed.

Record CInv c : Prop := {
  ci_pool pool : clientCAs (c_m c) = Some pool -> pool ∈ c_pools c;
  ci_memo mc k v : verifyCache (c_m c) = Some mc -> mc !! k = Some v ->
    v = true /\ grounded (c_pools c) (c_now c) k;
  ci_cap mc : verifyCache (c_m c) = Some mc -> (Z.of_nat (size mc) <= verifyCacheCap)%Z;
  ci_threads i t : c_threads c !! i = Some t -> thread_ok (c_pools c) (c_now c) t;
}.

Lemma CInv_init m now : verifyCache m = None -> CInv (concInit m now).
Proof.
  intros Hv. unfold concInit. constructor; simpl.
  - intros pool ->. by apply list_elem_of_singleton.
  - intros mc k v. by rewrite Hv.
  - intros mc. by rewrite Hv.
  - intros i t. by rewrite lookup_empty.
Qed.

(** Moving one thread to a sound state keeps the invariant. *)
Lemma CInv_thread c i t :
  CInv c -> thread_ok (c_pools c) (c_now c) t -> CInv (setThread i t c).
Proof.
  intros [Hp Hm Hc Ht] Hok. constructor; simpl; try done.
  intros j t' [[<- <-]|[_ Hj]]%lookup_insert_Some; [done|by eapply Ht].
Qed.

Lemma ConcInv_step c c' : CInv c -> vstep c c' -> CInv c'.
Proof using TrustLaws0.
  intros HI Hs. pose proof HI as [Hp Hm Hc Ht]. destruct Hs as
    [c t Hle|c b pool Ha Had|c b Ha|c i leaf inters pool Hi Hpool|c i leaf Hi Hnone
    |c i leaf inters pool Hi|c i leaf inters pool g Hi|c i leaf inters pool g Hi
    |c i leaf g Hi|c i leaf v Hi]; try (apply CInv_thread; [done|]; simpl).
  - constructor; simpl; try done.
    + intros mc k v H1 H2. destruct (Hm _ _ _ H1 H2). split; [done|]. by eapply grounded_mono.
    + intros i t' Hi. eapply thread_ok_mono; [done| |by eapply Ht]. done.
  - assert (Hsub : c_pools c ⊆ pool :: c_pools c) by (intros x Hx; by right).
    constructor; simpl; try done.
    + intros ? [= <-]. by left.
    + intros mc k v H1 H2. destruct (Hm _ _ _ H1 H2). split; [done|]. by eapply grounded_mono.
    + intros i t' Hi. eapply thread_ok_mono; [done|reflexivity|by eapply Ht].
  - constructor; simpl; done.
  - by apply Hp.
  - done.
  - apply (Ht _ _ Hi).
  - destruct (memoLookup (c_m c) g (Sum256 leaf)) as [v|] eqn:Hlk; simpl; [|apply (Ht _ _ Hi)].
    intros ->. apply memoLookup_some in Hlk as (_ & mc & H1 & H2). by eapply Hm.
  - pose proof (Ht _ _ Hi) as Hin. simpl in Hin. destruct (Verify pool leaf inters (c_now c)) eqn:Hv; [|done].
    exists leaf, inters, pool, (c_now c). repeat split; [done|lia|done].
  - pose proof (Ht _ _ Hi) as Hg. simpl in Hg.
    constructor; simpl; try done.
    + intros mc k v H1 H2. destruct (lookup_memoStore _ _ _ _ _ _ H1 H2) as [[-> ->]|(_ & mc' & H3 & H4)];
        [done|by eapply Hm].
    + intros mc Hmc. eapply size_memoStore; [|exact Hmc]. apply Hc.
    + intros j t' [[<- <-]|[_ Hj]]%lookup_insert_Some; [by intros _|by eapply Ht].
  - constructor; simpl; try done. intros j t' [_ Hj]%lookup_delete_Some. by eapply Ht.
Qed.

Lemma admit_ok m b pool :
  admit_ m b = Ok pool <->
  exists n, strictPool (CAPEM b) = Some (pool, n) /\ n <> 0%Z /\ (floor m <= Generation b)%Z /\
            (gen m <> 0 -> gen m < Generation b)%Z.
Proof.
  unfold admit_. destruct (strictPool (CAPEM b)) as [[pool' n]|]; [|naive_solver].
  destruct (Z.eqb_spec n 0); [naive_solver|].
  destruct (Z.ltb_spec (Generation b) (floor m)); [split; [done|intros (? & [= <- <-] & ?); lia]|].
  destruct (Z.eqb_spec (gen m) 0); simpl.
  { split; [intros [= ->]; eauto 10 with lia|]. by intros (? & [= -> _] & _). }
  destruct (Z.eqb_spec (Generation b) (gen m)); [split; [done|intros (? & [= <- <-] & ?); lia]|].
  destruct (Z.ltb_spec (Generation b) (gen m)); [split; [done|intros (? & [= <- <-] & ?); lia]|].
  split; [intros [= ->]; exists n; repeat split; lia || done|]. by intros (? & [= -> _] & _).
Qed.

(** Where the installed pools come from. *)
Lemma pools_admitted m now c :
  star vstep (concInit m now) c ->
  forall pool, pool ∈ c_pools c ->
    clientCAs m = Some pool \/
    exists b n, strictPool (CAPEM b) = Some (pool, n) /\ n <> 0%Z /\ (floor m <= Generation b)%Z.
Proof.
  intros Hs.
  set (I (c : conc Cert) := floor (c_m c) = floor m /\ forall pool, pool ∈ c_pools c ->
    clientCAs m = Some pool \/
    exists b n, strictPool (CAPEM b) = Some (pool, n) /\ n <> 0%Z /\ (floor m <= Generation b)%Z).
  enough (I c) by (subst I; simpl in *; tauto).
  refine (star_invariant vstep I _ _ _ Hs _); unfold I; clear I.
  - intros c1 c2 [Hfl Hp] Hst. destruct Hst as [|c1 b pool Ha Had| | | | | | | |]; simpl; try done.
    split; [done|]. intros p [->|Hin]%elem_of_cons; [|by apply Hp]. right.
    apply admit_ok in Had as (n & H1 & H2 & H3 & _). rewrite Hfl in H3. eauto.
  - split; [done|]. simpl. intros pool.
    destruct (clientCAs m); [intros ->%list_elem_of_singleton; by left|by intros ?%elem_of_nil].
Qed.

(** *** Sessions *)

Lemma readCache_unsigned fs path e : readCache fs path = Some e -> (0 < ce_Generation e)%Z.
Proof using TrustLaws0.
  unfold readCache. destruct (fs !! path) as [d|]; [|done].
  destruct (unmarshalEntry d) as [e'|] eqn:Hu; [|done].
  destruct (Z.eqb_spec (ce_Generation e') 0); [done|]. intros [= ->].
  apply unmarshal_unsigned in Hu. lia.
Qed.

Lemma diskGen_nonneg fs path : (0 <= diskGen fs path)%Z.
Proof using TrustLaws0.
  unfold diskGen. destruct (readCache fs path) eqn:Hr; [|done].
  apply readCache_unsigned in Hr. lia.
Qed.

Lemma append_tmp_ne (s : string) : s +:+ ".tmp" <> s.
Proof.
  intros H. apply (f_equal String.length) in H. rewrite str_length_app in H. simpl in H. lia.
Qed.

(** A cache write leaves the cache file as it was, or holding the new entry. *)
Lemma writeCache_file now wo e m fs :
  (0 <= ce_Generation e)%Z -> cachePath m <> "" ->
  let fs' := writeCache now wo e m fs in
  (wo = Written -> fs' !! cachePath m = marshalEntry (stamp now e)) /\
  (wo <> Written -> fs' !! cachePath m = fs !! cachePath m) /\
  (forall p, p <> cachePath m -> p <> tmpPath m -> fs' !! p = fs !! p).
Proof using TrustLaws0.
  intros He Hp. simpl. unfold writeCache. apply String.eqb_neq in Hp as ->.
  pose proof (append_tmp_ne (cachePath m)) as Hne. fold (tmpPath m) in Hne.
  destruct (marshal_total (stamp now e)) as [data Hd]. rewrite Hd.
  destruct wo as [[part|]| |]; repeat split; intros; try done;
    repeat first [rewrite lookup_insert_eq | rewrite lookup_insert_ne by congruence
                 | rewrite lookup_delete_ne by congruence]; done.
Qed.

(** What a write does to the generation on disk. *)
Lemma writeCache_diskGen now wo e m fs :
  (0 <= ce_Generation e)%Z -> cachePath m <> "" ->
  let fs' := writeCache now wo e m fs in
  diskGen fs' (cachePath m) = if match wo with Written => true | _ => false end
                              then ce_Generation e else diskGen fs (cachePath m).
Proof using TrustLaws0.
  intros He Hp fs'. destruct (writeCache_file now wo e m fs He Hp) as (Hw & Hn & _). fold fs' in Hw, Hn.
  unfold diskGen, readCache. destruct wo; try (by rewrite Hn).
  rewrite Hw by done. destruct (marshal_total (stamp now e)) as [d Hd]. rewrite Hd.
  rewrite (marshal_unmarshal (stamp now e) d) by done. simpl.
  by destruct (Z.eqb_spec (ce_Generation e) 0) as [->|].
Qed.

Record SInv (path : string) (s : sys Cert) : Prop := {
  si_path : cachePath (rs_m (sy_run s)) = path;
  si_floor : (0 <= floor (rs_m (sy_run s)))%Z;
  si_gen : (0 <= gen (rs_m (sy_run s)))%Z;
  si_disk : diskGen (rs_fs (sy_run s)) path = sy_high s;
  si_live : (sy_high s <= (if gen (rs_m (sy_run s)) =? 0 then floor (rs_m (sy_run s))
                           else gen (rs_m (sy_run s))))%Z;
  si_last e : lastGood (rs_m (sy_run s)) = Some e ->
    ce_Generation e = (if gen (rs_m (sy_run s)) =? 0 then floor (rs_m (sy_run s))
                       else gen (rs_m (sy_run s)))%Z;
}.

Lemma SInv_boot path maxStale now fs :
  path <> "" -> fresh path maxStale now fs ->
  SInv path (mkSys (boot path maxStale now fs) (diskGen fs path)).
Proof using TrustLaws0.
  intros Hp Hf. unfold boot, EnableWarmStart. apply String.eqb_neq in Hp as ->.
  assert (Hh : diskGen fs path = match readCache fs path with Some e => ce_Generation e | None => 0%Z end)
    by done.
  destruct (readCache fs path) as [e|] eqn:Hr.
  - rewrite (Hf e Hr). apply readCache_unsigned in Hr.
    constructor; simpl; try done || lia. by intros ? [= <-].
  - constructor; simpl; done || lia.
Qed.

(** A write of an entry that is at least as recent keeps the invariant. *)
Lemma SInv_write path now wo e m fs high bo f :
  path <> "" -> SInv path (mkSys (mkRun m fs bo f) high) ->
  ce_Generation e = (if gen m =? 0 then floor m else gen m)%Z -> forall bo' f',
  SInv path (withHigh path (mkRun m (writeCache now wo e m fs) bo' f') high).
Proof using TrustLaws0.
  intros Hp [Hpath Hfl Hg Hd Hl Hlast] He bo' f'. simpl in *.
  assert (0 <= ce_Generation e)%Z by (rewrite He; by case_match).
  assert (Hne : cachePath m <> "") by (by rewrite Hpath).
  pose proof (writeCache_diskGen now wo e m fs ltac:(done) Hne) as Hdg. rewrite Hpath in Hdg.
  assert (Hle : (high <= ce_Generation e)%Z) by (by rewrite He).
  assert (Hmax : Z.max high (diskGen (writeCache now wo e m fs) path) =
                 diskGen (writeCache now wo e m fs) path) by (rewrite Hdg; case_match; lia).
  unfold withHigh. simpl. rewrite Hmax.
  constructor; simpl; try done. rewrite Hdg. case_match; [by rewrite He|by rewrite Hd].
Qed.

(** An iteration that writes nothing. *)
Lemma SInv_quiet path s bo f :
  SInv path s ->
  SInv path (withHigh path (mkRun (rs_m (sy_run s)) (rs_fs (sy_run s)) bo f) (sy_high s)).
Proof.
  intros [Hpath Hfl Hg Hd Hl Hlast]. unfold withHigh. simpl. rewrite Hd, Z.max_id.
  by constructor.
Qed.

Lemma SInv_touch path now wo s bo f :
  path <> "" -> SInv path s ->
  SInv path (withHigh path (mkRun (rs_m (sy_run s))
               (touch now wo (rs_m (sy_run s)) (rs_fs (sy_run s))) bo f) (sy_high s)).
Proof using TrustLaws0.
  intros Hp HI. unfold touch. destruct (lastGood (rs_m (sy_run s))) as [e|] eqn:He.
  - destruct s as [[m fs bo0 f0] high]. eapply SInv_write; [done|exact HI|].
    by apply (si_last _ _ HI).
  - by apply SInv_quiet.
Qed.

Lemma SInv_poll path interval now resp wo s :
  path <> "" -> SInv path s ->
  SInv path (withHigh path (fst (runStep interval now resp wo (sy_run s))) (sy_high s)).
Proof using TrustLaws0.
  intros Hp HI. unfold runStep.
  destruct (Fetch resp) as [| |b] eqn:Hf; [by apply SInv_quiet|by apply SInv_touch|].
  assert (Hb : (0 <= Generation b)%Z).
  { unfold Fetch in Hf. repeat case_match; simplify_eq. by eapply decode_unsigned. }
  unfold apply_. destruct (admit_ (rs_m (sy_run s)) b) as [pool|r] eqn:Ha.
  - apply admit_ok in Ha as (n & _ & _ & Hfl & Hgen).
    destruct s as [[m fs bo0 f0] high]. destruct HI as [Hpath Hfl0 Hg Hd Hl Hlast]. simpl in *.
    eapply (SInv_write _ _ _ _ _ fs high second false); [done| |].
    + constructor; simpl; try done.
      * destruct (Z.eqb_spec (Generation b) 0); destruct (Z.eqb_spec (gen m) 0); lia.
      * intros e [= <-]. simpl. destruct (Z.eqb_spec (Generation b) 0); lia.
    + simpl. destruct (Z.eqb_spec (Generation b) 0); lia.
  - destruct r; try (by apply SInv_quiet); try (by apply SInv_touch).
    unfold admit_ in Ha. repeat case_match; simplify_eq.
Qed.

Lemma SInv_step path maxStale interval s s' :
  path <> "" -> SInv path s -> sstep path maxStale interval s s' -> SInv path s'.
Proof using TrustLaws0.
  intros Hp HI Hs. destruct Hs as [s now resp wo|s now Hf]; [by apply SInv_poll|].
  rewrite <- (si_disk _ _ HI). by apply SInv_boot.
Qed.

End lemmas.
End TrustLemmas.

(** ** A concrete instance

    Certificates are strings; a PEM block is its type's letter and one content
    character; a leaf [xN] chains to the CA [x] until instant 100; entries are
    written in binary.  It instantiates the interface for the witnesses. *)

Module TrustModel.
Import Trust.

Fixpoint posToString (p : positive) : string :=
  match p with xH => "" | xO p => String "0" (posToString p) | xI p => String "1" (posToString p) end.

Fixpoint stringToPos (s : string) : positive :=
  match s with
  | "" => xH
  | String c s => if Ascii.eqb c "0" then xO (stringToPos s) else xI (stringToPos s)
  end.

Lemma stringToPos_posToString p : stringToPos (posToString p) = p.
Proof. induction p as [p IH|p IH|]; simpl; by rewrite ?IH. Qed.

Definition entryCode (e : cacheEntry) : positive :=
  encode (ce_Generation e, ce_CAID e, ce_CAPEM e, ce_WrittenAt e).

Definition entryDecode (s : string) : option cacheEntry :=
  '(g, i, p, w) ← (decode (stringToPos s) : option (Z * string * string * Z));
  if (g <? 0)%Z then None else Some (mkEntry g i p w).

#[export] Instance stringTrust : TrustOps string := {
  pem_Decode s :=
    match s with
    | String t (String c rest) =>
        Some (if Ascii.eqb t "C" then "CERTIFICATE" else "OTHER", String c "", rest)
    | _ => None
    end;
  ParseCertificate b := if String.eqb b "!" then None else Some b;
  Verify roots leaf inters now := existsb (has_prefix leaf) roots && (now <? 100)%Z;
  Sum256 c := c;
  marshalEntry e := Some (posToString (entryCode e));
  unmarshalEntry := entryDecode;
  decodeBundle s := (fun e => mkBundle (ce_Generation e) (ce_CAPEM e) (ce_CAID e)) <$> entryDecode s;
  rangeFirst c := fst <$> head (map_to_list c);
}.

Lemma entryDecode_unsigned s e : entryDecode s = Some e -> (0 <= ce_Generation e)%Z.
Proof.
  unfold entryDecode. destruct (decode _) as [[[[g i] p] w]|]; [|done]. simpl.
  destruct (Z.ltb_spec g 0); [done|]. by intros [= <-].
Qed.

#[export] Instance stringTrustLaws : TrustLaws string.
Proof.
  split; simpl.
  - intros [|t [|c s]] ty b r; [done..|]. intros [= _ _ <-]. simpl. lia.
  - eauto.
  - intros e s He [= <-]. unfold entryDecode. rewrite stringToPos_posToString. unfold entryCode.
    rewrite decode_encode. destruct e as [g i p w]. simpl in *.
    by destruct (Z.ltb_spec g 0); [lia|].
  - apply entryDecode_unsigned.
  - intros s b. destruct (entryDecode s) as [e|] eqn:He; [|done]. intros [= <-].
    by apply entryDecode_unsigned in He.
  - done.
  - intros c Hc. destruct (map_to_list c) as [|[k v] l] eqn:Hl.
    { by apply map_to_list_empty_iff in Hl. }
    exists k. split; [done|]. exists v. apply elem_of_map_to_list. rewrite Hl. by left.
Qed.

End TrustModel.

Module TrustProps.
Import Trust TrustConc TrustSession TrustLemmas TrustModel.

Section props.
Context {Cert : Type} `{!EqDecision Cert} `{!TrustOps Cert} `{!TrustLaws Cert}.

(** A rotated-out leaf can stay trusted.  [VerifyClientCert] loads the pool
    before the generation while [apply] stores the pool before the generation, so a
    request that overlaps an apply can pair the old pool with the new generation and
    memoize the old pool's verdict under the new generation.  From any manager with
    a live pool and an empty memo, for any leaf of the old pool and any admitted
    bundle, an execution ends with no request and no apply in progress, the new pool
    and generation live, and the leaf trusted at every later instant. *)
Theorem rotated_out_leaf_stays_trusted (m : Manager Cert) b P1 P2 leaf inters now :
  clientCAs m = Some P1 -> verifyCache m = None -> admit_ m b = Ok P2 ->
  Verify P1 leaf inters now = true ->
  exists c, star vstep (concInit m now) c /\
    c_applying c = None /\ c_threads c = ∅ /\
    clientCAs (c_m c) = Some P2 /\ gen (c_m c) = Generation b /\
    forall later inters', VerifyClientCert later (Some (leaf :: inters')) (c_m c) = (true, c_m c).
Proof.
  intros Hp Hv Ha Hok.
  set (m1 := storePool P2 m). set (m2 := storeCAID (CAID b) (storeGen (Generation b) m1)).
  assert (Hmiss : memoLookup m2 (Generation b) (Sum256 leaf) = None).
  { unfold memoLookup. simpl. rewrite Hv. by case_match. }
  eexists. split.
  { eapply star_step; [apply (vs_load_pool _ 0 leaf inters P1); done|].
    eapply star_step; [by apply (vs_apply_pool _ b P2)|].
    eapply star_step; [by apply (vs_apply_gen _ b)|].
    eapply star_step; [apply (vs_load_gen _ 0 leaf inters P1); simpl; by rewrite lookup_insert_eq|].
    eapply star_step; [apply (vs_lookup _ 0 leaf inters P1 (Generation b)); simpl; by rewrite lookup_insert_eq|].
    simpl. fold m1. fold m2. rewrite Hmiss.
    eapply star_step; [apply (vs_verify _ 0 leaf inters P1 (Generation b)); simpl; by rewrite lookup_insert_eq|].
    simpl. rewrite Hok.
    eapply star_step; [apply (vs_store _ 0 leaf (Generation b)); simpl; by rewrite lookup_insert_eq|].
    eapply star_step; [apply (vs_return _ 0 leaf true); simpl; by rewrite lookup_insert_eq|].
    apply star_refl. }
  simpl. do 4 (split; [done|]).
  intros later inters'. unfold VerifyClientCert. simpl. by rewrite memoStore_hit.
Qed.

(** C9: under every interleaving of requests and applies, a request answers "trusted"
    only for a leaf that chained, at an instant already past, to a pool installed by
    an admitted bundle (or live at the start); the memo records only such leaves and
    never exceeds its cap. *)
Theorem trust_is_grounded (m : Manager Cert) now c :
  verifyCache m = None -> star vstep (concInit m now) c ->
  (forall i leaf, c_threads c !! i = Some (VDone leaf true) ->
     exists inters pool t, pool ∈ c_pools c /\ (t <= c_now c)%Z /\ Verify pool leaf inters t = true) /\
  (forall pool, pool ∈ c_pools c ->
     clientCAs m = Some pool \/
     exists b n, strictPool (CAPEM b) = Some (pool, n) /\ n <> 0%Z /\ (floor m <= Generation b)%Z) /\
  (forall mc, verifyCache (c_m c) = Some mc -> (Z.of_nat (size mc) <= verifyCacheCap)%Z).
Proof using TrustLaws0.
  intros Hv Hs.
  assert (HI : CInv c).
  { eapply star_invariant; [intros ? ? ? ?; by eapply ConcInv_step|exact Hs|by apply CInv_init]. }
  split; [|split; [|apply (ci_cap _ HI)]].
  - intros i leaf Hi. destruct (ci_threads _ HI i _ Hi eq_refl) as (leaf' & inters & pool & t & Hk & H).
    apply Sum256_inj in Hk as ->. eauto.
  - intros pool Hin. eapply (pools_admitted m now c Hs). done.
Qed.

(** Requests and applies one at a time, under positive generations, with the clock
    moving forward. *)
Inductive serial : Z -> Manager Cert -> Prop :=
| serial_new now m : clientCAs m = None -> gen m = 0%Z -> verifyGen m = 0%Z -> verifyCache m = None ->
    serial now m
| serial_apply now m b : serial now m -> (0 < Generation b)%Z -> serial now (snd (apply_ m b))
| serial_verify now now' m cs : serial now m -> (now <= now')%Z ->
    serial now' (snd (VerifyClientCert now' cs m)).

Record MInv (now : Z) (m : Manager Cert) : Prop := {
  mi_gen : (0 <= verifyGen m <= gen m)%Z;
  mi_zero : gen m = 0%Z -> clientCAs m = None /\ verifyCache m = None;
  mi_memo mc k v : verifyGen m = gen m -> verifyCache m = Some mc -> mc !! k = Some v ->
    v = true /\ exists pool, clientCAs m = Some pool /\ grounded [pool] now k;
}.

Lemma MInv_serial now m : serial now m -> MInv now m.
Proof using TrustLaws0.
  induction 1 as [now m H1 H2 H3 H4|now m b _ [Hg Hz Hm] Hb|now now' m cs _ [Hg Hz Hm] Hle].
  - constructor; [lia|done|]. intros mc k v _. by rewrite H4.
  - unfold apply_. destruct (admit_ m b) as [pool|] eqn:Ha; [|done].
    apply admit_ok in Ha as (_ & _ & _ & _ & Hgt). simpl. constructor; simpl; lia.
  - assert (Hm' : forall mc k v, verifyGen m = gen m -> verifyCache m = Some mc -> mc !! k = Some v ->
      v = true /\ exists pool, clientCAs m = Some pool /\ grounded [pool] now' k).
    { intros mc k v H1 H2 H3. destruct (Hm _ _ _ H1 H2 H3) as (-> & pool & ? & ?).
      split; [done|]. exists pool. split; [done|]. by eapply grounded_mono. }
    assert (Hkeep : MInv now' m) by (by constructor).
    unfold VerifyClientCert. destruct cs as [[|leaf inters]|]; [done| |done].
    destruct (clientCAs m) as [pool|] eqn:Hp; [|done].
    destruct (memoLookup m (gen m) (Sum256 leaf)); [done|].
    destruct (Verify pool leaf inters now') eqn:Hv; [|done].
    simpl. constructor.
    + rewrite verifyGen_memoStore. unfold memoStore; simpl. lia.
    + unfold memoStore; simpl. intros H0. destruct (Hz H0). done.
    + intros mc k v _ H2 H3.
      destruct (lookup_memoStore _ _ _ _ _ _ H2 H3) as [[-> ->]|(H1 & mc' & H4 & H5)]; [|by eapply (mi_memo _ _ Hkeep)].
      split; [done|]. exists pool. split; [done|].
      exists leaf, inters, pool, now'. repeat split; [by apply list_elem_of_singleton|done|done].
Qed.

(** One request at a time, the decision is sound for the live pool: a trusted leaf
    chained to the pool now live (so a leaf of a rotated-out CA is refused from the
    apply on), a leaf that chains now is trusted, an absent certificate and an empty
    pool never are, and an untrusted leaf changes nothing.  The instant of the check is
    the first one in the generation: once trusted, a leaf is trusted for the rest of
    the generation, whatever the clock says. *)
Theorem serial_trust_spec now (m : Manager Cert) cs :
  serial now m ->
  let '(ok, m') := VerifyClientCert now cs m in
  (ok = true -> exists leaf inters pool inters' t,
     cs = Some (leaf :: inters) /\ clientCAs m = Some pool /\ (t <= now)%Z /\
     Verify pool leaf inters' t = true) /\
  (forall leaf inters pool, cs = Some (leaf :: inters) -> clientCAs m = Some pool ->
     Verify pool leaf inters now = true -> ok = true) /\
  (ok = false -> m' = m) /\
  (ok = true -> forall later, (now <= later)%Z -> VerifyClientCert later cs m' = (true, m')).
Proof using TrustLaws0.
  intros Hs%MInv_serial. destruct Hs as [_ _ Hm]. unfold VerifyClientCert.
  destruct cs as [[|leaf inters]|]; [by repeat split| |by repeat split].
  destruct (clientCAs m) as [pool|] eqn:Hp; [|by repeat split].
  destruct (memoLookup m (gen m) (Sum256 leaf)) as [v|] eqn:Hlk.
  - pose proof Hlk as (Hg & mc & Hc & Hk)%memoLookup_some.
    destruct (Hm _ _ _ Hg Hc Hk) as (-> & pool' & [= <-] & leaf' & inters' & p' & t & Hsum & Hin & Ht & Hv).
    apply Sum256_inj in Hsum as ->. apply list_elem_of_singleton in Hin as ->.
    repeat split; try done; [by eauto 10|]. intros _ later _. by rewrite Hp, Hlk.
  - destruct (Verify pool leaf inters now) eqn:Hv.
    + repeat split; try done; [intros _; by exists leaf, inters, pool, inters, now|]. intros _ later _.
      destruct (memoStore_fields (gen m) (Sum256 leaf) m) as [-> ->].
      by rewrite Hp, memoStore_hit.
    + repeat split; try done. intros ? ? ? [= <- <-] [= <-]. congruence.
Qed.

(** C10: no resurrection across restarts.  Polls with any responses and any write
    failures, interleaved with restarts within the staleness bound, never admit a
    bundle older than the newest generation that was ever on disk; inside a session an
    admitted generation is strictly greater than the live one. *)
Theorem anti_resurrection path maxStale interval now fs s b pool :
  path <> "" -> fresh path maxStale now fs ->
  star (sstep path maxStale interval)
    (mkSys (boot path maxStale now fs) (diskGen fs path)) s ->
  admit_ (rs_m (sy_run s)) b = Ok pool ->
  (sy_high s <= Generation b)%Z /\
  (gen (rs_m (sy_run s)) <> 0 -> gen (rs_m (sy_run s)) < Generation b)%Z.
Proof using TrustLaws0.
  intros Hp Hf Hs Ha.
  assert (HI : SInv path s).
  { eapply star_invariant; [intros ? ? ? ?; by eapply SInv_step|exact Hs|by apply SInv_boot]. }
  apply admit_ok in Ha as (n & _ & _ & Hfl & Hgen). split; [|done].
  pose proof (si_live _ _ HI) as Hl. destruct (Z.eqb_spec (gen (rs_m (sy_run s))) 0); lia.
Qed.

(** Parsing a bundle terminates with every certificate or none: the result is the
    set of all the CERTIFICATE blocks, counted, exactly when each of them parses. *)
Theorem strictPool_spec (caPEM : string) :
  exists bs, Blocks caPEM bs /\
    match mapM ParseCertificate bs with
    | None => strictPool caPEM = None
    | Some cs => exists pool, strictPool caPEM = Some (pool, Z.of_nat (length cs)) /\
                              forall x : Cert, x ∈ pool <-> x ∈ cs
    end.
Proof using TrustLaws0.
  destruct (Blocks_exist caPEM) as [bs Hbs]. exists bs. split; [done|].
  unfold strictPool. rewrite (strictPoolLoop_blocks _ _ Hbs) by lia.
  destruct (mapM ParseCertificate bs) as [cs|]; [|done].
  eexists. split; [done|]. intros x. rewrite fold_AddCert_elem. split; [intros [?%elem_of_nil|?]|]; auto.
  done.
Qed.

(** The loop is fail-static: an iteration changes the live pool and generation
    only by applying an admitted bundle, never empties the pool, and keeps its backoff
    at least a second and below twice the polling interval, at one second after any
    contact. *)
Theorem run_fail_static interval now resp wo (st : RunState Cert) :
  let st' := fst (runStep interval now resp wo st) in
  (second <= rs_backoff st < Z.max (2 * normInterval interval) (second + 1))%Z ->
  (second <= rs_backoff st' < Z.max (2 * normInterval interval) (second + 1))%Z /\
  (Fetch (Cert := Cert) resp <> FetchErr -> rs_backoff st' = second) /\
  ((exists b pool, Fetch (Cert := Cert) resp = Got b /\ admit_ (rs_m st) b = Ok pool /\
     clientCAs (rs_m st') = Some pool /\ gen (rs_m st') = Generation b) \/
   (clientCAs (rs_m st') = clientCAs (rs_m st) /\ gen (rs_m st') = gen (rs_m st) /\
    caID (rs_m st') = caID (rs_m st))).
Proof.
  intros st' Hb. subst st'. unfold runStep.
  destruct (Fetch resp) as [| |b] eqn:Hf; simpl.
  - split; [|split; [done|by right]]. unfold second in *.
    destruct (Z.ltb_spec (rs_backoff st) (normInterval interval)); lia.
  - split; [unfold second; lia|]. split; [done|by right].
  - unfold apply_. destruct (admit_ (rs_m st) b) as [pool|r] eqn:Ha.
    + simpl. split; [unfold second; lia|]. split; [done|]. left. eauto 10.
    + destruct r; simpl; (split; [unfold second; lia|]; split; [done|by right]).
Qed.

End props.

(** *** Witnesses *)

Definition exOld : Bundle := mkBundle 1 "Cx" "old".
Definition exNew : Bundle := mkBundle 2 "Cy" "new".
Definition exLive : Manager string := snd (apply_ NewManager exOld).

(** The leaf "x1" chains to the old CA "x" only. *)
Lemma rotated_out_leaf_stays_trusted_witness :
  Verify ["y"] "x1" [] 5 = false /\
  exists c, star vstep (concInit exLive 5) c /\
    c_applying c = None /\ c_threads c = ∅ /\
    clientCAs (c_m c) = Some ["y"] /\ gen (c_m c) = 2%Z /\
    forall later inters', VerifyClientCert later (Some ("x1" :: inters')) (c_m c) = (true, c_m c).
Proof.
  split; [reflexivity|].
  apply (rotated_out_leaf_stays_trusted exLive exNew ["x"] ["y"] "x1" [] 5); reflexivity.
Defined.

Definition exConc : conc string := setThread 0 (VPool "x1" [] ["x"]) (concInit exLive 5).

Lemma exConc_reachable : star vstep (concInit exLive 5) exConc.
Proof. eapply star_step; [by apply (vs_load_pool _ 0 "x1" [] ["x"])|apply star_refl]. Qed.

Lemma trust_is_grounded_witness :
  exLive = mkManager (Some ["x"]) 1 (Some "old") 0 "" None 0 None /\
  forall pool, pool ∈ c_pools exConc ->
    clientCAs exLive = Some pool \/
    exists b n, strictPool (CAPEM b) = Some (pool, n) /\ n <> 0%Z /\ (floor exLive <= Generation b)%Z.
Proof.
  split; [reflexivity|].
  apply (trust_is_grounded exLive 5 exConc eq_refl exConc_reachable).
Defined.

(** Verified at 5, still trusted at 200 although its certificate ended at 100. *)
Lemma serial_trust_spec_witness :
  let '(ok, m') := VerifyClientCert 5 (Some ["x1"]) exLive in
  ok = true /\ Verify ["x"] "x1" [] 200 = false /\ VerifyClientCert 200 (Some ["x1"]) m' = (true, m').
Proof.
  assert (Hs : serial 5 exLive).
  { apply (serial_apply 5 NewManager exOld); [by apply serial_new|reflexivity]. }
  pose proof (serial_trust_spec 5 exLive (Some ["x1"]) Hs) as H.
  destruct (VerifyClientCert 5 (Some ["x1"]) exLive) as [ok m'] eqn:Hv.
  destruct H as (_ & Hc & _ & Hl).
  assert (Hok : ok = true) by (apply (Hc "x1" [] ["x"]); reflexivity).
  split; [done|]. split; [reflexivity|]. by apply Hl.
Defined.

(** A restart with generation 2 on disk refuses generation 1. *)
Definition exFS : gmap string string :=
  writeCache 0 Written (mkEntry 2 "new" "Cy" 0) (setCachePath "/c" (NewManager (Cert := string))) ∅.

Lemma anti_resurrection_witness :
  diskGen (Cert := string) exFS "/c" = 2%Z /\
  admit_ (rs_m (boot "/c" 0 9 exFS)) exOld = Err resultFloorRejected /\
  ((diskGen (Cert := string) exFS "/c" <= Generation exNew)%Z /\
   (gen (rs_m (boot (Cert := string) "/c" 0 9 exFS)) <> 0 ->
    gen (rs_m (boot (Cert := string) "/c" 0 9 exFS)) < Generation exNew)%Z).
Proof.
  split; [vm_compute; reflexivity|]. split; [vm_compute; reflexivity|].
  apply (anti_resurrection (Cert := string) "/c" 0 minute 9 exFS
           (mkSys (boot "/c" 0 9 exFS) (diskGen (Cert := string) exFS "/c")) exNew ["y"]).
  - done.
  - intros e He. reflexivity.
  - apply star_refl.
  - vm_compute. reflexivity.
Defined.

Lemma strictPool_spec_witness : exists bs, Blocks "CxOzCy" bs /\
  match mapM ParseCertificate bs with
  | None => strictPool (Cert := string) "CxOzCy" = None
  | Some cs => exists pool, strictPool "CxOzCy" = Some (pool, Z.of_nat (length cs)) /\
                            forall x : string, x ∈ pool <-> x ∈ cs
  end.
Proof. apply (strictPool_spec "CxOzCy"). Defined.

Lemma run_fail_static_witness :
  let st := runInit exLive ∅ in
  let st' := fst (runStep minute 7 TransportError Written st) in
  (second <= rs_backoff st' < Z.max (2 * normInterval minute) (second + 1))%Z /\
  clientCAs (rs_m st') = Some ["x"].
Proof.
  split; [|reflexivity].
  apply (run_fail_static minute 7 TransportError Written (runInit exLive ∅)). simpl.
  unfold second, normInterval, minute. simpl. lia.
Defined.

End TrustProps.
