(* ===== verification/TrustCIDR.v ===== *)
(** * Which peers are trusted

    Models [src/trustcidr/trustcidr.go] (the TRUST_PROXY language and its named
    groups), [src/cmd/parapet-ingress-controller/wafvalidated.go] (which requests
    skip the core's WAF) and the trust predicate that
    [src/cmd/parapet-ingress-controller/main.go] installs.  Matching an address
    against a list of CIDRs is parapet's [TrustCIDRs], the class [CIDROps]; a
    client certificate's verdict is an argument ([Trust.VerifyClientCert]). *)

From S2P Require Import Prelude GoString.

Set Default Proof Using "Type".

(** What the predicates read of a request: the peer, its TLS state, and the
    validation claim's header. *)
Record Request (TLS : Type) := mkRequest {
  RemoteAddr : string;
  r_TLS : TLS;
  claim : string;
}.
Arguments mkRequest {TLS} _ _ _.
Arguments RemoteAddr {TLS} _.
Arguments r_TLS {TLS} _.
Arguments claim {TLS} _.

(** parapet's [TrustCIDRs]: it panics on a list with a malformed CIDR. *)
Class CIDROps := {
  TrustCIDRs : list string -> option (string -> bool);
  ValidCIDR : string -> bool;
  InCIDR : string -> string -> bool;
}.

Class CIDRLaws `{!CIDROps} : Prop := {
  TrustCIDRs_defined l : is_Some (TrustCIDRs l) <-> forallb ValidCIDR l = true;
  TrustCIDRs_match l c addr : TrustCIDRs l = Some c -> c addr = existsb (fun n => InCIDR n addr) l;
}.

Module TrustCIDR.

(** ** The named groups *)

Definition cloudflare : list string := [
  "173.245.48.0/20"; "103.21.244.0/22"; "103.22.200.0/22"; "103.31.4.0/22"; "141.101.64.0/18";
  "108.162.192.0/18"; "190.93.240.0/20"; "188.114.96.0/20"; "197.234.240.0/22"; "198.41.128.0/17";
  "162.158.0.0/15"; "104.16.0.0/13"; "104.24.0.0/14"; "172.64.0.0/13"; "131.0.72.0/22";
  "2400:cb00::/32"; "2606:4700::/32"; "2803:f800::/32"; "2405:b500::/32"; "2405:8100::/32";
  "2a06:98c0::/29"; "2c0f:f248::/32"].

Definition google : list string := [
  "35.191.0.0/16"; "130.211.0.0/22"; "2600:2d00:1:1::/64"; "2600:2d00:1:b029::/64"].

Definition bunny1 : list string := [
  "89.187.188.227/32"; "89.187.188.228/32"; "89.187.162.249/32"; "89.187.162.242/32";
  "185.102.217.65/32"; "185.93.1.243/32"; "156.146.40.49/32"; "185.59.220.199/32";
  "185.59.220.198/32"; "195.181.166.158/32"; "185.180.12.68/32"; "138.199.24.209/32";
  "138.199.24.211/32"; "79.127.216.111/32"; "79.127.216.112/32"; "89.187.169.47/32";
  "138.199.24.218/32"; "185.40.106.117/32"; "200.25.45.4/32"; "200.25.57.5/32";
  "193.162.131.1/32"; "200.25.11.8/32"; "200.25.53.5/32"; "41.242.2.18/32"; "200.25.62.5/32";
  "200.25.38.69/32"; "200.25.42.70/32"; "200.25.36.166/32"; "194.242.11.186/32";
  "94.20.154.22/32"; "185.93.1.244/32"; "143.244.49.177/32"; "138.199.46.66/32";
  "138.199.37.227/32"; "138.199.37.231/32"; "138.199.37.230/32"; "138.199.37.229/32";
  "138.199.46.69/32"; "138.199.46.68/32"; "138.199.46.67/32"; "185.93.1.246/32";
  "138.199.37.232/32"; "195.181.163.196/32"; "195.181.163.195/32"; "84.17.46.53/32";
  "212.102.40.114/32"; "84.17.46.54/32"; "138.199.40.58/32"; "143.244.38.134/32";
  "143.244.38.136/32"; "185.152.64.17/32"; "84.17.59.115/32"; "89.187.165.194/32";
  "138.199.15.193/32"; "37.19.216.130/32"; "185.93.1.247/32"; "185.93.3.244/32";
  "143.244.49.179/32"; "143.244.49.180/32"; "138.199.9.104/32"; "143.244.49.178/32";
  "169.150.221.147/32"; "200.25.18.73/32"; "84.17.63.178/32"; "200.25.32.131/32";
  "37.19.207.34/32"; "37.19.207.38/32"; "192.189.65.146/32"; "143.244.45.177/32";
  "185.93.1.249/32"; "185.93.1.250/32"; "169.150.215.115/32"; "209.177.87.197/32";
  "156.146.56.162/32"; "156.146.56.161/32"; "185.93.2.246/32"; "185.93.2.245/32";
  "212.102.40.113/32"; "185.93.2.244/32"; "143.244.50.82/32"; "143.244.50.83/32";
  "156.146.56.163/32"; "129.227.217.178/32"; "129.227.217.179/32"; "200.25.16.103/32";
  "102.67.138.155/32"; "156.146.43.65/32"; "195.181.163.203/32"; "195.181.163.202/32";
  "156.146.56.169/32"; "156.146.56.170/32"; "156.146.56.166/32"; "156.146.56.171/32";
  "169.150.207.210/32"; "156.146.56.167/32"; "143.244.50.84/32"; "143.244.50.85/32";
  "143.244.50.86/32"; "143.244.50.87/32"; "156.146.56.168/32"; "169.150.207.211/32";
  "212.102.50.59/32"; "146.185.248.15/32"; "143.244.50.90/32"; "143.244.50.91/32";
  "143.244.50.88/32"; "143.244.50.209/32"; "143.244.50.213/32"; "143.244.50.214/32";
  "143.244.49.183/32"; "143.244.50.89/32"; "143.244.50.210/32"; "143.244.50.211/32";
  "143.244.50.212/32"; "5.42.206.66/32"; "94.46.27.186/32"; "169.150.207.213/32";
  "169.150.207.214/32"; "169.150.207.215/32"; "169.150.207.212/32"; "169.150.219.114/32";
  "169.150.202.210/32"; "169.150.242.193/32"; "185.93.1.251/32"; "169.150.207.216/32";
  "169.150.207.217/32"; "169.150.238.19/32"; "102.219.126.20/32"; "156.59.66.182/32";
  "122.10.251.130/32"; "185.24.11.18/32"; "138.199.36.7/32"; "138.199.36.8/32";
  "138.199.36.9/32"; "138.199.36.10/32"; "138.199.36.11/32"; "138.199.37.225/32";
  "84.17.46.49/32"; "84.17.37.217/32"; "169.150.225.35/32"; "169.150.225.36/32";
  "169.150.225.37/32"; "169.150.225.38/32"; "169.150.225.39/32"; "169.150.225.34/32"].

Definition bunny2 : list string := [
  "169.150.236.97/32"; "169.150.236.98/32"; "169.150.236.99/32"; "169.150.236.100/32";
  "143.244.56.49/32"; "143.244.56.50/32"; "143.244.56.51/32"; "169.150.247.40/32";
  "169.150.247.33/32"; "169.150.247.34/32"; "169.150.247.35/32"; "169.150.247.36/32";
  "169.150.247.37/32"; "169.150.247.38/32"; "169.150.247.39/32"; "38.142.94.218/32";
  "87.249.137.52/32"; "38.104.169.186/32"; "66.181.163.74/32"; "84.17.38.227/32";
  "84.17.38.228/32"; "84.17.38.229/32"; "84.17.38.230/32"; "84.17.38.231/32";
  "84.17.38.232/32"; "169.150.225.41/32"; "169.150.225.42/32"; "169.150.249.162/32";
  "169.150.249.163/32"; "169.150.249.164/32"; "169.150.249.165/32"; "169.150.249.166/32";
  "169.150.249.167/32"; "169.150.249.168/32"; "169.150.249.169/32"; "185.131.64.124/32";
  "37.236.234.2/32"; "169.150.252.209/32"; "212.102.46.118/32"; "192.169.120.162/32";
  "93.180.217.214/32"; "37.19.203.178/32"; "107.155.47.146/32"; "193.201.190.174/32";
  "156.59.95.218/32"; "195.238.127.98/32"; "200.25.22.6/32"; "200.25.70.101/32";
  "103.108.231.41/32"; "103.108.229.5/32"; "103.216.220.9/32"; "169.150.225.40/32";
  "212.102.50.49/32"; "212.102.50.52/32"; "109.61.83.242/32"; "109.61.83.243/32";
  "212.102.50.50/32"; "169.150.225.43/32"; "45.125.247.57/32"; "103.235.199.170/32";
  "128.1.35.170/32"; "38.32.110.58/32"; "169.150.220.228/32"; "169.150.220.229/32";
  "169.150.220.230/32"; "169.150.220.231/32"; "138.199.4.179/32"; "207.211.214.145/32";
  "109.61.86.193/32"; "103.214.20.95/32"; "178.175.134.51/32"; "138.199.4.178/32";
  "172.255.253.140/32"; "185.24.11.19/32"; "109.61.83.244/32"; "109.61.83.245/32";
  "84.17.38.250/32"; "84.17.38.251/32"; "146.59.69.202/32"; "51.83.172.163/32";
  "200.25.80.74/32"; "79.127.213.214/32"; "79.127.213.215/32"; "79.127.213.216/32";
  "79.127.213.217/32"; "195.69.140.112/32"; "109.61.83.247/32"; "109.61.83.246/32";
  "185.93.2.248/32"; "109.61.83.249/32"; "109.61.83.250/32"; "109.61.83.251/32";
  "46.199.75.115/32"; "141.164.35.160/32"; "109.61.83.97/32"; "109.61.83.98/32";
  "109.61.83.99/32"; "129.227.179.18/32"; "185.180.14.250/32"; "152.89.160.26/32";
  "5.189.202.62/32"; "98.98.242.142/32"; "156.59.92.126/32"; "84.17.59.117/32";
  "79.127.216.66/32"; "79.127.204.113/32"; "79.127.237.132/32"; "37.27.135.61/32";
  "158.51.123.205/32"; "156.146.43.70/32"; "156.146.43.71/32"; "156.146.43.72/32";
  "180.149.231.175/32"; "185.93.2.243/32"; "143.244.56.52/32"; "143.244.56.53/32";
  "143.244.56.54/32"; "143.244.56.55/32"; "143.244.56.56/32"; "143.244.56.57/32";
  "143.244.56.58/32"; "144.76.236.44/32"; "88.198.57.50/32"; "78.46.69.199/32";
  "136.243.16.49/32"; "138.201.86.122/32"; "136.243.42.90/32"; "88.99.95.221/32";
  "178.63.2.112/32"; "5.9.98.45/32"; "136.243.42.10/32"; "169.150.236.106/32";
  "169.150.236.107/32"; "185.93.1.242/32"; "185.93.1.245/32"; "143.244.60.193/32";
  "195.181.163.194/32"; "79.127.188.193/32"; "79.127.188.196/32"; "79.127.188.194/32";
  "79.127.188.195/32"; "104.166.144.106/32"; "156.59.126.78/32"; "185.135.85.154/32";
  "38.54.5.37/32"].

Definition bunny3 : list string := [
  "38.54.3.92/32"; "185.165.170.74/32"; "207.121.75.132/32"; "207.121.80.12/32";
  "207.121.80.172/32"; "207.121.90.60/32"; "138.199.24.219/32"; "185.93.2.251/32";
  "138.199.46.65/32"; "154.95.86.76/32"; "5.9.99.73/32"; "78.46.92.118/32"; "144.76.65.213/32";
  "78.46.156.89/32"; "88.198.9.155/32"; "144.76.79.22/32"; "37.19.207.37/32";
  "208.83.234.224/32"; "79.127.237.104/32"; "79.127.243.187/32"; "45.156.248.73/32";
  "79.127.134.225/32"; "79.127.134.226/32"; "79.127.134.227/32"; "79.127.134.228/32";
  "79.127.134.229/32"; "79.127.134.230/32"; "79.127.134.231/32"; "79.127.134.130/32";
  "79.127.134.131/32"; "79.127.134.132/32"; "79.127.134.234/32"; "79.127.134.235/32";
  "185.111.111.154/32"; "185.111.111.155/32"; "185.111.111.156/32"; "185.111.111.157/32";
  "185.111.111.158/32"; "185.111.111.159/32"; "185.111.111.160/32"; "141.227.142.242/32";
  "94.128.254.166/32"; "195.206.229.69/32"; "200.25.86.90/32"; "148.113.190.161/32";
  "46.151.194.242/32"; "46.151.194.243/32"; "212.102.40.120/32"; "154.93.86.71/32";
  "143.244.60.196/32"; "143.244.60.197/32"; "143.244.60.195/32"; "79.127.134.129/32";
  "79.127.134.133/32"; "152.233.22.97/32"; "152.233.22.98/32"; "152.233.22.100/32";
  "152.233.22.99/32"; "152.233.22.101/32"; "152.233.22.102/32"; "152.233.22.103/32";
  "107.182.163.162/32"; "128.1.52.179/32"; "203.57.82.97/32"; "203.57.82.99/32";
  "203.57.82.101/32"; "185.152.66.247/32"; "103.212.227.9/32"; "8.52.184.12/32";
  "8.52.184.52/32"; "8.52.184.188/32"; "8.52.184.180/32"; "8.52.184.172/32"; "8.52.184.164/32";
  "8.52.184.156/32"; "8.52.184.148/32"; "207.121.46.148/32"; "207.121.46.236/32";
  "207.121.46.228/32"; "207.121.46.220/32"; "207.121.46.212/32"; "207.121.46.156/32";
  "207.121.46.188/32"; "207.121.15.92/32"; "207.121.15.124/32"; "207.121.15.236/32";
  "207.121.15.228/32"; "207.121.15.220/32"; "207.121.15.212/32"; "207.121.15.204/32";
  "207.121.15.196/32"; "207.121.15.108/32"; "207.121.15.100/32"; "207.121.15.180/32";
  "207.121.15.172/32"; "216.202.194.252/32"; "216.202.194.52/32"; "207.121.15.244/32";
  "207.121.15.252/32"; "8.52.139.228/32"; "8.52.139.28/32"; "8.52.139.44/32";
  "8.52.139.220/32"; "8.52.139.20/32"; "8.52.139.36/32"; "8.52.139.212/32"; "8.52.139.156/32";
  "8.52.139.148/32"; "8.52.139.100/32"; "8.52.139.108/32"; "8.52.139.52/32"; "8.52.139.60/32";
  "8.52.139.244/32"; "8.52.139.236/32"; "88.218.3.190/32"; "181.174.168.102/32";
  "208.91.111.227/32"; "79.127.221.146/32"; "84.17.59.119/32"; "84.17.59.120/32";
  "139.84.163.144/32"; "116.202.155.146/32"; "116.202.193.178/32"; "116.202.224.168/32";
  "188.40.126.227/32"; "88.99.26.189/32"; "168.119.39.238/32"; "88.99.26.97/32";
  "168.119.12.188/32"; "176.9.139.55/32"; "142.132.223.79/32"; "142.132.223.80/32";
  "142.132.223.81/32"; "46.4.116.17/32"; "46.4.119.81/32"; "167.235.114.167/32";
  "159.69.68.171/32"; "178.63.21.52/32"; "46.4.120.152/32"; "116.202.80.247/32";
  "5.9.71.119/32"; "195.201.11.156/32"; "78.46.123.17/32"; "46.4.113.143/32";
  "136.243.2.236/32"].

Definition bunny4 : list string := [
  "195.201.81.217/32"; "148.251.42.123/32"; "94.130.68.122/32"; "88.198.22.103/32";
  "46.4.102.90/32"; "157.90.180.205/32"; "162.55.135.11/32"; "195.201.109.59/32";
  "148.251.41.244/32"; "116.202.235.16/32"; "128.140.70.141/32"; "78.46.74.86/32";
  "78.46.74.85/32"; "178.63.41.242/32"; "178.63.41.247/32"; "178.63.41.234/32";
  "104.237.53.74/32"; "104.237.54.154/32"; "104.237.51.58/32"; "64.185.235.90/32";
  "64.185.234.114/32"; "64.185.232.194/32"; "64.185.232.178/32"; "64.185.232.82/32";
  "103.60.15.169/32"; "103.60.15.170/32"; "103.60.15.171/32"; "103.60.15.172/32";
  "103.60.15.173/32"; "103.60.15.162/32"; "103.60.15.163/32"; "103.60.15.164/32";
  "103.60.15.165/32"; "103.60.15.166/32"; "103.60.15.167/32"; "176.9.139.94/32";
  "148.251.129.132/32"; "148.251.131.73/32"; "148.251.131.74/32"; "136.243.70.170/32";
  "148.251.131.238/32"; "94.130.204.110/32"; "88.99.63.113/32"; "5.9.144.178/32";
  "148.251.129.217/32"; "138.201.20.168/32"; "138.201.51.89/32"; "109.248.43.116/32";
  "109.248.43.117/32"; "109.248.43.162/32"; "109.248.43.163/32"; "109.248.43.164/32";
  "109.248.43.165/32"; "49.12.71.27/32"; "49.12.0.158/32"; "78.47.94.156/32";
  "109.248.43.159/32"; "109.248.43.160/32"; "109.248.43.208/32"; "109.248.43.179/32";
  "109.248.43.232/32"; "109.248.43.231/32"; "109.248.43.241/32"; "109.248.43.236/32";
  "109.248.43.240/32"; "109.248.43.103/32"; "116.202.118.194/32"; "116.202.80.29/32";
  "159.69.57.80/32"; "139.180.129.216/32"; "139.99.174.7/32"; "143.244.38.133/32";
  "89.187.179.7/32"; "169.150.213.50/32"; "143.244.62.213/32"; "185.93.3.246/32";
  "195.181.163.198/32"; "185.152.64.19/32"; "84.17.37.211/32"; "212.102.50.54/32";
  "212.102.46.115/32"; "169.150.207.51/32"; "169.150.207.49/32"; "84.17.38.226/32";
  "84.17.38.225/32"; "37.19.222.248/32"; "37.19.222.249/32"; "212.102.46.119/32";
  "84.17.38.234/32"; "84.17.38.233/32"; "169.150.247.179/32"; "169.150.247.180/32";
  "169.150.247.181/32"; "169.150.247.182/32"; "109.61.89.52/32"; "109.61.89.58/32";
  "109.61.83.241/32"; "84.17.38.243/32"; "84.17.38.244/32"; "84.17.38.246/32";
  "84.17.38.247/32"; "84.17.38.245/32"; "143.244.38.129/32"; "84.17.38.248/32";
  "89.187.176.34/32"; "185.152.64.23/32"; "79.127.213.209/32"; "79.127.213.210/32";
  "84.17.37.209/32"; "156.146.43.68/32"; "185.93.3.243/32"; "79.127.219.198/32";
  "79.127.226.194/32"; "79.127.226.195/32"; "79.127.226.207/32"; "138.199.33.57/32";
  "79.127.242.89/32"; "138.199.4.136/32"; "169.150.220.235/32"; "138.199.4.129/32";
  "138.199.4.177/32"; "37.19.222.34/32"; "46.151.193.85/32"; "79.127.237.99/32";
  "46.151.193.86/32"; "89.187.184.177/32"; "89.187.184.179/32"; "89.187.184.173/32";
  "89.187.184.178/32"; "89.187.184.176/32"; "185.111.111.166/32"; "185.111.111.167/32";
  "185.111.111.168/32"; "185.111.111.169/32"; "185.111.111.170/32"; "185.111.111.171/32";
  "185.111.111.172/32"; "185.111.111.164/32"].

Definition bunny : list string := bunny1 ++ bunny2 ++ bunny3 ++ bunny4.

Definition Predefined : gmap string (list string) :=
  <["cloudflare" := cloudflare]> (<["google" := google]> (<["bunny" := bunny]> ∅)).

(** ** The TRUST_PROXY language *)

Section ops.
Context {TLS : Type} `{!CIDROps}.

(** A [parapet.Conditional]: [None] for nil. *)
Definition Conditional : Type := option (Request TLS -> bool).

Definition Trusted : Request TLS -> bool := fun _ => true.

(** The ranges of one list entry. *)
Definition expand (x : string) : list string :=
  match Predefined !! x with
  | Some (c :: t) => c :: t
  | _ => [x]
  end.

(** The loop over the entries of the list. *)
Fixpoint parseList (xs : list string) : list string :=
  match xs with
  | [] => []
  | x :: xs =>
      let x := trim_space x in
      if String.eqb x "" then parseList xs else expand x ++ parseList xs
  end.

(** [Parse]; [None] when [TrustCIDRs] panics. *)
Definition Parse (spec : string) : option Conditional :=
  if String.eqb spec "true" then Some (Some Trusted)
  else if String.eqb spec "false" || String.eqb spec "" then Some None
  else match TrustCIDRs (parseList (split_char c_comma spec)) with
       | None => None
       | Some c => Some (Some (fun r => c (RemoteAddr r)))
       end.

(** ** The WAF skip *)

Inductive buildError :=
| BlanketSkip
| EdgeMTLSWithoutAutoTrust
| NotAListEntry (tok : string)
| Panic.

(** The loop over the tokens: whether [edge-mtls] occurred, and the other
    entries. *)
Fixpoint scanTokens (mtls : bool) (toks : list string) (useMTLS : bool) (cidrs : list string) :
    result buildError (bool * list string) :=
  match toks with
  | [] => Ok (useMTLS, cidrs)
  | tok :: toks =>
      let tok := trim_space tok in
      if String.eqb tok "" then scanTokens mtls toks useMTLS cidrs
      else if String.eqb tok "edge-mtls" then
        if negb mtls then Err EdgeMTLSWithoutAutoTrust else scanTokens mtls toks true cidrs
      else if String.eqb tok "true" || String.eqb tok "false" then Err (NotAListEntry tok)
      else scanTokens mtls toks useMTLS (cidrs ++ [tok])
  end.

Definition buildWAFValidatedProxy (spec : string) (verifyEdgeCert : option (TLS -> bool)) :
    result buildError Conditional :=
  let t := trim_space spec in
  if String.eqb t "" || String.eqb t "false" then Ok None
  else if String.eqb t "true" then Err BlanketSkip
  else
    (scanned <-r scanTokens (match verifyEdgeCert with Some _ => true | None => false end)
                   (split_char c_comma spec) false [];
     let '(useMTLS, cidrs) := scanned in
     match Parse (join_char c_comma cidrs) with
     | None => Err Panic
     | Some cidrMatch =>
         let peer := match useMTLS, cidrMatch, verifyEdgeCert with
                     | true, Some c, Some v => Some (fun r => v (r_TLS r) || c r)
                     | true, None, Some v => Some (fun r => v (r_TLS r))
                     | true, _, None => None
                     | false, Some c, _ => Some c
                     | false, None, _ => None
                     end in
         Ok (match peer with
             | None => None
             | Some peer => Some (fun r => negb (String.eqb (claim r) "") && peer r)
             end)
     end)%go.

(** ** The installed trust predicate *)

Inductive TrustSource := TrustSrcNone | TrustSrcCIDR | TrustSrcVerifiedChain.

(** [trustMgr] is [None] when auto-trust is off. *)
Definition trustSource (cidrTrust : Conditional) (verify : TLS -> bool) (r : Request TLS) : TrustSource :=
  if match cidrTrust with Some c => c r | None => false end then TrustSrcCIDR
  else if verify (r_TLS r) then TrustSrcVerifiedChain
  else TrustSrcNone.

Definition trustProxy (cidrTrust : Conditional) (trustMgr : option (TLS -> bool)) : Conditional :=
  match trustMgr with
  | None => cidrTrust
  | Some verify =>
      Some (fun r => match trustSource cidrTrust verify r with TrustSrcNone => false | _ => true end)
  end.

End ops.
Arguments Conditional : clear implicits.

End TrustCIDR.

Module TrustCIDRProps.
Import TrustCIDR.

Section props.
Context {TLS : Type} {ops : CIDROps} {laws : CIDRLaws}.
Implicit Types (r : Request TLS).

(** The entries of a list: trimmed, the empty ones dropped. *)
Definition clean (xs : list string) : list string :=
  List.filter (fun x => negb (String.eqb x "")) (trim_space <$> xs).

Definition entries (spec : string) : list string := clean (split_char c_comma spec).

Lemma clean_cons x xs :
  clean (x :: xs) = if String.eqb (trim_space x) "" then clean xs else trim_space x :: clean xs.
Proof. unfold clean. simpl. by destruct (String.eqb (trim_space x) ""). Qed.

Lemma parseList_clean xs : parseList xs = List.concat (expand <$> clean xs).
Proof.
  induction xs as [|x xs IH]; [done|]. rewrite clean_cons. simpl.
  destruct (String.eqb (trim_space x) ""); simpl; by rewrite IH.
Qed.

(** Entries that survive being joined and parsed again. *)
Definition plain (x : string) : Prop :=
  x <> "" /\ x <> "true" /\ x <> "false" /\ mem_char c_comma x = false /\ trim_space x = x.

Lemma entries_join cidrs : cidrs <> [] -> Forall plain cidrs -> entries (join_char c_comma cidrs) = cidrs.
Proof.
  intros Hne Hall. unfold entries.
  rewrite split_join_char; [|done|eapply Forall_impl; [exact Hall|]; by intros y (_ & _ & _ & ? & _)].
  clear Hne. induction Hall as [|y l' (Hy & _ & _ & _ & Ht) _ IH]; [done|].
  rewrite clean_cons, Ht. apply String.eqb_neq in Hy as ->. by rewrite IH.
Qed.

Lemma join_plain_special cidrs s :
  Forall plain cidrs -> mem_char c_comma s = false -> s = "true" \/ s = "false" \/ s = "" ->
  join_char c_comma cidrs = s -> cidrs = [].
Proof.
  intros Hall Hs Hcase Hj. destruct cidrs as [|x [|y l]]; [done| |].
  - simpl in Hj. subst. apply Forall_singleton in Hall as (? & ? & ? & _). tauto.
  - pose proof (join_char_mem c_comma x y l). congruence.
Qed.

(** The scan keeps what it had and appends the clean entries. *)
Lemma scanTokens_ok mtls toks useMTLS cidrs u l :
  Forall (fun x => mem_char c_comma x = false) toks ->
  scanTokens mtls toks useMTLS cidrs = Ok (u, l) ->
  l = cidrs ++ List.filter (fun x => negb (String.eqb x "edge-mtls")) (clean toks) /\
  (u = true <-> useMTLS = true \/ "edge-mtls" ∈ clean toks) /\
  ("edge-mtls" ∈ clean toks -> mtls = true) /\
  (("true" ∉ clean toks) /\ ("false" ∉ clean toks)) /\
  (Forall plain cidrs -> Forall plain l).
Proof.
  revert useMTLS cidrs. induction toks as [|t toks IH]; intros useMTLS cidrs Hnc.
  { intros [= <- <-]. unfold clean; simpl. rewrite app_nil_r.
    repeat split; try done; [by left|by intros [?|?%elem_of_nil]|by intros ?%elem_of_nil
      |by intros ?%elem_of_nil|by intros ?%elem_of_nil]. }
  apply Forall_cons in Hnc as [Ht Hnc]. rewrite clean_cons. cbn [scanTokens]. cbv zeta.
  destruct (String.eqb_spec (trim_space t) "") as [He|He]; [by apply IH|].
  destruct (String.eqb_spec (trim_space t) "edge-mtls") as [Hm|Hm].
  - destruct mtls; [|done]. cbn [negb]. intros H1. apply IH in H1 as (-> & Hu & _ & Hs & Hp); [|done].
    rewrite Hm. split; [done|]. rewrite Hu, !not_elem_of_cons, elem_of_cons.
    pose proof (eq_refl true). pose proof (eq_refl "edge-mtls"). split; [tauto|].
    split; [done|]. by repeat split; try apply Hs.
  - destruct (String.eqb_spec (trim_space t) "true"); [done|].
    destruct (String.eqb_spec (trim_space t) "false"); [done|]. cbn [orb].
    intros H1. apply IH in H1 as (Hl & Hu & Hmt & Hs & Hp); [|done].
    cbn [List.filter]. rewrite (proj2 (String.eqb_neq _ _) Hm). rewrite <- app_assoc in Hl.
    split; [done|].
    rewrite Hu, !not_elem_of_cons, elem_of_cons.
    split; [naive_solver|]. split; [intros [?|?]; [congruence|auto]|].
    split; [by repeat split; try apply Hs; apply not_eq_sym|].
    intros Hc. apply Hp. apply Forall_app. split; [done|]. apply Forall_singleton.
    repeat split; try done; [by apply mem_char_trim_space|apply trim_space_idem].
Qed.

Lemma existsb_concat {A B} (f : B -> bool) (g : A -> list B) l :
  existsb f (List.concat (g <$> l)) = true <-> exists x, x ∈ l /\ exists y, y ∈ g x /\ f y = true.
Proof.
  rewrite existsb_exists. setoid_rewrite in_concat. setoid_rewrite in_map_iff. split.
  - intros (y & (ys & (x & <- & Hx) & Hy) & Hf). exists x. split; [by apply list_elem_of_In|].
    exists y. split; [by apply list_elem_of_In|done].
  - intros (x & Hx & y & Hy & Hf). exists y. split; [|done]. exists (g x).
    split; [|by apply list_elem_of_In]. exists x. split; [done|by apply list_elem_of_In].
Qed.

(** TRUST_PROXY means what its documentation says: "true" trusts everyone, "" and
    "false" nobody, and any other spec either fails at start-up, exactly when an
    expanded entry is not a CIDR, or trusts exactly the peers inside a range of a
    listed group or inside a listed CIDR. *)
Theorem Parse_spec spec :
  Parse (TLS := TLS) "true" = Some (Some Trusted) /\
  Parse (TLS := TLS) "" = Some None /\ Parse (TLS := TLS) "false" = Some None /\
  (spec <> "true" -> spec <> "" -> spec <> "false" ->
   match Parse (TLS := TLS) spec with
   | None => exists x n, x ∈ entries spec /\ n ∈ expand x /\ ValidCIDR n = false
   | Some c => (forall x n, x ∈ entries spec -> n ∈ expand x -> ValidCIDR n = true) /\
       exists t, c = Some t /\
         forall r, t r = true <-> exists x n, x ∈ entries spec /\ n ∈ expand x /\ InCIDR n (RemoteAddr r) = true
   end).
Proof using laws.
  repeat split. intros H1 H2 H3. unfold Parse.
  apply String.eqb_neq in H1 as ->, H2 as ->, H3 as ->. simpl.
  rewrite parseList_clean. fold (entries spec).
  destruct (TrustCIDRs _) as [c|] eqn:Hc.
  - split; [|eexists; split; [done|]].
    + assert (Hv : is_Some (TrustCIDRs (List.concat (expand <$> entries spec)))) by (by rewrite Hc).
      apply TrustCIDRs_defined in Hv. rewrite forallb_forall in Hv.
      intros x n Hx Hn. apply Hv, in_concat. exists (expand x). split; [|by apply list_elem_of_In].
      apply in_map_iff. exists x. split; [done|by apply list_elem_of_In].
    + intros r. cbv beta. rewrite (TrustCIDRs_match _ _ _ Hc), existsb_concat. naive_solver.
  - assert (Hv : forallb ValidCIDR (List.concat (expand <$> entries spec)) = false).
    { destruct (forallb _ _) eqn:Hf; [|done]. apply TrustCIDRs_defined in Hf as [? ?]. congruence. }
    assert (He : existsb (fun n => negb (ValidCIDR n)) (List.concat (expand <$> entries spec)) = true).
    { clear Hc. induction (List.concat _) as [|n l IH]; simpl in *; [done|].
      destruct (ValidCIDR n); simpl in *; [by apply IH|done]. }
    apply existsb_concat in He as (x & Hx & n & Hn & Hf). exists x, n.
    repeat split; try done. by apply negb_true_iff.
Qed.

(** Joining clean entries and parsing them again reads exactly those entries. *)
Lemma Parse_join cidrs cm :
  Forall plain cidrs -> Parse (TLS := TLS) (join_char c_comma cidrs) = Some cm ->
  forall r, (exists c, cm = Some c /\ c r = true) <->
            exists x n, x ∈ cidrs /\ n ∈ expand x /\ InCIDR n (RemoteAddr r) = true.
Proof using laws.
  intros Hp HP r. destruct cidrs as [|x l] eqn:Hc.
  { injection HP as <-. split; [by intros (? & ? & _)|by intros (? & ? & ?%elem_of_nil & _)]. }
  rewrite <- Hc in *. assert (Hne : cidrs <> []) by (by rewrite Hc). clear Hc.
  unfold Parse in HP.
  destruct (String.eqb_spec (join_char c_comma cidrs) "true") as [E|_];
    [by apply join_plain_special in E; auto|].
  destruct (String.eqb_spec (join_char c_comma cidrs) "false") as [E|_];
    [by apply join_plain_special in E; auto|].
  destruct (String.eqb_spec (join_char c_comma cidrs) "") as [E|_];
    [by apply join_plain_special in E; auto|]. simpl in HP.
  rewrite parseList_clean in HP. fold (entries (join_char c_comma cidrs)) in HP.
  rewrite entries_join in HP by done.
  destruct (TrustCIDRs _) as [c|] eqn:Ht; [|done]. injection HP as <-.
  transitivity (c (RemoteAddr r) = true); [naive_solver|].
  rewrite (TrustCIDRs_match _ _ _ Ht), existsb_concat. naive_solver.
Qed.

(** The WAF is never skipped wholesale.  When the spec yields a predicate, it
    skips exactly the requests that carry the validation claim and come either from a
    client certificate chaining to the edge CA, when [edge-mtls] is listed, or from a
    range of another listed entry; "true" and "false" are never among these entries. *)
Theorem waf_skip_spec spec v skip :
  buildWAFValidatedProxy (TLS := TLS) spec v = Ok (Some skip) ->
  ("true" ∉ entries spec) /\ ("false" ∉ entries spec) /\
  forall r, skip r = true <->
    claim r <> "" /\
    (("edge-mtls" ∈ entries spec /\ exists verify, v = Some verify /\ verify (r_TLS r) = true) \/
     exists x n, x ∈ entries spec /\ x <> "edge-mtls" /\ n ∈ expand x /\
                 InCIDR n (RemoteAddr r) = true).
Proof using laws.
  unfold buildWAFValidatedProxy. destruct (_ || _); [done|]. destruct (String.eqb _ "true"); [done|].
  destruct (scanTokens _ _ _ _) as [[u cidrs]|] eqn:Hscan; [|done]. cbn [rbind].
  apply scanTokens_ok in Hscan as (Hl & Hu & Hm & [Ht Hf] & Hp);
    [|apply Forall_forall; intros x Hx; by eapply split_char_elem].
  fold (entries spec) in Hl, Hu, Hm, Ht, Hf. simpl in Hl.
  specialize (Hp (List.Forall_nil _)).
  assert (Hes : forall x, x ∈ cidrs <-> x ∈ entries spec /\ x <> "edge-mtls").
  { intros x. rewrite Hl, !list_elem_of_In, List.filter_In, negb_true_iff, String.eqb_neq. done. }
  destruct (Parse (join_char c_comma cidrs)) as [cm|] eqn:HP; [|done].
  intros [= Hskip]. split; [done|]. split; [done|].
  pose proof (Parse_join cidrs cm Hp HP) as Hcm. clear HP.
  assert (Hpeer : forall r, (u = true /\ (exists verify, v = Some verify /\ verify (r_TLS r) = true)) \/
      (exists c, cm = Some c /\ c r = true) <->
      ("edge-mtls" ∈ entries spec /\ exists verify, v = Some verify /\ verify (r_TLS r) = true) \/
      exists x n, x ∈ entries spec /\ x <> "edge-mtls" /\ n ∈ expand x /\ InCIDR n (RemoteAddr r) = true).
  { intros r. rewrite (Hcm r). setoid_rewrite Hes. naive_solver. }
  intros r. rewrite <- Hpeer. clear Hpeer Hcm Hes.
  destruct u, cm as [c|], v as [verify|]; simplify_eq; simpl;
    rewrite ?andb_true_iff, ?orb_true_iff, ?negb_true_iff, ?String.eqb_neq; try naive_solver.
Qed.

(** The installed predicate is the union of the two sources, CIDR first. *)
Lemma trustProxy_iff (ct : Conditional TLS) (mgr : option (TLS -> bool)) p r :
  trustProxy ct mgr = Some p ->
  p r = true <-> (exists c, ct = Some c /\ c r = true) \/ (exists v, mgr = Some v /\ v (r_TLS r) = true).
Proof.
  unfold trustProxy, trustSource. destruct mgr as [v|].
  - intros [= <-]. transitivity (match ct with Some c => c r | None => false end = true \/ v (r_TLS r) = true).
    + destruct ct as [c|]; [destruct (c r)|]; destruct (v (r_TLS r)); (split; [auto|intros [?|?]; done]).
    + destruct ct as [c|].
      * split; [intros [?|?]; eauto|]. intros [(? & [= <-] & ?)|(? & [= <-] & ?)]; auto.
      * split; [intros [?|?]; [done|eauto]|]. intros [(? & ? & _)|(? & [= <-] & ?)]; [done|auto].
  - intros ->. split; [eauto|]. by intros [(? & [= <-] & ?)|(? & ? & _)].
Qed.

End props.

(** *** The built-in ranges *)

(** An IPv4 range: the address and the length of its prefix. *)
Definition v4Range (x : string) : option (Z * Z) :=
  match split_char c_slash x with
  | [a; n] =>
      match mapM Atoi (split_char c_dot a), Atoi n with
      | Some [a; b; c; d], Some n =>
          if forallb (fun o => (0 <=? o)%Z && (o <=? 255)%Z) [a; b; c; d] && (0 <=? n)%Z && (n <=? 32)%Z
          then Some ((((a * 256 + b) * 256 + c) * 256 + d)%Z, n) else None
      | _, _ => None
      end
  | _ => None
  end.
Definition overlap (r s : Z * Z) : bool :=
  let k := (32 - Z.min r.2 s.2)%Z in (Z.shiftr r.1 k =? Z.shiftr s.1 k)%Z.
(** Private, shared, loopback, link-local, multicast and reserved addresses. *)
Definition unroutable : list string :=
  ["0.0.0.0/8"; "10.0.0.0/8"; "100.64.0.0/10"; "127.0.0.0/8"; "169.254.0.0/16"; "172.16.0.0/12";
   "192.168.0.0/16"; "224.0.0.0/3"].
(** A range of at most a /12 without host bits, outside of those; or global unicast IPv6. *)
Definition publicRange (x : string) : bool :=
  if mem_char c_colon x then has_prefix x "2"
  else match v4Range x with
  | Some (a, n) => (12 <=? n)%Z && (Z.land a (2 ^ (32 - n) - 1) =? 0)%Z &&
      forallb (fun u => match v4Range u with Some r => negb (overlap (a, n) r) | None => false end) unroutable
  | None => false
  end.

(** Every range of a named group is well formed and public: naming a group in
    TRUST_PROXY never trusts a peer inside the cluster or on the host. *)
Theorem predefined_ranges_are_public :
  map_Forall (fun _ ranges => Forall (fun x => publicRange x = true) ranges) Predefined.
Proof.
  assert (Hall : forall l, forallb publicRange l = true -> Forall (fun x => publicRange x = true) l).
  { intros l Hl. apply Forall_forall. intros x Hx%list_elem_of_In. by apply (proj1 (forallb_forall publicRange l)). }
  intros n ranges. unfold Predefined. rewrite !lookup_insert_Some, lookup_empty.
  intros [[_ <-]|[_ [[_ <-]|[_ [[_ <-]|[_ ?]]]]]]; [| | |done]; apply Hall; by vm_compute.
Qed.


(** A group's name always stands for its ranges. *)
Lemma expand_groups :
  expand "cloudflare" = cloudflare /\ expand "google" = google /\ expand "bunny" = bunny.
Proof. by vm_compute. Qed.

(** *** Witnesses: an address is in a range when it starts with what precedes the
    slash. *)

Definition toyNet (n : string) : string :=
  match index_byte c_slash n with Some i => str_take i n | None => "" end.

#[local] Instance toyOps : CIDROps := {
  ValidCIDR n := mem_char c_slash n;
  InCIDR n a := has_prefix a (toyNet n);
  TrustCIDRs l := if forallb (mem_char c_slash) l
                  then Some (fun a => existsb (fun n => has_prefix a (toyNet n)) l) else None;
}.

#[local] Instance toyLaws : CIDRLaws.
Proof.
  split; simpl.
  - intros l. destruct (forallb _ l); [by split; eauto|]. by split; [intros [? ?]|].
  - intros l c addr. destruct (forallb _ l); [|done]. by intros [= <-].
Qed.

Lemma Parse_spec_witness :
  match Parse (TLS := bool) "google, 10./8" with
  | Some (Some t) => t (mkRequest "35.191.0.0:443" false "") = true /\
                     t (mkRequest "11.0.0.1:443" false "") = false
  | _ => False
  end /\
  match Parse (TLS := bool) "google, 10./8" with
  | None => False
  | Some c => exists t, c = Some t
  end.
Proof.
  split; [vm_compute; done|].
  destruct (Parse_spec (TLS := bool) "google, 10./8") as (_ & _ & _ & H).
  specialize (H ltac:(done) ltac:(done) ltac:(done)).
  destruct (Parse "google, 10./8") as [c|] eqn:E; [|vm_compute in E; done].
  destruct H as (_ & t & -> & _). eauto.
Defined.

Lemma waf_skip_spec_witness :
  exists skip, buildWAFValidatedProxy "edge-mtls, 10./8" (Some id) = Ok (Some skip) /\
  (skip (mkRequest "10.1" false "7") = true <->
   claim (mkRequest "10.1" false "7") <> "" /\
    (("edge-mtls" ∈ entries "edge-mtls, 10./8" /\
      exists verify, Some (id : bool -> bool) = Some verify /\ verify false = true) \/
     exists x n, x ∈ entries "edge-mtls, 10./8" /\ x <> "edge-mtls" /\ n ∈ expand x /\
                 InCIDR n "10.1" = true)).
Proof.
  destruct (buildWAFValidatedProxy "edge-mtls, 10./8" (Some (id : bool -> bool))) as [[skip|]|] eqn:E;
    [|vm_compute in E; done..].
  exists skip. split; [done|]. apply (waf_skip_spec _ _ skip E).
Defined.

End TrustCIDRProps.
