(* ===== verification/TransformRule.v ===== *)
(** * Transform rules

    Models [src/transformrule/transformrule.go]: a zone of request and response
    mutations compiled all-or-nothing from YAML documents, and its execution
    around a handler.  The compiled closures of the source are data here
    ([reqOp], [respOp]) with one function that runs them.

    YAML, the CEL predicates, regular expressions, the header-name checks of
    golang.org/x/net, the CORS middleware and the response interceptor are the
    class [TransformOps]. *)

From S2P Require Import Prelude GoString GoTime GoURL.

Set Default Proof Using "Type".

(** ** Documents *)

Record Op := mkOp {
  op_Type : string;
  Name : string;
  Value : string;
  To : string;
  op_Path : string;
  Regex : string;
  Replace : string;
  Query : gmap string string;
  RemoveQuery : list string;
  Status : Z;
  AllowOrigins : list string;
  AllowMethods : list string;
  AllowHeaders : list string;
  ExposeHeaders : list string;
  AllowCredentials : bool;
  MaxAge : string;
}.

Record Rule := mkRule {
  ID : string;
  Phase : string;
  Filter : string;
  Ops : list Op;
  Mode : string;
  Priority : Z;
}.

(** ** Requests, responses, handlers *)

Record Request := mkReq {
  r_Method : string;
  r_URL : URL;
  r_Header : Header;
}.

Record Response := mkResp {
  rs_Status : Z;
  rs_Header : Header;
  rs_Body : string;
}.

Definition Handler : Type := Request -> Response.

(** The configuration of parapet's CORS middleware. *)
Record CORS := mkCORS {
  c_AllowAllOrigins : bool;
  c_AllowOrigins : list string;
  c_AllowMethods : list string;
  c_AllowHeaders : list string;
  c_ExposeHeaders : list string;
  c_AllowCredentials : bool;
  c_MaxAge : Z;
}.

Class TransformOps (Predicate Input Regexp : Type) := {
  unmarshal : string -> option (list Rule);
  NewPredicate : Z -> bool -> string -> option Predicate;
  Eval : Predicate -> Input -> option bool;
  NewInput : Request -> string -> string -> Z -> Input;
  regexp_Compile : string -> option Regexp;
  ReplaceAllString : Regexp -> string -> string -> string;
  ValidHeaderFieldName : string -> bool;
  ValidHeaderFieldValue : string -> bool;
  corsServe : CORS -> Handler -> Handler;
  InterceptResponse : (Header -> Header * option Z) -> Handler -> Handler;
}.

(** The interceptor runs its callback on the header about to be written, and a
    status it sets replaces the handler's. *)
Class TransformLaws (Predicate Input Regexp : Type) `{!TransformOps Predicate Input Regexp} : Prop := {
  intercept_spec f h r :
    InterceptResponse f h r =
    mkResp (default (rs_Status (h r)) (snd (f (rs_Header (h r))))) (fst (f (rs_Header (h r))))
      (rs_Body (h r));
}.

Module TransformRule.

Section ops.
Context {Predicate Input Regexp : Type} {ops : TransformOps Predicate Input Regexp}.

Record Options := mkOptions {
  Country : option (Request -> string);
  ASN : option (Request -> Z);
  FilterCostLimit : Z;
  FilterDisableMacros : bool;
}.

(** ** Compiled rules *)

Inductive reqOp :=
| OSetHeader (name value : string)
| ORemoveHeader (name : string)
| OSetPath (path : string)
| ORegexPath (re : Regexp) (replace : string)
| ORewriteQuery (set : gmap string string) (remove : list string)
| ORedirect (to : string) (status : Z).

Inductive respOp :=
| RSetHeader (name value : string)
| RRemoveHeader (name : string)
| RSetStatus (status : Z).

Record compiledRule (Body : Type) := mkCompiled {
  cr_id : string;
  cr_prio : Z;
  cr_filter : option Predicate;
  cr_shadow : bool;
  cr_body : Body;
}.

Record Zone := mkZone {
  reqRules : list (compiledRule (list reqOp));
  respRules : list (compiledRule (list respOp));
  corsRules : list (compiledRule CORS);
  z_country : option (Request -> string);
  z_asn : option (Request -> Z);
}.

(** ** Compilation *)

Inductive opError :=
| EHeaderName
| EHeaderValue
| EPathAndRegex
| ERegexIncomplete
| ERegex
| EQueryEmpty
| ERedirectNotAlone
| ENotRequestOp (i : nat)
| EStatusRange
| ECorsNotAlone
| ENotResponseOp (i : nat)
| ECorsMaxAge
| ECorsNoOrigins
| ECorsWildcardCredentials.

Inductive ruleError :=
| EFilter
| EMode
| ENoOps
| EPhase
| EOp (e : opError).

Inductive parseError :=
| EYAML
| ENoTransforms
| ERule (id : string) (e : ruleError).

Definition validateHeaderName (name : string) : result opError unit :=
  if negb (ValidHeaderFieldName name) then Err EHeaderName else Ok tt.

Definition validateHeaderNameValue (name value : string) : result opError unit :=
  (_ <-r validateHeaderName name;
   if negb (ValidHeaderFieldValue value) then Err EHeaderValue else Ok tt)%go.

Definition compileRewritePath (op : Op) : result opError reqOp :=
  if negb (String.eqb (op_Path op) "") then
    if negb (String.eqb (Regex op) "") || negb (String.eqb (Replace op) "") then Err EPathAndRegex
    else Ok (OSetPath (op_Path op))
  else if String.eqb (Regex op) "" || String.eqb (Replace op) "" then Err ERegexIncomplete
  else match regexp_Compile (Regex op) with
       | None => Err ERegex
       | Some re => Ok (ORegexPath re (Replace op))
       end.

Definition compileRewriteQuery (op : Op) : result opError reqOp :=
  if (size (Query op) =? 0)%nat && match RemoveQuery op with [] => true | _ => false end
  then Err EQueryEmpty
  else Ok (ORewriteQuery (Query op) (RemoveQuery op)).

(** One iteration of [compileReqOps]; [n] is the number of operations. *)
Definition compileReqOp (n i : nat) (op : Op) : result opError reqOp :=
  let t := op_Type op in
  (if String.eqb t "set-header" then
     _ <-r validateHeaderNameValue (Name op) (Value op); Ok (OSetHeader (Name op) (Value op))
   else if String.eqb t "remove-header" then
     _ <-r validateHeaderName (Name op); Ok (ORemoveHeader (Name op))
   else if String.eqb t "rewrite-path" then compileRewritePath op
   else if String.eqb t "rewrite-query" then compileRewriteQuery op
   else if String.eqb t "redirect" then
     if negb (n =? 1)%nat then Err ERedirectNotAlone
     else Ok (ORedirect (To op) (if (Status op =? 0)%Z then 302%Z else Status op))
   else Err (ENotRequestOp i))%go.

Definition compileRespOp (n i : nat) (op : Op) : result opError respOp :=
  let t := op_Type op in
  (if String.eqb t "set-header" then
     _ <-r validateHeaderNameValue (Name op) (Value op); Ok (RSetHeader (Name op) (Value op))
   else if String.eqb t "remove-header" then
     _ <-r validateHeaderName (Name op); Ok (RRemoveHeader (Name op))
   else if String.eqb t "set-status" then
     if (Status op <? 100)%Z || (599 <? Status op)%Z then Err EStatusRange
     else Ok (RSetStatus (Status op))
   else if String.eqb t "cors" then Err ECorsNotAlone
   else Err (ENotResponseOp i))%go.

(** The loops over the operations, stopping at the first error. *)
Fixpoint compileOps {O} (one : nat -> Op -> result opError O) (i : nat) (l : list Op) :
    result opError (list O) :=
  match l with
  | [] => Ok []
  | op :: l => (o <-r one i op; os <-r compileOps one (S i) l; Ok (o :: os))%go
  end.

Definition compileReqOps (l : list Op) : result opError (list reqOp) :=
  compileOps (compileReqOp (length l)) 0 l.
Definition compileRespOps (l : list Op) : result opError (list respOp) :=
  compileOps (compileRespOp (length l)) 0 l.

Definition compileCORS (op : Op) : result opError CORS :=
  match (if String.eqb (MaxAge op) "" then Some 0%Z else ParseDuration (MaxAge op)) with
  | None => Err ECorsMaxAge
  | Some d =>
      match AllowOrigins op with
      | [] => Err ECorsNoOrigins
      | os =>
          if bool_decide (os = ["*"]) then
            if AllowCredentials op then Err ECorsWildcardCredentials
            else Ok (mkCORS true [] (AllowMethods op) (AllowHeaders op) (ExposeHeaders op)
                       (AllowCredentials op) d)
          else Ok (mkCORS false os (AllowMethods op) (AllowHeaders op) (ExposeHeaders op)
                     (AllowCredentials op) d)
      end
  end.

Definition isCORSRule (l : list Op) : bool :=
  match l with [op] => String.eqb (op_Type op) "cors" | _ => false end.

(** What [compileRule] appends to the zone, and to which of its lists. *)
Inductive compiled :=
| CReq (c : compiledRule (list reqOp))
| CResp (c : compiledRule (list respOp))
| CCors (c : compiledRule CORS).

Definition compileFilter (opts : Options) (rule : Rule) : result ruleError (option Predicate) :=
  let f := trim_space (Filter rule) in
  if String.eqb f "" then Ok None
  else match NewPredicate (FilterCostLimit opts) (FilterDisableMacros opts) f with
       | None => Err EFilter
       | Some p => Ok (Some p)
       end.

Definition opErr {O} (r : result opError O) : result ruleError O :=
  match r with Ok o => Ok o | Err e => Err (EOp e) end.

Definition compileRule (opts : Options) (rule : Rule) : result ruleError compiled :=
  (filter <-r compileFilter opts rule;
   if negb (String.eqb (Mode rule) "" || String.eqb (Mode rule) "shadow") then Err EMode
   else
     let shadow := String.eqb (Mode rule) "shadow" in
     match Ops rule with
     | [] => Err ENoOps
     | op0 :: _ =>
         if String.eqb (Phase rule) "request" then
           os <-r opErr (compileReqOps (Ops rule));
           Ok (CReq (mkCompiled _ (ID rule) (Priority rule) filter shadow os))
         else if String.eqb (Phase rule) "response" then
           if isCORSRule (Ops rule) then
             c <-r opErr (compileCORS op0);
             Ok (CCors (mkCompiled _ (ID rule) (Priority rule) filter shadow c))
           else
             os <-r opErr (compileRespOps (Ops rule));
             Ok (CResp (mkCompiled _ (ID rule) (Priority rule) filter shadow os))
         else Err EPhase
     end)%go.

Definition addCompiled (z : Zone) (c : compiled) : Zone :=
  match c with
  | CReq c => mkZone (reqRules z ++ [c]) (respRules z) (corsRules z) (z_country z) (z_asn z)
  | CResp c => mkZone (reqRules z) (respRules z ++ [c]) (corsRules z) (z_country z) (z_asn z)
  | CCors c => mkZone (reqRules z) (respRules z) (corsRules z ++ [c]) (z_country z) (z_asn z)
  end.

(** The loop over the documents. *)
Fixpoint parseDocs (docs : list string) (rules : list Rule) : result parseError (list Rule) :=
  match docs with
  | [] => Ok rules
  | doc :: docs =>
      if String.eqb (trim_space doc) "" then parseDocs docs rules
      else match unmarshal doc with
           | None => Err EYAML
           | Some [] => Err ENoTransforms
           | Some ts => parseDocs docs (rules ++ ts)
           end
  end.

Fixpoint compileRules (opts : Options) (rules : list Rule) (z : Zone) : result parseError Zone :=
  match rules with
  | [] => Ok z
  | rule :: rules =>
      match compileRule opts rule with
      | Err e => Err (ERule (ID rule) e)
      | Ok c => compileRules opts rules (addCompiled z c)
      end
  end.

Definition sortZone (z : Zone) : Zone :=
  mkZone (sortByKey (cr_prio _) (reqRules z)) (sortByKey (cr_prio _) (respRules z))
    (sortByKey (cr_prio _) (corsRules z)) (z_country z) (z_asn z).

Definition emptyZone (opts : Options) : Zone := mkZone [] [] [] (Country opts) (ASN opts).

Definition Parse (opts : Options) (docs : list string) : result parseError Zone :=
  (rules <-r parseDocs docs [];
   z <-r compileRules opts rules (emptyZone opts);
   Ok (sortZone z))%go.

(** ** Execution *)

(** [strings.ReplaceAll] of a non-empty [old]; [skip] counts the bytes of a match
    still to drop. *)
Fixpoint replaceAll (old new : string) (skip : nat) (s : string) : string :=
  match s with
  | "" => ""
  | String c s' =>
      match skip with
      | S k => replaceAll old new k s'
      | O => if has_prefix s old then new +:+ replaceAll old new (String.length old - 1) s'
             else String c (replaceAll old new 0 s')
      end
  end.

Definition rewriteQuery (set : gmap string string) (remove : list string) (u : URL) : URL :=
  let q := ParseQuery (RawQuery u) in
  let q := map_fold ValuesSet q set in
  let q := fold_left (fun q k => ValuesDel k q) remove q in
  setRawQuery (Encode q) u.

Definition setURL (u : URL) (r : Request) : Request := mkReq (r_Method r) u (r_Header r).
Definition setHeader (h : Header) (r : Request) : Request := mkReq (r_Method r) (r_URL r) h.

(** An operation mutates the request, or redirects to a target with a status. *)
Definition runReqOp (origURI : string) (op : reqOp) (r : Request) : Request + string * Z :=
  match op with
  | OSetHeader name value => inl (setHeader (HeaderSet name value (r_Header r)) r)
  | ORemoveHeader name => inl (setHeader (HeaderDel name (r_Header r)) r)
  | OSetPath path => inl (setURL (setPath path (r_URL r)) r)
  | ORegexPath re replace =>
      inl (setURL (setPath (ReplaceAllString re (Path (r_URL r)) replace) (r_URL r)) r)
  | ORewriteQuery set remove => inl (setURL (rewriteQuery set remove (r_URL r)) r)
  | ORedirect to status => inr (replaceAll "$uri" origURI 0 to, status)
  end.

Fixpoint runReqOps (origURI : string) (l : list reqOp) (r : Request) : Request + string * Z :=
  match l with
  | [] => inl r
  | op :: l => match runReqOp origURI op r with
               | inl r => runReqOps origURI l r
               | inr x => inr x
               end
  end.

(** The request and the snapshot of it, when one is valid. *)
Record evalState := mkEval { e_req : Request; e_input : option Input }.

Definition freshInput (z : Zone) (r : Request) : Input :=
  NewInput r "" (match z_country z with Some f => f r | None => "" end)
    (match z_asn z with Some f => f r | None => 0%Z end).

Definition evalInput (z : Zone) (st : evalState) : Input * evalState :=
  match e_input st with
  | Some i => (i, st)
  | None => let i := freshInput z (e_req st) in (i, mkEval (e_req st) (Some i))
  end.

Definition matched (z : Zone) (filter : option Predicate) (st : evalState) : bool * evalState :=
  match filter with
  | None => (true, st)
  | Some p =>
      let '(i, st) := evalInput z st in
      (match Eval p i with Some b => b | None => false end, st)
  end.

Fixpoint reqLoop (z : Zone) (origURI : string) (rules : list (compiledRule (list reqOp)))
    (st : evalState) : evalState + string * Z :=
  match rules with
  | [] => inl st
  | rule :: rules =>
      let '(m, st) := matched z (cr_filter _ rule) st in
      if negb m then reqLoop z origURI rules st
      else if cr_shadow _ rule then reqLoop z origURI rules st
      else match runReqOps origURI (cr_body _ rule) (e_req st) with
           | inr x => inr x
           | inl r => reqLoop z origURI rules (mkEval r None)
           end
  end.

Fixpoint respLoop (z : Zone) (rules : list (compiledRule (list respOp))) (acc : list respOp)
    (st : evalState) : list respOp * evalState :=
  match rules with
  | [] => (acc, st)
  | rule :: rules =>
      let '(m, st) := matched z (cr_filter _ rule) st in
      if negb m then respLoop z rules acc st
      else if cr_shadow _ rule then respLoop z rules acc st
      else respLoop z rules (acc ++ cr_body _ rule) st
  end.

(** The interceptor's callback. *)
Fixpoint runRespOps (l : list respOp) (h : Header) (status : Z) : Header * Z :=
  match l with
  | [] => (h, status)
  | RSetStatus s :: l => if (0 <? s)%Z then runRespOps l h s else runRespOps l h status
  | RSetHeader n v :: l => runRespOps l (HeaderSet n v h) status
  | RRemoveHeader n :: l => runRespOps l (HeaderDel n h) status
  end.

Definition interceptor (l : list respOp) (h : Header) : Header * option Z :=
  let '(h, status) := runRespOps l h 0 in
  (h, if (0 <? status)%Z then Some status else None).

(** The rules are visited from the last to the first. *)
Fixpoint corsLoop (z : Zone) (rules : list (compiledRule CORS)) (h : Handler) (st : evalState) :
    Handler * evalState :=
  match rules with
  | [] => (h, st)
  | rule :: rules =>
      let '(m, st) := matched z (cr_filter _ rule) st in
      if negb m then corsLoop z rules h st
      else if cr_shadow _ rule then corsLoop z rules h st
      else corsLoop z rules (corsServe (cr_body _ rule) h) st
  end.

(** What a request gets: a redirect, a panic of [net/http] on a status that cannot
    be written, or the response of the wrapped handler. *)
Inductive Served :=
| Redirected (target : string) (status : Z)
| Panicked
| Responded (o : Response).

(** [http.Redirect]: [WriteHeader] panics on a code outside 100..999. *)
Definition httpRedirect (target : string) (status : Z) : Served :=
  if (status <? 100)%Z || (999 <? status)%Z then Panicked else Redirected target status.

Definition ServeHandler (z : Zone) (next : Handler) (r : Request) : Served :=
  let origURI := RequestURI (r_URL r) in
  match reqLoop z origURI (reqRules z) (mkEval r None) with
  | inr (target, status) => httpRedirect target status
  | inl st =>
      let '(respOps, st) := respLoop z (respRules z) [] st in
      let h := match respOps with
               | [] => next
               | _ => InterceptResponse (interceptor respOps) next
               end in
      let '(h, st) := corsLoop z (rev (corsRules z)) h st in
      Responded (h (e_req st))
  end.

Definition IDs (z : Zone) : list string :=
  (cr_id _ <$> reqRules z) ++ (cr_id _ <$> respRules z) ++ (cr_id _ <$> corsRules z).

Definition Empty (z : Zone) : bool :=
  match reqRules z, respRules z, corsRules z with [], [], [] => true | _, _, _ => false end.

End ops.

Arguments reqOp : clear implicits.
Arguments Zone : clear implicits.
Arguments compiledRule : clear implicits.
Arguments compiled : clear implicits.

End TransformRule.

(** ** Lemmas *)

Module TransformLemmas.
Import TransformRule.

Section lemmas.
Context {Predicate Input Regexp : Type} {ops : TransformOps Predicate Input Regexp}.

#[local] Abbreviation Zone := (Zone Predicate Regexp).
#[local] Abbreviation reqOp := (reqOp Regexp).
#[local] Abbreviation crule := (compiledRule Predicate).
#[local] Abbreviation cpd := (compiled Predicate Regexp).

(** *** The reference execution, which evaluates every filter afresh *)

Definition fires {B} (z : Zone) (r : Request) (rule : crule B) : bool :=
  match cr_filter _ rule with
  | None => true
  | Some p => match Eval p (freshInput z r) with Some b => b | None => false end
  end && negb (cr_shadow _ rule).

Fixpoint specReq (z : Zone) (origURI : string) (rules : list (crule (list reqOp))) (r : Request) :
    Request + string * Z :=
  match rules with
  | [] => inl r
  | rule :: rules =>
      if fires z r rule then
        match runReqOps origURI (cr_body _ rule) r with
        | inr x => inr x
        | inl r => specReq z origURI rules r
        end
      else specReq z origURI rules r
  end.

Definition specResp (z : Zone) (r : Request) : list respOp :=
  List.concat (cr_body _ <$> List.filter (fires z r) (respRules z)).

Definition specHandler (z : Zone) (r : Request) (next : Handler) : Handler :=
  foldr (fun rule h => corsServe (cr_body _ rule) h)
    (match specResp z r with [] => next | l => InterceptResponse (interceptor l) next end)
    (List.filter (fires z r) (corsRules z)).

Definition specServe (z : Zone) (next : Handler) (r : Request) : Served :=
  match specReq z (RequestURI (r_URL r)) (reqRules z) r with
  | inr (target, status) => httpRedirect target status
  | inl r' => Responded (specHandler z r' next r')
  end.

(** The snapshot, when there is one, is that of the current request. *)
Definition coherent (z : Zone) (st : evalState) : Prop :=
  forall i, e_input st = Some i -> i = freshInput z (e_req st).

Lemma matched_spec {B} z (rule : crule B) st :
  coherent z st ->
  let '(m, st') := matched z (cr_filter _ rule) st in
  m && negb (cr_shadow _ rule) = fires z (e_req st) rule /\ e_req st' = e_req st /\ coherent z st'.
Proof.
  intros Hc. unfold matched, fires, evalInput. destruct (cr_filter _ rule) as [p|]; [|done].
  destruct (e_input st) as [i|] eqn:Hi; simpl; [by rewrite (Hc i Hi)|].
  split; [done|]. split; [done|]. by intros i' [= <-].
Qed.

Ltac step_rule z rule st Hc :=
  let Hm := fresh in
  pose proof (matched_spec z rule st Hc) as Hm;
  destruct (matched z (cr_filter _ rule) st) as [[] ?st];
  destruct Hm as (<- & Hreq & Hc'); simpl; rewrite <- ?Hreq.

Lemma reqLoop_spec z o rules st :
  coherent z st ->
  match reqLoop z o rules st with
  | inl st' => specReq z o rules (e_req st) = inl (e_req st') /\ coherent z st'
  | inr x => specReq z o rules (e_req st) = inr x
  end.
Proof.
  revert st. induction rules as [|rule rules IH]; intros st Hc; [done|]. cbn [reqLoop specReq].
  step_rule z rule st Hc; [|by apply IH].
  destruct (cr_shadow _ rule); simpl; [by apply IH|].
  destruct (runReqOps o (cr_body _ rule) _) as [r|x]; [|done]. by apply (IH (mkEval r None)).
Qed.

Lemma respLoop_spec z rules acc st :
  coherent z st ->
  let '(l, st') := respLoop z rules acc st in
  l = acc ++ List.concat (cr_body _ <$> List.filter (fires z (e_req st)) rules) /\
  e_req st' = e_req st /\ coherent z st'.
Proof.
  revert acc st. induction rules as [|rule rules IH]; intros acc st Hc.
  { simpl. by rewrite app_nil_r. }
  cbn [respLoop List.filter]. step_rule z rule st Hc; [|by apply IH].
  destruct (cr_shadow _ rule); simpl; [by apply IH|].
  specialize (IH (acc ++ cr_body _ rule) st0 Hc'). destruct (respLoop _ _ _ _) as [l st'].
  destruct IH as (-> & ? & ?). by rewrite <- app_assoc.
Qed.

Lemma corsLoop_spec z rules h st :
  coherent z st ->
  let '(h', st') := corsLoop z rules h st in
  h' = fold_left (fun h rule => corsServe (cr_body _ rule) h) (List.filter (fires z (e_req st)) rules) h /\
  e_req st' = e_req st /\ coherent z st'.
Proof.
  revert h st. induction rules as [|rule rules IH]; intros h st Hc; [done|].
  cbn [corsLoop List.filter]. step_rule z rule st Hc; [|by apply IH].
  destruct (cr_shadow _ rule); simpl; by apply IH.
Qed.

Lemma filter_rev {A} (f : A -> bool) l : List.filter f (rev l) = rev (List.filter f l).
Proof.
  induction l as [|x l IH]; [done|]. simpl. rewrite List.filter_app, IH. simpl.
  by destruct (f x); rewrite ?app_nil_r.
Qed.

(** *** Parsing *)

Lemma compileRules_spec opts rules z :
  match compileRules opts rules z with
  | Ok z' => exists cs, Forall2 (fun rule c => compileRule opts rule = Ok c) rules cs /\
                        z' = fold_left addCompiled cs z
  | Err _ => ~ exists cs, Forall2 (fun rule c => compileRule opts rule = Ok c) rules cs
  end.
Proof.
  revert z. induction rules as [|rule rules IH]; intros z; simpl.
  { exists []. split; [constructor|done]. }
  destruct (compileRule opts rule) as [c|e] eqn:Hc.
  - specialize (IH (addCompiled z c)). destruct (compileRules opts rules (addCompiled z c)).
    + destruct IH as (cs & Hcs & ->). exists (c :: cs). split; [by constructor|done].
    + intros (cs & Hcs). apply IH. inversion Hcs; subst. eauto.
  - intros (cs & Hcs). inversion Hcs; subst. congruence.
Qed.

Definition nonblank (doc : string) : bool := negb (String.eqb (trim_space doc) "").

Definition docOk (doc : string) (ts : list Rule) : Prop := unmarshal doc = Some ts /\ ts <> [].

Lemma parseDocs_spec docs rules :
  match parseDocs docs rules with
  | Ok rules' => exists tss, Forall2 docOk (List.filter nonblank docs) tss /\
                             rules' = rules ++ List.concat tss
  | Err _ => ~ exists tss, Forall2 docOk (List.filter nonblank docs) tss
  end.
Proof.
  revert rules. induction docs as [|doc docs IH]; intros rules; simpl.
  { exists []. split; [constructor|by rewrite app_nil_r]. }
  change (nonblank doc) with (negb (String.eqb (trim_space doc) "")).
  destruct (String.eqb (trim_space doc) ""); simpl; [apply IH|].
  destruct (unmarshal doc) as [[|t ts]|] eqn:Hu.
  - intros (tss & Ht). inversion Ht as [|? ? ? ? [Hd Hne] _]; subst. congruence.
  - specialize (IH (rules ++ t :: ts)). destruct (parseDocs docs (rules ++ t :: ts)).
    + destruct IH as (tss & Ht & ->). exists ((t :: ts) :: tss). split; [by constructor|].
      by rewrite <- app_assoc.
    + intros (tss & Ht). apply IH. inversion Ht; subst. eauto.
  - intros (tss & Ht). inversion Ht as [|? ? ? ? [Hd Hne] _]; subst. congruence.
Qed.

(** Which list a compiled rule goes to. *)
Definition asReq (c : cpd) := match c with CReq c => Some c | _ => None end.
Definition asResp (c : cpd) := match c with CResp c => Some c | _ => None end.
Definition asCors (c : cpd) := match c with CCors c => Some c | _ => None end.

Lemma fold_addCompiled cs (z : Zone) :
  let z' := fold_left addCompiled cs z in
  reqRules z' = reqRules z ++ omap asReq cs /\
  respRules z' = respRules z ++ omap asResp cs /\
  corsRules z' = corsRules z ++ omap asCors cs /\
  z_country z' = z_country z /\ z_asn z' = z_asn z.
Proof.
  revert z. induction cs as [|c cs IH]; intros z; simpl; [by rewrite !app_nil_r|].
  destruct (IH (addCompiled z c)) as (-> & -> & -> & -> & ->).
  destruct c; simpl; by rewrite <- ?app_assoc.
Qed.

(** *** Well-formed zones *)

Definition reqOpWF (n : nat) (op : reqOp) : Prop :=
  match op with
  | OSetHeader name value => ValidHeaderFieldName name = true /\ ValidHeaderFieldValue value = true
  | ORemoveHeader name => ValidHeaderFieldName name = true
  | OSetPath path => path <> ""
  | ORegexPath _ replace => replace <> ""
  | ORewriteQuery set remove => set <> ∅ \/ remove <> []
  | ORedirect _ status => n = 1 /\ status <> 0%Z
  end.

Definition respOpWF (op : respOp) : Prop :=
  match op with
  | RSetHeader name value => ValidHeaderFieldName name = true /\ ValidHeaderFieldValue value = true
  | RRemoveHeader name => ValidHeaderFieldName name = true
  | RSetStatus status => (100 <= status <= 599)%Z
  end.

Definition corsWF (c : CORS) : Prop :=
  if c_AllowAllOrigins c then c_AllowCredentials c = false /\ c_AllowOrigins c = []
  else c_AllowOrigins c <> [] /\ c_AllowOrigins c <> ["*"].

Definition compiledWF (c : cpd) : Prop :=
  match c with
  | CReq c => cr_body _ c <> [] /\ Forall (reqOpWF (length (cr_body _ c))) (cr_body _ c)
  | CResp c => cr_body _ c <> [] /\ Forall respOpWF (cr_body _ c)
  | CCors c => corsWF (cr_body _ c)
  end.

Definition ZoneWF (z : Zone) : Prop :=
  Forall (fun c => compiledWF (CReq c)) (reqRules z) /\
  Forall (fun c => compiledWF (CResp c)) (respRules z) /\
  Forall (fun c => compiledWF (CCors c)) (corsRules z).

Lemma validateHeaderName_ok name u : validateHeaderName name = Ok u -> ValidHeaderFieldName name = true.
Proof. unfold validateHeaderName. by destruct (ValidHeaderFieldName name). Qed.

Lemma validateHeaderNameValue_ok name value u :
  validateHeaderNameValue name value = Ok u ->
  ValidHeaderFieldName name = true /\ ValidHeaderFieldValue value = true.
Proof.
  unfold validateHeaderNameValue. destruct (validateHeaderName name) as [u'|] eqn:Hn; [|done].
  apply validateHeaderName_ok in Hn. simpl. by destruct (ValidHeaderFieldValue value).
Qed.

Lemma compileReqOp_wf n i op o : compileReqOp n i op = Ok o -> reqOpWF n o.
Proof.
  unfold compileReqOp. destruct (String.eqb _ "set-header").
  { destruct (validateHeaderNameValue _ _) eqn:Hv; [|done]. intros [= <-].
    by eapply validateHeaderNameValue_ok. }
  destruct (String.eqb _ "remove-header").
  { destruct (validateHeaderName _) eqn:Hv; [|done]. intros [= <-]. by eapply validateHeaderName_ok. }
  destruct (String.eqb _ "rewrite-path").
  { unfold compileRewritePath. destruct (String.eqb_spec (op_Path op) ""); simpl.
    - destruct (String.eqb (Regex op) ""); [done|]. destruct (String.eqb_spec (Replace op) ""); [done|].
      simpl. destruct (regexp_Compile _); [|done]. by intros [= <-].
    - destruct (_ || _); [done|]. by intros [= <-]. }
  destruct (String.eqb _ "rewrite-query").
  { unfold compileRewriteQuery. destruct (Nat.eqb_spec (size (Query op)) 0) as [H0|H0]; simpl.
    - destruct (RemoveQuery op) eqn:Hr; [done|]. intros [= <-]. simpl. by right.
    - intros [= <-]. left. by apply map_size_non_empty_iff. }
  destruct (String.eqb _ "redirect"); [|done].
  destruct (Nat.eqb_spec n 1) as [->|]; [|done]. simpl. intros [= <-]. simpl. split; [done|].
  by destruct (Z.eqb_spec (Status op) 0).
Qed.

Lemma compileRespOp_wf n i op o : compileRespOp n i op = Ok o -> respOpWF o.
Proof.
  unfold compileRespOp. destruct (String.eqb _ "set-header").
  { destruct (validateHeaderNameValue _ _) eqn:Hv; [|done]. intros [= <-].
    by eapply validateHeaderNameValue_ok. }
  destruct (String.eqb _ "remove-header").
  { destruct (validateHeaderName _) eqn:Hv; [|done]. intros [= <-]. by eapply validateHeaderName_ok. }
  destruct (String.eqb _ "set-status"); [|by destruct (String.eqb _ "cors")].
  destruct (Z.ltb_spec (Status op) 100); [done|]. destruct (Z.ltb_spec 599 (Status op)); [done|].
  by intros [= <-].
Qed.

Lemma compileCORS_wf op c : compileCORS op = Ok c -> corsWF c.
Proof.
  unfold compileCORS. destruct (if String.eqb (MaxAge op) "" then _ else _); [|done].
  destruct (AllowOrigins op) as [|o os] eqn:Ho; [done|]. case_bool_decide as Hs.
  - destruct (AllowCredentials op) eqn:Hc; [done|]. by intros [= <-].
  - by intros [= <-].
Qed.

Lemma compileOps_ok {O} (one : nat -> Op -> result opError O) (P : O -> Prop) i l os :
  (forall j op o, one j op = Ok o -> P o) ->
  compileOps one i l = Ok os -> length os = length l /\ Forall P os.
Proof.
  intros HP. revert i os. induction l as [|op l IH]; intros i os; simpl; [by intros [= <-]|].
  destruct (one i op) as [o|] eqn:Ho; [|done]. simpl.
  destruct (compileOps one (S i) l) as [os'|] eqn:Hl; [|done]. intros [= <-].
  apply IH in Hl as [Hlen Hall]. split; [simpl; by rewrite Hlen|]. constructor; [by eapply HP|done].
Qed.

Lemma compileRule_wf opts rule c : compileRule opts rule = Ok c -> compiledWF c.
Proof.
  unfold compileRule. destruct (compileFilter opts rule) as [f|]; [|done]. cbn [rbind].
  destruct (negb _); [done|]. destruct (Ops rule) as [|op0 l] eqn:Hops; [done|].
  destruct (String.eqb (Phase rule) "request").
  { destruct (compileReqOps (op0 :: l)) as [os|] eqn:Hc; [|done]. intros [= <-]. simpl.
    eapply (compileOps_ok _ (reqOpWF (length (op0 :: l)))) in Hc as [Hlen Hall];
      [|intros ? ? ?; apply compileReqOp_wf]. rewrite Hlen. split; [by destruct os|done]. }
  destruct (String.eqb (Phase rule) "response"); [|done]. destruct (isCORSRule (op0 :: l)).
  { destruct (compileCORS op0) eqn:Hc; [|done]. intros [= <-]. by eapply compileCORS_wf. }
  destruct (compileRespOps (op0 :: l)) as [os|] eqn:Hc; [|done]. intros [= <-]. simpl.
  eapply (compileOps_ok _ respOpWF) in Hc as [Hlen Hall]; [|intros ? ? ?; apply compileRespOp_wf].
  split; [by destruct os|done].
Qed.

Lemma Forall_omap_wf {C} (f : cpd -> option C) (inj : C -> cpd) cs :
  (forall c x, f c = Some x -> c = inj x) ->
  Forall compiledWF cs -> Forall (fun x => compiledWF (inj x)) (omap f cs).
Proof.
  intros Hf. induction 1 as [|c cs Hc _ IH]; simpl; [constructor|].
  destruct (f c) as [x|] eqn:Hx; [|done]. constructor; [by rewrite <- (Hf _ _ Hx)|done].
Qed.

(** What the documents declare, in order: the rules of every document that is not
    blank. *)
Definition declaredRules (docs : list string) (rules : list Rule) : Prop :=
  exists tss, Forall2 docOk (List.filter nonblank docs) tss /\ rules = List.concat tss.

(** The declared rules a phase of the zone runs. *)
Definition isReqRule (r : Rule) : bool := String.eqb (Phase r) "request".
Definition isRespRule (r : Rule) : bool :=
  String.eqb (Phase r) "response" && negb (isCORSRule (Ops r)).
Definition isCorsRule (r : Rule) : bool := String.eqb (Phase r) "response" && isCORSRule (Ops r).

(** [l] holds the declared rules [sel] picks, one compiled rule for each and no other,
    with ascending priority and, at each priority, in the order they are declared. *)
Definition inPhaseOrder {B} (sel : Rule -> bool) (rules : list Rule)
    (l : list (compiledRule Predicate B)) : Prop :=
  StronglySorted (fun a b => (cr_prio _ a <= cr_prio _ b)%Z) l /\
  forall prio : Z,
    map (fun c => (cr_id _ c, cr_shadow _ c)) (List.filter (fun c => cr_prio _ c =? prio)%Z l) =
    map (fun r => (ID r, String.eqb (Mode r) "shadow"))
      (List.filter (fun r => sel r && (Priority r =? prio)%Z) rules).

(** A compiled rule is labelled as the rule it comes from. *)
Definition labelled {B} (rule : Rule) (c : compiledRule Predicate B) : Prop :=
  cr_id _ c = ID rule /\ cr_prio _ c = Priority rule /\
  cr_shadow _ c = String.eqb (Mode rule) "shadow".

Lemma compileRule_label opts rule c :
  compileRule opts rule = Ok c ->
  match c with
  | CReq b => isReqRule rule = true /\ isRespRule rule = false /\ isCorsRule rule = false /\ labelled rule b
  | CResp b => isReqRule rule = false /\ isRespRule rule = true /\ isCorsRule rule = false /\ labelled rule b
  | CCors b => isReqRule rule = false /\ isRespRule rule = false /\ isCorsRule rule = true /\ labelled rule b
  end.
Proof.
  unfold compileRule, isReqRule, isRespRule, isCorsRule, labelled.
  destruct (compileFilter opts rule) as [f|]; [|done]. cbn [rbind].
  destruct (negb _); [done|]. destruct (Ops rule) as [|op0 l]; [done|].
  destruct (String.eqb_spec (Phase rule) "request") as [->|_].
  { destruct (compileReqOps _); [|done]. by intros [= <-]. }
  destruct (String.eqb (Phase rule) "response"); [|done]. destruct (isCORSRule _).
  { destruct (compileCORS op0); [|done]. by intros [= <-]. }
  destruct (compileRespOps _); [|done]. by intros [= <-].
Qed.

Lemma inPhaseOrder_sorted {B} opts sel (pick : cpd -> option (compiledRule Predicate B)) rules cs :
  (forall rule c, compileRule opts rule = Ok c ->
    match pick c with Some b => sel rule = true /\ labelled rule b | None => sel rule = false end) ->
  Forall2 (fun rule c => compileRule opts rule = Ok c) rules cs ->
  inPhaseOrder sel rules (sortByKey (cr_prio _) (omap pick cs)).
Proof.
  intros Hp Hcs. split; [apply sortByKey_sorted|]. intros prio. rewrite sortByKey_stable.
  induction Hcs as [|rule c rules cs Hr _ IH]; [done|].
  specialize (Hp _ _ Hr). cbn [omap list_omap List.filter]. change (list_omap _ _ pick cs) with (omap pick cs).
  destruct (pick c) as [b|]; [|by rewrite Hp].
  destruct Hp as (-> & Hid & Hprio & Hsh). cbn [List.filter andb]. rewrite Hprio.
  destruct (_ =? _)%Z; [|done]. cbn [map]. by rewrite Hid, Hsh, IH.
Qed.

Lemma Forall_sorted {A} (key : A -> Z) (P : A -> Prop) l : Forall P l -> Forall P (sortByKey key l).
Proof. intros H. by rewrite sortByKey_perm. Qed.

Lemma sortedZone_wf opts rules cs :
  Forall2 (fun rule c => compileRule opts rule = Ok c) rules cs ->
  Forall (fun c => compiledWF (CReq c)) (sortByKey (cr_prio _) (omap asReq cs)) /\
  Forall (fun c => compiledWF (CResp c)) (sortByKey (cr_prio _) (omap asResp cs)) /\
  Forall (fun c => compiledWF (CCors c)) (sortByKey (cr_prio _) (omap asCors cs)).
Proof.
  intros Hcs. assert (Hwf : Forall compiledWF cs).
  { induction Hcs as [|rule c rules' cs' Hr _ IH]; constructor; [by eapply compileRule_wf|done]. }
  split; [|split]; apply Forall_sorted.
  - apply (Forall_omap_wf asReq CReq); [|done]. by intros [] x [= ->].
  - apply (Forall_omap_wf asResp CResp); [|done]. by intros [] x [= ->].
  - apply (Forall_omap_wf asCors CCors); [|done]. by intros [] x [= ->].
Qed.

(** *** Response operations *)

Definition mutateHeader (h : Header) (op : respOp) : Header :=
  match op with
  | RSetHeader n v => HeaderSet n v h
  | RRemoveHeader n => HeaderDel n h
  | RSetStatus _ => h
  end.

Fixpoint lastStatus (l : list respOp) : option Z :=
  match l with
  | [] => None
  | op :: l =>
      match lastStatus l with
      | Some s => Some s
      | None => match op with RSetStatus s => Some s | _ => None end
      end
  end.

Lemma runRespOps_spec l h s :
  Forall respOpWF l -> runRespOps l h s = (fold_left mutateHeader l h, default s (lastStatus l)).
Proof.
  intros Hl. revert h s. induction Hl as [|op l Hop _ IH]; intros h s; [done|].
  destruct op as [n v|n|st]; cbn [runRespOps fold_left mutateHeader lastStatus];
    [rewrite IH; by destruct (lastStatus l)..|].
  simpl in Hop. rewrite (proj2 (Z.ltb_lt 0 st)) by lia. rewrite IH. by destruct (lastStatus l).
Qed.

Lemma lastStatus_range l s : Forall respOpWF l -> lastStatus l = Some s -> (100 <= s <= 599)%Z.
Proof.
  intros Hl. induction Hl as [|op l Hop _ IH]; [done|]. simpl. destruct (lastStatus l); [done|].
  destruct op; try done. by intros [= <-].
Qed.

Lemma interceptor_spec l h :
  Forall respOpWF l -> interceptor l h = (fold_left mutateHeader l h, lastStatus l).
Proof.
  intros Hl. unfold interceptor. rewrite runRespOps_spec by done.
  destruct (lastStatus l) as [s|] eqn:Hs; simpl; [|done].
  apply lastStatus_range in Hs; [|done]. by rewrite (proj2 (Z.ltb_lt 0 s)) by lia.
Qed.

(** *** The executed zone is the reference *)

Lemma serve_eq (z : Zone) next r : ServeHandler z next r = specServe z next r.
Proof.
  unfold ServeHandler, specServe.
  assert (Hc : coherent z (mkEval r None)) by done.
  pose proof (reqLoop_spec z (RequestURI (r_URL r)) (reqRules z) _ Hc) as Hreq.
  cbn [e_req] in Hreq. destruct (reqLoop z _ _ _) as [st|[t s]]; [|by rewrite Hreq].
  destruct Hreq as [-> Hc1].
  pose proof (respLoop_spec z (respRules z) [] st Hc1) as Hresp.
  destruct (respLoop z _ _ _) as [l st2]. destruct Hresp as (-> & He2 & Hc2). simpl.
  set (h0 := match _ with [] => next | _ :: _ => _ end).
  pose proof (corsLoop_spec z (rev (corsRules z)) h0 st2 Hc2) as Hcors.
  destruct (corsLoop z _ _ _) as [h st3]. destruct Hcors as (-> & He3 & _).
  rewrite He3, He2, filter_rev. unfold specHandler.
  rewrite <- (fold_left_rev_right (fun rule h => corsServe (cr_body _ rule) h)), rev_involutive.
  subst h0. unfold specResp. by destruct (List.concat _).
Qed.

(** *** Query maps *)

Lemma lookup_removed remove (m : Values) k :
  fold_left (fun q k => ValuesDel k q) remove m !! k = if decide (k ∈ remove) then None else m !! k.
Proof.
  revert m. induction remove as [|x remove IH]; intros m; [done|]. cbn [fold_left]. rewrite IH.
  destruct (decide (k ∈ remove)) as [Hin|Hout].
  - by rewrite decide_True by (by right).
  - unfold ValuesDel. destruct (decide (k = x)) as [->|Hne].
    + by rewrite lookup_delete_eq, decide_True by (by left).
    + rewrite lookup_delete_ne by done. rewrite decide_False; [done|].
      by intros [?|?]%elem_of_cons.
Qed.

Lemma lookup_setAll (set : gmap string string) (m : Values) k :
  map_fold ValuesSet m set !! k = match set !! k with Some v => Some [v] | None => m !! k end.
Proof.
  apply (map_fold_weak_ind (fun q set => q !! k = match set !! k with Some v => Some [v] | None => m !! k end)).
  - by rewrite lookup_empty.
  - intros x v set' q Hx IH. unfold ValuesSet. destruct (decide (x = k)) as [->|Hne].
    + by rewrite !lookup_insert_eq.
    + by rewrite !lookup_insert_ne by done.
Qed.

(** Parsing never leaves a key without values. *)
Lemma ParseQuery_nonempty q k : ParseQuery q !! k <> Some [].
Proof.
  unfold ParseQuery. assert (H : (∅ : Values) !! k <> Some []) by (by rewrite lookup_empty).
  revert H. generalize (∅ : Values). induction (split_char "&" q) as [|s l IH]; intros m H; [done|].
  cbn [fold_left]. apply IH. unfold addSetting. destruct (mem_char ";" s); [done|].
  destruct (String.eqb s ""); [done|]. destruct (Cut "=" s) as [a b].
  destruct (unescape _ a) as [a'|]; [|done]. destruct (unescape _ b) as [b'|]; [|done].
  destruct (decide (a' = k)) as [->|Hne]; [|by rewrite lookup_insert_ne].
  rewrite lookup_insert_eq. intros [= He]. by destruct (default [] (m !! k)).
Qed.

End lemmas.
End TransformLemmas.

Module TransformProps.
Import TransformRule TransformLemmas.

Section props.
Context {Predicate Input Regexp : Type} {ops : TransformOps Predicate Input Regexp}.

(** C38: executing a zone is executing its reference.  The snapshot that [ServeHandler]
    builds lazily, reuses across rules and drops after a mutation never shows: request
    rules run top to bottom, each filter read on the request as mutated so far; the
    first redirect answers with [$uri] standing for the original URI; response and
    cors filters are read on the final request; a shadow rule and a filter that errors
    do nothing; the first cors rule ends up outermost. *)
Theorem serve_refines_reference (z : Zone Predicate Regexp) next r :
  ServeHandler z next r = specServe z next r.
Proof.
  apply serve_eq.
Qed.

(** Compilation is all-or-nothing.  [Parse] succeeds exactly when every document that
    is not blank decodes to at least one rule and every rule compiles; the zone then
    holds exactly the compiled rules, each phase put in ascending priority with ties in
    declaration order. *)
Theorem Parse_all_or_nothing opts docs :
  let good := fun (cs : list (compiled Predicate Regexp)) =>
    exists tss, Forall2 docOk (List.filter nonblank docs) tss /\
      Forall2 (fun rule c => compileRule opts rule = Ok c) (List.concat tss) cs in
  match Parse opts docs with
  | Ok z => exists cs, good cs /\
      StableSorted (cr_prio _) (omap asReq cs) (reqRules z) /\
      StableSorted (cr_prio _) (omap asResp cs) (respRules z) /\
      StableSorted (cr_prio _) (omap asCors cs) (corsRules z)
  | Err _ => ~ exists cs, good cs
  end.
Proof.
  intros good. unfold Parse. pose proof (parseDocs_spec docs []) as Hd.
  destruct (parseDocs docs []) as [rules|e]; cbn [rbind].
  - destruct Hd as (tss & Ht & ->). simpl.
    pose proof (compileRules_spec opts (List.concat tss) (emptyZone opts)) as Hc.
    destruct (compileRules _ _ _) as [z|e]; cbn [rbind].
    + destruct Hc as (cs & Hcs & ->).
      destruct (fold_addCompiled cs (emptyZone opts)) as (H1 & H2 & H3 & _).
      exists cs. split; [by exists tss|]. simpl. rewrite H1, H2, H3. simpl.
      split; [|split]; apply sortByKey_spec.
    + intros (cs & tss' & Ht' & Hcs). apply Hc. exists cs.
      assert (tss' = tss) as ->; [|done].
      clear -Ht Ht'. revert tss' Ht'. induction Ht as [|d ts ds tss [Hd _] _ IH]; intros tss' Ht'.
      * by inversion Ht'.
      * inversion Ht' as [|? ts' ? ? [Hd' _] H2]; subst. f_equal; [congruence|by apply IH].
  - intros (cs & tss & Ht & _). apply Hd. eauto.
Qed.

(** C40: what [Parse] accepts is well formed and in order.  Header operations carry
    valid names and values, a path rewrite is never to the empty path, a query rewrite
    is never empty, a redirect is alone in its rule (its status is only known not to be
    0), a status override is between 100 and 599, no rule is empty, and a CORS wildcard
    never comes with credentials (which would panic in the middleware).  And each of
    the three phases holds exactly the rules the documents declare for it, by
    ascending priority, rules of one priority in declaration order, a rule in shadow
    mode exactly when it is declared so. *)
Theorem Parse_wellformed opts docs (z : Zone Predicate Regexp) :
  Parse opts docs = Ok z ->
  ZoneWF z /\
  exists rules, declaredRules docs rules /\
    inPhaseOrder isReqRule rules (reqRules z) /\
    inPhaseOrder isRespRule rules (respRules z) /\
    inPhaseOrder isCorsRule rules (corsRules z).
Proof.
  unfold Parse. pose proof (parseDocs_spec docs []) as Hd.
  destruct (parseDocs docs []) as [rules|]; [|done]. destruct Hd as (tss & Ht & ->). cbn [rbind app].
  pose proof (compileRules_spec opts (List.concat tss) (emptyZone opts)) as Hc.
  destruct (compileRules _ _ _) as [z0|]; [|done]. cbn [rbind]. intros [= <-].
  destruct Hc as (cs & Hcs & ->).
  destruct (fold_addCompiled cs (emptyZone opts)) as (H1 & H2 & H3 & _).
  unfold ZoneWF, sortZone. cbn [reqRules respRules corsRules]. rewrite H1, H2, H3. simpl. split.
  - by apply sortedZone_wf with opts (List.concat tss).
  - exists (List.concat tss). split; [by exists tss|].
    split; [|split]; apply (inPhaseOrder_sorted opts); try done;
      intros rule c Hr%compileRule_label; destruct c; simpl; tauto.
Qed.

(** A rewrite-query operation, read back by the next hop: parsing the URL it writes
    gives no value for a removed key, exactly the new value for a set key, and the
    values the request had for every other key. *)
Theorem rewrite_query_roundtrip set remove u k :
  ParseQuery (RawQuery (rewriteQuery set remove u)) !! k =
  if decide (k ∈ remove) then None
  else match set !! k with
       | Some v => Some [v]
       | None => ParseQuery (RawQuery u) !! k
       end.
Proof.
  unfold rewriteQuery. cbn [setRawQuery RawQuery]. rewrite ParseQuery_Encode, lookup_removed.
  destruct (decide (k ∈ remove)); [done|]. rewrite lookup_setAll.
  destruct (set !! k); [done|].
  destruct (ParseQuery (RawQuery u) !! k) as [[|v vs]|] eqn:Hq; try done.
  exfalso. by eapply ParseQuery_nonempty.
Qed.

(** The response phase, when no cors rule fires: the upstream's header with the
    mutations of the fired rules applied in order, the last status override, whatever
    its position, in place of the upstream's status, and the upstream's body. *)
Theorem response_phase_spec {laws : TransformLaws Predicate Input Regexp}
    (z : Zone Predicate Regexp) next r r' :
  ZoneWF z -> specReq z (RequestURI (r_URL r)) (reqRules z) r = inl r' ->
  List.filter (fires z r') (corsRules z) = [] ->
  let l := specResp z r' in
  ServeHandler z next r =
  Responded (mkResp (default (rs_Status (next r')) (lastStatus l))
               (fold_left mutateHeader l (rs_Header (next r'))) (rs_Body (next r'))).
Proof.
  intros (_ & Hwf & _) Hreq Hcors. simpl.
  assert (Hl : Forall respOpWF (specResp z r')).
  { apply Forall_forall. intros op Hop. unfold specResp in Hop.
    apply list_elem_of_In, in_concat in Hop as (b & Hb & Hop).
    apply in_map_iff in Hb as (c & <- & Hc). apply List.filter_In in Hc as [Hc _].
    rewrite Forall_forall in Hwf. destruct (Hwf c) as [_ Hall]; [by apply list_elem_of_In|].
    rewrite Forall_forall in Hall. apply Hall. by apply list_elem_of_In. }
  rewrite serve_eq. unfold specServe. rewrite Hreq. f_equal.
  unfold specHandler. rewrite Hcors. simpl.
  destruct (specResp z r') as [|op l] eqn:Hs; [by destruct (next r')|].
  rewrite intercept_spec, interceptor_spec by done. done.
Qed.

(** The status of a redirect is not checked.  A document with one redirect rule
    compiles whatever its status, and a status below 100 or above 999 makes every
    request panic in [net/http]. *)
Theorem redirect_status_unchecked opts doc id to status :
  trim_space doc <> "" -> status <> 0%Z ->
  unmarshal doc = Some [mkRule id "request" ""
    [mkOp "redirect" "" "" to "" "" "" ∅ [] status [] [] [] [] false ""] "" 0] ->
  exists z : Zone Predicate Regexp, Parse opts [doc] = Ok z /\
    forall next r, ServeHandler z next r =
      if (status <? 100)%Z || (999 <? status)%Z then Panicked
      else Redirected (replaceAll "$uri" (RequestURI (r_URL r)) 0 to) status.
Proof.
  intros Hd Hs Hu. unfold Parse, parseDocs. apply String.eqb_neq in Hd as ->. rewrite Hu.
  cbn [rbind]. unfold compileRules, compileRule, compileFilter. simpl.
  apply Z.eqb_neq in Hs as ->. eexists. split; [reflexivity|]. intros next r. reflexivity.
Qed.

End props.

(** *** Witnesses: predicates are path prefixes, documents are named. *)

Definition toyOp (t n v path : string) (q : gmap string string) (rm : list string) (st : Z) : Op :=
  mkOp t n v "/to$uri" path "" "" q rm st ["*"] [] [] [] false "".

Definition toyDoc (doc : string) : option (list Rule) :=
  if String.eqb doc "rewrite" then
    Some [mkRule "q" "request" "/a" [toyOp "rewrite-path" "" "" "/b" ∅ [] 0] "" 5;
          mkRule "p" "request" "/b" [toyOp "set-header" "x-b" "1" "" ∅ [] 0] "" 5;
          mkRule "s" "response" "" [toyOp "set-status" "" "" "" ∅ [] 203;
                                    toyOp "set-header" "x-out" "1" "" ∅ [] 0] "" 1;
          mkRule "first" "request" "/none" [toyOp "remove-header" "x-a" "" "" ∅ [] 0] "shadow" 1]
  else if String.eqb doc "redirect" then
    Some [mkRule "bad" "request" ""
      [mkOp "redirect" "" "" "/to$uri" "" "" "" ∅ [] 42 [] [] [] [] false ""] "" 0]
  else None.

#[local] Instance toyTransform : TransformOps string Request string := {
  unmarshal := toyDoc;
  NewPredicate _ _ s := Some s;
  Eval p r := Some (has_prefix (Path (r_URL r)) p);
  NewInput r _ _ _ := r;
  regexp_Compile s := Some s;
  ReplaceAllString re s new := replaceAll re new 0 s;
  ValidHeaderFieldName n := negb (String.eqb n "");
  ValidHeaderFieldValue _ := true;
  corsServe _ h := h;
  InterceptResponse f h r :=
    mkResp (default (rs_Status (h r)) (snd (f (rs_Header (h r))))) (fst (f (rs_Header (h r))))
      (rs_Body (h r));
}.

#[local] Instance toyTransformLaws : TransformLaws string Request string.
Proof. by split. Qed.

Definition toyOptions : @Options := mkOptions None None 0 false.
Definition toyZone : Zone string string :=
  match Parse toyOptions ["rewrite"] with Ok z => z | Err _ => emptyZone toyOptions end.
Definition toyReq : Request := mkReq "GET" (mkURL "" "" "/a" "" false "") ∅.
Definition toyNext : Handler := fun r => mkResp 200 (r_Header r) (Path (r_URL r)).

(** The second rule sees the path the first one wrote. *)
Lemma Parse_wellformed_witness :
  Parse toyOptions ["rewrite"] = Ok toyZone /\ ZoneWF toyZone /\
  map (cr_id _) (reqRules toyZone) = ["first"; "q"; "p"] /\
  (exists rules, declaredRules ["rewrite"] rules /\ map ID rules = ["q"; "p"; "s"; "first"] /\
    inPhaseOrder isReqRule rules (reqRules toyZone)) /\
  ServeHandler toyZone toyNext toyReq =
  Responded (mkResp 203 (<["X-Out" := ["1"]]> (<["X-B" := ["1"]]> ∅)) "/b").
Proof.
  destruct (Parse_wellformed toyOptions ["rewrite"] toyZone) as (Hwf & rules & Hd & Ho & _);
    [reflexivity|].
  split; [reflexivity|]. split; [done|]. split; [reflexivity|].
  split; [|vm_compute; reflexivity].
  exists rules. split; [done|]. split; [|done].
  destruct Hd as (tss & Hf & ->).
  inversion Hf as [|? ts ? tss' [Hu _] Hnil]; subst. inversion Hnil; subst.
  injection Hu as <-. reflexivity.
Defined.

Lemma response_phase_spec_witness :
  ServeHandler toyZone toyNext toyReq =
  Responded (mkResp (default 200%Z (lastStatus [RSetStatus 203; RSetHeader "x-out" "1"]))
               (fold_left mutateHeader [RSetStatus 203; RSetHeader "x-out" "1"]
                  (HeaderSet "x-b" "1" ∅)) "/b").
Proof.
  apply (response_phase_spec toyZone toyNext toyReq
           (mkReq "GET" (mkURL "" "" "/b" "" false "") (HeaderSet "x-b" "1" ∅))).
  - split; [|split]; repeat constructor; simpl; try done; lia.
  - vm_compute. reflexivity.
  - reflexivity.
Defined.

Lemma redirect_status_unchecked_witness :
  exists z : Zone string string, Parse toyOptions ["redirect"] = Ok z /\
    forall next r, ServeHandler z next r = Panicked.
Proof.
  destruct (redirect_status_unchecked toyOptions "redirect" "bad" "/to$uri" 42) as (z & Hz & Hs);
    [done|done|reflexivity|].
  exists z. split; [done|]. intros next r. by rewrite Hs.
Defined.

End TransformProps.
