(* ===== verification/Coraza.v ===== *)
(** * The Coraza engine wrapper

    Models [src/corazawaf/corazawaf.go]: the hot-swappable [Instance]
    ([SetDirectives]), and what it does around Coraza on a request: feeding the
    connection, the headers and a bounded prefix of the body to a transaction,
    rebuilding the body for the upstream, and turning an interruption into a
    response.  Coraza itself (compiling directives, evaluating a transaction) is a
    parameter ([CorazaOps]).  Latency observation is dropped. *)

From S2P Require Import Prelude GoString.

Set Default Proof Using "Type".

(** What [SetDirectives] builds: the [coraza.WAFConfig] calls it made. *)
Record WAFConfig (FS : Type) := mkConfig {
  WithRootFS : option FS;
  WithRequestBodyLimit : option Z;
  WithDirectives : string;
}.
Arguments mkConfig {FS}.
Arguments WithRootFS {FS}.
Arguments WithRequestBodyLimit {FS}.
Arguments WithDirectives {FS}.

(** [types.Interruption] and [types.MatchedRule]. *)
Record Interruption := mkIt { it_Action : string; it_Status : Z; it_Data : string }.

Record MatchedRule := mkMatched {
  m_ID : Z; m_Severity : string; m_Disruptive : bool; m_URI : string; m_ClientIP : string;
  m_Message : string;
}.

(** The third-party engine: [C] a compiled WAF, [Tx] a transaction. *)
Class CorazaOps (FS C Tx : Type) := {
  NewWAF : WAFConfig FS -> option C;
  NewTransaction : C -> Tx;
  ProcessConnection : string -> Z -> string -> Z -> Tx -> Tx;
  ProcessURI : string -> string -> string -> Tx -> Tx;
  AddRequestHeader : string -> string -> Tx -> Tx;
  SetServerName : string -> Tx -> Tx;
  ProcessRequestHeaders : Tx -> option Interruption * Tx;
  (** The interruption and whether there was an error. *)
  WriteRequestBody : string -> Tx -> (option Interruption * bool) * Tx;
  ProcessRequestBody : Tx -> option Interruption * Tx;
  MatchedRules : Tx -> list MatchedRule;
  ProcessLogging : Tx -> Tx;
}.

(** A body stream: what is left to read, and how it ends. *)
Inductive streamEnd := EOF | ReadError.
Record Body := mkBody { unread : string; ending : streamEnd }.

(** The local address [net/http] stashes in the context. *)
Inductive LocalAddr := NoAddr | TCPAddr (ip : string) (port : Z) | OtherAddr (s : string).

(** [Header] is in the order its range visits; [rBody] is [None] for nil and [NoBody]. *)
Record Request := mkRequest {
  Method : string;
  URLString : string;
  Proto : string;
  Host : string;
  Header : list (string * list string);
  RemoteAddr : string;
  localAddr : LocalAddr;
  rBody : option Body;
}.

Definition setBody (b : Body) (r : Request) : Request :=
  mkRequest (Method r) (URLString r) (Proto r) (Host r) (Header r) (RemoteAddr r) (localAddr r) (Some b).

Module Coraza.

Record MatchEvent := mkEvent {
  RuleID : Z; Severity : string; Disruptive : bool; URI : string; ClientIP_ : string; Message : string;
}.

Record Options (FS : Type) := mkOptions {
  RootFS : option FS;
  RequestBodyLimit : Z;
  ClientIP : option (Request -> string);
}.
Arguments mkOptions {FS}.
Arguments RootFS {FS}.
Arguments RequestBodyLimit {FS}.
Arguments ClientIP {FS}.

(** [cur] is [None] when no rules are loaded. *)
Record Instance_ (FS C : Type) := mkInstance { opts : Options FS; cur : option C }.
Arguments mkInstance {FS C}.
Arguments opts {FS C}.
Arguments cur {FS C}.

Section coraza.
Context {FS C Tx : Type} `{!CorazaOps FS C Tx}.

Definition New (o : Options FS) : Instance_ FS C := mkInstance o None.

Fixpoint joinLines (docs : list string) : string :=
  match docs with
  | [] => ""
  | [d] => d
  | d :: docs => d +:+ String (ascii_of_nat 10) (joinLines docs)
  end.

Definition directivesOf (docs : list string) : string := trim_space (joinLines docs).

Definition configOf (o : Options FS) (directives : string) : WAFConfig FS :=
  mkConfig (RootFS o) (if (RequestBodyLimit o >? 0)%Z then Some (RequestBodyLimit o) else None) directives.

(** [false] is an error. *)
Definition SetDirectives (docs : list string) (inst : Instance_ FS C) : Instance_ FS C * bool :=
  let directives := directivesOf docs in
  if String.eqb directives "" then (mkInstance (opts inst) None, true)
  else match NewWAF (configOf (opts inst) directives) with
       | None => (inst, false)
       | Some w => (mkInstance (opts inst) (Some w), true)
       end.

Definition Loaded (inst : Instance_ FS C) : bool := match cur inst with Some _ => true | None => false end.

(** *** Addresses *)

Definition clientIP (o : Options FS) (r : Request) : string :=
  let ip := match ClientIP o with Some f => f r | None => "" end in
  if negb (String.eqb ip "") then ip
  else match split_host_port (RemoteAddr r) with Some (host, _) => host | None => RemoteAddr r end.

Definition portFromAddr (addr : string) : Z :=
  match split_host_port addr with None => 0%Z | Some (_, p) => default 0%Z (Atoi p) end.

Definition serverAddr (r : Request) : string * Z :=
  match localAddr r with
  | NoAddr => ("", 0%Z)
  | TCPAddr ip port => (ip, port)
  | OtherAddr s => match split_host_port s with None => ("", 0%Z) | Some (h, p) => (h, default 0%Z (Atoi p)) end
  end.

Definition httpVersion (proto : string) : string :=
  if has_prefix proto "HTTP/" then str_drop 5 proto else proto.

Definition hostOnly (h : string) : string :=
  match split_host_port h with Some (host, _) => host | None => h end.

(** *** The body *)

(** [io.CopyN(&buf, body, limit)]: what was read, what is left, and the error
    ([None] for nil). *)
Definition copyN (limit : Z) (b : Body) : string * Body * option streamEnd :=
  let n := Z.to_nat limit in
  if (n <=? String.length (unread b))%nat
  then (str_take n (unread b), mkBody (str_drop n (unread b)) (ending b), None)
  else (unread b, mkBody "" (ending b), Some (ending b)).

Definition newBodyReadCloser (buffered : string) (rest : Body) : Body :=
  mkBody (buffered +:+ unread rest) (ending rest).

Definition inspectBody (o : Options FS) (b : Body) (r : Request) (tx : Tx) :
    option Interruption * Request * Tx :=
  let '(buf, rest, err) := copyN (RequestBodyLimit o) b in
  let r' := setBody (newBodyReadCloser buf rest) r in
  match err with
  | Some ReadError => (None, r', tx)
  | _ =>
      let '(it, werr, tx) := WriteRequestBody buf tx in
      match it, werr with
      | Some it, false => (Some it, r', tx)
      | _, _ => let '(it, tx) := ProcessRequestBody tx in (it, r', tx)
      end
  end.

(** *** The request phases *)

Definition addHeaders (hs : list (string * list string)) (tx : Tx) : Tx :=
  fold_left (fun tx kv => fold_left (fun tx v => AddRequestHeader kv.1 v tx) kv.2 tx) hs tx.

Definition connectionPhase (o : Options FS) (r : Request) (tx : Tx) : Tx :=
  let '(serverIP, serverPort) := serverAddr r in
  let tx := ProcessConnection (clientIP o r) (portFromAddr (RemoteAddr r)) serverIP serverPort tx in
  let tx := ProcessURI (URLString r) (Method r) (httpVersion (Proto r)) tx in
  let tx := if negb (String.eqb (Host r) "")
            then SetServerName (hostOnly (Host r)) (AddRequestHeader "Host" (Host r) tx) else tx in
  addHeaders (Header r) tx.

Definition inspectRequest (o : Options FS) (r : Request) (tx : Tx) :
    option Interruption * Request * Tx :=
  let '(it, tx) := ProcessRequestHeaders (connectionPhase o r tx) in
  match it with
  | Some it => (Some it, r, tx)
  | None =>
      match rBody r with
      | Some b => if (RequestBodyLimit o >? 0)%Z then inspectBody o b r tx else (None, r, tx)
      | None => (None, r, tx)
      end
  end.

(** *** Serving *)

Inductive Served := Next (r : Request) | Redirect (url : string) (status : Z) | Error (status : Z).

Definition StatusFound : Z := 302.
Definition StatusForbidden : Z := 403.

Definition handleInterruption (it : Interruption) : Served :=
  if String.eqb (it_Action it) "redirect" && negb (String.eqb (it_Data it) "")
  then Redirect (it_Data it) (if (it_Status it =? 0)%Z then StatusFound else it_Status it)
  else Error (if (it_Status it =? 0)%Z then StatusForbidden else it_Status it).

Definition toEvent (r : MatchedRule) : MatchEvent :=
  mkEvent (m_ID r) (m_Severity r) (m_Disruptive r) (m_URI r) (m_ClientIP r) (m_Message r).

(** The response, the match events and the transaction as it is logged. *)
Definition ServeHandler (inst : Instance_ FS C) (r : Request) : Served * list MatchEvent * option Tx :=
  match cur inst with
  | None => (Next r, [], None)
  | Some c =>
      let '(it, r', tx) := inspectRequest (opts inst) r (NewTransaction c) in
      let events := toEvent <$> MatchedRules tx in
      (match it with Some it => handleInterruption it | None => Next r' end, events,
       Some (ProcessLogging tx))
  end.
End coraza.

End Coraza.

Module CorazaLemmas.
Import Coraza.
Section coraza.
Context {FS C Tx : Type} {ops : CorazaOps FS C Tx}.

Lemma setBody_id r b : rBody r = Some b -> setBody b r = r.
Proof. destruct r; simpl. by intros ->. Qed.

Lemma copyN_rebuild limit b :
  let '(buf, rest, _) := copyN limit b in newBodyReadCloser buf rest = b.
Proof.
  destruct b as [u e]. unfold copyN, newBodyReadCloser. simpl.
  destruct (_ <=? _)%nat; simpl; [by rewrite str_take_drop|by rewrite str_app_nil_r].
Qed.

Lemma inspectRequest_request (o : Options FS) r (tx : Tx) :
  snd (fst (inspectRequest o r tx)) = r.
Proof.
  unfold inspectRequest. destruct (ProcessRequestHeaders _) as [[it|] tx']; [done|].
  destruct (rBody r) as [b|] eqn:Hb; [|done]. destruct (_ >? 0)%Z; [|done].
  unfold inspectBody. pose proof (copyN_rebuild (RequestBodyLimit o) b) as Hr.
  destruct (copyN _ b) as [[buf rest] err]. rewrite Hr, (setBody_id r b Hb).
  destruct err as [[]|]; simpl; try done;
    destruct (WriteRequestBody buf tx') as [[[it|] []] tx'']; simpl; try done;
    by destruct (ProcessRequestBody tx'').
Qed.

(** A body the inspection cannot tell from [b]: the first [limit] bytes are the same,
    and both go beyond them. *)
Definition sameWindow (limit : Z) (b b' : Body) : Prop :=
  Z.to_nat limit <= String.length (unread b) /\ Z.to_nat limit <= String.length (unread b') /\
  str_take (Z.to_nat limit) (unread b) = str_take (Z.to_nat limit) (unread b').

(** The client's address is not computed from the body. *)
Definition bodyBlind (o : Options FS) : Prop :=
  forall f b r, ClientIP o = Some f -> f (setBody b r) = f r.

Lemma connectionPhase_body (o : Options FS) b r (tx : Tx) :
  bodyBlind o -> connectionPhase o (setBody b r) tx = connectionPhase o r tx.
Proof.
  intros Hbl. unfold connectionPhase, clientIP. simpl.
  change (serverAddr (setBody b r)) with (serverAddr r).
  destruct (ClientIP o) as [f|] eqn:Hf; [|done]. by rewrite (Hbl f b r Hf).
Qed.

Lemma inspectRequest_window (o : Options FS) r (tx : Tx) b b' :
  bodyBlind o -> rBody r = Some b -> sameWindow (RequestBodyLimit o) b b' ->
  fst (fst (inspectRequest o (setBody b' r) tx)) = fst (fst (inspectRequest o r tx)) /\
  snd (inspectRequest o (setBody b' r) tx) = snd (inspectRequest o r tx).
Proof.
  intros Hbl Hb (H1%Nat.leb_le & H2%Nat.leb_le & H3). unfold inspectRequest.
  rewrite connectionPhase_body, Hb by done. change (rBody (setBody b' r)) with (Some b').
  destruct (ProcessRequestHeaders _) as [[it|] tx']; [done|]. destruct (_ >? 0)%Z; [|done].
  unfold inspectBody, copyN. rewrite H1, H2, H3.
  destruct (WriteRequestBody _ tx') as [[[it|] []] tx'']; try done;
    by destruct (ProcessRequestBody tx'').
Qed.

Lemma ServeHandler_next (inst : Instance_ FS C) r r1 events tx :
  ServeHandler inst r = (Next r1, events, tx) -> r1 = r.
Proof.
  unfold ServeHandler. destruct (cur inst) as [c|]; [|by intros [= <- _ _]].
  pose proof (inspectRequest_request (opts inst) r (NewTransaction c)) as Hr.
  destruct (inspectRequest _ r _) as [[it r'] tx1]. simpl in Hr. subst r'.
  destruct it as [it|]; [|by intros [= <- _ _]].
  unfold handleInterruption. by destruct (_ && _).
Qed.

End coraza.

(** A toy engine whose transaction records what it was fed, and which blocks on a
    body containing an exclamation mark. *)
#[export] Instance toyOps : CorazaOps string string (string * string) := {
  NewWAF c := if mem_char "?"%char (WithDirectives c) then None else Some (WithDirectives c);
  NewTransaction c := (c, "");
  ProcessConnection ip _ _ _ tx := (fst tx, snd tx +:+ ip);
  ProcessURI _ _ _ tx := tx;
  AddRequestHeader k v tx := (fst tx, snd tx +:+ k +:+ v);
  SetServerName _ tx := tx;
  ProcessRequestHeaders tx := (None, tx);
  WriteRequestBody body tx :=
    (if mem_char "!"%char body then Some (mkIt "deny" 0 "") else None, false, (fst tx, snd tx +:+ body));
  ProcessRequestBody tx := (None, tx);
  MatchedRules tx := [];
  ProcessLogging tx := tx;
}.

End CorazaLemmas.

Module CorazaProps.
Import Coraza CorazaLemmas.

Section coraza.
Context {FS C Tx : Type} {ops : CorazaOps FS C Tx}.

(** C39: inspecting a request never takes bytes from the upstream and never looks past
    the limit. (1) A request that is not blocked reaches the upstream as it came, and
    when it has a body the upstream reads all of it, in order and ending the same
    way: the bytes the inspection buffered and then the rest, whether the ruleset is
    empty, the body is longer than the limit, shorter than it, or reading it failed.
    (2) Two requests that differ only in their bodies beyond the first
    [RequestBodyLimit] bytes get the same verdict, the same match events and leave
    the same transaction. *)
Theorem inspection_transparent_bounded (inst : Instance_ FS C) r :
  (forall r1 events tx, ServeHandler inst r = (Next r1, events, tx) -> r1 = r) /\
  (forall b b', bodyBlind (opts inst) -> rBody r = Some b -> sameWindow (RequestBodyLimit (opts inst)) b b' ->
    let '(out, events, tx) := ServeHandler inst r in
    let '(out', events', tx') := ServeHandler inst (setBody b' r) in
    events' = events /\ tx' = tx /\
    match out with
    | Next _ => out' = Next (setBody b' r)
    | blocked => out' = blocked
    end).
Proof.
  split; [apply ServeHandler_next|]. intros b b' Hbl Hb Hw. unfold ServeHandler. destruct (cur inst) as [c|]; [|done].
  pose proof (inspectRequest_request (opts inst) r (NewTransaction c)) as Hr.
  pose proof (inspectRequest_request (opts inst) (setBody b' r) (NewTransaction c)) as Hr'.
  pose proof (inspectRequest_window (opts inst) r (NewTransaction c) b b' Hbl Hb Hw) as [Hi Ht].
  destruct (inspectRequest _ r _) as [[it r1] tx1], (inspectRequest _ (setBody b' r) _) as [[it' r2] tx2].
  simpl in *. subst. split; [done|]. split; [done|].
  destruct it as [it|]; [|done]. unfold handleInterruption. by destruct (_ && _).
Qed.

End coraza.

Definition demoInstance : Instance_ string string := mkInstance (mkOptions None 4 None) (Some "rules").
Definition demoRequest : Request :=
  mkRequest "POST" "/" "HTTP/1.1" "a.example" [("X-A", ["1"])] "10.0.0.1:99" NoAddr
    (Some (mkBody "good, bad!" ReadError)).

(** A body cut off by a read error before the limit, and a short one. *)
Definition brokenRequest : Request := setBody (mkBody "ab" ReadError) demoRequest.
Definition shortRequest : Request := setBody (mkBody "ab" EOF) demoRequest.

Lemma inspection_transparent_bounded_witness :
  rBody brokenRequest = Some (mkBody "ab" ReadError) /\
  (exists events tx, ServeHandler demoInstance brokenRequest = (Next brokenRequest, events, tx)) /\
  (exists events tx, ServeHandler demoInstance shortRequest = (Next shortRequest, events, tx)) /\
  (forall r1 events tx, ServeHandler demoInstance brokenRequest = (Next r1, events, tx) ->
    r1 = brokenRequest) /\
  let '(out, events, tx) := ServeHandler demoInstance demoRequest in
  let '(out', events', tx') :=
    ServeHandler demoInstance (setBody (mkBody "good" EOF) demoRequest) in
  events' = events /\ tx' = tx /\
  match out with
  | Next _ => out' = Next (setBody (mkBody "good" EOF) demoRequest)
  | blocked => out' = blocked
  end.
Proof.
  split; [done|]. split; [by do 2 eexists|]. split; [by do 2 eexists|]. split.
  - apply (inspection_transparent_bounded demoInstance brokenRequest).
  - destruct (inspection_transparent_bounded demoInstance demoRequest) as [_ Hw].
    apply (Hw (mkBody "good, bad!" ReadError)); [done|done|].
    split; [vm_compute; lia|]. split; [vm_compute; lia|done].
Defined.

End CorazaProps.
