(* ===== verification/Reload.v ===== *)
(** * Hot reload of ConfigMap-driven features

    Models [src/controller_waf.go], [src/controller_ratelimit.go],
    [src/controller_coraza.go] and [src/controller_transform.go] (how the labelled
    ConfigMaps become a global instance and a registry of zones),
    [src/featurelabel.go] and [src/wafrule/wafrule.go].

    The WAF, the rate limiter and Coraza share one shape: an instance that is
    mutated in place by a load that either takes the whole input or changes
    nothing ([Engine]).  Instances are pointers, shared between the registry in
    force and the one being built, so the heap is explicit.  The transform layer
    swaps immutable zones instead.  The body of each pass runs under its mutex. *)

From S2P Require Import Prelude GoString GoURL RateLimit TransformRule Coraza.

Set Default Proof Using "Type".

Record ConfigMap := mkCM {
  cm_Namespace : string;
  cm_Name : string;
  Labels : gmap string string;
  Data : gmap string string;
}.

(** An instance that loads documents; [false] is an error. *)
Class Engine (I : Type) := {
  freshGlobal : I;
  freshZone : string -> I;
  load : list string -> I -> I * bool;
}.

(** What the reloads rely on: a load's effect on what the instance serves ([obs])
    depends on the documents alone, and a failed load changes nothing. *)
Class EngineLaws (I O : Type) `{!Engine I} := {
  obs : I -> O;
  compile : list string -> option O;
  obs0 : O;
  usable : I -> Prop;
  freshGlobal_ok : usable freshGlobal /\ obs freshGlobal = obs0;
  freshZone_ok k : usable (freshZone k) /\ obs (freshZone k) = obs0;
  load_spec docs i :
    usable i ->
    match compile docs with
    | None => load docs i = (i, false)
    | Some o => snd (load docs i) = true /\ obs (fst (load docs i)) = o /\ usable (fst (load docs i))
    end;
}.

(** SHA-256, as far as the fingerprints need it. *)
Class HashOps := { Sum256 : string -> string }.
Class HashLaws `{!HashOps} : Prop := {
  Sum256_inj s t : Sum256 s = Sum256 t -> s = t;
  Sum256_nonempty s : Sum256 s <> "";
}.

Module Reload.

(** ** Labels and roles *)

Definition wafLabelKey : string := "parapet.moonrhythm.io/waf".
Definition rateLimitLabelKey : string := "parapet.moonrhythm.io/ratelimit".
Definition corazaLabelKey : string := "parapet.moonrhythm.io/coraza".
Definition transformLabelKey : string := "parapet.moonrhythm.io/transform".
Definition roleGlobal : string := "global".
Definition roleZone : string := "zone".

Definition featureLabelKeys : list string :=
  [wafLabelKey; rateLimitLabelKey; corazaLabelKey; transformLabelKey].

Fixpoint otherFeatureLabel (keys : list string) (cm : ConfigMap) (self : string) : option string :=
  match keys with
  | [] => None
  | k :: keys =>
      if String.eqb k self then otherFeatureLabel keys cm self
      else match Labels cm !! k with
           | Some _ => Some k
           | None => otherFeatureLabel keys cm self
           end
  end.

Definition carriesOtherFeatureLabel (cm : ConfigMap) (self : string) : option string :=
  otherFeatureLabel featureLabelKeys cm self.

(** The values of a ConfigMap in the order of their keys. *)
Definition sortedDataValues (data : gmap string string) : list string :=
  (fun k => default "" (data !! k)) <$> merge_sort str_le (map_to_list data).*1.

Definition zoneKey (cm : ConfigMap) : string := cm_Namespace cm +:+ "/" +:+ cm_Name cm.

(** *** Gathering

    What a pass collects while it ranges over the stored ConfigMaps. *)

Record gathered := mkGathered {
  globalCMs : list ConfigMap;
  zoneDocs : gmap string (list string);
}.

(** One visit of the [Range]. *)
Definition visit (label podNamespace : string) (g : gathered) (cm : ConfigMap) : gathered :=
  let role := default "" (Labels cm !! label) in
  if negb (String.eqb role roleGlobal || String.eqb role roleZone) then g
  else match carriesOtherFeatureLabel cm label with
       | Some _ => g
       | None =>
           if String.eqb role roleGlobal then
             if negb (String.eqb (cm_Namespace cm) podNamespace) then g
             else mkGathered (globalCMs g ++ [cm]) (zoneDocs g)
           else
             mkGathered (globalCMs g)
               (<[zoneKey cm := default [] (zoneDocs g !! zoneKey cm) ++ sortedDataValues (Data cm)]>
                  (zoneDocs g))
       end.

Definition gather (label podNamespace : string) (cms : list ConfigMap) : gathered :=
  fold_left (visit label podNamespace) cms (mkGathered [] ∅).

(** [sort.Slice] by namespace, then name. *)
Definition cmLe (a b : ConfigMap) : Prop :=
  if String.eqb (cm_Namespace a) (cm_Namespace b) then str_le (cm_Name a) (cm_Name b)
  else str_le (cm_Namespace a) (cm_Namespace b).

#[export] Instance cmLe_dec a b : Decision (cmLe a b).
Proof. unfold cmLe. destruct (String.eqb _ _); apply _. Defined.

Definition globalDocs (g : gathered) : list string :=
  List.concat ((fun cm => sortedDataValues (Data cm)) <$> merge_sort cmLe (globalCMs g)).

(** *** Fingerprints *)

(** [binary.LittleEndian.PutUint64]. *)
Fixpoint putUint (bytes : nat) (n : Z) : string :=
  match bytes with
  | O => ""
  | S k => String (ascii_of_nat (Z.to_nat (n mod 256))) (putUint k (n / 256))
  end.

Definition framedDoc (d : string) : string := putUint 8 (Z.of_nat (String.length d)) +:+ d.

Fixpoint framedDocs (docs : list string) : string :=
  match docs with [] => "" | d :: docs => framedDoc d +:+ framedDocs docs end.

Definition fingerprintDocs `{!HashOps} (docs : list string) : string := Sum256 (framedDocs docs).

(** ** The passes over an [Engine] *)

Section engine.
Context {I : Type} `{!Engine I} `{!HashOps}.

Record state := mkState {
  instances : gmap nat I;
  nextInstance : nat;
  global : nat;
  globalFingerprint : string;
  zones : gmap string nat;
  zoneFingerprints : gmap string string;
}.

Definition setInstance (l : nat) (i : I) (s : state) : state :=
  mkState (<[l := i]> (instances s)) (nextInstance s) (global s) (globalFingerprint s) (zones s)
    (zoneFingerprints s).

(** [Init]: the global instance and an empty registry. *)
Definition init : state :=
  mkState {[ 0 := freshGlobal ]} 1 0 "" ∅ ∅.

Definition Lookup (s : state) (key : string) : option I :=
  l ← zones s !! key; instances s !! l.

(** [SetRules], [SetLimits] or [SetDirectives] on the instance a pointer names. *)
Definition loadAt (l : nat) (docs : list string) (s : state) : state * bool :=
  match instances s !! l with
  | None => (s, false)
  | Some i => let '(i', ok) := load docs i in (setInstance l i' s, ok)
  end.

Definition reloadGlobal (docs : list string) (s : state) : state :=
  let fp := fingerprintDocs docs in
  if String.eqb fp (globalFingerprint s) then s
  else
    let '(s', ok) := loadAt (global s) docs s in
    if ok then mkState (instances s') (nextInstance s') (global s') fp (zones s') (zoneFingerprints s')
    else s'.

(** The registry being built. *)
Record build := mkBuild {
  b_state : state;
  newZones : gmap string nat;
  newFingerprints : gmap string string;
}.

Definition allocate (key : string) (s : state) : state * nat :=
  (mkState (<[nextInstance s := freshZone key]> (instances s)) (S (nextInstance s)) (global s)
     (globalFingerprint s) (zones s) (zoneFingerprints s), nextInstance s).

(** One iteration of the loop over the zones. *)
Definition reloadZone (b : build) (kd : string * list string) : build :=
  let '(key, docs) := kd in
  let s := b_state b in
  let fp := fingerprintDocs docs in
  let old := default "" (zoneFingerprints s !! key) in
  match zones s !! key with
  | Some l =>
      if String.eqb fp old
      then mkBuild s (<[key := l]> (newZones b)) (<[key := fp]> (newFingerprints b))
      else
        let '(s', ok) := loadAt l docs s in
        mkBuild s' (<[key := l]> (newZones b))
          (<[key := if ok then fp else old]> (newFingerprints b))
  | None =>
      let '(s1, l) := allocate key s in
      let '(s', ok) := loadAt l docs s1 in
      mkBuild s' (<[key := l]> (newZones b))
        (<[key := if ok then fp else old]> (newFingerprints b))
  end.

Definition reloadZones (zds : list (string * list string)) (s : state) : state :=
  let b := fold_left reloadZone zds (mkBuild s ∅ ∅) in
  mkState (instances (b_state b)) (nextInstance (b_state b)) (global (b_state b))
    (globalFingerprint (b_state b)) (newZones b) (newFingerprints b).

(** A pass: [cms] in the order of the [Range], [zds] the gathered zones in the order
    the map is ranged over. *)
Definition reload (label podNamespace : string) (cms : list ConfigMap)
    (zds : list (string * list string)) (s : state) : state :=
  reloadZones zds (reloadGlobal (globalDocs (gather label podNamespace cms)) s).

End engine.
Arguments state : clear implicits.

(** ** The WAF engine *)

Module WAF.

Inductive Action := ActionLog | ActionAllow | ActionBlock.

Record Rule := mkRule {
  ID : string;
  Description : string;
  Expression : string;
  action : string;
  Status : Z;
  Message : string;
  Priority : Z;
}.

(** parapet's [waf.Rule]. *)
Record CompiledRule := mkWafRule {
  w_ID : string;
  w_Description : string;
  w_Expression : string;
  w_Action : Action;
  w_Status : Z;
  w_Message : string;
  w_Priority : Z;
}.

Definition ParseAction (s : string) : option Action :=
  let s := to_lower (trim_space s) in
  if String.eqb s "" || String.eqb s "log" then Some ActionLog
  else if String.eqb s "allow" then Some ActionAllow
  else if String.eqb s "block" then Some ActionBlock
  else None.

Inductive parseError := EYAML | ENoRules | EAction (i : nat) (id : string).

Section waf.
Context {W : Type}.
(** YAML, and parapet's WAF: a new one, its all-or-nothing [SetRules], its rules. *)
Context (unmarshal : string -> option (list Rule)).
Context (newWAF : string -> W) (SetRules : list CompiledRule -> W -> option W).

(** The loop over a document's rules. *)
Fixpoint convertRules (i : nat) (rs : list Rule) : list CompiledRule * list parseError :=
  match rs with
  | [] => ([], [])
  | r :: rs =>
      let '(out, errs) := convertRules (S i) rs in
      match ParseAction (action r) with
      | None => (out, EAction i (ID r) :: errs)
      | Some a => (mkWafRule (ID r) (Description r) (Expression r) a (Status r) (Message r) (Priority r)
                     :: out, errs)
      end
  end.

Fixpoint Parse (docs : list string) : list CompiledRule * list parseError :=
  match docs with
  | [] => ([], [])
  | doc :: docs =>
      let '(out, errs) := Parse docs in
      if String.eqb (trim_space doc) "" then (out, errs)
      else match unmarshal doc with
           | None => (out, EYAML :: errs)
           | Some [] => (out, ENoRules :: errs)
           | Some rs => let '(o, e) := convertRules 0 rs in (o ++ out, e ++ errs)
           end
  end.

(** [wafrule.Parse] followed by [SetRules]. *)
Definition loadWAF (docs : list string) (w : W) : W * bool :=
  match Parse docs with
  | (rules, []) => match SetRules rules w with Some w' => (w', true) | None => (w, false) end
  | (_, _ :: _) => (w, false)
  end.

Definition wafEngine : Engine W := {| freshGlobal := newWAF roleGlobal; freshZone _ := newWAF roleZone; load := loadWAF |}.

Definition reloadWAFDebounced `{!HashOps} (enabled : bool) (podNamespace : string)
    (cms : list ConfigMap) (zds : list (string * list string)) (s : state W) : state W :=
  if negb enabled then s
  else @reload W wafEngine _ wafLabelKey podNamespace cms zds s.

End waf.
End WAF.

(** ** The rate-limit engine *)

Section ratelimit.
Context {Predicate FixedState : Type}.
Context (NewPredicate : Z -> bool -> string -> option Predicate).
Context (unmarshal : string -> option (list RateLimit.Limit)).
Context (ParsePrefix : string -> option RateLimit.Prefix) (fixedNew : FixedState).
(** The [RateLimitConfig], and the hosts the controller knows. *)
Context (KnownHost : string -> bool) (Country : option (RateLimit.Request -> string))
  (ASN : option (RateLimit.Request -> Z)) (FilterCostLimit : Z) (FilterDisableMacros : bool).

Definition newRateLimiter (namePrefix : string) : @RateLimit.Limiter Predicate FixedState :=
  RateLimit.mkLimiter None ∅ 0 namePrefix true (Some KnownHost) Country ASN FilterCostLimit
    FilterDisableMacros.

(** [ratelimitrule.Parse] followed by [SetLimits]. *)
Definition loadLimits (docs : list string) (l : @RateLimit.Limiter Predicate FixedState) :
    @RateLimit.Limiter Predicate FixedState * bool :=
  match RateLimit.Parse unmarshal docs with
  | (limits, O) =>
      match RateLimit.SetLimits NewPredicate ParsePrefix fixedNew limits l with
      | ([], l') => (l', true)
      | (_ :: _, l') => (l', false)
      end
  | (_, S _) => (l, false)
  end.

Definition rateLimitEngine : Engine (@RateLimit.Limiter Predicate FixedState) :=
  {| freshGlobal := newRateLimiter "global"; freshZone key := newRateLimiter ("zone:" +:+ key);
     load := loadLimits |}.

Definition reloadRateLimitDebounced `{!HashOps} (enabled : bool) (podNamespace : string)
    (cms : list ConfigMap) (zds : list (string * list string)) s :=
  if negb enabled then s
  else @reload _ rateLimitEngine _ rateLimitLabelKey podNamespace cms zds s.
End ratelimit.

(** ** The Coraza engine *)

Section coraza.
Context {FS C Tx : Type} `{!CorazaOps FS C Tx}.
(** The [CorazaConfig]. *)
Context (RootFS : option FS) (RequestBodyLimit : Z) (ClientIP : option (Coraza.Request -> string)).

(** The scope only labels metrics and logs. *)
Definition newCoraza (scope : string) : Coraza.Instance_ FS C :=
  Coraza.New (Coraza.mkOptions RootFS RequestBodyLimit ClientIP).

Definition corazaEngine : Engine (Coraza.Instance_ FS C) :=
  {| freshGlobal := newCoraza roleGlobal; freshZone _ := newCoraza roleZone;
     load := Coraza.SetDirectives |}.

Definition reloadCorazaDebounced `{!HashOps} (enabled : bool) (podNamespace : string)
    (cms : list ConfigMap) (zds : list (string * list string)) s :=
  if negb enabled then s
  else @reload _ corazaEngine _ corazaLabelKey podNamespace cms zds s.
End coraza.

(** ** The transform layer *)

Section transform.
Context {Zone : Type} `{!HashOps}.
(** [transformrule.Parse] under the controller's options. *)
Context (ParseZone : list string -> option Zone).

Record tstate := mkTState {
  globalTransform : option Zone;
  globalTransformFingerprint : string;
  transformZones : gmap string Zone;
  transformZoneFingerprints : gmap string string;
}.

Definition InitTransform : tstate := mkTState None "" ∅ ∅.

Definition reloadGlobalTransform (docs : list string) (s : tstate) : tstate :=
  let fp := fingerprintDocs docs in
  if String.eqb fp (globalTransformFingerprint s) then s
  else match docs with
       | [] => mkTState None fp (transformZones s) (transformZoneFingerprints s)
       | _ => match ParseZone docs with
              | None => s
              | Some z => mkTState (Some z) fp (transformZones s) (transformZoneFingerprints s)
              end
       end.

(** What a zone becomes: [None] when it is dropped. *)
Definition reloadTransformZone (s : tstate) (key : string) (docs : list string) :
    option (Zone * string) :=
  let fp := fingerprintDocs docs in
  let old := default "" (transformZoneFingerprints s !! key) in
  match transformZones s !! key with
  | Some existing =>
      if String.eqb fp old then Some (existing, fp)
      else match ParseZone docs with
           | None => Some (existing, old)
           | Some z => Some (z, fp)
           end
  | None =>
      match ParseZone docs with None => None | Some z => Some (z, fp) end
  end.

(** The global ConfigMaps are all of one namespace: they are ordered by name. *)
Definition nameLe (a b : ConfigMap) : Prop := str_le (cm_Name a) (cm_Name b).

Definition transformGlobalDocs (g : gathered) : list string :=
  List.concat ((fun cm => sortedDataValues (Data cm)) <$> merge_sort nameLe (globalCMs g)).

(** The loop over the zones only reads the registry in force. *)
Definition reloadTransformZones (zds : gmap string (list string)) (s : tstate) : tstate :=
  let new := map_imap (reloadTransformZone s) zds in
  mkTState (globalTransform s) (globalTransformFingerprint s) (fst <$> new) (snd <$> new).

Definition reloadTransformDebounced (enabled : bool) (podNamespace : string) (cms : list ConfigMap)
    (s : tstate) : tstate :=
  if negb enabled then s
  else
    let g := gather transformLabelKey podNamespace cms in
    reloadTransformZones (zoneDocs g) (reloadGlobalTransform (transformGlobalDocs g) s).
End transform.

(** The controller's [ParseZone]. *)
Definition parseTransform {Predicate Input Regexp : Type} `{!TransformOps Predicate Input Regexp}
    (opts : TransformRule.Options) (docs : list string) : option (TransformRule.Zone Predicate Regexp) :=
  match TransformRule.Parse opts docs with Ok z => Some z | Err _ => None end.

End Reload.

(** ** Lemmas *)

Module ReloadLemmas.
Import Reload.

(** *** Fingerprints are injective on their documents *)

Lemma putUint_length k n : String.length (putUint k n) = k.
Proof. revert n. induction k as [|k IH]; intros n; simpl; [done|]. by rewrite IH. Qed.

Lemma putUint_inj k n m :
  (0 <= n < 256 ^ Z.of_nat k)%Z -> (0 <= m < 256 ^ Z.of_nat k)%Z -> putUint k n = putUint k m -> n = m.
Proof.
  revert n m. induction k as [|k IH]; intros n m Hn Hm; [simpl in *; lia|].
  rewrite Nat2Z.inj_succ, Z.pow_succ_r in Hn, Hm by lia. cbn [putUint]. intros [= Hb Hr].
  apply IH in Hr; [|split; [apply Z.div_pos; lia|apply Z.div_lt_upper_bound; lia]..].
  apply (f_equal nat_of_ascii) in Hb.
  pose proof (Z.mod_pos_bound n 256 ltac:(lia)). pose proof (Z.mod_pos_bound m 256 ltac:(lia)).
  rewrite !nat_ascii_embedding in Hb by lia.
  rewrite (Z.div_mod n 256), (Z.div_mod m 256) by lia. lia.
Qed.

Lemma str_app_length_inj (a b s t : string) :
  String.length a = String.length b -> a +:+ s = b +:+ t -> a = b /\ s = t.
Proof.
  revert b. induction a as [|x a IH]; intros [|y b]; simpl; try done.
  intros [= Hl] [= -> H]. by destruct (IH _ Hl H) as [-> ->].
Qed.

Definition shortDoc (d : string) : Prop := (Z.of_nat (String.length d) < 2 ^ 64)%Z.

Lemma framedDocs_inj ds ds' :
  Forall shortDoc ds -> Forall shortDoc ds' -> framedDocs ds = framedDocs ds' -> ds = ds'.
Proof.
  intros Hd. revert ds'. induction Hd as [|d ds Hd _ IH]; intros ds' Hd'.
  { destruct Hd'; [done|]. by intros He%(f_equal String.length). }
  destruct Hd' as [|d' ds' Hd' Hds']; [by intros He%(f_equal String.length)|].
  cbn [framedDocs]. unfold framedDoc. rewrite !str_app_assoc. intros He.
  apply str_app_length_inj in He as [Hn He]; [|by rewrite !putUint_length].
  apply putUint_inj in Hn; [|unfold shortDoc in *; change (256 ^ Z.of_nat 8)%Z with (2 ^ 64)%Z; lia..].
  apply str_app_length_inj in He as [-> He]; [|lia]. f_equal. by apply IH.
Qed.

Lemma fingerprint_inj {HO : HashOps} {HL : HashLaws} ds ds' :
  Forall shortDoc ds -> Forall shortDoc ds' -> fingerprintDocs ds = fingerprintDocs ds' -> ds = ds'.
Proof. intros H1 H2 H. apply Sum256_inj in H. by apply framedDocs_inj. Qed.

(** *** What a pass gathers *)

Definition roleOf (label : string) (cm : ConfigMap) : string := default "" (Labels cm !! label).

Definition isGlobal (label pod : string) (cm : ConfigMap) : bool :=
  String.eqb (roleOf label cm) roleGlobal && String.eqb (cm_Namespace cm) pod &&
  match carriesOtherFeatureLabel cm label with None => true | Some _ => false end.

Definition isZone (label : string) (cm : ConfigMap) : bool :=
  String.eqb (roleOf label cm) roleZone &&
  match carriesOtherFeatureLabel cm label with None => true | Some _ => false end.

Lemma visit_spec label pod g cm :
  visit label pod g cm =
  if isGlobal label pod cm then mkGathered (globalCMs g ++ [cm]) (zoneDocs g)
  else if isZone label cm then
    mkGathered (globalCMs g)
      (<[zoneKey cm := default [] (zoneDocs g !! zoneKey cm) ++ sortedDataValues (Data cm)]> (zoneDocs g))
  else g.
Proof.
  unfold visit, isGlobal, isZone. fold (roleOf label cm).
  destruct (String.eqb_spec (roleOf label cm) roleGlobal) as [->|Hg].
  - simpl. destruct (carriesOtherFeatureLabel cm label); [by rewrite andb_false_r|].
    rewrite andb_true_r. by destruct (String.eqb _ pod).
  - simpl. destruct (String.eqb (roleOf label cm) roleZone); [|done]. simpl.
    by destruct (carriesOtherFeatureLabel cm label).
Qed.

Lemma gather_globalCMs label pod cms g :
  globalCMs (fold_left (visit label pod) cms g) =
  globalCMs g ++ List.filter (isGlobal label pod) cms.
Proof.
  revert g. induction cms as [|cm cms IH]; intros g; simpl; [by rewrite app_nil_r|].
  rewrite IH, visit_spec. destruct (isGlobal label pod cm); simpl; [by rewrite <- app_assoc|].
  by destruct (isZone label cm).
Qed.

Lemma isGlobal_isZone label pod cm : isGlobal label pod cm = true -> isZone label cm = false.
Proof.
  unfold isGlobal, isZone. destruct (String.eqb_spec (roleOf label cm) roleGlobal) as [->|]; done.
Qed.

Lemma gather_zoneDocs label pod cms g key :
  NoDup (zoneKey <$> cms) -> (forall cm, cm ∈ cms -> zoneDocs g !! zoneKey cm = None) ->
  zoneDocs (fold_left (visit label pod) cms g) !! key =
  match List.find (fun cm => isZone label cm && String.eqb (zoneKey cm) key) cms with
  | Some cm => Some (sortedDataValues (Data cm))
  | None => zoneDocs g !! key
  end.
Proof.
  revert g. induction cms as [|cm cms IH]; intros g Hnd Hfresh; [done|].
  rewrite fmap_cons in Hnd. apply NoDup_cons in Hnd as [Hk Hnd]. cbn [fold_left List.find].
  assert (Hnone : List.find (fun c => isZone label c && String.eqb (zoneKey c) (zoneKey cm)) cms = None).
  { apply find_none_forall, Forall_forall. intros c Hc. apply andb_false_iff. right.
    apply String.eqb_neq. intros He. apply Hk. rewrite <- He. by apply list_elem_of_fmap_2. }
  rewrite IH; [|done|].
  - rewrite visit_spec. destruct (isGlobal label pod cm) eqn:Hg.
    + rewrite (isGlobal_isZone _ _ _ Hg). done.
    + destruct (isZone label cm) eqn:Hz; simpl; [|done].
      destruct (String.eqb_spec (zoneKey cm) key) as [<-|Hne].
      * by rewrite Hnone, lookup_insert_eq, (Hfresh cm) by (by left).
      * by rewrite lookup_insert_ne by done.
  - intros c Hc. rewrite visit_spec.
    assert (zoneKey cm <> zoneKey c) by (intros He; apply Hk; rewrite He; by apply list_elem_of_fmap_2).
    destruct (isGlobal label pod cm); simpl; [apply Hfresh; by right|].
    destruct (isZone label cm); simpl; [rewrite lookup_insert_ne by done|]; apply Hfresh; by right.
Qed.

Lemma find_unique_perm {A} (f : A -> bool) (l l' : list A) :
  l ≡ₚ l' -> (forall x y, x ∈ l -> y ∈ l -> f x = true -> f y = true -> x = y) ->
  List.find f l = List.find f l'.
Proof.
  intros Hp Hu. destruct (List.find f l) as [x|] eqn:Hx.
  - apply List.find_some in Hx as [Hx Hf]. apply list_elem_of_In in Hx.
    destruct (List.find f l') as [y|] eqn:Hy.
    + apply List.find_some in Hy as [Hy Hf']. apply list_elem_of_In in Hy. rewrite <- Hp in Hy.
      f_equal. by apply Hu.
    + apply find_none_forall in Hy. rewrite Forall_forall in Hy. rewrite Hp in Hx.
      by rewrite (Hy x Hx) in Hf.
  - symmetry. apply find_none_forall. apply find_none_forall in Hx. by rewrite <- Hp.
Qed.

#[local] Instance cmLe_total : Total cmLe.
Proof.
  intros a b. unfold cmLe. rewrite (String.eqb_sym (cm_Namespace b)).
  destruct (String.eqb _ _); apply str_le_total.
Qed.

#[local] Instance cmLe_trans : Transitive cmLe.
Proof.
  intros a b c. unfold cmLe.
  destruct (String.eqb_spec (cm_Namespace a) (cm_Namespace b)) as [Hab|Hab];
  destruct (String.eqb_spec (cm_Namespace b) (cm_Namespace c)) as [Hbc|Hbc];
  destruct (String.eqb_spec (cm_Namespace a) (cm_Namespace c)) as [Hac|Hac];
    intros H1 H2; try congruence; try (by eapply str_le_trans).
  rewrite <- Hac in H2. by destruct Hab; apply str_le_antisym.
Qed.

(** Distinct ConfigMaps of one namespace are ordered one way. *)
Lemma cmLe_antisym a b :
  cmLe a b -> cmLe b a -> cm_Namespace a = cm_Namespace b /\ cm_Name a = cm_Name b.
Proof.
  unfold cmLe. rewrite (String.eqb_sym (cm_Namespace b)).
  destruct (String.eqb_spec (cm_Namespace a) (cm_Namespace b)) as [He|Hne]; intros H1 H2.
  - split; [done|]. by apply str_le_antisym.
  - by destruct Hne; apply str_le_antisym.
Qed.

Lemma zoneKey_NoDup_inj cms a b :
  NoDup (zoneKey <$> cms) -> a ∈ cms -> b ∈ cms ->
  cm_Namespace a = cm_Namespace b -> cm_Name a = cm_Name b -> a = b.
Proof.
  intros Hnd Ha Hb H1 H2. eapply (NoDup_fmap_inj zoneKey); eauto.
  unfold zoneKey. by rewrite H1, H2.
Qed.

(** *** The order of the [Range] does not matter *)

Lemma gather_perm label pod cms cms' :
  cms ≡ₚ cms' -> NoDup (zoneKey <$> cms) ->
  globalDocs (gather label pod cms) = globalDocs (gather label pod cms') /\
  zoneDocs (gather label pod cms) = zoneDocs (gather label pod cms').
Proof.
  intros Hp Hnd. assert (Hnd' : NoDup (zoneKey <$> cms')) by (by rewrite <- Hp). split.
  - unfold globalDocs, gather. rewrite !gather_globalCMs. simpl. do 2 f_equal.
    set (l := List.filter (isGlobal label pod) cms). set (l' := List.filter (isGlobal label pod) cms').
    assert (Hll : l ≡ₚ l').
    { subst l l'. clear Hnd Hnd'. induction Hp; simpl; repeat case_match; eauto using perm_skip, perm_swap, perm_trans. }
    assert (Hin : forall x, x ∈ l -> x ∈ cms).
    { intros x Hx. apply list_elem_of_In, List.filter_In in Hx as [Hx _]. by apply list_elem_of_In. }
    apply (StronglySorted_unique_strong cmLe).
    + intros x y Hx Hy H1 H2. rewrite merge_sort_Permutation in Hx. rewrite merge_sort_Permutation, <- Hll in Hy.
      destruct (cmLe_antisym _ _ H1 H2). eapply (zoneKey_NoDup_inj cms); eauto.
    + apply StronglySorted_merge_sort; apply _.
    + apply StronglySorted_merge_sort; apply _.
    + by rewrite !merge_sort_Permutation.
  - apply map_eq. intros key. unfold gather. rewrite !gather_zoneDocs; try done;
      [|intros; apply lookup_empty..].
    rewrite (find_unique_perm _ _ _ Hp); [done|].
    intros x y Hx Hy Hfx Hfy. apply andb_prop in Hfx as [_ Hfx], Hfy as [_ Hfy].
    apply String.eqb_eq in Hfx, Hfy. apply (NoDup_fmap_inj zoneKey cms); congruence.
Qed.

(** *** The abstract registry: the last good documents

    For the global instance and for each zone, the documents last accepted, if any
    were. *)

Record aState := mkAState {
  a_global : option (list string);
  a_zones : gmap string (option (list string));
}.

Section engine.
Context {I O : Type} {eng : Engine I} {laws : EngineLaws I O} {HO : HashOps} {HL : HashLaws}.

Definition accepted (docs : list string) : bool :=
  match compile docs with Some _ => true | None => false end.

Definition lastGood (docs : list string) (old : option (list string)) : option (list string) :=
  if accepted docs then Some docs else old.

Definition aReload (gdocs : list string) (zds : gmap string (list string)) (a : aState) : aState :=
  mkAState (lastGood gdocs (a_global a))
    (map_imap (fun key docs => Some (lastGood docs (default None (a_zones a !! key)))) zds).

(** What an instance serves when [d] was the last good input. *)
Definition served (d : option (list string)) : O :=
  match d with Some docs => default obs0 (compile docs) | None => obs0 end.

Definition fpOf (d : option (list string)) : string :=
  match d with Some docs => fingerprintDocs docs | None => "" end.

Definition goodDocs (d : option (list string)) : Prop :=
  match d with Some docs => accepted docs = true /\ Forall shortDoc docs | None => True end.

Definition holds (s : state I) (l : nat) (d : option (list string)) : Prop :=
  goodDocs d /\ exists i, instances s !! l = Some i /\ usable i /\ obs i = served d.

Lemma goodDocs_lastGood docs d : Forall shortDoc docs -> goodDocs d -> goodDocs (lastGood docs d).
Proof. intros Hs Hd. unfold lastGood. by destruct (accepted docs) eqn:Ha. Qed.

(** An equal fingerprint means that the documents are already the ones served. *)
Lemma fp_skip docs d :
  Forall shortDoc docs -> goodDocs d -> fingerprintDocs docs = fpOf d -> lastGood docs d = d.
Proof using HL.
  intros Hs Hd Hfp. destruct d as [docs'|]; simpl in *.
  - destruct Hd as [Ha Hs']. apply fingerprint_inj in Hfp as ->; [|done..].
    unfold lastGood. by rewrite Ha.
  - by apply Sum256_nonempty in Hfp.
Qed.

Lemma loadAt_spec docs l d s :
  Forall shortDoc docs -> holds s l d ->
  let '(s', ok) := loadAt l docs s in
  ok = accepted docs /\ holds s' l (lastGood docs d) /\
  (forall l', l' <> l -> instances s' !! l' = instances s !! l') /\
  nextInstance s' = nextInstance s /\ global s' = global s /\
  globalFingerprint s' = globalFingerprint s /\ zones s' = zones s /\
  zoneFingerprints s' = zoneFingerprints s.
Proof.
  intros Hs [Hg (i & Hi & Hu & Ho)]. unfold loadAt. rewrite Hi.
  pose proof (load_spec docs i Hu) as Hl. destruct (load docs i) as [i' ok] eqn:Hld.
  assert (Hgood : goodDocs (lastGood docs d)) by (by apply goodDocs_lastGood).
  split; [|split; [split; [done|]|]].
  - unfold accepted. destruct (compile docs); [by destruct Hl as (? & _)|congruence].
  - exists i'. simpl. rewrite lookup_insert_eq. split; [done|].
    unfold lastGood, accepted. destruct (compile docs) as [o|] eqn:Hc; simpl.
    + destruct Hl as (_ & <- & ?). by rewrite Hc.
    + injection Hl as -> _. done.
  - simpl. repeat split. intros l' Hne. by rewrite lookup_insert_ne.
Qed.

Lemma holds_frame s s' l d :
  instances s' !! l = instances s !! l -> holds s l d -> holds s' l d.
Proof. intros He [Hg (i & Hi & Hu)]. split; [done|]. exists i. by rewrite He. Qed.

(** [own] names the instance of each zone, [spec] what it last accepted, [fps] the
    fingerprints recorded. *)
Record Rep (own : gmap string nat) (spec : gmap string (option (list string)))
    (fps : gmap string string) (s : state I) : Prop := {
  rep_zone key l : own !! key = Some l ->
    exists d, spec !! key = Some d /\ holds s l d /\ fps !! key = Some (fpOf d) /\
              l < nextInstance s /\ l <> global s;
  rep_none key : own !! key = None -> spec !! key = None /\ fps !! key = None;
  rep_inj k1 k2 l : own !! k1 = Some l -> own !! k2 = Some l -> k1 = k2;
  rep_global : global s < nextInstance s;
}.

Definition RepState (s : state I) (a : aState) : Prop :=
  Rep (zones s) (a_zones a) (zoneFingerprints s) s /\
  holds s (global s) (a_global a) /\ globalFingerprint s = fpOf (a_global a).

(** Loading the documents of one zone that is already owned. *)
Lemma Rep_load own spec fps s s' key l docs d :
  Rep own spec fps s -> own !! key = Some l -> spec !! key = Some d ->
  holds s' l (lastGood docs d) ->
  (forall l', l' <> l -> instances s' !! l' = instances s !! l') ->
  nextInstance s' = nextInstance s -> global s' = global s ->
  Rep own (<[key := lastGood docs d]> spec) (<[key := fpOf (lastGood docs d)]> fps) s'.
Proof.
  intros [Hz Hn Hi Hg] Hk Hs Hh Hfr Hnx Hgl. constructor; try done; rewrite ?Hnx, ?Hgl; try done.
  - intros k' l' Hk'. destruct (Hz _ _ Hk') as (d' & Hd' & Hh' & Hf' & Hlt).
    destruct (decide (k' = key)) as [->|Hne].
    + assert (l' = l) as -> by congruence. exists (lastGood docs d). by rewrite !lookup_insert_eq.
    + exists d'. rewrite !lookup_insert_ne by done. split; [done|]. split; [|done].
      eapply holds_frame; [|exact Hh']. apply Hfr. intros ->. apply Hne. by eapply Hi.
  - intros k' Hk'. rewrite !lookup_insert_ne by congruence. by apply Hn.
Qed.

(** A fresh instance for a new zone. *)
Lemma Rep_allocate own spec fps s key :
  Rep own spec fps s -> own !! key = None ->
  let '(s', l) := allocate key s in
  Rep (<[key := l]> own) (<[key := None]> spec) (<[key := ""]> fps) s' /\
  holds s' l None /\ l = nextInstance s /\
  (forall l', l' <> l -> instances s' !! l' = instances s !! l').
Proof.
  intros [Hz Hn Hi Hg] Hk. simpl.
  assert (Hfr : forall l', l' <> nextInstance s ->
      <[nextInstance s := freshZone key]> (instances s) !! l' = instances s !! l').
  { intros l' Hne. by rewrite lookup_insert_ne. }
  assert (Hh : holds (mkState (<[nextInstance s := freshZone key]> (instances s)) (S (nextInstance s))
      (global s) (globalFingerprint s) (zones s) (zoneFingerprints s)) (nextInstance s) None).
  { split; [done|]. exists (freshZone key). simpl. rewrite lookup_insert_eq.
    split; [done|]. apply freshZone_ok. }
  split; [|done]. constructor; simpl.
  - intros k' l'. destruct (decide (k' = key)) as [->|Hne].
    + rewrite !lookup_insert_eq. intros [= <-]. exists None. split; [done|]. split; [exact Hh|]. split; [done|]. lia.
    + rewrite !lookup_insert_ne by done. intros Hk'. destruct (Hz _ _ Hk') as (d & Hd & Hh' & Hf & Hlt & Hgl).
      exists d. split; [done|]. split; [|split; [done|lia]].
      eapply holds_frame; [|exact Hh']. simpl. apply Hfr. lia.
  - intros k' [Hk' Hne]%lookup_insert_None. rewrite !lookup_insert_ne by done. by apply Hn.
  - intros k1 k2 l'. destruct (decide (k1 = key)) as [->|H1], (decide (k2 = key)) as [->|H2]; try done;
      rewrite ?lookup_insert_eq, ?lookup_insert_ne by done; [| |by apply Hi].
    + intros [= <-] H. destruct (Hz _ _ H) as (? & _ & _ & _ & ? & _). lia.
    + intros H [= <-]. destruct (Hz _ _ H) as (? & _ & _ & _ & ? & _). lia.
  - lia.
Qed.

(** The registry being built, over the one in force. *)
Record Mid (s0 : state I) (a0 : aState) (P : gmap string (option (list string))) (b : build) : Prop := {
  mid_zones : zones (b_state b) = zones s0;
  mid_fps : zoneFingerprints (b_state b) = zoneFingerprints s0;
  mid_gfp : globalFingerprint (b_state b) = globalFingerprint s0;
  mid_dom key : newZones b !! key = None <-> P !! key = None;
  mid_fdom key : newFingerprints b !! key = None <-> P !! key = None;
  mid_global : holds (b_state b) (global (b_state b)) (a_global a0);
  mid_rep : Rep (newZones b ∪ zones s0) (P ∪ a_zones a0) (newFingerprints b ∪ zoneFingerprints s0)
              (b_state b);
}.

Lemma Mid_done s0 a0 P b key l d fp s' :
  Mid s0 a0 P b ->
  zones s' = zones s0 -> zoneFingerprints s' = zoneFingerprints s0 ->
  globalFingerprint s' = globalFingerprint s0 ->
  holds s' (global s') (a_global a0) ->
  Rep (<[key := l]> (newZones b ∪ zones s0)) (<[key := d]> (P ∪ a_zones a0))
    (<[key := fp]> (newFingerprints b ∪ zoneFingerprints s0)) s' ->
  Mid s0 a0 (<[key := d]> P) (mkBuild s' (<[key := l]> (newZones b)) (<[key := fp]> (newFingerprints b))).
Proof.
  intros [_ _ _ Hd Hf _ _] Hz Hzf Hg Hgl Hr. constructor; simpl; try done.
  - intros k. destruct (decide (k = key)) as [->|]; [by rewrite !lookup_insert_eq|].
    rewrite !lookup_insert_ne by done. apply Hd.
  - intros k. destruct (decide (k = key)) as [->|]; [by rewrite !lookup_insert_eq|].
    rewrite !lookup_insert_ne by done. apply Hf.
  - by rewrite <- !insert_union_l.
Qed.

Lemma reloadZone_Mid s0 a0 P b key docs :
  Mid s0 a0 P b -> P !! key = None -> Forall shortDoc docs ->
  Mid s0 a0 (<[key := lastGood docs (default None (a_zones a0 !! key))]> P) (reloadZone b (key, docs)).
Proof using HL.
  intros HM HP Hs. pose proof HM as [Hz Hzf Hg Hd Hfd Hgl HR].
  assert (HnP : newZones b !! key = None) by (by apply Hd).
  assert (HfP : newFingerprints b !! key = None) by (by apply Hfd).
  assert (Hown : (newZones b ∪ zones s0) !! key = zones s0 !! key) by (by rewrite lookup_union_r).
  assert (Hspec : (P ∪ a_zones a0) !! key = a_zones a0 !! key) by (by rewrite lookup_union_r).
  assert (Hfps : (newFingerprints b ∪ zoneFingerprints s0) !! key = zoneFingerprints s0 !! key)
    by (by rewrite lookup_union_r).
  cbn [reloadZone]. rewrite Hz, Hzf. destruct (zones s0 !! key) as [l|] eqn:Hl.
  - destruct (rep_zone _ _ _ _ HR key l Hown) as (d & Hsd & Hh & Hfd' & Hlt & Hne).
    pose proof Hsd as Ha0. rewrite Hspec in Ha0. pose proof Hfd' as Hf0. rewrite Hfps in Hf0.
    rewrite Ha0, Hf0. cbn [default id].
    destruct (String.eqb_spec (fingerprintDocs docs) (fpOf d)) as [He|Hfne].
    + rewrite (fp_skip docs d) by (done || apply Hh). apply Mid_done; try done.
      rewrite He, !insert_id by done. exact HR.
    + pose proof (loadAt_spec docs l d (b_state b) Hs Hh) as HL'.
      destruct (loadAt l docs (b_state b)) as [s' ok]. destruct HL' as (-> & Hh' & Hfr & Hnx & Hgb & Hgf & Hzs & Hzfs).
      replace (if accepted docs then fingerprintDocs docs else fpOf d) with (fpOf (lastGood docs d))
        by (unfold lastGood; by destruct (accepted docs)).
      apply Mid_done; try congruence.
      * rewrite Hgb. eapply holds_frame; [|exact Hgl]. by apply Hfr.
      * rewrite (insert_id (newZones b ∪ zones s0)) by done. by eapply Rep_load.
  - assert (Ha0 : a_zones a0 !! key = None) by (rewrite <- Hspec; by apply (rep_none _ _ _ _ HR)).
    rewrite Ha0. cbn [default id].
    pose proof (Rep_allocate _ _ _ _ key HR Hown) as HA.
    destruct (allocate key (b_state b)) as [s1 l] eqn:Hal. destruct HA as (HR1 & Hh1 & -> & Hfr1).
    injection Hal as <-. set (s1 := mkState _ _ _ _ _ _) in *.
    pose proof (loadAt_spec docs (nextInstance (b_state b)) None s1 Hs Hh1) as HL'.
    destruct (loadAt _ docs s1) as [s' ok]. destruct HL' as (-> & Hh' & Hfr & Hnx & Hgb & Hgf & Hzs & Hzfs).
    assert (Hold : default "" (zoneFingerprints s0 !! key) = "").
    { rewrite <- Hfps. by destruct (rep_none _ _ _ _ HR key Hown) as [_ ->]. }
    rewrite Hold. replace (if accepted docs then fingerprintDocs docs else "") with (fpOf (lastGood docs None))
        by (unfold lastGood; by destruct (accepted docs)).
    apply Mid_done; try (subst s1; simpl in *; congruence).
    + rewrite Hgb. eapply holds_frame; [|exact Hgl]. simpl.
      pose proof (rep_global _ _ _ _ HR). rewrite Hfr, Hfr1 by (simpl; lia). done.
    + rewrite <- (insert_insert_eq (P ∪ a_zones a0) key _ None).
      rewrite <- (insert_insert_eq (newFingerprints b ∪ zoneFingerprints s0) key _ "").
      eapply Rep_load; [exact HR1|by rewrite lookup_insert_eq..| | | |]; done.
Qed.

Definition nextGood (a0 : aState) (kd : string * list string) : string * option (list string) :=
  (kd.1, lastGood kd.2 (default None (a_zones a0 !! kd.1))).

Lemma reloadZones_Mid s0 a0 zds P b :
  Mid s0 a0 P b -> NoDup zds.*1 -> Forall (fun kd => P !! kd.1 = None /\ Forall shortDoc kd.2) zds ->
  Mid s0 a0 (list_to_map (nextGood a0 <$> zds) ∪ P) (fold_left reloadZone zds b).
Proof using HL.
  revert P b. induction zds as [|[key docs] zds IH]; intros P b HM Hnd HF; simpl.
  { by rewrite map_empty_union. }
  apply Forall_cons in HF as [[HP Hs] HF]. rewrite fmap_cons in Hnd. apply NoDup_cons in Hnd as [Hk Hnd].
  assert (Hl : list_to_map (M := gmap string (option (list string))) (nextGood a0 <$> zds) !! key = None).
  { apply not_elem_of_list_to_map_1. rewrite <- list_fmap_compose. exact Hk. }
  rewrite <- insert_union_l, insert_union_r by done. apply IH; [by apply reloadZone_Mid|done|].
  rewrite Forall_forall in HF |- *. intros [k ds] Hin. destruct (HF _ Hin) as [HPk Hsk]. split; [|done].
  simpl in *. rewrite lookup_insert_ne; [done|]. intros ->. apply Hk.
  by apply (list_elem_of_fmap_2 fst) in Hin.
Qed.

Lemma nextGood_map_imap (a : aState) zds (m : gmap string (list string)) :
  zds ≡ₚ map_to_list m ->
  list_to_map (nextGood a <$> zds) =
  map_imap (fun key docs => Some (lastGood docs (default None (a_zones a !! key)))) m.
Proof.
  intros Hp. assert (Hnd : NoDup (nextGood a <$> zds).*1).
  { rewrite <- list_fmap_compose, Hp. apply NoDup_fst_map_to_list. }
  apply map_eq. intros k. rewrite map_lookup_imap. apply option_eq. intros d.
  rewrite <- elem_of_list_to_map by done. rewrite list_elem_of_fmap. split.
  - intros ([k' docs] & [= -> ->] & Hin). rewrite Hp in Hin. apply elem_of_map_to_list in Hin.
    by rewrite Hin.
  - destruct (m !! k) as [docs|] eqn:Hm; simpl; [|done]. intros [= <-].
    exists (k, docs). split; [done|]. rewrite Hp. by apply elem_of_map_to_list.
Qed.

Lemma reloadGlobal_Rep docs s a :
  Forall shortDoc docs -> RepState s a ->
  RepState (reloadGlobal docs s) (mkAState (lastGood docs (a_global a)) (a_zones a)).
Proof using HL.
  intros Hs (HR & Hh & Hf). unfold reloadGlobal. rewrite Hf.
  destruct (String.eqb_spec (fingerprintDocs docs) (fpOf (a_global a))) as [He|Hne].
  - rewrite (fp_skip docs (a_global a)); [by destruct a|done|apply Hh|done].
  - pose proof (loadAt_spec docs (global s) (a_global a) s Hs Hh) as HL'.
    destruct (loadAt (global s) docs s) as [s' ok].
    destruct HL' as (-> & Hh' & Hfr & Hnx & Hgb & Hgf & Hzs & Hzfs).
    assert (HR' : Rep (zones s) (a_zones a) (zoneFingerprints s) s').
    { destruct HR as [Hz Hn Hi Hg]. constructor; rewrite ?Hnx, ?Hgb; try done. intros key l Hk.
      destruct (Hz _ _ Hk) as (d & Hd & Hhd & Hfd & Hlt & Hng). exists d. split; [done|].
      split; [|done]. eapply holds_frame; [|exact Hhd]. by apply Hfr. }
    rewrite <- Hgb in Hh'. rewrite <- Hzs, <- Hzfs in HR'. unfold lastGood in *.
    destruct (accepted docs); split; simpl; try done; try congruence.
    + destruct HR' as [Hz Hn Hi Hg]. by constructor.
    + split; [done|congruence].
Qed.

Lemma reloadZones_Rep zds m s a :
  zds ≡ₚ map_to_list m -> Forall (fun kd => Forall shortDoc kd.2) zds -> RepState s a ->
  RepState (reloadZones zds s)
    (mkAState (a_global a)
       (map_imap (fun key docs => Some (lastGood docs (default None (a_zones a !! key)))) m)).
Proof using HL.
  intros Hp Hs (HR & Hh & Hf).
  assert (HM0 : Mid s a ∅ (mkBuild s ∅ ∅)) by (constructor; simpl; rewrite ?map_empty_union; done).
  apply (reloadZones_Mid s a zds ∅) in HM0.
  - rewrite <- (nextGood_map_imap a zds m Hp). rewrite map_union_empty in HM0.
    destruct HM0 as [Hz Hzf Hg Hd Hfd Hgl [HRz HRn HRi HRg]]. unfold reloadZones.
    set (b := fold_left reloadZone zds (mkBuild s ∅ ∅)) in *. split; [|split]; simpl; [|exact Hgl|congruence].
    constructor; simpl; [| | |exact HRg].
    + intros key l Hk.
      destruct (HRz key l) as (d & Hsd & Hhd & Hfpd & Hlt); [by apply lookup_union_Some_l|].
      exists d. apply lookup_union_Some_raw in Hsd as [Hsd|[Hsd _]]; [|apply Hd in Hsd; congruence].
      apply lookup_union_Some_raw in Hfpd as [Hfpd|[Hfpd _]]; [done|].
      apply Hfd, Hd in Hfpd. congruence.
    + intros key Hk. split; [by apply Hd|]. by apply Hfd, Hd.
    + intros k1 k2 l H1 H2. eapply HRi; by apply lookup_union_Some_l.
  - rewrite Hp. apply NoDup_fst_map_to_list.
  - rewrite Forall_forall in Hs |- *. intros kd Hkd. split; [apply lookup_empty|by apply Hs].
Qed.

Lemma init_Rep : RepState init (mkAState None ∅).
Proof.
  split; [constructor; simpl; try done; lia|]. split; [|done]. split; [done|].
  exists freshGlobal. simpl. rewrite lookup_singleton_eq. split; [done|]. apply freshGlobal_ok.
Qed.

(** *** Histories *)

(** A pass: the stored ConfigMaps in the order of the [Range], and the gathered zones
    in the order their map is ranged over. *)
Record pass := mkPass { p_cms : list ConfigMap; p_zds : list (string * list string) }.

Definition shortCM (cm : ConfigMap) : Prop := map_Forall (fun _ v => shortDoc v) (Data cm).

Definition passOK (label pod : string) (p : pass) : Prop :=
  p_zds p ≡ₚ map_to_list (zoneDocs (gather label pod (p_cms p))) /\ Forall shortCM (p_cms p).

Definition runPasses (label pod : string) (ps : list pass) : state I :=
  fold_left (fun s p => reload label pod (p_cms p) (p_zds p) s) ps init.

Definition aRunPasses (label pod : string) (ps : list pass) : aState :=
  fold_left (fun a p => let g := gather label pod (p_cms p) in aReload (globalDocs g) (zoneDocs g) a)
    ps (mkAState None ∅).

Lemma shortCM_docs cm : shortCM cm -> Forall shortDoc (sortedDataValues (Data cm)).
Proof.
  intros Hs. unfold sortedDataValues. apply Forall_fmap, Forall_forall. intros k _. simpl.
  destruct (Data cm !! k) as [v|] eqn:Hv; simpl; [by eapply Hs|by vm_compute].
Qed.

Lemma gather_shortDocs label pod cms :
  Forall shortCM cms ->
  Forall shortDoc (globalDocs (gather label pod cms)) /\
  Forall shortDoc (transformGlobalDocs (gather label pod cms)) /\
  map_Forall (fun _ => Forall shortDoc) (zoneDocs (gather label pod cms)).
Proof.
  intros Hs. assert (Hall : Forall (fun cm => Forall shortDoc (sortedDataValues (Data cm)))
                            (globalCMs (gather label pod cms))).
  { unfold gather. rewrite gather_globalCMs. rewrite Forall_forall in Hs |- *. intros cm Hcm.
    apply shortCM_docs, Hs. apply list_elem_of_In, List.filter_In in Hcm as [Hcm _].
    by apply list_elem_of_In. }
  split; [|split].
  - unfold globalDocs. by rewrite Forall_concat, Forall_fmap, merge_sort_Permutation.
  - unfold transformGlobalDocs. by rewrite Forall_concat, Forall_fmap, merge_sort_Permutation.
  - unfold gather. assert (H0 : map_Forall (fun _ => Forall shortDoc) (zoneDocs (mkGathered [] ∅)))
      by apply map_Forall_empty.
    clear Hall. revert H0. generalize (mkGathered [] ∅). induction Hs as [|cm cms Hcm _ IH]; intros g Hg; [done|].
    simpl. apply IH. rewrite visit_spec. destruct (isGlobal label pod cm); [done|].
    destruct (isZone label cm); [|done]. simpl. apply map_Forall_insert_2; [|done].
    apply Forall_app. split; [|by apply shortCM_docs].
    destruct (zoneDocs g !! zoneKey cm) as [d|] eqn:Hd; [by apply (Hg _ _ Hd)|constructor].
Qed.

Lemma runPasses_Rep label pod ps :
  Forall (passOK label pod) ps -> RepState (runPasses label pod ps) (aRunPasses label pod ps).
Proof using HL.
  unfold runPasses, aRunPasses. generalize init_Rep. generalize init, (mkAState None ∅).
  intros s a HR HF. revert s a HR. induction HF as [|p ps [Hz Hs] _ IH]; intros s a HR; [done|]. simpl.
  apply IH. destruct (gather_shortDocs label pod _ Hs) as (Hg & _ & Hzs). unfold reload, aReload.
  apply (reloadZones_Rep (p_zds p) (zoneDocs (gather label pod (p_cms p))) _
           (mkAState (lastGood _ (a_global a)) (a_zones a)) Hz).
  - rewrite Hz, Forall_forall. intros [k ds] Hk%elem_of_map_to_list. by apply (Hzs k).
  - by apply reloadGlobal_Rep.
Qed.

(** What the request path sees of a registry. *)
Definition servesGlobal (s : state I) : option O := obs <$> instances s !! global s.
Definition servesZone (s : state I) (key : string) : option O := obs <$> Lookup s key.

Lemma RepState_serves s a :
  RepState s a ->
  servesGlobal s = Some (served (a_global a)) /\
  forall key, servesZone s key = served <$> a_zones a !! key.
Proof.
  intros (HR & [_ (i & Hi & _ & Ho)] & _). split; [unfold servesGlobal; rewrite Hi; simpl; by rewrite Ho|].
  intros key. unfold servesZone, Lookup. destruct (zones s !! key) as [l|] eqn:Hl; simpl.
  - destruct (rep_zone _ _ _ _ HR key l Hl) as (d & -> & [_ (i' & -> & _ & Ho')] & _). simpl. by rewrite Ho'.
  - by destruct (rep_none _ _ _ _ HR key Hl) as [-> _].
Qed.

End engine.

(** ** The engines keep the laws *)

(** parapet's WAF: [SetRules] takes the whole ruleset or nothing. *)
Section waf.
Context {W O : Type} (unmarshal : string -> option (list WAF.Rule)).
Context (newWAF : string -> W) (SetRules : list WAF.CompiledRule -> W -> option W).
Context (ruleset : W -> O) (compileRules : list WAF.CompiledRule -> option O) (noRules : O).
Context (newWAF_empty : forall scope, ruleset (newWAF scope) = noRules).
Context (SetRules_all_or_nothing : forall rs w, ruleset <$> SetRules rs w = compileRules rs).

#[local] Existing Instance WAF.wafEngine.

Definition wafLaws : @EngineLaws W O (WAF.wafEngine unmarshal newWAF SetRules).
Proof using newWAF_empty SetRules_all_or_nothing.
  refine (@Build_EngineLaws W O (WAF.wafEngine unmarshal newWAF SetRules) ruleset
    (fun docs => match WAF.Parse unmarshal docs with (rs, []) => compileRules rs | _ => None end)
    noRules (fun _ => True) _ _ _); simpl.
  - split; [done|apply newWAF_empty].
  - intros _. split; [done|apply newWAF_empty].
  - intros docs w _. unfold WAF.loadWAF. destruct (WAF.Parse unmarshal docs) as [rs [|e es]]; [|done].
    rewrite <- (SetRules_all_or_nothing rs w). by destruct (SetRules rs w).
Defined.
End waf.

(** [corazawaf]'s [SetDirectives]; what is served is the compiled WAF. *)
Section coraza.
Context {FS C Tx : Type} {ops : CorazaOps FS C Tx}.
Context (RootFS : option FS) (RequestBodyLimit : Z) (ClientIP : option (Coraza.Request -> string)).

Definition compileDirectives (docs : list string) : option (option C) :=
  let directives := Coraza.directivesOf docs in
  if String.eqb directives "" then Some None
  else Some <$> NewWAF (Coraza.configOf (Coraza.mkOptions RootFS RequestBodyLimit ClientIP) directives).

Definition corazaLaws :
  @EngineLaws (Coraza.Instance_ FS C) (option C) (corazaEngine RootFS RequestBodyLimit ClientIP).
Proof.
  refine (@Build_EngineLaws _ _ (corazaEngine RootFS RequestBodyLimit ClientIP) Coraza.cur
    compileDirectives None
    (fun i => Coraza.opts i = Coraza.mkOptions RootFS RequestBodyLimit ClientIP) _ _ _); simpl; [done..|].
  intros docs i Hi. unfold Coraza.SetDirectives, compileDirectives. rewrite Hi.
  destruct (String.eqb _ ""); [done|]. by destruct (NewWAF _).
Defined.
End coraza.

(** The rate limiter; what is served is the normalised limits. *)
Section ratelimit.
Context {Predicate FixedState : Type}.
Context (NewPredicate : Z -> bool -> string -> option Predicate).
Context (unmarshal : string -> option (list RateLimit.Limit)).
Context (ParsePrefix : string -> option RateLimit.Prefix) (fixedNew : FixedState).
Context (KnownHost : string -> bool) (Country : option (RateLimit.Request -> string))
  (ASN : option (RateLimit.Request -> Z)) (FilterCostLimit : Z) (FilterDisableMacros : bool).

#[local] Abbreviation limiter := (@RateLimit.Limiter Predicate FixedState).

Record sameConfig (l l' : limiter) : Prop := {
  sc_country : RateLimit.Country l = RateLimit.Country l';
  sc_asn : RateLimit.ASN l = RateLimit.ASN l';
  sc_cost : RateLimit.FilterCostLimit l = RateLimit.FilterCostLimit l';
  sc_macros : RateLimit.FilterDisableMacros l = RateLimit.FilterDisableMacros l';
}.

Lemma compileKeys_config l l' ks :
  sameConfig l l' -> RateLimit.compileKeys l ks = RateLimit.compileKeys l' ks.
Proof.
  intros [Hc Ha _ _]. unfold RateLimit.compileKeys.
  generalize (match ks with [] => ["ip"] | _ => ks end), (RateLimit.mkAcc [] [] []).
  intros ks' a. revert a. induction ks' as [|k ks' IH]; intros a; simpl; [done|].
  rewrite IH. f_equal. unfold RateLimit.compileKey. by rewrite Hc, Ha.
Qed.

Lemma compileLimit_config l l' p p' lim :
  sameConfig l l' ->
  match RateLimit.compileLimit NewPredicate ParsePrefix fixedNew l p lim,
        RateLimit.compileLimit NewPredicate ParsePrefix fixedNew l' p' lim with
  | Ok (c, _, norm), Ok (c', _, norm') => RateLimit.id c = RateLimit.id c' /\ norm = norm'
  | Err e, Err e' => e = e'
  | _, _ => False
  end.
Proof.
  intros Hs. unfold RateLimit.compileLimit, RateLimit.compileFilter.
  rewrite (compileKeys_config l l') by done. destruct Hs as [_ _ Hf Hm]. rewrite Hf, Hm.
  destruct (RateLimit.compileWindow _) as [[d ws] e4], (RateLimit.compileAlgorithm _) as [alg e5],
    (RateLimit.compileMode _) as [[m mS] e6], (RateLimit.compileStatus _) as [cs e7],
    (RateLimit.compileExclude _ _) as [ex e8].
  destruct (if String.eqb _ "" then _ else _) as [f e9]. by destruct (_ ++ _).
Qed.

Definition sameBatch (b b' : @RateLimit.batch Predicate FixedState) : Prop :=
  RateLimit.b_errs b = RateLimit.b_errs b' /\ RateLimit.b_source b = RateLimit.b_source b' /\
  (RateLimit.id <$> RateLimit.b_compiled b) = (RateLimit.id <$> RateLimit.b_compiled b').

Lemma batchLoop_config l l' i lims b b' :
  sameConfig l l' -> sameBatch b b' ->
  sameBatch (RateLimit.batchLoop NewPredicate ParsePrefix fixedNew l i lims b)
    (RateLimit.batchLoop NewPredicate ParsePrefix fixedNew l' i lims b').
Proof.
  intros Hs. revert i b b'. induction lims as [|lim lims IH]; intros i b b' Hb; simpl; [done|].
  apply IH. destruct Hb as (He & Hsrc & Hid). unfold RateLimit.batchStep.
  pose proof (compileLimit_config l l' (RateLimit.b_next b) (RateLimit.b_next b') lim Hs) as Hc.
  destruct (RateLimit.compileLimit _ _ _ l _ _) as [[[c st] n]|e],
    (RateLimit.compileLimit _ _ _ l' _ _) as [[[c' st'] n']|e']; try done.
  - destruct Hc as [Hci ->]. rewrite <- Hid, <- Hci. case_decide; (split; [|split]); simpl; try congruence.
    rewrite !fmap_app. simpl. congruence.
  - subst. (split; [|split]); simpl; congruence.
Qed.

#[local] Abbreviation newRL := (@newRateLimiter Predicate FixedState KnownHost Country ASN FilterCostLimit
  FilterDisableMacros).
#[local] Abbreviation rlEngine := (rateLimitEngine NewPredicate unmarshal ParsePrefix fixedNew KnownHost
  Country ASN FilterCostLimit FilterDisableMacros).

Definition normalise (lims : list RateLimit.Limit) : option (list RateLimit.Limit) :=
  match RateLimit.SetLimits NewPredicate ParsePrefix fixedNew lims (newRL "") with
  | ([], l) => Some (RateLimit.Limits l)
  | _ => None
  end.

Lemma SetLimits_config lims l :
  sameConfig l (newRL "") ->
  match normalise lims with
  | Some src => exists l', RateLimit.SetLimits NewPredicate ParsePrefix fixedNew lims l = ([], l') /\
                  RateLimit.Limits l' = src /\ sameConfig l' (newRL "")
  | None => exists e es, RateLimit.SetLimits NewPredicate ParsePrefix fixedNew lims l = (e :: es, l)
  end.
Proof.
  intros Hs. unfold normalise, RateLimit.SetLimits.
  pose proof (batchLoop_config l (newRL "") 0 lims
    (RateLimit.mkBatch [] [] [] (RateLimit.heap l) (RateLimit.next l)) (RateLimit.mkBatch [] [] [] ∅ 0) Hs)
    as (He & Hsrc & _); [done|]. simpl RateLimit.heap. simpl RateLimit.next.
  rewrite <- He. destruct (RateLimit.b_errs _) as [|e es]; [|by eexists _, _].
  eexists. split; [done|]. split; [exact Hsrc|]. by destruct Hs.
Qed.

Definition rateLimitLaws : @EngineLaws limiter (list RateLimit.Limit) rlEngine.
Proof.
  refine (@Build_EngineLaws _ _ rlEngine RateLimit.Limits
    (fun docs => match RateLimit.Parse unmarshal docs with (lims, O) => normalise lims | _ => None end)
    [] (fun l => sameConfig l (newRL "")) _ _ _); simpl; [done..|].
  intros docs l Hl. unfold loadLimits. destruct (RateLimit.Parse unmarshal docs) as [lims [|n]]; [|done].
  pose proof (SetLimits_config lims l Hl) as HS. destruct (normalise lims).
  - by destruct HS as (l' & -> & ? & ?).
  - by destruct HS as (e & es & ->).
Defined.
End ratelimit.

(** ** The transform layer without its fingerprints *)

Section transform.
Context {Zone : Type} {HO : HashOps} {HL : HashLaws} (ParseZone : list string -> option Zone).

(** The reference pass always parses. *)
Definition tReference (gdocs : list string) (zds : gmap string (list string))
    (gz : option Zone * gmap string Zone) : option Zone * gmap string Zone :=
  (match gdocs with
   | [] => None
   | _ => match ParseZone gdocs with Some z => Some z | None => fst gz end
   end,
   map_imap (fun key docs => match ParseZone docs with Some z => Some z | None => snd gz !! key end) zds).

Record TInv (s : @tstate Zone) : Prop := {
  ti_global :
    (globalTransform s = None /\ globalTransformFingerprint s = "") \/
    exists docs, Forall shortDoc docs /\ globalTransformFingerprint s = fingerprintDocs docs /\
      globalTransform s = (match docs with [] => None | _ => ParseZone docs end) /\
      (docs <> [] -> ParseZone docs <> None);
  ti_zone key z : transformZones s !! key = Some z ->
    exists docs, Forall shortDoc docs /\ transformZoneFingerprints s !! key = Some (fingerprintDocs docs) /\
      ParseZone docs = Some z;
}.

Lemma reloadGlobalTransform_spec docs s :
  Forall shortDoc docs -> TInv s ->
  TInv (reloadGlobalTransform ParseZone docs s) /\
  transformZones (reloadGlobalTransform ParseZone docs s) = transformZones s /\
  globalTransform (reloadGlobalTransform ParseZone docs s) =
    fst (tReference docs ∅ (globalTransform s, transformZones s)).
Proof using HL.
  intros Hs [Hg Hz]. unfold reloadGlobalTransform. simpl.
  destruct (String.eqb_spec (fingerprintDocs docs) (globalTransformFingerprint s)) as [He|Hne].
  - split; [by split|]. split; [done|]. destruct Hg as [[_ Hfp]|(docs' & Hs' & Hfp & Hgt & Hne)].
    { rewrite Hfp in He. by apply Sum256_nonempty in He. }
    rewrite Hfp in He. apply fingerprint_inj in He as <-; [|done..]. rewrite Hgt.
    destruct docs as [|d docs]; [done|]. by destruct (ParseZone (d :: docs)) eqn:Hp; [|destruct Hne].
  - destruct docs as [|d docs].
    { split; [|done]. split; simpl; [|done]. right. by exists []. }
    destruct (ParseZone (d :: docs)) as [z|] eqn:Hp; simpl; [|by split].
    split; [|done]. split; simpl; [|done]. right. exists (d :: docs).
    split; [done|]. split; [done|]. rewrite Hp. done.
Qed.

Lemma reloadTransformZone_spec s key docs :
  Forall shortDoc docs -> TInv s ->
  fst <$> reloadTransformZone ParseZone s key docs =
    (match ParseZone docs with Some z => Some z | None => transformZones s !! key end) /\
  forall z fp, reloadTransformZone ParseZone s key docs = Some (z, fp) ->
    exists docs', Forall shortDoc docs' /\ fp = fingerprintDocs docs' /\ ParseZone docs' = Some z.
Proof using HL.
  intros Hs [_ Hz]. unfold reloadTransformZone. specialize (Hz key).
  destruct (transformZones s !! key) as [z0|] eqn:Hk.
  - destruct (Hz z0 eq_refl) as (docs0 & Hs0 & -> & Hp0). simpl.
    destruct (String.eqb_spec (fingerprintDocs docs) (fingerprintDocs docs0)) as [He|Hne].
    + apply fingerprint_inj in He as ->; [|done..]. rewrite Hp0. split; [done|].
      intros z fp [= <- <-]. by exists docs0.
    + destruct (ParseZone docs) as [z1|] eqn:Hp1; simpl; (split; [done|]); intros z fp [= <- <-];
        [by exists docs|by exists docs0].
  - destruct (ParseZone docs) as [z1|] eqn:Hp1; simpl; (split; [done|]); [|done].
    intros z fp [= <- <-]. by exists docs.
Qed.

Lemma reloadTransformZones_spec zds s :
  map_Forall (fun _ => Forall shortDoc) zds -> TInv s ->
  TInv (reloadTransformZones ParseZone zds s) /\
  globalTransform (reloadTransformZones ParseZone zds s) = globalTransform s /\
  transformZones (reloadTransformZones ParseZone zds s) =
    snd (tReference [] zds (globalTransform s, transformZones s)).
Proof using HL.
  intros Hs HI. split; [|split; [done|]].
  - split; [apply HI|]. intros key z. simpl. rewrite !lookup_fmap, map_lookup_imap.
    destruct (zds !! key) as [docs|] eqn:Hk; simpl; [|done].
    destruct (reloadTransformZone_spec s key docs (Hs _ _ Hk) HI) as [_ Hr].
    destruct (reloadTransformZone ParseZone s key docs) as [[z' fp]|]; [|done]. simpl. intros [= ->].
    destruct (Hr z fp eq_refl) as (docs' & ? & -> & ?). by exists docs'.
  - apply map_eq. intros key. simpl. rewrite lookup_fmap, !map_lookup_imap.
    destruct (zds !! key) as [docs|] eqn:Hk; simpl; [|done].
    by destruct (reloadTransformZone_spec s key docs (Hs _ _ Hk) HI) as [<- _].
Qed.

Definition runTransform (pod : string) (passes : list (list ConfigMap)) : @tstate Zone :=
  fold_left (fun s cms => reloadTransformDebounced ParseZone true pod cms s) passes InitTransform.

Definition runReference (pod : string) (passes : list (list ConfigMap)) :
    option Zone * gmap string Zone :=
  fold_left (fun gz cms => let g := gather transformLabelKey pod cms in
                           tReference (transformGlobalDocs g) (zoneDocs g) gz) passes (None, ∅).

End transform.

(** ** Concrete parameters *)

#[export] Instance toyHash : HashOps := { Sum256 s := "#" +:+ s }.
#[export] Instance toyHashLaws : HashLaws.
Proof. split; [intros s t; by intros [= ->]|done]. Qed.

Definition demoCM (ns name label role : string) (doc : string) : ConfigMap :=
  mkCM ns name {[ label := role ]} {[ "doc" := doc ]}.

Lemma demoCM_short ns name label role doc : shortDoc doc -> shortCM (demoCM ns name label role doc).
Proof. intros Hd. by apply map_Forall_singleton. Qed.

(** A pass over [cms], the zones in the order of the finite map. *)
Definition demoPass (label pod : string) (cms : list ConfigMap) : pass :=
  mkPass cms (map_to_list (zoneDocs (gather label pod cms))).

Lemma demoPass_ok label pod cms : Forall shortCM cms -> passOK label pod (demoPass label pod cms).
Proof. by split. Qed.

(** A global and a zone ruleset, then an edit that breaks the zone's. *)
Definition demoPasses (label : string) : list pass :=
  [demoPass label "sys" [demoCM "sys" "g" label roleGlobal "base"; demoCM "a" "z" label roleZone "one"];
   demoPass label "sys" [demoCM "a" "z" label roleZone "two?"; demoCM "sys" "g" label roleGlobal "base"]].

Lemma demoPasses_ok label : Forall (passOK label "sys") (demoPasses label).
Proof.
  repeat (apply Forall_cons; split); [apply demoPass_ok..|constructor];
    repeat (apply Forall_cons; split); try constructor; by apply demoCM_short.
Qed.

Definition demoCMs : list ConfigMap :=
  [demoCM "sys" "g" corazaLabelKey roleGlobal "base"; demoCM "a" "z" corazaLabelKey roleZone "one";
   demoCM "sys" "f" corazaLabelKey roleGlobal "first"].

Lemma demoCMs_NoDup : NoDup (zoneKey <$> demoCMs).
Proof. apply (bool_decide_unpack _). vm_compute. exact Logic.I. Qed.

Lemma demoCMs_short : Forall shortCM demoCMs.
Proof. repeat (apply Forall_cons; split); try constructor; by apply demoCM_short. Qed.

Definition toyEngine : Engine (Coraza.Instance_ string string) :=
  @corazaEngine string string _ CorazaLemmas.toyOps None 0 None.
Definition toyLaws : @EngineLaws (Coraza.Instance_ string string) (option string) toyEngine :=
  @corazaLaws string string _ CorazaLemmas.toyOps None 0 None.

End ReloadLemmas.

Module ReloadProps.
Import Reload ReloadLemmas.

Section engine.
Context {I O : Type} {eng : Engine I} {laws : EngineLaws I O} {HO : HashOps} {HL : HashLaws}.

(** C11: whatever passes have run since start-up, over whatever ConfigMaps and in
    whatever order the store and the zone map were ranged over, the global instance
    serves the last global documents that were accepted, and the registry holds
    exactly the zones of the last pass, each serving the documents it last had
    accepted since it appeared (nothing, if none were). Rejected input and
    fingerprint skips are thus invisible, though instances are shared between the
    registry in force and the one being built. *)
Theorem reload_serves_last_good label pod ps :
  Forall (passOK label pod) ps ->
  servesGlobal (runPasses label pod ps) = Some (served (a_global (aRunPasses label pod ps))) /\
  forall key, servesZone (runPasses label pod ps) key = served <$> a_zones (aRunPasses label pod ps) !! key.
Proof using HL. intros HF. by apply RepState_serves, runPasses_Rep. Qed.

End engine.

Lemma reload_serves_last_good_witness :
  let st := @runPasses _ toyEngine _ corazaLabelKey "sys" (demoPasses corazaLabelKey) in
  let spec := @aRunPasses _ _ toyEngine toyLaws corazaLabelKey "sys" (demoPasses corazaLabelKey) in
  @servesZone _ _ toyEngine toyLaws st "a/z" = Some (Some "one") /\
  @servesGlobal _ _ toyEngine toyLaws st = Some (@served _ _ toyEngine toyLaws (a_global spec)) /\
  forall key, @servesZone _ _ toyEngine toyLaws st key =
              @served _ _ toyEngine toyLaws <$> (a_zones spec !! key : option (option (list string))).
Proof.
  split; [vm_compute; reflexivity|].
  apply (@reload_serves_last_good _ _ toyEngine toyLaws _ _). apply demoPasses_ok.
Defined.

(** The order of a range is never observable: two histories whose passes saw the
    same ConfigMaps, in different orders of the store's range and of the zone map's,
    leave the global instance and every zone serving the same thing. *)
Theorem reload_order_irrelevant {I O : Type} {eng : Engine I} {laws : EngineLaws I O}
    {HO : HashOps} {HL : HashLaws} label pod ps ps' :
  Forall (passOK label pod) ps -> Forall (passOK label pod) ps' ->
  Forall (fun p => NoDup (zoneKey <$> p_cms p)) ps ->
  Forall2 (fun p p' => p_cms p ≡ₚ p_cms p') ps ps' ->
  servesGlobal (runPasses label pod ps) = servesGlobal (runPasses label pod ps') /\
  forall key, servesZone (runPasses label pod ps) key = servesZone (runPasses label pod ps') key.
Proof.
  intros H1 H2 Hnd Hp.
  destruct (RepState_serves _ _ (runPasses_Rep label pod ps H1)) as [-> Hz].
  destruct (RepState_serves _ _ (runPasses_Rep label pod ps' H2)) as [-> Hz'].
  assert (aRunPasses label pod ps = aRunPasses label pod ps') as He.
  { unfold aRunPasses. generalize (mkAState None ∅). clear -Hnd Hp.
    induction Hp as [|p p' ps ps' Hcm _ IH]; intros a; [done|]. apply Forall_cons in Hnd as [Hn Hnd].
    simpl. destruct (gather_perm label pod _ _ Hcm Hn) as [-> ->]. by apply IH. }
  rewrite He in *. split; [done|]. intros key. by rewrite Hz, Hz'.
Qed.

Lemma reload_order_irrelevant_witness :
  let p := demoPass corazaLabelKey "sys" demoCMs in
  let p' := mkPass (rev demoCMs) (rev (p_zds p)) in
  let st := @runPasses _ toyEngine _ corazaLabelKey "sys" [p] in
  let st' := @runPasses _ toyEngine _ corazaLabelKey "sys" [p'] in
  @servesGlobal _ _ toyEngine toyLaws st = @servesGlobal _ _ toyEngine toyLaws st' /\
  forall key, @servesZone _ _ toyEngine toyLaws st key = @servesZone _ _ toyEngine toyLaws st' key.
Proof.
  intros p p' st st'. apply (@reload_order_irrelevant _ _ toyEngine toyLaws _ _).
  - apply Forall_singleton, demoPass_ok, demoCMs_short.
  - apply Forall_singleton. split; [|exact (Forall_rev demoCMs_short)]. 
    change (rev (map_to_list (zoneDocs (gather corazaLabelKey "sys" demoCMs)))
      ≡ₚ map_to_list (zoneDocs (gather corazaLabelKey "sys" (rev demoCMs)))).
    rewrite <- Permutation_rev.
    by destruct (gather_perm corazaLabelKey "sys" _ _ (Permutation_rev demoCMs) demoCMs_NoDup) as [_ <-].
  - apply Forall_singleton, demoCMs_NoDup.
  - constructor; [apply Permutation_rev|constructor].
Defined.

Section transform.
Context {Zone : Type} {HO : HashOps} {HL : HashLaws} (ParseZone : list string -> option Zone).

(** The transform layer's fingerprints only save work: after any history of
    passes, the global zone and the registry are those of the reference pass, which
    parses every input every time, keeps the zone in force when its new documents do
    not parse, drops the global zone when there are no documents, and has no entry
    for a new zone that never parsed. *)
Theorem transform_fingerprints_invisible pod (passes : list (list ConfigMap)) :
  Forall (Forall shortCM) passes ->
  (globalTransform (runTransform ParseZone pod passes), transformZones (runTransform ParseZone pod passes))
  = runReference ParseZone pod passes.
Proof using HL.
  intros HF. unfold runTransform, runReference.
  assert (HI : TInv ParseZone InitTransform) by (split; [by left|done]).
  change (None, ∅) with (globalTransform (@InitTransform Zone), transformZones (@InitTransform Zone)).
  revert HI. generalize (@InitTransform Zone). induction HF as [|cms passes Hs _ IH]; intros s HI; [done|].
  cbn [fold_left]. destruct (gather_shortDocs transformLabelKey pod cms Hs) as (_ & Hg & Hz).
  destruct (reloadGlobalTransform_spec ParseZone _ s Hg HI) as (HI1 & Hz1 & Hg1).
  destruct (reloadTransformZones_spec ParseZone _ _ Hz HI1) as (HI2 & Hg2 & Hz2).
  etransitivity; [exact (IH _ HI2)|]. f_equal. rewrite Hg2, Hg1, Hz2, Hz1. done.
Qed.

End transform.

Lemma transform_fingerprints_invisible_witness :
  let passes := p_cms <$> demoPasses transformLabelKey in
  let parse := fun docs : list string => if existsb (mem_char "?"%char) docs then None else Some docs in
  (globalTransform (runTransform parse "sys" passes), transformZones (runTransform parse "sys" passes))
  = runReference parse "sys" passes.
Proof.
  apply transform_fingerprints_invisible.
  repeat (apply Forall_cons; split); try constructor; by apply demoCM_short.
Defined.

End ReloadProps.
