(* ===== verification/EdgeStores.v ===== *)
(** * What the control plane distributes to the edges

    Models [src/edgecp/wafstore.go], [corazastore.go], [ratelimitstore.go],
    [cachestore.go] and [hoststore.go] (the stores and their per-edge scoping),
    the reloads of [wafreload.go], [corazareload.go], [ratelimitreload.go] and
    [cachereload.go] with [featurelabel.go] (ConfigMaps to store content), and
    [ingressreload.go] (the bindings of routes and hosts to zones).

    The stores share their code up to the fields they have: [Store] is the union of
    the fields, and a field that a store lacks stays empty.  Every operation runs
    under the store's mutex.  A [range] over a map takes its order as an argument. *)

From S2P Require Import Prelude GoString Route Certs Controller GoURL RateLimit TransformRule Coraza Reload.

Set Default Proof Using "Type".

(** The hex of the first half of SHA-256, which the validators quote. *)
Class EtagOps := { hexSum16 : string -> string }.
Class EtagLaws `{!EtagOps} : Prop := {
  hexSum16_inj s t : hexSum16 s = hexSum16 t -> s = t;
  hexSum16_plain s : all_chars is_alnum (hexSum16 s) = true;
  hexSum16_nonempty s : hexSum16 s <> "";
}.

Module EdgeStores.
Import Controller Reload.

Definition quote : string := String (ascii_of_nat 34) EmptyString.
Definition etagOfString `{!EtagOps} (s : string) : string := quote +:+ hexSum16 s +:+ quote.

Definition byte (n : nat) : string := String (ascii_of_nat n) EmptyString.

(** ** Labels *)

Definition CacheLabelKey : string := "parapet.moonrhythm.io/cache".
Definition WAFZoneAnnotation : string := "parapet.moonrhythm.io/waf-zone".
Definition CorazaZoneAnnotation : string := "parapet.moonrhythm.io/coraza-zone".
Definition RateLimitZoneAnnotation : string := "parapet.moonrhythm.io/ratelimit-zone".
Definition CacheZoneAnnotation : string := "parapet.moonrhythm.io/cache-zone".

Definition featureLabelKeys : list string :=
  [wafLabelKey; rateLimitLabelKey; corazaLabelKey; CacheLabelKey].

Definition carriesOtherFeatureLabel (cm : ConfigMap) (self : string) : option string :=
  otherFeatureLabel featureLabelKeys cm self.

(** ** ConfigMaps to documents *)

(** The loop of each [reload]: a recognised role with another feature's label is
    refused. *)
Definition projected (label : string) (cms : list ConfigMap) : list ConfigMap :=
  List.filter (fun cm =>
    let role := default "" (Reload.Labels cm !! label) in
    negb ((String.eqb role roleGlobal || String.eqb role roleZone) &&
          match carriesOtherFeatureLabel cm label with Some _ => true | None => false end)) cms.

Definition sortedValues (data : gmap string string) : list string :=
  (fun k => default "" (data !! k)) <$> merge_sort str_le (map_to_list data).*1.

Definition globalsOf (label podNamespace : string) (cms : list ConfigMap) : list ConfigMap :=
  List.filter (fun cm => String.eqb (default "" (Reload.Labels cm !! label)) roleGlobal &&
                         String.eqb (cm_Namespace cm) podNamespace) cms.

(** [sortConfigMapsByName], then the values of each. *)
Definition globalDocsOf (label podNamespace : string) (cms : list ConfigMap) : list string :=
  List.concat ((fun cm => sortedValues (Data cm)) <$> merge_sort cmLe (globalsOf label podNamespace cms)).

(** [strings.Join]. *)
Fixpoint Join (sep : string) (docs : list string) : string :=
  match docs with
  | [] => ""
  | [d] => d
  | d :: docs => d +:+ sep +:+ Join sep docs
  end.

Definition yamlSep : string := byte 10 +:+ "---" +:+ byte 10.

Definition concatGlobalRules (cms : list ConfigMap) (podNamespace : string) : string :=
  Join yamlSep (globalDocsOf wafLabelKey podNamespace cms).
Definition concatGlobalCorazaRules (cms : list ConfigMap) (podNamespace : string) : string :=
  Join (byte 10) (globalDocsOf corazaLabelKey podNamespace cms).
Definition collectGlobalLimitDocs (cms : list ConfigMap) (podNamespace : string) : list string :=
  globalDocsOf rateLimitLabelKey podNamespace cms.
Definition collectGlobalCacheDocs (cms : list ConfigMap) (podNamespace : string) : list string :=
  globalDocsOf CacheLabelKey podNamespace cms.

Definition isZoneCM (label : string) (cm : ConfigMap) : bool :=
  String.eqb (default "" (Reload.Labels cm !! label)) roleZone.

Definition joinZoneStep (label sep : string) (out : gmap string string) (cm : ConfigMap) :
    gmap string string :=
  if negb (isZoneCM label cm) then out
  else
    let key := zoneKey cm in
    let docs := sortedValues (Data cm) in
    let existing := default "" (out !! key) in
    <[key := Join sep (if negb (String.eqb existing "") then existing :: docs else docs)]> out.

Definition collectZoneRules (cms : list ConfigMap) : gmap string string :=
  fold_left (joinZoneStep wafLabelKey yamlSep) cms ∅.
Definition collectCorazaZoneRules (cms : list ConfigMap) : gmap string string :=
  fold_left (joinZoneStep corazaLabelKey (byte 10)) cms ∅.

Definition appendZoneStep (label : string) (out : gmap string (list string)) (cm : ConfigMap) :
    gmap string (list string) :=
  if negb (isZoneCM label cm) then out
  else <[zoneKey cm := default [] (out !! zoneKey cm) ++ sortedValues (Data cm)]> out.

Definition collectZoneLimitDocs (cms : list ConfigMap) : gmap string (list string) :=
  fold_left (appendZoneStep rateLimitLabelKey) cms ∅.
Definition collectZoneCacheDocs (cms : list ConfigMap) : gmap string (list string) :=
  fold_left (appendZoneStep CacheLabelKey) cms ∅.

(** ** The stores *)

Record Store (D : Type) := mkStore {
  global : D;
  zones : gmap string D;
  hostZone : gmap string string;
  routeZone : gmap string string;
  hosts : list string;
  gen : Z;
  curEtag : string;
}.
Arguments mkStore {D}.
Arguments global {D}.
Arguments zones {D}.
Arguments hostZone {D}.
Arguments routeZone {D}.
Arguments hosts {D}.
Arguments gen {D}.
Arguments curEtag {D}.

(** The per-edge payload. *)
Record scopedSnapshot (D : Type) := mkScoped {
  s_generation : Z;
  s_global : D;
  s_zones : gmap string D;
  s_hostZone : gmap string string;
  s_routeZone : gmap string string;
  s_hosts : list string;
}.
Arguments mkScoped {D}.
Arguments s_generation {D}.
Arguments s_global {D}.
Arguments s_zones {D}.
Arguments s_hostZone {D}.
Arguments s_routeZone {D}.
Arguments s_hosts {D}.

(** [strings.IndexByte(pattern, '/')]. *)
Definition patternHost (pattern : string) : string :=
  match index_byte c_slash pattern with Some i => str_take i pattern | None => pattern end.

Section store.
Context `{!EtagOps} {D : Type}.

Definition newStore (empty : D) : Store D := mkStore empty ∅ ∅ ∅ [] 0 (etagOfString "").

(** One binding visited by a loop of [scoped]. *)
Definition bindStep (allow : string -> bool) (allZones : gmap string D)
    (acc : gmap string string * gmap string D) (kv : string * string) :
    gmap string string * gmap string D :=
  if negb (allow kv.1) then acc
  else (<[kv.1 := kv.2]> acc.1,
        match allZones !! kv.2 with Some rules => <[kv.2 := rules]> acc.2 | None => acc.2 end).

(** [hz] and [rz] are the orders in which the two maps are ranged over. *)
Definition scoped (allow : string -> bool) (hz rz : list (string * string)) (s : Store D) :
    scopedSnapshot D :=
  let '(hostZone, zs) := fold_left (bindStep allow (zones s)) hz (∅, ∅) in
  let '(routeZone, zs) := fold_left (bindStep (fun p => allow (patternHost p)) (zones s)) rz (∅, zs) in
  mkScoped (gen s) (global s) zs hostZone routeZone (List.filter allow (hosts s)).

Context (fingerprint : Store D -> string).

Definition recompute (s : Store D) : Store D :=
  let et := etagOfString (fingerprint s) in
  if String.eqb (curEtag s) et then s
  else mkStore (global s) (zones s) (hostZone s) (routeZone s) (hosts s) (u64 (gen s + 1)) et.

Definition SetGlobal (g : D) (s : Store D) : Store D :=
  recompute (mkStore g (zones s) (hostZone s) (routeZone s) (hosts s) (gen s) (curEtag s)).
Definition SetZones (zs : gmap string D) (s : Store D) : Store D :=
  recompute (mkStore (global s) zs (hostZone s) (routeZone s) (hosts s) (gen s) (curEtag s)).
(** The fields the store has; the others are passed as they are. *)
Definition SetIngressDerived (hz rz : gmap string string) (hs : list string) (s : Store D) : Store D :=
  recompute (mkStore (global s) (zones s) hz rz hs (gen s) (curEtag s)).

Definition Version (s : Store D) : string := curEtag s.

End store.

(** *** Fingerprints *)

Definition sortedKeys {A} (m : gmap string A) : list string := merge_sort str_le (map_to_list m).*1.

Definition concatStrings (l : list string) : string := foldr String.append "" l.

Definition writeSortedMap (m : gmap string string) : string :=
  concatStrings ((fun k => k +:+ "=" +:+ default "" (m !! k) +:+ byte 10) <$> sortedKeys m).

Definition writeDocs (docs : list string) : string :=
  concatStrings ((fun d => itoa (Z.of_nat (String.length d)) +:+ ":" +:+ d) <$> docs).

Definition writeZoneDocs (zs : gmap string (list string)) : string :=
  concatStrings ((fun k => k +:+ byte 1 +:+ writeDocs (default [] (zs !! k)) +:+ byte 1) <$> sortedKeys zs).

Definition wafFingerprint (s : Store string) : string :=
  global s +:+ byte 0 +:+ writeSortedMap (zones s) +:+ byte 0 +:+ writeSortedMap (hostZone s) +:+
  byte 0 +:+ writeSortedMap (routeZone s).
Definition corazaFingerprint (s : Store string) : string :=
  global s +:+ byte 0 +:+ writeSortedMap (zones s) +:+ byte 0 +:+ writeSortedMap (routeZone s).
Definition rateLimitFingerprint (s : Store (list string)) : string :=
  writeDocs (global s) +:+ byte 0 +:+ writeZoneDocs (zones s) +:+ byte 0 +:+
  writeSortedMap (hostZone s) +:+ byte 0 +:+ writeSortedMap (routeZone s) +:+ byte 0 +:+
  concatStrings ((fun h => h +:+ byte 1) <$> hosts s).
Definition cacheFingerprint (s : Store (list string)) : string :=
  writeDocs (global s) +:+ byte 0 +:+ writeZoneDocs (zones s) +:+ byte 0 +:+ writeSortedMap (routeZone s).

(** *** The host list *)

Record HostsStore := mkHosts { h_hosts : list string; h_gen : Z; h_etag : string }.

Definition NewHostsStore `{!EtagOps} : HostsStore := mkHosts [] 0 (etagOfString "").

Definition SetHosts `{!EtagOps} (hs : list string) (s : HostsStore) : HostsStore :=
  let et := etagOfString (concatStrings ((fun h => h +:+ byte 0) <$> hs)) in
  if String.eqb (h_etag s) et then mkHosts hs (h_gen s) (h_etag s)
  else mkHosts hs (u64 (h_gen s + 1)) et.

Definition hostsScoped (allow : string -> bool) (s : HostsStore) : Z * list string :=
  (h_gen s, merge_sort str_le (List.filter allow (h_hosts s))).

(** *** The reloads *)

Section reload.
Context `{!EtagOps}.

Definition reloadWaf (podNamespace : string) (cms : list ConfigMap) (s : Store string) : Store string :=
  let ps := projected wafLabelKey cms in
  SetZones wafFingerprint (collectZoneRules ps)
    (SetGlobal wafFingerprint (concatGlobalRules ps podNamespace) s).
Definition reloadCoraza (podNamespace : string) (cms : list ConfigMap) (s : Store string) : Store string :=
  let ps := projected corazaLabelKey cms in
  SetZones corazaFingerprint (collectCorazaZoneRules ps)
    (SetGlobal corazaFingerprint (concatGlobalCorazaRules ps podNamespace) s).
Definition reloadRateLimit (podNamespace : string) (cms : list ConfigMap) (s : Store (list string)) :
    Store (list string) :=
  let ps := projected rateLimitLabelKey cms in
  SetZones rateLimitFingerprint (collectZoneLimitDocs ps)
    (SetGlobal rateLimitFingerprint (collectGlobalLimitDocs ps podNamespace) s).
Definition reloadCache (podNamespace : string) (cms : list ConfigMap) (s : Store (list string)) :
    Store (list string) :=
  let ps := projected CacheLabelKey cms in
  SetZones cacheFingerprint (collectZoneCacheDocs ps)
    (SetGlobal cacheFingerprint (collectGlobalCacheDocs ps podNamespace) s).

End reload.

(** ** Ingresses to bindings *)

(** [zoneKeyOf], and the controller's [plugin.ZoneKey]. *)
Definition zoneKeyOf (ingressNamespace annotation : string) : option string :=
  let v := trim_space annotation in
  if String.eqb v "" then None
  else match index_byte c_slash v with
       | Some i =>
           let ns := trim_space (str_take i v) in
           let name := trim_space (str_drop (S i) v) in
           if String.eqb ns "" || String.eqb name "" || mem_char c_slash name then None
           else Some (ns +:+ "/" +:+ name)
       | None => Some (ingressNamespace +:+ "/" +:+ v)
       end.

Definition ruleHost (r : Rule) : string := to_lower (trim_space (Host r)).

Definition boundZone (annotation : string) (sameNamespaceOnly : bool) (ing : Ingress) : option string :=
  match zoneKeyOf (ing_Namespace ing) (default "" (Annotations ing !! annotation)) with
  | None => None
  | Some key =>
      if sameNamespaceOnly && negb (has_prefix key (ing_Namespace ing +:+ "/")) then None else Some key
  end.

Definition hostPairs (annotation : string) (sameNamespaceOnly : bool) (ing : Ingress) :
    list (string * string) :=
  match boundZone annotation sameNamespaceOnly ing with
  | None => []
  | Some key => (fun h => (h, key)) <$> List.filter (fun h => negb (String.eqb h "")) (ruleHost <$> Rules ing)
  end.

Definition buildHostZone (ings : list Ingress) : gmap string string :=
  insertAll (List.concat (hostPairs WAFZoneAnnotation false <$> ings)) ∅.
Definition buildRateLimitHostZone (ings : list Ingress) : gmap string string :=
  insertAll (List.concat (hostPairs RateLimitZoneAnnotation true <$> ings)) ∅.

Definition collectIngressHosts (ings : list Ingress) : list string :=
  merge_sort str_le (elements (list_to_set (List.filter (fun h => negb (String.eqb h ""))
    (List.concat ((fun ing => ruleHost <$> Rules ing) <$> ings))) : gset string)).

Definition routePatterns (host : string) (p : HTTPPath) : list string :=
  let path := if String.eqb (Path p) "" then "/" else Path p in
  let path := if has_prefix path "/" then path else "/" +:+ path in
  match default ImplementationSpecific (pathType p) with
  | Prefix =>
      let src := host +:+ trim_suffix_char c_slash path in
      (if negb (String.eqb path "/") then [src] else []) ++ [src +:+ "/"]
  | Exact => [if String.eqb path "/" then host +:+ path else host +:+ trim_suffix_char c_slash path]
  | _ => [host +:+ path]
  end.

Definition ruleRoutePairs (key : string) (r : Rule) : list (string * string) :=
  match HTTP r with
  | None => []
  | Some paths =>
      if String.eqb (ruleHost r) "" then []
      else (fun pat => (pat, key)) <$> List.concat (routePatterns (ruleHost r) <$> paths)
  end.

Definition routePairs (annotation : string) (sameNamespaceOnly : bool) (ing : Ingress) :
    list (string * string) :=
  match boundZone annotation sameNamespaceOnly ing with
  | None => []
  | Some key => List.concat (ruleRoutePairs key <$> Rules ing)
  end.

Definition buildZoneRoutes (ings : list Ingress) (annotation : string) (sameNamespaceOnly : bool) :
    gmap string string :=
  insertAll (List.concat (routePairs annotation sameNamespaceOnly <$> ings)) ∅.

(** [reload]: the stores that are wired. *)
Record Stores := mkStores {
  st_waf : option (Store string);
  st_coraza : option (Store string);
  st_rl : option (Store (list string));
  st_cache : option (Store (list string));
  st_hosts : option HostsStore;
}.

Definition reloadIngress `{!EtagOps} (ings : list Ingress) (ss : Stores) : Stores :=
  mkStores
    (SetIngressDerived wafFingerprint (buildHostZone ings) (buildZoneRoutes ings WAFZoneAnnotation false) []
       <$> st_waf ss)
    (SetIngressDerived corazaFingerprint ∅ (buildZoneRoutes ings CorazaZoneAnnotation false) []
       <$> st_coraza ss)
    (SetIngressDerived rateLimitFingerprint (buildRateLimitHostZone ings)
       (buildZoneRoutes ings RateLimitZoneAnnotation true) (collectIngressHosts ings) <$> st_rl ss)
    (SetIngressDerived cacheFingerprint ∅ (buildZoneRoutes ings CacheZoneAnnotation false) []
       <$> st_cache ss)
    (SetHosts (collectIngressHosts ings) <$> st_hosts ss).

End EdgeStores.

(** ** Lemmas *)

Module EdgeStoresLemmas.
Import Controller Reload EdgeStores.

(** *** Scoping *)

Section scoped.
Context {D : Type} (allow : string -> bool) (az : gmap string D).

Lemma bindLoop_bindings l acc k v :
  NoDup l.*1 -> (forall k', k' ∈ l.*1 -> acc.1 !! k' = None) ->
  (fold_left (bindStep allow az) l acc).1 !! k = Some v <->
  acc.1 !! k = Some v \/ ((k, v) ∈ l /\ allow k = true).
Proof.
  revert acc. induction l as [|[k0 v0] l IH]; intros acc Hnd Hf; simpl.
  { split; [by left|]. intros [?|[?%elem_of_nil _]]; done. }
  rewrite fmap_cons in Hnd. apply NoDup_cons in Hnd as [Hk0 Hnd]. simpl in Hk0.
  rewrite IH; [|done|].
  - unfold bindStep. simpl. destruct (allow k0) eqn:Ha; simpl.
    + destruct (decide (k = k0)) as [->|Hne].
      * rewrite lookup_insert_eq. split.
        -- intros [[= <-]|[Hin _]]; [right; split; [by left|done]|].
           destruct Hk0. by apply (list_elem_of_fmap_2 fst) in Hin.
        -- intros [H|[[[= <-]|Hin]%elem_of_cons _]]; [|by left|].
           ++ rewrite Hf in H; [done|]. by left.
           ++ destruct Hk0. by apply (list_elem_of_fmap_2 fst) in Hin.
      * rewrite lookup_insert_ne by done. split.
        -- intros [?|[? ?]]; [by left|]. right. split; [by right|done].
        -- intros [?|[[[= -> ->]|?]%elem_of_cons ?]]; [by left|done|by right].
    + split.
      * intros [?|[? ?]]; [by left|]. right. split; [by right|done].
      * intros [?|[[[= -> ->]|?]%elem_of_cons ?]]; [by left|congruence|by right].
  - intros k' Hk'. unfold bindStep. simpl. destruct (allow k0); simpl.
    + rewrite lookup_insert_ne by (intros ->; done). apply Hf. by right.
    + apply Hf. by right.
Qed.

Lemma bindLoop_zones l acc z r :
  (forall z r, acc.2 !! z = Some r -> az !! z = Some r) ->
  (fold_left (bindStep allow az) l acc).2 !! z = Some r <->
  acc.2 !! z = Some r \/ (az !! z = Some r /\ exists k, (k, z) ∈ l /\ allow k = true).
Proof.
  revert acc. induction l as [|[k0 z0] l IH]; intros acc Hag; simpl.
  { split; [by left|]. intros [?|(_ & k & ?%elem_of_nil & _)]; done. }
  assert (Hstep : forall z r, (bindStep allow az acc (k0, z0)).2 !! z = Some r <->
                    acc.2 !! z = Some r \/ (az !! z = Some r /\ z = z0 /\ allow k0 = true)).
  { intros z' r'. unfold bindStep. simpl. destruct (allow k0); simpl; [|naive_solver].
    destruct (az !! z0) as [r0|] eqn:Hz0; [|naive_solver].
    destruct (decide (z' = z0)) as [->|Hne].
    - rewrite lookup_insert_eq. split; [intros [= <-]; by right|].
      intros [H%Hag|(H & _)]; congruence.
    - rewrite lookup_insert_ne by done. naive_solver. }
  rewrite IH.
  - rewrite Hstep. split.
    + intros [[?|(? & -> & ?)]|(? & k & ? & ?)]; [by left|..].
      * right. split; [done|]. exists k0. split; [by left|done].
      * right. split; [done|]. exists k. split; [by right|done].
    + intros [?|(? & k & [[= -> ->]|?]%elem_of_cons & ?)]; [by left; left|by left; right|].
      right. eauto.
  - intros z' r'. rewrite Hstep. intros [?|(? & _)]; auto.
Qed.

End scoped.

(** What a payload holds, whatever the orders. *)
Lemma scoped_lookup {D} (allow : string -> bool) hz rz (s : Store D) :
  hz ≡ₚ map_to_list (hostZone s) -> rz ≡ₚ map_to_list (routeZone s) ->
  let p := scoped allow hz rz s in
  s_generation p = gen s /\ s_global p = global s /\
  (forall h z, s_hostZone p !! h = Some z <-> hostZone s !! h = Some z /\ allow h = true) /\
  (forall k z, s_routeZone p !! k = Some z <-> routeZone s !! k = Some z /\ allow (patternHost k) = true) /\
  (forall z rules, s_zones p !! z = Some rules <->
     zones s !! z = Some rules /\
     ((exists h, hostZone s !! h = Some z /\ allow h = true) \/
      (exists k, routeZone s !! k = Some z /\ allow (patternHost k) = true))) /\
  (forall h, h ∈ s_hosts p <-> h ∈ hosts s /\ allow h = true).
Proof.
  intros Hhz Hrz. unfold scoped.
  destruct (fold_left (bindStep allow (zones s)) hz (∅, ∅)) as [ho zs] eqn:Hf1.
  destruct (fold_left (bindStep _ (zones s)) rz (∅, zs)) as [ro zs'] eqn:Hf2. simpl.
  assert (Hnd1 : NoDup hz.*1) by (rewrite Hhz; apply NoDup_fst_map_to_list).
  assert (Hnd2 : NoDup rz.*1) by (rewrite Hrz; apply NoDup_fst_map_to_list).
  pose proof (fun k v => bindLoop_bindings allow (zones s) hz (∅, ∅) k v Hnd1
                (fun k' _ => lookup_empty k')) as H1.
  pose proof (fun k v => bindLoop_bindings (fun p => allow (patternHost p)) (zones s) rz (∅, zs) k v Hnd2
                (fun k' _ => lookup_empty k')) as H2.
  pose proof (fun z r => bindLoop_zones allow (zones s) hz (∅, ∅) z r
                ltac:(intros ? ? H; simpl in H; by rewrite lookup_empty in H)) as H3.
  rewrite Hf1 in H1, H3. rewrite Hf2 in H2. simpl in H1, H2, H3.
  pose proof (fun z r => bindLoop_zones (fun p => allow (patternHost p)) (zones s) rz (∅, zs) z r
                ltac:(intros ? ? H; simpl in H; apply H3 in H as [H|[H _]]; [by rewrite lookup_empty in H|done])) as H4.
  rewrite Hf2 in H4. simpl in H4. setoid_rewrite Hhz in H1. setoid_rewrite Hhz in H3.
  setoid_rewrite Hrz in H2. setoid_rewrite Hrz in H4.
  setoid_rewrite elem_of_map_to_list in H1. setoid_rewrite elem_of_map_to_list in H2.
  setoid_rewrite elem_of_map_to_list in H3. setoid_rewrite elem_of_map_to_list in H4.
  split; [done|]. split; [done|]. split; [|split; [|split]].
  - intros h z. rewrite H1, lookup_empty. naive_solver.
  - intros k z. rewrite H2, lookup_empty. naive_solver.
  - intros z r. rewrite H4, H3, lookup_empty. naive_solver.
  - intros h. rewrite !list_elem_of_In, List.filter_In. done.
Qed.

Lemma sorted_strings_nodup (l : gset string) x : x ∈ merge_sort str_le (elements l) <-> x ∈ l.
Proof. by rewrite merge_sort_Permutation, elem_of_elements. Qed.

(** *** Bindings *)

Lemma normPath_patterns host p k :
  k ∈ routeKeys host (normPath (Path p)) (default ImplementationSpecific (pathType p)) ->
  k ∈ routePatterns host p.
Proof.
  unfold routePatterns, normPath, routeKeys.
  destruct (default ImplementationSpecific (pathType p)); try done.
  - by destruct (String.eqb _ "/").
  - by intros ?%elem_of_nil.
Qed.

Lemma pathRoutes_patterns services ing host p k h :
  (k, h) ∈ pathRoutes services ing host p -> k ∈ routePatterns (to_lower host) p.
Proof.
  unfold pathRoutes. destruct (pathHandler services ing p); [|by intros ?%elem_of_nil].
  intros (x & [= -> _] & Hx)%list_elem_of_fmap. by apply normPath_patterns.
Qed.

Lemma ruleRoutes_pairs services ing r k h key :
  (k, h) ∈ ruleRoutes services ing r -> trim_space (Host r) = Host r -> Host r <> "" ->
  (k, key) ∈ ruleRoutePairs key r.
Proof.
  unfold ruleRoutes, ruleRoutePairs, ruleHost. destruct (HTTP r) as [paths|]; [|by intros ?%elem_of_nil].
  intros Hin -> Hne. destruct (String.eqb_spec (to_lower (Host r)) "") as [He|_].
  { by destruct (Host r). }
  apply list_elem_of_fmap. exists k. split; [done|].
  apply list_elem_of_In, in_concat in Hin as (l & Hl & Hk). apply in_map_iff in Hl as (p & <- & Hp).
  apply list_elem_of_In, in_concat. exists (routePatterns (to_lower (Host r)) p).
  split; [by apply in_map|]. apply list_elem_of_In. eapply pathRoutes_patterns. by apply list_elem_of_In.
Qed.

Lemma routePairs_elem ings ann same k key :
  (k, key) ∈ List.concat (routePairs ann same <$> ings) <->
  exists ing r, ing ∈ ings /\ r ∈ Rules ing /\ boundZone ann same ing = Some key /\
                (k, key) ∈ ruleRoutePairs key r.
Proof.
  rewrite list_elem_of_In, in_concat. split.
  - intros (l & (ing & <- & Hi)%in_map_iff & Hk). unfold routePairs in Hk.
    destruct (boundZone ann same ing) as [key'|] eqn:Hb; [|done].
    apply in_concat in Hk as (l' & (r & <- & Hr)%in_map_iff & Hk).
    assert (key' = key) as ->.
    { unfold ruleRoutePairs in Hk. destruct (HTTP r); [|done]. destruct (String.eqb _ ""); [done|].
      by apply in_map_iff in Hk as (? & [= _ ->] & _). }
    exists ing, r. by rewrite !list_elem_of_In.
  - intros (ing & r & Hi & Hr & Hb & Hk). exists (routePairs ann same ing).
    split; [by apply in_map, list_elem_of_In|]. unfold routePairs. rewrite Hb.
    apply in_concat. exists (ruleRoutePairs key r). split; [by apply in_map, list_elem_of_In|].
    by apply list_elem_of_In.
Qed.

(** *** What both sides collect *)

(** A ConfigMap of the feature that one side would refuse is refused by the other. *)
Definition labelsAgree (label : string) (cm : ConfigMap) : Prop :=
  Reload.carriesOtherFeatureLabel cm label = None <-> EdgeStores.carriesOtherFeatureLabel cm label = None.

Lemma globalsOf_projected label pod cms :
  Forall (labelsAgree label) cms ->
  globalsOf label pod (projected label cms) = List.filter (ReloadLemmas.isGlobal label pod) cms.
Proof.
  unfold globalsOf, projected. intros HF. induction HF as [|cm cms Ha _ IH]; [done|]. simpl.
  unfold labelsAgree in Ha. unfold ReloadLemmas.isGlobal at 1, ReloadLemmas.roleOf at 1.
  destruct (String.eqb_spec (default "" (Reload.Labels cm !! label)) roleGlobal) as [Hr|Hr]; simpl.
  - destruct (EdgeStores.carriesOtherFeatureLabel cm label), (Reload.carriesOtherFeatureLabel cm label);
      simpl; rewrite ?Hr, ?andb_true_r, ?andb_false_r; simpl;
      try (destruct Ha as [Ha1 Ha2]; (discriminate (Ha1 eq_refl) || discriminate (Ha2 eq_refl))); try done.
    rewrite IH. by destruct (String.eqb (cm_Namespace cm) pod).
  - destruct (String.eqb (default "" (Reload.Labels cm !! label)) roleZone &&
      match EdgeStores.carriesOtherFeatureLabel cm label with Some _ => true | None => false end);
      simpl; [done|]. by rewrite (proj2 (String.eqb_neq _ _) Hr).
Qed.

Lemma globalDocs_agree label pod cms :
  Forall (labelsAgree label) cms ->
  globalDocsOf label pod (projected label cms) = Reload.globalDocs (gather label pod cms).
Proof.
  intros HF. unfold globalDocsOf, Reload.globalDocs, gather.
  by rewrite ReloadLemmas.gather_globalCMs, globalsOf_projected.
Qed.

Lemma visit_zone_agree label pod cm g :
  labelsAgree label cm ->
  zoneDocs (visit label pod g cm) =
  fold_left (appendZoneStep label) (projected label [cm]) (zoneDocs g).
Proof.
  intros Ha. unfold labelsAgree in Ha. rewrite ReloadLemmas.visit_spec. unfold projected. simpl.
  unfold ReloadLemmas.isGlobal, ReloadLemmas.isZone, ReloadLemmas.roleOf.
  destruct (String.eqb_spec (default "" (Reload.Labels cm !! label)) roleGlobal) as [Hr|Hr]; simpl.
  - assert (Hz : isZoneCM label cm = false) by (unfold isZoneCM; by rewrite Hr).
    assert (Hz' : String.eqb (default "" (Reload.Labels cm !! label)) roleZone = false) by (by rewrite Hr).
    rewrite Hz'. simpl.
    destruct (EdgeStores.carriesOtherFeatureLabel cm label); simpl; unfold appendZoneStep; rewrite ?Hz;
      by destruct (String.eqb (cm_Namespace cm) pod && _).
  - destruct (String.eqb (default "" (Reload.Labels cm !! label)) roleZone) eqn:Hz; simpl.
    + destruct (EdgeStores.carriesOtherFeatureLabel cm label), (Reload.carriesOtherFeatureLabel cm label);
        try (destruct Ha as [Ha1 Ha2]; (discriminate (Ha1 eq_refl) || discriminate (Ha2 eq_refl))); try done.
      simpl. unfold appendZoneStep, isZoneCM. by rewrite Hz.
    + unfold appendZoneStep, isZoneCM. by rewrite Hz.
Qed.

Lemma zoneDocs_agree label pod cms :
  Forall (labelsAgree label) cms ->
  fold_left (appendZoneStep label) (projected label cms) ∅ = zoneDocs (gather label pod cms).
Proof.
  intros HF. unfold gather. change (∅ : gmap string (list string)) with (zoneDocs (mkGathered [] ∅)) at 1.
  generalize (mkGathered [] ∅). induction HF as [|cm cms Ha _ IH]; intros g; [done|].
  cbn [fold_left]. rewrite <- IH, (visit_zone_agree label pod cm g Ha). unfold projected. simpl.
  by destruct (negb _).
Qed.

Lemma Join_lines docs : Join (byte 10) docs = Coraza.joinLines docs.
Proof. induction docs as [|d [|d' docs] IH]; [done..|]. simpl in *. by rewrite IH. Qed.

End EdgeStoresLemmas.

Module EdgeStoresProps.
Import Controller Reload EdgeStores EdgeStoresLemmas.

Section props.
Context {ops : EtagOps}.

Lemma recompute_global {D} (fp : Store D -> string) s : global (recompute fp s) = global s.
Proof. unfold recompute. by destruct (String.eqb _ _). Qed.
Lemma recompute_zones {D} (fp : Store D -> string) s : zones (recompute fp s) = zones s.
Proof. unfold recompute. by destruct (String.eqb _ _). Qed.

(** C30: an edge gets exactly what its hosts need. Whatever the order in which the
    maps are ranged over, the payload holds the baseline, the bindings and the known
    hosts of hosts the edge may serve, and a zone's rules exactly when one of those
    bindings refers to the zone and the zone is loaded: never another tenant's zone,
    never a binding without its rules while they are loaded. *)
Theorem scoped_exact {D} (allow : string -> bool) hz rz (s : Store D) :
  hz ≡ₚ map_to_list (hostZone s) -> rz ≡ₚ map_to_list (routeZone s) ->
  let p := scoped allow hz rz s in
  s_generation p = gen s /\ s_global p = global s /\
  (forall h z, s_hostZone p !! h = Some z <-> hostZone s !! h = Some z /\ allow h = true) /\
  (forall k z, s_routeZone p !! k = Some z <-> routeZone s !! k = Some z /\ allow (patternHost k) = true) /\
  (forall z rules, s_zones p !! z = Some rules <->
     zones s !! z = Some rules /\
     ((exists h, hostZone s !! h = Some z /\ allow h = true) \/
      (exists k, routeZone s !! k = Some z /\ allow (patternHost k) = true))) /\
  (forall h, h ∈ s_hosts p <-> h ∈ hosts s /\ allow h = true).
Proof. apply scoped_lookup. Qed.

(** The edge resolves a request's zone where the core does. Every route key the
    controller registers for an ingress that an annotation binds to a zone is a
    pattern the control plane binds to that zone, unless another bound ingress
    declares the same pattern. *)
Theorem zone_bindings_cover_core ings ann same services ing r k h key :
  ing ∈ ings -> r ∈ Rules ing -> trim_space (Host r) = Host r -> Host r <> "" ->
  boundZone ann same ing = Some key -> (k, h) ∈ ruleRoutes services ing r ->
  (forall ing' r' key', ing' ∈ ings -> r' ∈ Rules ing' -> boundZone ann same ing' = Some key' ->
     (k, key') ∈ ruleRoutePairs key' r' -> key' = key) ->
  buildZoneRoutes ings ann same !! k = Some key.
Proof.
  intros Hi Hr Ht Hne Hb Hk Hu. unfold buildZoneRoutes. apply insertAll_iff.
  - assert (Hall : forall v, (k, v) ∈ List.concat (routePairs ann same <$> ings) -> v = key).
    { intros v (ing' & r' & ? & ? & ? & ?)%routePairs_elem. by eapply Hu. }
    intros v1 v2 ->%Hall ->%Hall. done.
  - apply routePairs_elem. exists ing, r. split; [done|]. split; [done|]. split; [done|].
    by eapply ruleRoutes_pairs.
Qed.

(** An ingress that the controller does not serve can move a route of another
    tenant to a zone of its own at the edges. The control plane does not look at the
    ingress class: whatever is bound and served, an ingress listed last that declares
    the same host and path decides the zone of the pattern, while the controller's
    routes do not change. *)
Theorem unserved_ingress_rebinds_zone ings ing r k key :
  getIngressClass ing <> IngressClass -> r ∈ Rules ing ->
  boundZone WAFZoneAnnotation false ing = Some key -> (k, key) ∈ ruleRoutePairs key r ->
  buildZoneRoutes (ings ++ [ing]) WAFZoneAnnotation false !! k = Some key /\
  forall plugins services m, loadIngress plugins services m ing = m.
Proof.
  intros Hc Hr Hb Hk. split.
  - unfold buildZoneRoutes. rewrite fmap_app, concat_app, insertAll_app. simpl. rewrite app_nil_r.
    set (m := insertAll (List.concat (routePairs _ _ <$> ings)) ∅).
    assert (Hin : (k, key) ∈ List.concat (routePairs WAFZoneAnnotation false <$> [ing])).
    { apply routePairs_elem. exists ing, r. repeat split; try done. by apply list_elem_of_singleton. }
    simpl in Hin. rewrite app_nil_r in Hin.
    rewrite (insertAll_over _ m ∅) by eauto. apply insertAll_iff; [|done].
    assert (Hall : forall v, (k, v) ∈ routePairs WAFZoneAnnotation false ing -> v = key).
    { intros v Hv. assert (Hv' : (k, v) ∈ List.concat (routePairs WAFZoneAnnotation false <$> [ing]))
        by (simpl; by rewrite app_nil_r).
      apply routePairs_elem in Hv' as (ing' & r' & ->%list_elem_of_singleton & _ & Hb' & _). congruence. }
    by intros v1 v2 ->%Hall ->%Hall.
  - intros plugins services m. unfold loadIngress. by rewrite (proj2 (String.eqb_neq _ _) Hc).
Qed.

(** Edges are sent what the controller loads. For ConfigMaps that both sides accept
    or both refuse, the rate-limit documents and zones in the store are those of the
    controller's pass, and the Coraza baseline, joined for the wire, compiles from the
    same directives. *)
Theorem edges_get_the_core_documents pod cms (rl : Store (list string)) (cz : Store string) :
  Forall (labelsAgree rateLimitLabelKey) cms -> Forall (labelsAgree corazaLabelKey) cms ->
  global (reloadRateLimit pod cms rl) = Reload.globalDocs (gather rateLimitLabelKey pod cms) /\
  zones (reloadRateLimit pod cms rl) = zoneDocs (gather rateLimitLabelKey pod cms) /\
  Coraza.directivesOf [global (reloadCoraza pod cms cz)] =
    Coraza.directivesOf (Reload.globalDocs (gather corazaLabelKey pod cms)).
Proof.
  intros Hr Hc. unfold reloadRateLimit, reloadCoraza, SetZones, SetGlobal.
  repeat (rewrite ?recompute_global, ?recompute_zones; simpl).
  split; [|split].
  - by apply globalDocs_agree.
  - by apply zoneDocs_agree.
  - unfold Coraza.directivesOf, concatGlobalCorazaRules.
    rewrite (globalDocs_agree corazaLabelKey pod cms Hc), Join_lines. done.
Qed.

Lemma globalDocs_one label pod cm :
  Reload.globalDocs (gather label pod [cm]) =
  if ReloadLemmas.isGlobal label pod cm then sortedDataValues (Data cm) else [].
Proof.
  unfold Reload.globalDocs, gather. rewrite ReloadLemmas.gather_globalCMs. simpl.
  destruct (ReloadLemmas.isGlobal label pod cm); simpl; [by rewrite app_nil_r|done].
Qed.

Lemma globalDocsOf_one label pod cm :
  globalDocsOf label pod (projected label [cm]) =
  if String.eqb (default "" (Reload.Labels cm !! label)) roleGlobal && String.eqb (cm_Namespace cm) pod &&
     match EdgeStores.carriesOtherFeatureLabel cm label with None => true | Some _ => false end
  then sortedValues (Data cm) else [].
Proof.
  unfold globalDocsOf, globalsOf, projected. simpl.
  destruct (String.eqb (default "" (Reload.Labels cm !! label)) roleGlobal) eqn:Hr; simpl.
  - destruct (EdgeStores.carriesOtherFeatureLabel cm label); simpl; [by rewrite andb_false_r|].
    rewrite Hr, andb_true_r. simpl. destruct (String.eqb _ pod); simpl; [by rewrite app_nil_r|done].
  - destruct (negb _); simpl; by rewrite ?Hr.
Qed.

(** A ConfigMap labelled for the WAF and for transforms is refused by the controller,
    and its rules are sent to every edge; one labelled for the WAF and for the cache
    is loaded by the controller and never sent. *)
Theorem feature_labels_disagree pod doc :
  doc <> "" ->
  let cm other := mkCM pod "both" {[ wafLabelKey := roleGlobal; other := roleZone ]} {[ "rules" := doc ]} in
  (Reload.globalDocs (gather wafLabelKey pod [cm transformLabelKey]) = [] /\
   global (reloadWaf pod [cm transformLabelKey] (newStore "")) = doc) /\
  (Reload.globalDocs (gather wafLabelKey pod [cm CacheLabelKey]) = [doc] /\
   global (reloadWaf pod [cm CacheLabelKey] (newStore "")) = "").
Proof.
  intros Hd cm.
  assert (Hv : sortedDataValues (Data (cm transformLabelKey)) = [doc])
    by (unfold sortedDataValues; simpl; by rewrite map_to_list_singleton).
  assert (Hr : forall other, other <> wafLabelKey ->
            default "" (Reload.Labels (cm other) !! wafLabelKey) = roleGlobal).
  { intros other Ho. simpl. by rewrite lookup_insert_eq. }
  assert (Hc1 : Reload.carriesOtherFeatureLabel (cm transformLabelKey) wafLabelKey = Some transformLabelKey)
    by (vm_compute; reflexivity).
  assert (Hc2 : EdgeStores.carriesOtherFeatureLabel (cm transformLabelKey) wafLabelKey = None)
    by (vm_compute; reflexivity).
  assert (Hc3 : Reload.carriesOtherFeatureLabel (cm CacheLabelKey) wafLabelKey = None)
    by (vm_compute; reflexivity).
  assert (Hc4 : EdgeStores.carriesOtherFeatureLabel (cm CacheLabelKey) wafLabelKey = Some CacheLabelKey)
    by (vm_compute; reflexivity).
  unfold reloadWaf, SetZones, SetGlobal. repeat (rewrite ?recompute_global; cbn [global]).
  unfold concatGlobalRules. rewrite !globalDocs_one, !globalDocsOf_one.
  unfold ReloadLemmas.isGlobal, ReloadLemmas.roleOf. rewrite !Hr, Hc1, Hc2, Hc3, Hc4 by done.
  change (cm_Namespace (cm CacheLabelKey)) with pod. change (cm_Namespace (cm transformLabelKey)) with pod.
  change (sortedValues (Data (cm transformLabelKey))) with (sortedDataValues (Data (cm transformLabelKey))).
  change (sortedDataValues (Data (cm CacheLabelKey))) with (sortedDataValues (Data (cm transformLabelKey))).
  rewrite Hv, !String.eqb_refl. split; split; reflexivity.
Qed.

(** The content of two WAF stores can differ and have one fingerprint, so a change
    of zones can leave the generation and the version in place. *)
Theorem waf_fingerprint_collides :
  exists zs zs' : gmap string string, zs <> zs' /\
    forall s : Store string, curEtag s = etagOfString (wafFingerprint s) -> zones s = zs ->
      Version (SetZones wafFingerprint zs' s) = Version s /\ gen (SetZones wafFingerprint zs' s) = gen s.
Proof.
  exists {[ "a/x" := "1"; "a/y" := "2" ]}, {[ "a/x" := "1" +:+ byte 10 +:+ "a/y=2" ]}. split.
  { intros He. assert (Hl : ({[ "a/x" := "1"; "a/y" := "2" ]} : gmap string string) !! "a/y" = None)
      by (rewrite He; by vm_compute). by vm_compute in Hl. }
  intros s He Hz. unfold SetZones, recompute.
  match goal with |- context [wafFingerprint ?st] =>
    assert (Hf : wafFingerprint st = wafFingerprint s) by (unfold wafFingerprint; simpl; rewrite Hz; by vm_compute) end.
  rewrite Hf. simpl. by rewrite He, String.eqb_refl.
Qed.

End props.

(** *** Witnesses *)

#[export] Instance toyEtag : EtagOps := { hexSum16 s := s }.

Definition demoPath (p : string) : HTTPPath :=
  mkPath p (Some Prefix) (Some (mkBackend "web" "" 80)).
Definition demoIngress (ns class zone : string) : Ingress :=
  mkIngress ns "ing" (Some class) {[ WAFZoneAnnotation := zone ]}
    [mkRule "App.example" (Some [demoPath "/api"])] [].
Definition demoStore : Store string :=
  mkStore "base" {[ "t/a" := "rules-a"; "u/b" := "rules-b" ]} {[ "app.example" := "t/a" ]}
    {[ "app.example/" := "t/a"; "other.example/" := "u/b" ]} ["app.example"] 3 "".

Lemma scoped_exact_witness :
  let allow := String.eqb "app.example" in
  let p := scoped allow (map_to_list (hostZone demoStore)) (map_to_list (routeZone demoStore)) demoStore in
  s_zones p = {[ "t/a" := "rules-a" ]} /\
  (s_generation p = gen demoStore /\ s_global p = global demoStore /\
   (forall h z, s_hostZone p !! h = Some z <-> hostZone demoStore !! h = Some z /\ allow h = true) /\
   (forall k z, s_routeZone p !! k = Some z <->
      routeZone demoStore !! k = Some z /\ allow (patternHost k) = true) /\
   (forall z rules, s_zones p !! z = Some rules <->
      zones demoStore !! z = Some rules /\
      ((exists h, hostZone demoStore !! h = Some z /\ allow h = true) \/
       (exists k, routeZone demoStore !! k = Some z /\ allow (patternHost k) = true))) /\
   (forall h, h ∈ s_hosts p <-> h ∈ hosts demoStore /\ allow h = true)).
Proof. split; [vm_compute; reflexivity|]. by apply scoped_exact. Defined.

Definition demoService : Service :=
  mkService "t" "web" (OtherServiceType "") "" [mkSvcPort "http" 80 (IntVal 8080) None].

Lemma zone_bindings_cover_core_witness :
  buildZoneRoutes [demoIngress "t" "parapet" "a"] WAFZoneAnnotation false !! "app.example/api/" = Some "t/a".
Proof.
  eapply (zone_bindings_cover_core _ _ _ {[ "t/web" := demoService ]} (demoIngress "t" "parapet" "a")
            (mkRule "App.example" (Some [demoPath "/api"])) _
            (HBackend (mkHandler (demoIngress "t" "parapet" "a") demoService (mkConfig "" "http" 80)
                         (buildHostPort "t" "web" 80)))).
  - by left.
  - by left.
  - done.
  - done.
  - vm_compute. reflexivity.
  - apply elem_of_cons. right. apply elem_of_cons. left. vm_compute. reflexivity.
  - intros ing' r' key' ->%list_elem_of_singleton _ Hb _. vm_compute in Hb. congruence.
Defined.

Lemma unserved_ingress_rebinds_zone_witness :
  let bad := demoIngress "evil" "nginx" "lax" in
  buildZoneRoutes [demoIngress "t" "parapet" "a"] WAFZoneAnnotation false !! "app.example/api/" = Some "t/a" /\
  buildZoneRoutes ([demoIngress "t" "parapet" "a"] ++ [bad]) WAFZoneAnnotation false !! "app.example/api/"
    = Some "evil/lax" /\
  forall plugins services m, loadIngress plugins services m bad = m.
Proof.
  split; [vm_compute; reflexivity|].
  apply (unserved_ingress_rebinds_zone [demoIngress "t" "parapet" "a"] (demoIngress "evil" "nginx" "lax")
    (mkRule "App.example" (Some [demoPath "/api"]))).
  - done.
  - by left.
  - vm_compute. reflexivity.
  - apply elem_of_cons. right. apply elem_of_cons. left. vm_compute. reflexivity.
Defined.

Definition demoRL : list ConfigMap :=
  [ReloadLemmas.demoCM "sys" "g" rateLimitLabelKey roleGlobal "l1";
   ReloadLemmas.demoCM "t" "z" rateLimitLabelKey roleZone "l2";
   ReloadLemmas.demoCM "sys" "c" corazaLabelKey roleGlobal "SecRuleEngine On"].

Lemma edges_get_the_core_documents_witness :
  global (reloadRateLimit "sys" demoRL (newStore [])) = Reload.globalDocs (gather rateLimitLabelKey "sys" demoRL) /\
  zones (reloadRateLimit "sys" demoRL (newStore [])) = zoneDocs (gather rateLimitLabelKey "sys" demoRL) /\
  Coraza.directivesOf [global (reloadCoraza "sys" demoRL (newStore ""))] =
    Coraza.directivesOf (Reload.globalDocs (gather corazaLabelKey "sys" demoRL)).
Proof.
  apply edges_get_the_core_documents.
  - repeat (apply Forall_cons; split); try constructor; by vm_compute.
  - repeat (apply Forall_cons; split); try constructor; by vm_compute.
Defined.

End EdgeStoresProps.
