(* ===== verification/ServeMux.v ===== *)
(** * Request multiplexing

    What the code uses of [net/http]'s [ServeMux]: registering patterns, and finding
    the handler of a request.  [MuxOps] is that interface.  [Lit] is the library's
    algorithm on the patterns without a method and without wildcards, a routing tree
    per host in which a trailing slash matches any rest: its nodes are the keys of a
    map, and the search visits them in the library's order.  Requests other than
    CONNECT, whose host has no port. *)

From S2P Require Import Prelude GoString GoURL.

Set Default Proof Using "Type".

(** A request: the host, and [URL.EscapedPath]. *)
Record MuxRequest := mkMuxRequest { r_host : string; r_path : string }.

(** A mux whose handlers carry a [V]; [MuxHandle] is [None] when it panics, and
    [MuxHandler] is [None] when the answer is a redirect or not found. *)
Class MuxOps (V M : Type) := {
  NewServeMux : M;
  MuxHandle : string -> V -> M -> option M;
  MuxHandler : M -> MuxRequest -> option V;
}.

Module Lit.

(** A node of the tree: the host, the segments, and whether the pattern ends with a
    slash. *)
#[local] Abbreviation key := (string * list string * bool)%type.

#[local] Abbreviation tree V := (gmap key (string * V)).

Definition pathUnescape (s : string) : string := default s (unescape encodePath s).

(** A pattern of the library's full syntax: a method, or a wildcard. *)
Definition literal (pat : string) : bool :=
  negb (mem_char "{" pat || mem_char " " pat || mem_char (ascii_of_nat 9) pat).

(** The segments after the first slash; an empty last one is a trailing slash. *)
Fixpoint segmentsOf (l : list string) : list string * bool :=
  match l with
  | [] => ([], false)
  | [""] => ([], true)
  | s :: l => let '(ss, multi) := segmentsOf l in (pathUnescape s :: ss, multi)
  end.

Definition parsePattern (pat : string) : option key :=
  match index_byte c_slash pat with
  | None => None
  | Some i =>
      let '(ss, multi) := segmentsOf (split_char c_slash (str_drop (S i) pat)) in
      Some (str_take i pat, ss, multi)
  end.

Section mux.
Context {V : Type}.

(** A malformed pattern panics, and so does one that matches the same requests as an
    earlier one. *)
Definition register (pat : string) (v : V) (m : tree V) : option (tree V) :=
  if negb (literal pat) then None
  else match parsePattern pat with
       | None => None
       | Some k => match m !! k with Some _ => None | None => Some (<[k := (pat, v)]> m) end
       end.

(** The segments of a path that starts with a slash, as [firstSegment] yields them: a
    trailing slash is the segment ["/"]. *)
Fixpoint requestSegments (l : list string) : list string :=
  match l with
  | [] => []
  | [""] => ["/"]
  | s :: l => pathUnescape s :: requestSegments l
  end.

Definition pathSegments (path : string) : list string :=
  requestSegments (split_char c_slash (str_drop 1 path)).

(** A literal child is tried first, then the trailing slash of the node itself. *)
Fixpoint matchPath (m : tree V) (host : string) (pre rest : list string) : option (key * (string * V)) :=
  match rest with
  | [] => (fun pv => ((host, pre, false), pv)) <$> m !! (host, pre, false)
  | s :: rest =>
      match matchPath m host (pre ++ [s]) rest with
      | Some x => Some x
      | None => (fun pv => ((host, pre, true), pv)) <$> m !! (host, pre, true)
      end
  end.

Definition matchTree (m : tree V) (host path : string) : option (key * (string * V)) :=
  let segs := pathSegments path in
  match (if String.eqb host "" then None else matchPath m host [] segs) with
  | Some x => Some x
  | None => matchPath m "" [] segs
  end.

Definition has_slash_suffix (s : string) : bool :=
  match last_index_byte c_slash s with
  | Some i => Nat.eqb (S i) (String.length s)
  | None => false
  end.

Definition exactMatch (n : option (key * (string * V))) (path : string) : bool :=
  match n with
  | None => false
  | Some ((_, ss, multi), _) =>
      if negb multi then true
      else if negb (has_slash_suffix path) then false
      else Nat.eqb (S (length ss)) (count_char c_slash path)
  end.

(** [cleanPath path == path]. *)
Definition cleanSegment (s : string) : bool :=
  negb (String.eqb s "" || String.eqb s "." || String.eqb s "..").
Fixpoint cleanSegments (l : list string) : bool :=
  match l with
  | [] => true
  | [s] => negb (String.eqb s "." || String.eqb s "..")
  | s :: l => cleanSegment s && cleanSegments l
  end.
Definition isClean (path : string) : bool :=
  has_prefix path "/" && cleanSegments (split_char c_slash (str_drop 1 path)).

(** [ServeMux.Handler]: a path that is not clean is redirected, and so is one that
    only a registered path with a trailing slash matches exactly. *)
Definition find (m : tree V) (r : MuxRequest) : option (string * V) :=
  if negb (isClean (r_path r)) then None
  else
    let n := matchTree m (r_host r) (r_path r) in
    if negb (exactMatch n (r_path r)) && negb (has_slash_suffix (r_path r)) &&
       exactMatch (matchTree m (r_host r) (r_path r +:+ "/")) (r_path r +:+ "/")
    then None
    else snd <$> n.

(** Patterns registered one by one; one that panics is skipped. *)
Definition registerStep (m : tree V) (kv : string * V) : tree V := default m (register kv.1 kv.2 m).
Definition registerAll (l : list (string * V)) : tree V := fold_left registerStep l ∅.

End mux.

Example lit_ex :
  let m := registerAll [("a.example/", 1); ("a.example/x", 2); ("a.example/x/", 3); ("/", 4); ("bad", 5)] in
  (fun r => snd <$> find m r) <$> [mkMuxRequest "a.example" "/"; mkMuxRequest "a.example" "/x";
    mkMuxRequest "a.example" "/x/y/z"; mkMuxRequest "b.example" "/q"; mkMuxRequest "a.example" "/x//y";
    mkMuxRequest "a.example" "/xy"]
  = [Some 1; Some 2; Some 3; Some 4; None; Some 1].
Proof. vm_compute. reflexivity. Qed.

Example lit_redirect :
  let m := registerAll [("a.example/", 1); ("a.example/x/", 3)] in
  find m (mkMuxRequest "a.example" "/x") = None.
Proof. vm_compute. reflexivity. Qed.

(** ** Lemmas *)

Section lemmas.
Context {V : Type}.

Lemma matchPath_host (c : tree V) host pre rest k pv :
  matchPath c host pre rest = Some (k, pv) -> k.1.1 = host /\ c !! k = Some pv.
Proof.
  revert pre. induction rest as [|s rest IH]; intros pre; simpl.
  - destruct (c !! _) eqn:Hc; simpl; [|done]. by intros [= <- <-].
  - destruct (matchPath c host (pre ++ [s]) rest) as [x|] eqn:Hm; [intros [= ->]; by eapply IH|].
    destruct (c !! (host, pre, true)) eqn:Hc; simpl; [|done]. by intros [= <- <-].
Qed.

(** The pattern of a match without trailing slash has all the segments, one with a
    trailing slash fewer. *)
Lemma matchPath_length (c : tree V) host pre rest k pv :
  matchPath c host pre rest = Some (k, pv) ->
  length pre <= length k.1.2 /\
  if k.2 then length k.1.2 < length pre + length rest else length k.1.2 = length pre + length rest.
Proof.
  revert pre. induction rest as [|s rest IH]; intros pre; simpl.
  - destruct (c !! _); simpl; [|done]. intros [= <- <-]. simpl. lia.
  - destruct (matchPath c host (pre ++ [s]) rest) as [x|] eqn:Hm.
    + intros [= ->]. apply IH in Hm. rewrite length_app in Hm. simpl in Hm. destruct k.2; lia.
    + destruct (c !! _); simpl; [|done]. intros [= <- <-]. simpl. lia.
Qed.

End lemmas.

Section restrict.
Context {V W : Type}.

(** A tree that holds, of a host, exactly some of another tree's patterns. *)
Definition restricts (host : string) (zone : V -> option W) (e : tree W) (c : tree V) : Prop :=
  forall ss multi, e !! (host, ss, multi) =
    match c !! (host, ss, multi) with Some (pat, v) => (fun w => (pat, w)) <$> zone v | None => None end.

Section restricts.
Context (host : string) (zone : V -> option W) (e : tree W) (c : tree V).
Context (Hr : restricts host zone e c).

Lemma matchPath_none pre rest : matchPath c host pre rest = None -> matchPath e host pre rest = None.
Proof using Hr.
  revert pre. induction rest as [|s rest IH]; intros pre; simpl.
  - rewrite (Hr pre false). by destruct (c !! _).
  - destruct (matchPath c host (pre ++ [s]) rest) eqn:Hm; [done|].
    rewrite (IH _ Hm), (Hr pre true). by destruct (c !! _).
Qed.

Lemma matchPath_restricts pre rest k pat v w :
  matchPath c host pre rest = Some (k, (pat, v)) -> zone v = Some w ->
  matchPath e host pre rest = Some (k, (pat, w)).
Proof using Hr.
  revert pre. induction rest as [|s rest IH]; intros pre; simpl.
  - rewrite (Hr pre false). destruct (c !! _) as [[pat' v']|]; simpl; [|done].
    intros [= <- <- <-] Hf. by rewrite Hf.
  - destruct (matchPath c host (pre ++ [s]) rest) as [x|] eqn:Hm.
    + intros [= ->] Hf. by rewrite (IH _ Hm Hf).
    + rewrite (matchPath_none _ _ Hm), (Hr pre true). destruct (c !! _) as [[pat' v']|]; simpl; [|done].
      intros [= <- <- <-] Hf. by rewrite Hf.
Qed.

(** The larger tree's match is the same pattern or a longer one. *)
Lemma matchPath_longer pre rest k pv :
  matchPath e host pre rest = Some (k, pv) ->
  exists k' pv', matchPath c host pre rest = Some (k', pv') /\
                 (length k.1.2 < length k'.1.2 \/ k = k').
Proof using Hr.
  revert pre. induction rest as [|s rest IH]; intros pre; simpl.
  - rewrite (Hr pre false). destruct (c !! _) as [[pat v]|]; simpl; [|done]. destruct (zone v); simpl; [|done].
    intros [= <- <-]. eexists _, _. split; [done|]. by right.
  - destruct (matchPath e host (pre ++ [s]) rest) as [x|] eqn:Hm.
    + intros [= ->]. destruct (IH _ Hm) as (k' & pv' & -> & Hle). eauto.
    + rewrite (Hr pre true). destruct (c !! _) as [[pat v]|] eqn:Hc; simpl; [|done].
      destruct (zone v); simpl; [|done]. intros [= <- <-].
      destruct (matchPath c host (pre ++ [s]) rest) as [[k' pv']|] eqn:Hm'.
      * eexists _, _. split; [done|]. left. apply matchPath_length in Hm' as [Hl _].
        rewrite length_app in Hl. simpl in *. lia.
      * eexists _, _. split; [done|]. by right.
Qed.

End restricts.

Lemma split_char_length c s : length (split_char c s) = S (count_char c s).
Proof.
  induction s as [|a s IH]; [done|]. simpl. destruct (Ascii.eqb a c); simpl; [by rewrite IH|].
  destruct (split_char c s); simpl in *; lia.
Qed.

Lemma requestSegments_length l : length (requestSegments l) = length l.
Proof.
  induction l as [|s l IH]; [done|]. destruct s as [|a s], l as [|s' l]; simpl in *; auto.
Qed.

Lemma pathSegments_length path :
  has_prefix path "/" = true -> length (pathSegments path) = count_char c_slash path.
Proof.
  intros (t & ->)%has_prefix_spec. unfold pathSegments. change (str_drop 1 ("/" +:+ t)) with t. change (count_char c_slash ("/" +:+ t)) with (S (count_char c_slash t)).
  by rewrite requestSegments_length, split_char_length.
Qed.

(** A path with an exact match in the smaller tree has one in the larger tree. *)
Lemma exactMatch_restricts (host : string) (zone : V -> option W) (e : tree W) (c : tree V) (path : string) :
  restricts host zone e c -> has_prefix path "/" = true ->
  exactMatch (matchPath e host [] (pathSegments path)) path = true ->
  exactMatch (matchPath c host [] (pathSegments path)) path = true.
Proof.
  intros Hr Hp He. destruct (matchPath e host [] (pathSegments path)) as [[k pv]|] eqn:Hm; [|done].
  destruct (matchPath_longer _ _ _ _ Hr _ _ _ _ Hm) as (k' & pv' & Hm' & Hk). rewrite Hm'.
  apply matchPath_length in Hm as [_ Hl], Hm' as [_ Hl']. rewrite (pathSegments_length _ Hp) in Hl, Hl'.
  destruct k as [[h ss] multi], k' as [[h' ss'] multi']. simpl in *.
  destruct Hk as [Hk|[= <- <- <-]]; [|done].
  destruct multi'; simpl; [|done]. destruct multi; simpl in *; [|lia].
  destruct (has_slash_suffix path); simpl in *; [|done].
  destruct (count_char c_slash path); [done|]. apply Nat.eqb_eq in He. lia.
Qed.

Definition wf (c : tree V) : Prop := forall k pat v, c !! k = Some (pat, v) -> parsePattern pat = Some k.

Lemma register_wf (c : tree V) pat v c' : wf c -> register pat v c = Some c' -> wf c'.
Proof.
  intros Hc. unfold register. destruct (negb (literal pat)); [done|].
  destruct (parsePattern pat) as [k|] eqn:Hk; [|done]. destruct (c !! k); [done|]. intros [= <-].
  intros k' pat' v'. rewrite lookup_insert. case_decide; [|by apply Hc]. by intros [= <- <-]; subst.
Qed.

(** The smaller tree answers with the larger tree's pattern, when the pattern is in
    both and of the request's own host. *)
Lemma find_restricts (zone : V -> option W) (e : tree W) (c : tree V) r pat v w ss multi :
  wf c -> restricts (r_host r) zone e c -> (forall ss multi, e !! ("", ss, multi) = None) ->
  parsePattern pat = Some (r_host r, ss, multi) -> r_host r <> "" ->
  find c r = Some (pat, v) -> zone v = Some w -> find e r = Some (pat, w).
Proof.
  intros Hwf Hr He Hpat Hne Hf Hz. unfold find, matchTree in *.
  assert (Hp : isClean (r_path r) = true -> has_prefix (r_path r) "/" = true).
  { unfold isClean. by intros [? _]%andb_prop. }
  destruct (isClean (r_path r)); cbn [negb] in *; [|done]. specialize (Hp eq_refl).
  destruct (String.eqb_spec (r_host r) "") as [|_]; [done|].
  assert (Hpre : has_prefix (r_path r +:+ "/") "/" = true).
  { apply has_prefix_spec in Hp as (t & ->). apply has_prefix_spec. exists (t +:+ "/"). by rewrite str_app_assoc. }
  assert (He' : forall pre rest, matchPath e "" pre rest = None).
  { intros pre rest. revert pre. induction rest as [|s rest IH]; intros pre; simpl; by rewrite ?IH, He. }
  rewrite !He'.
  destruct (matchPath c (r_host r) [] (pathSegments (r_path r))) as [[k pv]|] eqn:Hm.
  - destruct (_ && _ && _) eqn:Hred in Hf; [done|]. simpl in Hf. injection Hf as ->.
    rewrite (matchPath_restricts _ _ _ _ Hr _ _ _ _ _ _ Hm Hz).
    assert (Hx : exactMatch (Some (k, (pat, w))) (r_path r) = exactMatch (Some (k, (pat, v))) (r_path r)) by done.
    rewrite Hx. clear Hx.
    destruct (exactMatch (Some (k, (pat, v))) (r_path r)); simpl in *; [done|].
    destruct (has_slash_suffix (r_path r)); simpl in *; [done|].
    destruct (matchPath e (r_host r) [] (pathSegments (r_path r +:+ "/"))) as [x|] eqn:Hm2; [|done].
    destruct (exactMatch (Some x) (r_path r +:+ "/")) eqn:Hx; [|done].
    rewrite <- Hm2 in Hx. apply (exactMatch_restricts _ _ _ _ _ Hr Hpre) in Hx.
    destruct (matchPath c (r_host r) [] (pathSegments (r_path r +:+ "/"))); [congruence|done].
  - destruct (_ && _ && _) eqn:Hred in Hf; [done|].
    destruct (matchPath c "" [] (pathSegments (r_path r))) as [[k pv]|] eqn:Hm'; [|done].
    simpl in Hf. injection Hf as ->. apply matchPath_host in Hm' as [Hk Hc]. apply Hwf in Hc.
    rewrite Hpat in Hc. injection Hc as <-. done.
Qed.

End restrict.

(** *** Registration *)

Section registration.
Context {V : Type}.

(** No two patterns match the same requests, and every pattern is in the model's
    syntax: nothing is skipped. *)
Definition registrable (l : list (string * V)) : Prop :=
  NoDup (parsePattern <$> l.*1) /\
  forall pat v, (pat, v) ∈ l -> literal pat = true /\ is_Some (parsePattern pat).

Lemma registerAll_wf (l : list (string * V)) : wf (registerAll l).
Proof.
  unfold registerAll. assert (H0 : wf (∅ : tree V)) by (intros k pat v; by rewrite lookup_empty).
  revert H0. generalize (∅ : tree V) as m. induction l as [|[pat v] l IH]; intros m Hm; simpl; [done|].
  apply IH. unfold registerStep. simpl. destruct (register pat v m) eqn:Hr; simpl; [|done].
  by eapply register_wf.
Qed.

Lemma registerFrom_lookup (l : list (string * V)) m k pat v :
  registrable l -> (forall pat v, (pat, v) ∈ l -> forall k, parsePattern pat = Some k -> m !! k = None) ->
  fold_left registerStep l m !! k = Some (pat, v) <->
  m !! k = Some (pat, v) \/ ((pat, v) ∈ l /\ parsePattern pat = Some k).
Proof.
  revert m. induction l as [|[pat0 v0] l IH]; intros m [Hnd Hl] Hm; simpl.
  { split; [by left|]. intros [?|[?%elem_of_nil _]]; done. }
  rewrite fmap_cons, fmap_cons in Hnd. apply NoDup_cons in Hnd as [Hni Hnd].
  destruct (Hl pat0 v0) as [Hlit [k0 Hk0]]; [by left|]. simpl in Hni.
  assert (Hdis : forall pat v, (pat, v) ∈ l -> parsePattern pat <> Some k0).
  { intros p v' Hin He. destruct Hni. rewrite Hk0, <- He. apply list_elem_of_fmap. exists p. split; [done|].
    by apply (list_elem_of_fmap_2 fst) in Hin. }
  assert (Hstep : registerStep m (pat0, v0) = <[k0 := (pat0, v0)]> m).
  { unfold registerStep, register. simpl. rewrite Hlit, Hk0. simpl. rewrite (Hm pat0 v0); [done|by left|done]. }
  rewrite Hstep, IH.
  - rewrite lookup_insert. case_decide as Hk; [subst k|].
    + split.
      * intros [[= <- <-]|[Hin He]]; [right; split; [by left|done]|]. by apply Hdis in Hin.
      * intros [He|[[[= -> ->]|Hin]%elem_of_cons He]]; [|by left|by apply Hdis in Hin].
        rewrite (Hm pat0 v0) in He; [done|by left|done].
    + split; [intros [?|[? ?]]; [by left|right; split; [by right|done]]|].
      intros [?|[[[= -> ->]|?]%elem_of_cons ?]]; [by left|congruence|by right].
  - split; [done|]. intros p v' Hin. apply (Hl p v'). by right.
  - intros p v' Hin k' Hk'. rewrite lookup_insert_ne.
    + apply (Hm p v'); [by right|done].
    + intros <-. by apply Hdis in Hin.
Qed.

Lemma registerAll_lookup (l : list (string * V)) k pat v :
  registrable l -> registerAll l !! k = Some (pat, v) <-> (pat, v) ∈ l /\ parsePattern pat = Some k.
Proof.
  intros Hl. unfold registerAll. rewrite registerFrom_lookup; [|done|intros; apply lookup_empty].
  rewrite lookup_empty. split; [intros [?|?]; done|by right].
Qed.

End registration.

(** Registering some of the patterns, with other handlers, restricts the tree. *)
Lemma registerAll_restricts {V W} (zone : V -> option W) host (lc : list (string * V)) (le : list (string * W)) :
  registrable lc -> registrable le ->
  (forall pat w, (exists ss multi, parsePattern pat = Some (host, ss, multi)) ->
     (pat, w) ∈ le <-> exists v, (pat, v) ∈ lc /\ zone v = Some w) ->
  restricts host zone (registerAll le) (registerAll lc).
Proof.
  intros Hc He Hiff ss multi. apply option_eq. intros [pat w]. rewrite (registerAll_lookup le) by done.
  split.
  - intros [Hin Hp]. apply Hiff in Hin as (v & Hin & Hz); [|eauto].
    rewrite (proj2 (registerAll_lookup lc _ pat v Hc) (conj Hin Hp)). by rewrite Hz.
  - destruct (registerAll lc !! _) as [[pat' v]|] eqn:Hl; [|done].
    apply registerAll_lookup in Hl as [Hin Hp]; [|done]. destruct (zone v) as [w'|] eqn:Hz; [|done].
    simpl. intros [= <- <-]. split; [|done]. apply Hiff; eauto.
Qed.

End Lit.

#[export] Instance litMux {V} : MuxOps V (gmap (string * list string * bool) (string * V)) := {
  NewServeMux := ∅;
  MuxHandle pat v m := Lit.register pat v m;
  MuxHandler m r := snd <$> Lit.find m r;
}.
