(* ===== verification/EdgeRules.v ===== *)
(** * The rulesets an edge holds

    Models [src/edge/waf.go], [coraza.go], [ratelimit.go] and [hosts.go] (the holders
    and their [Update]), [zoneroute.go] (the zone of a request), the refreshes of
    [wafrefresh.go], [corazarefresh.go], [ratelimitrefresh.go] and [hostsrefresh.go],
    and the WAF claim of [wafclaim/wafclaim.go].

    The three rule holders share their code up to the engine and the fields: [Edge]
    is the holder over an [Engine], the interface of [Reload].  An update runs on the
    one goroutine of its refresh loop.  A Go map of a payload is given as the list of
    its entries in the order it is ranged over. *)

From S2P Require Import Prelude GoString Route Certs Controller GoURL ServeMux RateLimit TransformRule Coraza Reload EdgeStores.

Set Default Proof Using "Type".

Module EdgeRules.
Import Reload.

(** ** The zone of a request *)

Section matcher.
Context {M : Type} `{!MuxOps string M}.

(** A registration that panics is recovered and skipped. *)
Definition registerZone (mux : M) (kv : string * string) : M :=
  default mux (MuxHandle kv.1 kv.2 mux).

Definition newZoneMatcher (routeZone hostZone : list (string * string)) : M :=
  let patterns :=
    match routeZone with
    | [] => (fun hk => (hk.1 +:+ "/", hk.2)) <$> hostZone
    | _ :: _ => routeZone
    end in
  fold_left registerZone patterns NewServeMux.

Definition resolve (m : M) (r : MuxRequest) : option string := MuxHandler m r.

End matcher.

(** ** The holders *)

Record Edge (I M : Type) := mkEdge {
  e_global : I;
  e_zones : gmap string I;
  e_matcher : M;
  e_generation : Z;
  e_etag : string;
}.
Arguments mkEdge {I M}.
Arguments e_global {I M}.
Arguments e_zones {I M}.
Arguments e_matcher {I M}.
Arguments e_generation {I M}.
Arguments e_etag {I M}.

(** What an error of [Update] names. *)
Inductive scope := SGlobal | SZone (key : string).
Definition note (firstErr : option scope) (s : scope) : option scope :=
  match firstErr with None => Some s | Some _ => firstErr end.

Section holder.
Context {I M : Type} `{!Engine I} `{!MuxOps string M}.

Definition newEdge : Edge I M := mkEdge freshGlobal ∅ (newZoneMatcher [] []) 0 "".

(** One iteration of the loop over the zones: an instance in force is reused. *)
Definition updateZone (cur : gmap string I) (acc : gmap string I * option scope)
    (kd : string * list string) : gmap string I * option scope :=
  let z := default (freshZone kd.1) (cur !! kd.1) in
  let '(z, ok) := load kd.2 z in
  (<[kd.1 := z]> acc.1, if ok then acc.2 else note acc.2 (SZone kd.1)).

Definition Update (generation : Z) (globalDocs : list string) (zoneDocs : list (string * list string))
    (routeZone hostZone : list (string * string)) (etag : string) (w : Edge I M) :
    Edge I M * option scope :=
  let '(g, ok) := load globalDocs (e_global w) in
  let '(newZones, firstErr) :=
    fold_left (updateZone (e_zones w)) zoneDocs (∅, if ok then None else note None SGlobal) in
  let matcher := newZoneMatcher routeZone hostZone in
  match firstErr with
  | None => (mkEdge g newZones matcher generation etag, None)
  | Some _ => (mkEdge g newZones matcher (e_generation w) (e_etag w), firstErr)
  end.

(** [Zone]: the instance that serves a request, if any. *)
Definition zoneFor (w : Edge I M) (r : MuxRequest) : option I :=
  match resolve (e_matcher w) r with
  | Some key => e_zones w !! key
  | None => None
  end.

End holder.

(** The outcome of a fetch. *)
Inductive fetched (P : Type) := FetchFailed | Unchanged | Fetched (p : P).
Arguments FetchFailed {P}.
Arguments Unchanged {P}.
Arguments Fetched {P}.

(** A decoded payload and the ETag of its response. *)
Record payload (D : Type) := mkPayload {
  p_generation : Z;
  p_global : D;
  p_zones : list (string * D);
  p_routeZone : list (string * string);
  p_hostZone : list (string * string);
  p_hosts : list string;
  p_etag : string;
}.
Arguments mkPayload {D}.
Arguments p_generation {D}.
Arguments p_global {D}.
Arguments p_zones {D}.
Arguments p_routeZone {D}.
Arguments p_hostZone {D}.
Arguments p_hosts {D}.
Arguments p_etag {D}.

(** *** The WAF and its claim *)

Section waf.
Context {W M : Type} `{!MuxOps string M}.
Context (unmarshal : string -> option (list WAF.Rule)).
Context (newWAF : string -> W) (SetRules : list WAF.CompiledRule -> W -> option W).

#[local] Existing Instance WAF.wafEngine.

Definition NewEdgeWAF : Edge W M := @newEdge W M (WAF.wafEngine unmarshal newWAF SetRules) _.

(** One document each: [wafrule.Parse(globalYAML)] and [wafrule.Parse(yaml)]. *)
Definition UpdateWAF (p : payload string) (w : Edge W M) : Edge W M * option scope :=
  @Update W M (WAF.wafEngine unmarshal newWAF SetRules) _ (p_generation p) [p_global p]
    ((fun kd => (kd.1, [kd.2])) <$> p_zones p) (p_routeZone p) (p_hostZone p) (p_etag p) w.

Definition RefreshWafOnce (res : fetched (payload string)) (w : Edge W M) : Edge W M :=
  match res with
  | FetchFailed | Unchanged => w
  | Fetched p => fst (UpdateWAF p w)
  end.

End waf.

Definition claimHeader : string := "X-Parapet-Waf".

Definition ClaimStamp {I M} (w : Edge I M) (h : GoURL.Header) : GoURL.Header :=
  if (e_generation w >? 0)%Z then HeaderSet claimHeader (itoa (e_generation w)) h
  else HeaderDel claimHeader h.

Definition StripWAFClaim (h : GoURL.Header) : GoURL.Header := HeaderDel claimHeader h.

(** *** Coraza *)

Section coraza.
Context {FS C Tx M : Type} `{!CorazaOps FS C Tx} `{!MuxOps string M}.
Context (RootFS : option FS) (RequestBodyLimit : Z) (ClientIP : option (Coraza.Request -> string)).

#[local] Existing Instance corazaEngine.

Definition NewEdgeCoraza : Edge (Coraza.Instance_ FS C) M :=
  @newEdge _ M (corazaEngine RootFS RequestBodyLimit ClientIP) _.

(** No host-level bindings. *)
Definition UpdateCoraza (p : payload string) (w : Edge (Coraza.Instance_ FS C) M) :
    Edge (Coraza.Instance_ FS C) M * option scope :=
  @Update _ M (corazaEngine RootFS RequestBodyLimit ClientIP) _ (p_generation p) [p_global p]
    ((fun kd => (kd.1, [kd.2])) <$> p_zones p) (p_routeZone p) [] (p_etag p) w.

Definition RefreshCorazaOnce (res : fetched (payload string)) (w : Edge (Coraza.Instance_ FS C) M) :
    Edge (Coraza.Instance_ FS C) M :=
  match res with
  | FetchFailed | Unchanged => w
  | Fetched p => fst (UpdateCoraza p w)
  end.

End coraza.

(** *** Rate limits *)

Section ratelimit.
Context {Predicate FixedState M : Type} `{!MuxOps string M}.
Context (NewPredicate : Z -> bool -> string -> option Predicate).
Context (unmarshal : string -> option (list RateLimit.Limit)).
Context (ParsePrefix : string -> option RateLimit.Prefix) (fixedNew : FixedState).
Context (Country : option (RateLimit.Request -> string)) (ASN : option (RateLimit.Request -> Z)).

#[local] Abbreviation limiter := (@RateLimit.Limiter Predicate FixedState).

(** The limiters share one [KnownHost], which reads [knownHosts] at each request. *)
Record EdgeRateLimit := mkERL {
  rl_edge : Edge limiter M;
  knownHosts : gset string;
}.

Definition knownHost (e : EdgeRateLimit) (host : string) : bool := bool_decide (host ∈ knownHosts e).

(** The compilation does not call [KnownHost]. *)
Definition edgeLimitEngine : Engine limiter :=
  rateLimitEngine NewPredicate unmarshal ParsePrefix fixedNew (fun _ => false) Country ASN 0 false.

#[local] Existing Instance edgeLimitEngine.

Definition NewEdgeRateLimit : EdgeRateLimit :=
  mkERL (@newEdge _ M edgeLimitEngine _) ∅.

Definition UpdateRateLimit (p : payload (list string)) (e : EdgeRateLimit) : EdgeRateLimit * option scope :=
  let '(w, err) := @Update _ M edgeLimitEngine _ (p_generation p) (p_global p) (p_zones p)
                     (p_routeZone p) (p_hostZone p) (p_etag p) (rl_edge e) in
  (mkERL w (list_to_set (p_hosts p)), err).

(** A limiter as a request sees it: its [KnownHost] reads the current set. *)
Definition live (e : EdgeRateLimit) (l : limiter) : limiter :=
  RateLimit.mkLimiter (RateLimit.live l) (RateLimit.heap l) (RateLimit.next l)
    (RateLimit.NamePrefix l) (RateLimit.Observe l) (Some (knownHost e)) (RateLimit.Country l)
    (RateLimit.ASN l) (RateLimit.FilterCostLimit l) (RateLimit.FilterDisableMacros l).

Definition RefreshRateLimitOnce (res : fetched (payload (list string))) (e : EdgeRateLimit) : EdgeRateLimit :=
  match res with
  | FetchFailed | Unchanged => e
  | Fetched p => fst (UpdateRateLimit p e)
  end.

End ratelimit.

(** *** Known hosts *)

Record EdgeHosts := mkEdgeHosts { eh_hosts : gset string; eh_generation : Z; eh_etag : string }.

Definition NewEdgeHosts : EdgeHosts := mkEdgeHosts ∅ 0 "".

Definition UpdateHosts (generation : Z) (hosts : list string) (etag : string) (h : EdgeHosts) : EdgeHosts :=
  mkEdgeHosts (list_to_set hosts) generation etag.

Definition IsKnownHost (h : EdgeHosts) (host : string) : bool := bool_decide (host ∈ eh_hosts h).

Definition RefreshHostsOnce (res : fetched (Z * list string * string)) (h : EdgeHosts) : EdgeHosts :=
  match res with
  | FetchFailed | Unchanged => h
  | Fetched (generation, hosts, etag) => UpdateHosts generation hosts etag h
  end.

(** The zone at the core: the plugin [WAFZone] binds the handlers of an ingress that
    carries the annotation. *)
Definition coreZone (h : Controller.Handler) : option string :=
  match h with
  | Controller.HBackend b =>
      EdgeStores.zoneKeyOf (Controller.ing_Namespace (Controller.h_ingress b))
        (default "" (Controller.Annotations (Controller.h_ingress b) !! EdgeStores.WAFZoneAnnotation))
  | Controller.HPlugin _ => None
  end.

End EdgeRules.

(** ** Lemmas *)

Module EdgeRulesLemmas.
Import Reload ReloadLemmas EdgeRules.

Section holder.
Context {I O M : Type} {eng : Engine I} {laws : EngineLaws I O} {mux : MuxOps string M}.

Definition loadedZone (cur : gmap string I) (kd : string * list string) : string * I :=
  (kd.1, fst (load kd.2 (default (freshZone kd.1) (cur !! kd.1)))).

Lemma updateZones_zones cur zds acc :
  (fold_left (updateZone cur) zds acc).1 = insertAll (loadedZone cur <$> zds) acc.1.
Proof.
  revert acc. induction zds as [|kd zds IH]; intros acc; simpl; [done|]. rewrite IH. unfold updateZone.
  unfold insertAll. simpl. unfold loadedZone. by destruct (load kd.2 _).
Qed.

(** A holder in a state that its engine can load into. *)
Definition usableEdge (w : Edge I M) : Prop :=
  usable (e_global w) /\ forall key i, e_zones w !! key = Some i -> usable i.

Lemma usable_cur (w : Edge I M) key : usableEdge w -> usable (default (freshZone key) (e_zones w !! key)).
Proof.
  intros [_ Hz]. destruct (e_zones w !! key) as [i|] eqn:Hk; simpl; [by eapply Hz|].
  by destruct (freshZone_ok (EngineLaws := laws) key).
Qed.

Lemma load_accepted docs i : usable i -> snd (load docs i) = accepted docs.
Proof.
  intros Hu. pose proof (load_spec docs i Hu) as Hl. unfold accepted. destruct (compile docs).
  - by destruct Hl.
  - by rewrite Hl.
Qed.

Lemma load_keeps docs i d :
  usable i -> obs i = served d ->
  usable (fst (load docs i)) /\ obs (fst (load docs i)) = served (lastGood docs d).
Proof.
  intros Hu Ho. pose proof (load_spec docs i Hu) as Hl. unfold lastGood, accepted.
  destruct (compile docs) as [o|] eqn:Hc; simpl.
  - destruct Hl as (_ & -> & ?). by rewrite Hc.
  - by rewrite Hl.
Qed.

Lemma updateZones_err w zds acc :
  usableEdge w ->
  (fold_left (updateZone (e_zones w)) zds acc).2 = None <->
  acc.2 = None /\ Forall (fun kd => accepted kd.2 = true) zds.
Proof.
  intros Hu. revert acc. induction zds as [|kd zds IH]; intros acc; simpl.
  { split; [by intros ->|by intros [-> _]]. }
  rewrite IH, Forall_cons. unfold updateZone.
  pose proof (load_accepted kd.2 _ (usable_cur w kd.1 Hu)) as Hok.
  destruct (load kd.2 _) as [z ok]. simpl in *. subst ok.
  destruct (accepted kd.2); simpl; [naive_solver|]. destruct acc.2; simpl; naive_solver.
Qed.

(** Every ruleset of the payload compiles. *)
Definition clean (p : payload (list string)) : bool :=
  accepted (p_global p) && forallb (fun kd => accepted kd.2) (p_zones p).

Definition step (res : fetched (payload (list string))) (w : Edge I M) : Edge I M :=
  match res with
  | FetchFailed | Unchanged => w
  | Fetched p => fst (Update (p_generation p) (p_global p) (p_zones p) (p_routeZone p) (p_hostZone p)
                        (p_etag p) w)
  end.

Definition run (rs : list (fetched (payload (list string)))) : Edge I M :=
  fold_left (fun w r => step r w) rs newEdge.

(** The specification: the controller's, fed with the payloads. *)
Definition applied (r : fetched (payload (list string))) : option (payload (list string)) :=
  match r with Fetched p => Some p | _ => None end.

Definition aRun (rs : list (fetched (payload (list string)))) : aState :=
  fold_left (fun a p => aReload (p_global p) (list_to_map (p_zones p)) a) (omap applied rs)
    (mkAState None ∅).

Definition lastClean (rs : list (fetched (payload (list string)))) : option (payload (list string)) :=
  last (filter (fun p => clean p = true) (omap applied rs)).

Definition lastPayload (rs : list (fetched (payload (list string)))) : option (payload (list string)) :=
  last (omap applied rs).

Definition matcherOf (p : option (payload (list string))) : M :=
  match p with Some p => newZoneMatcher (p_routeZone p) (p_hostZone p) | None => newZoneMatcher [] [] end.

Definition validPayload (r : fetched (payload (list string))) : Prop :=
  match r with Fetched p => NoDup (p_zones p).*1 | _ => True end.

Record RepEdge (w : Edge I M) (a : aState) (cl lp : option (payload (list string))) : Prop := {
  re_global : usable (e_global w) /\ obs (e_global w) = served (a_global a);
  re_zones : forall key, match e_zones w !! key, a_zones a !! key with
                         | Some i, Some d => usable i /\ obs i = served d
                         | None, None => True
                         | _, _ => False
                         end;
  re_matcher : e_matcher w = matcherOf lp;
  re_version : (e_generation w, e_etag w) =
               match cl with Some p => (p_generation p, p_etag p) | None => (0%Z, "") end;
}.

Lemma RepEdge_usable w a cl lp : RepEdge w a cl lp -> usableEdge w.
Proof.
  intros [[Hg _] Hz _ _]. split; [done|]. intros key i Hk. specialize (Hz key). rewrite Hk in Hz.
  destruct (a_zones a !! key); [by destruct Hz|done].
Qed.

Lemma Update_Rep p w a cl lp :
  NoDup (p_zones p).*1 -> RepEdge w a cl lp ->
  RepEdge (step (Fetched p) w) (aReload (p_global p) (list_to_map (p_zones p)) a)
    (if clean p then Some p else cl) (Some p).
Proof.
  intros Hnd Hrep. pose proof (RepEdge_usable _ _ _ _ Hrep) as Hu. destruct Hrep as [[Hgu Hgo] Hz Hm Hv].
  unfold step, Update.
  pose proof (load_accepted (p_global p) _ Hgu) as Hok.
  pose proof (load_keeps (p_global p) _ _ Hgu Hgo) as [Hgu' Hgo'].
  destruct (load (p_global p) (e_global w)) as [g ok]. simpl in Hok, Hgu', Hgo'. subst ok.
  pose proof (updateZones_zones (e_zones w) (p_zones p)
                (∅, if accepted (p_global p) then None else note None SGlobal)) as Hzs.
  pose proof (updateZones_err w (p_zones p)
                (∅, if accepted (p_global p) then None else note None SGlobal) Hu) as Herr.
  destruct (fold_left _ _ _) as [zs err]. simpl in Hzs, Herr. subst zs.
  assert (Hclean : err = None <-> clean p = true).
  { rewrite Herr. unfold clean. rewrite andb_true_iff, forallb_forall, List.Forall_forall.
    destruct (accepted (p_global p)); simpl; naive_solver. }
  set (zs := insertAll _ ∅).
  assert (Hnew : forall key, match zs !! key, a_zones (aReload (p_global p) (list_to_map (p_zones p)) a) !! key with
                         | Some i, Some d => usable i /\ obs i = served d
                         | None, None => True
                         | _, _ => False
                         end).
  { intros key. simpl. rewrite map_lookup_imap.
    assert (Hzk : forall i, zs !! key = Some i <-> (key, i) ∈ loadedZone (e_zones w) <$> p_zones p).
    { intros i. apply insertAll_iff. intros v1 v2 (kd1 & [= Hk1 ->] & H1)%list_elem_of_fmap
        (kd2 & [= Hk2 ->] & H2)%list_elem_of_fmap.
      assert (kd1 = kd2) as ->; [|done]. eapply (NoDup_fmap_inj fst); [exact Hnd|done|done|congruence]. }
    destruct (list_to_map (p_zones p) !! key) as [docs|] eqn:Hd; simpl.
    - apply elem_of_list_to_map in Hd; [|done].
      rewrite (proj2 (Hzk _)) by (apply list_elem_of_fmap; exists (key, docs); done).
      simpl. apply load_keeps; [by apply usable_cur|]. specialize (Hz key).
      destruct (e_zones w !! key), (a_zones a !! key); simpl; try done; [by destruct Hz|].
      by destruct (freshZone_ok (EngineLaws := laws) key).
    - destruct (zs !! key) as [i|] eqn:Hi; [|done].
      pose proof (proj1 (Hzk i) eq_refl) as H. apply list_elem_of_fmap in H as ([k docs] & [= -> _] & Hin).
      apply not_elem_of_list_to_map_2 in Hd. destruct Hd. by apply (list_elem_of_fmap_2 fst) in Hin. }
  destruct err as [s|].
  - destruct (clean p); [by destruct Hclean as [_ Hc]; specialize (Hc eq_refl)|]. by split.
  - rewrite (proj1 Hclean) by done. by split.
Qed.

Lemma run_snoc rs r : run (rs ++ [r]) = step r (run rs).
Proof. unfold run. by rewrite fold_left_app. Qed.

Lemma run_Rep rs :
  Forall validPayload rs -> RepEdge (run rs) (aRun rs) (lastClean rs) (lastPayload rs).
Proof.
  induction rs as [|r rs IH] using rev_ind.
  { intros _. split; simpl.
    - destruct (freshGlobal_ok (EngineLaws := laws)) as [? ->]. done.
    - intros key. by rewrite !lookup_empty.
    - done.
    - done. }
  intros [HF Hr]%Forall_app. rewrite Forall_singleton in Hr. specialize (IH HF). rewrite run_snoc.
  unfold aRun, lastClean, lastPayload. rewrite omap_app. destruct r as [| |p]; simpl; rewrite ?app_nil_r; try done.
  rewrite fold_left_app, filter_app, last_snoc. simpl.
  pose proof (Update_Rep p _ _ _ _ Hr IH) as H. cbn [step] in H.
  rewrite filter_cons, filter_nil. destruct (clean p); simpl in *.
  - by rewrite last_snoc.
  - by rewrite app_nil_r.
Qed.

End holder.

End EdgeRulesLemmas.

Module EdgeRulesProps.
Import Reload ReloadLemmas EdgeRules EdgeRulesLemmas.

(** C31: an edge degrades the way the controller does. After any history of polls,
    failed ones and unchanged ones included, the baseline in force is the last one
    that was accepted; the zones are exactly those of the last payload, each serving
    what it last had accepted since it appeared; the bindings are those of the last
    payload; and the validator and generation are those of the last payload that
    applied whole, so that a rejected ruleset is fetched again at every poll. *)
Theorem edge_serves_last_good {I O M : Type} {eng : Engine I} {laws : EngineLaws I O} {mux : MuxOps string M}
    (rs : list (fetched (payload (list string)))) :
  Forall validPayload rs ->
  let w := run (M := M) rs in
  obs (e_global w) = served (a_global (aRun rs)) /\
  (forall key, obs <$> e_zones w !! key = served <$> a_zones (aRun rs) !! key) /\
  e_matcher w = matcherOf (lastPayload rs) /\
  (e_generation w, e_etag w) =
    match lastClean rs with Some p => (p_generation p, p_etag p) | None => (0%Z, "") end.
Proof.
  intros HF. destruct (run_Rep (M := M) rs HF) as [[_ Hg] Hz Hm Hv].
  split; [done|]. split; [|done]. intros key. specialize (Hz key).
  destruct (e_zones _ !! key), (a_zones _ !! key); simpl; try done. by destruct Hz as [_ ->].
Qed.

Lemma aRun_clean {I O : Type} {eng : Engine I} {laws : EngineLaws I O} rs p :
  lastClean rs = Some p ->
  exists docs, a_global (aRun rs) = Some docs /\ accepted docs = true.
Proof.
  unfold lastClean, aRun. intros Hl%last_Some_elem_of.
  apply list_elem_of_filter in Hl as [Hc Hin].
  assert (H : forall ps a, (exists d, a_global a = Some d /\ accepted d = true) \/ p ∈ ps ->
     exists docs, a_global (fold_left (fun a p => aReload (p_global p) (list_to_map (p_zones p)) a) ps a)
                    = Some docs /\ accepted docs = true).
  { intros ps. induction ps as [|q ps IH]; intros a H; simpl.
    { destruct H as [H|H%elem_of_nil]; [done|done]. }
    apply IH. destruct (decide (accepted (p_global q) = true)) as [Hq|Hq].
    - left. exists (p_global q). simpl. unfold lastGood. by rewrite Hq.
    - destruct H as [(d & Hd & Ha)|[<-|Hin']%elem_of_cons].
      + left. exists d. simpl. unfold lastGood. by destruct (accepted (p_global q)).
      + unfold clean in Hc. by apply andb_true_iff in Hc as [? _].
      + by right. }
  apply H. by right.
Qed.

Section waf.
Context {W O M : Type} {mux : MuxOps string M} (unmarshal : string -> option (list WAF.Rule)).
Context (newWAF : string -> W) (SetRules : list WAF.CompiledRule -> W -> option W).
Context (ruleset : W -> O) (compileRules : list WAF.CompiledRule -> option O) (noRules : O).
Context (newWAF_empty : forall scope, ruleset (newWAF scope) = noRules).
Context (SetRules_all_or_nothing : forall rs w, ruleset <$> SetRules rs w = compileRules rs).

#[local] Abbreviation eng := (WAF.wafEngine unmarshal newWAF SetRules).
#[local] Abbreviation lawsW := (wafLaws unmarshal newWAF SetRules ruleset compileRules noRules
                                  newWAF_empty SetRules_all_or_nothing).

(** A polled payload as the generic holder sees it. *)
Definition docsOf (p : payload string) : payload (list string) :=
  mkPayload (p_generation p) [p_global p] ((fun kd => (kd.1, [kd.2])) <$> p_zones p) (p_routeZone p)
    (p_hostZone p) (p_hosts p) (p_etag p).
Definition docsFetched (r : fetched (payload string)) : fetched (payload (list string)) :=
  match r with FetchFailed => FetchFailed | Unchanged => Unchanged | Fetched p => Fetched (docsOf p) end.

Definition pollWAF (rs : list (fetched (payload string))) : Edge W M :=
  fold_left (fun w r => RefreshWafOnce unmarshal newWAF SetRules r w) rs
    (NewEdgeWAF unmarshal newWAF SetRules).

Lemma pollWAF_run rs : pollWAF rs = @run W M eng mux (docsFetched <$> rs).
Proof.
  unfold pollWAF, run, NewEdgeWAF. generalize (@newEdge W M eng mux).
  induction rs as [|r rs IH]; intros w; simpl; [done|]. rewrite IH. by destruct r.
Qed.

(** The claim that lets the core skip its WAF is honest. Whatever the polls so far,
    and whatever the client sent, the request that leaves the edge carries a claim
    only when a snapshot has applied whole; its value is the generation of the last
    one that did; and the baseline in force is then a ruleset that the control plane
    sent and that compiled. The other headers are untouched. *)
Theorem claim_is_honest (rs : list (fetched (payload string))) (h : GoURL.Header) :
  Forall validPayload (docsFetched <$> rs) ->
  let w := pollWAF rs in
  match @lastClean W O eng lawsW (docsFetched <$> rs) with
  | Some p => ClaimStamp w h !! claimHeader =
                (if (p_generation p >? 0)%Z then Some [itoa (p_generation p)] else None) /\
              exists docs rules o, WAF.Parse unmarshal docs = (rules, []) /\
                compileRules rules = Some o /\ ruleset (e_global w) = o
  | None => ClaimStamp w h !! claimHeader = None
  end /\
  (forall k, k <> claimHeader -> ClaimStamp w h !! k = h !! k).
Proof.
  intros HF w. unfold w. rewrite pollWAF_run.
  destruct (@run_Rep W O M eng lawsW mux _ HF) as [[_ Hg] _ _ Hv].
  set (w' := @run W M eng mux (docsFetched <$> rs)) in *.
  assert (Hc : CanonicalMIMEHeaderKey claimHeader = claimHeader) by (vm_compute; reflexivity).
  unfold ClaimStamp, HeaderSet, HeaderDel. rewrite Hc. split.
  - destruct (lastClean (docsFetched <$> rs)) as [p|] eqn:Hl.
    + injection Hv as -> _. split.
      * destruct (p_generation p >? 0)%Z; [by rewrite lookup_insert_eq|by rewrite lookup_delete_eq].
      * destruct (@aRun_clean W O eng lawsW _ _ Hl) as (docs & Hd & Ha). rewrite Hd in Hg. simpl in Hg.
        unfold accepted in Ha. simpl in Ha. destruct (WAF.Parse unmarshal docs) as [rules [|e es]] eqn:HP;
          [|done]. exists docs, rules. destruct (compileRules rules) as [o|] eqn:Ho; [|done]. exists o. done.
    + injection Hv as -> _. simpl. by rewrite lookup_delete_eq.
  - intros k Hk. destruct (_ >? 0)%Z; [by rewrite lookup_insert_ne|by rewrite lookup_delete_ne].
Qed.

(** An edge applies the first document of a WAF baseline and claims the request is
    validated. The control plane joins the documents of the baseline into one text,
    and the edge decodes that text once: when decoding stops at the end of the first
    document, the edge's rules are those of the first document, the update is clean
    and the claim is stamped, while the controller's rules are those of all of them. *)
Theorem edge_waf_drops_documents `{!EtagOps} pod cms (s : EdgeStores.Store string) d1 ds rules g (w : Edge W M) gen etag h :
  Forall (EdgeStoresLemmas.labelsAgree wafLabelKey) cms ->
  globalDocs (gather wafLabelKey pod cms) = d1 :: ds ->
  trim_space d1 <> "" ->
  (forall rest, unmarshal (d1 +:+ EdgeStores.yamlSep +:+ rest) = unmarshal d1) ->
  WAF.Parse unmarshal [d1] = (rules, []) -> SetRules rules (e_global w) = Some g -> (0 < gen)%Z ->
  let p := mkPayload gen (EdgeStores.global (EdgeStores.reloadWaf pod cms s)) [] [] [] [] etag in
  let w' := fst (UpdateWAF unmarshal newWAF SetRules p w) in
  e_global w' = g /\ snd (UpdateWAF unmarshal newWAF SetRules p w) = None /\
  ClaimStamp w' h !! claimHeader = Some [itoa gen] /\
  fst (WAF.Parse unmarshal (globalDocs (gather wafLabelKey pod cms))) =
    rules ++ fst (WAF.Parse unmarshal ds).
Proof.
  intros Hl Hd Hb Hu HP HS Hg. cbn zeta.
  assert (Hj : EdgeStores.global (EdgeStores.reloadWaf pod cms s) = EdgeStores.Join EdgeStores.yamlSep (d1 :: ds)).
  { unfold EdgeStores.reloadWaf, EdgeStores.SetZones, EdgeStores.SetGlobal.
    repeat (rewrite ?EdgeStoresProps.recompute_global; cbn [EdgeStores.global]).
    unfold EdgeStores.concatGlobalRules. by rewrite EdgeStoresLemmas.globalDocs_agree, Hd. }
  rewrite Hj, Hd.
  assert (HJ : WAF.Parse unmarshal [EdgeStores.Join EdgeStores.yamlSep (d1 :: ds)] = (rules, [])).
  { destruct ds as [|d2 ds]; [done|]. rewrite <- HP.
    change (EdgeStores.Join EdgeStores.yamlSep (d1 :: d2 :: ds)) with
      (d1 +:+ EdgeStores.yamlSep +:+ EdgeStores.Join EdgeStores.yamlSep (d2 :: ds)).
    generalize (EdgeStores.Join EdgeStores.yamlSep (d2 :: ds)). intros rest. unfold WAF.Parse.
    rewrite (proj2 (String.eqb_neq (trim_space d1) "") Hb), Hu.
    destruct (String.eqb_spec (trim_space (d1 +:+ EdgeStores.yamlSep +:+ rest)) "") as [He|_]; [|done].
    apply trim_space_blank in He. rewrite all_chars_app in He. apply andb_prop in He as [He _].
    by apply trim_space_blank in He. }
  assert (HU : UpdateWAF unmarshal newWAF SetRules
      (mkPayload gen (EdgeStores.Join EdgeStores.yamlSep (d1 :: ds)) [] [] [] [] etag) w =
      (mkEdge g ∅ (newZoneMatcher [] []) gen etag, None)).
  { unfold UpdateWAF, Update.
    change (@load W eng [p_global ?p] ?i) with (WAF.loadWAF unmarshal SetRules [p_global p] i).
    unfold WAF.loadWAF. cbn [p_global]. by rewrite HJ, HS. }
  rewrite HU. split; [done|]. split; [done|]. split.
  - unfold ClaimStamp, HeaderSet. simpl. rewrite (proj2 (Z.gtb_lt gen 0)) by lia.
    assert (Hc : CanonicalMIMEHeaderKey claimHeader = claimHeader) by (vm_compute; reflexivity).
    by rewrite Hc, lookup_insert_eq.
  - simpl in *. destruct (WAF.Parse unmarshal ds) as [out errs]. 
    rewrite (proj2 (String.eqb_neq (trim_space d1) "") Hb) in *.
    destruct (unmarshal d1) as [[|r0 rs]|]; [done| |done].
    destruct (WAF.convertRules 0 (r0 :: rs)) as [o e]. simpl. by injection HP as <- _; rewrite app_nil_r.
Qed.

End waf.

Lemma newZoneMatcher_lit kv rz hz :
  newZoneMatcher (kv :: rz) hz = Lit.registerAll (kv :: rz) :> gmap _ (string * string).
Proof. done. Qed.

(** *** Sample inputs *)

Definition svcOf (ns : string) : Controller.Service :=
  Controller.mkService ns "web" (Controller.OtherServiceType "") "" [Controller.mkSvcPort "http" 80 (Controller.IntVal 8080) None].
Definition ingOf (ns : string) (annotations : gmap string string) (rule : Controller.Rule) : Controller.Ingress :=
  Controller.mkIngress ns "ing" (Some "parapet") annotations [rule] [].
Definition boundTo (zone : string) : gmap string string := {[ EdgeStores.WAFZoneAnnotation := zone ]}.
Definition rootRule : Controller.Rule :=
  Controller.mkRule "app.example" (Some [EdgeStoresProps.demoPath "/"]).
Definition hooksRule : Controller.Rule :=
  Controller.mkRule "app.example" (Some [EdgeStoresProps.demoPath "/hooks"]).
Definition bareRule : Controller.Rule := Controller.mkRule "app.example" None.
Definition demoServices : gmap string Controller.Service := {[ "t/web" := svcOf "t"; "u/web" := svcOf "u" ]}.

Definition coreRoutes (ings : list Controller.Ingress) : list (string * Controller.Handler) :=
  List.concat (Controller.ingressRoutes demoServices <$> ings).

(** A zone is enforced on traffic that the core serves outside any zone. First, the
    control plane sends the patterns of bound ingresses only, so under a bound host-wide
    route the longer routes of an ingress without a zone run in the zone at the edge.
    Second, an edge whose bound ingresses declare no path gets no route pattern, which it
    takes for an old control plane's payload: it binds the whole host, though the
    controller registers no route for those ingresses. *)
Theorem edge_overenforces :
  (exists ings r k h z,
     Lit.find (Lit.registerAll (coreRoutes ings)) r = Some (k, h) /\ coreZone h = None /\
     resolve (M := gmap _ (string * string))
       (newZoneMatcher (map_to_list (EdgeStores.buildZoneRoutes ings EdgeStores.WAFZoneAnnotation false))
          (map_to_list (EdgeStores.buildHostZone ings))) r = Some z) /\
  (exists ings r z,
     coreRoutes ings = [] /\
     resolve (M := gmap _ (string * string))
       (newZoneMatcher (map_to_list (EdgeStores.buildZoneRoutes ings EdgeStores.WAFZoneAnnotation false))
          (map_to_list (EdgeStores.buildHostZone ings))) r = Some z).
Proof.
  split.
  - exists [ingOf "t" (boundTo "strict") rootRule; ingOf "u" ∅ hooksRule],
      (mkMuxRequest "app.example" "/hooks/github").
    eexists _, _, _. split; [vm_compute; reflexivity|]. split; vm_compute; reflexivity.
  - exists [ingOf "t" (boundTo "strict") bareRule], (mkMuxRequest "app.example" "/any").
    eexists _. split; vm_compute; reflexivity.
Qed.

(** C32: no request escapes a zone at the edge that the core would apply. Let the
    controller's routes (literal, distinct, well-formed patterns) be registered on its mux and let an edge hold, for the request's
    host, the patterns of the routes that are bound to a zone: a request that the core
    runs in a zone, by a route of its own host, is run in the same zone by the edge, whatever the other routes are,
    redirects included. *)
Theorem edge_enforces_core_zone (cr : list (string * Controller.Handler)) (er hz : list (string * string)) r k h z ss multi :
  Lit.registrable cr -> Lit.registrable er -> (forall pat w, (pat, w) ∈ er -> EdgeStores.patternHost pat <> "") ->
  (forall pat w, EdgeStores.patternHost pat = r_host r ->
     (pat, w) ∈ er <-> exists h, (pat, h) ∈ cr /\ coreZone h = Some w) ->
  Lit.parsePattern k = Some (r_host r, ss, multi) -> r_host r <> "" ->
  Lit.find (Lit.registerAll cr) r = Some (k, h) -> coreZone h = Some z ->
  resolve (M := gmap _ (string * string)) (newZoneMatcher er hz) r = Some z.
Proof.
  intros Hc He Hne Hiff Hk Hh Hf Hz.
  assert (Hhost : forall pat host ss multi, Lit.parsePattern pat = Some (host, ss, multi) ->
                    EdgeStores.patternHost pat = host).
  { intros pat host ss' multi'. unfold Lit.parsePattern, EdgeStores.patternHost.
    destruct (index_byte c_slash pat); [|done]. destruct (Lit.segmentsOf _). by intros [= <- _ _]. }
  assert (Hin : (k, z) ∈ er).
  { apply Hiff; [by eapply Hhost|]. exists h. split; [|done].
    unfold Lit.find in Hf. destruct (negb (Lit.isClean _)); [done|]. destruct (_ && _ && _); [done|].
    unfold Lit.matchTree in Hf. destruct (String.eqb (r_host r) ""); 
    [destruct (Lit.matchPath _ "" _ _) as [[k' [pat v]]|] eqn:Hm|
     destruct (Lit.matchPath _ (r_host r) _ _) as [[k' [pat v]]|] eqn:Hm;
       [|clear Hm; destruct (Lit.matchPath _ "" _ _) as [[k' [pat v]]|] eqn:Hm]]; try done;
    simpl in Hf; injection Hf as -> ->; apply Lit.matchPath_host in Hm as [_ Hm];
    by apply Lit.registerAll_lookup in Hm as [? _]. }
  destruct er as [|kv er]; [by apply elem_of_nil in Hin|]. rewrite newZoneMatcher_lit.
  unfold resolve. simpl MuxHandler.
  rewrite (Lit.find_restricts coreZone _ (Lit.registerAll cr) r k h z ss multi); try done.
  - apply Lit.registerAll_wf.
  - apply Lit.registerAll_restricts; [done|done|]. intros pat w (ss' & multi' & Hp). apply Hiff. by eapply Hhost.
  - intros ss' multi'. destruct (Lit.registerAll (kv :: er) !! _) as [[pat w]|] eqn:Hl; [|done].
    apply Lit.registerAll_lookup in Hl as [Hin' Hp]; [|done]. apply Hhost in Hp. by apply Hne in Hin'.
Qed.


(** *** Witnesses *)

Definition demoPoll (gen : Z) (g : string) (zs : list (string * list string)) : fetched (payload (list string)) :=
  Fetched (mkPayload gen [g] zs [("a.example/", "t/z")] [] [] (itoa gen)).

Definition demoPolls : list (fetched (payload (list string))) :=
  [demoPoll 1 "base" [("t/z", ["one"])]; FetchFailed; demoPoll 2 "bad?" [("t/z", ["two"]); ("u/z", ["bad?"])];
   Unchanged].

Lemma edge_serves_last_good_witness :
  let w := @run _ _ toyEngine (@litMux string) demoPolls in
  let spec := @aRun _ _ toyEngine toyLaws demoPolls in
  (e_generation w, e_etag w, @obs _ _ toyEngine toyLaws (e_global w)) = (1%Z, "1", Some "base") /\
  @obs _ _ toyEngine toyLaws (e_global w) = @served _ _ toyEngine toyLaws (a_global spec) /\
  (forall key, @obs _ _ toyEngine toyLaws <$> (e_zones w !! key : option (Coraza.Instance_ string string)) =
     @served _ _ toyEngine toyLaws <$> (a_zones spec !! key : option (option (list string)))) /\
  e_matcher w = matcherOf (lastPayload demoPolls) /\
  (e_generation w, e_etag w) =
    match @lastClean _ _ toyEngine toyLaws demoPolls with
    | Some p => (p_generation p, p_etag p) | None => (0%Z, "") end.
Proof.
  split; [vm_compute; reflexivity|].
  apply (@edge_serves_last_good _ _ _ toyEngine toyLaws).
  repeat (apply Forall_cons; split); try constructor; simpl; try (by constructor);
    apply (bool_decide_unpack _); vm_compute; reflexivity.
Defined.

(** A WAF whose rules are a text, and a YAML reader that takes the first line. *)
Definition lineYAML (s : string) : option (list WAF.Rule) :=
  let line := (Cut (ascii_of_nat 10) s).1 in
  if String.eqb line "bad" then None else Some [WAF.mkRule line "" "" "block" 403 "" 0].
Definition textWAF (scope : string) : list string := [].
Definition setText (rs : list WAF.CompiledRule) (w : list string) : option (list string) :=
  Some (WAF.w_ID <$> rs).

Definition wafPolls : list (fetched (payload string)) :=
  [Fetched (mkPayload 7 "r1" [("t/z", "r2")] [] [] [] "e7"); FetchFailed;
   Fetched (mkPayload 8 "bad" [("t/z", "r3")] [] [] [] "e8")].

Lemma claim_is_honest_witness :
  let laws := wafLaws lineYAML textWAF setText id (fun rs => Some (WAF.w_ID <$> rs)) []
                (fun _ => eq_refl) (fun _ _ => eq_refl) in
  let w := pollWAF (mux := @litMux string) lineYAML textWAF setText wafPolls in
  let h := HeaderSet claimHeader "spoofed" ∅ in
  ClaimStamp w h !! claimHeader = Some ["7"] /\
  match @lastClean _ _ _ laws (docsFetched <$> wafPolls) with
  | Some p => ClaimStamp w h !! claimHeader =
                (if (p_generation p >? 0)%Z then Some [itoa (p_generation p)] else None) /\
              exists docs rules o, WAF.Parse lineYAML docs = (rules, []) /\
                Some (WAF.w_ID <$> rules) = Some o /\ id (e_global w) = o
  | None => ClaimStamp w h !! claimHeader = None
  end /\
  (forall k, k <> claimHeader -> ClaimStamp w h !! k = h !! k).
Proof.
  split; [vm_compute; reflexivity|].
  apply (claim_is_honest lineYAML textWAF setText id (fun rs => Some (WAF.w_ID <$> rs)) []
           (fun _ => eq_refl) (fun _ _ => eq_refl) wafPolls).
  repeat (apply Forall_cons; split); try constructor; simpl; try (by constructor);
    apply (bool_decide_unpack _); vm_compute; reflexivity.
Defined.

#[local] Existing Instance EdgeStoresProps.toyEtag.

Definition twoDocs : list ConfigMap :=
  [ReloadLemmas.demoCM "sys" "a" wafLabelKey roleGlobal "r1"; ReloadLemmas.demoCM "sys" "b" wafLabelKey roleGlobal "r2"].

Lemma edge_waf_drops_documents_witness :
  let w := NewEdgeWAF (M := gmap (string * list string * bool) (string * string)) lineYAML textWAF setText in
  let p := mkPayload 1 (EdgeStores.global (EdgeStores.reloadWaf "sys" twoDocs (EdgeStores.newStore ""))) [] [] [] [] "e" in
  let w' := fst (UpdateWAF lineYAML textWAF setText p w) in
  WAF.w_ID <$> fst (WAF.Parse lineYAML (globalDocs (gather wafLabelKey "sys" twoDocs))) = ["r1"; "r2"] /\
  e_global w' = ["r1"] /\ snd (UpdateWAF lineYAML textWAF setText p w) = None /\
  ClaimStamp w' ∅ !! claimHeader = Some [itoa 1] /\
  fst (WAF.Parse lineYAML (globalDocs (gather wafLabelKey "sys" twoDocs))) =
    fst (WAF.Parse lineYAML ["r1"]) ++ fst (WAF.Parse lineYAML ["r2"]).
Proof.
  split; [vm_compute; reflexivity|].
  apply (edge_waf_drops_documents lineYAML textWAF setText "sys" twoDocs (EdgeStores.newStore "") "r1" ["r2"]
           (fst (WAF.Parse lineYAML ["r1"])) ["r1"]).
  - repeat (apply Forall_cons; split); try constructor; by vm_compute.
  - vm_compute. reflexivity.
  - vm_compute. discriminate.
  - intros rest. reflexivity.
  - vm_compute. reflexivity.
  - vm_compute. reflexivity.
  - lia.
Defined.

Definition twoIngresses : list Controller.Ingress :=
  [ingOf "t" (boundTo "strict") rootRule; ingOf "u" (boundTo "lax") hooksRule].
Definition hooksRequest : MuxRequest := mkMuxRequest "app.example" "/hooks/github".

Definition twoZones : list (string * string) :=
  [("app.example/", "t/strict"); ("app.example/hooks", "u/lax"); ("app.example/hooks/", "u/lax")].

Lemma twoIngresses_routes :
  (fun kh => (kh.1, coreZone kh.2)) <$> coreRoutes twoIngresses = (fun kw => (kw.1, Some kw.2)) <$> twoZones.
Proof. vm_compute. reflexivity. Qed.

Lemma edge_enforces_core_zone_witness :
  exists k h z,
    Lit.find (Lit.registerAll (coreRoutes twoIngresses)) hooksRequest = Some (k, h) /\ coreZone h = Some z /\
    twoZones ≡ₚ map_to_list (EdgeStores.buildZoneRoutes twoIngresses EdgeStores.WAFZoneAnnotation false) /\
    resolve (M := gmap _ (string * string)) (newZoneMatcher twoZones []) hooksRequest = Some z.
Proof.
  assert (Hreg : forall (V : Type) (l : list (string * V)), l.*1 = twoZones.*1 -> Lit.registrable l).
  { intros V l Hl. split.
    - rewrite Hl. apply (bool_decide_unpack _). vm_compute. reflexivity.
    - intros pat v Hin. apply (list_elem_of_fmap_2 fst) in Hin. simpl in Hin. rewrite Hl in Hin.
      simpl in Hin. rewrite !elem_of_cons in Hin.
      destruct Hin as [->|[->|[->|[]%elem_of_nil]]];
        (split; [vm_compute; reflexivity|eexists; vm_compute; reflexivity]). }
  eexists _, _, _. split; [vm_compute; reflexivity|]. split; [vm_compute; reflexivity|].
  split.
  { apply (bool_decide_unpack _). vm_compute. reflexivity. }
  eapply (edge_enforces_core_zone (coreRoutes twoIngresses) twoZones [] hooksRequest "app.example/hooks/" _ "u/lax"
            ["hooks"] true).
  - apply Hreg. vm_compute. reflexivity.
  - by apply Hreg.
  - intros pat w Hin. unfold twoZones in Hin. rewrite !elem_of_cons in Hin.
    destruct Hin as [[= -> ->]|[[= -> ->]|[[= -> ->]|Hin%elem_of_nil]]]; try done; by vm_compute.
  - intros pat w _. pose proof twoIngresses_routes as Hr.
    transitivity ((pat, Some w) ∈ (fun kw : string * string => (kw.1, Some kw.2)) <$> twoZones).
    + rewrite list_elem_of_fmap. split; [intros Hin; by exists (pat, w)|].
      by intros ([? ?] & [= -> ->] & Hin).
    + rewrite <- Hr, list_elem_of_fmap. split.
      * intros ([k h] & [= -> ->] & Hin). by exists h.
      * intros (h & Hin & Hz). exists (pat, h). simpl. by rewrite Hz.
  - vm_compute. reflexivity.
  - done.
  - vm_compute. reflexivity.
  - reflexivity.
Defined.

End EdgeRulesProps.
