(* ===== verification/Signer.v ===== *)
(** * The edge CA and its signer

    Models [src/caid/caid.go] (the id of a set of CA certificates), [src/edgecp/signer.go]
    (the signer of the edges' client certificates) and the bundle helpers of
    [src/edgecp/ca.go].

    PEM, X.509, the key formats, the signatures and SHA-256 belong to the class
    [PKIOps]; [PKILaws] states what the theorems use of them. *)

From S2P Require Import Prelude GoString GoURL EdgeStores.

Set Default Proof Using "Type".

Inductive Curve := P256 | P384 | OtherCurve.
Inductive KeyType := KECDSA (c : Curve) | KEd25519 | KOther.

(** The fields of an [x509.Certificate] that the code sets or reads; key usages and
    extended key usages by their numbers.  Email addresses are neither set nor read. *)
Record Fields := mkFields {
  IsCA : bool;
  KeyUsage : Z;
  ExtKeyUsage : list Z;
  DNSNames : list string;
  IPAddresses : list string;
  URIs : list string;
  PermittedURIDomains : list string;
  SerialNumber : Z;
  NotBefore : Z;
  NotAfter : Z;
  CommonName : string;
  SubjectKeyId : string;       (* in hexadecimal *)
  MaxPathLenZero : bool;
}.

Class PKIOps (Cert Pub Key : Type) := {
  (** [pem.Decode]: the next block and the rest; [pem.EncodeToMemory]. *)
  pem_Decode : string -> option (string * string * string);
  pem_Encode : string -> string -> string;
  ParseCertificate : string -> option Cert;
  fieldsOf : Cert -> Fields;
  PublicKey : Cert -> Pub;
  (** [x509.ParsePKCS8PrivateKey] to a [crypto.Signer], [ParseECPrivateKey] and
      [ParsePKCS1PrivateKey]. *)
  ParsePKCS8 : string -> option Key;
  ParseEC : string -> option Key;
  ParsePKCS1 : string -> option Key;
  Public : Key -> Pub;
  PubEqual : Pub -> Pub -> bool;
  keyType : Pub -> KeyType;
  (** [x509.CreateCertificate]: template, parent, key of the subject, signing key. *)
  CreateCertificate : Fields -> Cert -> Pub -> Key -> option string;
  (** The same with the template as its own parent and the signing key's public key. *)
  SelfSign : Fields -> Key -> option string;
  MarshalPKIX : Pub -> option string;
  MarshalPKCS8 : Key -> option string;
  (** [Verify] with the roots, for client authentication, at the current time. *)
  Verify : list Cert -> Cert -> bool;
  (** SHA-256 in hexadecimal. *)
  sumHex : string -> string;
}.

(** The types of the blocks the code writes. *)
Definition pemTypes : list string := ["CERTIFICATE"; "PRIVATE KEY"; "CERTIFICATE REQUEST"].

Lemma cert_type : "CERTIFICATE" ∈ pemTypes.
Proof. apply elem_of_cons. by left. Qed.
Lemma key_type : "PRIVATE KEY" ∈ pemTypes.
Proof. apply elem_of_cons. right. apply elem_of_cons. by left. Qed.
Lemma csr_type : "CERTIFICATE REQUEST" ∈ pemTypes.
Proof. do 2 (apply elem_of_cons; right). by apply list_elem_of_singleton. Qed.

Class PKILaws (Cert Pub Key : Type) `{!PKIOps Cert Pub Key} : Prop := {
  pem_shrinks s ty b r : pem_Decode s = Some (ty, b, r) -> String.length r < String.length s;
  pem_roundtrip ty b r :
    ty ∈ pemTypes -> pem_Decode (pem_Encode ty b +:+ r) = Some (ty, b, r);
  sumHex_inj s t : sumHex s = sumHex t -> s = t;
  sumHex_plain s : mem_char (ascii_of_nat 0) (sumHex s) = false;
  sumHex_nonempty s : sumHex s <> "";
  PubEqual_refl pub : PubEqual pub pub = true;
  (** What was created parses, with the key it was created for. *)
  SelfSign_parses t key der :
    SelfSign t key = Some der -> exists c, ParseCertificate der = Some c /\ PublicKey c = Public key;
  MarshalPKCS8_parses key b : MarshalPKCS8 key = Some b -> ParsePKCS8 b = Some key;
}.

Module Signer.
Import EdgeStores.

Section signer.
Context {Cert Pub Key : Type} `{!PKIOps Cert Pub Key} `{!EtagOps}.

(** ** PEM bundles *)

Fixpoint decodeAll (fuel : nat) (rest : string) : list (string * string) :=
  match fuel with
  | O => []
  | S fuel =>
      match pem_Decode rest with
      | None => []
      | Some (ty, b, rest) => (ty, b) :: decodeAll fuel rest
      end
  end.

(** The CERTIFICATE blocks, in order; each decoding leaves a shorter rest. *)
Definition certBlocks (certPEM : string) : list string :=
  omap (fun tb => if String.eqb tb.1 "CERTIFICATE" then Some tb.2 else None)
    (decodeAll (S (String.length certPEM)) certPEM).

Definition encodeCert (der : string) : string := pem_Encode "CERTIFICATE" der.

Definition certBundleFPs (certPEM : string) : list string := sumHex <$> certBlocks certPEM.

Definition allParse (ders : list string) : bool :=
  forallb (fun der => match ParseCertificate der with Some _ => true | None => false end) ders.

Definition reencodeCertBundle (certPEM : string) : option (string * nat) :=
  let ders := certBlocks certPEM in
  if allParse ders then Some (concatStrings (encodeCert <$> ders), length ders) else None.

Definition splitCertBundle (certPEM : string) : option (list string) :=
  let ders := certBlocks certPEM in
  if allParse ders then Some (encodeCert <$> ders) else None.

Definition parseCACert (certPEM : string) : option Cert :=
  match pem_Decode certPEM with
  | Some (ty, b, _) => if negb (String.eqb ty "CERTIFICATE") then None else ParseCertificate b
  | None => None
  end.

Definition parsePrivateKey (keyPEM : string) : option Key :=
  match pem_Decode keyPEM with
  | None => None
  | Some (ty, b, _) =>
      if String.eqb ty "PRIVATE KEY" then ParsePKCS8 b
      else if String.eqb ty "EC PRIVATE KEY" then ParseEC b
      else if String.eqb ty "RSA PRIVATE KEY" then ParsePKCS1 b
      else None
  end.

Definition validCAKeypair (certPEM keyPEM : string) : bool :=
  if String.eqb certPEM "" || String.eqb keyPEM "" then false
  else match parseCACert certPEM, parsePrivateKey keyPEM with
       | Some cert, Some key => PubEqual (PublicKey cert) (Public key)
       | _, _ => false
       end.

(** ** A generated CA *)

Definition DefaultClientCertSkew : Z := (10 * minute)%Z.
Definition DefaultCATTL : Z := (2 * 365 * 24 * hour)%Z.
Definition SANTrustDomain : string := "parapet.moonrhythm.io".
Definition KeyUsageCertSignCRLSign : Z := 96.
Definition ExtKeyUsageClientAuth : Z := 2.

Definition caTemplate (sn now ttl : Z) (skid : string) : Fields :=
  mkFields true KeyUsageCertSignCRLSign [ExtKeyUsageClientAuth] [] [] [] [SANTrustDomain] sn
    (now - DefaultClientCertSkew) (now + ttl) "parapet-edge-ca" skid true.

(** [key] and [sn] are what the random source gives, [now] the clock. *)
Definition GenerateCA (ttl : Z) (key : option Key) (sn : option Z) (now : Z) : option (string * string) :=
  let ttl := if (ttl <=? 0)%Z then DefaultCATTL else ttl in
  match key, sn with
  | Some key, Some sn =>
      match MarshalPKIX (Public key) with
      | None => None
      | Some spki =>
          match SelfSign (caTemplate sn now ttl (sumHex spki)) key, MarshalPKCS8 key with
          | Some der, Some keyDER => Some (pem_Encode "CERTIFICATE" der, pem_Encode "PRIVATE KEY" keyDER)
          | _, _ => None
          end
      end
  | _, _ => None
  end.

(** ** The id of a set of CAs *)

Definition FromDER (ders : list string) : option string :=
  match ders with
  | [] => None
  | _ => Some (hexSum16 (concatStrings ((fun s => s +:+ byte 0) <$> merge_sort str_le (sumHex <$> ders))))
  end.

Definition FromPEM (bundlePEM : string) : option string := FromDER (certBlocks bundlePEM).
Definition caBundleID (bundlePEM : string) : option string := FromPEM bundlePEM.

(** ** Names and keys *)

Definition DefaultClientCertTTL : Z := (168 * hour)%Z.

Definition segmentChar (c : ascii) : bool :=
  let n := nat_of_ascii c in
  ((97 <=? n) && (n <=? 122) || (48 <=? n) && (n <=? 57))%nat ||
  Ascii.eqb c "." || Ascii.eqb c "_" || Ascii.eqb c "-".

Definition validPathSegment (s : string) : bool :=
  if String.eqb s "" || (253 <? String.length s)%nat then false else all_chars segmentChar s.

(** The URI as [String] prints it: its characters need no escape. *)
Definition EdgeSAN (id : string) : option string :=
  let id := to_lower (trim_space id) in
  if negb (validPathSegment id) then None
  else Some ("spiffe://" +:+ SANTrustDomain +:+ "/edge/" +:+ id).

Definition AllowedLeafKey (pub : Pub) : bool :=
  match keyType pub with
  | KECDSA P256 | KECDSA P384 => true
  | KECDSA OtherCurve => false
  | KEd25519 => true
  | KOther => false
  end.

Definition KeyUsageDigitalSignature : Z := 1.
Definition ExtKeyUsageAny : Z := 0.

Definition assertLeafShape (leaf : Fields) (san : string) : bool :=
  negb (IsCA leaf) && (KeyUsage leaf =? KeyUsageDigitalSignature)%Z &&
  match ExtKeyUsage leaf with [e] => (e =? ExtKeyUsageClientAuth)%Z | _ => false end &&
  match DNSNames leaf, IPAddresses leaf with [], [] => true | _, _ => false end &&
  match URIs leaf with [u] => String.eqb u san | _ => false end.

Definition validateEdgeCA (ca : Fields) : list string :=
  (if IsCA ca then [] else ["provided edge CA is not marked IsCA"]) ++
  (match ExtKeyUsage ca with
   | [] => []
   | ekus => if existsb (fun e => (e =? ExtKeyUsageClientAuth) || (e =? ExtKeyUsageAny))%Z ekus then []
             else ["provided edge CA EKU does not permit clientAuth"]
   end) ++
  (match PermittedURIDomains ca with
   | [] => ["provided edge CA has no NameConstraints PermittedURIDomains"]
   | _ => []
   end).

(** ** The signer *)

Record Signer := mkSigner {
  caCert : Cert;
  caKey : Key;
  bundle : string;
  bundlePool : list Cert;
  caID : string;
  activeFP : string;
  certCount : nat;
  ttl : Z;
  skew : Z;
}.

Inductive signerError := EKey | ECert | EAmbiguous | ENoCerts | ENoMatch | EBundleID.

(** The walk over the blocks. *)
Record walk := mkWalk {
  certs : list Cert;
  fps : list string;
  rebuilt : string;
  activeIx : option nat;
}.

Definition walkStep (keyPub : Pub) (wantFP : string) (w : walk) (der : string) : result signerError walk :=
  match ParseCertificate der with
  | None => Err ECert
  | Some c =>
      let fp := sumHex der in
      let matches := PubEqual (PublicKey c) keyPub && (String.eqb wantFP "" || String.eqb fp wantFP) in
      match activeIx w with
      | Some ix =>
          if matches then Err EAmbiguous
          else Ok (mkWalk (certs w ++ [c]) (fps w ++ [fp]) (rebuilt w +:+ encodeCert der) (Some ix))
      | None =>
          Ok (mkWalk (certs w ++ [c]) (fps w ++ [fp]) (rebuilt w +:+ encodeCert der)
                (if matches then Some (length (certs w)) else None))
      end
  end.

Fixpoint walkBlocks (keyPub : Pub) (wantFP : string) (w : walk) (ders : list string) : result signerError walk :=
  match ders with
  | [] => Ok w
  | der :: ders =>
      match walkStep keyPub wantFP w der with
      | Err e => Err e
      | Ok w => walkBlocks keyPub wantFP w ders
      end
  end.

Definition NewProvidedSignerActive (bundlePEM keyPEM wantFP : string) (ttl skew : Z) :
    result signerError (Signer * list string) :=
  match parsePrivateKey keyPEM with
  | None => Err EKey
  | Some key =>
      match walkBlocks (Public key) wantFP (mkWalk [] [] "" None) (certBlocks bundlePEM) with
      | Err e => Err e
      | Ok w =>
          match certs w with
          | [] => Err ENoCerts
          | _ :: _ =>
              match activeIx w with
              | None => Err ENoMatch
              | Some ix =>
                  match certs w !! ix, fps w !! ix with
                  | Some ca, Some fp =>
                      let ttl := if (ttl <=? 0)%Z then DefaultClientCertTTL else ttl in
                      let skew := if (skew <? 0)%Z then DefaultClientCertSkew else skew in
                      match caBundleID (rebuilt w) with
                      | None => Err EBundleID
                      | Some id =>
                          Ok (mkSigner ca key (rebuilt w) (certs w) id fp (length (certs w)) ttl skew,
                              validateEdgeCA (fieldsOf ca))
                      end
                  | _, _ => Err ENoMatch
                  end
              end
          end
      end
  end.

Definition NewProvidedSigner (certPEM keyPEM : string) (ttl skew : Z) :=
  NewProvidedSignerActive certPEM keyPEM "" ttl skew.

Definition BundlePEM (s : Signer) : string := bundle s.
Definition CAID (s : Signer) : string := caID s.
Definition ActiveFP (s : Signer) : string := activeFP s.
Definition BundleLen (s : Signer) : nat := certCount s.

Inductive signError := SKey | SID | SSerial | SSign | SParse | SShape | SVerify.

Definition leafTemplate (s : Signer) (now sn : Z) (san : string) : Fields :=
  mkFields false KeyUsageDigitalSignature [ExtKeyUsageClientAuth] [] [] [san] [] sn (now - skew s)
    (now + ttl s) "" "" false.

(** [now] is the clock, [rnd] the random serial number.  The serial is returned as a
    number; the code prints its bytes. *)
Definition Sign (s : Signer) (now : Z) (rnd : option Z) (pub : Pub) (id : string) :
    result signError (string * Z * Z) :=
  if negb (AllowedLeafKey pub) then Err SKey
  else match EdgeSAN id with
  | None => Err SID
  | Some san =>
      match rnd with
      | None => Err SSerial
      | Some sn =>
          match CreateCertificate (leafTemplate s now sn san) (caCert s) pub (caKey s) with
          | None => Err SSign
          | Some der =>
              match ParseCertificate der with
              | None => Err SParse
              | Some leaf =>
                  if negb (assertLeafShape (fieldsOf leaf) san) then Err SShape
                  else if negb (Verify (bundlePool s) leaf) then Err SVerify
                  else Ok (encodeCert der +:+ bundle s, now + ttl s, sn)%Z
              end
          end
      end
  end.

End signer.
Arguments Signer Cert Key : clear implicits.

End Signer.

(** ** Lemmas *)

Module SignerLemmas.
Import EdgeStores Signer.

Lemma framed_inj (l l' : list string) :
  Forall (fun s => mem_char (ascii_of_nat 0) s = false) l ->
  Forall (fun s => mem_char (ascii_of_nat 0) s = false) l' ->
  concatStrings ((fun s => s +:+ byte 0) <$> l) = concatStrings ((fun s => s +:+ byte 0) <$> l') -> l = l'.
Proof.
  intros Hl. revert l'. induction Hl as [|s l Hs Hl IH]; intros l' Hl'; inversion Hl' as [|s' t' Hs' Ht']; subst;
    simpl; try done.
  - destruct s'; by intros.
  - destruct s; by intros.
  - unfold byte. rewrite !str_app_assoc. intros He%str_app_sep_inj; [|done|done].
    destruct He as [-> He]. f_equal. by apply IH.
Qed.

Section lemmas.
Context {Cert Pub Key : Type} `{!PKIOps Cert Pub Key} `{!PKILaws Cert Pub Key} `{!EtagOps} `{!EtagLaws}.

Lemma decodeAll_encode fuel ders :
  String.length (concatStrings (encodeCert <$> ders)) < fuel ->
  decodeAll fuel (concatStrings (encodeCert <$> ders)) = (fun d => ("CERTIFICATE", d)) <$> ders.
Proof using Type*.
  revert fuel. induction ders as [|d ders IH]; intros [|fuel] Hf; [simpl in Hf; lia| |lia|].
  - simpl. destruct (pem_Decode "") as [[[ty b] r]|] eqn:Hd; [|done]. apply pem_shrinks in Hd. simpl in Hd. lia.
  - rewrite fmap_cons in *. change (concatStrings (encodeCert d :: ?l)) with (encodeCert d +:+ concatStrings l) in *.
    set (rest := concatStrings (encodeCert <$> ders)) in *. simpl. unfold encodeCert in *.
    rewrite pem_roundtrip by apply cert_type. f_equal. apply IH.
    pose proof (pem_shrinks _ _ _ _ (pem_roundtrip "CERTIFICATE" d rest cert_type)). lia.
Qed.

(** Decoding what was encoded. *)
Lemma certBlocks_encode ders : certBlocks (concatStrings (encodeCert <$> ders)) = ders.
Proof using Type*.
  unfold certBlocks. rewrite decodeAll_encode by lia.
  induction ders as [|d ders IH]; [done|]. exact (f_equal (cons d) IH).
Qed.

Lemma certBlocks_one der : certBlocks (encodeCert der) = [der].
Proof using Type*.
  rewrite <- (certBlocks_encode [der]). simpl. by rewrite str_app_nil_r.
Qed.

Lemma FromDER_perm ds ds' :
  ds <> [] -> ds' <> [] -> FromDER ds = FromDER ds' <-> ds ≡ₚ ds'.
Proof using Type*.
  intros Hd Hd'. unfold FromDER. destruct ds as [|d ds]; [done|]. destruct ds' as [|d' ds']; [done|].
  generalize dependent (d :: ds). generalize dependent (d' :: ds'). clear d d' ds ds'. intros ds' Hd' ds Hd. split.
  - intros [= He%hexSum16_inj].
    assert (Hpl : forall l, Forall (fun s => mem_char (ascii_of_nat 0) s = false) (merge_sort str_le (sumHex <$> l))).
    { intros l. apply List.Forall_forall. intros s Hs. apply list_elem_of_In in Hs.
      rewrite merge_sort_Permutation in Hs. apply list_elem_of_fmap in Hs as (x & -> & _).
      by apply (sumHex_plain (Cert := Cert) (Pub := Pub) (Key := Key)). }
    apply framed_inj in He; [|done|done].
    assert (Hp : sumHex <$> ds ≡ₚ sumHex <$> ds').
    { by rewrite <- (merge_sort_Permutation str_le (sumHex <$> ds)), He, merge_sort_Permutation. }
    apply Permutation_map_inv in Hp as (ds2 & Hm & Hp).
    assert (ds = ds2) as ->; [|done].
    clear -Hm PKILaws0. revert ds2 Hm. induction ds as [|d ds IH]; intros [|d2 ds2] Hm; simpl in Hm; try done.
    injection Hm as Hs Hm. apply (sumHex_inj (Cert := Cert) (Pub := Pub) (Key := Key)) in Hs as ->.
    f_equal. by apply IH.
  - intros Hp. do 2 f_equal. f_equal. f_equal. apply sort_strings_perm. by rewrite Hp.
Qed.

(** *** The walk *)

Definition matchesDer (keyPub : Pub) (wantFP der : string) : bool :=
  match ParseCertificate der with
  | Some c => PubEqual (PublicKey c) keyPub && (String.eqb wantFP "" || String.eqb (sumHex der) wantFP)
  | None => false
  end.

Record Walked (kp : Pub) (want : string) (ders : list string) (w : walk) : Prop := {
  wk_certs : Forall2 (fun der c => ParseCertificate der = Some c) ders (certs w);
  wk_fps : fps w = sumHex <$> ders;
  wk_rebuilt : rebuilt w = concatStrings (encodeCert <$> ders);
  wk_count : countb (matchesDer kp want) ders = match activeIx w with Some _ => 1 | None => 0 end;
  wk_active : forall ix, activeIx w = Some ix ->
    exists der, ders !! ix = Some der /\ matchesDer kp want der = true;
}.

Lemma concatStrings_snoc l s : concatStrings (l ++ [s]) = concatStrings l +:+ s.
Proof. induction l as [|x l IH]; simpl; [by rewrite str_app_nil_r|]. by rewrite IH, str_app_assoc. Qed.

Lemma walkStep_Walked kp want ders w der :
  Walked kp want ders w ->
  match walkStep kp want w der with
  | Ok w' => Walked kp want (ders ++ [der]) w'
  | Err ECert => ParseCertificate der = None
  | Err EAmbiguous => 1 < countb (matchesDer kp want) (ders ++ [der])
  | Err _ => False
  end.
Proof.
  intros [Hc Hf Hr Hn Ha]. unfold walkStep. destruct (ParseCertificate der) as [c|] eqn:Hp; [|done].
  assert (Hm : matchesDer kp want der =
               PubEqual (PublicKey c) kp && (String.eqb want "" || String.eqb (sumHex der) want)).
  { unfold matchesDer. by rewrite Hp. }
  rewrite <- Hm.
  assert (Hbase : forall ix, 
    Forall2 (fun der c => ParseCertificate der = Some c) (ders ++ [der]) (certs w ++ [c]) /\
    fps w ++ [sumHex der] = sumHex <$> (ders ++ [der]) /\
    rebuilt w +:+ encodeCert der = concatStrings (encodeCert <$> (ders ++ [der])) /\
    (activeIx w = Some ix -> exists d, (ders ++ [der]) !! ix = Some d /\ matchesDer kp want d = true)).
  { intros ix. split; [|split; [|split]].
    - apply Forall2_app; [done|]. by repeat constructor.
    - by rewrite fmap_app, Hf.
    - rewrite fmap_app. change (encodeCert <$> [der]) with [encodeCert (Cert := Cert) (Pub := Pub) (Key := Key) der]. by rewrite concatStrings_snoc, Hr.
    - intros (d & Hd & Hmd)%Ha. exists d. split; [|done]. by apply lookup_app_l_Some. }
  assert (Hcnt : countb (matchesDer kp want) (ders ++ [der]) =
                 countb (matchesDer kp want) ders + (if matchesDer kp want der then 1 else 0)).
  { rewrite countb_app. simpl. by destruct (matchesDer kp want der). }
  destruct (activeIx w) as [ix|] eqn:Hix.
  - destruct (matchesDer kp want der) eqn:Hmd; [rewrite Hcnt, Hn; lia|].
    destruct (Hbase ix) as (? & ? & ? & ?). split; simpl; try done.
    + rewrite Hcnt, Hn. lia.
    + intros ix' [= <-]. auto.
  - destruct (Hbase 0) as (? & ? & ? & _). destruct (matchesDer kp want der) eqn:Hmd; (split; simpl; try done).
    + rewrite Hcnt, Hn. lia.
    + intros ix' [= <-]. exists der. split; [|done].
      rewrite <- (Forall2_length _ _ _ Hc). by rewrite list_lookup_middle.
    + rewrite Hcnt, Hn. lia.
Qed.

Lemma walkBlocks_Walked kp want ders0 w ders :
  Walked kp want ders0 w ->
  match walkBlocks kp want w ders with
  | Ok w' => Walked kp want (ders0 ++ ders) w'
  | Err e => (e = ECert \/ e = EAmbiguous) /\
             (allParse (ders0 ++ ders) = false \/ 1 < countb (matchesDer kp want) (ders0 ++ ders))
  end.
Proof.
  revert ders0 w. induction ders as [|der ders IH]; intros ders0 w Hw; simpl; [by rewrite app_nil_r|].
  pose proof (walkStep_Walked kp want ders0 w der Hw) as Hs. destruct (walkStep kp want w der) as [w'|e].
  - specialize (IH _ _ Hs). by rewrite <- app_assoc in IH.
  - change (der :: ders) with ([der] ++ ders). destruct e; try done.
    + split; [by left|]. left. unfold allParse. rewrite !forallb_app. simpl. rewrite Hs. simpl. by rewrite andb_false_r.
    + split; [by right|]. right. rewrite app_assoc, countb_app. lia.
Qed.

(** What building a signer gives. *)
Lemma NewProvidedSignerActive_cases bundlePEM keyPEM want ttl0 skew0 :
  let ders := certBlocks bundlePEM in
  match NewProvidedSignerActive bundlePEM keyPEM want ttl0 skew0 with
  | Ok (s, _) =>
      parsePrivateKey keyPEM = Some (caKey s) /\
      Forall2 (fun der c => ParseCertificate der = Some c) ders (bundlePool s) /\
      countb (matchesDer (Public (caKey s)) want) ders = 1 /\
      (exists der, der ∈ ders /\ matchesDer (Public (caKey s)) want der = true /\
         ParseCertificate der = Some (caCert s) /\ ActiveFP s = sumHex der) /\
      certBlocks (BundlePEM s) = ders /\ FromDER ders = Some (CAID s) /\ BundleLen s = length ders /\
      (0 < ttl s)%Z /\ (0 <= skew s)%Z
  | Err EKey => parsePrivateKey keyPEM = None
  | Err ECert | Err EAmbiguous =>
      exists key, parsePrivateKey keyPEM = Some key /\
        (allParse ders = false \/ 1 < countb (matchesDer (Public key) want) ders)
  | Err ENoCerts => ders = []
  | Err ENoMatch => exists key, parsePrivateKey keyPEM = Some key /\ countb (matchesDer (Public key) want) ders = 0
  | Err EBundleID => False
  end.
Proof using Type*.
  intros ders. unfold NewProvidedSignerActive. destruct (parsePrivateKey keyPEM) as [key|] eqn:Hk; [|done].
  assert (Hw0 : Walked (Public key) want [] (@mkWalk Cert [] [] "" None)) by (split; simpl; done).
  pose proof (walkBlocks_Walked (Public key) want [] _ ders Hw0) as Hw. simpl app in Hw. fold ders.
  destruct (walkBlocks _ _ _ ders) as [w|e].
  2:{ destruct Hw as [[-> | ->] Hex]; eauto. }
  destruct Hw as [Hc Hf Hr Hn Ha]. destruct (certs w) as [|c0 cs] eqn:Hcs.
  { by inversion Hc. }
  rewrite <- Hcs in *. assert (Hne : ders <> []).
  { intros ->. inversion Hc. congruence. }
  destruct (activeIx w) as [ix|] eqn:Hix; [|by eauto].
  destruct (Ha ix eq_refl) as (der & Hd & Hm).
  destruct (Forall2_lookup_l _ _ _ _ _ Hc Hd) as (ca & Hca & Hp).
  rewrite Hca, Hf, list_lookup_fmap, Hd, Hr. simpl.
  unfold caBundleID, FromPEM. rewrite certBlocks_encode.
  destruct (FromDER ders) as [id|] eqn:Hid; [|by unfold FromDER in Hid; destruct ders].
  simpl. split; [done|]. split; [done|]. split; [done|].
  split; [by exists der; split; [by apply list_elem_of_lookup_2 in Hd|]|].
  unfold BundlePEM, CAID, BundleLen. simpl. rewrite certBlocks_encode.
  split; [done|]. split; [done|]. split; [by rewrite (Forall2_length _ _ _ Hc)|].
  split; [destruct (ttl0 <=? 0)%Z eqn:?; [done|lia]|destruct (skew0 <? 0)%Z eqn:?; [done|lia]].
Qed.

End lemmas.
End SignerLemmas.

Module SignerProps.
Import EdgeStores Signer SignerLemmas.

Section props.
Context {Cert Pub Key : Type} {pki : PKIOps Cert Pub Key} {plaws : PKILaws Cert Pub Key}.
Context {ops : EtagOps} {elaws : EtagLaws}.

(** The id of a trust bundle names its set of certificates. Two non-empty lists of
    certificates have the same id exactly when one is a permutation of the other, and the
    id that the control plane computes over a bundle it encoded is the one an edge
    computes over the certificates of its chain. *)
Theorem caid_identifies_cas (ds ds' : list string) :
  ds <> [] -> ds' <> [] ->
  (FromDER ds = FromDER ds' <-> ds ≡ₚ ds') /\
  FromPEM (concatStrings (encodeCert <$> ds)) = FromDER ds.
Proof using plaws elaws.
  intros Hd Hd'. split; [by apply FromDER_perm|]. unfold FromPEM. by rewrite certBlocks_encode.
Qed.

(** A signer is built exactly from a key that parses and a bundle of certificates
    that all parse and of which exactly one is the key's (with the pinned fingerprint, if
    one is given). That certificate is the one that signs and whose fingerprint is
    advertised; the served bundle decodes to the same certificates, in the same order,
    and the advertised id is theirs; the lifetime is positive. *)
Theorem NewProvidedSignerActive_spec bundlePEM keyPEM want ttl0 skew0 :
  let ders := certBlocks bundlePEM in
  match NewProvidedSignerActive bundlePEM keyPEM want ttl0 skew0 with
  | Ok (s, _) =>
      parsePrivateKey keyPEM = Some (caKey s) /\
      Forall2 (fun der c => ParseCertificate der = Some c) ders (bundlePool s) /\
      countb (matchesDer (Public (caKey s)) want) ders = 1 /\
      (exists der, der ∈ ders /\ matchesDer (Public (caKey s)) want der = true /\
         ParseCertificate der = Some (caCert s) /\ ActiveFP s = sumHex der) /\
      certBlocks (BundlePEM s) = ders /\ FromDER ders = Some (CAID s) /\ BundleLen s = length ders /\
      (0 < ttl s)%Z /\ (0 <= skew s)%Z
  | Err EKey => parsePrivateKey keyPEM = None
  | Err ECert | Err EAmbiguous =>
      exists key, parsePrivateKey keyPEM = Some key /\
        (allParse ders = false \/ 1 < countb (matchesDer (Public key) want) ders)
  | Err ENoCerts => ders = []
  | Err ENoMatch => exists key, parsePrivateKey keyPEM = Some key /\ countb (matchesDer (Public key) want) ders = 0
  | Err EBundleID => False
  end.
Proof using plaws elaws. apply NewProvidedSignerActive_cases. Qed.

(** C33: the edge CA emits edge client certificates only. Whatever the key and the id of
    the request, an issued chain starts with a leaf that is not a CA, may only sign, is for
    client authentication alone, carries the URI of the normalised id as its single name,
    and verifies against the CAs served as the trust bundle; its key is of an allowed type.
    No two ids share a URI unless they normalise to the same one. *)
Theorem Sign_sound (s : Signer Cert Key) now rnd pub id chain na sn :
  Sign s now rnd pub id = Ok (chain, na, sn) ->
  AllowedLeafKey pub = true /\
  exists der leaf san,
    chain = encodeCert der +:+ BundlePEM s /\ ParseCertificate der = Some leaf /\
    IsCA (fieldsOf leaf) = false /\ KeyUsage (fieldsOf leaf) = KeyUsageDigitalSignature /\
    ExtKeyUsage (fieldsOf leaf) = [ExtKeyUsageClientAuth] /\ DNSNames (fieldsOf leaf) = [] /\
    IPAddresses (fieldsOf leaf) = [] /\ URIs (fieldsOf leaf) = [san] /\ EdgeSAN id = Some san /\
    Verify (bundlePool s) leaf = true /\ na = (now + ttl s)%Z /\
    (forall id', EdgeSAN id' = Some san -> to_lower (trim_space id') = to_lower (trim_space id)).
Proof.
  unfold Sign. destruct (AllowedLeafKey pub); [|done]. simpl.
  destruct (EdgeSAN id) as [san|] eqn:Hsan; [|done]. destruct rnd as [rn|]; [|done].
  destruct (CreateCertificate _ _ _ _) as [der|]; [|done].
  destruct (ParseCertificate der) as [leaf|] eqn:Hp; [|done].
  destruct (assertLeafShape (fieldsOf leaf) san) eqn:Hs; [|done]. simpl.
  destruct (Verify (bundlePool s) leaf) eqn:Hv; [|done]. simpl. intros [= <- <- <-].
  split; [done|]. exists der, leaf, san. unfold assertLeafShape in Hs.
  apply andb_prop in Hs as [Hs Hu]. apply andb_prop in Hs as [Hs Hn]. apply andb_prop in Hs as [Hs He].
  apply andb_prop in Hs as [Hca Hku].
  destruct (ExtKeyUsage (fieldsOf leaf)) as [|e [|]]; try done. apply Z.eqb_eq in He as ->.
  destruct (DNSNames (fieldsOf leaf)), (IPAddresses (fieldsOf leaf)); try done.
  destruct (URIs (fieldsOf leaf)) as [|u [|]]; try done. apply String.eqb_eq in Hu as ->.
  repeat split; try done.
  - by destruct (IsCA (fieldsOf leaf)).
  - by apply Z.eqb_eq.
  - intros id' Hid'. unfold EdgeSAN in *. destruct (negb (validPathSegment _)); [done|].
    destruct (negb (validPathSegment (to_lower (trim_space id')))); [done|].
    injection Hsan as <-. injection Hid' as Hid'. by repeat apply str_app_inj_l in Hid'.
Qed.

End props.

(** *** Witnesses

    A toy infrastructure: a block is its type's letter, its length in characters as a
    run of [|], a dot and its bytes; a certificate is its bytes, whose first character is
    its key and its key id; a created one follows it with its parent's and the URI. *)

Fixpoint unary (n : nat) : string := match n with O => "." | S n => "|" +:+ unary n end.
Fixpoint readUnary (s : string) : option (nat * string) :=
  match s with
  | String c s =>
      if Ascii.eqb c "." then Some (0, s)
      else if Ascii.eqb c "|" then match readUnary s with Some (n, r) => Some (S n, r) | None => None end
      else None
  | "" => None
  end.

Definition toyFields (uris : list string) (skid : string) : Fields :=
  mkFields false 1 [2%Z] [] [] uris [] 0 0 0 "" skid false.

(** Bytes as pairs of letters. *)
Definition nibble (n : nat) : ascii := ascii_of_nat (65 + n).
Fixpoint letters (s : string) : string :=
  match s with
  | "" => ""
  | String c s => String (nibble (nat_of_ascii c / 16)) (String (nibble (nat_of_ascii c mod 16)) (letters s))
  end.

Lemma nibbles_bound c : nat_of_ascii c / 16 < 16 /\ nat_of_ascii c mod 16 < 16.
Proof.
  pose proof (nat_ascii_bounded c). split; [apply Nat.Div0.div_lt_upper_bound; lia|].
  by apply Nat.mod_upper_bound.
Qed.

Lemma nibble_inj n m : n < 16 -> m < 16 -> nibble n = nibble m -> n = m.
Proof.
  intros Hn Hm He. apply (f_equal nat_of_ascii) in He. unfold nibble in He.
  rewrite !nat_ascii_embedding in He; lia.
Qed.

Lemma nibble_alnum n : n < 16 -> is_alnum (nibble n) = true.
Proof. intros Hn. unfold nibble. do 16 (destruct n as [|n]; [reflexivity|]). lia. Qed.

Lemma letters_inj s t : letters s = letters t -> s = t.
Proof.
  revert t. induction s as [|c s IH]; intros [|c' t]; cbn [letters]; try done. intros [= H1 H2 H3].
  destruct (nibbles_bound c), (nibbles_bound c').
  apply (nibble_inj (nat_of_ascii c / 16) (nat_of_ascii c' / 16)) in H1; [|done|done].
  apply (nibble_inj (nat_of_ascii c mod 16) (nat_of_ascii c' mod 16)) in H2; [|done|done].
  assert (Hc : nat_of_ascii c = nat_of_ascii c').
  { pose proof (Nat.div_mod_eq (nat_of_ascii c) 16). pose proof (Nat.div_mod_eq (nat_of_ascii c') 16). lia. }
  by rewrite (IH _ H3), <- (ascii_nat_embedding c), <- (ascii_nat_embedding c'), Hc.
Qed.

Lemma letters_alnum s : all_chars is_alnum (letters s) = true.
Proof.
  induction s as [|c s IH]; [done|]. destruct (nibbles_bound c). cbn [letters all_chars].
  by rewrite !nibble_alnum, IH.
Qed.

#[export] Instance lettersEtag : EtagOps := { hexSum16 s := "h" +:+ letters s }.
#[export] Instance lettersEtagLaws : EtagLaws.
Proof. split; [by intros s t [= ?%letters_inj]|intros s; apply letters_alnum|done]. Qed.

#[export] Instance toyPKI : PKIOps string ascii ascii := {
  pem_Decode s :=
    match s with
    | String c s =>
        match readUnary s with
        | Some (n, r) =>
            Some (if Ascii.eqb c "C" then "CERTIFICATE" else if Ascii.eqb c "K" then "PRIVATE KEY"
                  else if Ascii.eqb c "R" then "CERTIFICATE REQUEST" else "OTHER",
                  str_take n r, str_drop n r)
        | None => None
        end
    | "" => None
    end;
  pem_Encode ty b :=
    String (if String.eqb ty "CERTIFICATE" then "C" else if String.eqb ty "PRIVATE KEY" then "K" else "R")%char
      (unary (String.length b) +:+ b);
  ParseCertificate der := match der with "" => None | _ => Some der end;
  fieldsOf der := toyFields [str_drop 2 der] (str_take 1 der);
  PublicKey der := match der with String c _ => c | "" => "?"%char end;
  ParsePKCS8 b := match b with String c _ => Some c | "" => None end;
  ParseEC _ := None;
  ParsePKCS1 _ := None;
  Public k := k;
  PubEqual := Ascii.eqb;
  keyType _ := KEd25519;
  CreateCertificate t parent pub key := Some (String pub (str_take 1 parent +:+ concatStrings (URIs t)));
  SelfSign t key := Some (String key (itoa (SerialNumber t)));
  MarshalPKIX pub := Some (String pub "");
  MarshalPKCS8 key := Some (String key "");
  Verify roots leaf := true;
  sumHex s := String "h" (letters s);
}.

Lemma readUnary_unary n r : readUnary (unary n +:+ r) = Some (n, r).
Proof. induction n as [|n IH]; simpl; [done|]. simpl in IH. by rewrite IH. Qed.

Lemma readUnary_shrinks s n r : readUnary s = Some (n, r) -> String.length r < String.length s.
Proof.
  revert n. induction s as [|c s IH]; intros n; [done|]. cbn [readUnary].
  destruct (Ascii.eqb c "."); [intros [= <- <-]; simpl; lia|]. destruct (Ascii.eqb c "|"); [|done].
  destruct (readUnary s) as [[n' r']|]; [|done]. intros [= <- <-]. specialize (IH _ eq_refl). simpl. lia.
Qed.

Lemma str_drop_length n s : String.length (str_drop n s) <= String.length s.
Proof. revert n. induction s as [|c s IH]; intros [|n]; simpl; try lia. specialize (IH n). lia. Qed.

#[export] Instance toyPKILaws : PKILaws string ascii ascii.
Proof.
  split.
  - intros [|c s] ty b r; [done|]. simpl. destruct (readUnary s) as [[n r']|] eqn:Hr; [|done].
    apply readUnary_shrinks in Hr. intros [= _ _ <-]. pose proof (str_drop_length n r'). lia.
  - intros ty b r Hty. unfold pemTypes in Hty. repeat (apply elem_of_cons in Hty as [-> | Hty]); [..|by apply elem_of_nil in Hty];
      cbn [pem_Encode pem_Decode toyPKI]; simpl; rewrite str_app_assoc, readUnary_unary;
      by rewrite str_take_app, str_drop_app.
  - intros s t [= He]. by apply letters_inj.
  - intros s. cbn [sumHex toyPKI mem_char]. simpl. eapply all_chars_mem; [apply letters_alnum|reflexivity].
  - done.
  - apply Ascii.eqb_refl.
  - intros t key der [= <-]. by eexists.
  - by intros key b [= <-].
Qed.

Lemma caid_identifies_cas_witness :
  FromDER ["Aold"; "Bnew"] = FromDER ["Bnew"; "Aold"] /\
  (FromDER ["Aold"; "Bnew"] = FromDER ["Bnew"] <-> ["Aold"; "Bnew"] ≡ₚ ["Bnew"]) /\
  FromPEM (concatStrings (encodeCert <$> ["Aold"; "Bnew"])) = FromDER ["Aold"; "Bnew"].
Proof.
  split; [vm_compute; reflexivity|]. by apply caid_identifies_cas.
Defined.

(** An overlap of two CAs, and the staged key of the second. *)
Definition overlapPEM : string := concatStrings (encodeCert <$> ["Aold"; "Bnew"]).
Definition newKeyPEM : string := pem_Encode "PRIVATE KEY" "B".

Lemma NewProvidedSignerActive_spec_witness :
  match NewProvidedSignerActive overlapPEM newKeyPEM (sumHex "Bnew") 0 (-1) with
  | Ok (s, _) =>
      parsePrivateKey newKeyPEM = Some (caKey s) /\
      Forall2 (fun der c => ParseCertificate der = Some c) (certBlocks overlapPEM) (bundlePool s) /\
      countb (matchesDer (Public (caKey s)) (sumHex "Bnew")) (certBlocks overlapPEM) = 1 /\
      (exists der, der ∈ certBlocks overlapPEM /\ matchesDer (Public (caKey s)) (sumHex "Bnew") der = true /\
         ParseCertificate der = Some (caCert s) /\ ActiveFP s = sumHex der) /\
      certBlocks (BundlePEM s) = certBlocks overlapPEM /\ FromDER (certBlocks overlapPEM) = Some (CAID s) /\
      BundleLen s = length (certBlocks overlapPEM) /\ (0 < ttl s)%Z /\ (0 <= skew s)%Z
  | Err _ => False
  end.
Proof. exact (NewProvidedSignerActive_spec overlapPEM newKeyPEM (sumHex "Bnew") 0 (-1)). Defined.

Definition newSigner : Signer string ascii :=
  mkSigner "Bnew" "B"%char overlapPEM ["Aold"; "Bnew"] "id" "fp" 2 DefaultClientCertTTL DefaultClientCertSkew.

Lemma Sign_sound_witness :
  exists chain na sn,
    Sign newSigner 5 (Some 7%Z) "E"%char " Edge-1 " = Ok (chain, na, sn) /\
    AllowedLeafKey "E"%char = true /\
    exists der leaf san,
      chain = encodeCert der +:+ BundlePEM newSigner /\ ParseCertificate der = Some leaf /\
      IsCA (fieldsOf leaf) = false /\ KeyUsage (fieldsOf leaf) = KeyUsageDigitalSignature /\
      ExtKeyUsage (fieldsOf leaf) = [ExtKeyUsageClientAuth] /\ DNSNames (fieldsOf leaf) = [] /\
      IPAddresses (fieldsOf leaf) = [] /\ URIs (fieldsOf leaf) = [san] /\ EdgeSAN " Edge-1 " = Some san /\
      Verify (bundlePool newSigner) leaf = true /\ na = (5 + ttl newSigner)%Z /\
      (forall id', EdgeSAN id' = Some san -> to_lower (trim_space id') = to_lower (trim_space " Edge-1 ")).
Proof.
  eexists _, _, _. split; [vm_compute; reflexivity|].
  eapply (Sign_sound newSigner 5 (Some 7%Z) "E"%char " Edge-1 "). vm_compute. reflexivity.
Defined.

End SignerProps.
