(* ===== verification/EdgeServer.v ===== *)
(** * The control-plane HTTP API

    Models [src/edgecp/server.go] (bearer tokens, validators, the handlers of the
    distribution endpoints, purges, metrics ingestion, health, and the signer the
    server holds) and [src/edgecp/issuance.go] (edge certificates and the trust
    bundle), with [src/edgecp/resourceversion.go].

    A handler is a function of the server and the request; [Handler] is the mux.  The
    JSON codecs are the class [JSON], per type; what a [ResponseWriter] receives is a
    status, headers and a body.  The change-notification stream is in [Events]. *)

From S2P Require Import Prelude GoString Route Certs GoURL PurgeJournal EdgeStores Signer.

Set Default Proof Using "Type".

(** [json.Marshal] or [Encode] of a type, and decoding. *)
Class JSON (A : Type) := {
  marshal : A -> option string;
  unmarshal : string -> option A;
}.

(** Encoding is total and can be undone on the values [jvalid] admits (those whose
    strings are valid UTF-8). *)
Class JSONLaws (A : Type) `{!JSON A} := {
  jvalid : A -> Prop;
  unmarshal_marshal a : jvalid a -> exists s, marshal a = Some s /\ unmarshal s = Some a;
}.

Module EdgeServer.

(** ** Parsing *)

(** [strconv.ParseUint(s, 10, 64)]: the value, which an error leaves at 0 or, out of
    range, at the maximum, and whether it parsed. *)
Fixpoint parseUintLoop (s : string) (n : Z) : Z * bool :=
  match s with
  | "" => (n, true)
  | String c s =>
      if negb (is_digit c) then (0%Z, false)
      else if (1844674407370955162 <=? n)%Z then (maxU64, false)
      else
        let n1 := (10 * n + (Z.of_nat (nat_of_ascii c) - 48))%Z in
        if (maxU64 <? n1)%Z then (maxU64, false) else parseUintLoop s n1
  end.
Definition ParseUint (s : string) : Z * bool :=
  if String.eqb s "" then (0%Z, false) else parseUintLoop s 0.

Definition rvToU64 (rv : string) : option Z :=
  if String.eqb rv "" then None
  else match ParseUint rv with (n, true) => Some n | (_, false) => None end.

(** ** Requests and responses *)

Record Request := mkReq {
  Method : string;
  URLPath : string;
  RawQuery : string;
  ReqHeader : GoURL.Header;
  Body : string;
}.

Definition QueryGet (k : string) (r : Request) : string :=
  match ParseQuery (RawQuery r) !! k with Some (v :: _) => v | _ => "" end.

Record Response := mkResp { Status : Z; RespHeader : GoURL.Header; RespBody : string }.

Definition newline : string := String (ascii_of_nat 10) EmptyString.

(** [io.LimitReader], read to its end. *)
Definition limitReader (n : Z) (s : string) : string :=
  if (Z.of_nat (String.length s) <=? n)%Z then s else str_take (Z.to_nat n) s.

(** [http.Error]. *)
Definition Error (h : GoURL.Header) (msg : string) (code : Z) : Response :=
  mkResp code (HeaderSet "X-Content-Type-Options" "nosniff"
                 (HeaderSet "Content-Type" "text/plain; charset=utf-8" h)) (msg +:+ newline).

(** [json.NewEncoder(w).Encode]: nothing is written on an error. *)
Definition encodeBody {A} `{!JSON A} (h : GoURL.Header) (a : A) : Response :=
  mkResp 200 h (match marshal a with Some s => s +:+ newline | None => "" end).

(** The token of an [Authorization: Bearer] header; the scheme in any case. *)
Definition bearer (r : Request) : option string :=
  let h := HeaderGet "Authorization" (ReqHeader r) in
  if (String.length h <=? 7)%nat || negb (String.eqb (to_lower (str_take 7 h)) "bearer ") then None
  else Some (trim_space (str_drop 7 h)).

Definition etagMatch (ifNoneMatch etag : string) : bool :=
  existsb (fun tok => let tok := trim_space tok in String.eqb tok "*" || String.eqb tok etag)
    (split_char c_comma ifNoneMatch).

(** ** Payloads *)

Record certResponse := mkCertResp { cr_ChainPEM : string; cr_KeyPEM : string }.

Record wafResponse := mkWafResp {
  w_Generation : Z;
  w_GlobalRules : string;
  w_Zones : gmap string string;
  w_RouteZoneMap : gmap string string;
  w_HostZoneMap : gmap string string;
  w_CAID : string;
  w_SigningFP : string;
}.

Record corazaResponse := mkCorazaResp {
  c_Generation : Z;
  c_GlobalRules : string;
  c_Zones : gmap string string;
  c_RouteZoneMap : gmap string string;
}.

Record rateLimitResponse := mkRLResp {
  rl_Generation : Z;
  rl_GlobalLimits : list string;
  rl_Zones : gmap string (list string);
  rl_RouteZoneMap : gmap string string;
  rl_HostZoneMap : gmap string string;
  rl_Hosts : list string;
}.

Record cacheResponse := mkCacheResp {
  ca_Generation : Z;
  ca_GlobalOverrides : list string;
  ca_Zones : gmap string (list string);
  ca_RouteZoneMap : gmap string string;
}.

Record hostsResponse := mkHostsResp { h_Generation : Z; h_Hosts : list string }.

Record purgeBody := mkPurgeBody { b_Scope : string; b_Host : string; b_URI : string; b_Tag : string }.

Record edgeCertRequest := mkEdgeCertReq { CSRPEM : string }.
Record edgeCertResponse := mkEdgeCertResp {
  ec_ChainPEM : string; ec_NotAfter : string; ec_Serial : string; ec_CAID : string; ec_SigningFP : string;
}.
Record trustBundleResponse := mkTrustResp {
  tb_Generation : Z; tb_CAPEM : string; tb_CAID : string; tb_SigningCertFP : string;
}.

(** A payload whose generation can be zeroed. *)
Class Versioned (A : Type) := { zeroed : A -> A }.
#[export] Instance wafVersioned : Versioned wafResponse :=
  {| zeroed r := mkWafResp 0 (w_GlobalRules r) (w_Zones r) (w_RouteZoneMap r) (w_HostZoneMap r)
                   (w_CAID r) (w_SigningFP r) |}.
#[export] Instance corazaVersioned : Versioned corazaResponse :=
  {| zeroed r := mkCorazaResp 0 (c_GlobalRules r) (c_Zones r) (c_RouteZoneMap r) |}.
#[export] Instance rlVersioned : Versioned rateLimitResponse :=
  {| zeroed r := mkRLResp 0 (rl_GlobalLimits r) (rl_Zones r) (rl_RouteZoneMap r) (rl_HostZoneMap r)
                   (rl_Hosts r) |}.
#[export] Instance cacheVersioned : Versioned cacheResponse :=
  {| zeroed r := mkCacheResp 0 (ca_GlobalOverrides r) (ca_Zones r) (ca_RouteZoneMap r) |}.
#[export] Instance hostsVersioned : Versioned hostsResponse :=
  {| zeroed r := mkHostsResp 0 (h_Hosts r) |}.

(** ** The server *)

Section server.
Context {Cert Pub Key : Type} `{!PKIOps Cert Pub Key} `{!EtagOps}.

(** The (signer, generation) pair, replaced as a whole. *)
Record signerGen := mkSG { sg : Signer.Signer Cert Key; sg_gen : Z }.

(** A channel that bounds concurrency: its capacity and what it holds. *)
Record gate := mkGate { capacity : nat; held : nat }.

Record Server := mkServer {
  certs : CPCerts.CertStore;
  authz : Authz.Authz;
  waf : option (EdgeStores.Store string);
  coraza : option (EdgeStores.Store string);
  ratelimit : option (EdgeStores.Store (list string));
  cache : option (EdgeStores.Store (list string));
  hosts : option EdgeStores.HostsStore;
  purge : option PurgeStore;
  purgeAdminToken : string;
  signerState : option signerGen;
  genNotify : nat;                     (* the channel, by number; the earlier ones are closed *)
  issuanceExpected : bool;
  signGate : option gate;
  signRetryAfter : Z;
  watchGate : option gate;
  watchRetryAfter : Z;
  issued : list (string * string);     (* the ledger: edge id and signing fingerprint *)
}.

Definition NewServer (cs : CPCerts.CertStore) (a : Authz.Authz) : Server :=
  mkServer cs a None None None None None None "" None 0 false None 0 None 0 [].

Definition gateOf (n : Z) (g : option gate) : option gate :=
  if (n >? 0)%Z then Some (mkGate (Z.to_nat n) 0) else g.
Definition retryOf (secs : Z) : Z := if (secs <=? 0)%Z then 5 else secs.

Definition WithWatchConcurrency (n retryAfterSecs : Z) (s : Server) : Server :=
  mkServer (certs s) (authz s) (waf s) (coraza s) (ratelimit s) (cache s) (hosts s) (purge s)
    (purgeAdminToken s) (signerState s) (genNotify s) (issuanceExpected s) (signGate s)
    (signRetryAfter s) (gateOf n (watchGate s)) (retryOf retryAfterSecs) (issued s).
Definition WithSignConcurrency (n retryAfterSecs : Z) (s : Server) : Server :=
  mkServer (certs s) (authz s) (waf s) (coraza s) (ratelimit s) (cache s) (hosts s) (purge s)
    (purgeAdminToken s) (signerState s) (genNotify s) (issuanceExpected s) (gateOf n (signGate s))
    (retryOf retryAfterSecs) (watchGate s) (watchRetryAfter s) (issued s).

(** A generation that does not exceed the served one is refused; otherwise the waiters
    of the current channel are woken. *)
Definition SetSigner (signer : Signer.Signer Cert Key) (generation : Z) (s : Server) : Server :=
  match signerState s with
  | Some st =>
      if (generation <=? sg_gen st)%Z then s
      else mkServer (certs s) (authz s) (waf s) (coraza s) (ratelimit s) (cache s) (hosts s) (purge s)
             (purgeAdminToken s) (Some (mkSG signer generation)) (S (genNotify s)) (issuanceExpected s)
             (signGate s) (signRetryAfter s) (watchGate s) (watchRetryAfter s) (issued s)
  | None =>
      mkServer (certs s) (authz s) (waf s) (coraza s) (ratelimit s) (cache s) (hosts s) (purge s)
        (purgeAdminToken s) (Some (mkSG signer generation)) (S (genNotify s)) (issuanceExpected s)
        (signGate s) (signRetryAfter s) (watchGate s) (watchRetryAfter s) (issued s)
  end.

Definition currentSignerKey (s : Server) : string * string :=
  match signerState s with
  | Some st => (Signer.CAID (sg st), Signer.ActiveFP (sg st))
  | None => ("", "")
  end.
Definition CurrentCAID (s : Server) : string := fst (currentSignerKey s).
Definition CurrentActiveFP (s : Server) : string := snd (currentSignerKey s).
Definition SignerLoaded (s : Server) : bool := match signerState s with Some _ => true | None => false end.

Definition setPurge (p : PurgeStore) (s : Server) : Server :=
  mkServer (certs s) (authz s) (waf s) (coraza s) (ratelimit s) (cache s) (hosts s) (Some p)
    (purgeAdminToken s) (signerState s) (genNotify s) (issuanceExpected s) (signGate s)
    (signRetryAfter s) (watchGate s) (watchRetryAfter s) (issued s).

Definition recordIssuance (id fp : string) (s : Server) : Server :=
  mkServer (certs s) (authz s) (waf s) (coraza s) (ratelimit s) (cache s) (hosts s) (purge s)
    (purgeAdminToken s) (signerState s) (genNotify s) (issuanceExpected s) (signGate s)
    (signRetryAfter s) (watchGate s) (watchRetryAfter s) (issued s ++ [(id, fp)]).

(** [bearer] and [Known], the guard of the edges' endpoints. *)
Definition authenticated (s : Server) (r : Request) : option string :=
  match bearer r with
  | Some token => if Authz.Known (authz s) token then Some token else None
  | None => None
  end.

Definition unauthorized : Response := Error ∅ "unauthorized" 401.

(** *** Health *)

Definition handleHealthz (s : Server) (r : Request) : Response :=
  if String.eqb (QueryGet "ready" r) "1" then
    if negb (CPCerts.loaded (certs s)) then Error ∅ "not ready: certs" 503
    else if issuanceExpected s && negb (SignerLoaded s) then Error ∅ "not ready: signer" 503
    else mkResp 200 ∅ ""
  else mkResp 200 ∅ "".

(** *** Certificates *)

Definition signerHeaders (s : Server) : GoURL.Header :=
  let '(caID, activeFP) := currentSignerKey s in
  if String.eqb caID "" then ∅
  else
    let h := HeaderSet "X-Parapet-CA-Id" caID ∅ in
    if String.eqb activeFP "" then h else HeaderSet "X-Parapet-Signing-Cert-Fp" activeFP h.

Definition revalidated (r : Request) (etag : string) : bool :=
  let match_ := HeaderGet "If-None-Match" (ReqHeader r) in
  negb (String.eqb match_ "") && etagMatch match_ etag.

Definition handleCert `{!JSON certResponse} (s : Server) (r : Request) : Response :=
  match authenticated s r with
  | None => unauthorized
  | Some token =>
      let sni := QueryGet "sni" r in
      if String.eqb sni "" then Error ∅ "missing sni query parameter" 400
      else if negb (Authz.Allowed (authz s) token sni) then Error ∅ "forbidden" 403
      else
        let h := signerHeaders s in
        match CPCerts.Get sni (certs s) with
        | None => Error h "no certificate for sni" 404
        | Some entry =>
            let h := HeaderSet "ETag" (CPCerts.ce_etag entry) h in
            if revalidated r (CPCerts.ce_etag entry) then mkResp 304 h ""
            else encodeBody (HeaderSet "Cache-Control" "no-store" (HeaderSet "Content-Type" "application/json" h))
                   (mkCertResp (CPCerts.ce_chainPEM entry) (CPCerts.ce_keyPEM entry))
        end
  end.

(** *** Scoped payloads *)

(** From the scoped payload to the response: the validator is over the payload with its
    generation zeroed. *)
Definition servePayload {A} `{!JSON A} `{!Versioned A} (r : Request) (resp : A) : Response :=
  match marshal resp with
  | None => Error ∅ "encode" 500
  | Some body =>
      match marshal (zeroed resp) with
      | None => Error ∅ "encode" 500
      | Some etagBody =>
          let etag := EdgeStores.etagOfString etagBody in
          let h := HeaderSet "ETag" etag ∅ in
          if revalidated r etag then mkResp 304 h ""
          else mkResp 200 (HeaderSet "Content-Type" "application/json" h) body
      end
  end.

(** The order in which a map is ranged over. *)
#[local] Abbreviation order := (gmap string string -> list (string * string)).

Definition allow (s : Server) (token host : string) : bool := Authz.Allowed (authz s) token host.

Definition scopedFor {D} (ord : order) (s : Server) (token : string) (st : EdgeStores.Store D) :
    EdgeStores.scopedSnapshot D :=
  EdgeStores.scoped (allow s token) (ord (EdgeStores.hostZone st)) (ord (EdgeStores.routeZone st)) st.

Definition handleWAF `{!JSON wafResponse} (ord : order) (s : Server) (r : Request) : Response :=
  match authenticated s r with
  | None => unauthorized
  | Some token =>
      match waf s with
      | None => Error ∅ "waf distribution disabled" 404
      | Some st =>
          let snap := scopedFor ord s token st in
          let '(caID, activeFP) := currentSignerKey s in
          servePayload r (mkWafResp (EdgeStores.s_generation snap) (EdgeStores.s_global snap)
            (EdgeStores.s_zones snap) (EdgeStores.s_routeZone snap) (EdgeStores.s_hostZone snap) caID activeFP)
      end
  end.

Definition handleCoraza `{!JSON corazaResponse} (ord : order) (s : Server) (r : Request) : Response :=
  match authenticated s r with
  | None => unauthorized
  | Some token =>
      match coraza s with
      | None => Error ∅ "coraza distribution disabled" 404
      | Some st =>
          let snap := scopedFor ord s token st in
          servePayload r (mkCorazaResp (EdgeStores.s_generation snap) (EdgeStores.s_global snap)
            (EdgeStores.s_zones snap) (EdgeStores.s_routeZone snap))
      end
  end.

Definition handleRateLimit `{!JSON rateLimitResponse} (ord : order) (s : Server) (r : Request) : Response :=
  match authenticated s r with
  | None => unauthorized
  | Some token =>
      match ratelimit s with
      | None => Error ∅ "ratelimit distribution disabled" 404
      | Some st =>
          let snap := scopedFor ord s token st in
          servePayload r (mkRLResp (EdgeStores.s_generation snap) (EdgeStores.s_global snap)
            (EdgeStores.s_zones snap) (EdgeStores.s_routeZone snap) (EdgeStores.s_hostZone snap)
            (EdgeStores.s_hosts snap))
      end
  end.

Definition handleCache `{!JSON cacheResponse} (ord : order) (s : Server) (r : Request) : Response :=
  match authenticated s r with
  | None => unauthorized
  | Some token =>
      match cache s with
      | None => Error ∅ "cache distribution disabled" 404
      | Some st =>
          let snap := scopedFor ord s token st in
          servePayload r (mkCacheResp (EdgeStores.s_generation snap) (EdgeStores.s_global snap)
            (EdgeStores.s_zones snap) (EdgeStores.s_routeZone snap))
      end
  end.

Definition handleHosts `{!JSON hostsResponse} (s : Server) (r : Request) : Response :=
  match authenticated s r with
  | None => unauthorized
  | Some token =>
      match hosts s with
      | None => Error ∅ "hosts distribution disabled" 404
      | Some st =>
          let '(generation, hs) := EdgeStores.hostsScoped (allow s token) st in
          servePayload r (mkHostsResp generation hs)
      end
  end.

(** *** Purges *)

Definition jsonHeader : GoURL.Header := HeaderSet "Content-Type" "application/json" ∅.

Definition handlePurges `{!JSON PurgeSince} (s : Server) (r : Request) : Response :=
  match authenticated s r with
  | None => unauthorized
  | Some token =>
      match purge s with
      | None => Error ∅ "purge distribution disabled" 404
      | Some p =>
          let v := QueryGet "since" r in
          match (if String.eqb v "" then (0%Z, true) else ParseUint v) with
          | (_, false) => Error ∅ "invalid since parameter" 400
          | (since, true) => encodeBody jsonHeader (Since since (allow s token) p)
          end
      end
  end.

(** The comparison runs in constant time; the body is cut at 64 KiB. *)
Definition handlePurgeAdmin `{!JSON purgeBody} `{!JSON Z} (s : Server) (r : Request) : Server * Response :=
  match purge s with
  | None => (s, Error ∅ "purge distribution disabled" 404)
  | Some p =>
      match bearer r with
      | None => (s, unauthorized)
      | Some tok =>
          if String.eqb (purgeAdminToken s) "" || negb (String.eqb tok (purgeAdminToken s))
          then (s, unauthorized)
          else match unmarshal (limitReader 65536 (Body r)) with
               | None => (s, Error ∅ "invalid request body" 400)
               | Some body =>
                   let '(seq, ok, p') := Add (b_Scope body) (b_Host body) (b_URI body) (b_Tag body) p in
                   if negb ok then (s, Error ∅ "invalid scope/host/uri/tag" 400)
                   else (setPurge p' s, encodeBody jsonHeader seq)
               end
      end
  end.

(** *** Edge certificates *)

(** A parsed request: its public key, and whether its signature checks. *)
Context (ParseCertificateRequest : string -> option (Pub * bool)).
(** [time.Format] in RFC 3339, UTC, and the bytes of a serial in hexadecimal. *)
Context (FormatRFC3339 : Z -> string) (serialHex : Z -> string).

(** The gate is a non-blocking send; the deferred receive returns the slot, so the state
    after the handler holds what it held before. *)
Definition saturated (g : option gate) : bool :=
  match g with Some g => (capacity g <=? held g)%nat | None => false end.

Definition handleEdgeCert `{!JSON edgeCertRequest} `{!JSON edgeCertResponse} (now : Z) (rnd : option Z)
    (s : Server) (r : Request) : Server * Response :=
  match signerState s with
  | None => (s, Error ∅ "issuance not configured" 404)
  | Some st =>
      match authenticated s r with
      | None => (s, unauthorized)
      | Some token =>
          match Authz.Identity (authz s) token with
          | None => (s, Error ∅ "forbidden" 403)
          | Some id =>
              match unmarshal (limitReader 16384 (Body r)) with
              | None => (s, Error ∅ "bad request body" 400)
              | Some body =>
                  match pem_Decode (CSRPEM body) with
                  | None => (s, Error ∅ "csr_pem: no CERTIFICATE REQUEST block" 400)
                  | Some (ty, bytes, _) =>
                      if negb (String.eqb ty "CERTIFICATE REQUEST")
                      then (s, Error ∅ "csr_pem: no CERTIFICATE REQUEST block" 400)
                      else match ParseCertificateRequest bytes with
                      | None => (s, Error ∅ "malformed CSR" 400)
                      | Some (pub, signed) =>
                          if negb (Signer.AllowedLeafKey pub) then (s, Error ∅ "unsupported CSR key" 400)
                          else if negb signed then (s, Error ∅ "CSR signature invalid" 400)
                          else if saturated (signGate s)
                          then (s, Error (HeaderSet "Retry-After" (itoa (signRetryAfter s)) ∅) "signer saturated" 503)
                          else match Signer.Sign (sg st) now rnd pub id with
                          | Err _ => (s, Error ∅ "sign failed" 500)
                          | Ok (chainPEM, notAfter, serial) =>
                              (recordIssuance id (Signer.ActiveFP (sg st)) s,
                               encodeBody
                                 (HeaderSet "X-Parapet-Signing-Cert-Fp" (Signer.ActiveFP (sg st))
                                    (HeaderSet "Pragma" "no-cache"
                                       (HeaderSet "Cache-Control" "no-store" jsonHeader)))
                                 (mkEdgeCertResp chainPEM (FormatRFC3339 notAfter) (serialHex serial)
                                    (Signer.CAID (sg st)) (Signer.ActiveFP (sg st))))
                          end
                      end
                  end
              end
          end
      end
  end.

(** *** The trust bundle *)

Definition trustEtag (gen : Z) (resp : trustBundleResponse) : string :=
  let nul := EdgeStores.byte 0 in
  EdgeStores.etagOfString (itoa gen +:+ nul +:+ tb_CAPEM resp +:+ nul +:+ tb_CAID resp +:+ nul +:+
    tb_SigningCertFP resp).

Definition serveBundle `{!JSON trustBundleResponse} (r : Request) (st : option signerGen) : Response :=
  match st with
  | None => Error ∅ "trust bundle not yet initialized" 503
  | Some st =>
      let resp := mkTrustResp (sg_gen st) (Signer.BundlePEM (sg st)) (Signer.CAID (sg st))
                    (Signer.ActiveFP (sg st)) in
      let etag := trustEtag (sg_gen st) resp in
      let h := HeaderSet "Cache-Control" "no-cache" (HeaderSet "ETag" etag ∅) in
      if revalidated r etag then mkResp 304 h ""
      else encodeBody (HeaderSet "Content-Type" "application/json" h) resp
  end.

(** What a long-poll does after a load: it answers, or waits for a channel to be
    closed. *)
Inductive poll := Answer (resp : Response) | Block (chan : nat).

(** Up to the subscription: [s0] at the first load, [s1] when the channel is read with
    the state under the mutex. *)
Definition beginTrustBundle `{!JSON trustBundleResponse} (s0 s1 : Server) (r : Request) : poll :=
  match signerState s0 with
  | None => Answer (Error ∅ "trust bundle not yet initialized" 503)
  | Some st =>
      if String.eqb (QueryGet "watch" r) "1" then
        let since := fst (ParseUint (QueryGet "since" r)) in
        if (sg_gen st <=? since)%Z then
          if saturated (watchGate s0)
          then Answer (Error (HeaderSet "Retry-After" (itoa (watchRetryAfter s0)) ∅)
                         "trust-bundle watchers saturated" 503)
          else match signerState s1 with
               | None => Answer (Error ∅ "trust bundle not yet initialized" 503)
               | Some st1 =>
                   if (sg_gen st1 <=? since)%Z then Block (genNotify s1)
                   else Answer (serveBundle r (Some st1))
               end
        else Answer (serveBundle r (Some st))
      else Answer (serveBundle r (Some st))
  end.

(** A channel is closed when a later one took its place. *)
Definition closed (chan : nat) (s : Server) : bool := (chan <? genNotify s)%nat.

(** How a wait ends: the channel closed or 30 seconds passed, with the state then; or the
    client left, and nothing is written. *)
Inductive wakeUp := Woken | TimedOut | Gone.

Definition endTrustBundle `{!JSON trustBundleResponse} (how : wakeUp) (s2 : Server) (r : Request) :
    option Response :=
  match how with
  | Gone => None
  | Woken | TimedOut => Some (serveBundle r (signerState s2))
  end.

(** *** The routes *)

Inductive endpoint :=
| GetCerts | GetWAF | GetCoraza | GetRateLimit | GetCache | GetHosts | GetPurges | GetEvents
| PostPurges | PostMetrics | PostEdgeCert | GetTrustBundle | GetHealthz.

(** The patterns of [Handler]; one without HEAD in its table serves HEAD with GET. *)
Definition patterns : list (string * string * endpoint) :=
  [("GET", "/v1/certs", GetCerts); ("GET", "/v1/waf", GetWAF); ("GET", "/v1/coraza", GetCoraza);
   ("GET", "/v1/ratelimit", GetRateLimit); ("GET", "/v1/cache", GetCache); ("GET", "/v1/hosts", GetHosts);
   ("GET", "/v1/purges", GetPurges); ("GET", "/v1/events", GetEvents); ("POST", "/v1/purges", PostPurges);
   ("POST", "/v1/metrics", PostMetrics); ("POST", "/v1/edge-cert", PostEdgeCert);
   ("GET", "/v1/trust-bundle", GetTrustBundle); ("GET", "/healthz", GetHealthz)].

Inductive routed := Endpoint (e : endpoint) | MethodNotAllowed | NotFound.

Definition Handler (r : Request) : routed :=
  let method := if String.eqb (Method r) "HEAD" then "GET" else Method r in
  let at_path := List.filter (fun p => String.eqb p.1.2 (URLPath r)) patterns in
  match List.find (fun p => String.eqb p.1.1 method) at_path, at_path with
  | Some (_, e), _ => Endpoint e
  | None, _ :: _ => MethodNotAllowed
  | None, [] => NotFound
  end.

(** *** Metrics ingestion *)

(** The outcome of the metrics store's [Ingest] of a body for an edge and an instance; the
    store is threaded through. *)
Inductive ingested := IngestOK | IngestTooLarge | IngestBad.

Definition maxInstanceLen : nat := 128.

Definition handleMetricsPush {M} (Ingest : option (string -> string -> string -> M -> M * ingested)) (s : Server)
    (r : Request) (m : M) : M * Response :=
  match Ingest with
  | None => (m, Error ∅ "metrics ingestion disabled" 404)
  | Some Ingest =>
      match authenticated s r with
      | None => (m, unauthorized)
      | Some token =>
          match Authz.Identity (authz s) token with
          | None => (m, Error ∅ "forbidden: token has no edge id" 403)
          | Some edgeID =>
              let instance := trim_space (HeaderGet "X-Edge-Instance" (ReqHeader r)) in
              if String.eqb instance "" || (maxInstanceLen <? String.length instance)%nat
              then (m, Error ∅ "missing or oversized X-Edge-Instance header" 400)
              else match Ingest edgeID instance (Body r) m with
                   | (m, IngestTooLarge) => (m, Error ∅ "metrics body too large" 413)
                   | (m, IngestBad) => (m, Error ∅ "invalid metrics body" 400)
                   | (m, IngestOK) => (m, mkResp 204 ∅ "")
                   end
          end
      end
  end.

End server.
Arguments Server Cert Key : clear implicits.
Arguments signerGen Cert Key : clear implicits.

End EdgeServer.

(** ** Lemmas *)

Module EdgeServerLemmas.
Import EdgeStores Signer EdgeServer.

(** *** Validators *)

Section etag.
Context {eops : EtagOps} {elaws : EtagLaws}.

Lemma split_char_all c p s :
  all_chars p s = true -> p c = false -> split_char c s = [s].
Proof. intros Hs Hc. apply split_char_none. by eapply all_chars_mem. Qed.

Lemma etag_no_comma s : mem_char c_comma (etagOfString s) = false.
Proof using Type*.
  unfold etagOfString. rewrite !mem_char_app. simpl.
  by rewrite (all_chars_mem _ _ _ (hexSum16_plain s)).
Qed.

Lemma trim_quoted (s : string) : trim_space (quote +:+ s +:+ quote) = quote +:+ s +:+ quote.
Proof.
  unfold trim_space, quote. simpl.
  assert (Hq : forall s, trim_right (s +:+ String (ascii_of_nat 34) "") = s +:+ String (ascii_of_nat 34) "").
  { clear. intros s. induction s as [|c s IH]; [reflexivity|]. cbn [String.append trim_right].
    rewrite IH. by destruct s. }
  exact (Hq (String (ascii_of_nat 34) s)).
Qed.

Lemma trim_etag s : trim_space (etagOfString s) = etagOfString s.
Proof. apply trim_quoted. Qed.

Lemma etagOfString_inj s t : etagOfString s = etagOfString t -> s = t.
Proof using Type*.
  unfold etagOfString. intros He%str_app_inj_l%str_app_inj_r. by apply hexSum16_inj.
Qed.

Lemma etagOfString_nonempty s : etagOfString s <> "".
Proof. done. Qed.

(** A validator matches itself alone. *)
Lemma etagMatch_etag s t : etagMatch (etagOfString s) (etagOfString t) = true <-> s = t.
Proof using Type*.
  unfold etagMatch. rewrite split_char_none by apply etag_no_comma. simpl. rewrite orb_false_r, trim_etag.
  rewrite orb_true_iff, !String.eqb_eq. split; [|by intros ->; right].
  intros [He|He]; [done|]. by apply etagOfString_inj.
Qed.

End etag.

(** The header a response sets is the one a client reads. *)
Lemma HeaderGet_Set k v h : HeaderGet k (HeaderSet k v h) = v.
Proof. unfold HeaderGet, HeaderSet. by rewrite lookup_insert_eq. Qed.

Lemma HeaderGet_Set_ne k k' v h :
  CanonicalMIMEHeaderKey k <> CanonicalMIMEHeaderKey k' -> HeaderGet k (HeaderSet k' v h) = HeaderGet k h.
Proof. intros Hne. unfold HeaderGet, HeaderSet. by rewrite lookup_insert_ne. Qed.

(** *** Numbers *)

Lemma parseUintLoop_pretty x s :
  (x <= Z.to_N maxU64)%N -> parseUintLoop (pretty_N_go x s) 0 = parseUintLoop s (Z.of_N x).
Proof.
  revert s. induction (N.lt_wf_0 x) as [x _ IH]; intros s Hx.
  assert (x = 0 \/ 0 < x)%N as [->|Hpos] by lia; [done|].
  rewrite pretty_N_go_step by done. assert (Hlt : (x `div` 10 < x)%N) by (by apply N.div_lt).
  rewrite IH by lia. pose proof (N.div_mod x 10) as Hdm. pose proof (N.mod_lt x 10) as Hml.
  unfold maxU64 in *. set (q := (x `div` 10)%N) in *. set (r := (x `mod` 10)%N) in *.
  assert (Hr : is_digit (pretty_N_char r) = true /\ Z.of_nat (nat_of_ascii (pretty_N_char r)) = (48 + Z.of_N r)%Z).
  { assert (r < 10)%N as Hr by lia. clearbody r. clear -Hr. destruct r as [|p]; [done|].
    do 4 (destruct p as [p|p|]; try done; try lia). }
  destruct Hr as [Hd Hv]. cbn [parseUintLoop]. rewrite Hd. simpl negb. cbv iota.
  rewrite (proj2 (Z.leb_gt 1844674407370955162 (Z.of_N q))) by lia. rewrite Hv. unfold maxU64.
  replace (10 * Z.of_N q + (48 + Z.of_N r - 48))%Z with (Z.of_N x) by lia.
  by rewrite (proj2 (Z.ltb_ge _ _)) by lia.
Qed.

(** A number printed is parsed back. *)
Lemma ParseUint_itoa z : (0 <= z <= maxU64)%Z -> ParseUint (itoa z) = (z, true).
Proof.
  intros [H0 Hm]. destruct z as [|p|p]; [done| |done].
  assert (Hgo : itoa (Zpos p) = pretty_N_go (Npos p) "").
  { change (itoa (Zpos p)) with (pretty (Npos p)). unfold pretty, pretty_N. by case_decide. }
  assert (Hne : itoa (Zpos p) <> "").
  { rewrite Hgo. intros He. pose proof (parseUintLoop_pretty (Npos p) "") as Hl.
    rewrite He in Hl. specialize (Hl ltac:(lia)). done. }
  unfold ParseUint. rewrite (proj2 (String.eqb_neq _ _) Hne), Hgo, parseUintLoop_pretty by lia. done.
Qed.

(** *** Scoping *)

Section scope.
Context {D : Type}.

(** Two stores look the same to an edge: they agree on the baseline, on the bindings and
    hosts the edge may serve, and on the zones that those bindings refer to.  Their
    generations may differ: the counter moves with every edit, other tenants' included. *)
Record sameScope (allow : string -> bool) (s s' : Store D) : Prop := {
  ss_global : global s = global s';
  ss_host : forall h, allow h = true -> hostZone s !! h = hostZone s' !! h;
  ss_route : forall k, allow (patternHost k) = true -> routeZone s !! k = routeZone s' !! k;
  ss_zones : forall z, (exists h, allow h = true /\ hostZone s !! h = Some z) \/
                       (exists k, allow (patternHost k) = true /\ routeZone s !! k = Some z) ->
             zones s !! z = zones s' !! z;
  ss_hosts : List.filter allow (EdgeStores.hosts s) = List.filter allow (EdgeStores.hosts s');
}.

Lemma sameScope_sym allow s s' : sameScope allow s s' -> sameScope allow s' s.
Proof.
  intros [H2 H3 H4 H5 H6]. split; try done; intros.
  - by rewrite H3.
  - by rewrite H4.
  - symmetry. apply H5. destruct H as [(h & Ha & Hh)|(k & Ha & Hk)]; [left; exists h|right; exists k];
      (split; [done|]); [by rewrite H3|by rewrite H4].
Qed.

(** A snapshot with another generation. *)
Definition atGen (g : Z) (p : scopedSnapshot D) : scopedSnapshot D :=
  mkScoped g (s_global p) (s_zones p) (s_hostZone p) (s_routeZone p) (s_hosts p).

Lemma scoped_generation allow hz rz (s : Store D) : s_generation (scoped allow hz rz s) = gen s.
Proof. unfold scoped. destruct (fold_left _ hz _). by destruct (fold_left _ rz _). Qed.

Lemma scoped_same allow hz rz hz' rz' (s s' : Store D) :
  sameScope allow s s' ->
  hz ≡ₚ map_to_list (hostZone s) -> rz ≡ₚ map_to_list (routeZone s) ->
  hz' ≡ₚ map_to_list (hostZone s') -> rz' ≡ₚ map_to_list (routeZone s') ->
  scoped allow hz' rz' s' = atGen (gen s') (scoped allow hz rz s).
Proof.
  intros Hsame H1 H2 H3 H4. pose proof (sameScope_sym _ _ _ Hsame) as Hsame'.
  pose proof (EdgeStoresLemmas.scoped_lookup allow hz rz s H1 H2) as (Ha & Hb & Hc & Hd & He & _).
  pose proof (EdgeStoresLemmas.scoped_lookup allow hz' rz' s' H3 H4) as (Ha' & Hb' & Hc' & Hd' & He' & _).
  assert (Hf : s_hosts (scoped allow hz rz s) = s_hosts (scoped allow hz' rz' s')).
  { unfold scoped. destruct (fold_left _ hz _) as [a b]. destruct (fold_left _ rz _) as [c d].
    destruct (fold_left _ hz' _) as [a' b']. destruct (fold_left _ rz' _) as [c' d']. simpl.
    by destruct Hsame. }
  destruct (scoped allow hz rz s) as [g gl zs ho ro hs], (scoped allow hz' rz' s') as [g' gl' zs' ho' ro' hs'].
  simpl in *. destruct Hsame as [S2 S3 S4 S5 S6], Hsame' as [_ _ _ S5' _].
  assert (ho = ho') as ->.
  { apply map_eq. intros h. apply option_eq. intros z. rewrite Hc, Hc'.
    split; intros [H ?]; (split; [|done]); [by rewrite <- S3|by rewrite S3]. }
  assert (ro = ro') as ->.
  { apply map_eq. intros k. apply option_eq. intros z. rewrite Hd, Hd'.
    split; intros [H ?]; (split; [|done]); [by rewrite <- S4|by rewrite S4]. }
  assert (zs = zs') as ->.
  { apply map_eq. intros z. apply option_eq. intros r. rewrite He, He'. split; intros [Hz Hb0].
    - assert (Hv : (exists h, allow h = true /\ hostZone s !! h = Some z) \/
                   (exists k, allow (patternHost k) = true /\ routeZone s !! k = Some z)) by naive_solver.
      rewrite <- (S5 z Hv). split; [done|]. destruct Hb0 as [(h & Hh & ?)|(k & Hk & ?)];
        [left; exists h; by rewrite <- S3|right; exists k; by rewrite <- S4].
    - assert (Hv : (exists h, allow h = true /\ hostZone s' !! h = Some z) \/
                   (exists k, allow (patternHost k) = true /\ routeZone s' !! k = Some z)) by naive_solver.
      rewrite <- (S5' z Hv). split; [done|]. destruct Hb0 as [(h & Hh & ?)|(k & Hk & ?)];
        [left; exists h; by rewrite S3|right; exists k; by rewrite S4]. }
  unfold atGen. simpl. congruence.
Qed.

End scope.

(** Two host lists look the same to an edge: they have the same hosts it may serve. *)
Definition sameHosts (allow : string -> bool) (s s' : HostsStore) : Prop :=
  List.filter allow (h_hosts s) ≡ₚ List.filter allow (h_hosts s').

Lemma hostsScoped_same allow (s s' : HostsStore) :
  sameHosts allow s s' -> snd (hostsScoped allow s) = snd (hostsScoped allow s').
Proof.
  unfold sameHosts, hostsScoped. simpl. intros H.
  by apply sort_strings_perm.
Qed.

(** *** Answers up to the generation *)

(** [encoding/json] never fails on the payloads, structs of strings, integers, lists
    and maps of them. *)
Class JSONTotal (A : Type) `{!JSON A} : Prop := marshal_total (a : A) : is_Some (marshal a).

(** One answer, but for the generation in the body: the status and the headers, the
    validator among them, are the same, and the bodies are the same or encode payloads
    that differ in their generation alone, and do not when the generations [g] and [g']
    of the stores are the same. *)
Definition sameAnswer (A : Type) `{!JSON A} `{!Versioned A} (g g' : Z) (x y : Response) : Prop :=
  Status x = Status y /\ RespHeader x = RespHeader y /\
  (RespBody x = RespBody y \/
   exists a b : A, marshal a = Some (RespBody x) /\ marshal b = Some (RespBody y) /\
     zeroed a = zeroed b /\ (g = g' -> a = b)).

Section answers.
Context {eops : EtagOps} {A : Type} {j : JSON A} {v : Versioned A}.

Lemma sameAnswer_refl g g' x : sameAnswer A g g' x x.
Proof. split; [done|]. split; [done|]. by left. Qed.

Lemma servePayload_same {jt : JSONTotal A} r g g' (a b : A) :
  zeroed a = zeroed b -> (g = g' -> a = b) ->
  sameAnswer A g g' (servePayload r a) (servePayload r b).
Proof.
  intros Hz Hg. unfold servePayload, sameAnswer. rewrite <- Hz.
  destruct (marshal_total a) as [sa Ha], (marshal_total b) as [sb Hb].
  destruct (marshal_total (zeroed a)) as [sz ->]. rewrite Ha, Hb.
  destruct (revalidated r _); simpl; (split; [done|]); (split; [done|]); [by left|].
  right. by exists a, b.
Qed.

End answers.

(** Two servers look the same to an edge: each store is there in both or in neither, and
    looks the same to it. *)
Record sameView {Cert Key} (allow : string -> bool) (s s' : Server Cert Key) : Prop := {
  sv_waf : option_Forall2 (sameScope allow) (waf s) (waf s');
  sv_coraza : option_Forall2 (sameScope allow) (coraza s) (coraza s');
  sv_ratelimit : option_Forall2 (sameScope allow) (ratelimit s) (ratelimit s');
  sv_cache : option_Forall2 (sameScope allow) (cache s) (cache s');
  sv_hosts : option_Forall2 (sameHosts allow) (EdgeServer.hosts s) (EdgeServer.hosts s');
}.

(** The generation of a store that is there. *)
Definition genOf {D} (st : option (Store D)) : Z := from_option gen 0%Z st.

(** *** Names *)

(** [k] is a key that a name goes by: the name itself, or the wildcard that stands for
    its first label. *)
Inductive goesBy (name : string) : string -> Prop :=
| by_name : goesBy name name
| by_wildcard label rest :
    name = label +:+ "." +:+ rest -> mem_char c_dot label = false -> goesBy name ("*." +:+ rest).

(** The entry stored for a name: the one under its exact name, or else under its
    wildcard. *)
Inductive storedFor (m : gmap string CPCerts.certEntry) (name : string) : CPCerts.certEntry -> Prop :=
| stored_exact e : m !! name = Some e -> storedFor m name e
| stored_wildcard k e :
    m !! name = None -> goesBy name k -> m !! k = Some e -> storedFor m name e.

Lemma wildcardName_goesBy name w : wildcardName name = Some w -> goesBy name w.
Proof.
  unfold wildcardName. destruct (index_byte c_dot name) as [i|] eqn:Hi; [|done].
  intros [= <-]. apply index_byte_some in Hi as [Hd Hl].
  rewrite Hd. eapply (by_wildcard _ (str_take i name)); [|done].
  change ("." +:+ ?r) with (String c_dot r). by rewrite <- Hd, str_take_drop.
Qed.

Lemma Get_storedFor sni s e :
  CPCerts.Get sni s = Some e ->
  normalizeSNI sni <> "" /\ storedFor (CPCerts.byName s) (normalizeSNI sni) e.
Proof.
  unfold CPCerts.Get. destruct (String.eqb_spec (normalizeSNI sni) "") as [|Hne]; [done|].
  destruct (CPCerts.byName s !! normalizeSNI sni) as [e'|] eqn:Hx.
  { intros [= ->]. split; [done|by constructor]. }
  destruct (wildcardName _) as [w|] eqn:Hw; [|done]. intros He. split; [done|].
  eapply stored_wildcard; [done|by apply wildcardName_goesBy|done].
Qed.

(** A token that covers a name is enabled and was granted it: the catch-all, the name,
    or the wildcard the name goes by. *)
Inductive grantedTo (a : Authz.Authz) (token name : string) : Prop :=
| granted en d :
    a !! token = Some en -> Authz.Disabled en = false -> d ∈ Authz.Domains en ->
    d = "*" \/ goesBy name d -> grantedTo a token name.

Lemma Allowed_granted a token host :
  Authz.Allowed a token host = true -> grantedTo a token (normalizeSNI host).
Proof.
  unfold Authz.Allowed, Authz.lookup_. destruct (a !! token) as [en|] eqn:Ha; [|done].
  destruct (Authz.Disabled en) eqn:Hd; [done|].
  destruct (String.eqb (normalizeSNI host) ""); [done|].
  destruct (existsb _ (Authz.Domains en)) eqn:Hex.
  - intros _. apply existsb_exists in Hex as (d & Hin & Hc). apply list_elem_of_In in Hin.
    eapply granted; [done..|]. apply orb_true_iff in Hc as [Hc|Hc]; apply String.eqb_eq in Hc as ->.
    + by left.
    + right. constructor.
  - destruct (wildcardName _) as [w|] eqn:Hw; [|done]. intros Hw'%Authz.existsb_eqb.
    eapply granted; [done..|]. right. by apply wildcardName_goesBy.
Qed.

(** *** The signer *)

Section signer.
Context {Cert Pub Key : Type} `{!PKIOps Cert Pub Key}.

#[local] Abbreviation server := (Server Cert Key).

Definition SetSigners (l : list (Signer.Signer Cert Key * Z)) (s : server) : server :=
  fold_left (fun s sg => SetSigner sg.1 sg.2 s) l s.

Lemma SetSigner_cases signer gen (s : server) :
  (exists st, signerState s = Some st /\ (gen <= sg_gen st)%Z /\ SetSigner signer gen s = s) \/
  ((forall st, signerState s = Some st -> (sg_gen st < gen)%Z) /\
   signerState (SetSigner signer gen s) = Some (mkSG signer gen) /\
   genNotify (SetSigner signer gen s) = S (genNotify s)).
Proof.
  unfold SetSigner. destruct (signerState s) as [st|] eqn:Hs.
  - destruct (Z.leb_spec gen (sg_gen st)); [left; eauto|]. right. split; [|done]. by intros ? [= <-].
  - right. done.
Qed.

End signer.

End EdgeServerLemmas.

Module EdgeServerProps.
Import EdgeStores Signer EdgeServer EdgeServerLemmas.

Section props.
Context {Cert Pub Key : Type} {pki : PKIOps Cert Pub Key} {ops : EtagOps}.

#[local] Abbreviation server := (Server Cert Key).

(** C21: private keys reach the edges they belong to.  (1) A caller without a live token
    that covers the name gets an answer that does not depend on the certificates or on
    the signer.  (2) An answer that holds a chain and a key is for a live token that was
    granted the name, and holds exactly those of the entry stored for that name.  (3) Any
    other answer's body is empty or a fixed text. *)
Theorem cert_keys_guarded {j : JSON certResponse} (s s' : server) r :
  (authz s = authz s' ->
   (forall token, bearer r = Some token -> Authz.Allowed (authz s) token (QueryGet "sni" r) = false) ->
   handleCert s r = handleCert s' r /\ Status (handleCert s r) ∈ [400%Z; 401%Z; 403%Z]) /\
  (Status (handleCert s r) = 200%Z ->
   exists token e, bearer r = Some token /\ grantedTo (authz s) token (normalizeSNI (QueryGet "sni" r)) /\
     storedFor (CPCerts.byName (certs s)) (normalizeSNI (QueryGet "sni" r)) e /\
     RespBody (handleCert s r) =
       match marshal (mkCertResp (CPCerts.ce_chainPEM e) (CPCerts.ce_keyPEM e)) with
       | Some body => body +:+ newline
       | None => ""
       end) /\
  (Status (handleCert s r) <> 200%Z ->
   RespBody (handleCert s r) ∈
     ["" ; "unauthorized" +:+ newline; "missing sni query parameter" +:+ newline;
      "forbidden" +:+ newline; "no certificate for sni" +:+ newline]).
Proof.
  unfold handleCert, authenticated. split; [|split].
  - intros <- Hf. destruct (bearer r) as [token|] eqn:Hb; [|by split; [|set_solver]].
    destruct (Authz.Known _ _); [|by split; [|set_solver]].
    destruct (String.eqb (QueryGet "sni" r) ""); [by split; [|set_solver]|].
    rewrite (Hf _ eq_refl). simpl. split; [done|set_solver].
  - destruct (bearer r) as [token|]; [|done].
    destruct (Authz.Known _ _); [|done]. destruct (String.eqb (QueryGet "sni" r) ""); [done|].
    destruct (Authz.Allowed _ _ _) eqn:Hal; [|done]. simpl.
    destruct (CPCerts.Get _ _) as [e|] eqn:Hg; [|done]. destruct (revalidated r _); [done|].
    intros _. exists token, e. apply Get_storedFor in Hg as [_ Hg]. apply Allowed_granted in Hal. done.
  - destruct (bearer r) as [token|]; [|set_solver].
    destruct (Authz.Known _ _); [|set_solver]. destruct (String.eqb (QueryGet "sni" r) ""); [set_solver|].
    destruct (Authz.Allowed _ _ _); [|set_solver]. simpl.
    destruct (CPCerts.Get _ _) as [e|]; [|set_solver]. destruct (revalidated r _); [set_solver|done].
Qed.

(** C25: tenants are isolated. The answer an edge gets from the five scoped endpoints is a
    function of what its token may serve, but for the generation counter in the body:
    servers with the same tokens and signer whose stores look the same to the token give the
    same status, headers and validator and a body with the same content, whatever else they
    hold, whatever the order in which their maps are ranged over, and however far other
    tenants' edits have moved the counters; with equal counters the answers are equal.
    Without a known token the stores play no part. *)
Theorem tenants_isolated {jw : JSON wafResponse} {jc : JSON corazaResponse} {jr : JSON rateLimitResponse}
    {jo : JSON cacheResponse} {jh : JSON hostsResponse} {tw : JSONTotal wafResponse}
    {tc : JSONTotal corazaResponse} {tr : JSONTotal rateLimitResponse} {to : JSONTotal cacheResponse}
    {th : JSONTotal hostsResponse} (ord ord' : gmap string string -> list (string * string))
    (s s' : server) r :
  (forall m, ord m ≡ₚ map_to_list m) -> (forall m, ord' m ≡ₚ map_to_list m) ->
  authz s = authz s' -> signerState s = signerState s' ->
  (forall token, authenticated s r = Some token -> sameView (Authz.Allowed (authz s) token) s s') ->
  sameAnswer wafResponse (genOf (waf s)) (genOf (waf s')) (handleWAF ord s r) (handleWAF ord' s' r) /\
  sameAnswer corazaResponse (genOf (coraza s)) (genOf (coraza s'))
    (handleCoraza ord s r) (handleCoraza ord' s' r) /\
  sameAnswer rateLimitResponse (genOf (ratelimit s)) (genOf (ratelimit s'))
    (handleRateLimit ord s r) (handleRateLimit ord' s' r) /\
  sameAnswer cacheResponse (genOf (cache s)) (genOf (cache s'))
    (handleCache ord s r) (handleCache ord' s' r) /\
  sameAnswer hostsResponse (from_option h_gen 0%Z (hosts s)) (from_option h_gen 0%Z (hosts s'))
    (handleHosts s r) (handleHosts s' r).
Proof.
  intros Ho Ho' Ha Hs Hsame. unfold handleWAF, handleCoraza, handleRateLimit, handleCache, handleHosts.
  assert (Hauth : authenticated s' r = authenticated s r) by (unfold authenticated; by rewrite Ha).
  assert (Hkey : currentSignerKey s' = currentSignerKey s) by (unfold currentSignerKey; by rewrite Hs).
  assert (Hal : forall token, allow s' token = allow s token) by (intros; unfold allow; by rewrite Ha).
  rewrite Hauth, Hkey. destruct (authenticated s r) as [token|].
  2:{ split_and!; apply sameAnswer_refl. }
  destruct (Hsame token eq_refl) as [Hw Hc Hr Hca Hh].
  assert (Hsc : forall D (st st' : Store D), sameScope (allow s token) st st' ->
            scopedFor ord' s' token st' = atGen (gen st') (scopedFor ord s token st)).
  { intros D st st' Hss. unfold scopedFor, allow. rewrite <- Ha. by apply scoped_same. }
  split_and!.
  - destruct Hw as [st st' Hss|]; [|apply sameAnswer_refl]. rewrite (Hsc _ _ _ Hss).
    destruct (currentSignerKey s). apply servePayload_same; [done|]. intros Hg. unfold scopedFor. simpl in *. by rewrite scoped_generation, Hg.
  - destruct Hc as [st st' Hss|]; [|apply sameAnswer_refl]. rewrite (Hsc _ _ _ Hss).
    apply servePayload_same; [done|]. intros Hg. unfold scopedFor. simpl in *. by rewrite scoped_generation, Hg.
  - destruct Hr as [st st' Hss|]; [|apply sameAnswer_refl]. rewrite (Hsc _ _ _ Hss).
    apply servePayload_same; [done|]. intros Hg. unfold scopedFor. simpl in *. by rewrite scoped_generation, Hg.
  - destruct Hca as [st st' Hss|]; [|apply sameAnswer_refl]. rewrite (Hsc _ _ _ Hss).
    apply servePayload_same; [done|]. intros Hg. unfold scopedFor. simpl in *. by rewrite scoped_generation, Hg.
  - destruct Hh as [st st' Hss|]; [|apply sameAnswer_refl]. rewrite Hal.
    apply hostsScoped_same in Hss. change (Authz.Allowed (authz s) token) with (allow s token) in Hss.
    unfold hostsScoped in *. simpl in Hss |- *. rewrite Hss.
    apply servePayload_same; [done|]. by intros ->.
Qed.

(** Revalidation across replicas is exact. The validator of a payload that one replica
    served makes another replica answer 304 exactly when its own payload is the same but
    for the generation, a counter of each process. *)
Theorem revalidation_exact {A} {j : JSON A} {jl : JSONLaws A} {v : Versioned A} {el : EtagLaws} (a b : A) r r' :
  jvalid a -> jvalid b -> jvalid (zeroed a) -> jvalid (zeroed b) ->
  let first := servePayload r a in
  HeaderGet "If-None-Match" (ReqHeader r') = HeaderGet "ETag" (RespHeader first) ->
  Status (servePayload r' b) = 304%Z <-> zeroed a = zeroed b.
Proof.
  intros Ha Hb Hza Hzb. cbn zeta. unfold servePayload.
  destruct (unmarshal_marshal a Ha) as (sa & -> & _).
  destruct (unmarshal_marshal b Hb) as (sb & -> & _).
  destruct (unmarshal_marshal (zeroed a) Hza) as (za & Hma & Hua).
  destruct (unmarshal_marshal (zeroed b) Hzb) as (zb & Hmb & Hub). rewrite Hma, Hmb.
  set (h := HeaderSet "ETag" (etagOfString za) ∅).
  assert (Hh : HeaderGet "ETag" h = etagOfString za) by apply HeaderGet_Set.
  assert (Hh' : HeaderGet "ETag" (HeaderSet "Content-Type" "application/json" h) = etagOfString za).
  { rewrite HeaderGet_Set_ne; [done|by vm_compute]. }
  intros Hreq.
  assert (HE : HeaderGet "If-None-Match" (ReqHeader r') = etagOfString za).
  { rewrite Hreq. by destruct (revalidated r (etagOfString za)). }
  unfold revalidated. rewrite HE. rewrite (proj2 (String.eqb_neq _ _) (etagOfString_nonempty za)). simpl.
  destruct (etagMatch (etagOfString za) (etagOfString zb)) eqn:Hm.
  - split; [intros _|done]. apply etagMatch_etag in Hm. subst zb. congruence.
  - split; [done|]. intros He. exfalso. assert (za = zb) as Heq.
    { rewrite He in Hma. congruence. }
    by rewrite (proj2 (etagMatch_etag za zb) Heq) in Hm.
Qed.

(** The trust bundle only moves forward and no watcher sleeps through a change.
    After any sequence of installations, in any order, the served pair is one that was
    installed, its generation is at least every other's, and the channel that a watcher
    took is closed exactly when the generation has grown since. *)
Theorem trust_generation_monotone (l : list (Signer.Signer Cert Key * Z)) (s : server) :
  let s' := SetSigners l s in
  (forall st, signerState s = Some st -> exists st', signerState s' = Some st' /\ (sg_gen st <= sg_gen st')%Z) /\
  (forall st', signerState s' = Some st' ->
     (signerState s = Some st' \/ (sg st', sg_gen st') ∈ l) /\ Forall (fun x => (x.2 <= sg_gen st')%Z) l) /\
  (closed (genNotify s) s' = true <->
     exists st', signerState s' = Some st' /\ forall st, signerState s = Some st -> (sg_gen st < sg_gen st')%Z) /\
  genNotify s <= genNotify s'.
Proof.
  induction l as [|[x g] l IH] using rev_ind; simpl.
  { split; [intros st Hst; exists st; split; [done|lia]|].
    split; [intros; split; [by left|constructor]|]. split; [|done].
    unfold closed. rewrite Nat.ltb_irrefl. split; [done|]. intros (st' & Hst & Hlt).
    specialize (Hlt _ Hst). lia. }
  unfold SetSigners in *. rewrite fold_left_app. simpl.
  set (s1 := fold_left _ l s) in *. destruct IH as (H1 & H2 & H3 & H4).
  destruct (SetSigner_cases x g s1) as [(st1 & Hst1 & Hle & ->)|(Hlt & Hnew & Hn)].
  - split; [done|]. split; [|done]. intros st' Hst'. rewrite Hst1 in Hst'. injection Hst' as <-.
    destruct (H2 _ Hst1) as [Hin Hall]. split.
    + destruct Hin as [?|?]; [by left|right]. by apply elem_of_app; left.
    + apply Forall_app. split; [done|]. by repeat constructor.
  - rewrite Hnew. split; [|split; [|split]].
    + intros st Hst. destruct (H1 _ Hst) as (st1 & Hst1 & Hle). specialize (Hlt _ Hst1).
      eexists. split; [done|]. simpl. lia.
    + intros st' [= <-]. simpl. split; [right; apply elem_of_app; right; by left|].
      apply Forall_app. split; [|by repeat constructor].
      destruct (signerState s1) as [st1|] eqn:Hst1.
      * destruct (H2 _ eq_refl) as [_ Hall]. specialize (Hlt _ eq_refl).
        eapply Forall_impl; [exact Hall|]. simpl. intros. lia.
      * assert (l = []) as ->; [|constructor].
        destruct l as [|[y gy] l _] using rev_ind; [done|]. exfalso. unfold s1 in Hst1.
        rewrite fold_left_app in Hst1. simpl in Hst1.
        destruct (SetSigner_cases y gy (fold_left (fun s sg => SetSigner sg.1 sg.2 s) l s))
          as [(st1 & Hs1 & _ & He)|(_ & Hs1 & _)]; congruence.
    + unfold closed. rewrite Hn. split; [intros _|intros _; apply Nat.ltb_lt; lia].
      eexists. split; [done|]. intros st Hst. destruct (H1 _ Hst) as (st1 & Hst1 & Hle).
      specialize (Hlt _ Hst1). simpl. lia.
    + lia.
Qed.

(** Only the administrator's token purges. The journal changes exactly when the
    request carries the configured, non-empty token and asks for a valid purge; the
    answer is then the number the journal gave it. *)
Theorem purge_admin_gated {jb : JSON purgeBody} {jz : JSON Z} (s : server) r :
  let '(s', resp) := handlePurgeAdmin s r in
  match purge s, bearer r with
  | Some p, Some tok =>
      if negb (String.eqb (purgeAdminToken s) "") && String.eqb tok (purgeAdminToken s) then
        match unmarshal (limitReader 65536 (Body r)) with
        | Some b =>
            match canonPurge (b_Scope b) (b_Host b) (b_URI b) (b_Tag b) with
            | Some q => s' = setPurge (appendPurge q p) s /\
                        RespBody resp = RespBody (encodeBody ∅ (lastSeq (appendPurge q p))) /\ Status resp = 200%Z
            | None => s' = s /\ Status resp = 400%Z
            end
        | None => s' = s /\ Status resp = 400%Z
        end
      else s' = s /\ Status resp = 401%Z
  | Some _, None => s' = s /\ Status resp = 401%Z
  | None, _ => s' = s /\ Status resp = 404%Z
  end.
Proof.
  unfold handlePurgeAdmin. destruct (purge s) as [p|]; [|done]. destruct (bearer r) as [tok|]; [|done].
  destruct (String.eqb (purgeAdminToken s) ""); [done|]. simpl.
  destruct (String.eqb tok (purgeAdminToken s)); [|done]. simpl.
  destruct (unmarshal _) as [b|]; [|done]. unfold Add.
  destruct (canonPurge _ _ _ _) as [q|]; done.
Qed.

(** Certificates are issued under the identity of the token. A request gets a
    certificate only with a live token that has an identity and a signed request for an
    allowed key, while the gate has room; the certificate is the signer's for that
    identity, whatever the request says of itself, and the ledger records the identity
    with the active fingerprint. Any other answer leaves the ledger as it was. *)
Theorem issuance_under_identity {jq : JSON edgeCertRequest} {jp : JSON edgeCertResponse}
    (ParseCSR : string -> option (Pub * bool)) (fmtTime fmtSerial : Z -> string) now rnd (s : server) r :
  let '(s', resp) := handleEdgeCert ParseCSR fmtTime fmtSerial now rnd s r in
  (Status resp <> 200%Z -> s' = s) /\
  (Status resp = 200%Z ->
   exists token id st pub chain na sn,
     bearer r = Some token /\ Authz.Known (authz s) token = true /\ Authz.Identity (authz s) token = Some id /\
     signerState s = Some st /\ AllowedLeafKey pub = true /\ saturated (signGate s) = false /\
     Sign (sg st) now rnd pub id = Ok (chain, na, sn) /\
     issued s' = issued s ++ [(id, ActiveFP (sg st))] /\
     RespBody resp = RespBody (encodeBody ∅ (mkEdgeCertResp chain (fmtTime na) (fmtSerial sn) (CAID (sg st))
                                               (ActiveFP (sg st))))).
Proof.
  unfold handleEdgeCert, authenticated. destruct (signerState s) as [st|]; [|done].
  destruct (bearer r) as [token|] eqn:Hb; [|done].
  destruct (Authz.Known (authz s) token) eqn:Hk; [|done].
  destruct (Authz.Identity (authz s) token) as [id|] eqn:Hi; [|done].
  destruct (unmarshal _) as [body|]; [|done]. destruct (pem_Decode _) as [[[ty bytes] rest]|]; [|done].
  destruct (negb (String.eqb ty _)); [done|]. destruct (ParseCSR bytes) as [[pub signed]|]; [|done].
  destruct (AllowedLeafKey pub) eqn:Hal; [|done]. simpl. destruct signed; [|done]. simpl.
  destruct (saturated (signGate s)) eqn:Hsat; [done|].
  destruct (Sign (sg st) now rnd pub id) as [[[chain na] sn]|] eqn:Hsign; [|done].
  split; [done|]. intros _. exists token, id, st, pub, chain, na, sn. by repeat split.
Qed.

End props.

(** *** Witnesses *)

#[local] Existing Instances SignerProps.toyPKI SignerProps.lettersEtag SignerProps.lettersEtagLaws.

#[local] Instance toyJSON {A} : JSON A := { marshal _ := Some "{}"; unmarshal _ := None }.

(** A codec for the host lists of up to one name, with generations 0 and 1. *)
#[local] Instance hostsJSON : JSON hostsResponse := {
  marshal a := Some ((if (h_Generation a =? 0)%Z then "0" else "1") +:+
                     match h_Hosts a with [] => "-" | h :: _ => h end);
  unmarshal s :=
    match s with
    | String c h => Some (mkHostsResp (if Ascii.eqb c "0" then 0 else 1) (if String.eqb h "-" then [] else [h]))
    | "" => None
    end;
}.
#[local] Instance hostsJSONLaws : JSONLaws hostsResponse.
Proof.
  refine {| jvalid a := (h_Generation a = 0 \/ h_Generation a = 1)%Z /\
                        (h_Hosts a = [] \/ exists h, h <> "-" /\ h_Hosts a = [h]) |}.
  intros [g hs] [[Hg|Hg] Hh]; simpl in *; subst g; (destruct Hh as [->|(h & Hne & ->)]; (eexists; split; [reflexivity|]);
    cbn; [done|]; by rewrite (proj2 (String.eqb_neq _ _) Hne)).
Defined.

Definition getReq (path query token etag : string) : Request :=
  mkReq "GET" path query (HeaderSet "Authorization" ("Bearer " +:+ token) (HeaderSet "If-None-Match" etag ∅)) "".

Definition demoAuthz : Authz.Authz := Authz.NewAuthz {[ "tok" := ["app.example"] ]}.
Definition demoCerts : CPCerts.CertStore :=
  CPCerts.mkStore {[ "other.example" := CPCerts.mkEntry "chain" "secret" "e1" ]} true "".

(** A caller without a grant, and one with it: the entry is the one stored for the name. *)
Definition ownCerts : CPCerts.CertStore :=
  CPCerts.mkStore (<[ "app.example" := CPCerts.mkEntry "own" "mine" "e2" ]> (CPCerts.byName demoCerts)) true "".

#[local] Instance certJSON : JSON certResponse := {
  marshal a := Some (cr_ChainPEM a +:+ "/" +:+ cr_KeyPEM a); unmarshal _ := None
}.

Lemma cert_keys_guarded_witness :
  let s := NewServer (Cert := string) (Key := ascii) ownCerts demoAuthz in
  let s' := NewServer (Cert := string) (Key := ascii) (CPCerts.mkStore ∅ true "") demoAuthz in
  let r := getReq "/v1/certs" "sni=other.example" "tok" "" in
  let r' := getReq "/v1/certs" "sni=APP.example" "tok" "" in
  (handleCert s r = handleCert s' r /\ Status (handleCert s r) ∈ [400%Z; 401%Z; 403%Z]) /\
  RespBody (handleCert s r') = "own/mine" +:+ newline /\
  exists token e, bearer r' = Some token /\ grantedTo demoAuthz token "app.example" /\
    storedFor (CPCerts.byName ownCerts) "app.example" e /\
    RespBody (handleCert s r') = (CPCerts.ce_chainPEM e +:+ "/" +:+ CPCerts.ce_keyPEM e) +:+ newline.
Proof.
  split; [|split; [vm_compute; reflexivity|]].
  - apply (cert_keys_guarded _ _ (getReq "/v1/certs" "sni=other.example" "tok" "")); [reflexivity|].
    intros token Ht. vm_compute in Ht. injection Ht as <-. vm_compute. reflexivity.
  - destruct (cert_keys_guarded (NewServer (Cert := string) (Key := ascii) ownCerts demoAuthz)
             (NewServer (Cert := string) (Key := ascii) ownCerts demoAuthz)
             (getReq "/v1/certs" "sni=APP.example" "tok" "")) as (_ & H & _).
    destruct H as (token & e & Hb & Hg & He & Hbody); [vm_compute; reflexivity|].
    assert (Hn : normalizeSNI (QueryGet "sni" (getReq "/v1/certs" "sni=APP.example" "tok" "")) = "app.example")
      by (vm_compute; reflexivity).
    rewrite Hn in Hg, He. exists token, e. repeat (split; [done|]). exact Hbody.
Defined.

(** Two stores that differ in what another tenant has. *)
Definition tenantStore (otherRules : string) (generation : Z) : Store string :=
  mkStore "base" {[ "t/z" := "mine"; "u/z" := otherRules ]} ∅
    {[ "app.example/" := "t/z"; "other.example/" := "u/z" ]} [] generation "".
Definition tenantServer (otherRules : string) (generation : Z) (hs : list string) : Server string ascii :=
  mkServer demoCerts demoAuthz (Some (tenantStore otherRules generation)) None None None
    (Some (mkHosts hs generation "")) None "" None 0 false None 0 None 0 [].

#[local] Instance toyTotal {A} : JSONTotal A (JSON0 := toyJSON).
Proof. intros a. by eexists. Defined.
#[local] Instance hostsTotal : JSONTotal hostsResponse (JSON0 := hostsJSON).
Proof. intros a. by eexists. Defined.

Lemma tenantStores_same :
  sameScope (Authz.Allowed demoAuthz "tok") (tenantStore "one" 4) (tenantStore "two" 5).
Proof.
  assert (Hno : Authz.Allowed demoAuthz "tok" "other.example" = false) by (vm_compute; reflexivity).
  split; try done. intros z Hz. simpl in *.
  assert (z <> "u/z") as Hne.
  { intros ->. destruct Hz as [(h & _ & Hh)|(k & Hk & Hz)]; [by rewrite lookup_empty in Hh|].
    rewrite lookup_insert in Hz. case_decide; [done|]. apply lookup_singleton_Some in Hz as [<- _].
    unfold patternHost in Hk. simpl in Hk. by rewrite Hno in Hk. }
  rewrite !lookup_insert. case_decide; [done|]. by rewrite !lookup_singleton_ne.
Qed.

(** The other tenant has edited its rules and added a host: the generations differ. *)
Lemma tenants_isolated_witness :
  let s := tenantServer "one" 4 ["app.example"] in
  let s' := tenantServer "two" 5 ["other.example"; "app.example"] in
  let r := getReq "/v1/waf" "" "tok" "" in
  let ord' := fun m => rev (map_to_list m) in
  sameAnswer wafResponse 4 5 (handleWAF map_to_list s r) (handleWAF ord' s' r) /\
  sameAnswer corazaResponse 0 0 (handleCoraza map_to_list s r) (handleCoraza ord' s' r) /\
  sameAnswer rateLimitResponse 0 0 (handleRateLimit map_to_list s r) (handleRateLimit ord' s' r) /\
  sameAnswer cacheResponse 0 0 (handleCache map_to_list s r) (handleCache ord' s' r) /\
  sameAnswer hostsResponse 4 5 (handleHosts s r) (handleHosts s' r).
Proof.
  apply (tenants_isolated map_to_list (fun m => rev (map_to_list m))
           (tenantServer "one" 4 ["app.example"]) (tenantServer "two" 5 ["other.example"; "app.example"])
           (getReq "/v1/waf" "" "tok" "")); try done.
  - intros m. symmetry. apply Permutation_rev.
  - intros token Ht. assert (token = "tok") as ->.
    { vm_compute in Ht. by injection Ht as <-. }
    split; try constructor; [apply tenantStores_same|]. unfold sameHosts. vm_compute. reflexivity.
Defined.

Lemma revalidation_exact_witness :
  let a := mkHostsResp 0 ["a.example"] in let b := mkHostsResp 1 ["a.example"] in
  let first := servePayload (getReq "/v1/hosts" "" "tok" "") a in
  let r' := getReq "/v1/hosts" "" "tok" (HeaderGet "ETag" (RespHeader first)) in
  Status (servePayload r' b) = 304%Z /\
  (Status (servePayload r' b) = 304%Z <-> zeroed a = zeroed b).
Proof.
  split; [vm_compute; reflexivity|].
  eapply (revalidation_exact (mkHostsResp 0 ["a.example"]) (mkHostsResp 1 ["a.example"])
            (getReq "/v1/hosts" "" "tok" "")); simpl;
    try (split; [by auto|right; by exists "a.example"]).
  vm_compute. reflexivity.
Defined.

End EdgeServerProps.
