(* ===== verification/Rotation.v ===== *)
(** * Rotation of the edge CA

    Models [src/edgecp/ca.go] ([EnsureCA], [RotateCA], [SetActiveNew] and [TrimCA] over
    the CA Secret, each a compare-and-swap loop) and [src/edgecp/signerreload.go] (the
    reload that turns the Secret into the server's signer).

    An attempt of a loop is a decision on the Secret it read: an error, an answer, or a
    write.  [casLoop] runs the attempts against what the API server answers.  [Phase] is
    the rotation as its authors describe it; the theorems show that the decisions
    implement it under any interleaving of writers. *)

From S2P Require Import Prelude GoString GoTime Certs PurgeJournal EdgeStores Signer EdgeServer.

Set Default Proof Using "Type".

Module Rotation.
Import EdgeStores Signer EdgeServer.

Definition caGenerationAnnotation : string := "parapet.moonrhythm.io/edge-ca-generation".
Definition caRotationPhaseAnnotation : string := "parapet.moonrhythm.io/edge-ca-rotation-phase".
Definition caActiveAnnotation : string := "parapet.moonrhythm.io/edge-ca-active".
Definition caRotationStartedAnnotation : string := "parapet.moonrhythm.io/edge-ca-rotation-started".
Definition caPhaseOverlap : string := "overlap".
Definition caPhaseTrimmed : string := "trimmed".
Definition caActiveOld : string := "old".
Definition caActiveNew : string := "new".
Definition caNewKeyField : string := "tls-new.key".

(** The fields of a [v1.Secret] that the code uses. *)
Record Secret := mkSecret {
  s_Name : string;
  s_Data : gmap string string;
  s_Annotations : gmap string string;
  s_ResourceVersion : string;
}.

Definition field (k : string) (s : Secret) : string := default "" (s_Data s !! k).
Definition annotation (k : string) (s : Secret) : string := default "" (s_Annotations s !! k).

Definition withData (f : gmap string string -> gmap string string) (s : Secret) : Secret :=
  mkSecret (s_Name s) (f (s_Data s)) (s_Annotations s) (s_ResourceVersion s).
Definition withAnnotations (f : gmap string string -> gmap string string) (s : Secret) : Secret :=
  mkSecret (s_Name s) (s_Data s) (f (s_Annotations s)) (s_ResourceVersion s).

Inductive caError :=
| ENotFound | EGet | EMaterial | EBlanked | EGenerate | ENotPopulated | EUnparseable | EMultiCert
| EAssemble | EWrongFP | ENotOverlap | ENoStagedKey | EKeyMismatch | ENotActiveNew | EPersist | EVerify
| EExhausted | ENoExpected.

Inductive decision (V : Type) := DErr (e : caError) | DDone (v : V) | DWrite (s : Secret) (v : V).
Arguments DErr {V}.
Arguments DDone {V}.
Arguments DWrite {V}.

Inductive getError := NotFound | GetFailed.
Inductive updated := Updated | Conflict | UpdateFailed.

Section rotation.
Context {Cert Pub Key : Type} `{!PKIOps Cert Pub Key} `{!EtagOps}.

(** ** The decisions *)

(** [gen] is what [GenerateCA] returns, if it is called; [now] is in seconds. *)
Definition ensureDecide (gen : option (string * string)) (sec : Secret) : decision (string * string) :=
  let crt := field "tls.crt" sec in
  let key := field "tls.key" sec in
  if negb (String.eqb crt "") || negb (String.eqb key "") then
    if validCAKeypair crt key then DDone (crt, key) else DErr EMaterial
  else match s_Annotations sec !! caGenerationAnnotation with
  | Some _ => DErr EBlanked
  | None =>
      match gen with
      | None => DErr EGenerate
      | Some (certPEM, keyPEM) =>
          match caBundleID certPEM with
          | None => DErr EGenerate
          | Some id =>
              DWrite (withAnnotations (insert caGenerationAnnotation id)
                        (withData (fun d => <["tls.key" := keyPEM]> (<["tls.crt" := certPEM]> d)) sec))
                (certPEM, keyPEM)
          end
      end
  end.

Definition rotateDecide (gen : option (string * string)) (now : Z) (sec : Secret) : decision string :=
  let crt := field "tls.crt" sec in
  if negb (validCAKeypair crt (field "tls.key" sec)) then DErr ENotPopulated
  else match reencodeCertBundle crt with
  | None => DErr EUnparseable
  | Some (oldBundle, count) =>
      if String.eqb (annotation caRotationPhaseAnnotation sec) caPhaseOverlap && Nat.eqb count 2 &&
         negb (String.eqb (field caNewKeyField sec) "")
      then DDone crt
      else if negb (Nat.eqb count 1) then DErr EMultiCert
      else match gen with
      | None => DErr EGenerate
      | Some (newCert, newKey) =>
          let newBundle := oldBundle +:+ newCert in
          match reencodeCertBundle newBundle with
          | None => DErr EAssemble
          | Some (_, n) =>
              if negb (Nat.eqb n 2) then DErr EAssemble
              else match caBundleID newBundle with
              | None => DErr EAssemble
              | Some id =>
                  DWrite (withAnnotations (fun a =>
                            <[caGenerationAnnotation := id]>
                              (<[caRotationStartedAnnotation := itoa now]>
                                 (<[caActiveAnnotation := caActiveOld]>
                                    (<[caRotationPhaseAnnotation := caPhaseOverlap]> a))))
                            (withData (fun d => <[caNewKeyField := newKey]> (<["tls.crt" := newBundle]> d)) sec))
                    newBundle
              end
          end
      end
  end.

Definition flipDecide (expectedNewFP : string) (sec : Secret) : decision string :=
  let crt := field "tls.crt" sec in
  match splitCertBundle crt with
  | None => DErr EUnparseable
  | Some certs =>
      let fps := certBundleFPs crt in
      if String.eqb (annotation caActiveAnnotation sec) caActiveNew then
        if negb (String.eqb expectedNewFP "") &&
           match last fps with None => true | Some fp => negb (String.eqb fp expectedNewFP) end
        then DErr EWrongFP else DDone crt
      else if negb (String.eqb (annotation caRotationPhaseAnnotation sec) caPhaseOverlap) ||
              negb (Nat.eqb (length certs) 2)
      then DErr ENotOverlap
      else if String.eqb (field caNewKeyField sec) "" then DErr ENoStagedKey
      else if negb (String.eqb expectedNewFP "") && negb (String.eqb (default "" (last fps)) expectedNewFP)
      then DErr EWrongFP
      else if negb (validCAKeypair (default "" (last certs)) (field caNewKeyField sec)) then DErr EKeyMismatch
      else DWrite (withAnnotations (insert caActiveAnnotation caActiveNew) sec) crt
  end.

Definition trimDecide (expectedNewFP : string) (sec : Secret) : decision string :=
  let crt := field "tls.crt" sec in
  match splitCertBundle crt with
  | None => DErr EUnparseable
  | Some certs =>
      let fps := certBundleFPs crt in
      let phase := annotation caRotationPhaseAnnotation sec in
      if String.eqb phase caPhaseTrimmed && Nat.eqb (length certs) 1 then
        if negb (String.eqb (default "" (head fps)) expectedNewFP) then DErr EWrongFP
        else if negb (validCAKeypair crt (field "tls.key" sec)) then DErr EKeyMismatch
        else DDone crt
      else if negb (String.eqb (annotation caActiveAnnotation sec) caActiveNew) then DErr ENotActiveNew
      else if negb (String.eqb phase caPhaseOverlap) || negb (Nat.eqb (length certs) 2) then DErr ENotOverlap
      else if negb (String.eqb (default "" (last fps)) expectedNewFP) then DErr EWrongFP
      else
        let newCert := default "" (last certs) in
        let newKey := field caNewKeyField sec in
        if String.eqb newKey "" || negb (validCAKeypair newCert newKey) then DErr EKeyMismatch
        else match caBundleID newCert with
        | None => DErr EUnparseable
        | Some id =>
            DWrite (withAnnotations (fun a =>
                      <[caGenerationAnnotation := id]>
                        (delete caRotationStartedAnnotation
                           (<[caActiveAnnotation := caActiveOld]>
                              (<[caRotationPhaseAnnotation := caPhaseTrimmed]> a))))
                      (withData (fun d => delete caNewKeyField
                                            (<["tls.key" := newKey]> (<["tls.crt" := newCert]> d))) sec))
              newCert
        end
  end.

(** ** The loops *)

(** What one attempt meets: the Secret read, the random source, the clock, the answer to
    the write, and the Secret read back. *)
Record attempt := mkAttempt {
  a_get : result getError Secret;
  a_key : option Key;
  a_sn : option Z;
  a_now : Z;
  a_update : updated;
  a_check : result getError Secret;
}.

Definition generated (ttl : Z) (a : attempt) : option (string * string) :=
  GenerateCA ttl (a_key a) (a_sn a) (a_now a).

(** [verify] judges the Secret read back. *)
Fixpoint casLoop {V} (decide : attempt -> Secret -> decision V) (verify : result getError Secret -> bool)
    (maxAttempts : nat) (env : list attempt) : result caError V :=
  match maxAttempts, env with
  | S n, a :: env =>
      match a_get a with
      | Err NotFound => Err ENotFound
      | Err GetFailed => Err EGet
      | Ok sec =>
          match decide a sec with
          | DErr e => Err e
          | DDone v => Ok v
          | DWrite _ v =>
              match a_update a with
              | Conflict => casLoop decide verify n env
              | UpdateFailed => Err EPersist
              | Updated => if verify (a_check a) then Ok v else Err EVerify
              end
          end
      end
  | _, _ => Err EExhausted
  end.

Definition EnsureCA (ttl : Z) (env : list attempt) : result caError (string * string) :=
  casLoop (fun a => ensureDecide (generated ttl a)) (fun _ => true) 5 env.

Definition certCountIs (n : nat) (sec : Secret) : bool :=
  match reencodeCertBundle (field "tls.crt" sec) with Some (_, m) => Nat.eqb m n | None => false end.

Definition readBack (p : Secret -> bool) (check : result getError Secret) : bool :=
  match check with Ok sec => p sec | Err _ => false end.

Definition RotateCA (ttl : Z) (env : list attempt) : result caError string :=
  casLoop (fun a => rotateDecide (generated ttl a) (a_now a / second)) (readBack (certCountIs 2)) 5 env.

Definition SetActiveNew (expectedNewFP : string) (env : list attempt) : result caError string :=
  casLoop (fun _ => flipDecide expectedNewFP)
    (readBack (fun check => String.eqb (annotation caActiveAnnotation check) caActiveNew)) 5 env.

Definition trimVerified (expectedNewFP : string) (check : Secret) : bool :=
  certCountIs 1 check &&
  match certBundleFPs (field "tls.crt" check) with [fp] => String.eqb fp expectedNewFP | _ => false end &&
  validCAKeypair (field "tls.crt" check) (field "tls.key" check).

Definition TrimCA (expectedNewFP : string) (env : list attempt) : result caError string :=
  if String.eqb expectedNewFP "" then Err ENoExpected
  else casLoop (fun _ => trimDecide expectedNewFP) (readBack (trimVerified expectedNewFP)) 5 env.

(** ** The reload of the signer *)

(** The gauges that a reload sets. *)
Record gauges := mkGauges {
  overlapSince : option Z;      (* in the overlap, since *)
  rvUnparsed : bool;
  flipFailed : bool;
}.

Definition parseInt0 (s : string) : Z := match Atoi s with Some z => z | None => 0 end.

Definition reload (caSecret : string) (ttl skew : Z) (secs : list Secret) (g : gauges)
    (srv : Server Cert Key) : gauges * Server Cert Key :=
  match List.find (fun s => String.eqb (s_Name s) caSecret) secs with
  | None => (mkGauges None (rvUnparsed g) (flipFailed g), srv)
  | Some sec =>
      let g := mkGauges (if String.eqb (annotation caRotationPhaseAnnotation sec) caPhaseOverlap
                         then Some (parseInt0 (annotation caRotationStartedAnnotation sec)) else None)
                 (rvUnparsed g) (flipFailed g) in
      let crt := field "tls.crt" sec in
      if String.eqb crt "" then (g, srv)
      else match rvToU64 (s_ResourceVersion sec) with
      | None => (mkGauges (overlapSince g) true (flipFailed g), srv)
      | Some generation =>
          let g := mkGauges (overlapSince g) false (flipFailed g) in
          let new := String.eqb (annotation caActiveAnnotation sec) caActiveNew in
          let fps := certBundleFPs crt in
          let keyPEM := if new then field caNewKeyField sec else field "tls.key" sec in
          let activeFP := default "" (if new then last fps else head fps) in
          if String.eqb keyPEM "" then (g, srv)
          else match NewProvidedSignerActive crt keyPEM activeFP ttl skew with
          | Err _ => (mkGauges (overlapSince g) (rvUnparsed g) (if new then true else flipFailed g), srv)
          | Ok (cand, _) =>
              let g := mkGauges (overlapSince g) (rvUnparsed g) (if new then false else flipFailed g) in
              if String.eqb (CAID cand) (CurrentCAID srv) && String.eqb (ActiveFP cand) (CurrentActiveFP srv)
              then (g, srv)
              else (g, SetSigner cand generation srv)
          end
      end
  end.

End rotation.
Arguments attempt Key : clear implicits.

End Rotation.

(** ** The rotation as its authors describe it *)

Module RotationLemmas.
Import EdgeStores Signer SignerLemmas EdgeServer EdgeServerLemmas Rotation.

(** A CA: the DER of its certificate and the PEM of its key. *)
Record CA := mkCA { ca_der : string; ca_key : string }.

Inductive Phase :=
| Virgin
| Single (ca : CA) (trimmed : bool)
| Overlap (old new : CA) (flipped : bool).

Definition activeCA (p : Phase) : option CA :=
  match p with Virgin => None | Single ca _ => Some ca | Overlap o n f => Some (if f then n else o) end.

Definition trustedDERs (p : Phase) : list string :=
  match p with Virgin => [] | Single ca _ => [ca_der ca] | Overlap o n _ => [ca_der o; ca_der n] end.

Inductive op := OEnsure | ORotate | OFlip (fp : string) | OTrim (fp : string).

Section lemmas.
Context {Cert Pub Key : Type} `{!PKIOps Cert Pub Key} `{!PKILaws Cert Pub Key} `{!EtagOps} `{!EtagLaws}.

Definition genuine (ca : CA) : Prop :=
  exists c k, ParseCertificate (ca_der ca) = Some c /\ parsePrivateKey (ca_key ca) = Some k /\
    PubEqual (PublicKey c) (Public k) = true.

Definition pems (ca : CA) : string * string := (encodeCert (ca_der ca), ca_key ca).

(** The phase after an operation that writes; [None] when it does not write. *)
Definition anext (o : op) (g : option CA) (p : Phase) : option Phase :=
  match o, p with
  | OEnsure, Virgin => ca ← g; Some (Single ca false)
  | ORotate, Single old _ => ca ← g; Some (Overlap old ca false)
  | OFlip fp, Overlap old new false =>
      if String.eqb fp "" || String.eqb fp (sumHex (ca_der new)) then Some (Overlap old new true) else None
  | OTrim fp, Overlap old new true =>
      if String.eqb fp (sumHex (ca_der new)) then Some (Single new true) else None
  | _, _ => None
  end.

(** A Secret that is in a phase. *)
Definition Repr (sec : Secret) (p : Phase) : Prop :=
  let crt := field "tls.crt" sec in
  match p with
  | Virgin =>
      crt = "" /\ field "tls.key" sec = "" /\ s_Annotations sec !! caGenerationAnnotation = None /\
      annotation caRotationPhaseAnnotation sec = "" /\ annotation caActiveAnnotation sec = ""
  | Single ca trimmed =>
      genuine ca /\ certBlocks crt = [ca_der ca] /\ parseCACert crt = ParseCertificate (ca_der ca) /\
      field "tls.key" sec = ca_key ca /\
      annotation caRotationPhaseAnnotation sec <> caPhaseOverlap /\
      trimmed = String.eqb (annotation caRotationPhaseAnnotation sec) caPhaseTrimmed /\
      annotation caActiveAnnotation sec <> caActiveNew
  | Overlap o n flipped =>
      genuine o /\ genuine n /\ ca_der o <> ca_der n /\
      crt = encodeCert (ca_der o) +:+ encodeCert (ca_der n) /\
      field "tls.key" sec = ca_key o /\ field caNewKeyField sec = ca_key n /\
      annotation caRotationPhaseAnnotation sec = caPhaseOverlap /\
      annotation caActiveAnnotation sec = (if flipped then caActiveNew else caActiveOld)
  end.

Definition wrote {V} (d : decision V) : option Secret := match d with DWrite s _ => Some s | _ => None end.

(** What one attempt of an operation writes over the Secret it read. *)
Definition write (o : op) (gen : option (string * string)) (now : Z) (sec : Secret) : option Secret :=
  match o with
  | OEnsure => wrote (ensureDecide gen sec)
  | ORotate => wrote (rotateDecide gen now sec)
  | OFlip fp => wrote (flipDecide fp sec)
  | OTrim fp => wrote (trimDecide fp sec)
  end.

(** *** PEM facts *)

Lemma pem_Decode_nil : pem_Decode "" = None.
Proof using Type*.
  destruct (pem_Decode "") as [[[ty b] r]|] eqn:Hd; [|done]. apply pem_shrinks in Hd. simpl in Hd. lia.
Qed.

Lemma encodeCert_app_nonempty der r : String.eqb (encodeCert der +:+ r) "" = false.
Proof using Type*.
  apply String.eqb_neq. intros He. pose proof (pem_roundtrip "CERTIFICATE" der r cert_type) as Hd.
  unfold encodeCert in He. rewrite He, pem_Decode_nil in Hd. done.
Qed.

Lemma parseCACert_encode der r : parseCACert (encodeCert der +:+ r) = ParseCertificate der.
Proof using Type*. unfold parseCACert, encodeCert. by rewrite pem_roundtrip by apply cert_type. Qed.

Lemma certBlocks_nil : certBlocks "" = [].
Proof using Type*. unfold certBlocks. simpl. by rewrite pem_Decode_nil. Qed.

Lemma certBlocks_pair o n : certBlocks (encodeCert o +:+ encodeCert n) = [o; n].
Proof using Type*. rewrite <- (certBlocks_encode [o; n]). simpl. by rewrite str_app_nil_r. Qed.

Lemma genuine_key ca : genuine ca -> String.eqb (ca_key ca) "" = false.
Proof using Type*.
  intros (c & k & _ & Hk & _). apply String.eqb_neq. intros He. rewrite He in Hk.
  unfold parsePrivateKey in Hk. by rewrite pem_Decode_nil in Hk.
Qed.

Lemma genuine_parses ca : genuine ca -> exists c, ParseCertificate (ca_der ca) = Some c.
Proof. intros (c & _ & Hc & _). eauto. Qed.

Lemma genuine_pair ca crt :
  genuine ca -> String.eqb crt "" = false -> parseCACert crt = ParseCertificate (ca_der ca) ->
  validCAKeypair crt (ca_key ca) = true.
Proof using Type*.
  intros Hg Hne Hp. unfold validCAKeypair. rewrite Hne, (genuine_key ca Hg), Hp. simpl.
  destruct Hg as (c & k & -> & -> & Heq). done.
Qed.

Lemma GenerateCA_genuine ttl key sn now pem :
  GenerateCA ttl key sn now = Some pem -> exists ca, pem = pems ca /\ genuine ca.
Proof using Type*.
  unfold GenerateCA. destruct key as [key|]; [|done]. destruct sn as [sn|]; [|done].
  destruct (MarshalPKIX (Public key)) as [spki|]; [|done].
  destruct (SelfSign _ key) as [der|] eqn:Hs; [|done]. destruct (MarshalPKCS8 key) as [kd|] eqn:Hm; [|done].
  intros [= <-]. exists (mkCA der (pem_Encode "PRIVATE KEY" kd)). split; [done|].
  apply SelfSign_parses in Hs as (c & Hc & Hpk). apply MarshalPKCS8_parses in Hm.
  exists c, key. split; [done|]. split.
  - unfold parsePrivateKey. simpl. rewrite <- (str_app_nil_r (pem_Encode "PRIVATE KEY" kd)).
    rewrite pem_roundtrip by apply key_type. simpl. done.
  - rewrite Hpk. apply PubEqual_refl.
Qed.

(** *** Secrets after a write *)

Ltac lookups :=
  unfold field, annotation, withAnnotations, withData, caGenerationAnnotation, caRotationPhaseAnnotation,
    caActiveAnnotation, caRotationStartedAnnotation, caNewKeyField in *; cbn [s_Data s_Annotations s_Name] in *;
  repeat first [rewrite lookup_insert_eq | rewrite lookup_insert_ne by done
               |rewrite lookup_delete_eq | rewrite lookup_delete_ne by done]; cbn [from_option Datatypes.id].

Lemma parseCACert_one der : parseCACert (encodeCert der) = ParseCertificate der.
Proof using Type*. rewrite <- (str_app_nil_r (encodeCert der)). apply parseCACert_encode. Qed.

(** *** The material of a phase *)

Lemma allParse_genuine cas : Forall genuine cas -> allParse (ca_der <$> cas) = true.
Proof.
  unfold allParse. induction 1 as [|ca cas Hg Hl IH]; [done|]. simpl.
  destruct (genuine_parses ca Hg) as [c ->]. exact IH.
Qed.

Lemma split_pair o n :
  genuine o -> genuine n ->
  splitCertBundle (encodeCert (ca_der o) +:+ encodeCert (ca_der n)) =
  Some [encodeCert (ca_der o); encodeCert (ca_der n)].
Proof using Type*.
  intros Ho Hn. unfold splitCertBundle. rewrite certBlocks_pair.
  change [ca_der o; ca_der n] with (ca_der <$> [o; n]).
  by rewrite allParse_genuine by by repeat constructor.
Qed.

Lemma reencode_pair o n :
  genuine o -> genuine n ->
  reencodeCertBundle (encodeCert (ca_der o) +:+ encodeCert (ca_der n)) =
  Some (encodeCert (ca_der o) +:+ encodeCert (ca_der n), 2).
Proof using Type*.
  intros Ho Hn. unfold reencodeCertBundle. rewrite certBlocks_pair.
  change [ca_der o; ca_der n] with (ca_der <$> [o; n]).
  rewrite allParse_genuine by by repeat constructor. simpl. by rewrite str_app_nil_r.
Qed.

Lemma fps_pair o n :
  certBundleFPs (encodeCert o +:+ encodeCert n) = [sumHex o; sumHex n].
Proof using Type*. unfold certBundleFPs. by rewrite certBlocks_pair. Qed.

Lemma single_bundle crt ca :
  genuine ca -> certBlocks crt = [ca_der ca] ->
  reencodeCertBundle crt = Some (encodeCert (ca_der ca), 1) /\
  splitCertBundle crt = Some [encodeCert (ca_der ca)] /\ String.eqb crt "" = false.
Proof using Type*.
  intros Hg Hb. unfold reencodeCertBundle, splitCertBundle. rewrite Hb.
  destruct (genuine_parses ca Hg) as [c Hc]. unfold allParse. simpl. rewrite Hc. simpl. rewrite str_app_nil_r.
  split; [done|]. split; [done|]. apply String.eqb_neq. intros ->. by rewrite certBlocks_nil in Hb.
Qed.

Lemma encoded_pair ca : genuine ca -> validCAKeypair (encodeCert (ca_der ca)) (ca_key ca) = true.
Proof using Type*.
  intros Hg. rewrite <- (str_app_nil_r (encodeCert (ca_der ca))).
  apply genuine_pair; [done|apply encodeCert_app_nonempty|apply parseCACert_encode].
Qed.

Lemma bundle_id_some crt : certBlocks crt <> [] -> exists id, caBundleID crt = Some id.
Proof. unfold caBundleID, FromPEM, FromDER. destruct (certBlocks crt); [done|eauto]. Qed.

Lemma Repr_crt_nonempty sec p :
  Repr sec p -> p <> Virgin -> String.eqb (field "tls.crt" sec) "" = false /\
  certBlocks (field "tls.crt" sec) = trustedDERs p.
Proof using Type*.
  destruct p as [|ca t|o n f]; [done| |].
  - intros (Hg & Hb & _) _. by destruct (single_bundle _ _ Hg Hb) as (_ & _ & ->).
  - intros (_ & _ & _ & -> & _) _. split; [apply encodeCert_app_nonempty|apply certBlocks_pair].
Qed.

Lemma Repr_pair sec p :
  Repr sec p -> validCAKeypair (field "tls.crt" sec) (field "tls.key" sec) = negb (bool_decide (trustedDERs p = [])).
Proof using Type*.
  destruct p as [|ca t|o n f].
  - intros (-> & _). done.
  - intros (Hg & Hb & Hp & -> & _). simpl. destruct (single_bundle _ _ Hg Hb) as (_ & _ & Hne).
    by apply genuine_pair.
  - intros (Hg & _ & _ & -> & -> & _). simpl.
    apply genuine_pair; [done|apply encodeCert_app_nonempty|apply parseCACert_encode].
Qed.

(** *** Every attempt does what the phase says *)

(** The outcome of an attempt over a phase. *)
Definition implements (w : option Secret) (p' : option Phase) : Prop :=
  match w, p' with
  | Some sec', Some p' => Repr sec' p'
  | None, None => True
  | _, _ => False
  end.

Definition fresh (g : option CA) (p : Phase) : Prop :=
  match g with Some ca => genuine ca /\ ca_der ca ∉ trustedDERs p | None => True end.

Lemma ensure_implements g now sec p :
  Repr sec p -> fresh g p -> implements (write OEnsure (pems <$> g) now sec) (anext OEnsure g p).
Proof using Type*.
  intros Hr Hf. unfold write, ensureDecide. assert (p = Virgin \/ p <> Virgin) as [-> | Hp] by (destruct p; auto).
  - pose proof Hr as (-> & -> & Hgen & Hph & Hac). simpl. rewrite Hgen. destruct g as [ca|]; simpl; [|done].
    destruct Hf as [Hg _]. destruct (bundle_id_some (encodeCert (ca_der ca))) as [id ->]; [by rewrite certBlocks_one|].
    simpl. lookups. rewrite certBlocks_one, parseCACert_one, Hph, Hac. done.
  - destruct (Repr_crt_nonempty _ _ Hr Hp) as [-> Hb]. simpl. rewrite (Repr_pair _ _ Hr).
    rewrite bool_decide_false by (by destruct p). simpl. by destruct p.
Qed.

Lemma rotate_implements g now sec p :
  Repr sec p -> fresh g p -> implements (write ORotate (pems <$> g) now sec) (anext ORotate g p).
Proof using Type*.
  intros Hr Hf. unfold write, rotateDecide. rewrite (Repr_pair _ _ Hr).
  destruct p as [|old t|o n f]; [done| |]; simpl negb; cbv iota.
  - pose proof Hr as (Hg & Hb & _ & Hk & Hph & _). destruct (single_bundle _ _ Hg Hb) as (-> & _ & _).
    rewrite (proj2 (String.eqb_neq _ _) Hph). simpl. destruct g as [ca|]; simpl; [|done]. destruct Hf as [Hga Hd].
    rewrite reencode_pair by done. simpl.
    destruct (bundle_id_some (encodeCert (ca_der old) +:+ encodeCert (ca_der ca))) as [id ->]; [by rewrite certBlocks_pair|].
    simpl. lookups. repeat split; try done. intros He. apply Hd. simpl. rewrite He. set_solver.
  - pose proof Hr as (Ho & Hn & Hne & -> & Hk & Hnk & -> & _). rewrite reencode_pair by done. simpl.
    by rewrite Hnk, (genuine_key n Hn).
Qed.

Lemma flip_implements fp g gen now sec p :
  Repr sec p -> implements (write (OFlip fp) gen now sec) (anext (OFlip fp) g p).
Proof using Type*.
  intros Hr. unfold write, flipDecide. destruct p as [|ca t|o n f].
  - pose proof Hr as (-> & _ & _ & -> & ->). unfold splitCertBundle. rewrite certBlocks_nil. done.
  - pose proof Hr as (Hg & Hb & _ & _ & Hph & _ & Ha). destruct (single_bundle _ _ Hg Hb) as (_ & -> & _).
    by rewrite (proj2 (String.eqb_neq _ _) Ha), (proj2 (String.eqb_neq _ _) Hph).
  - pose proof Hr as (Ho & Hn & Hne & -> & Hk & Hnk & -> & ->). rewrite split_pair, fps_pair by done.
    destruct f; simpl.
    + destruct (String.eqb fp ""); simpl; [done|]. by destruct (String.eqb (sumHex (ca_der n)) fp).
    + rewrite Hnk, (genuine_key n Hn), (encoded_pair n Hn). simpl. rewrite (String.eqb_sym fp (sumHex _)).
      destruct (String.eqb fp ""), (String.eqb (sumHex (ca_der n)) fp); simpl; try done;
        destruct Hr as (_ & _ & _ & Hc & _ & _ & Hph & _); lookups; done.
Qed.

Lemma trim_implements fp g gen now sec p :
  Repr sec p -> implements (write (OTrim fp) gen now sec) (anext (OTrim fp) g p).
Proof using Type*.
  intros Hr. unfold write, trimDecide. destruct p as [|ca t|o n f].
  - pose proof Hr as (-> & _ & _ & -> & ->). unfold splitCertBundle. rewrite certBlocks_nil. done.
  - pose proof Hr as (Hg & Hb & Hp & Hk & Hph & Ht & Ha). destruct (single_bundle _ _ Hg Hb) as (_ & -> & _).
    rewrite (Repr_pair _ _ Hr), (proj2 (String.eqb_neq _ _) Ha). simpl.
    destruct (String.eqb _ caPhaseTrimmed); simpl; [|done]. by destruct (String.eqb _ fp).
  - pose proof Hr as (Ho & Hn & Hne & -> & Hk & Hnk & -> & ->). rewrite split_pair, fps_pair by done.
    destruct f; simpl; [|done]. rewrite (String.eqb_sym fp (sumHex _)).
    destruct (String.eqb (sumHex (ca_der n)) fp); simpl; [|done].
    rewrite Hnk, (genuine_key n Hn), (encoded_pair n Hn). simpl.
    destruct (bundle_id_some (encodeCert (ca_der n))) as [id ->]; [by rewrite certBlocks_one|].
    simpl. lookups. rewrite certBlocks_one, parseCACert_one. done.
Qed.

Lemma write_implements o g now sec p :
  Repr sec p -> fresh g p -> implements (write o (pems <$> g) now sec) (anext o g p).
Proof using Type*.
  intros Hr Hf. destruct o; [by apply ensure_implements|by apply rotate_implements|by apply flip_implements|
    by apply trim_implements].
Qed.

(** *** Concurrent writers

    The API server holds the Secret and gives every write a version never used before; a
    write lands only over the version that was read. *)

Definition withVersion (rv : string) (s : Secret) : Secret :=
  mkSecret (s_Name s) (s_Data s) (s_Annotations s) rv.

Lemma Repr_withVersion rv sec p : Repr (withVersion rv sec) p <-> Repr sec p.
Proof. done. Qed.

Record Store := mkStore { current : Secret; seen : list string; reads : list (op * Secret) }.

Inductive sstep : Store -> Store -> Prop :=
| SRead o st : sstep st (mkStore (current st) (seen st) ((o, current st) :: reads st))
| SWrite o snap g now sec' rv st :
    (o, snap) ∈ reads st -> s_ResourceVersion snap = s_ResourceVersion (current st) ->
    match g with Some ca => genuine ca /\ ca_der ca ∉ certBlocks (field "tls.crt" (current st)) | None => True end ->
    write o (pems <$> g) now snap = Some sec' -> rv ∉ seen st ->
    sstep st (mkStore (withVersion rv sec') (rv :: seen st) (reads st)).

Definition astep (p p' : Phase) : Prop := exists o g, fresh g p /\ anext o g p = Some p'.

Definition Versions (st : Store) : Prop :=
  s_ResourceVersion (current st) ∈ seen st /\
  forall o snap, (o, snap) ∈ reads st ->
    s_ResourceVersion snap ∈ seen st /\
    (s_ResourceVersion snap = s_ResourceVersion (current st) -> snap = current st).

Lemma sstep_Versions st st' : sstep st st' -> Versions st -> Versions st'.
Proof.
  intros [o st0|o snap g now sec' rv st0 Hin Heq Hg Hw Hrv] [Hc Hr]; (split; simpl in *).
  - done.
  - intros o' snap' Ho. apply elem_of_cons in Ho as [[= -> ->]|Ho]; [done|]. by apply (Hr o').
  - apply elem_of_cons. by left.
  - intros o' snap' Ho. destruct (Hr _ _ Ho) as [Hs _].
    split; [apply elem_of_cons; by right|]. intros He. congruence.
Qed.

Lemma trustedDERs_spec sec p : Repr sec p -> certBlocks (field "tls.crt" sec) = trustedDERs p.
Proof using Type*.
  intros Hr. assert (p = Virgin \/ p <> Virgin) as [-> | Hp] by (destruct p; auto).
  - destruct Hr as [-> _]. apply certBlocks_nil.
  - by apply (Repr_crt_nonempty _ _ Hr).
Qed.

Lemma sstep_simulates st st' p :
  Versions st -> Repr (current st) p -> sstep st st' ->
  exists p', (p' = p \/ astep p p') /\ Repr (current st') p'.
Proof using Type*.
  intros [_ Hv] Hr Hst. destruct Hst as [o st|o snap g now sec' rv st Hin Heq Hg Hw Hrv]; simpl in *.
  { exists p. split; [by left|done]. }
  destruct (Hv _ _ Hin) as [_ Hs]. specialize (Hs Heq). subst snap.
  assert (Hf : fresh g p) by (unfold fresh; destruct g; [|done]; by rewrite <- (trustedDERs_spec _ _ Hr)).
  pose proof (write_implements o g now _ _ Hr Hf) as Hi. rewrite Hw in Hi. unfold implements in Hi.
  destruct (anext o g p) as [p'|] eqn:Ha; [|done]. exists p'. split; [right; by exists o, g|].
  by apply Repr_withVersion.
Qed.

Lemma run_simulates st st' p :
  rtc sstep st st' -> Versions st -> Repr (current st) p ->
  exists p', rtc astep p p' /\ Repr (current st') p' /\ Versions st'.
Proof using Type*.
  intros Hrun. revert p. induction Hrun as [st|st st1 st' Hs Hrun IH]; intros p Hv Hr; [exists p; by split|].
  destruct (sstep_simulates _ _ _ Hv Hr Hs) as (p1 & Hp & Hr1).
  destruct (IH p1 (sstep_Versions _ _ Hs Hv) Hr1) as (p' & Hp' & Hr' & Hv'). exists p'. split; [|done].
  destruct Hp as [-> | Hp]; [done|]. by eapply rtc_l.
Qed.

(** *** The signer of a phase *)

Lemma trustedDERs_NoDup sec p : Repr sec p -> NoDup (trustedDERs p).
Proof.
  destruct p as [|ca t|o n f]; simpl; intros Hr; [constructor|by apply NoDup_singleton|].
  destruct Hr as (_ & _ & Hne & _). apply NoDup_cons. split; [by rewrite list_elem_of_singleton|apply NoDup_singleton].
Qed.

Lemma trusted_parse sec p : Repr sec p -> allParse (trustedDERs p) = true.
Proof.
  destruct p as [|ca t|o n f]; simpl; intros Hr; [done| |].
  - apply (allParse_genuine [ca]). destruct Hr as (Hg & _). by repeat constructor.
  - apply (allParse_genuine [o; n]). destruct Hr as (Ho & Hn & _). by repeat constructor.
Qed.

Lemma active_trusted sec p ca :
  Repr sec p -> activeCA p = Some ca -> genuine ca /\ ca_der ca ∈ trustedDERs p.
Proof.
  destruct p as [|ca' t|o n f]; simpl; intros Hr [= <-].
  - destruct Hr as (Hg & _). split; [done|]. by apply list_elem_of_singleton.
  - destruct Hr as (Ho & Hn & _). destruct f; (split; [done|]); rewrite !elem_of_cons; auto.
Qed.

(** A signer whose parts belong together. *)
Definition built (s : Signer Cert Key) : Prop :=
  exists der, der ∈ certBlocks (BundlePEM s) /\ ParseCertificate der = Some (caCert s) /\
    ActiveFP s = sumHex der /\ FromDER (certBlocks (BundlePEM s)) = Some (CAID s).

Lemma provided_built crt keyPEM want ttl0 skew0 s w :
  NewProvidedSignerActive crt keyPEM want ttl0 skew0 = Ok (s, w) ->
  built s /\ certBlocks (BundlePEM s) = certBlocks crt.
Proof using Type*.
  intros Hp. pose proof (NewProvidedSignerActive_cases crt keyPEM want ttl0 skew0) as Hc. simpl in Hc.
  rewrite Hp in Hc. destruct Hc as (_ & _ & _ & (der & Hin & _ & Hparse & Hfp) & Hb & Hid & _).
  split; [|done]. exists der. rewrite Hb. done.
Qed.

Lemma pinned_der kp d x : matchesDer kp (sumHex d) x = true -> x = d.
Proof using Type*.
  unfold matchesDer. destruct (ParseCertificate x); [|done].
  rewrite (proj2 (String.eqb_neq _ _) (sumHex_nonempty d)). intros [_ Hx]%andb_prop.
  apply String.eqb_eq in Hx. by apply (sumHex_inj (Cert := Cert) (Pub := Pub) (Key := Key)) in Hx.
Qed.

(** Pinning the fingerprint of a certificate leaves one candidate. *)
Lemma pinned_once kp d ders :
  NoDup ders -> d ∈ ders -> matchesDer kp (sumHex d) d = true ->
  countb (matchesDer kp (sumHex d)) ders = 1.
Proof using Type*.
  intros Hnd Hin Hm. pose proof (pinned_der kp d) as Huniq.
  assert (Hno : forall l, d ∉ l -> countb (matchesDer kp (sumHex d)) l = 0).
  { induction l as [|x l IH]; intros Hl; [done|]. apply not_elem_of_cons in Hl as [Hx Hl]. simpl. rewrite IH by done.
    destruct (matchesDer kp (sumHex d) x) eqn:He; [|done]. by apply Huniq in He. }
  induction Hnd as [|x l Hx Hnd IH]; [by apply elem_of_nil in Hin|]. simpl.
  apply elem_of_cons in Hin as [<- | Hin]; [by rewrite Hm, Hno|].
  destruct (matchesDer kp (sumHex d) x) eqn:He; [by apply Huniq in He as ->|]. by apply IH.
Qed.

Lemma provided_pinned ca crt ttl0 skew0 :
  genuine ca -> NoDup (certBlocks crt) -> allParse (certBlocks crt) = true -> ca_der ca ∈ certBlocks crt ->
  exists s w, NewProvidedSignerActive crt (ca_key ca) (sumHex (ca_der ca)) ttl0 skew0 = Ok (s, w) /\
    ParseCertificate (ca_der ca) = Some (caCert s) /\ ActiveFP s = sumHex (ca_der ca).
Proof using Type*.
  intros (c & k & Hc & Hk & Heq) Hnd Hall Hin.
  assert (Hcount : countb (matchesDer (Public k) (sumHex (ca_der ca))) (certBlocks crt) = 1).
  { apply pinned_once; [done|done|]. unfold matchesDer. rewrite Hc, Heq, String.eqb_refl. by rewrite orb_true_r. }
  pose proof (NewProvidedSignerActive_cases crt (ca_key ca) (sumHex (ca_der ca)) ttl0 skew0) as Hcases.
  simpl in Hcases. rewrite Hk in Hcases.
  destruct (NewProvidedSignerActive _ _ _ _ _) as [[s w]|e].
  - exists s, w. split; [done|]. destruct Hcases as (_ & _ & _ & (der & _ & Hm & Hp & Hfp) & _).
    apply pinned_der in Hm as ->. done.
  - exfalso. destruct e; simpl in Hcases; try done.
    + destruct Hcases as (k' & [= <-] & [Hf | Hf]); [congruence|lia].
    + destruct Hcases as (k' & [= <-] & [Hf | Hf]); [congruence|lia].
    + rewrite Hcases in Hin. by apply elem_of_nil in Hin.
    + destruct Hcases as (k' & [= <-] & Hf). lia.
Qed.

(** What the annotation selects. *)
Definition selected (sec : Secret) : string * string :=
  let new := String.eqb (annotation caActiveAnnotation sec) caActiveNew in
  let fps := certBundleFPs (field "tls.crt" sec) in
  (if new then field caNewKeyField sec else field "tls.key" sec, default "" (if new then last fps else head fps)).

Lemma Repr_selected sec p ca :
  Repr sec p -> activeCA p = Some ca -> selected sec = (ca_key ca, sumHex (ca_der ca)).
Proof using Type*.
  unfold selected. destruct p as [|ca' t|o n f]; simpl; intros Hr [= <-].
  - destruct Hr as (_ & Hb & _ & -> & _ & _ & Ha). rewrite (proj2 (String.eqb_neq _ _) Ha).
    unfold certBundleFPs. by rewrite Hb.
  - destruct Hr as (_ & _ & _ & -> & -> & -> & _ & ->). rewrite fps_pair. by destruct f.
Qed.

(** A reload keeps the served signer or installs one that is built from the Secret. *)
Lemma reload_cases caSecret ttl0 skew0 secs g (srv : Server Cert Key) :
  let srv' := (reload caSecret ttl0 skew0 secs g srv).2 in
  srv' = srv \/
  exists sec gen cand w,
    List.find (fun s => String.eqb (s_Name s) caSecret) secs = Some sec /\
    rvToU64 (s_ResourceVersion sec) = Some gen /\
    NewProvidedSignerActive (field "tls.crt" sec) (selected sec).1 (selected sec).2 ttl0 skew0 = Ok (cand, w) /\
    (CAID cand, ActiveFP cand) <> currentSignerKey srv /\ srv' = SetSigner cand gen srv.
Proof.
  unfold reload. destruct (List.find _ secs) as [sec|]; [|by left].
  destruct (String.eqb (field "tls.crt" sec) ""); [by left|].
  destruct (rvToU64 (s_ResourceVersion sec)) as [gen|] eqn:Hrv; [|by left].
  destruct (String.eqb _ ""); [by left|].
  destruct (NewProvidedSignerActive _ _ _ _ _) as [[cand w]|e] eqn:Hc; [|by left].
  destruct (String.eqb (CAID cand) (CurrentCAID srv) && String.eqb (ActiveFP cand) (CurrentActiveFP srv)) eqn:He;
    [by left|]. right. exists sec, gen, cand, w. split; [done|]. split; [done|]. split; [done|]. split; [|done].
  intros Hkey. unfold CurrentCAID, CurrentActiveFP in He. rewrite <- Hkey in He. simpl in He.
  by rewrite !String.eqb_refl in He.
Qed.

Definition servedBuilt (srv : Server Cert Key) : Prop :=
  forall st, signerState srv = Some st -> built (sg st).

Lemma SetSigner_state signer gen (srv : Server Cert Key) :
  signerState (SetSigner signer gen srv) = signerState srv \/
  signerState (SetSigner signer gen srv) = Some (mkSG signer gen).
Proof.
  unfold SetSigner. destruct (signerState srv) as [st|] eqn:Hs; [|by right].
  destruct (gen <=? sg_gen st)%Z; [by left|by right].
Qed.

Lemma reload_built caSecret ttl0 skew0 secs g (srv : Server Cert Key) :
  servedBuilt srv -> servedBuilt (reload caSecret ttl0 skew0 secs g srv).2.
Proof using Type*.
  intros Hb. destruct (reload_cases caSecret ttl0 skew0 secs g srv) as
    [-> | (sec & gen & cand & w & _ & _ & Hc & _ & ->)]; [done|]. intros st.
  destruct (SetSigner_state cand gen srv) as [-> | ->]; [apply Hb|]. intros [= <-]. simpl.
  by apply provided_built in Hc as [? _].
Qed.

(** Two built signers with the same id and fingerprint sign alike. *)
Lemma built_agree s s' :
  built s -> built s' -> CAID s = CAID s' -> ActiveFP s = ActiveFP s' ->
  caCert s = caCert s' /\ certBlocks (BundlePEM s) ≡ₚ certBlocks (BundlePEM s').
Proof using Type*.
  intros (d & Hin & Hp & Hf & Hi) (d' & Hin' & Hp' & Hf' & Hi') Hid Hfp.
  assert (d = d') as <-.
  { apply (sumHex_inj (Cert := Cert) (Pub := Pub) (Key := Key)). congruence. }
  split; [congruence|]. apply FromDER_perm; [by intros He; rewrite He in Hin; apply elem_of_nil in Hin| |congruence].
  by intros He; rewrite He in Hin'; apply elem_of_nil in Hin'.
Qed.

(** A reload over a populated phase, newer than what is served, serves that phase. *)
Lemma reload_serves caSecret ttl0 skew0 secs g (srv : Server Cert Key) sec gen p ca :
  List.find (fun s => String.eqb (s_Name s) caSecret) secs = Some sec ->
  rvToU64 (s_ResourceVersion sec) = Some gen -> Repr sec p -> activeCA p = Some ca ->
  servedBuilt srv -> (forall st, signerState srv = Some st -> (sg_gen st < gen)%Z) ->
  exists st, signerState (reload caSecret ttl0 skew0 secs g srv).2 = Some st /\
    ParseCertificate (ca_der ca) = Some (caCert (sg st)) /\ ActiveFP (sg st) = sumHex (ca_der ca) /\
    certBlocks (BundlePEM (sg st)) ≡ₚ trustedDERs p.
Proof using Type*.
  intros Hfind Hrv Hr Ha Hsb Hnew. destruct (active_trusted _ _ _ Hr Ha) as [Hg Hin].
  pose proof (Repr_selected _ _ _ Hr Ha) as Hsel. pose proof (trustedDERs_spec _ _ Hr) as Hb.
  destruct (provided_pinned ca (field "tls.crt" sec) ttl0 skew0) as (cand & w & Hc & Hp & Hfp);
    [done|by rewrite Hb; apply (trustedDERs_NoDup _ _ Hr)|by rewrite Hb; apply (trusted_parse _ _ Hr)|by rewrite Hb|].
  destruct (provided_built _ _ _ _ _ _ _ Hc) as [Hbuilt Hbun]. rewrite Hb in Hbun.
  assert (Hne : String.eqb (field "tls.crt" sec) "" = false).
  { apply (Repr_crt_nonempty _ _ Hr). by intros ->. }
  unfold reload. rewrite Hfind, Hne, Hrv. unfold selected in Hsel. injection Hsel as Hk Hf.
  rewrite Hk, Hf, (genuine_key _ Hg), Hc.
  destruct (String.eqb (CAID cand) (CurrentCAID srv) && String.eqb (ActiveFP cand) (CurrentActiveFP srv)) eqn:He; simpl.
  - apply andb_prop in He as [Hi Hfp']. apply String.eqb_eq in Hi, Hfp'.
    unfold CurrentCAID, CurrentActiveFP, currentSignerKey in Hi, Hfp'.
    destruct (signerState srv) as [st|] eqn:Hst.
    + exists st. split; [done|]. simpl in *. destruct (built_agree _ _ Hbuilt (Hsb _ Hst) Hi Hfp') as [Hcc Hperm].
      rewrite <- Hcc, <- Hperm, <- Hfp', Hbun. done.
    + simpl in Hfp'. rewrite Hfp in Hfp'. by apply sumHex_nonempty in Hfp'.
  - exists (mkSG cand gen). assert (Hperm : certBlocks (BundlePEM cand) ≡ₚ trustedDERs p) by by rewrite Hbun.
    unfold SetSigner. destruct (signerState srv) as [st|] eqn:Hst; [|done].
    by rewrite (proj2 (Z.leb_gt _ _) (Hnew _ eq_refl)).
Qed.

(** The server part of a reload does not depend on the gauges. *)
Lemma reload_gauges caSecret ttl0 skew0 secs g g' (srv : Server Cert Key) :
  (reload caSecret ttl0 skew0 secs g srv).2 = (reload caSecret ttl0 skew0 secs g' srv).2.
Proof. unfold reload. by repeat case_match. Qed.

Lemma reload_idempotent caSecret ttl0 skew0 secs g g' (srv : Server Cert Key) :
  let srv' := (reload caSecret ttl0 skew0 secs g srv).2 in (reload caSecret ttl0 skew0 secs g' srv').2 = srv'.
Proof.
  intros srv'. assert (Hsame : srv' = srv -> (reload caSecret ttl0 skew0 secs g' srv').2 = srv').
  { intros He. transitivity (reload caSecret ttl0 skew0 secs g srv').2; [apply reload_gauges|].
    rewrite He at 1. done. }
  destruct (reload_cases caSecret ttl0 skew0 secs g' srv') as
    [-> | (sec2 & gen2 & cand2 & w2 & Hf2 & Hrv2 & Hc2 & Hk2 & He2)]; [done|].
  destruct (reload_cases caSecret ttl0 skew0 secs g srv) as
    [He | (sec1 & gen1 & cand1 & w1 & Hf1 & Hrv1 & Hc1 & Hk1 & He1)]; [by apply Hsame|].
  fold srv' in He1. rewrite Hf1 in Hf2. injection Hf2 as <-. rewrite Hc1 in Hc2. injection Hc2 as <- <-.
  destruct (SetSigner_cases cand1 gen1 srv) as [(st & _ & _ & Hst) | (_ & Hst & _)];
    [apply Hsame; congruence|].
  exfalso. apply Hk2. unfold currentSignerKey. by rewrite He1, Hst.
Qed.

Lemma reload_keeps caSecret ttl0 skew0 secs g (srv : Server Cert Key) :
  SignerLoaded srv = true -> SignerLoaded (reload caSecret ttl0 skew0 secs g srv).2 = true.
Proof.
  intros Hl. destruct (reload_cases caSecret ttl0 skew0 secs g srv) as
    [-> | (sec & gen & cand & w & _ & _ & _ & _ & ->)]; [done|].
  unfold SignerLoaded in *. by destruct (SetSigner_state cand gen srv) as [-> | ->].
Qed.

(** *** What a write does to the trust *)

Lemma anext_trust o g p p' :
  anext o g p = Some p' ->
  (forall ca, activeCA p = Some ca -> ca_der ca ∈ trustedDERs p') /\
  (forall d, d ∈ trustedDERs p -> d ∉ trustedDERs p' ->
     exists old new, p = Overlap old new true /\ p' = Single new true /\ d = ca_der old /\
       o = OTrim (sumHex (ca_der new))).
Proof.
  clear PKILaws0 H H0.
  destruct o, p as [|ca0 t|o' n [|]]; simpl; try done; intros Ha.
  - destruct g as [ca|]; simplify_eq/=. split; [done|]. intros d Hd. by apply elem_of_nil in Hd.
  - destruct g as [ca|]; simplify_eq/=. split; [intros ? [= <-]; set_solver|]. intros d Hd Hn. set_solver.
  - destruct (_ || _); simplify_eq/=. split; [intros ? [= <-]; set_solver|]. intros d Hd Hn. done.
  - destruct (String.eqb_spec fp (sumHex (ca_der n))) as [-> |]; simplify_eq/=.
    split; [intros ? [= <-]; set_solver|]. intros d Hd Hn. exists o', n. set_solver.
Qed.

Lemma write_stamps o gen now sec sec' :
  write o gen now sec = Some sec' ->
  match o with
  | OFlip _ => s_Data sec' = s_Data sec /\ s_Annotations sec' !! caGenerationAnnotation = s_Annotations sec !! caGenerationAnnotation
  | _ => exists id, caBundleID (field "tls.crt" sec') = Some id /\
      s_Annotations sec' !! caGenerationAnnotation = Some id
  end.
Proof using Type*.
  unfold write, ensureDecide, rotateDecide, flipDecide, trimDecide. intros Hw. destruct o.
  all: repeat (case_match; simplify_eq/=; try done); lookups; eauto.
Qed.

(** *** Results of the loops *)

Lemma casLoop_ok {V} (d : attempt Key -> Secret -> decision V) v n env r :
  casLoop d v n env = Ok r ->
  exists a sec, a ∈ env /\ a_get a = Ok sec /\
    (d a sec = DDone r \/ exists s, d a sec = DWrite s r /\ v (a_check a) = true).
Proof.
  revert env. induction n as [|n IH]; intros [|a env]; simpl; try done.
  destruct (a_get a) as [sec|[|]] eqn:Hget; try done.
  destruct (d a sec) as [e|w|s w] eqn:Hd; [done|intros [= ->]|].
  - exists a, sec. split; [apply elem_of_cons; by left|]. auto.
  - destruct (a_update a).
    + destruct (v (a_check a)) eqn:Hv; [intros [= ->]|done]. exists a, sec.
      split; [apply elem_of_cons; by left|]. split; [done|]. right. by exists s.
    + intros (a' & sec' & Hin & Hr)%IH. exists a', sec'. split; [apply elem_of_cons; by right|done].
    + done.
Qed.

Lemma splitCertBundle_Some crt certs :
  splitCertBundle crt = Some certs -> certs = encodeCert <$> certBlocks crt.
Proof. unfold splitCertBundle. by destruct (allParse _); [intros [= <-]|]. Qed.

Lemma reencode_count crt b n : reencodeCertBundle crt = Some (b, n) -> n = length (certBlocks crt).
Proof. unfold reencodeCertBundle. by destruct (allParse _); [intros [= _ <-]|]. Qed.

Lemma trim_result fp (env : list (attempt Key)) v :
  TrimCA fp env = Ok v -> fp <> "" /\ certBundleFPs v = [fp].
Proof using Type*.
  unfold TrimCA. destruct (String.eqb_spec fp "") as [|Hfp]; [done|]. intros Hok. split; [done|].
  apply casLoop_ok in Hok as (a & sec & _ & _ & Hd). unfold trimDecide in Hd.
  destruct (splitCertBundle (field "tls.crt" sec)) as [certs|] eqn:Hs; [|by destruct Hd as [?|(? & ? & _)]].
  apply splitCertBundle_Some in Hs as ->. unfold certBundleFPs in *. rewrite length_fmap in Hd.
  destruct Hd as [Hd | (s & Hd & _)]; repeat (case_match; simplify_eq/=; try done).
  - rename select (_ && _ = true) into Hc. apply andb_prop in Hc as [_ Hc]. apply Nat.eqb_eq in Hc.
    rename select (negb (String.eqb _ fp) = false) into Hh. apply negb_false_iff, String.eqb_eq in Hh.
    destruct (certBlocks _) as [|d [|]]; simpl in *; congruence.
  - rename select (negb (String.eqb _ fp) = false) into Hh. apply negb_false_iff, String.eqb_eq in Hh.
    rewrite !fmap_last in *. destruct (last (certBlocks _)) as [d|]; simpl in *; [|done].
    rewrite certBlocks_one. simpl. congruence.
Qed.

Lemma flip_result fp (env : list (attempt Key)) v :
  SetActiveNew fp env = Ok v -> fp <> "" -> last (certBundleFPs v) = Some fp.
Proof.
  intros Hok Hfp. apply casLoop_ok in Hok as (a & sec & _ & _ & Hd). unfold flipDecide in Hd.
  rewrite (proj2 (String.eqb_neq _ _) Hfp) in Hd.
  destruct (splitCertBundle (field "tls.crt" sec)) as [certs|]; [|by destruct Hd as [?|(? & ? & _)]].
  simpl in Hd. destruct (last (certBundleFPs (field "tls.crt" sec))) as [l|] eqn:Hl; simpl in Hd.
  - destruct (String.eqb_spec l fp) as [-> |]; simpl in Hd;
      destruct Hd as [Hd | (s & Hd & _)]; repeat (case_match; simplify_eq/=; try done).
  - destruct (String.eqb_spec "" fp) as [<- |]; simpl in Hd; [done|].
    destruct Hd as [Hd | (s & Hd & _)]; repeat (case_match; simplify_eq/=; try done).
Qed.

Lemma rotate_result ttl (env : list (attempt Key)) v : RotateCA ttl env = Ok v -> length (certBlocks v) = 2.
Proof.
  intros Hok. apply casLoop_ok in Hok as (a & sec & _ & _ & Hd). unfold rotateDecide in Hd.
  destruct (validCAKeypair _ _); [|by destruct Hd as [?|(? & ? & _)]]. simpl in Hd.
  destruct (reencodeCertBundle (field "tls.crt" sec)) as [[old count]|] eqn:Hc; [|by destruct Hd as [?|(? & ? & _)]].
  apply reencode_count in Hc.
  destruct (String.eqb _ caPhaseOverlap && Nat.eqb count 2 && _) eqn:Hov.
  - apply andb_prop in Hov as [Hov _]. apply andb_prop in Hov as [_ Hov]. apply Nat.eqb_eq in Hov.
    destruct Hd as [[= <-] | (s & Hd & _)]; [congruence|done].
  - destruct Hd as [Hd | (s & Hd & _)]; repeat (case_match; simplify_eq/=; try done).
    rename select (reencodeCertBundle (old +:+ _) = _) into Hb. apply reencode_count in Hb.
    rename select (negb (Nat.eqb _ 2) = false) into Hn. apply negb_false_iff, Nat.eqb_eq in Hn. congruence.
Qed.

End lemmas.
End RotationLemmas.

Module RotationProps.
Import EdgeStores Signer SignerLemmas EdgeServer Rotation RotationLemmas.

Section props.
Context {Cert Pub Key : Type} {pki : PKIOps Cert Pub Key} {plaws : PKILaws Cert Pub Key}.
Context {ops : EtagOps} {elaws : EtagLaws}.

(** C17: the four operations implement the rotation as it is described, whoever runs them
    and however their reads and writes interleave: while writes land only over the version
    that was read, the Secret is always in a phase, reached by bootstrap, widening, flip
    and trim in that order, and what one more attempt would write is what the phase says
    (nothing where the phase forbids it). *)
Theorem rotation_refines_phases st0 st p0 :
  Versions st0 -> Repr (current st0) p0 -> rtc sstep st0 st ->
  (exists p, rtc astep p0 p /\ Repr (current st) p /\
     forall o g now, fresh g p -> implements (write o (pems <$> g) now (current st)) (anext o g p)) /\
  (forall ttl key sn now pem, GenerateCA ttl key sn now = Some pem -> exists ca, pem = pems ca /\ genuine ca).
Proof using plaws elaws.
  intros Hv Hr Hrun. split; [|by apply GenerateCA_genuine].
  destruct (run_simulates _ _ _ Hrun Hv Hr) as (p & Hp & Hr' & _). exists p. split; [done|]. split; [done|].
  intros o g now Hf. by apply write_implements.
Qed.

(** C19: no write breaks the fleet's trust. The CA that signs before a write is trusted
    after it; a CA leaves the trust only by a trim, when its successor is the active one
    and is named by the operator; and every write but the flip, which changes no data,
    stamps the guard against regeneration with the id of the new bundle. *)
Theorem rotation_keeps_trust o g now sec p sec' :
  Repr sec p -> fresh g p -> write o (pems <$> g) now sec = Some sec' ->
  (forall ca, activeCA p = Some ca -> ca_der ca ∈ certBlocks (field "tls.crt" sec')) /\
  (forall d, d ∈ certBlocks (field "tls.crt" sec) -> d ∉ certBlocks (field "tls.crt" sec') ->
     exists new, certBlocks (field "tls.crt" sec') = [ca_der new] /\ activeCA p = Some new /\
       o = OTrim (sumHex (ca_der new))) /\
  match o with
  | OFlip _ => s_Data sec' = s_Data sec /\ s_Annotations sec' !! caGenerationAnnotation = s_Annotations sec !! caGenerationAnnotation
  | _ => exists id, caBundleID (field "tls.crt" sec') = Some id /\
      s_Annotations sec' !! caGenerationAnnotation = Some id
  end.
Proof using plaws elaws.
  intros Hr Hf Hw. pose proof (write_implements o g now _ _ Hr Hf) as Hi. rewrite Hw in Hi. unfold implements in Hi.
  destruct (anext o g p) as [p'|] eqn:Ha; [|done]. destruct (anext_trust _ _ _ _ Ha) as [Hact Hdrop].
  rewrite (trustedDERs_spec _ _ Hi), (trustedDERs_spec _ _ Hr). split; [done|].
  split; [|by eapply write_stamps]. intros d Hd Hn. destruct (Hdrop d Hd Hn) as (old & new & -> & -> & -> & ->).
  by exists new.
Qed.

(** C20: issuance is never orphaned. In every populated phase, a reload that sees the
    Secret (with a version newer than what is served) leaves a server that signs under the
    phase's active CA, advertises its fingerprint and serves exactly the phase's CAs;
    reloading again changes nothing, and no reload ever drops the signer or installs one
    whose parts do not belong together. *)
Theorem issuance_never_orphaned caSecret ttl skew secs g (srv : Server Cert Key) sec gen p ca :
  List.find (fun s => String.eqb (s_Name s) caSecret) secs = Some sec ->
  rvToU64 (s_ResourceVersion sec) = Some gen -> Repr sec p -> activeCA p = Some ca ->
  servedBuilt srv -> (forall st, signerState srv = Some st -> (sg_gen st < gen)%Z) ->
  let srv' := (reload caSecret ttl skew secs g srv).2 in
  (exists st, signerState srv' = Some st /\ ParseCertificate (ca_der ca) = Some (caCert (sg st)) /\
     ActiveFP (sg st) = sumHex (ca_der ca) /\ certBlocks (BundlePEM (sg st)) ≡ₚ trustedDERs p) /\
  (forall g', (reload caSecret ttl skew secs g' srv').2 = srv') /\
  (forall secs' g', SignerLoaded (reload caSecret ttl skew secs' g' srv').2 = true /\
     servedBuilt (reload caSecret ttl skew secs' g' srv').2).
Proof using plaws elaws.
  intros Hfind Hrv Hr Ha Hb Hnew srv'. pose proof (reload_serves caSecret ttl skew secs g srv sec gen p ca) as Hs.
  destruct Hs as (st & Hst & Hserves); [done..|]. fold srv' in Hst. split; [by exists st|].
  split; [intros g'; apply reload_idempotent|]. intros secs' g'. split.
  - apply reload_keeps. unfold SignerLoaded. by rewrite Hst.
  - by apply reload_built, reload_built.
Qed.

(** The bootstrap's guard. A Secret with any data, or with the generation annotation,
    is never written by [EnsureCA]. The annotation is only stamped by a write, though: a CA
    that was adopted from the operator and never rotated is replaced by a generated one
    once its data is blanked. *)
Theorem bootstrap_guard :
  (forall gen now sec, field "tls.crt" sec <> "" \/ field "tls.key" sec <> "" \/
     is_Some (s_Annotations sec !! caGenerationAnnotation) -> write OEnsure gen now sec = None) /\
  (forall sec ca g now, Repr sec (Single ca false) -> genuine g ->
     s_Annotations sec !! caGenerationAnnotation = None -> annotation caRotationPhaseAnnotation sec = "" ->
     annotation caActiveAnnotation sec = "" ->
     ensureDecide (Some (pems g)) sec = DDone (field "tls.crt" sec, field "tls.key" sec) /\
     exists sec', write OEnsure (Some (pems g)) now (withData (fun _ => ∅) sec) = Some sec' /\
       certBlocks (field "tls.crt" sec') = [ca_der g]).
Proof using plaws elaws.
  split.
  - intros gen now sec Hs. unfold write, ensureDecide.
    destruct (String.eqb_spec (field "tls.crt" sec) ""), (String.eqb_spec (field "tls.key" sec) ""); simpl;
      try (by destruct (validCAKeypair _ _)).
    destruct Hs as [?|[?|[x ->]]]; done.
  - intros sec ca g now Hr Hg Hgen Hph Hac. split.
    + unfold ensureDecide. rewrite (Repr_pair _ _ Hr). destruct (Repr_crt_nonempty _ _ Hr) as [-> _]; done.
    + assert (Hv : Repr (withData (fun _ => ∅) sec) Virgin) by (repeat split; done).
      pose proof (ensure_implements (Some g) now _ _ Hv) as Hi. simpl in Hi.
      specialize (Hi (conj Hg (not_elem_of_nil _))). unfold implements in Hi.
      destruct (wrote _) as [sec'|] eqn:Hw; [|done]. exists sec'. split; [done|].
      by apply trustedDERs_spec in Hi.
Qed.

(** What the loops answer, whatever the API server does meanwhile: a trim, only the
    one certificate that the operator named, and never without a name; a flip, a bundle
    that ends with the certificate that was pinned; a rotation, two certificates. *)
Theorem rotation_results fp ttl (env : list (attempt Key)) v :
  (TrimCA fp env = Ok v -> fp <> "" /\ certBundleFPs v = [fp]) /\
  (SetActiveNew fp env = Ok v -> fp <> "" -> last (certBundleFPs v) = Some fp) /\
  (RotateCA ttl env = Ok v -> length (certBlocks v) = 2).
Proof using plaws elaws.
  split; [apply trim_result|]. split; [apply flip_result|apply rotate_result].
Qed.

End props.
(** *** Witnesses *)

#[local] Existing Instances SignerProps.toyPKI SignerProps.toyPKILaws SignerProps.lettersEtag SignerProps.lettersEtagLaws.

Definition oldCA : CA := mkCA "Aold" (pem_Encode "PRIVATE KEY" "A").
Definition newCA : CA := mkCA "Bnew" (pem_Encode "PRIVATE KEY" "B").

(** A CA that the operator provided, and the overlap after a rotation and a flip. *)
Definition providedCA : Secret :=
  mkSecret "edge-ca" (<["tls.crt" := encodeCert "Aold"]> (<["tls.key" := ca_key oldCA]> ∅)) ∅ "7".
Definition overlapCA : Secret :=
  mkSecret "edge-ca"
    (<["tls.crt" := encodeCert "Aold" +:+ encodeCert "Bnew"]>
       (<["tls.key" := ca_key oldCA]> (<[caNewKeyField := ca_key newCA]> ∅)))
    (<[caRotationPhaseAnnotation := caPhaseOverlap]> (<[caActiveAnnotation := caActiveNew]> ∅)) "9".

Lemma oldCA_genuine : genuine oldCA.
Proof. exists "Aold", "A"%char. by vm_compute. Defined.
Lemma newCA_genuine : genuine newCA.
Proof. exists "Bnew", "B"%char. by vm_compute. Defined.

Lemma providedCA_Repr : Repr providedCA (Single oldCA false).
Proof. split; [apply oldCA_genuine|]. by vm_compute. Defined.
Lemma overlapCA_Repr : Repr overlapCA (Overlap oldCA newCA true).
Proof. split; [apply oldCA_genuine|]. split; [apply newCA_genuine|]. by vm_compute. Defined.

(** Two rotation jobs read the same Secret; one writes. *)
Lemma rotation_refines_phases_witness :
  exists st, rtc sstep (mkStore providedCA ["7"] []) st /\
    s_ResourceVersion (current st) = "8" /\
    (exists p, rtc astep (Single oldCA false) p /\ Repr (current st) p /\
       forall o g now, fresh g p -> implements (write o (pems <$> g) now (current st)) (anext o g p)).
Proof.
  destruct (write ORotate (pems <$> Some newCA) 5 providedCA) as [sec'|] eqn:Hw; [|by vm_compute in Hw].
  exists (mkStore (withVersion "8" sec') ["8"; "7"] [(ORotate, providedCA); (ORotate, providedCA)]).
  assert (Hrun : rtc sstep (mkStore providedCA ["7"] [])
                   (mkStore (withVersion "8" sec') ["8"; "7"] [(ORotate, providedCA); (ORotate, providedCA)])).
  { eapply rtc_l; [apply (SRead ORotate)|]. eapply rtc_l; [apply (SRead ORotate)|]. eapply rtc_once. simpl.
    apply (SWrite ORotate providedCA (Some newCA) 5 sec' "8"
             (mkStore providedCA ["7"] [(ORotate, providedCA); (ORotate, providedCA)])); [set_solver|done| |done|set_solver].
    split; [apply newCA_genuine|]. vm_compute. set_solver. }
  split; [exact Hrun|]. split; [done|].
  refine (proj1 (rotation_refines_phases (mkStore providedCA ["7"] []) _ _ _ providedCA_Repr Hrun)).
  split; simpl; [set_solver|]. intros o snap Hin. set_solver.
Defined.

Lemma rotation_keeps_trust_witness :
  exists sec', write (OTrim (sumHex "Bnew")) (pems <$> None) 5 overlapCA = Some sec' /\
    ca_der newCA ∈ certBlocks (field "tls.crt" sec') /\ certBlocks (field "tls.crt" sec') = ["Bnew"].
Proof.
  destruct (write (OTrim (sumHex "Bnew")) (pems <$> None) 5 overlapCA) as [sec'|] eqn:Hw; [|by vm_compute in Hw].
  exists sec'. split; [done|].
  destruct (rotation_keeps_trust (OTrim (sumHex "Bnew")) None 5 _ _ _ overlapCA_Repr I Hw) as (Hact & _ & _).
  split; [by apply Hact|]. vm_compute in Hw. injection Hw as <-. vm_compute. reflexivity.
Defined.

(** A server without a signer sees the flipped overlap. *)
Definition noSigner : Server string ascii :=
  NewServer (CPCerts.NewCertStore (fun s => s)) (Authz.NewAuthz ∅).

Lemma issuance_never_orphaned_witness :
  exists st, signerState (reload "edge-ca" 0 0 [overlapCA] (mkGauges None false false) noSigner).2 = Some st /\
    ParseCertificate "Bnew" = Some (caCert (sg st)) /\ ActiveFP (sg st) = sumHex "Bnew" /\
    certBlocks (BundlePEM (sg st)) ≡ₚ ["Aold"; "Bnew"].
Proof.
  apply (issuance_never_orphaned "edge-ca" 0 0 [overlapCA] (mkGauges None false false) noSigner overlapCA 9
           (Overlap oldCA newCA true) newCA); try done; [apply overlapCA_Repr].
Defined.

Lemma bootstrap_guard_witness :
  write OEnsure None 0 overlapCA = None /\
  exists sec', write OEnsure (Some (pems newCA)) 0 (withData (fun _ => ∅) providedCA) = Some sec' /\
    certBlocks (field "tls.crt" sec') = ["Bnew"].
Proof.
  split; [apply (proj1 bootstrap_guard); left; by vm_compute|].
  exact (proj2 (proj2 bootstrap_guard providedCA oldCA newCA 0%Z providedCA_Repr newCA_genuine
    eq_refl eq_refl eq_refl)).
Defined.

Lemma rotation_results_witness :
  exists v, TrimCA (sumHex "Bnew") [mkAttempt (Ok overlapCA) None None 0 Conflict (Err NotFound);
    mkAttempt (Ok overlapCA) None None 0 Updated
      (Ok (mkSecret "edge-ca" (<["tls.crt" := encodeCert "Bnew"]> (<["tls.key" := ca_key newCA]> ∅)) ∅ "10"))] = Ok v /\
    certBundleFPs v = [sumHex "Bnew"].
Proof.
  eexists. split; [vm_compute; reflexivity|].
  refine (proj2 (proj1 (rotation_results (sumHex "Bnew") 0
    [mkAttempt (Ok overlapCA) None None 0 Conflict (Err NotFound);
     mkAttempt (Ok overlapCA) None None 0 Updated
      (Ok (mkSecret "edge-ca" (<["tls.crt" := encodeCert "Bnew"]> (<["tls.key" := ca_key newCA]> ∅)) ∅ "10"))] _) _)).
  vm_compute. reflexivity.
Defined.

End RotationProps.
