(* ===== verification/CpClient.v ===== *)
(** * The edge's client of the control plane

    Models [src/edge/cp.go]: the requests of an edge and what it makes of the responses.
    The HTTP transport is a function from requests to responses.  [network] is the
    transport that reaches a control-plane server of [EdgeServer]; with it the theorems
    compose a fetch, the handler that answers it and the holder that applies it. *)

From S2P Require Import Prelude GoString GoTime GoURL Certs PurgeJournal PurgeEdge EdgeStores ServeMux Reload.
From S2P Require Import RateLimit CacheRule EdgeRules Signer EdgeServer.

Set Default Proof Using "Type".

Module CpClient.
Import EdgeRules EdgeServer.

(** [strings.TrimRight] of one character. *)
Fixpoint trimRightChar (c : ascii) (s : string) : string :=
  match s with
  | "" => ""
  | String d s =>
      match trimRightChar c s with
      | "" => if Ascii.eqb d c then "" else String d ""
      | s => String d s
      end
  end.

Definition maxCertBody : Z := 4194304.
Definition maxWafBody : Z := 67108864.
Definition maxPurgeBody : Z := 16777216.

(** An [http.Request] as the client builds it. *)
Record HTTPRequest := mkHTTP { rMethod : string; rURL : string; rHeader : GoURL.Header; rBody : string }.

Record Client := mkClient { base : string; token : string }.

Inductive cpError := ERequest | EDecode | EStatus (code : Z) | EEventsUnsupported | EContentType.

(** [parses] is [url.Parse] of the endpoint, [appends] [AppendCertsFromPEM]. *)
Definition NewCpClient (parses appends : string -> bool) (endpoint tok caPEM : string) : option Client :=
  if negb (parses endpoint) then None
  else if negb (String.eqb caPEM "") && negb (appends caPEM) then None
  else Some (mkClient (trimRightChar c_slash endpoint) tok).

Section client.
(** [http.Client.Do]: [None] is a transport error. *)
Context (Do : HTTPRequest -> option Response).

Definition authorized (c : Client) : GoURL.Header := HeaderSet "Authorization" ("Bearer " +:+ token c) ∅.

Definition do_ (c : Client) (rawURL ifNoneMatch : string) : option Response :=
  Do (mkHTTP "GET" rawURL
        (if String.eqb ifNoneMatch "" then authorized c
         else HeaderSet "If-None-Match" ifNoneMatch (authorized c)) "").

(** [json.NewDecoder(io.LimitReader(resp.Body, max)).Decode]. *)
Definition decode {A} `{!JSON A} (max : Z) (resp : Response) : option A := unmarshal (limitReader max (RespBody resp)).

(** *** Certificates *)

Record certFetch := mkCertFetch { cf_res : EdgeCerts.CertFetch; cf_CAID : string; cf_SignerFP : string }.

Definition FetchCert `{!JSON certResponse} (c : Client) (sni currentEtag : string) : certFetch :=
  match do_ c (base c +:+ "/v1/certs?sni=" +:+ escape encodeQueryComponent sni) currentEtag with
  | None => mkCertFetch EdgeCerts.FetchErr "" ""
  | Some resp =>
      let caID := HeaderGet "X-Parapet-CA-Id" (RespHeader resp) in
      let signerFP := HeaderGet "X-Parapet-Signing-Cert-Fp" (RespHeader resp) in
      if (Status resp =? 304)%Z then mkCertFetch EdgeCerts.Unchanged caID signerFP
      else if (Status resp =? 200)%Z then
        match decode maxCertBody resp with
        | None => mkCertFetch EdgeCerts.FetchErr "" ""
        | Some body =>
            mkCertFetch (EdgeCerts.Material (cr_ChainPEM body) (cr_KeyPEM body) (HeaderGet "ETag" (RespHeader resp)))
              caID signerFP
        end
      else mkCertFetch EdgeCerts.FetchErr caID signerFP
  end.

(** *** Payloads *)

(** The shape the five payload fetches share; [got] reads a decoded body and an ETag. *)
Definition fetchPayload {A P} `{!JSON A} (c : Client) (path currentEtag : string) (got : A -> string -> P) :
    fetched P :=
  match do_ c (base c +:+ path) currentEtag with
  | None => FetchFailed
  | Some resp =>
      if (Status resp =? 304)%Z then Unchanged
      else if (Status resp =? 200)%Z then
        match decode maxWafBody resp with
        | None => FetchFailed
        | Some body => Fetched (got body (HeaderGet "ETag" (RespHeader resp)))
        end
      else FetchFailed
  end.

(** The maps of a body, in the order in which they are ranged over. *)
Context (ordS : gmap string string -> list (string * string)).
Context (ordD : gmap string (list string) -> list (string * list string)).

(** With the signer's pair, which only a 200 carries. *)
Definition FetchWaf `{!JSON wafResponse} (c : Client) (currentEtag : string) :
    fetched (payload string * string * string) :=
  fetchPayload c "/v1/waf" currentEtag (fun (b : wafResponse) etag =>
    (mkPayload (w_Generation b) (w_GlobalRules b) (ordS (w_Zones b)) (ordS (w_RouteZoneMap b))
       (ordS (w_HostZoneMap b)) [] etag, w_CAID b, w_SigningFP b)).

Definition FetchCoraza `{!JSON corazaResponse} (c : Client) (currentEtag : string) : fetched (payload string) :=
  fetchPayload c "/v1/coraza" currentEtag (fun (b : corazaResponse) etag =>
    mkPayload (c_Generation b) (c_GlobalRules b) (ordS (c_Zones b)) (ordS (c_RouteZoneMap b)) [] [] etag).

Definition FetchRateLimit `{!JSON rateLimitResponse} (c : Client) (currentEtag : string) :
    fetched (payload (list string)) :=
  fetchPayload c "/v1/ratelimit" currentEtag (fun (b : rateLimitResponse) etag =>
    mkPayload (rl_Generation b) (rl_GlobalLimits b) (ordD (rl_Zones b)) (ordS (rl_RouteZoneMap b))
      (ordS (rl_HostZoneMap b)) (rl_Hosts b) etag).

Definition FetchCache `{!JSON cacheResponse} (c : Client) (currentEtag : string) :
    fetched (Z * list string * gmap string (list string) * gmap string string * string) :=
  fetchPayload c "/v1/cache" currentEtag (fun (b : cacheResponse) etag =>
    (ca_Generation b, ca_GlobalOverrides b, ca_Zones b, ca_RouteZoneMap b, etag)).

Definition FetchHosts `{!JSON hostsResponse} (c : Client) (currentEtag : string) :
    fetched (Z * list string * string) :=
  fetchPayload c "/v1/hosts" currentEtag (fun (b : hostsResponse) etag => (h_Generation b, h_Hosts b, etag)).

(** *** Purges *)

Definition FetchPurges `{!JSON PurgeSince} (c : Client) (since : Z) : PurgeEdge.fetch :=
  match do_ c (base c +:+ "/v1/purges?since=" +:+ itoa since) "" with
  | None => PurgeEdge.FetchErr
  | Some resp =>
      if (Status resp =? 404)%Z then PurgeEdge.FetchDisabled
      else if (Status resp =? 200)%Z then
        match decode maxPurgeBody resp with
        | None => PurgeEdge.FetchErr
        | Some body => PurgeEdge.FetchOk body
        end
      else PurgeEdge.FetchErr
  end.

(** *** Issuance *)

(** [parseTime] is [http.ParseTime], in nanoseconds, and [now] the clock. *)
Context (parseTime : string -> option Z).

Definition parseRetryAfter (now : Z) (v : string) : Z :=
  let v := trim_space v in
  if String.eqb v "" then 0
  else match ParseInt v with
  | Some secs => if (secs <? 0)%Z then 0 else wrap64 (secs * second)
  | None =>
      match parseTime v with
      | Some t => if (t - now >? 0)%Z then t - now else 0
      | None => 0
      end
  end%Z.

(** The error of a fetch, with the delay the control plane asked for. *)
Definition FetchEdgeCert `{!JSON edgeCertRequest} `{!JSON edgeCertResponse} (now : Z) (c : Client) (csrPEM : string) :
    result (cpError * Z) edgeCertResponse :=
  match marshal (mkEdgeCertReq csrPEM) with
  | None => Err (ERequest, 0%Z)
  | Some reqBody =>
      match Do (mkHTTP "POST" (base c +:+ "/v1/edge-cert")
                  (HeaderSet "Content-Type" "application/json" (authorized c)) reqBody) with
      | None => Err (ERequest, 0%Z)
      | Some resp =>
          if negb (Status resp =? 200)%Z then
            Err (EStatus (Status resp),
                 if (Status resp =? 429)%Z || (Status resp =? 503)%Z
                 then parseRetryAfter now (HeaderGet "Retry-After" (RespHeader resp)) else 0%Z)
          else match decode maxCertBody resp with
               | None => Err (EDecode, 0%Z)
               | Some body => Ok body
               end
      end
  end.

(** The two fields of the trust bundle that the client decodes. *)
Record trustBundleBody := mkTrustBody { tbb_CAID : string; tbb_SigningFP : string }.

Definition FetchTrustBundleSignal `{!JSON trustBundleBody} (c : Client) : result cpError (string * string) :=
  match do_ c (base c +:+ "/v1/trust-bundle") "" with
  | None => Err ERequest
  | Some resp =>
      if negb (Status resp =? 200)%Z then Err (EStatus (Status resp))
      else match decode maxCertBody resp with
           | None => Err EDecode
           | Some body => Ok (tbb_CAID body, tbb_SigningFP body)
           end
  end.

(** *** Metrics and events *)

Definition PushMetrics (c : Client) (instance contentType body : string) : option cpError :=
  match Do (mkHTTP "POST" (base c +:+ "/v1/metrics")
              (HeaderSet "X-Edge-Instance" instance (HeaderSet "Content-Type" contentType (authorized c))) body) with
  | None => Some ERequest
  | Some resp => if (Status resp <? 200)%Z || (300 <=? Status resp)%Z then Some (EStatus (Status resp)) else None
  end.

(** The stream is the body of the response. *)
Definition OpenEvents (c : Client) : result cpError Response :=
  match Do (mkHTTP "GET" (base c +:+ "/v1/events") (HeaderSet "Accept" "text/event-stream" (authorized c)) "") with
  | None => Err ERequest
  | Some resp =>
      if negb (Status resp =? 200)%Z then
        Err (if (Status resp =? 404)%Z then EEventsUnsupported else EStatus (Status resp))
      else if negb (has_prefix (HeaderGet "Content-Type" (RespHeader resp)) "text/event-stream") then Err EContentType
      else Ok resp
  end.

End client.

(** ** The refresh of the cache overrides *)

Definition RefreshCacheOverrideOnce {Predicate} (unmarshalDoc : string -> option (list CacheRule.Override))
    (NewPredicate : Z -> bool -> string -> option Predicate)
    (res : fetched (Z * list string * gmap string (list string) * gmap string string * string))
    (e : @CacheRule.EdgeCacheOverride Predicate) : CacheRule.EdgeCacheOverride :=
  match res with
  | FetchFailed | Unchanged => e
  | Fetched (gen, docs, zoneDocs, rz, etag) => snd (CacheRule.Update NewPredicate unmarshalDoc gen docs zoneDocs rz etag e)
  end.

(** ** The network to a control plane *)

Section network.
Context {Cert Pub Key : Type} `{!PKIOps Cert Pub Key} `{!EtagOps}.

(** A URL under [endpoint], as a request target; the paths of the client hold no escape. *)
Definition target (endpoint rawURL : string) : option (string * string) :=
  if has_prefix rawURL endpoint
  then Some (Cut "?" (str_drop (String.length endpoint) rawURL)) else None.

(** Every request but those of the network's other users reaches [serve]. *)
Definition network (endpoint : string) (serve : Request -> Response) (r : HTTPRequest) : option Response :=
  match target endpoint (rURL r) with
  | None => None
  | Some (path, query) => Some (serve (mkReq (rMethod r) path query (rHeader r) (rBody r)))
  end.

Context `{!JSON certResponse} `{!JSON wafResponse} `{!JSON corazaResponse} `{!JSON rateLimitResponse}
  `{!JSON cacheResponse} `{!JSON hostsResponse} `{!JSON PurgeSince} `{!JSON trustBundleResponse}.

(** The polled endpoints of a server at rest. *)
Definition servePolls (ord : gmap string string -> list (string * string)) (s : Server Cert Key) (r : Request) :
    Response :=
  match Handler r with
  | Endpoint GetCerts => handleCert s r
  | Endpoint GetWAF => handleWAF ord s r
  | Endpoint GetCoraza => handleCoraza ord s r
  | Endpoint GetRateLimit => handleRateLimit ord s r
  | Endpoint GetCache => handleCache ord s r
  | Endpoint GetHosts => handleHosts s r
  | Endpoint GetPurges => handlePurges s r
  | Endpoint GetTrustBundle => serveBundle r (signerState s)
  | Endpoint _ | MethodNotAllowed => Error ∅ "Method Not Allowed" 405
  | NotFound => Error ∅ "404 page not found" 404
  end.

End network.

End CpClient.

(** ** Lemmas *)

Module CpClientLemmas.
Import EdgeRules Signer EdgeServer EdgeServerLemmas CpClient.

Section lemmas.
Context {Cert Pub Key : Type} `{!PKIOps Cert Pub Key} `{!EtagOps} `{!EtagLaws}.

#[local] Abbreviation server := (Server Cert Key).

(** A request of the client, as the server sees it. *)
Definition pollRequest (tok path query etag : string) : Request :=
  mkReq "GET" path query
    (if String.eqb etag "" then authorized (mkClient "" tok)
     else HeaderSet "If-None-Match" etag (authorized (mkClient "" tok))) "".

Lemma network_do endpoint serve (c : Client) path query etag rest :
  base c = endpoint -> Cut "?" rest = (path, query) ->
  do_ (network endpoint serve) c (base c +:+ rest) etag = Some (serve (pollRequest (token c) path query etag)).
Proof.
  intros Hb Hc. unfold do_, network, target. rewrite Hb. simpl rURL. rewrite has_prefix_app, str_drop_app, Hc.
  done.
Qed.

(** A token as an operator writes it. *)
Definition plainToken (tok : string) : Prop := tok <> "" /\ trim_space tok = tok.

Lemma bearer_header tok (r : Request) :
  plainToken tok -> HeaderGet "Authorization" (ReqHeader r) = "Bearer " +:+ tok -> bearer r = Some tok.
Proof.
  intros [Hne Htrim] Hget. unfold bearer. rewrite Hget.
  assert (Hlen : (String.length ("Bearer " +:+ tok) <=? 7)%nat = false).
  { rewrite str_length_app. by destruct tok. }
  rewrite Hlen. change (str_take 7 ("Bearer " +:+ tok)) with (str_take (String.length "Bearer ") ("Bearer " +:+ tok)).
  rewrite str_take_app. change (str_drop 7 ("Bearer " +:+ tok)) with (str_drop (String.length "Bearer ") ("Bearer " +:+ tok)).
  by rewrite str_drop_app, Htrim.
Qed.

Lemma bearer_poll tok path query etag :
  plainToken tok -> bearer (pollRequest tok path query etag) = Some tok.
Proof.
  intros Ht. apply bearer_header; [done|]. simpl ReqHeader.
  destruct (String.eqb etag ""); [|rewrite HeaderGet_Set_ne by done]; apply HeaderGet_Set.
Qed.

Lemma authenticated_poll (s : server) tok path query etag :
  plainToken tok -> Authz.Known (authz s) tok = true ->
  authenticated s (pollRequest tok path query etag) = Some tok.
Proof. intros Ht Hk. unfold authenticated. by rewrite bearer_poll, Hk. Qed.

Lemma inm_poll tok path query etag :
  HeaderGet "If-None-Match" (ReqHeader (pollRequest tok path query etag)) = etag.
Proof.
  unfold pollRequest. simpl ReqHeader. destruct (String.eqb_spec etag "") as [->|]; [|apply HeaderGet_Set].
  unfold authorized. by rewrite HeaderGet_Set_ne.
Qed.

(** What an edge holds as a validator: nothing, or what a server gave it. *)
Definition validator (etag : string) : Prop := etag = "" \/ exists body, etag = EdgeStores.etagOfString body.

Lemma revalidated_poll tok path query etag body :
  validator etag ->
  revalidated (pollRequest tok path query etag) (EdgeStores.etagOfString body) =
  String.eqb etag (EdgeStores.etagOfString body).
Proof using Type*.
  intros [->|[b ->]]; unfold revalidated; rewrite inm_poll; [done|].
  destruct (String.eqb_spec (EdgeStores.etagOfString b) (EdgeStores.etagOfString body)) as [He|He].
  - apply etagOfString_inj in He as ->. simpl. by apply etagMatch_etag.
  - apply andb_false_intro2. apply not_true_iff_false. intros Hm%etagMatch_etag. congruence.
Qed.

Lemma limitReader_all n s : (Z.of_nat (String.length s) <= n)%Z -> limitReader n s = s.
Proof. intros Hn. unfold limitReader. by rewrite (proj2 (Z.leb_le _ _) Hn). Qed.

(** A query of one setting. *)
Lemma QueryGet_setting k v (r : Request) : RawQuery r = encodeSetting k v -> QueryGet k r = v.
Proof.
  intros Hr. unfold QueryGet, ParseQuery. rewrite Hr.
  assert (Hamp : mem_char "&" (encodeSetting k v) = false).
  { unfold encodeSetting. rewrite mem_char_app. cbn [mem_char]. by rewrite !escape_no_sep. }
  rewrite split_char_none by done. simpl. rewrite addSetting_encode, lookup_empty. simpl.
  by rewrite lookup_insert_eq.
Qed.

Lemma escape_num s : all_chars num_char s = true -> escape encodeQueryComponent s = s.
Proof.
  induction s as [|c s IH]; [done|]. simpl. intros [Hc Hs]%andb_prop. rewrite IH by done.
  clear -Hc. destruct c as [[] [] [] [] [] [] [] []]; vm_compute in Hc; try discriminate; reflexivity.
Qed.

(** Decoding stops after the first value. *)
Class JSONStream (A : Type) `{!JSON A} : Prop := unmarshal_newline s : unmarshal (s +:+ newline) = unmarshal s.

Lemma decode_encoded {A} `{!JSON A} `{!JSONLaws A} `{!JSONStream A} max h (a : A) :
  jvalid a -> (Z.of_nat (String.length (RespBody (encodeBody h a))) <= max)%Z -> decode max (encodeBody h a) = Some a.
Proof.
  intros Hv Hlen. destruct (unmarshal_marshal a Hv) as (b & Hm & Hu). unfold decode.
  rewrite limitReader_all by done. unfold encodeBody. simpl. by rewrite Hm, unmarshal_newline.
Qed.

(** A fetch of a payload that a server serves. *)
Lemma fetchPayload_serves {A P} `{!JSON A} `{!JSONLaws A} `{!Versioned A} Do (c : Client) path etag
    (got : A -> string -> P) r a :
  do_ Do c (base c +:+ path) etag = Some (servePayload r a) ->
  jvalid a -> jvalid (zeroed a) ->
  (forall body, marshal a = Some body -> (Z.of_nat (String.length body) <= maxWafBody)%Z) ->
  exists body, marshal (zeroed a) = Some body /\
    fetchPayload Do c path etag got =
    if revalidated r (EdgeStores.etagOfString body) then Unchanged else Fetched (got a (EdgeStores.etagOfString body)).
Proof.
  intros Hdo Hv Hz Hlen. destruct (unmarshal_marshal a Hv) as (b & Hm & Hu).
  destruct (unmarshal_marshal (zeroed a) Hz) as (b0 & Hm0 & _). exists b0. split; [done|].
  unfold fetchPayload. rewrite Hdo. unfold servePayload. rewrite Hm, Hm0.
  destruct (revalidated r _); simpl; [done|].
  unfold decode. rewrite limitReader_all by by apply Hlen. simpl. rewrite Hu.
  by rewrite HeaderGet_Set_ne, HeaderGet_Set by done.
Qed.

End lemmas.
End CpClientLemmas.

Module CpClientProps.
Import EdgeRules Signer EdgeServer EdgeServerLemmas CpClient CpClientLemmas.

Section polling.
Context {Cert Pub Key : Type} {pki : PKIOps Cert Pub Key} {ops : EtagOps} {elaws : EtagLaws}.
Context {Predicate FixedState M : Type} {mux : MuxOps string M}.
Context (NewPredicate : Z -> bool -> string -> option Predicate).
Context (unmarshalLimits : string -> option (list RateLimit.Limit)).
Context (ParsePrefix : string -> option RateLimit.Prefix) (fixedNew : FixedState).
Context (Country : option (RateLimit.Request -> string)) (ASN : option (RateLimit.Request -> Z)).
Context {jcert : JSON certResponse} {jwaf : JSON wafResponse} {jcor : JSON corazaResponse}
  {jrl : JSON rateLimitResponse} {jrl_laws : JSONLaws rateLimitResponse} {jca : JSON cacheResponse}
  {jho : JSON hostsResponse} {jpu : JSON PurgeSince} {jtb : JSON trustBundleResponse}.
Context (ord ordS : gmap string string -> list (string * string)).
Context (ordD : gmap string (list string) -> list (string * list string)).

#[local] Abbreviation server := (Server Cert Key).
#[local] Abbreviation edge := (@EdgeRateLimit Predicate FixedState M).

(** What a server has for a token. *)
Definition rlResponse (s : server) (tok : string) (st : EdgeStores.Store (list string)) : rateLimitResponse :=
  let snap := scopedFor ord s tok st in
  mkRLResp (EdgeStores.s_generation snap) (EdgeStores.s_global snap) (EdgeStores.s_zones snap)
    (EdgeStores.s_routeZone snap) (EdgeStores.s_hostZone snap) (EdgeStores.s_hosts snap).

(** One poll of an edge over the network. *)
Definition pollRL (c : Client) (s : server) (e : edge) : edge :=
  RefreshRateLimitOnce NewPredicate unmarshalLimits ParsePrefix fixedNew Country ASN
    (FetchRateLimit (network (base c) (servePolls ord s)) ordS ordD c (e_etag (rl_edge e))) e.

Definition applyRL (a : rateLimitResponse) (etag : string) (e : edge) : edge * option scope :=
  UpdateRateLimit NewPredicate unmarshalLimits ParsePrefix fixedNew Country ASN
    (mkPayload (rl_Generation a) (rl_GlobalLimits a) (ordD (rl_Zones a)) (ordS (rl_RouteZoneMap a))
       (ordS (rl_HostZoneMap a)) (rl_Hosts a) etag) e.

(** A server that an edge with this token can poll. *)
Record polled (c : Client) (s : server) (a : rateLimitResponse) (etag : string) : Prop := {
  pl_known : Authz.Known (authz s) (token c) = true;
  pl_store : exists st, ratelimit s = Some st /\ a = rlResponse s (token c) st;
  pl_valid : jvalid a /\ jvalid (zeroed a);
  pl_size : forall body, marshal a = Some body -> (Z.of_nat (String.length body) <= maxWafBody)%Z;
  pl_etag : exists body, marshal (zeroed a) = Some body /\ etag = EdgeStores.etagOfString body;
}.

Lemma pollRL_spec c s a etag e :
  plainToken (token c) -> polled c s a etag -> validator (e_etag (rl_edge e)) ->
  pollRL c s e = if String.eqb (e_etag (rl_edge e)) etag then e else fst (applyRL a etag e).
Proof using elaws.
  intros Htok [Hk (st & Hst & ->) [Hv Hz] Hsize (body & Hb & ->)] Hval. unfold pollRL, FetchRateLimit.
  set (et := e_etag (rl_edge e)) in *.
  assert (Hdo : do_ (network (base c) (servePolls ord s)) c (base c +:+ "/v1/ratelimit") et =
                Some (servePayload (pollRequest (token c) "/v1/ratelimit" "" et) (rlResponse s (token c) st))).
  { rewrite (network_do (base c) _ c "/v1/ratelimit" "") by done. f_equal. unfold servePolls. simpl.
    unfold handleRateLimit. rewrite authenticated_poll by done. by rewrite Hst. }
  destruct (fetchPayload_serves _ c "/v1/ratelimit" et (fun b etag =>
    mkPayload (rl_Generation b) (rl_GlobalLimits b) (ordD (rl_Zones b)) (ordS (rl_RouteZoneMap b))
      (ordS (rl_HostZoneMap b)) (rl_Hosts b) etag) _ _ Hdo Hv Hz Hsize) as (body' & Hb' & ->).
  rewrite Hb in Hb'. injection Hb' as <-. rewrite revalidated_poll by done.
  by destruct (String.eqb et _).
Qed.

Lemma applyRL_etag a etag e :
  snd (applyRL a etag e) = None -> e_etag (rl_edge (fst (applyRL a etag e))) = etag.
Proof.
  unfold applyRL, UpdateRateLimit, Update. simpl. repeat case_match; simplify_eq/=; done.
Qed.

Lemma applyRL_rejected a etag e :
  snd (applyRL a etag e) <> None -> e_etag (rl_edge (fst (applyRL a etag e))) = e_etag (rl_edge e).
Proof.
  unfold applyRL, UpdateRateLimit, Update. simpl. repeat case_match; simplify_eq/=; done.
Qed.

(** Polling settles. A poll either finds the edge current or applies exactly what the
    server has for its token. Once a payload applied whole, no further poll changes the
    edge, at that replica or at any other whose payload is the same but for the
    generation; while one is rejected, every poll applies it again. *)
Theorem polling_settles c s a etag e :
  plainToken (token c) -> polled c s a etag -> validator (e_etag (rl_edge e)) ->
  (pollRL c s e = e /\ e_etag (rl_edge e) = etag \/ pollRL c s e = fst (applyRL a etag e)) /\
  (snd (applyRL a etag e) = None ->
   forall s' a' etag', polled c s' a' etag' -> zeroed a' = zeroed a -> pollRL c s' (pollRL c s e) = pollRL c s e) /\
  (snd (applyRL a etag e) <> None -> e_etag (rl_edge e) <> etag ->
   pollRL c s (pollRL c s e) = fst (applyRL a etag (pollRL c s e))).
Proof using elaws.
  intros Htok Hp Hval. pose proof (pollRL_spec c s a etag e Htok Hp Hval) as Hpoll.
  split; [|split].
  - rewrite Hpoll. destruct (String.eqb_spec (e_etag (rl_edge e)) etag); auto.
  - intros Hclean s' a' etag' Hp' Hza.
    assert (etag' = etag) as ->.
    { destruct Hp as [_ _ _ _ (b & Hb & ->)], Hp' as [_ _ _ _ (b' & Hb' & ->)]. rewrite Hza in Hb'. congruence. }
    assert (He : e_etag (rl_edge (pollRL c s e)) = etag).
    { rewrite Hpoll. destruct (String.eqb_spec (e_etag (rl_edge e)) etag); [done|]. by apply applyRL_etag. }
    rewrite (pollRL_spec c s' a' etag (pollRL c s e) Htok Hp'); [by rewrite He, String.eqb_refl|].
    rewrite He. destruct Hp as [_ _ _ _ (b & _ & ->)]. right. by exists b.
  - intros Hrej Hne. assert (He : e_etag (rl_edge (pollRL c s e)) = e_etag (rl_edge e)).
    { rewrite Hpoll, (proj2 (String.eqb_neq _ _) Hne). by apply applyRL_rejected. }
    rewrite (pollRL_spec c s a etag (pollRL c s e) Htok Hp) by by rewrite He.
    by rewrite He, (proj2 (String.eqb_neq _ _) Hne).
Qed.

End polling.

Section purges.
Context {Cert Pub Key : Type} {pki : PKIOps Cert Pub Key} {ops : EtagOps}.
Context {jcert : JSON certResponse} {jwaf : JSON wafResponse} {jcor : JSON corazaResponse}
  {jrl : JSON rateLimitResponse} {jca : JSON cacheResponse} {jho : JSON hostsResponse}
  {jpu : JSON PurgeSince} {jpu_laws : JSONLaws PurgeSince} {jpu_stream : JSONStream PurgeSince}
  {jtb : JSON trustBundleResponse}.

(** A purge poll crosses the wire intact. For every cursor the edge prints, what it
    decodes is what the control plane's journal has since that cursor for the hosts of
    its token; so the guarantees about deliveries hold for polls over the network. *)
Theorem purge_poll_roundtrip ord (c : Client) (s : Server Cert Key) p since :
  plainToken (token c) -> Authz.Known (authz s) (token c) = true -> purge s = Some p ->
  (0 <= since <= maxU64)%Z -> let answer := Since since (allow s (token c)) p in
  jvalid answer -> (Z.of_nat (String.length (RespBody (encodeBody jsonHeader answer))) <= maxPurgeBody)%Z ->
  FetchPurges (network (base c) (servePolls ord s)) c since = PurgeEdge.FetchOk answer.
Proof using jpu_laws jpu_stream.
  intros Htok Hk Hp Hs answer Hv Hlen. unfold FetchPurges.
  assert (Hcut : Cut "?" ("/v1/purges?since=" +:+ itoa since) = ("/v1/purges", "since=" +:+ itoa since)) by done.
  rewrite (network_do _ _ c _ _ _ _ eq_refl Hcut). set (r := pollRequest _ _ _ _).
  assert (Hserve : servePolls ord s r = encodeBody jsonHeader answer).
  { unfold servePolls. simpl. unfold handlePurges. unfold r. rewrite authenticated_poll by done. rewrite Hp.
    assert (Hq : QueryGet "since" (pollRequest (token c) "/v1/purges" ("since=" +:+ itoa since) "") = itoa since).
    { apply QueryGet_setting. unfold encodeSetting. by rewrite (escape_num (itoa since)) by apply itoa_num. }
    rewrite Hq. pose proof (ParseUint_itoa since Hs) as Hparse.
    destruct (String.eqb_spec (itoa since) "") as [He|_]; [by rewrite He in Hparse|]. by rewrite Hparse. }
  rewrite Hserve. cbn [Status encodeBody Z.eqb].
  by rewrite decode_encoded.
Qed.

End purges.

(** *** Witnesses *)

#[local] Existing Instances SignerProps.toyPKI SignerProps.lettersEtag SignerProps.lettersEtagLaws litMux.

#[local] Instance noJSON {A} : JSON A | 10 := { marshal _ := None; EdgeServer.unmarshal _ := None }.

(** A codec for payloads of one global document, with generations 0 and 1. *)
#[local] Instance limitsJSON : JSON rateLimitResponse := {
  marshal a := Some ((if (rl_Generation a =? 0)%Z then "0" else "1") +:+ default "" (head (rl_GlobalLimits a)));
  EdgeServer.unmarshal s :=
    match s with
    | String c d => Some (mkRLResp (if Ascii.eqb c "0" then 0 else 1) [d] ∅ ∅ ∅ [])
    | "" => None
    end;
}.
#[local] Instance limitsJSONLaws : JSONLaws rateLimitResponse.
Proof.
  refine {| jvalid a := (exists g d, (g = 0 \/ g = 1)%Z /\ a = mkRLResp g [d] ∅ ∅ ∅ []) |}.
  intros a (g & d & Hg & ->). eexists. split; [reflexivity|]. by destruct Hg as [-> | ->].
Defined.

Definition limitsServer (gen : Z) : Server string ascii :=
  mkServer (CPCerts.mkStore ∅ true "") (Authz.NewAuthz {[ "tok" := ["app.example"] ]}) None None
    (Some (EdgeStores.mkStore ["limits: []"] ∅ ∅ ∅ [] gen "")) None None None "" None 0 false None 0 None 0 [].

Definition edgeClient : Client := mkClient "https://cp" "tok".

(** Every document is one limit. *)
Definition demoLimits (doc : string) : option (list RateLimit.Limit) :=
  Some [RateLimit.mkLimit "a" [] 2 "1s" "" "" 0 "" [] ""].

Definition demoPoll : Server string ascii -> @EdgeRateLimit unit unit (gmap (string * list string * bool) (string * string)) ->
    @EdgeRateLimit unit unit (gmap (string * list string * bool) (string * string)) :=
  pollRL (fun _ _ _ => None) demoLimits (fun _ => None) tt None None map_to_list map_to_list map_to_list
    edgeClient.

Lemma limitsServer_polled gen :
  (gen = 0 \/ gen = 1)%Z ->
  polled map_to_list edgeClient (limitsServer gen) (mkRLResp gen ["limits: []"] ∅ ∅ ∅ [])
    (EdgeStores.etagOfString "0limits: []").
Proof.
  intros Hg. split; simpl.
  - vm_compute. reflexivity.
  - eexists. split; reflexivity.
  - split; [by exists gen, "limits: []"|]. exists 0%Z, "limits: []". auto.
  - intros body [= <-]. by destruct Hg as [-> | ->].
  - by exists "0limits: []".
Defined.

Lemma edgeToken_plain : plainToken (token edgeClient).
Proof. done. Defined.

(** A poll of one replica, then of another. *)
Lemma polling_settles_witness :
  let e := NewEdgeRateLimit (fun _ _ _ => None) demoLimits (fun _ => None) tt None None in
  demoPoll (limitsServer 0) (demoPoll (limitsServer 1) e) = demoPoll (limitsServer 1) e /\
  e_generation (rl_edge (demoPoll (limitsServer 1) e)) = 1%Z.
Proof.
  intros e. split; [|vm_compute; reflexivity].
  pose proof (polling_settles (fun _ _ _ => None) demoLimits (fun _ => None) tt None None
    map_to_list map_to_list map_to_list edgeClient (limitsServer 1) _ _ e
    edgeToken_plain (limitsServer_polled 1 (or_intror eq_refl)) (or_introl eq_refl)) as Hs.
  refine (proj1 (proj2 Hs) eq_refl _ _ _ (limitsServer_polled 0 (or_introl eq_refl)) eq_refl).
Defined.

(** A codec for the answer of an empty journal. *)
#[local] Instance sinceJSON : JSON PurgeSince := {
  marshal _ := Some "E";
  EdgeServer.unmarshal s := match s with String "E" _ => Some (mkSince [] 0 false) | _ => None end;
}.
#[local] Instance sinceJSONLaws : JSONLaws PurgeSince.
Proof. refine {| jvalid a := a = mkSince [] 0 false |}. intros a ->. by eexists. Defined.
#[local] Instance sinceJSONStream : JSONStream PurgeSince.
Proof. intros [|c s]; [done|]. reflexivity. Qed.

Definition purgeServer : Server string ascii :=
  setPurge (NewPurgeStore 16) (limitsServer 0).

Lemma purge_poll_roundtrip_witness :
  FetchPurges (network "https://cp" (servePolls map_to_list purgeServer)) edgeClient 0 =
  PurgeEdge.FetchOk (mkSince [] 0 false).
Proof.
  apply (purge_poll_roundtrip map_to_list edgeClient purgeServer (NewPurgeStore 16) 0 edgeToken_plain);
    try (vm_compute; done); done.
Defined.

End CpClientProps.
