(* ===== verification/Remint.v ===== *)
(** * The edge's client certificate

    Models [src/edge/clientcert.go] (the certificate an edge presents to the core, the id
    of its CA set and the CA that signed it), [src/edge/remint.go] (the coordinator of
    every re-mint: observation of the control plane's target, single flight, backoff and
    the two breakers, renewal) and [RefreshEdgeCertOnce] of [src/edge/refresh.go].

    The coordinator's operations are functions of its state and the clock; [step] is the
    coordinator among its callers and the one mint in flight.  The last theorem composes a
    mint with the control plane's handler and signer. *)

From Stdlib Require Import SpecFloat.
From S2P Require Import Prelude GoString GoTime GoURL Certs EdgeStores EdgeRules Signer EdgeServer CpClient Rotation.

Set Default Proof Using "Type".

(** [tls.X509KeyPair] (the DER of the chain, and the leaf when it is kept parsed), the key
    id a certificate names as its issuer's, the check of a signature, and the making of a
    key and of a request. *)
Class TLSOps (Cert Pub Key : Type) := {
  X509KeyPair : string -> string -> option (list string * option Cert);
  AuthorityKeyId : Cert -> string;
  CheckSignatureFrom : Cert -> Cert -> bool;
  CreateCertificateRequest : Key -> option string;
}.

(** What the theorems use of them: the pair is the blocks of the chain, with the first
    one's certificate if any; a key that is the leaf's pairs; a created certificate has
    the key it was created for and names its issuer's key id; a request that was created
    parses, signed. *)
Class TLSLaws (Cert Pub Key : Type) `{!PKIOps Cert Pub Key} `{!TLSOps Cert Pub Key}
    (ParseCertificateRequest : string -> option (Pub * bool)) : Prop := {
  X509KeyPair_blocks chain key ders leaf :
    X509KeyPair chain key = Some (ders, leaf) ->
    ders = Signer.certBlocks chain /\ (leaf = None \/ leaf = head ders ≫= ParseCertificate);
  X509KeyPair_pairs chain key der ders c k :
    Signer.certBlocks chain = der :: ders -> ParseCertificate der = Some c ->
    Signer.parsePrivateKey key = Some k -> PubEqual (PublicKey c) (Public k) = true -> X509KeyPair chain key <> None;
  created_leaf t parent pub key der leaf :
    CreateCertificate t parent pub key = Some der -> ParseCertificate der = Some leaf ->
    PublicKey leaf = pub /\
    (SubjectKeyId (fieldsOf parent) <> "" -> AuthorityKeyId leaf = SubjectKeyId (fieldsOf parent));
  created_request key der :
    CreateCertificateRequest key = Some der -> ParseCertificateRequest der = Some (Public key, true);
}.

Module Remint.
Import EdgeStores EdgeRules Signer EdgeServer CpClient.

Section clientcert.
Context {Cert Pub Key : Type} `{!PKIOps Cert Pub Key} `{!TLSOps Cert Pub Key} `{!EtagOps}.

(** ** The certificate in force *)

Record tlsCertificate := mkTLS { Certificate : list string; Leaf : option Cert }.

Record ClientCertStore := mkCCS {
  cur : option tlsCertificate;
  caid : option string;
  signerFP : option string;
}.

Definition NewClientCertStore : ClientCertStore := mkCCS None None None.

Definition GetClientCertificate (s : ClientCertStore) : tlsCertificate := default (mkTLS [] None) (cur s).
Definition Loaded (s : ClientCertStore) : bool := match cur s with Some _ => true | None => false end.
Definition CAID (s : ClientCertStore) : string := default "" (caid s).
Definition SignerFP (s : ClientCertStore) : string := default "" (signerFP s).

(** The loop over the CAs: the index of the match, [None] when there are two. *)
Fixpoint matchLoop (p : Cert -> bool) (cas : list Cert) (i : nat) (m : option nat) : option (option nat) :=
  match cas with
  | [] => Some m
  | c :: cas =>
      if p c then match m with Some _ => None | None => matchLoop p cas (S i) (Some i) end
      else matchLoop p cas (S i) m
  end.

Definition issuerIndex (leaf : Cert) (cas : list Cert) : option (option nat) :=
  match (if String.eqb (AuthorityKeyId leaf) "" then Some None
         else matchLoop (fun c => String.eqb (SubjectKeyId (fieldsOf c)) (AuthorityKeyId leaf)) cas 0 None) with
  | None => None
  | Some (Some i) => Some (Some i)
  | Some None => matchLoop (CheckSignatureFrom leaf) cas 0 None
  end.

Definition deriveIssuerFP (leaf : option Cert) (chain : list string) : string :=
  match leaf, chain with
  | Some leaf, _ :: ((_ :: _) as caDERs) =>
      match mapM ParseCertificate caDERs with
      | None => ""
      | Some cas =>
          match issuerIndex leaf cas with
          | Some (Some i) => match caDERs !! i with Some der => sumHex der | None => "" end
          | _ => ""
          end
      end
  | _, _ => ""
  end.

(** [None] is an error: the prior pair stays. *)
Definition Update (chainPEM keyPEM : string) (s : ClientCertStore) : option ClientCertStore :=
  match X509KeyPair chainPEM keyPEM with
  | None => None
  | Some (ders, leaf) =>
      let leaf := match leaf, ders with
                  | None, der :: _ => ParseCertificate der
                  | _, _ => leaf
                  end in
      let caID := match ders with _ :: ((_ :: _) as cas) => default "" (FromDER cas) | _ => "" end in
      Some (mkCCS (Some (mkTLS ders leaf)) (Some caID) (Some (deriveIssuerFP leaf ders)))
  end.

Definition Validity (s : ClientCertStore) : option (Z * Z) :=
  match cur s with
  | Some c => match Leaf c with
              | Some leaf => Some (NotBefore (fieldsOf leaf), NotAfter (fieldsOf leaf))
              | None => None
              end
  | None => None
  end.

(** ** One mint *)

Inductive mintResult := MOk | MKeygenFail | MCsrFail | MFetchFail | MMarshalFail | MStoreFail.

(** [key] is the key generated, [fetch] the exchange with the control plane. *)
Definition RefreshEdgeCertOnce (key : option Key) (fetch : string -> result (cpError * Z) edgeCertResponse)
    (s : ClientCertStore) : mintResult * Z * ClientCertStore :=
  match key with
  | None => (MKeygenFail, 0%Z, s)
  | Some key =>
      match CreateCertificateRequest key with
      | None => (MCsrFail, 0%Z, s)
      | Some csrDER =>
          match fetch (pem_Encode "CERTIFICATE REQUEST" csrDER) with
          | Err (_, retryAfter) => (MFetchFail, retryAfter, s)
          | Ok res =>
              match MarshalPKCS8 key with
              | None => (MMarshalFail, 0%Z, s)
              | Some keyDER =>
                  match Update (ec_ChainPEM res) (pem_Encode "PRIVATE KEY" keyDER) s with
                  | None => (MStoreFail, 0%Z, s)
                  | Some s' => (MOk, 0%Z, s')
                  end
              end
          end
      end
  end.

(** ** The coordinator *)

Record RemintConfig := mkCfg {
  Jitter : Z;
  BackoffBase : Z;
  BackoffMax : Z;
  Cooldown : Z;
  BreakerK : Z;
  ProactiveJ : Z;
  RenewFraction : f64;
}.

Inductive trigger := Proactive | Reactive | Timer.

(** The zero [time.Time]: 1 January of year 1, in Unix nanoseconds. *)
Definition zeroTime : Z := (-62135596800 * second)%Z.

Record Coordinator := mkCoord {
  cfg : RemintConfig;
  inFlight : bool;
  backoff : Z;
  reactiveNoFlip : Z;
  reactiveBreakerEnd : Z;
  proactiveNoConverge : Z;
  proactiveBreakerEnd : Z;
  lastTarget : string;
  lastTargetFP : string;
}.

Definition floorCfg (c : RemintConfig) : RemintConfig :=
  let orElse (v d : Z) := if (v <=? 0)%Z then d else v in
  let max := orElse (BackoffMax c) (300 * second)%Z in
  mkCfg (orElse (Jitter c) (60 * second)%Z) (orElse (BackoffBase c) (2 * second)%Z) max
    (orElse (Cooldown c) (wrap64 (5 * max))%Z) (orElse (BreakerK c) 3%Z) (orElse (ProactiveJ c) 5%Z)
    (if SFleb (RenewFraction c) (f64_of_Z 0) || SFleb (f64_of_Z 1) (RenewFraction c)
     then f64_div (f64_of_Z 66) (f64_of_Z 100) else RenewFraction c).

Definition NewRemintCoordinator (c : RemintConfig) : Coordinator :=
  let c := floorCfg c in mkCoord c false (BackoffBase c) 0 zeroTime 0 zeroTime "" "".

(** [Trigger]: whether a mint starts. *)
Definition Trigger (t : trigger) (now : Z) (c : Coordinator) : Coordinator * bool :=
  if inFlight c then (c, false)
  else
    let open := match t with
                | Reactive => (now <? reactiveBreakerEnd c)%Z
                | Proactive => (now <? proactiveBreakerEnd c)%Z
                | Timer => false
                end in
    if open then (c, false)
    else (mkCoord (cfg c) true (backoff c) (reactiveNoFlip c) (reactiveBreakerEnd c) (proactiveNoConverge c)
            (proactiveBreakerEnd c) (lastTarget c) (lastTargetFP c), true).

Definition mismatch (s : ClientCertStore) (target targetFP : string) : bool :=
  (negb (String.eqb (CAID s) "") && negb (String.eqb target (CAID s))) ||
  (negb (String.eqb targetFP "") && negb (String.eqb (SignerFP s) "") && negb (String.eqb targetFP (SignerFP s))).

Definition Observe (target targetFP : string) (s : ClientCertStore) (now : Z) (c : Coordinator) :
    Coordinator * bool :=
  if String.eqb target "" then (c, false)
  else
    let c := mkCoord (cfg c) (inFlight c) (backoff c) (reactiveNoFlip c) (reactiveBreakerEnd c)
               (proactiveNoConverge c) (proactiveBreakerEnd c) target targetFP in
    if negb (mismatch s target targetFP) then (c, false) else Trigger Proactive now c.

(** [time.Sub] saturates; the product is a double. *)
Definition renewalDue (s : ClientCertStore) (now : Z) (fraction : f64) : bool :=
  match Validity s with
  | None => true
  | Some (nb, na) =>
      let lifetime := clamp64 (na - nb) in
      if (lifetime <=? 0)%Z then false
      else (clamp64 (na - now) <=? f64_to_Z (f64_mul fraction (f64_of_Z lifetime)))%Z
  end.

Definition MaybeRenew (s : ClientCertStore) (now : Z) (c : Coordinator) : Coordinator * bool :=
  if renewalDue s now (RenewFraction (cfg c)) then Trigger Timer now c else (c, false).

(** *** A mint: what it reads when it starts, and its scoring *)

Record minting := mkMint {
  m_trigger : trigger;
  m_target : string;
  m_targetFP : string;
  m_backoff : Z;
  m_beforeCA : string;
  m_beforeFP : string;
}.

Definition beginMint (t : trigger) (s : ClientCertStore) (c : Coordinator) : minting :=
  mkMint t (lastTarget c) (lastTargetFP c) (backoff c) (CAID s) (SignerFP s).

Definition chooseSleep (backoff retryAfter : Z) : Z := if (retryAfter >? backoff)%Z then retryAfter else backoff.

(** The state after the mint, and how long it sleeps before it ends. *)
Definition score (now : Z) (m : minting) (res : mintResult) (retryAfter : Z) (s : ClientCertStore) (c : Coordinator) :
    Coordinator * Z :=
  match res with
  | MOk =>
      let flipped := negb (String.eqb (CAID s) (m_beforeCA m)) || negb (String.eqb (SignerFP s) (m_beforeFP m)) in
      let '(noFlip, rEnd) :=
        if flipped then (0%Z, zeroTime)
        else match m_trigger m with
             | Reactive =>
                 let n := (reactiveNoFlip c + 1)%Z in
                 (n, if (BreakerK (cfg c) <=? n)%Z then (now + Cooldown (cfg c))%Z else reactiveBreakerEnd c)
             | _ => (reactiveNoFlip c, reactiveBreakerEnd c)
             end in
      let '(noConv, pEnd) :=
        match m_trigger m with
        | Proactive =>
            let fpConverged := String.eqb (m_targetFP m) "" || String.eqb (SignerFP s) (m_targetFP m) in
            if negb (String.eqb (m_target m) "") && String.eqb (CAID s) (m_target m) && fpConverged
            then (0%Z, zeroTime)
            else
              let n := (proactiveNoConverge c + 1)%Z in
              (n, if (ProactiveJ (cfg c) <=? n)%Z then (now + Cooldown (cfg c))%Z else proactiveBreakerEnd c)
        | _ => (proactiveNoConverge c, proactiveBreakerEnd c)
        end in
      (mkCoord (cfg c) (inFlight c) (BackoffBase (cfg c)) noFlip rEnd noConv pEnd (lastTarget c) (lastTargetFP c), 0%Z)
  | _ =>
      (mkCoord (cfg c) (inFlight c) (Z.min (wrap64 (m_backoff m * 2)) (BackoffMax (cfg c))) (reactiveNoFlip c)
         (reactiveBreakerEnd c) (proactiveNoConverge c) (proactiveBreakerEnd c) (lastTarget c) (lastTargetFP c),
       chooseSleep (m_backoff m) retryAfter)
  end.

(** The deferred end, after a panic too. *)
Definition endMint (c : Coordinator) : Coordinator :=
  mkCoord (cfg c) false (backoff c) (reactiveNoFlip c) (reactiveBreakerEnd c) (proactiveNoConverge c)
    (proactiveBreakerEnd c) (lastTarget c) (lastTargetFP c).

(** ** The coordinator among its callers *)

(** The mint in flight: started, minting, or asleep after its scoring. *)
Inductive stage := Started (t : trigger) (at_ : Z) | Minting (m : minting) (at_ : Z) | Asleep.

(** [futile] and [stuck] log, latest first, when the reactive mints that changed nothing
    since the last change, and the proactive ones that missed the target since the last
    that reached it, were started and scored. *)
Record World := mkWorld {
  clock : Z;
  coord : Coordinator;
  store : ClientCertStore;
  mint : option stage;
  futile : list (Z * Z);
  stuck : list (Z * Z);
}.

Definition started (t : trigger) (now : Z) (ok : bool) (m : option stage) : option stage :=
  if ok then Some (Started t now) else m.

Inductive step : World -> World -> Prop :=
| st_tick w now : (clock w <= now)%Z ->
    step w (mkWorld now (coord w) (store w) (mint w) (futile w) (stuck w))
| st_observe w target fp c ok : Observe target fp (store w) (clock w) (coord w) = (c, ok) ->
    step w (mkWorld (clock w) c (store w) (started Proactive (clock w) ok (mint w)) (futile w) (stuck w))
| st_reactive w c ok : Trigger Reactive (clock w) (coord w) = (c, ok) ->
    step w (mkWorld (clock w) c (store w) (started Reactive (clock w) ok (mint w)) (futile w) (stuck w))
| st_renew w c ok : MaybeRenew (store w) (clock w) (coord w) = (c, ok) ->
    step w (mkWorld (clock w) c (store w) (started Timer (clock w) ok (mint w)) (futile w) (stuck w))
| st_begin w t at_ : mint w = Some (Started t at_) ->
    step w (mkWorld (clock w) (coord w) (store w) (Some (Minting (beginMint t (store w) (coord w)) at_))
              (futile w) (stuck w))
| st_score w m at_ key fetch res ra s' : mint w = Some (Minting m at_) ->
    RefreshEdgeCertOnce key fetch (store w) = (res, ra, s') ->
    let c' := fst (score (clock w) m res ra s' (coord w)) in
    let unchanged := String.eqb (CAID s') (m_beforeCA m) && String.eqb (SignerFP s') (m_beforeFP m) in
    let reached := negb (String.eqb (m_target m) "") && String.eqb (CAID s') (m_target m) &&
                   (String.eqb (m_targetFP m) "" || String.eqb (SignerFP s') (m_targetFP m)) in
    step w (mkWorld (clock w) c' s' (Some Asleep)
              match res, m_trigger m with
              | MOk, Reactive => if unchanged then (at_, clock w) :: futile w else []
              | MOk, _ => if unchanged then futile w else []
              | _, _ => futile w
              end
              match res, m_trigger m with
              | MOk, Proactive => if reached then [] else (at_, clock w) :: stuck w
              | _, _ => stuck w
              end)
| st_end w : mint w <> None ->
    step w (mkWorld (clock w) (endMint (coord w)) (store w) None (futile w) (stuck w)).

Definition boot (c : RemintConfig) (now : Z) (s : ClientCertStore) : World :=
  mkWorld now (NewRemintCoordinator c) s None [] [].

End clientcert.
Arguments ClientCertStore Cert : clear implicits.
Arguments tlsCertificate Cert : clear implicits.
Arguments World Cert : clear implicits.

End Remint.

(** ** Lemmas *)

Module RemintLemmas.
Import EdgeStores EdgeRules Signer SignerLemmas EdgeServer EdgeServerLemmas CpClient CpClientLemmas Remint.

Section coordinator.
Context {Cert Pub Key : Type} `{!PKIOps Cert Pub Key} `{!TLSOps Cert Pub Key} `{!EtagOps}.
#[local] Abbreviation world := (World Cert).
#[local] Abbreviation estep := (step (Cert := Cert) (Pub := Pub) (Key := Key)).

(** Once [k] mints were to no purpose, the next ones start a cooldown apart. *)
Fixpoint Spaced (k : nat) (cooldown : Z) (l : list (Z * Z)) : Prop :=
  match l with
  | (s1, _) :: l =>
      match l with (_, t0) :: _ => k <= length l -> (t0 + cooldown <= s1)%Z | [] => True end /\ Spaced k cooldown l
  | [] => True
  end.

(** A breaker: its counter is the log's length, and it opened at the last entry. *)
Definition Breaker (k cooldown count end_ : Z) (l : list (Z * Z)) : Prop :=
  count = Z.of_nat (length l) /\ Spaced (Z.to_nat k) cooldown l /\
  match l with (_, t) :: _ => (k <= Z.of_nat (length l) -> end_ = t + cooldown)%Z | [] => True end.

Lemma Breaker_nil k cooldown : Breaker k cooldown 0 zeroTime [].
Proof. done. Qed.

Lemma Breaker_push k cooldown count end_ l at_ now :
  (0 < k)%Z -> Breaker k cooldown count end_ l -> ((k <= count)%Z -> (end_ <= at_)%Z) ->
  Breaker k cooldown (count + 1) (if (k <=? count + 1)%Z then now + cooldown else end_)%Z ((at_, now) :: l).
Proof.
  intros Hk (Hc & Hs & He) Hat. split; [simpl; lia|]. split.
  - simpl. split; [|done]. destruct l as [|[s0 t0] l]; [done|]. intros Hlen.
    assert (Hkc : (k <= Z.of_nat (length ((s0, t0) :: l)))%Z) by lia.
    specialize (He Hkc). specialize (Hat ltac:(lia)). lia.
  - simpl length. intros Hlen. by rewrite (proj2 (Z.leb_le _ _)) by lia.
Qed.

(** The bounds of the backoff. *)
Definition inRange (c : RemintConfig) (b : Z) : Prop :=
  (Z.min (BackoffBase c) (BackoffMax c) <= b <= Z.max (BackoffBase c) (BackoffMax c))%Z.

(** Durations far from the width of an [int64]. *)
Definition sane (c : RemintConfig) : Prop := (BackoffBase c < 2 ^ 60 /\ BackoffMax c < 2 ^ 60)%Z.

Lemma floorCfg_pos c :
  let f := floorCfg c in (0 < BackoffBase f /\ 0 < BackoffMax f /\ 0 < BreakerK f /\ 0 < ProactiveJ f)%Z.
Proof. unfold floorCfg, second. simpl. repeat split; case_match; lia. Qed.

Lemma floorCfg_sane c : sane c -> sane (floorCfg c).
Proof.
  unfold sane, floorCfg, second. simpl. intros [? ?]. split; case_match; lia.
Qed.

Lemma floorCfg_cooldown c : sane c -> (0 < Cooldown (floorCfg c))%Z.
Proof.
  unfold sane, floorCfg, second. simpl. intros [_ Hm]. destruct (Z.leb_spec (Cooldown c) 0); [|done].
  destruct (Z.leb_spec (BackoffMax c) 0); rewrite wrap64_small; lia.
Qed.

Record Inv (c0 : RemintConfig) (w : world) : Prop := {
  inv_cfg : cfg (coord w) = floorCfg c0;
  inv_flight : inFlight (coord w) = match mint w with Some _ => true | None => false end;
  inv_backoff : inRange (floorCfg c0) (backoff (coord w));
  inv_reactive : Breaker (BreakerK (floorCfg c0)) (Cooldown (floorCfg c0)) (reactiveNoFlip (coord w))
                   (reactiveBreakerEnd (coord w)) (futile w);
  inv_proactive : Breaker (ProactiveJ (floorCfg c0)) (Cooldown (floorCfg c0)) (proactiveNoConverge (coord w))
                    (proactiveBreakerEnd (coord w)) (stuck w);
  inv_start : forall t at_,
    (mint w = Some (Started t at_) \/ exists m, mint w = Some (Minting m at_) /\ m_trigger m = t) ->
    (t = Reactive -> (reactiveBreakerEnd (coord w) <= at_)%Z) /\
    (t = Proactive -> (proactiveBreakerEnd (coord w) <= at_)%Z);
  inv_ends : (reactiveBreakerEnd (coord w) <= clock w + Cooldown (floorCfg c0) /\
              proactiveBreakerEnd (coord w) <= clock w + Cooldown (floorCfg c0) /\ zeroTime <= clock w)%Z;
  inv_mint : forall m at_, mint w = Some (Minting m at_) -> inRange (floorCfg c0) (m_backoff m);
}.

Lemma Trigger_cases t now c c' ok :
  Trigger t now c = (c', ok) ->
  (ok = false /\ c' = c) \/
  (ok = true /\ inFlight c = false /\
   (t = Reactive -> (reactiveBreakerEnd c <= now)%Z) /\ (t = Proactive -> (proactiveBreakerEnd c <= now)%Z) /\
   c' = mkCoord (cfg c) true (backoff c) (reactiveNoFlip c) (reactiveBreakerEnd c) (proactiveNoConverge c)
          (proactiveBreakerEnd c) (lastTarget c) (lastTargetFP c)).
Proof.
  unfold Trigger. destruct (inFlight c) eqn:Hf; [intros [= <- <-]; by left|].
  destruct t; [destruct (Z.ltb_spec now (proactiveBreakerEnd c))|destruct (Z.ltb_spec now (reactiveBreakerEnd c))|];
    intros [= <- <-]; try (by left); right; repeat split; try done; intros; congruence || lia.
Qed.

Lemma Trigger_starts t now c :
  snd (Trigger t now c) = true <->
  inFlight c = false /\ (t = Reactive -> (reactiveBreakerEnd c <= now)%Z) /\
  (t = Proactive -> (proactiveBreakerEnd c <= now)%Z).
Proof.
  unfold Trigger. destruct (inFlight c); [simpl; naive_solver|].
  destruct t; [destruct (Z.ltb_spec now (proactiveBreakerEnd c))|destruct (Z.ltb_spec now (reactiveBreakerEnd c))|];
    simpl; (split; [intros Hs|intros (_ & H1 & H2)]); try discriminate Hs; try done.
  all: try (split; [done|]; split; intros; congruence || lia).
  - specialize (H2 eq_refl). lia.
  - specialize (H1 eq_refl). lia.
Qed.

(** When an observed target starts a mint, and what is remembered of it. *)
Lemma Observe_starts target fp (s : ClientCertStore Cert) now c :
  (snd (Observe target fp s now c) = true <->
   target <> "" /\ mismatch s target fp = true /\ inFlight c = false /\ (proactiveBreakerEnd c <= now)%Z) /\
  inFlight (fst (Observe target fp s now c)) = inFlight c || snd (Observe target fp s now c) /\
  (lastTarget (fst (Observe target fp s now c)), lastTargetFP (fst (Observe target fp s now c))) =
    if String.eqb target "" then (lastTarget c, lastTargetFP c) else (target, fp).
Proof.
  unfold Observe. destruct (String.eqb_spec target "") as [->|Hne].
  { simpl. rewrite orb_false_r. split; [|done]. naive_solver. }
  destruct (mismatch s target fp); simpl.
  - split; [|unfold Trigger; simpl; destruct (inFlight c); [done|]; by destruct (_ <? _)%Z].
    rewrite Trigger_starts. simpl. naive_solver.
  - rewrite orb_false_r. split; [|done]. naive_solver.
Qed.

(** A start keeps the invariant. *)
Lemma Inv_start c0 w t c' ok :
  Inv c0 w -> Trigger t (clock w) (coord w) = (c', ok) ->
  Inv c0 (mkWorld (clock w) c' (store w) (started t (clock w) ok (mint w)) (futile w) (stuck w)).
Proof.
  intros [Hc Hf Hb Hr Hp Hs He Hm] [[-> ->]|(-> & Hnf & Hre & Hpr & ->)]%Trigger_cases; [by split|].
  split; simpl; try done.
  intros t' at_ [[= <- <-]|(m & Hx & _)]; [done|congruence].
Qed.

Lemma observed_Inv c0 w target fp :
  Inv c0 w ->
  Inv c0 (mkWorld (clock w) (mkCoord (cfg (coord w)) (inFlight (coord w)) (backoff (coord w))
    (reactiveNoFlip (coord w)) (reactiveBreakerEnd (coord w)) (proactiveNoConverge (coord w))
    (proactiveBreakerEnd (coord w)) target fp) (store w) (mint w) (futile w) (stuck w)).
Proof. intros [Hc Hf Hb Hr Hp Hs He Hm]. by split. Qed.

Lemma backoff_doubles c b :
  sane c -> (0 < BackoffBase c)%Z -> (0 < BackoffMax c)%Z -> inRange c b ->
  inRange c (Z.min (wrap64 (b * 2)) (BackoffMax c)).
Proof. unfold sane, inRange. intros [? ?] ? ? ?. rewrite wrap64_small by lia. lia. Qed.

(** What a successful mint does to the two breakers. *)
Lemma score_ok now m (s : ClientCertStore Cert) c :
  score now m MOk 0 s c =
  (let unchanged := String.eqb (CAID s) (m_beforeCA m) && String.eqb (SignerFP s) (m_beforeFP m) in
   let reached := negb (String.eqb (m_target m) "") && String.eqb (CAID s) (m_target m) &&
                  (String.eqb (m_targetFP m) "" || String.eqb (SignerFP s) (m_targetFP m)) in
   let k := BreakerK (cfg c) in let j := ProactiveJ (cfg c) in let cd := Cooldown (cfg c) in
   let '(n, e) :=
     if unchanged then
       match m_trigger m with
       | Reactive => (reactiveNoFlip c + 1, if k <=? reactiveNoFlip c + 1 then now + cd else reactiveBreakerEnd c)
       | _ => (reactiveNoFlip c, reactiveBreakerEnd c)
       end
     else (0, zeroTime) in
   let '(n', e') :=
     match m_trigger m with
     | Proactive =>
         if reached then (0, zeroTime)
         else (proactiveNoConverge c + 1, if j <=? proactiveNoConverge c + 1 then now + cd else proactiveBreakerEnd c)
     | _ => (proactiveNoConverge c, proactiveBreakerEnd c)
     end in
   (mkCoord (cfg c) (inFlight c) (BackoffBase (cfg c)) n e n' e' (lastTarget c) (lastTargetFP c), 0))%Z.
Proof. unfold score. by destruct (m_trigger m), (String.eqb _ (m_beforeCA m)), (String.eqb _ (m_beforeFP m)). Qed.

Lemma mint_delay key fetch (s : ClientCertStore Cert) ra s' :
  RefreshEdgeCertOnce key fetch s = (MOk, ra, s') -> ra = 0%Z.
Proof. unfold RefreshEdgeCertOnce. intros Hr. by repeat (case_match; simplify_eq/=). Qed.

Lemma score_Inv c0 (w : world) m at_ s' :
  sane c0 -> Inv c0 w -> mint w = Some (Minting m at_) ->
  let unchanged := String.eqb (CAID s') (m_beforeCA m) && String.eqb (SignerFP s') (m_beforeFP m) in
  let reached := negb (String.eqb (m_target m) "") && String.eqb (CAID s') (m_target m) &&
                 (String.eqb (m_targetFP m) "" || String.eqb (SignerFP s') (m_targetFP m)) in
  Inv c0 (mkWorld (clock w) (fst (score (clock w) m MOk 0 s' (coord w))) s' (Some Asleep)
    match m_trigger m with
    | Reactive => if unchanged then (at_, clock w) :: futile w else []
    | _ => if unchanged then futile w else []
    end
    match m_trigger m with Proactive => if reached then [] else (at_, clock w) :: stuck w | _ => stuck w end).
Proof.
  intros Hsane [Hc Hf Hb Hr Hp Hs (He1 & He2 & He3) Hm] Hw unchanged reached.
  pose proof (floorCfg_cooldown c0 Hsane) as Hcd. rewrite score_ok, Hc. cbv zeta.
  fold unchanged. fold reached. destruct (floorCfg_pos c0) as (Hb0 & Hx0 & Hk0 & Hj0).
  destruct (Hs (m_trigger m) at_ (or_intror (ex_intro _ m (conj Hw eq_refl)))) as [Hre Hpr].
  assert (Hbase : inRange (floorCfg c0) (BackoffBase (floorCfg c0))) by (unfold inRange; lia).
  rewrite Hw in Hf.
  destruct (m_trigger m), unchanged, reached; split;
    cbn [fst coord clock store mint futile stuck cfg inFlight backoff reactiveNoFlip reactiveBreakerEnd
         proactiveNoConverge proactiveBreakerEnd]; try done;
    try (apply Breaker_push; by auto); try apply Breaker_nil; try (intros t' at' [?|(? & ? & _)]; done);
    try (repeat case_match; lia).
Qed.

Lemma step_Inv c0 w w' : sane c0 -> Inv c0 w -> estep w w' -> Inv c0 w'.
Proof.
  intros Hsane Hinv Hst. destruct Hst as [w now Hle|w target fp c ok Ho|w c ok Ht|w c ok Hm|w t at_ Hw
    |w m at_ key fetch res ra s' Hw Hr c' unchanged reached|w Hw].
  - destruct Hinv as [Hc Hf Hb Hr Hp Hs (He1 & He2 & He3) Hm]. split; try done.
    cbn [coord clock]. lia.
  - unfold Observe in Ho. destruct (String.eqb target ""); [injection Ho as <- <-; by destruct Hinv; split|].
    destruct (negb (mismatch (store w) target fp)).
    + injection Ho as <- <-. by apply observed_Inv.
    + pose proof (Inv_start c0 _ Proactive c ok (observed_Inv c0 w target fp Hinv) Ho) as Hi. exact Hi.
  - by apply Inv_start.
  - unfold MaybeRenew in Hm. destruct (renewalDue _ _ _); [by apply Inv_start|].
    injection Hm as <- <-. by destruct Hinv; split.
  - destruct Hinv as [Hc Hf Hb Hr Hp Hs He Hm]. split; simpl; try done.
    + by rewrite Hf, Hw.
    + intros t' at' [[=]|(m & [= <- <-] & <-)]. apply (Hs t at_). by left.
    + by intros m at' [= <- <-].
  - destruct (match res with MOk => true | _ => false end) eqn:Hok.
    + destruct res; try done. pose proof (mint_delay _ _ _ _ _ Hr) as ->. subst c'. by apply (score_Inv c0 w m at_ s').
    + assert (Hc' : c' = fst (score (clock w) m MFetchFail ra s' (coord w))) by (by destruct res).
      destruct Hinv as [Hc Hf Hb Hrb Hp Hs He Hm]. destruct (floorCfg_pos c0) as (Hb0 & Hx0 & _).
      rewrite Hw in Hf. destruct res; try done; (split; subst c'; simpl; try done;
        [rewrite Hc; apply backoff_doubles; [by apply floorCfg_sane|done|done|by eapply Hm]
        |intros t' at' [?|(? & ? & _)]; done]).
  - destruct Hinv as [Hc Hf Hb Hr Hp Hs He Hm]. split; simpl; try done.
    + intros t at_ [?|(? & ? & _)]; done.
Qed.

Lemma boot_Inv c0 now (s : ClientCertStore Cert) : sane c0 -> (zeroTime <= now)%Z -> Inv c0 (boot c0 now s).
Proof.
  intros Hs Hn. pose proof (floorCfg_cooldown c0 Hs) as Hcd. destruct (floorCfg_pos c0) as (Hb0 & Hx0 & _).
  split; try done; try (apply Breaker_nil).
  - cbn [boot coord NewRemintCoordinator backoff]. unfold inRange. lia.
  - intros t at_ [?|(? & ? & _)]; done.
  - cbn [boot coord NewRemintCoordinator reactiveBreakerEnd proactiveBreakerEnd clock]. lia.
Qed.

Lemma run_Inv c0 w w' : sane c0 -> rtc estep w w' -> Inv c0 w -> Inv c0 w'.
Proof. intros Hs Hrun. induction Hrun; [done|]. intros Hi. apply IHHrun. by eapply step_Inv. Qed.

End coordinator.

(** *** A mint against a control plane *)

Section mint.
Context {Cert Pub Key : Type} `{!PKIOps Cert Pub Key} `{!PKILaws Cert Pub Key} `{!EtagOps} `{!EtagLaws}.

Lemma decodeAll_fuel n m s :
  String.length s < n -> String.length s < m -> decodeAll n s = decodeAll m s.
Proof using Type*.
  revert m s. induction n as [|n IH]; intros [|m] s Hn Hm; try lia. simpl.
  destruct (pem_Decode s) as [[[ty b] r]|] eqn:Hd; [|done]. apply pem_shrinks in Hd. f_equal. apply IH; lia.
Qed.

Lemma certBlocks_cons der rest : certBlocks (encodeCert der +:+ rest) = der :: certBlocks rest.
Proof using Type*.
  unfold certBlocks at 1. set (s := encodeCert der +:+ rest).
  assert (Hd : pem_Decode s = Some ("CERTIFICATE", der, rest)) by (apply pem_roundtrip, cert_type).
  cbn [decodeAll]. rewrite Hd. simpl. f_equal. unfold certBlocks. f_equal.
  apply pem_shrinks in Hd. apply decodeAll_fuel; lia.
Qed.

Lemma matchLoop_none p (cas : list Cert) n m :
  (forall i c, cas !! i = Some c -> p c = false) -> matchLoop p cas n m = Some m.
Proof.
  revert n. induction cas as [|c cas IH]; intros n Hno; [done|]. simpl.
  rewrite (Hno 0 c eq_refl). apply IH. intros i c' Hi. by apply (Hno (S i)).
Qed.

Lemma matchLoop_unique p (cas : list Cert) n j c :
  cas !! j = Some c -> p c = true -> (forall i c', cas !! i = Some c' -> p c' = true -> i = j) ->
  matchLoop p cas n None = Some (Some (n + j)).
Proof.
  revert n j. induction cas as [|d cas IH]; intros n j Hj Hp Hu; [done|]. simpl. destruct j as [|j].
  - injection Hj as ->. rewrite Hp, Nat.add_0_r. apply matchLoop_none. intros i c' Hi.
    destruct (p c') eqn:He; [|done]. by specialize (Hu (S i) c' Hi He).
  - destruct (p d) eqn:Hd; [by specialize (Hu 0 d eq_refl Hd)|]. rewrite Nat.add_succ_r.
    apply (IH (S n) j Hj Hp). intros i c' Hi He. specialize (Hu (S i) c' Hi He). lia.
Qed.

Context `{!TLSOps Cert Pub Key} (ParseCSR : string -> option (Pub * bool)) `{!TLSLaws Cert Pub Key ParseCSR}.

(** The CAs of a bundle tell themselves apart by their key ids. *)
Definition identifiable (ders : list string) : Prop :=
  exists cas, mapM ParseCertificate ders = Some cas /\
    NoDup ((fun c => SubjectKeyId (fieldsOf c)) <$> cas) /\ "" ∉ ((fun c => SubjectKeyId (fieldsOf c)) <$> cas).

Lemma deriveIssuerFP_signer leaf der ders caDER ca :
  identifiable ders -> caDER ∈ ders -> ParseCertificate caDER = Some ca ->
  AuthorityKeyId leaf = SubjectKeyId (fieldsOf ca) -> deriveIssuerFP (Some leaf) (der :: ders) = sumHex caDER.
Proof.
  intros (cas & Hm & Hnd & Hne) Hin Hp Haki. apply list_elem_of_lookup in Hin as [j Hj].
  apply mapM_Some in Hm. destruct (Forall2_lookup_l _ _ _ _ _ Hm Hj) as (ca' & Hca & Hp').
  rewrite Hp in Hp'. injection Hp' as <-.
  assert (Hskid : ((fun c => SubjectKeyId (fieldsOf c)) <$> cas) !! j = Some (SubjectKeyId (fieldsOf ca)))
    by (by rewrite list_lookup_fmap, Hca).
  unfold deriveIssuerFP. destruct ders as [|d ders]; [by destruct j|].
  assert (Hms : mapM ParseCertificate (d :: ders) = Some cas) by (by apply mapM_Some). rewrite Hms.
  assert (Hakne : String.eqb (AuthorityKeyId leaf) "" = false).
  { apply String.eqb_neq. intros He. apply Hne. rewrite <- He, Haki. by eapply list_elem_of_lookup_2. }
  unfold issuerIndex. rewrite Hakne.
  rewrite (matchLoop_unique _ cas 0 j ca Hca).
  - simpl. by rewrite Hj.
  - rewrite Haki. apply String.eqb_refl.
  - intros i c' Hi He%String.eqb_eq. eapply NoDup_lookup; [exact Hnd| |exact Hskid].
    rewrite list_lookup_fmap, Hi. simpl. by rewrite He, Haki.
Qed.

Lemma Sign_ok (s : Signer Cert Key) now rnd pub id chain na sn :
  Sign s now rnd pub id = Ok (chain, na, sn) ->
  exists t der leaf, CreateCertificate t (caCert s) pub (caKey s) = Some der /\
    ParseCertificate der = Some leaf /\ chain = encodeCert der +:+ BundlePEM s.
Proof.
  unfold Sign. intros Hs. repeat (case_match; simplify_eq/=; try done). eauto 6.
Qed.

(** A chain that the signer issued, paired with the key it was issued for. *)
Lemma Update_issued (sgn : Signer Cert Key) now rnd key kd id chain na sn (s : ClientCertStore Cert) :
  RotationLemmas.built sgn -> identifiable (certBlocks (BundlePEM sgn)) ->
  Sign sgn now rnd (Public key) id = Ok (chain, na, sn) -> MarshalPKCS8 key = Some kd ->
  exists s', Update chain (pem_Encode "PRIVATE KEY" kd) s = Some s' /\ Loaded s' = true /\
    CAID s' = Signer.CAID sgn /\ SignerFP s' = ActiveFP sgn.
Proof using Type*.
  intros (caDER & Hin & Hca & Hfp & Hid) Hident (t & der & leaf & Hc & Hp & ->)%Sign_ok Hkd.
  destruct (created_leaf (ParseCertificateRequest := ParseCSR) _ _ _ _ _ _ Hc Hp) as [Hpub Haki].
  assert (Hblocks : certBlocks (encodeCert der +:+ BundlePEM sgn) = der :: certBlocks (BundlePEM sgn))
    by apply certBlocks_cons.
  assert (Hkey : parsePrivateKey (pem_Encode "PRIVATE KEY" kd) = Some key).
  { unfold parsePrivateKey. rewrite <- (str_app_nil_r (pem_Encode "PRIVATE KEY" kd)).
    rewrite pem_roundtrip by apply key_type. simpl. by apply MarshalPKCS8_parses. }
  unfold Update. destruct (X509KeyPair _ _) as [[ders l]|] eqn:Hpair.
  2:{ exfalso. eapply (X509KeyPair_pairs (ParseCertificateRequest := ParseCSR)); [exact Hblocks|exact Hp|exact Hkey| |exact Hpair].
      rewrite Hpub. apply PubEqual_refl. }
  apply (X509KeyPair_blocks (ParseCertificateRequest := ParseCSR)) in Hpair as [-> Hl]. rewrite Hblocks in *.
  assert (Hleaf : match l with Some _ => l | None => ParseCertificate der end = Some leaf).
  { destruct Hl as [-> | ->]; simpl; by rewrite Hp. }
  assert (Hleaf' : match l, der :: certBlocks (BundlePEM sgn) with
                   | None, der :: _ => ParseCertificate der | _, _ => l end = Some leaf).
  { destruct l; done. }
  rewrite Hleaf'. eexists. split; [reflexivity|]. split; [done|]. unfold CAID, SignerFP. simpl. split.
  - destruct (certBlocks (BundlePEM sgn)) as [|b bs]; [by apply elem_of_nil in Hin|]. by rewrite Hid.
  - rewrite Hfp. eapply (deriveIssuerFP_signer leaf der); [done|done|done|]. apply Haki.
    destruct Hident as (cas & Hm & _ & Hne). intros He. apply Hne. rewrite <- He.
    apply mapM_Some in Hm. apply list_elem_of_lookup in Hin as [j Hj].
    destruct (Forall2_lookup_l _ _ _ _ _ Hm Hj) as (ca' & Hca' & Hp').
    apply list_elem_of_fmap. exists ca'. split; [by simplify_eq|by eapply list_elem_of_lookup_2].
Qed.

End mint.
End RemintLemmas.

Module RemintProps.
Import EdgeStores EdgeRules Signer SignerLemmas EdgeServer EdgeServerLemmas CpClient CpClientLemmas Remint RemintLemmas.

Section coordinator.
Context {Cert Pub Key : Type} {pki : PKIOps Cert Pub Key} {tls : TLSOps Cert Pub Key} {ops : EtagOps}.

(** The coordinator is bounded and never wedged, whatever its callers do and however
    mints end. At most one mint is in flight; the backoff stays between its base and its
    maximum; after [BreakerK] reactive mints that changed nothing ([ProactiveJ] proactive
    ones that missed the target) the next such mints start at least a cooldown apart; and
    when no mint is in flight, a cooldown later at most every trigger starts one. *)
Theorem coordinator_bounded c0 now s0 (w : World Cert) :
  sane c0 -> (zeroTime <= now)%Z -> rtc (step (Pub := Pub) (Key := Key)) (boot c0 now s0) w ->
  let f := floorCfg c0 in
  inFlight (coord w) = match mint w with Some _ => true | None => false end /\
  inRange f (backoff (coord w)) /\
  Spaced (Z.to_nat (BreakerK f)) (Cooldown f) (futile w) /\
  Spaced (Z.to_nat (ProactiveJ f)) (Cooldown f) (stuck w) /\
  (mint w = None -> forall t later, (clock w + Cooldown f <= later)%Z -> snd (Trigger t later (coord w)) = true).
Proof.
  intros Hs Hn Hrun f. pose proof (run_Inv c0 _ _ Hs Hrun (boot_Inv c0 now s0 Hs Hn)) as Hi.
  destruct Hi as [Hc Hf Hb (_ & Hr & _) (_ & Hp & _) _ (He1 & He2 & _) _].
  split; [done|]. split; [done|]. split; [done|]. split; [done|]. intros Hm t later Hlater.
  rewrite Hm in Hf. unfold Trigger. rewrite Hf. fold f in He1, He2.
  destruct t; [rewrite (proj2 (Z.ltb_ge _ _)) by lia|rewrite (proj2 (Z.ltb_ge _ _)) by lia|]; done.
Qed.

End coordinator.

Section mint.
Context {Cert Pub Key : Type} {pki : PKIOps Cert Pub Key} {plaws : PKILaws Cert Pub Key}.
Context {ops : EtagOps} {elaws : EtagLaws} {tls : TLSOps Cert Pub Key}.
Context (ParseCSR : string -> option (Pub * bool)) {tlaws : TLSLaws Cert Pub Key ParseCSR}.
Context {jq : JSON edgeCertRequest} {jql : JSONLaws edgeCertRequest}.
Context {jp : JSON edgeCertResponse} {jpl : JSONLaws edgeCertResponse} {jps : JSONStream edgeCertResponse}.
Context (parseTime : string -> option Z) (FormatRFC3339 serialHex : Z -> string).

(** The exchange of an edge with a control plane over the network. *)
Definition issueOver (c : Client) (s : Server Cert Key) (now : Z) (rnd : option Z) (csrPEM : string) :
    result (cpError * Z) edgeCertResponse :=
  FetchEdgeCert
    (network (base c) (fun r => snd (handleEdgeCert ParseCSR FormatRFC3339 serialHex now rnd s r)))
    parseTime now c csrPEM.

(** An edge that a server would issue to: a live token with an identity, room in the gate,
    and a signer whose CAs tell themselves apart. *)
Record Issuable (c : Client) (s : Server Cert Key) (st : signerGen Cert Key) (id : string) : Prop := {
  is_signer : signerState s = Some st;
  is_built : RotationLemmas.built (sg st);
  is_cas : identifiable (certBlocks (BundlePEM (sg st)));
  is_id : Signer.CAID (sg st) <> "";
  is_token : plainToken (token c);
  is_known : Authz.Known (authz s) (token c) = true;
  is_identity : Authz.Identity (authz s) (token c) = Some id;
  is_room : saturated (signGate s) = false;
}.

(** C35: a mint converges, and convergence ends the re-mints. An edge with a live identity
    gets a certificate over the network; the CA set and the signer it then reads off its
    own chain are the ones the control plane advertises.  With that certificate, whatever
    the state of the coordinator, observing a target ([Observe]) starts a re-mint exactly
    when the target is not empty and differs from what was advertised then (a CA set that
    is not that one, or a signer that is given and not that one), no mint is in flight and
    the proactive breaker is closed; a target that is not empty is remembered. *)
Theorem mint_converges c s st id now rnd key csr kd chain na sn store :
  Issuable c s st id ->
  AllowedLeafKey (Public key) = true -> CreateCertificateRequest key = Some csr -> MarshalPKCS8 key = Some kd ->
  Sign (sg st) now rnd (Public key) id = Ok (chain, na, sn) ->
  let csrPEM := pem_Encode "CERTIFICATE REQUEST" csr in
  let resp := mkEdgeCertResp chain (FormatRFC3339 na) (serialHex sn) (Signer.CAID (sg st)) (ActiveFP (sg st)) in
  jvalid (mkEdgeCertReq csrPEM) -> jvalid resp ->
  (forall body, marshal (mkEdgeCertReq csrPEM) = Some body -> (Z.of_nat (String.length body) <= 16384)%Z) ->
  (forall body, marshal resp = Some body -> (Z.of_nat (String.length (body +:+ newline)) <= maxCertBody)%Z) ->
  exists store', RefreshEdgeCertOnce (Some key) (issueOver c s now rnd) store = (MOk, 0%Z, store') /\
    Loaded store' = true /\ CAID store' = CurrentCAID s /\ SignerFP store' = CurrentActiveFP s /\
    (forall t f at_ co, let '(co', start) := Observe t f store' at_ co in
       (start = true <->
        t <> "" /\ (t <> CurrentCAID s \/ (f <> "" /\ f <> CurrentActiveFP s)) /\
        inFlight co = false /\ (proactiveBreakerEnd co <= at_)%Z) /\
       inFlight co' = inFlight co || start /\
       (lastTarget co', lastTargetFP co') = if String.eqb t "" then (lastTarget co, lastTargetFP co) else (t, f)).
Proof using plaws elaws tlaws jql jpl jps.
  intros [Hsg Hbuilt Hident Hid Htok Hknown Hidentity Hroom] Hkey Hcsr Hkd Hsign csrPEM resp Hvq Hvp Hlq Hlp.
  destruct (Update_issued ParseCSR (sg st) now rnd key kd id chain na sn store Hbuilt Hident Hsign Hkd)
    as (store' & Hup & Hload & Hca & Hfp).
  destruct (unmarshal_marshal _ Hvq) as (body & Hm & Hu).
  destruct (unmarshal_marshal _ Hvp) as (rbody & Hrm & Hru).
  assert (Hkeys : CurrentCAID s = Signer.CAID (sg st) /\ CurrentActiveFP s = ActiveFP (sg st)).
  { unfold CurrentCAID, CurrentActiveFP, currentSignerKey. by rewrite Hsg. }
  destruct Hkeys as [Hkca Hkfp].
  assert (Hfetch : issueOver c s now rnd csrPEM = Ok resp).
  { unfold issueOver, FetchEdgeCert. rewrite Hm. unfold network, target. simpl rURL.
    rewrite has_prefix_app, str_drop_app. change (Cut "?" "/v1/edge-cert") with ("/v1/edge-cert", "").
    cbv iota. unfold handleEdgeCert. rewrite Hsg. unfold authenticated.
    rewrite (bearer_header (token c)); [|done|].
    2:{ simpl ReqHeader. rewrite HeaderGet_Set_ne by done. apply HeaderGet_Set. }
    rewrite Hknown, Hidentity. simpl Body. rewrite limitReader_all by by apply Hlq. rewrite Hu. simpl CSRPEM.
    unfold csrPEM. rewrite <- (str_app_nil_r (pem_Encode "CERTIFICATE REQUEST" csr)).
    rewrite pem_roundtrip by apply csr_type. simpl negb. cbv iota.
    rewrite (created_request (ParseCertificateRequest := ParseCSR) _ _ Hcsr), Hkey. simpl negb. cbv iota.
    rewrite Hroom, Hsign. simpl snd. fold resp.
    rewrite decode_encoded; [done|done|]. unfold encodeBody. simpl RespBody. rewrite Hrm. by apply Hlp. }
  exists store'. split.
  { unfold RefreshEdgeCertOnce. rewrite Hcsr. fold csrPEM. rewrite Hfetch, Hkd. simpl ec_ChainPEM. by rewrite Hup. }
  split; [done|]. split; [congruence|]. split; [congruence|]. intros t f at_ co.
  destruct (Observe_starts t f store' at_ co) as (Hstart & Hfl & Hlast).
  destruct (Observe t f store' at_ co) as [co' start]. simpl in *. split; [|done].
  rewrite Hstart. apply and_iff_compat_l, and_iff_compat_r. unfold mismatch.
  rewrite Hca, Hfp, Hkca, Hkfp, (proj2 (String.eqb_neq _ _) Hid).
  assert (Hfpne : String.eqb (ActiveFP (sg st)) "" = false).
  { apply String.eqb_neq. destruct Hbuilt as (d & _ & _ & -> & _). apply sumHex_nonempty. }
  rewrite Hfpne. destruct (String.eqb_spec t (Signer.CAID (sg st))), (String.eqb_spec f ""),
    (String.eqb_spec f (ActiveFP (sg st))); simpl; naive_solver.
Qed.

End mint.
(** *** Witnesses *)

#[local] Existing Instances SignerProps.toyPKI SignerProps.toyPKILaws SignerProps.lettersEtag SignerProps.lettersEtagLaws.

#[local] Instance toyTLS : TLSOps string ascii ascii := {
  X509KeyPair chain key :=
    match certBlocks chain with
    | der :: ders =>
        match ParseCertificate der, parsePrivateKey key with
        | Some c, Some k => if PubEqual (PublicKey c) (Public k) then Some (der :: ders, Some c) else None
        | _, _ => None
        end
    | [] => None
    end;
  AuthorityKeyId der := str_take 1 (str_drop 1 der);
  CheckSignatureFrom leaf ca := false;
  CreateCertificateRequest key := Some (String key "");
}.

Definition toyCSR (der : string) : option (ascii * bool) :=
  match der with String c _ => Some (c, true) | "" => None end.

#[local] Instance toyTLSLaws : TLSLaws string ascii ascii toyCSR.
Proof.
  split.
  - intros chain key ders leaf. cbn [X509KeyPair toyTLS]. destruct (certBlocks chain) as [|der rest]; [done|].
    destruct (ParseCertificate der) as [c|] eqn:Hp; [|by intros]. destruct (parsePrivateKey key) as [k|]; [|by intros].
    destruct (PubEqual _ _); [|by intros]. intros [= <- <-]. split; [done|]. right. cbn. exact (eq_sym Hp).
  - intros chain key der ders c k Hb Hp Hk Heq. cbn [X509KeyPair toyTLS]. by rewrite Hb, Hp, Hk, Heq.
  - intros t parent pub key der leaf [= <-] [= <-]. split; [done|]. intros Hne. by destruct parent as [|c parent].
  - by intros key der [= <-].
Qed.

(** A run: a reactive trigger, whose mint fails for want of a key. *)
Lemma coordinator_bounded_witness :
  exists w : World string,
    rtc (step (Pub := ascii) (Key := ascii))
      (boot (mkCfg 0 0 0 0 0 0 (f64_of_Z 0)) 0 NewClientCertStore) w /\
    backoff (coord w) = (4 * second)%Z /\ inFlight (coord w) = false /\
    inRange (floorCfg (mkCfg 0 0 0 0 0 0 (f64_of_Z 0))) (backoff (coord w)) /\
    snd (Trigger Reactive (clock w + 1500 * second) (coord w)) = true.
Proof.
  set (c0 := mkCfg 0 0 0 0 0 0 (f64_of_Z 0)).
  assert (Hrun : exists w : World string,
    rtc (step (Pub := ascii) (Key := ascii)) (boot c0 0 NewClientCertStore) w /\
    backoff (coord w) = (4 * second)%Z /\ mint w = None /\ clock w = 0%Z).
  { eexists. split.
    - eapply rtc_l; [eapply st_reactive; vm_compute; reflexivity|].
      eapply rtc_l; [eapply st_begin; simpl; reflexivity|].
      eapply rtc_l; [eapply (st_score _ _ _ None (fun _ => Err (ERequest, 0%Z))); simpl; reflexivity|].
      eapply rtc_once. by apply st_end.
    - vm_compute. done. }
  destruct Hrun as (w & Hrun & Hb & Hm & Hc). exists w.
  destruct (coordinator_bounded c0 0%Z NewClientCertStore w) as (Hf & Hr & _ & _ & Ht);
    [by vm_compute|by vm_compute|exact Hrun|].
  split; [exact Hrun|]. split; [exact Hb|]. split; [by rewrite Hf, Hm|]. split; [exact Hr|].
  apply Ht; [exact Hm|]. rewrite Hc. by vm_compute.
Defined.

(** The flipped overlap's signer, and codecs for its answers. *)
Definition demoSigner : Signer string ascii :=
  mkSigner "Bnew" "B"%char SignerProps.overlapPEM ["Aold"; "Bnew"]
    (default "" (FromDER ["Aold"; "Bnew"])) (sumHex "Bnew") 2 DefaultClientCertTTL DefaultClientCertSkew.

#[local] Instance requestJSON : JSON edgeCertRequest :=
  {| marshal r := Some (CSRPEM r); EdgeServer.unmarshal s := Some (mkEdgeCertReq s) |}.
#[local] Instance requestJSONLaws : JSONLaws edgeCertRequest.
Proof. refine {| jvalid _ := True |}. intros [p] _. by eexists. Defined.

Definition LF : ascii := ascii_of_nat 10.
#[local] Instance responseJSON : JSON edgeCertResponse := {
  marshal r := Some (ec_ChainPEM r);
  EdgeServer.unmarshal s :=
    Some (mkEdgeCertResp (fst (GoURL.Cut LF s)) "t" "1" (Signer.CAID demoSigner) (ActiveFP demoSigner));
}.

Lemma Cut_none s : mem_char LF s = false -> fst (GoURL.Cut LF s) = s.
Proof. intros Hs. unfold GoURL.Cut. by rewrite (proj2 (index_byte_none LF s) Hs). Qed.

#[local] Instance responseJSONLaws : JSONLaws edgeCertResponse.
Proof.
  refine {| jvalid a := (mem_char LF (ec_ChainPEM a) = false /\
    a = mkEdgeCertResp (ec_ChainPEM a) "t" "1" (Signer.CAID demoSigner) (ActiveFP demoSigner)) |}.
  intros a [Hn Ha]. eexists. split; [reflexivity|]. cbn [EdgeServer.unmarshal responseJSON]. by rewrite (Cut_none _ Hn), <- Ha.
Defined.
#[local] Instance responseJSONStream : JSONStream edgeCertResponse.
Proof.
  intros s. unfold EdgeServer.unmarshal, responseJSON. do 2 f_equal. induction s as [|c s IH]; [done|].
  unfold GoURL.Cut in *. cbn [String.append index_byte]. destruct (Ascii.eqb c LF); [done|].
  change (String c (s +:+ newline)) with (String c (s +:+ newline)).
  destruct (index_byte LF (s +:+ newline)), (index_byte LF s); simpl in *; congruence.
Qed.

Definition issuingServer : Server string ascii :=
  mkServer (CPCerts.mkStore ∅ true "") (Authz.NewAuthzEntries {[ "tok" := Authz.mkEntry "edge-1" [] false ]})
    None None None None None None "" (Some (mkSG demoSigner 9)) 0 true None 0 None 0 [].

Lemma mint_converges_witness :
  exists store', RefreshEdgeCertOnce (Some "E"%char)
      (issueOver toyCSR (fun _ => None) (fun _ => "t") (fun _ => "1") (mkClient "https://cp" "tok") issuingServer 5 (Some 7%Z))
      NewClientCertStore = (MOk, 0%Z, store') /\
    Loaded store' = true /\ CAID store' = CurrentCAID issuingServer /\ SignerFP store' = sumHex "Bnew" /\
    snd (Observe "rotated" "" store' 9 (NewRemintCoordinator (mkCfg 0 0 0 0 0 0 (f64_of_Z 0)))) = true /\
    (forall t f at_ co, let '(co', start) := Observe t f store' at_ co in
       (start = true <->
        t <> "" /\ (t <> CurrentCAID issuingServer \/ (f <> "" /\ f <> CurrentActiveFP issuingServer)) /\
        inFlight co = false /\ (proactiveBreakerEnd co <= at_)%Z) /\
       inFlight co' = inFlight co || start /\
       (lastTarget co', lastTargetFP co') = if String.eqb t "" then (lastTarget co, lastTargetFP co) else (t, f)).
Proof.
  destruct (Sign demoSigner 5 (Some 7%Z) "E"%char "edge-1") as [[[chain na] sn]|e] eqn:Hs; [|by vm_compute in Hs].
  assert (Hchain : mem_char LF chain = false /\ (Z.of_nat (String.length (chain +:+ newline)) <= maxCertBody)%Z).
  { vm_compute in Hs. injection Hs as <- _ _. by vm_compute. }
  destruct (mint_converges toyCSR (fun _ => None) (fun _ => "t") (fun _ => "1") (mkClient "https://cp" "tok")
           issuingServer (mkSG demoSigner 9) "edge-1" 5 (Some 7%Z) "E"%char "E" "E" chain na sn NewClientCertStore)
    as (store' & Hr & Hl & Hca & Hfp & Hob); try done.
  - split; try done; try (by vm_compute).
    + exists "Bnew". vm_compute. repeat split; try done. set_solver.
    + exists ["Aold"; "Bnew"]. vm_compute. split; [done|]. split; [apply NoDup_cons; split; [set_solver|apply NoDup_singleton]|set_solver].
  - by split; [apply Hchain|].
  - intros body [= <-]. by vm_compute.
  - intros body [= <-]. apply Hchain.
  - exists store'. split; [exact Hr|]. split; [exact Hl|]. split; [exact Hca|]. split; [exact Hfp|]. split; [|exact Hob].
    set (co := NewRemintCoordinator _). specialize (Hob "rotated" "" 9%Z co).
    destruct (Observe "rotated" "" store' 9 co) as [co' start]. apply Hob. split; [done|]. split; [|by vm_compute].
    left. vm_compute. discriminate.
Defined.

End RemintProps.
