(* ===== verification/Metrics.v ===== *)
(** * The control plane's metrics

    Models [src/edgecp/metrics.go] (the registry's gauges and fingerprint, the signer's
    gauges, the age of a rotation) and [src/edgecp/metricstore.go] (the snapshots that
    edges push and their merge into the control plane's own exposition).

    A gauge is what a scrape reads of it; a vector of gauges is a finite map from label
    values.  The text parser, the encoder and SHA-256 are arguments.  [Revoke] reads the
    fleet back from these series. *)

From Stdlib Require Import SpecFloat.
From S2P Require Import Prelude GoString GoTime GoURL Certs EdgeStores Signer EdgeServer.

Set Default Proof Using "Type".

Module Metrics.
Import EdgeServer.

(** ** Snapshots pushed by edges *)

Section store.
(** What a metric carries besides its labels. *)
Context {V : Type}.

Record Metric := mkMetric { m_Label : list (string * string); m_Value : V }.

(** [mf_Type] is the wire value of [dto.MetricType]. *)
Record MetricFamily := mkFamily { mf_Name : string; mf_Help : string; mf_Type : Z; mf_Metric : list Metric }.

Definition maxEdgeMetricsBody : Z := 8388608.
Definition maxEdgeMetricsInstances : nat := 128.

Record edgeMetricsSnapshot := mkSnapshot {
  sn_edgeID : string;
  sn_instance : string;
  sn_families : gmap string MetricFamily;
  sn_receivedAt : Z;
}.

(** [lastPush] is the vector of freshness gauges, [evicted] and [dropped] the counters. *)
Record MetricsStore := mkMS {
  ttl : Z;
  edges : gmap string edgeMetricsSnapshot;
  lastPush : gmap (string * string) f64;
  evicted : Z;
  dropped : Z;
}.

Definition NewMetricsStore (d : Z) : MetricsStore :=
  mkMS (if (d <=? 0)%Z then 5 * minute else d)%Z ∅ ∅ 0 0.

(** The bytes of a body that a reader yields, and whether it then fails. *)
Definition MaxBytesReader (n : Z) (body : string) : string * bool :=
  if (Z.of_nat (String.length body) <=? n)%Z then (body, false) else (str_take (Z.to_nat n) body, true).

Inductive parseError := ParseSyntax | ParseRead.

Definition nameLe (a b : string * string) : Prop := str_le a.1 b.1.
#[local] Instance nameLe_dec a b : Decision (nameLe a b) := _.

Fixpoint overrideLabel (name value : string) (l : list (string * string)) : option (list (string * string)) :=
  match l with
  | [] => None
  | (n, v) :: l =>
      if String.eqb n name then Some ((n, value) :: l)
      else match overrideLabel name value l with Some l => Some ((n, v) :: l) | None => None end
  end.

Definition setLabel (name value : string) (m : Metric) : Metric :=
  match overrideLabel name value (m_Label m) with
  | Some l => mkMetric l (m_Value m)
  | None => mkMetric (merge_sort nameLe (m_Label m ++ [(name, value)])) (m_Value m)
  end.

Definition labelled (edgeID instance : string) (mf : MetricFamily) : MetricFamily :=
  mkFamily (mf_Name mf) (mf_Help mf) (mf_Type mf)
    ((fun m => setLabel "edge_instance" instance (setLabel "edge_id" edgeID m)) <$> mf_Metric mf).

(** The order in which a map is ranged over. *)
Context (ord : gmap string edgeMetricsSnapshot -> list (string * edgeMetricsSnapshot)).

(** The instances of an identity, and its stalest; a key is never empty. *)
Definition tally (edgeID : string) (acc : nat * option (string * Z)) (kv : string * edgeMetricsSnapshot) :
    nat * option (string * Z) :=
  let '(k, snap) := kv in
  if negb (String.eqb (sn_edgeID snap) edgeID) then acc
  else (S acc.1,
        match acc.2 with
        | None => Some (k, sn_receivedAt snap)
        | Some (_, oldest) => if (sn_receivedAt snap <? oldest)%Z then Some (k, sn_receivedAt snap) else acc.2
        end).

Definition count (edgeID : string) (s : MetricsStore) : nat * option (string * Z) :=
  fold_left (tally edgeID) (ord (edges s)) (0, None).

Definition evict (k : string) (s : MetricsStore) : MetricsStore :=
  match edges s !! k with
  | Some snap => mkMS (ttl s) (delete k (edges s)) (delete (sn_edgeID snap, sn_instance snap) (lastPush s))
                   (evicted s + 1) (dropped s)
  | None => s
  end.

(** Every pass takes one snapshot out. *)
Fixpoint evictLoop (fuel : nat) (edgeID : string) (s : MetricsStore) : option MetricsStore :=
  match count edgeID s with
  | (n, oldest) =>
      if (n <? maxEdgeMetricsInstances)%nat then Some s
      else match fuel, oldest with
           | S fuel, Some (k, _) => evictLoop fuel edgeID (evict k s)
           | _, _ => None
           end
  end.

Definition evictAtCapLocked (edgeID : string) (s : MetricsStore) : MetricsStore :=
  default s (evictLoop (size (edges s)) edgeID s).

Definition storeKey (edgeID instance : string) : string := edgeID +:+ "/" +:+ instance.

Context (TextToMetricFamilies : string * bool -> result parseError (gmap string MetricFamily)).

Definition Ingest (now : Z) (edgeID instance : string) (r : string * bool) (s : MetricsStore) :
    MetricsStore * result parseError unit :=
  match TextToMetricFamilies r with
  | Err e => (s, Err e)
  | Ok families =>
      let key := storeKey edgeID instance in
      let s := match edges s !! key with Some _ => s | None => evictAtCapLocked edgeID s end in
      (mkMS (ttl s) (<[key := mkSnapshot edgeID instance (labelled edgeID instance <$> families) now]> (edges s))
         (<[(edgeID, instance) := f64_of_Z (now / second)]> (lastPush s)) (evicted s) (dropped s), Ok tt)
  end.

(** The store behind the handler of a push. *)
Definition ingestBody (now : Z) (edgeID instance body : string) (s : MetricsStore) : MetricsStore * ingested :=
  match Ingest now edgeID instance (MaxBytesReader maxEdgeMetricsBody body) s with
  | (s, Ok _) => (s, IngestOK)
  | (s, Err ParseRead) => (s, IngestTooLarge)
  | (s, Err ParseSyntax) => (s, IngestBad)
  end.

(** *** Reading *)

Definition expired (now : Z) (s : MetricsStore) (snap : edgeMetricsSnapshot) : bool :=
  (ttl s <? clamp64 (now - sn_receivedAt snap))%Z.

Definition sweep (now : Z) (s : MetricsStore) : MetricsStore :=
  mkMS (ttl s) (filter (fun kv => expired now s kv.2 = false) (edges s))
    (fold_left (fun m kv => if expired now s kv.2 then delete (sn_edgeID kv.2, sn_instance kv.2) m else m)
       (ord (edges s)) (lastPush s))
    (evicted s) (dropped s).

Definition sortedOf {A} (m : gmap string A) : list (string * A) :=
  merge_sort (fun a b => str_le a.1 b.1) (map_to_list m).

Definition families (now : Z) (s : MetricsStore) : MetricsStore * list MetricFamily :=
  let s := sweep now s in
  (s, List.concat ((fun kv => (sortedOf (sn_families kv.2)).*2) <$> sortedOf (edges s))).

(** *** Merging *)

Definition famLe (a b : MetricFamily) : Prop := str_le (mf_Name a) (mf_Name b).
#[export] Instance famLe_dec a b : Decision (famLe a b) := _.
#[export] Instance famLe_trans : Transitive famLe.
Proof. intros a b c. apply str_le_trans. Qed.
#[export] Instance famLe_total : Total famLe.
Proof. intros a b. apply str_le_total. Qed.

(** The second result: whether the family was dropped. *)
Fixpoint addFamily (mf : MetricFamily) (out : list MetricFamily) : list MetricFamily * bool :=
  match out with
  | [] => ([mkFamily (mf_Name mf) (mf_Help mf) (mf_Type mf) (mf_Metric mf)], false)
  | b :: out =>
      if String.eqb (mf_Name b) (mf_Name mf) then
        if negb (mf_Type b =? mf_Type mf)%Z then (b :: out, true)
        else (mkFamily (mf_Name b) (mf_Help b) (mf_Type b) (mf_Metric b ++ mf_Metric mf) :: out, false)
      else let '(out, d) := addFamily mf out in (b :: out, d)
  end.

Definition addStep (acc : list MetricFamily * Z) (mf : MetricFamily) : list MetricFamily * Z :=
  let '(out, d) := addFamily mf acc.1 in (out, acc.2 + (if d then 1 else 0))%Z.

Definition mergeFamilies (own edge : list MetricFamily) : list MetricFamily * Z :=
  let '(out, d) := fold_left addStep (own ++ edge) ([], 0%Z) in (merge_sort famLe out, d).

(** [Gather] yields families and whether it failed; [encode] writes one. *)
Definition MetricsHandler (format : string) (encode : MetricFamily -> string) (gathered : list MetricFamily * bool)
    (now : Z) (s : MetricsStore) : MetricsStore * Response :=
  let '(own, failed) := gathered in
  match failed, own with
  | true, [] => (s, Error ∅ "gather failed" 500)
  | _, _ =>
      let '(s, edge) := families now s in
      let '(merged, d) := mergeFamilies own edge in
      (mkMS (ttl s) (edges s) (lastPush s) (evicted s) (dropped s + d),
       mkResp 200 (HeaderSet "Content-Type" format ∅) (String.concat "" (encode <$> merged)))
  end.

End store.
Arguments Metric V : clear implicits.
Arguments MetricFamily V : clear implicits.
Arguments edgeMetricsSnapshot V : clear implicits.
Arguments MetricsStore V : clear implicits.

(** ** The registry *)

(** The order in which the registry is ranged over is given with it. *)
Section registry.
Context (Sum256 : string -> string).
Import Authz.

Record registryGauges := mkRegistry {
  registryTotal : gmap string f64;
  tokenDisabledNoRotation : gmap string f64;
  authzGeneration : f64;
}.

(** [binary.BigEndian.Uint64] of two zero bytes and the first six of the digest. *)
Fixpoint bigEndian (acc : Z) (s : string) : Z :=
  match s with
  | "" => acc
  | String c s => bigEndian (256 * acc + Z.of_N (N_of_ascii c))%Z s
  end.

Definition digest48 (lines : list string) : Z :=
  bigEndian 0 (str_take 6 (Sum256 (join_char ";" (merge_sort str_le lines)))).

Definition registryFingerprint (lines : list string) : f64 := f64_of_Z (digest48 lines).

Definition registryLine (e : Entry) : list string :=
  if String.eqb (ID e) "" then [] else [ID e +:+ ":" +:+ (if Disabled e then "1" else "0")].

Definition registryLines (l : list (string * Entry)) : list string := flat_map (fun kv => registryLine kv.2) l.

Definition AuthzGeneration (l : list (string * Entry)) : f64 := registryFingerprint (registryLines l).

(** Both loops of [SetRegistryMetrics] range over the map. *)
Definition SetRegistryMetrics (l l' : list (string * Entry)) : registryGauges :=
  fold_left (fun g kv =>
      let e := kv.2 in
      if String.eqb (ID e) "" then g
      else mkRegistry (<[ID e := f64_of_Z (if Disabled e then 0 else 1)]> (registryTotal g))
             (if Disabled e then <[ID e := f64_of_Z 1]> (tokenDisabledNoRotation g) else tokenDisabledNoRotation g)
             (authzGeneration g))
    l (mkRegistry ∅ ∅ (AuthzGeneration l')).

End registry.

(** ** The signer *)

Record signerGauges := mkSignerGauges {
  signerFingerprint : gmap string f64;
  signerGeneration : gmap string f64;
  signerBundleCerts : gmap string f64;
  signerLoaded : f64;
  targetCAID : gmap string f64;
  activeSignerFP : gmap (string * string) f64;
}.

Definition noSigner : signerGauges := mkSignerGauges ∅ ∅ ∅ (f64_of_Z 0) ∅ ∅.

Definition setSignerMetrics (caID activeFP : string) (gen : Z) (certCount : nat) : signerGauges :=
  mkSignerGauges {[caID := f64_of_Z 1]} {[caID := f64_of_Z gen]} {[caID := f64_of_Z (Z.of_nat certCount)]}
    (f64_of_Z 1) {[caID := f64_of_Z 1]}
    (if String.eqb activeFP "" then ∅ else {[(caID, activeFP) := f64_of_Z 1]}).

Section replica.
Context {Cert Pub Key : Type} `{!PKIOps Cert Pub Key}.

(** [SetSigner] with the gauges it sets under the same lock. *)
Definition install (signer : Signer.Signer Cert Key) (gen : Z) (sm : Server Cert Key * signerGauges) :
    Server Cert Key * signerGauges :=
  let '(s, g) := sm in
  (SetSigner signer gen s,
   match signerState s with
   | Some st => if (gen <=? sg_gen st)%Z then g
                else setSignerMetrics (Signer.CAID signer) (Signer.ActiveFP signer) gen (Signer.BundleLen signer)
   | None => setSignerMetrics (Signer.CAID signer) (Signer.ActiveFP signer) gen (Signer.BundleLen signer)
   end).

(** A gauge or counter vector as a scrape finds it; the wire types of the two are 1 and 0. *)
Definition gaugeFamily (name : string) (l : list (list (string * string) * f64)) : MetricFamily f64 :=
  mkFamily name "" 1 ((fun kv => mkMetric kv.1 kv.2) <$> l).
Definition counterFamily (name : string) (l : list (list (string * string) * f64)) : MetricFamily f64 :=
  mkFamily name "" 0 ((fun kv => mkMetric kv.1 kv.2) <$> l).

Definition by_label (label : string) (m : gmap string f64) : list (list (string * string) * f64) :=
  (fun kv => ([(label, kv.1)], kv.2)) <$> map_to_list m.
Definition by_labels (l1 l2 : string) (m : gmap (string * string) f64) : list (list (string * string) * f64) :=
  (fun kv => ([(l1, kv.1.1); (l2, kv.1.2)], kv.2)) <$> map_to_list m.

(** The ledger of issued certificates, as the counter vector that holds it: a counter
    counts in an integer and is read as a float. *)
Definition issuedCounts (s : Server Cert Key) : gmap (string * string) f64 :=
  f64_of_Z <$> fold_left (fun m k => <[k := (default 0 (m !! k) + 1)%Z]> m) (issued s) ∅.

(** The convergence series of a control plane, without the pushed ones. *)
Definition ownFamilies (s : Server Cert Key) (g : signerGauges) (rg : registryGauges) : list (MetricFamily f64) :=
  [gaugeFamily "parapet_edge_ca_signer_fingerprint" (by_label "ca_id" (signerFingerprint g));
   gaugeFamily "parapet_edge_ca_signer_generation" (by_label "ca_id" (signerGeneration g));
   gaugeFamily "parapet_edge_ca_bundle_certs" (by_label "ca_id" (signerBundleCerts g));
   gaugeFamily "parapet_edge_ca_target_ca_id" (by_label "ca_id" (targetCAID g));
   gaugeFamily "parapet_edge_ca_active_signer_fp" (by_labels "ca_id" "sigfp" (activeSignerFP g));
   counterFamily "parapet_edge_ca_issued_total" (by_labels "edge_id" "sigfp" (issuedCounts s));
   gaugeFamily "parapet_edge_registry_total" (by_label "edge_id" (registryTotal rg));
   gaugeFamily "parapet_edge_authz_generation" [([], authzGeneration rg)]].

End replica.

(** ** The age of a rotation *)

(** Unix nanoseconds, and the threshold. *)
Record stuckClock := mkStuck { rotationOverlapSince : Z; rotationStuckDeadline : Z }.

Definition SetRotationStuckDeadline (d : Z) (c : stuckClock) : stuckClock := mkStuck (rotationOverlapSince c) d.

Definition SetRotationOverlap (inOverlap : bool) (startedUnix now : Z) (c : stuckClock) : stuckClock :=
  if negb inOverlap then mkStuck 0 (rotationStuckDeadline c)
  else if (0 <? startedUnix)%Z then mkStuck (wrap64 (startedUnix * second)) (rotationStuckDeadline c)
  else if (rotationOverlapSince c =? 0)%Z then mkStuck now (rotationStuckDeadline c) else c.

Definition rotationStuck (now : Z) (c : stuckClock) : f64 :=
  if (rotationOverlapSince c =? 0)%Z || (rotationStuckDeadline c <=? 0)%Z then f64_of_Z 0
  else if (rotationStuckDeadline c <? wrap64 (now - rotationOverlapSince c))%Z then f64_of_Z 1 else f64_of_Z 0.

End Metrics.

(** ** Lemmas *)

Module MetricsLemmas.
Import Metrics EdgeServer.

(** *** Labels *)

Definition label (name : string) (l : list (string * string)) : option string :=
  snd <$> List.find (fun kv => String.eqb kv.1 name) l.

Lemma overrideLabel_some name value l l' :
  overrideLabel name value l = Some l' -> l'.*1 = l.*1 /\
  (forall n, label n l' = if String.eqb n name then Some value else label n l).
Proof.
  revert l'. induction l as [|[n v] l IH]; simpl; [done|]. intros l' H.
  destruct (String.eqb_spec n name) as [->|Hne].
  - injection H as <-. split; [done|]. intros n. unfold label. simpl. rewrite (String.eqb_sym n name).
    by destruct (String.eqb name n).
  - destruct (overrideLabel name value l) as [l1|]; [|done]. injection H as <-.
    destruct (IH l1 eq_refl) as [Hk Hl]. split; [by rewrite !fmap_cons, Hk|]. intros n'. unfold label in *. simpl.
    destruct (String.eqb_spec n n') as [<-|]; simpl; [|apply Hl].
    by rewrite (proj2 (String.eqb_neq _ _) Hne).
Qed.

Lemma overrideLabel_none name value l : overrideLabel name value l = None -> name ∉ l.*1.
Proof.
  induction l as [|[n v] l IH]; simpl; [intros _ ?%elem_of_nil; done|].
  destruct (String.eqb_spec n name); [done|].
  destruct (overrideLabel name value l); [done|]. intros _ [->|Hin]%elem_of_cons; [done|]. by apply IH.
Qed.

Lemma label_in name v l : NoDup l.*1 -> label name l = Some v <-> (name, v) ∈ l.
Proof.
  induction l as [|[n w] l IH]; unfold label; simpl.
  - intros _. split; [done|by intros ?%elem_of_nil].
  - intros [Hn Hnd]%NoDup_cons. rewrite elem_of_cons. destruct (String.eqb_spec n name) as [->|Hne]; simpl.
    + split; [intros [= ->]; by left|]. intros [[= ->]|Hin]; [done|].
      destruct Hn. apply list_elem_of_fmap. by exists (name, v).
    + unfold label in IH. rewrite IH by done. split; [by right|]. by intros [[= -> ->]|].
Qed.

Lemma label_perm name l l' : NoDup l.*1 -> l ≡ₚ l' -> label name l = label name l'.
Proof.
  intros Hnd Hp. assert (Hnd' : NoDup l'.*1) by by rewrite <- (fmap_Permutation fst _ _ Hp).
  apply option_eq. intros v. by rewrite !label_in, Hp.
Qed.

Section store.
Context {V : Type}.
#[local] Abbreviation metric := (Metric V).
#[local] Abbreviation family := (MetricFamily V).
#[local] Abbreviation store := (MetricsStore V).

Lemma setLabel_spec name value (m : metric) :
  NoDup (m_Label m).*1 -> NoDup (m_Label (setLabel name value m)).*1 /\
  (forall n, label n (m_Label (setLabel name value m)) = if String.eqb n name then Some value else label n (m_Label m)) /\
  m_Value (setLabel name value m) = m_Value m.
Proof.
  intros Hnd. unfold setLabel. destruct (overrideLabel name value (m_Label m)) as [l|] eqn:Ho; simpl.
  - apply overrideLabel_some in Ho as [Hk Hl]. by rewrite Hk.
  - apply overrideLabel_none in Ho as Hn.
    assert (Hnd' : NoDup (m_Label m ++ [(name, value)]).*1).
    { rewrite fmap_app. apply NoDup_app. split; [done|]. split; [|apply NoDup_singleton].
      simpl. by intros x Hx ->%list_elem_of_singleton. }
    split; [by rewrite merge_sort_Permutation|]. split; [|done]. intros n.
    rewrite (label_perm n _ (m_Label m ++ [(name, value)])); [|by rewrite merge_sort_Permutation|apply merge_sort_Permutation].
    apply option_eq. intros v. rewrite label_in by done. rewrite elem_of_app, list_elem_of_singleton.
    destruct (String.eqb_spec n name) as [->|Hne].
    + split; [|intros [= ->]; by right]. intros [Hin|[= ->]]; [|done].
      destruct Hn. apply list_elem_of_fmap. by exists (name, v).
    + rewrite label_in by done. split; [|by left]. intros [Hin|[= -> ->]]; done.
Qed.

(** What a served series says of where it came from. *)
Definition attributed (edgeID instance : string) (m : metric) : Prop :=
  NoDup (m_Label m).*1 /\ label "edge_id" (m_Label m) = Some edgeID /\
  label "edge_instance" (m_Label m) = Some instance.

Lemma labelled_attributed edgeID instance (mf : family) m :
  (forall m, m ∈ mf_Metric mf -> NoDup (m_Label m).*1) ->
  m ∈ mf_Metric (labelled edgeID instance mf) -> attributed edgeID instance m.
Proof.
  intros Hnd (m0 & -> & Hin)%list_elem_of_fmap. destruct (setLabel_spec "edge_id" edgeID m0 (Hnd _ Hin)) as (H1 & H2 & _).
  destruct (setLabel_spec "edge_instance" instance (setLabel "edge_id" edgeID m0) H1) as (H3 & H4 & _).
  split; [done|]. by rewrite !H4, !H2.
Qed.

(** *** The cap *)

Section cap.
Context (ord : gmap string (edgeMetricsSnapshot V) -> list (string * edgeMetricsSnapshot V)).
Context (ord_perm : forall m, ord m ≡ₚ map_to_list m).

Definition ofEdge (edgeID : string) (kv : string * edgeMetricsSnapshot V) : bool :=
  String.eqb (sn_edgeID kv.2) edgeID.

(** How many snapshots an identity has. *)
Definition instances (edgeID : string) (s : store) : nat := countb (ofEdge edgeID) (map_to_list (edges s)).

Lemma tally_step edgeID kv acc :
  tally edgeID acc kv =
  if ofEdge edgeID kv then
    (S acc.1, match acc.2 with
              | None => Some (kv.1, sn_receivedAt kv.2)
              | Some (_, o) => if (sn_receivedAt kv.2 <? o)%Z then Some (kv.1, sn_receivedAt kv.2) else acc.2
              end)
  else acc.
Proof. destruct kv. unfold tally, ofEdge. simpl. by destruct (String.eqb _ _). Qed.

Lemma tally_count edgeID l acc : (fold_left (tally edgeID) l acc).1 = acc.1 + countb (ofEdge edgeID) l.
Proof.
  revert acc. induction l as [|kv l IH]; intros acc; simpl; [lia|]. rewrite IH, tally_step.
  destruct (ofEdge edgeID kv); simpl; lia.
Qed.

Lemma tally_found edgeID l acc :
  0 < countb (ofEdge edgeID) l \/ acc.2 <> None -> (fold_left (tally edgeID) l acc).2 <> None.
Proof.
  revert acc. induction l as [|kv l IH]; intros acc; simpl; [intros [?|?]; [lia|done]|].
  intros H. apply IH. rewrite tally_step. destruct (ofEdge edgeID kv).
  - right. destruct acc as [n [[k o]|]]; simpl; [|done]. by destruct (_ <? _)%Z.
  - destruct H as [?|?]; [left; lia|by right].
Qed.

Lemma tally_in edgeID (l : list (string * edgeMetricsSnapshot V)) acc k t :
  (fold_left (tally edgeID) l acc).2 = Some (k, t) ->
  acc.2 = Some (k, t) \/ exists snap, (k, snap) ∈ l /\ sn_edgeID snap = edgeID.
Proof.
  revert acc. induction l as [|kv l IH]; intros acc; simpl; [by left|].
  intros [H|(snap & Hin & He)]%IH; [|right; exists snap; split; [by right|done]].
  rewrite tally_step in H. destruct (ofEdge edgeID kv) eqn:Ho; [|by left].
  assert (Hk : acc.2 = Some (k, t) \/ kv.1 = k).
  { destruct acc as [n [[k' o]|]]; simpl in H; [destruct (_ <? _)%Z|]; simplify_eq; auto. }
  destruct Hk as [?|<-]; [by left|]. right. exists kv.2. split; [rewrite <- surjective_pairing; left|].
  by apply String.eqb_eq.
Qed.

Lemma countb_perm {A} (f : A -> bool) (l l' : list A) : l ≡ₚ l' -> countb f l = countb f l'.
Proof. induction 1; simpl; lia. Qed.

Lemma countb_le {A} (f : A -> bool) (l : list A) : countb f l <= length l.
Proof. induction l as [|x l IH]; simpl; [lia|]. destruct (f x); lia. Qed.

Lemma instances_delete edgeID k snap (s : store) :
  edges s !! k = Some snap ->
  instances edgeID s = (if ofEdge edgeID (k, snap) then 1 else 0) + instances edgeID (evict k s).
Proof.
  intros Hk. unfold instances, evict. rewrite Hk. simpl.
  rewrite (countb_perm _ _ _ (symmetry (map_to_list_delete _ _ _ Hk))). done.
Qed.

Lemma count_spec edgeID (s : store) :
  (count ord edgeID s).1 = instances edgeID s /\
  (forall k t, (count ord edgeID s).2 = Some (k, t) -> exists snap, edges s !! k = Some snap /\ sn_edgeID snap = edgeID) /\
  (0 < instances edgeID s -> (count ord edgeID s).2 <> None).
Proof using ord_perm.
  pose proof (countb_perm (ofEdge edgeID) _ _ (ord_perm (edges s))) as Hc. split; [|split].
  - unfold count. by rewrite tally_count.
  - intros k t [?|(snap & Hin & He)]%tally_in; [done|]. exists snap. rewrite ord_perm in Hin.
    by apply elem_of_map_to_list in Hin.
  - intros Hpos. apply tally_found. left. by rewrite Hc.
Qed.

(** Eviction ends below the cap and takes only snapshots of the identity. *)
Lemma evictLoop_ends edgeID fuel (s : store) :
  instances edgeID s <= fuel + 127 ->
  exists s', evictLoop ord fuel edgeID s = Some s' /\ instances edgeID s' < 128 /\
    (forall k snap, edges s' !! k = Some snap -> edges s !! k = Some snap) /\
    (forall k snap, edges s !! k = Some snap -> sn_edgeID snap <> edgeID -> edges s' !! k = Some snap).
Proof using ord_perm.
  revert s. induction fuel as [|fuel IH]; intros s Hn; cbn [evictLoop];
    destruct (count_spec edgeID s) as (H1 & H2 & H3); destruct (count ord edgeID s) as [n oldest]; simpl in H1; subst n;
    unfold maxEdgeMetricsInstances; destruct (Nat.ltb_spec (instances edgeID s) 128) as [Hlt|Hge];
    try (exists s; done); [lia|].
  destruct oldest as [[k t]|]; [|by destruct H3; [lia|]].
  destruct (H2 k t eq_refl) as (snap & Hk & He).
  pose proof (instances_delete edgeID k snap s Hk) as Hd. unfold ofEdge in Hd. simpl in Hd.
  rewrite He, String.eqb_refl in Hd. destruct (IH (evict k s)) as (s' & Hs' & Hlt & Hsub & Hkeep); [lia|].
  exists s'. split; [done|]. split; [done|]. unfold evict in Hsub, Hkeep. rewrite Hk in Hsub, Hkeep. simpl in Hsub, Hkeep.
  split; [intros k' sn' Hl%Hsub; by apply lookup_delete_Some in Hl as [_ ?]|].
  intros k' sn' Hl Hne. apply Hkeep; [|done]. apply lookup_delete_Some. split; [|done]. intros <-. congruence.
Qed.

Lemma evictAtCap_spec edgeID (s : store) :
  let s' := evictAtCapLocked ord edgeID s in
  instances edgeID s' < 128 /\
  (forall k snap, edges s' !! k = Some snap -> edges s !! k = Some snap) /\
  (forall k snap, edges s !! k = Some snap -> sn_edgeID snap <> edgeID -> edges s' !! k = Some snap).
Proof using ord_perm.
  destruct (evictLoop_ends edgeID (size (edges s)) s) as (s' & Hs' & H).
  { unfold instances. pose proof (countb_le (ofEdge edgeID) (map_to_list (edges s))) as Hle.
    rewrite length_map_to_list in Hle. lia. }
  unfold evictAtCapLocked. by rewrite Hs'.
Qed.

End cap.

(** *** The store among its pushes *)

Section reach.
Context (ord : gmap string (edgeMetricsSnapshot V) -> list (string * edgeMetricsSnapshot V)).
Context (ord_perm : forall m, ord m ≡ₚ map_to_list m).
Context (parse : string * bool -> result parseError (gmap string family)).

(** A push that was stored. *)
Record push := mkPush { p_edgeID : string; p_instance : string; p_now : Z }.

Definition pushKey (p : push) : string := storeKey (p_edgeID p) (p_instance p).

(** A store that came from the pushes [ps]. *)
Record Inv (ps : list push) (s : store) : Prop := {
  iv_key : forall k snap, edges s !! k = Some snap -> k = storeKey (sn_edgeID snap) (sn_instance snap);
  iv_from : forall k snap, edges s !! k = Some snap ->
    mkPush (sn_edgeID snap) (sn_instance snap) (sn_receivedAt snap) ∈ ps;
  iv_labels : forall k snap name mf m, edges s !! k = Some snap -> sn_families snap !! name = Some mf ->
    m ∈ mf_Metric mf -> attributed (sn_edgeID snap) (sn_instance snap) m;
}.

(** The parser yields series whose label names are distinct. *)
Definition distinctLabels : Prop :=
  forall r fams name mf m, parse r = Ok fams -> fams !! name = Some mf -> m ∈ mf_Metric mf -> NoDup (m_Label m).*1.

Lemma Inv_sub ps (s s' : store) :
  Inv ps s -> (forall k snap, edges s' !! k = Some snap -> edges s !! k = Some snap) -> Inv ps s'.
Proof.
  intros [H1 H2 H3] Hsub. split.
  - intros k snap Hk. by apply H1, Hsub.
  - intros k snap Hk. by eapply H2, Hsub.
  - intros k snap name mf m Hk. by eapply H3, Hsub.
Qed.

Lemma Ingest_cases now edgeID instance r (s : store) :
  (exists e, parse r = Err e /\ Ingest ord parse now edgeID instance r s = (s, Err e)) \/
  (exists fams s0, parse r = Ok fams /\
     s0 = match edges s !! storeKey edgeID instance with Some _ => s | None => evictAtCapLocked ord edgeID s end /\
     Ingest ord parse now edgeID instance r s =
       (mkMS (ttl s0) (<[storeKey edgeID instance := mkSnapshot edgeID instance (labelled edgeID instance <$> fams) now]>
                         (edges s0))
          (<[(edgeID, instance) := f64_of_Z (now / second)]> (lastPush s0)) (evicted s0) (dropped s0), Ok tt)).
Proof.
  unfold Ingest. destruct (parse r) as [fams|e]; [right; eauto 6|left; eauto].
Qed.

Lemma Ingest_Inv ps now edgeID instance r (s : store) :
  distinctLabels -> Inv ps s ->
  Inv (match parse r with Ok _ => mkPush edgeID instance now :: ps | Err _ => ps end)
    (Ingest ord parse now edgeID instance r s).1.
Proof using ord_perm.
  intros Hparse Hinv.
  destruct (Ingest_cases now edgeID instance r s) as [(e & He & ->)|(fams & s0 & Hok & Hs0 & ->)];
    [by rewrite He|]. rewrite Hok. simpl.
  assert (H0 : Inv ps s0).
  { subst s0. destruct (edges s !! _); [done|]. eapply Inv_sub; [done|]. apply evictAtCap_spec, ord_perm. }
  destruct H0 as [H1 H2 H3]. split; simpl.
  - intros k snap [[<- <-]|[_ Hk]]%lookup_insert_Some; [done|by apply H1].
  - intros k snap [[<- <-]|[_ Hk]]%lookup_insert_Some; [left|right; by eapply H2].
  - intros k snap name mf m [[<- <-]|[_ Hk]]%lookup_insert_Some; simpl; [|by eapply H3].
    rewrite lookup_fmap. intros (mf0 & Hmf & ->)%fmap_Some Hm.
    eapply labelled_attributed; [|exact Hm]. intros m0 Hm0. by eapply Hparse.
Qed.

Lemma ingestBody_Inv ps now edgeID instance body (s : store) :
  distinctLabels -> Inv ps s ->
  Inv (match ingestBody ord parse now edgeID instance body s with
       | (_, IngestOK) => mkPush edgeID instance now :: ps
       | _ => ps
       end) (ingestBody ord parse now edgeID instance body s).1.
Proof using ord_perm.
  intros Hparse Hinv. pose proof (Ingest_Inv ps now edgeID instance (MaxBytesReader maxEdgeMetricsBody body) s Hparse Hinv) as H.
  unfold ingestBody. destruct (Ingest_cases now edgeID instance (MaxBytesReader maxEdgeMetricsBody body) s)
    as [(e & He & Hi)|(fams & s0 & Hok & Hs0 & Hi)]; rewrite Hi in *; simpl in H.
  - rewrite He in H. by destruct e.
  - by rewrite Hok in H.
Qed.

Lemma sweep_Inv ps now (s : store) : Inv ps s -> Inv ps (sweep ord now s).
Proof. intros H. eapply Inv_sub; [done|]. intros k snap. simpl. by intros [? _]%map_lookup_filter_Some. Qed.

Lemma sortedOf_in {A} (m : gmap string A) k v : (k, v) ∈ sortedOf m <-> m !! k = Some v.
Proof. unfold sortedOf. by rewrite merge_sort_Permutation, elem_of_map_to_list. Qed.

Lemma families_in now (s : store) mf :
  mf ∈ (families ord now s).2 <->
  exists k snap name, edges s !! k = Some snap /\ expired now s snap = false /\ sn_families snap !! name = Some mf.
Proof.
  unfold families. simpl. rewrite list_elem_of_In, in_concat. setoid_rewrite <- list_elem_of_In. split.
  - intros (l & ([k snap] & -> & Hk)%list_elem_of_fmap & ([name mf'] & -> & Hmf)%list_elem_of_fmap).
    apply sortedOf_in in Hk. apply sortedOf_in in Hmf. simpl in Hk. apply map_lookup_filter_Some in Hk as [Hk He]. eauto 6.
  - intros (k & snap & name & Hk & He & Hmf). exists ((sortedOf (sn_families snap)).*2). split.
    + apply list_elem_of_fmap. exists (k, snap). split; [done|]. apply sortedOf_in. simpl.
      by apply map_lookup_filter_Some.
    + apply list_elem_of_fmap. exists (name, mf). split; [done|]. by apply sortedOf_in.
Qed.

(** *** Instances of one identity *)

(** Ids under which certificates are issued have none. *)
Definition slashFree (id : string) : Prop := mem_char c_slash id = false.

Lemma storeKey_inj e e' i i' :
  slashFree e -> slashFree e' -> storeKey e i = storeKey e' i' -> e = e' /\ i = i'.
Proof.
  unfold storeKey, slashFree. revert e'. induction e as [|c e IH]; intros [|c' e']; simpl.
  - intros _ _ [= ->]. done.
  - intros _ H [= <- _]. apply orb_false_iff in H as [H _]. done.
  - intros H _ [= -> _]. apply orb_false_iff in H as [H _]. done.
  - intros [_ H1]%orb_false_iff [_ H2]%orb_false_iff [= -> Heq]. by destruct (IH e' H1 H2 Heq) as [-> ->].
Qed.

Definition Capped (s : store) : Prop :=
  (forall k snap, edges s !! k = Some snap -> slashFree (sn_edgeID snap)) /\
  (forall e, instances e s <= 128).

Lemma instances_insert e k snap (s : store) tl lp ev dr :
  instances e (mkMS tl (<[k := snap]> (edges s)) lp ev dr) =
  (if ofEdge e (k, snap) then 1 else 0) + instances e (mkMS tl (delete k (edges s)) lp ev dr).
Proof.
  unfold instances. simpl. rewrite <- insert_delete_eq.
  rewrite (countb_perm _ _ _ (map_to_list_insert (delete k (edges s)) k snap (lookup_delete_eq _ _))). done.
Qed.

Lemma instances_sub e (s s' : store) :
  (forall k snap, edges s' !! k = Some snap -> edges s !! k = Some snap) -> instances e s' <= instances e s.
Proof.
  intros Hsub. assert (Hm : edges s' ⊆ edges s) by by apply map_subseteq_spec.
  apply map_to_list_submseteq, submseteq_Permutation in Hm as [l Hp].
  unfold instances. rewrite (countb_perm _ _ _ Hp), countb_app. lia.
Qed.

Lemma Ingest_Capped now edgeID instance r (s : store) :
  slashFree edgeID -> Capped s -> (forall k snap, edges s !! k = Some snap -> k = storeKey (sn_edgeID snap) (sn_instance snap)) ->
  Capped (Ingest ord parse now edgeID instance r s).1.
Proof using ord_perm.
  intros Hfree [Hids Hcap] Hkeys.
  destruct (Ingest_cases now edgeID instance r s) as [(e & _ & ->)|(fams & s0 & _ & Hs0 & ->)]; [done|]. simpl.
  pose proof (evictAtCap_spec ord ord_perm edgeID s) as (Hlt & Hsub & _). split.
  - simpl. intros k snap [[<- <-]|[_ Hk]]%lookup_insert_Some; [done|].
    subst s0. destruct (edges s !! storeKey edgeID instance); [by eapply Hids|by eapply Hids, Hsub].
  - intros e. rewrite instances_insert. unfold ofEdge. simpl.
    assert (Hd : forall e, instances e (mkMS (ttl s0) (delete (storeKey edgeID instance) (edges s0))
        (<[(edgeID, instance):=f64_of_Z (now / second)]> (lastPush s0)) (evicted s0) (dropped s0)) <= instances e s0).
    { intros e'. apply instances_sub. simpl. by intros k snap [_ ?]%lookup_delete_Some. }
    assert (H0 : forall e, instances e s0 <= instances e s).
    { intros e'. subst s0. destruct (edges s !! _); [done|]. by apply instances_sub. }
    specialize (Hcap e). pose proof (Hd e). pose proof (H0 e).
    destruct (String.eqb_spec edgeID e) as [<-|]; [|simpl; lia]. simpl.
    destruct (edges s !! storeKey edgeID instance) as [old|] eqn:Hold; subst s0; [|lia].
    assert (Hsame : sn_edgeID old = edgeID).
    { pose proof (Hkeys _ _ Hold) as Hk. apply storeKey_inj in Hk as [-> _]; [done|done|by eapply Hids]. }
    pose proof (instances_delete edgeID _ _ s Hold) as He. unfold ofEdge, evict in He. rewrite Hold in He.
    simpl in He. rewrite Hsame, String.eqb_refl in He. unfold instances in *. simpl in *. lia.
Qed.

(** A push of one identity leaves the others' snapshots. *)
Lemma Ingest_others now edgeID instance r (s : store) k snap :
  slashFree edgeID -> slashFree (sn_edgeID snap) -> k = storeKey (sn_edgeID snap) (sn_instance snap) ->
  edges s !! k = Some snap -> sn_edgeID snap <> edgeID -> edges (Ingest ord parse now edgeID instance r s).1 !! k = Some snap.
Proof using ord_perm.
  intros Hf Hf' -> Hk Hne.
  destruct (Ingest_cases now edgeID instance r s) as [(e & _ & ->)|(fams & s0 & _ & Hs0 & ->)]; [done|]. simpl.
  rewrite lookup_insert_ne.
  - subst s0. destruct (edges s !! storeKey edgeID instance); [done|]. by apply (evictAtCap_spec ord ord_perm edgeID s).
  - intros [? _]%storeKey_inj; [by subst|done|done].
Qed.

End reach.

(** *** Merging *)

Definition named (n : string) (f : family) : bool := String.eqb (mf_Name f) n.
Definition alike (f g : family) : bool := named (mf_Name f) g && (mf_Type g =? mf_Type f)%Z.

(** The merge, family by family: the first of a name decides its help and type. *)
Definition mergedAs (l : list family) (n : string) : option family :=
  f ← List.find (named n) l;
  Some (mkFamily n (mf_Help f) (mf_Type f) (List.concat (mf_Metric <$> List.filter (alike f) l))).

(** How many are dropped for their type. *)
Definition conflicting (l : list family) : nat :=
  countb (fun g => match List.find (named (mf_Name g)) l with
                   | Some f => negb (mf_Type f =? mf_Type g)%Z
                   | None => false
                   end) l.

Lemma addFamily_names (mf : family) out :
  mf_Name <$> (addFamily mf out).1 =
  (mf_Name <$> out) ++ (if existsb (named (mf_Name mf)) out then [] else [mf_Name mf]).
Proof.
  induction out as [|b out IH]; [done|]. simpl. unfold named at 1.
  destruct (String.eqb (mf_Name b) (mf_Name mf)) eqn:He; simpl.
  - destruct (mf_Type b =? mf_Type mf)%Z; simpl; by rewrite app_nil_r.
  - destruct (addFamily mf out) as [out' d]. simpl fst in *. by rewrite !fmap_cons, IH.
Qed.

Lemma addFamily_find (mf : family) out n :
  List.find (named n) (addFamily mf out).1 =
  if named n mf then
    match List.find (named n) out with
    | None => Some mf
    | Some b => Some (if (mf_Type b =? mf_Type mf)%Z
                      then mkFamily (mf_Name b) (mf_Help b) (mf_Type b) (mf_Metric b ++ mf_Metric mf) else b)
    end
  else List.find (named n) out.
Proof.
  induction out as [|b out IH]; simpl.
  - unfold named. simpl. destruct mf; simpl. by destruct (String.eqb _ _).
  - destruct (String.eqb_spec (mf_Name b) (mf_Name mf)) as [He|Hne].
    + unfold named in *. rewrite <- He. destruct (Z.eqb_spec (mf_Type b) (mf_Type mf)) as [|]; simpl;
        destruct (String.eqb_spec (mf_Name b) n); try done.
      * by rewrite (proj2 (Z.eqb_eq _ _)).
      * by rewrite (proj2 (Z.eqb_neq _ _)).
    + destruct (addFamily mf out) as [out' d]. simpl in *. rewrite IH. unfold named.
      destruct (String.eqb_spec (mf_Name b) n) as [<-|]; [|done].
      by rewrite (proj2 (String.eqb_neq _ _) (not_eq_sym Hne)).
Qed.

Lemma addFamily_dropped (mf : family) out :
  (addFamily mf out).2 = match List.find (named (mf_Name mf)) out with
                         | Some b => negb (mf_Type b =? mf_Type mf)%Z
                         | None => false
                         end.
Proof.
  induction out as [|b out IH]; [done|]. simpl. unfold named at 1.
  destruct (String.eqb _ _); simpl; [by destruct (mf_Type b =? mf_Type mf)%Z|].
  destruct (addFamily mf out). simpl in *. done.
Qed.

Lemma mergedAs_snoc (l : list family) mf n :
  mergedAs (l ++ [mf]) n =
  if named n mf then
    match mergedAs l n with
    | None => Some mf
    | Some b => Some (if (mf_Type b =? mf_Type mf)%Z
                      then mkFamily (mf_Name b) (mf_Help b) (mf_Type b) (mf_Metric b ++ mf_Metric mf) else b)
    end
  else mergedAs l n.
Proof.
  unfold mergedAs. rewrite find_app. destruct (List.find (named n) l) as [f|] eqn:Hf; simpl.
  - apply List.find_some in Hf as [_ Hn%String.eqb_eq]. rewrite List.filter_app. simpl. unfold alike at 2, named.
    rewrite Hn, (Z.eqb_sym (mf_Type mf)). destruct (String.eqb (mf_Name mf) n); simpl; [|by rewrite app_nil_r].
    destruct (Z.eqb_spec (mf_Type f) (mf_Type mf)); simpl; [|by rewrite app_nil_r].
    by rewrite fmap_app, concat_app; simpl; rewrite app_nil_r.
  - destruct (named n mf) eqn:Hm; [|done]. simpl. rewrite List.filter_app.
    assert (Hnil : List.filter (alike mf) l = []).
    { apply String.eqb_eq in Hm as <-. clear -Hf. induction l as [|g l IH]; [done|]. simpl in *.
      unfold alike at 1. destruct (named (mf_Name mf) g); [done|]. simpl. by apply IH. }
    rewrite Hnil. simpl. unfold alike, named. rewrite String.eqb_refl, Z.eqb_refl. simpl.
    apply String.eqb_eq in Hm as <-. rewrite app_nil_r. by destruct mf.
Qed.

Lemma existsb_find {A} (p : A -> bool) l : existsb p l = match List.find p l with Some _ => true | None => false end.
Proof. induction l as [|x l IH]; [done|]. simpl. by destruct (p x). Qed.

Lemma conflicting_snoc (l : list family) mf :
  conflicting (l ++ [mf]) =
  conflicting l + match List.find (named (mf_Name mf)) l with
                  | Some f => if (mf_Type f =? mf_Type mf)%Z then 0 else 1
                  | None => 0
                  end.
Proof.
  unfold conflicting. rewrite countb_app. f_equal.
  - assert (H : forall l0, (forall g, g ∈ l0 -> g ∈ l) ->
      countb (fun g => match List.find (named (mf_Name g)) (l ++ [mf]) with
                       | Some f => negb (mf_Type f =? mf_Type g)%Z | None => false end) l0 =
      countb (fun g => match List.find (named (mf_Name g)) l with
                       | Some f => negb (mf_Type f =? mf_Type g)%Z | None => false end) l0); [|by apply H].
    induction l0 as [|g l0 IH]; [done|]. intros Hsub. simpl. rewrite IH by (intros ? ?; apply Hsub; by right).
    rewrite find_app. destruct (List.find (named (mf_Name g)) l) as [f|] eqn:Hf; [done|].
    pose proof (List.find_none _ _ Hf g (proj1 (list_elem_of_In _ _) (Hsub g ltac:(by left)))) as Hn.
    unfold named in Hn. by rewrite String.eqb_refl in Hn.
  - simpl. rewrite find_app. destruct (List.find _ l) as [f|].
    + by destruct (mf_Type f =? mf_Type mf)%Z.
    + simpl. unfold named. by rewrite String.eqb_refl, Z.eqb_refl.
Qed.

Lemma merge_spec (l : list family) :
  let '(out, d) := fold_left addStep l ([], 0%Z) in
  NoDup (mf_Name <$> out) /\ (forall n, List.find (named n) out = mergedAs l n) /\ d = Z.of_nat (conflicting l).
Proof.
  induction l as [|mf l IH] using rev_ind; [repeat split; constructor|].
  rewrite fold_left_app. destruct (fold_left addStep l ([], 0%Z)) as [out d]. destruct IH as (Hnd & Hf & ->).
  cbn [fold_left]. unfold addStep. cbn [fst snd]. pose proof (addFamily_names mf out) as Hnames.
  pose proof (fun n => addFamily_find mf out n) as Hfind. pose proof (addFamily_dropped mf out) as Hdrop.
  destruct (addFamily mf out) as [out' dr]. simpl in Hnames, Hfind, Hdrop. split; [|split].
  - rewrite Hnames, existsb_find. destruct (List.find (named (mf_Name mf)) out) as [b|] eqn:Hb; [by rewrite app_nil_r|].
    apply NoDup_app. split; [done|]. split; [|apply NoDup_singleton].
    intros x (b & -> & Hin)%list_elem_of_fmap Hx%list_elem_of_singleton.
    pose proof (List.find_none _ _ Hb b (proj1 (list_elem_of_In _ _) Hin)) as Hn. unfold named in Hn.
    by rewrite Hx, String.eqb_refl in Hn.
  - intros n. by rewrite Hfind, Hf, mergedAs_snoc.
  - rewrite conflicting_snoc, Hdrop, Hf. unfold mergedAs. destruct (List.find _ l) as [f|]; simpl; [|lia].
    destruct (mf_Type f =? mf_Type mf)%Z; simpl; lia.
Qed.

Lemma mergeFamilies_spec (own edge : list family) :
  let '(out, d) := mergeFamilies own edge in
  StronglySorted famLe out /\ NoDup (mf_Name <$> out) /\
  (forall n, List.find (named n) out = mergedAs (own ++ edge) n) /\ d = Z.of_nat (conflicting (own ++ edge)).
Proof.
  unfold mergeFamilies. pose proof (merge_spec (own ++ edge)) as H.
  destruct (fold_left addStep (own ++ edge) ([], 0%Z)) as [out d]. destruct H as (Hnd & Hf & ->).
  assert (Hnd' : NoDup (mf_Name <$> merge_sort famLe out)) by by rewrite merge_sort_Permutation.
  split; [apply (StronglySorted_merge_sort famLe)|]. split; [done|]. split; [|done]. intros n. rewrite <- Hf.
  destruct (List.find (named n) out) as [f|] eqn:Ho.
  - apply List.find_some in Ho as [Hin Hn]. apply list_elem_of_In in Hin.
    destruct (List.find (named n) (merge_sort famLe out)) as [g|] eqn:Hs.
    + apply List.find_some in Hs as [Hin' Hn'%String.eqb_eq]. apply list_elem_of_In in Hin'.
      apply String.eqb_eq in Hn. f_equal. eapply (NoDup_fmap_inj mf_Name); [exact Hnd'|done| |congruence].
      by rewrite merge_sort_Permutation.
    + pose proof (List.find_none _ _ Hs f) as H. rewrite H in Hn; [done|]. apply list_elem_of_In.
      by rewrite merge_sort_Permutation.
  - destruct (List.find (named n) (merge_sort famLe out)) as [g|] eqn:Hs; [|done].
    apply List.find_some in Hs as [Hin' Hn']. apply list_elem_of_In in Hin'. rewrite merge_sort_Permutation in Hin'.
    by rewrite (List.find_none _ _ Ho g (proj1 (list_elem_of_In _ _) Hin')) in Hn'.
Qed.

End store.

(** *** The registry's fingerprint *)

Lemma bigEndian_bounds s acc :
  (0 <= acc)%Z -> (0 <= bigEndian acc s < (acc + 1) * 256 ^ Z.of_nat (String.length s))%Z.
Proof.
  revert acc. induction s as [|c s IH]; intros acc Ha; cbn [bigEndian String.length]; [lia|].
  assert (Hc : (0 <= Z.of_N (N_of_ascii c) < 256)%Z).
  { pose proof (N_ascii_bounded c). lia. }
  specialize (IH (256 * acc + Z.of_N (N_of_ascii c))%Z ltac:(lia)).
  rewrite Nat2Z.inj_succ, Z.pow_succ_r by lia. nia.
Qed.

Lemma str_take_length n s : (String.length (str_take n s) <= n)%nat.
Proof. revert s. induction n as [|n IH]; intros [|c s]; simpl; try lia. specialize (IH s). lia. Qed.

Lemma digest48_bounds Sum256 lines : (0 <= digest48 Sum256 lines < 2 ^ 48)%Z.
Proof.
  unfold digest48. set (s := str_take 6 _). pose proof (bigEndian_bounds s 0 ltac:(lia)) as H.
  pose proof (str_take_length 6 (Sum256 (join_char ";" (merge_sort str_le lines)))) as Hl. fold s in Hl.
  assert ((256 ^ Z.of_nat (String.length s) <= 256 ^ 6)%Z) by (apply Z.pow_le_mono_r; lia). lia.
Qed.

Lemma digest48_perm Sum256 l l' : l ≡ₚ l' -> digest48 Sum256 l = digest48 Sum256 l'.
Proof.
  intros Hp. unfold digest48. by rewrite (sort_strings_perm _ _ Hp).
Qed.

Lemma registryLines_perm (l l' : list (string * Authz.Entry)) : l ≡ₚ l' -> registryLines l ≡ₚ registryLines l'.
Proof. intros Hp. unfold registryLines. by rewrite Hp. Qed.

End MetricsLemmas.

Module MetricsProps.
Import Metrics MetricsLemmas EdgeServer.

Section store.
Context {Cert Pub Key : Type} {pki : PKIOps Cert Pub Key} {V : Type}.
Context (ord : gmap string (edgeMetricsSnapshot V) -> list (string * edgeMetricsSnapshot V)).
Context (ord_perm : forall m, ord m ≡ₚ map_to_list m).
Context (parse : string * bool -> result parseError (gmap string (MetricFamily V))).

(** A request to push, the server that gets it and when. *)
Record arrival := mkArrival { ar_server : Server Cert Key; ar_request : Request; ar_now : Z }.

Definition receive (s : MetricsStore V) (a : arrival) : MetricsStore V * Response :=
  handleMetricsPush (Some (ingestBody ord parse (ar_now a))) (ar_server a) (ar_request a) s.

Definition receiveAll (l : list arrival) (s : MetricsStore V) : MetricsStore V :=
  fold_left (fun s a => (receive s a).1) l s.

Definition pusher (a : arrival) : option string :=
  tok ← authenticated (ar_server a) (ar_request a); Authz.Identity (authz (ar_server a)) tok.

Definition instanceOf (a : arrival) : string := trim_space (HeaderGet "X-Edge-Instance" (ReqHeader (ar_request a))).

Lemma receive_cases s a :
  (receive s a).1 = s \/
  exists id, pusher a = Some id /\
    (receive s a).1 = (ingestBody ord parse (ar_now a) id (instanceOf a) (Body (ar_request a)) s).1.
Proof.
  unfold receive, handleMetricsPush, pusher. destruct (authenticated _ _) as [tok|]; [|by left].
  simpl. destruct (Authz.Identity _ tok) as [id|]; [|by left]. fold (instanceOf a). destruct (_ || _); [by left|].
  right. exists id. split; [done|]. by destruct (ingestBody _ _ _ _ _ _ _) as [s' []].
Qed.

Lemma ingestBody_fst now id inst body s :
  (ingestBody ord parse now id inst body s).1 = (Ingest ord parse now id inst (MaxBytesReader maxEdgeMetricsBody body) s).1.
Proof. unfold ingestBody. by destruct (Ingest _ _ _ _ _ _ _) as [s' [|[]]]. Qed.

Definition pushOf (a : arrival) : list push :=
  match pusher a with Some id => [mkPush id (instanceOf a) (ar_now a)] | None => [] end.

Lemma receiveAll_Inv l d :
  distinctLabels parse -> Inv (flat_map pushOf l) (receiveAll l (NewMetricsStore d)).
Proof using ord_perm.
  intros Hparse. induction l as [|a l IH] using rev_ind; [split; simpl; intros *; by rewrite lookup_empty|].
  unfold receiveAll. rewrite fold_left_app. cbn [fold_left]. fold (receiveAll l (NewMetricsStore d)).
  set (s := receiveAll l _) in *. rewrite flat_map_app.
  assert (Hweak : forall s' : MetricsStore V, Inv (flat_map pushOf l) s' -> Inv (flat_map pushOf l ++ flat_map pushOf [a]) s').
  { intros s' [H1 H2 H3]. split; [done| |done]. intros k snap Hk. apply elem_of_app. left. by eapply H2. }
  destruct (receive_cases s a) as [->|(id & Hid & ->)]; [by apply Hweak|]. rewrite ingestBody_fst.
  pose proof (Ingest_Inv ord ord_perm parse _ (ar_now a) id (instanceOf a) (MaxBytesReader maxEdgeMetricsBody (Body (ar_request a))) s
    Hparse IH) as Hi. simpl flat_map. unfold pushOf at 2. rewrite Hid, app_nil_r. destruct (parse _) as [fams|e].
  - destruct Hi as [H1 H2 H3]. split; [done| |done]. intros k snap Hk. rewrite Permutation_app_comm. by eapply H2.
  - unfold pushOf in Hweak. simpl in Hweak. rewrite Hid, app_nil_r in Hweak. by apply Hweak.
Qed.

(** A pushed series says who pushed it. Whatever the bodies claim, every series that
    the control plane serves out of its store has distinct label names, carries the
    identity of a live token that pushed and the instance named in that push, and is no
    older than the store's lifetime. *)
Theorem pushed_series_carry_identity l d now mf m :
  distinctLabels parse -> mf ∈ (families ord now (receiveAll l (NewMetricsStore d))).2 -> m ∈ mf_Metric mf ->
  exists a id, a ∈ l /\ pusher a = Some id /\ attributed id (instanceOf a) m /\
    (clamp64 (now - ar_now a) <= ttl (receiveAll l (NewMetricsStore d)))%Z.
Proof using ord_perm.
  intros Hparse (k & snap & name & Hk & Hexp & Hmf)%families_in Hm.
  destruct (receiveAll_Inv l d Hparse) as [H1 H2 H3]. specialize (H3 _ _ _ _ _ Hk Hmf Hm).
  apply H2 in Hk. apply list_elem_of_In, in_flat_map in Hk as (a & Ha & Hp). apply list_elem_of_In in Ha.
  apply list_elem_of_In in Hp. unfold pushOf in Hp.
  destruct (pusher a) as [id|] eqn:Hid; [|by apply elem_of_nil in Hp]. apply list_elem_of_singleton in Hp as [= He Hi Ht].
  exists a, id. rewrite <- He, <- Hi, <- Ht. split; [done|]. split; [by rewrite He|]. split; [done|].
  unfold expired in Hexp. by apply Z.ltb_ge in Hexp.
Qed.

(** Every identity that pushes has an id without a slash. *)
Definition plainIds (l : list arrival) : Prop := forall a id, a ∈ l -> pusher a = Some id -> slashFree id.

Lemma receiveAll_Capped l d :
  distinctLabels parse -> plainIds l -> Capped (receiveAll l (NewMetricsStore d)).
Proof using ord_perm.
  intros Hparse. induction l as [|a l IH] using rev_ind; intros Hplain.
  - split; [simpl; intros *; by rewrite lookup_empty|]. intros e. unfold instances. simpl. rewrite map_to_list_empty. simpl. lia.
  - unfold receiveAll. rewrite fold_left_app. cbn [fold_left]. fold (receiveAll l (NewMetricsStore d)).
    assert (Hl : Capped (receiveAll l (NewMetricsStore d))).
    { apply IH. intros a' id Ha'. apply Hplain. apply elem_of_app. by left. }
    destruct (receive_cases (receiveAll l (NewMetricsStore d)) a) as [->|(id & Hid & ->)]; [done|].
    rewrite ingestBody_fst. apply Ingest_Capped; [done| |done|].
    + eapply Hplain; [|done]. apply elem_of_app. right. by left.
    + apply (receiveAll_Inv l d Hparse).
Qed.

(** Pushes of different identities do not interfere, if no identity holds a slash: the
    store keeps at most [maxEdgeMetricsInstances] snapshots of each, and a push leaves the
    snapshots of the others. An identity with a slash is not so isolated: a push of [e] as
    instance [b/x] replaces the snapshot of instance [x] of [e/b]. *)
Theorem pushes_are_isolated l d :
  distinctLabels parse -> plainIds l -> let s := receiveAll l (NewMetricsStore d) in
  (forall e, instances e s <= maxEdgeMetricsInstances) /\
  (forall a id k snap, pusher a = Some id -> slashFree id -> edges s !! k = Some snap -> sn_edgeID snap <> id ->
     edges (receive s a).1 !! k = Some snap) /\
  (forall now e b x r fams (s : MetricsStore V), parse r = Ok fams ->
     let s' := (Ingest ord parse now e (b +:+ "/" +:+ x) r s).1 in
     exists snap, edges s' !! storeKey (e +:+ "/" +:+ b) x = Some snap /\ sn_edgeID snap = e).
Proof using ord_perm.
  intros Hparse Hplain s. pose proof (receiveAll_Capped l d Hparse Hplain) as [Hids Hcap]. split; [done|]. split.
  - intros a id k snap Hid Hfree Hk Hne. destruct (receive_cases s a) as [->|(id' & Hid' & ->)]; [done|].
    assert (id' = id) as -> by congruence. rewrite ingestBody_fst.
    apply Ingest_others; [done|done|by eapply Hids| |done|done]. by apply (receiveAll_Inv l d Hparse).
  - intros now e b x r fams s0 Hok s'. subst s'.
    destruct (Ingest_cases ord parse now e (b +:+ "/" +:+ x) r s0) as [(er & He & _)|(f & s1 & _ & _ & ->)]; [congruence|].
    cbn [fst edges]. assert (Hkey : storeKey (e +:+ "/" +:+ b) x = storeKey e (b +:+ "/" +:+ x)).
    { unfold storeKey. by rewrite !str_app_assoc. }
    rewrite Hkey, lookup_insert_eq. by eexists.
Qed.

(** The exposition is the merge by name. Its families are sorted, one per name; the
    help and the type are those of the first family of the name, the control plane's own
    before any edge's, and its series those of all the families of the name and type, in
    order; the counter of dropped families grows by the number that disagree on a type. *)
Theorem merge_exact (own edge : list (MetricFamily V)) :
  let '(out, d) := mergeFamilies own edge in
  StronglySorted famLe out /\ NoDup (mf_Name <$> out) /\
  (forall n, List.find (named n) out = mergedAs (own ++ edge) n) /\ d = Z.of_nat (conflicting (own ++ edge)).
Proof. apply mergeFamilies_spec. Qed.

(** The gauges tell the truth about the signer. After any installations the signer
    gauges are those of the signer that the server serves, one series each. *)
Theorem gauges_agree (l : list (Signer.Signer Cert Key * Z)) (s0 : Server Cert Key) :
  signerState s0 = None ->
  let '(s, g) := fold_left (fun sm sg => install sg.1 sg.2 sm) l (s0, noSigner) in
  g = match signerState s with
      | None => noSigner
      | Some st => setSignerMetrics (CurrentCAID s) (CurrentActiveFP s) (sg_gen st) (Signer.BundleLen (sg st))
      end.
Proof.
  intros H0. induction l as [|[sgn gen] l IH] using rev_ind; [simpl; by rewrite H0|].
  rewrite fold_left_app. destruct (fold_left _ l _) as [s g]. simpl.
  unfold SetSigner, CurrentCAID, CurrentActiveFP, currentSignerKey in *.
  destruct (signerState s) as [st|] eqn:Hs; [|done]. destruct (gen <=? sg_gen st)%Z; [by rewrite Hs|done].
Qed.

End store.

(** The fingerprint of the registry is the same on every replica and survives the
    float. It does not depend on the order in which the registry is ranged over; two
    replicas report equal values exactly when 48 bits of the digest of their sorted
    [id:disabled] lines agree, and the value counts as unset only when those bits are 0. *)
Theorem fingerprint_replica_identical Sum256 (l l' l2 : list (string * Authz.Entry)) :
  l ≡ₚ l' ->
  AuthzGeneration Sum256 l = AuthzGeneration Sum256 l' /\
  (SFeqb (AuthzGeneration Sum256 l) (AuthzGeneration Sum256 l2) = true <->
     digest48 Sum256 (registryLines l) = digest48 Sum256 (registryLines l2)) /\
  (SFeqb (AuthzGeneration Sum256 l) (S754_zero false) = true <-> digest48 Sum256 (registryLines l) = 0%Z).
Proof.
  intros Hp. unfold AuthzGeneration, registryFingerprint.
  pose proof (digest48_bounds Sum256 (registryLines l)). pose proof (digest48_bounds Sum256 (registryLines l2)).
  split; [by rewrite (digest48_perm _ _ _ (registryLines_perm _ _ Hp))|]. split; [apply f64_of_Z_eqb; lia|].
  apply (f64_of_Z_eqb _ 0); lia.
Qed.

(** *** Witnesses *)

#[local] Existing Instances SignerProps.toyPKI.

(** A parser of one gauge whose body claims an identity, and two tenants. *)
Definition toyParse (r : string * bool) : result parseError (gmap string (MetricFamily f64)) :=
  if r.2 then Err ParseRead
  else Ok {["up" := gaugeFamily "up" [([("edge_id", "liar"); ("job", fst r)], f64_of_Z 1)] ]}.

Definition fleet : Server string ascii :=
  NewServer (CPCerts.mkStore ∅ true "")
    (Authz.NewAuthzEntries {["tok-a" := Authz.mkEntry "edge-a" [] false; "tok-b" := Authz.mkEntry "edge-b" [] false]}).

Definition pushReq (token instance body : string) : Request :=
  mkReq "POST" "/v1/metrics" "" (HeaderSet "X-Edge-Instance" instance (HeaderSet "Authorization" ("Bearer " +:+ token) ∅)) body.

Definition twoPushes : list arrival :=
  [mkArrival fleet (pushReq "tok-a" "i1" "x") second; mkArrival fleet (pushReq "tok-b" "i1" "y") (2 * second)].

Lemma toyParse_distinct : distinctLabels toyParse.
Proof.
  intros [body e] fams name mf m. unfold toyParse. simpl. destruct e; [done|]. intros [= <-].
  intros [<- <-]%lookup_singleton_Some. simpl. intros ->%list_elem_of_singleton. simpl.
  apply NoDup_cons. split; [by intros ?%list_elem_of_singleton|]. apply NoDup_singleton.
Qed.

Definition toySeries : Metric f64 :=
  mkMetric [("edge_id", "edge-a"); ("edge_instance", "i1"); ("job", "x")] (f64_of_Z 1).

Lemma pushed_series_carry_identity_witness :
  exists a id, a ∈ twoPushes /\ pusher a = Some id /\ attributed id (instanceOf a) toySeries /\
    (clamp64 (3 * second - ar_now a) <= 300 * second)%Z.
Proof.
  eapply (pushed_series_carry_identity map_to_list (fun _ => reflexivity _) toyParse twoPushes (300 * second) (3 * second)
            (mkFamily "up" "" 1 [toySeries])).
  - exact toyParse_distinct.
  - apply list_elem_of_In. vm_compute. left. reflexivity.
  - apply list_elem_of_In. left. reflexivity.
Defined.

Lemma pushes_are_isolated_witness :
  let s := receiveAll map_to_list toyParse twoPushes (NewMetricsStore (300 * second)) in
  instances "edge-a" s = 1 /\ (forall e, instances e s <= maxEdgeMetricsInstances).
Proof.
  split; [vm_compute; reflexivity|].
  apply (pushes_are_isolated map_to_list (fun _ => reflexivity _) toyParse twoPushes (300 * second) toyParse_distinct).
  intros a id Ha Hid. apply list_elem_of_In in Ha. destruct Ha as [<-|[<-|[]]]; vm_compute in Hid;
    injection Hid as <-; vm_compute; reflexivity.
Defined.

Lemma gauges_agree_witness :
  signerState fleet = None /\
  let '(s, g) := fold_left (fun sm sg => install sg.1 sg.2 sm) [(SignerProps.newSigner, 7%Z)] (fleet, noSigner) in
  g = match signerState s with
      | None => noSigner
      | Some st => setSignerMetrics (CurrentCAID s) (CurrentActiveFP s) (sg_gen st) (Signer.BundleLen (sg st))
      end.
Proof. split; [reflexivity|]. apply (gauges_agree [(SignerProps.newSigner, 7%Z)] fleet). reflexivity. Defined.

Lemma fingerprint_replica_identical_witness :
  let l := [("t1", Authz.mkEntry "edge-a" [] true); ("t2", Authz.mkEntry "edge-b" [] false)] in
  let l' := [("t2", Authz.mkEntry "edge-b" [] false); ("t1", Authz.mkEntry "edge-a" [] true)] in
  AuthzGeneration id l = AuthzGeneration id l' /\ digest48 id (registryLines l) = 111481905818977%Z.
Proof.
  split; [|vm_compute; reflexivity]. apply (fingerprint_replica_identical id) with (l2 := []). apply perm_swap.
Defined.

End MetricsProps.
