(* ===== verification/Revoke.v ===== *)
(** * Revoking an edge

    Models [src/edgecp/converge/source.go] (the snapshot of the fleet that the interlock
    judges, read from Prometheus), [src/cmd/edge-controlplane/converge.go] and
    [src/cmd/edge-controlplane/revoke.go] (the probe, the gates and the orchestrator that
    rotates the edge CA to sever one edge), and the registry's loading and checks of
    [src/cmd/edge-controlplane/main.go].

    Prometheus, the environment and the files are arguments.  [runRevoke] returns its exit
    together with the calls it made on the CA Secret and the gates it waited at, so that
    what it does and in which order is what the theorems are about.  [scrape] is a
    Prometheus over scrape targets, for the theorems that follow a series from the process
    that exposes it to the interlock. *)

From Stdlib Require Import SpecFloat.
From S2P Require Import Prelude GoString GoTime GoURL Certs EdgeStores Signer EdgeServer Rotation Converge CpClient Metrics.

Set Default Proof Using "Type".

Module Revoke.
Import EdgeStores.

(** ** The snapshot *)

(** A sample of an instant vector. *)
Record sample := mkSample { s_Metric : gmap string string; s_Value : f64 }.

Definition hexDigit (n : nat) : ascii := ascii_of_nat (if (n <? 10)%nat then 48 + n else 87 + n).

(** [strconv.Quote]: printable characters, the bytes of multi-byte ones included, are
    copied. *)
Definition quoteChar (c : ascii) : string :=
  let n := nat_of_ascii c in
  let esc (s : string) := String (ascii_of_nat 92) s in
  if (n =? 34)%nat || (n =? 92)%nat then esc (String c "")
  else match n with
  | 7 => esc "a" | 8 => esc "b" | 12 => esc "f" | 10 => esc "n" | 13 => esc "r" | 9 => esc "t" | 11 => esc "v"
  | _ => if (n <? 32)%nat || (n =? 127)%nat
         then esc ("x" +:+ String (hexDigit (n / 16)) (String (hexDigit (n mod 16)) "")) else String c ""
  end.

Fixpoint quoteBody (s : string) : string :=
  match s with "" => "" | String c s => quoteChar c +:+ quoteBody s end.

Definition Quote (s : string) : string := quote +:+ quoteBody s +:+ quote.

Fixpoint promLabel (v : string) : string :=
  match v with
  | "" => ""
  | String c v =>
      let n := nat_of_ascii c in
      (if (n =? 92)%nat || (n =? 34)%nat then String (ascii_of_nat 92) (String c "") else String c "") +:+ promLabel v
  end.

Definition issuedQuery (id fp : string) : string :=
  "parapet_edge_ca_issued_total{edge_id=" +:+ Quote (promLabel id) +:+ ",sigfp=" +:+ Quote (promLabel fp) +:+ "}".

Section snapshot.
(** An instant query, [None] on an error, and [model.Duration.String]. *)
Context (Query : string -> option (list sample)) (fmtDuration : Z -> string).
(** The order in which a map is ranged over. *)
Context (ord : gmap string string -> list (string * string)).

(** One entry per sample that carries the label [key]; the last sample of a key wins. *)
Definition byKey {A} (key : string) (f : sample -> A) (vec : list sample) : gmap string A :=
  fold_left (fun m s => match default "" (s_Metric s !! key) with
                        | "" => m
                        | k => <[k := f s]> m
                        end) vec ∅.

Definition labelByLabel (query key val : string) : option (gmap string string) :=
  byKey key (fun s => default "" (s_Metric s !! val)) <$> Query query.
Definition labelByInstance (query label : string) : option (gmap string string) := labelByLabel query "instance" label.
Definition valueByInstance (query : string) : option (gmap string f64) := byKey "instance" s_Value <$> Query query.
Definition boolByLabel (query key : string) (pred : f64 -> bool) : option (gmap string bool) :=
  byKey key (fun s => pred (s_Value s)) <$> Query query.

Definition refreshQuery (fw : string) : string := "increase(parapet_edge_refresh_total[" +:+ fw +:+ "])".
Definition remintQuery (fw : string) : string :=
  "increase(parapet_edge_clientcert_remint_total{result!=" +:+ quote +:+ "ok" +:+ quote +:+ "}[" +:+ fw +:+ "])".

Definition one (f : f64) : bool := SFeqb f (f64_of_Z 1).
Definition str (m : gmap string string) (k : string) : string := default "" (m !! k).
Definition num (m : gmap string f64) (k : string) : f64 := default (f64_of_Z 0) (m !! k).
Definition flag (m : gmap string bool) (k : string) : bool := default false (m !! k).

Definition Snapshot (freshness : Z) (revokedEdgeID newSignerFP : string) : option Observations :=
  let fw := fmtDuration freshness in
  upByInstance ← boolByLabel "up" "instance" one;
  upByEdge ← boolByLabel "up" "edge_id" one;
  signerFP ← labelByInstance "parapet_edge_ca_signer_fingerprint" "ca_id";
  targetCAID ← labelByInstance "parapet_edge_ca_target_ca_id" "ca_id";
  signerGen ← valueByInstance "parapet_edge_ca_signer_generation";
  bundleCerts ← valueByInstance "parapet_edge_ca_bundle_certs";
  authzGen ← valueByInstance "parapet_edge_authz_generation";
  activeFP ← labelByInstance "parapet_edge_ca_active_signer_fp" "sigfp";
  revokedIssued ← (if negb (String.eqb revokedEdgeID "") && negb (String.eqb newSignerFP "")
                   then valueByInstance (issuedQuery revokedEdgeID newSignerFP) else Some ∅);
  heldCAID ← labelByInstance "parapet_trust_bundle_generation" "ca_id";
  liveCAID ← labelByLabel "parapet_edge_clientcert_ca_id" "edge_id" "ca_id";
  observedTarget ← labelByLabel "parapet_edge_cp_target_ca_id" "edge_id" "ca_id";
  refreshed ← boolByLabel (refreshQuery fw) "edge_id" (fun f => SFleb (f64_of_Z 1) f);
  failed ← boolByLabel (remintQuery fw) "edge_id" (fun f => SFltb (f64_of_Z 0) f);
  liveSignerFP ← labelByLabel "parapet_edge_clientcert_signer_fp" "edge_id" "sigfp";
  observedSignerFP ← labelByLabel "parapet_edge_cp_active_signer_fp" "edge_id" "sigfp";
  reg ← Query "parapet_edge_registry_total == 1";
  Some (mkObs
    ((fun kv => let '(inst, fp) := kv in
        mkCP inst (flag upByInstance inst) (str targetCAID inst) fp (u64 (f64_to_Z (num signerGen inst)))
          (f64_to_Z (num bundleCerts inst)) (num authzGen inst) (str activeFP inst) (num revokedIssued inst))
      <$> ord signerFP)
    ((fun kv => mkCore kv.1 (flag upByInstance kv.1) kv.2) <$> ord heldCAID)
    ((fun kv => let '(id, ca) := kv in
        mkEdge id (flag upByEdge id) ca (str observedTarget id) (flag refreshed id) (flag failed id)
          (str liveSignerFP id) (str observedSignerFP id)) <$> ord liveCAID)
    (flat_map (fun s => match default "" (s_Metric s !! "edge_id") with "" => [] | id => [id] end) reg)
    false 0).

End snapshot.

(** ** The command line *)

Definition cadenceWindow (poll reads : Z) : Z := wrap64 (poll * (reads - 1)).

Definition checkCadence (window scrape refresh : Z) : bool :=
  negb (window <? wrap64 (2 * scrape))%Z && negb (window <? refresh)%Z.

Definition parseExcludes (s : string) : list ExcludedEdge :=
  flat_map (fun part =>
    let part := trim_space part in
    if String.eqb part "" then []
    else let '(id, reason) := Cut "=" part in [mkExcluded (trim_space id) (trim_space reason)])
    (split_char c_comma s).

(** The requests of the probe go through [Do]; [appends] is [AppendCertsFromPEM]. *)
Definition probeRevoked (appends : string -> bool) (Do : CpClient.HTTPRequest -> option EdgeServer.Response)
    (cpURL cpCA token : string) : option Z :=
  if negb (String.eqb cpCA "") && negb (appends cpCA) then None
  else EdgeServer.Status <$>
    Do (CpClient.mkHTTP "POST" (CpClient.trimRightChar c_slash cpURL +:+ "/v1/edge-cert")
          (HeaderSet "Content-Type" "application/json" (HeaderSet "Authorization" ("Bearer " +:+ token) ∅)) "{}").

Definition stamp (probe : option Z) (obs : Observations) : Observations :=
  match probe with
  | Some status => mkObs (CP obs) (Core obs) (Edges obs) (ExpectedEdges obs) true status
  | None => obs
  end.

(** *** The registry *)

Section registry.
Context (ReadFile : string -> option string).
(** [json.Unmarshal] of the registry, of the legacy array and of an entry. *)
Context (unmarshalRaw : string -> option (gmap string string)) (unmarshalDomains : string -> option (list string))
  (unmarshalEntry : string -> option Authz.Entry).
Context (ordRaw : gmap string string -> list (string * string)).

Definition loadEntry (rm : string) : option Authz.Entry :=
  match unmarshalDomains rm with
  | Some domains => Some (Authz.mkEntry "" domains false)
  | None => unmarshalEntry rm
  end.

(** The tokens in the order in which they were read. *)
Fixpoint loadEntries (l : list (string * string)) (entries : gmap string Authz.Entry) : option (gmap string Authz.Entry) :=
  match l with
  | [] => Some entries
  | (tok, rm) :: l => e ← loadEntry rm; loadEntries l (<[tok := e]> entries)
  end.

Definition loadTokens (inline file : string) : option (gmap string Authz.Entry) :=
  raw ← (if String.eqb file "" then Some inline else ReadFile file);
  if String.eqb (trim_space raw) "" then Some ∅
  else rawEntries ← unmarshalRaw raw; loadEntries (ordRaw rawEntries) ∅.
End registry.

(** The rest ranges over a registry in some order. *)
Fixpoint duplicateFrom (seen : gset string) (l : list (string * Authz.Entry)) : string :=
  match l with
  | [] => ""
  | (_, e) :: l =>
      if String.eqb (Authz.ID e) "" then duplicateFrom seen l
      else if decide (Authz.ID e ∈ seen) then Authz.ID e
      else duplicateFrom ({[Authz.ID e]} ∪ seen) l
  end.
Definition duplicateEdgeID (l : list (string * Authz.Entry)) : string := duplicateFrom ∅ l.

Fixpoint idDisabled (l : list (string * Authz.Entry)) (edgeID : string) : bool :=
  match l with
  | [] => false
  | (_, e) :: l =>
      if String.eqb (to_lower (trim_space (Authz.ID e))) edgeID then Authz.Disabled e else idDisabled l edgeID
  end.

(** *** The gates *)

(** What a read of a gate finds, and what has elapsed since the gate began once [n] reads
    are done. *)
Record gate := mkGate {
  g_obs : nat -> option Observations;
  g_probe : nat -> option Z;
  g_elapsed : nat -> Z;
}.

Definition queryFailed : Result := mkResult false "" [mkBlocker "config" "" "prometheus-query-failed"] [].

(** The verdict of one read. *)
Definition verdict (g : gate) (cfg : Config) (i : nat) : Result :=
  match g_obs g i with
  | None => queryFailed
  | Some obs => Evaluate (stamp (g_probe g i) obs) cfg
  end.

(** The reads from [i] on: the last verdict and how many were done. *)
Fixpoint readStable (g : gate) (cfg : Config) (stableReads i : nat) (last : Result) : Result * nat :=
  match stableReads with
  | O => (last, i)
  | S n =>
      let last := verdict g cfg i in
      if Converged last then readStable g cfg n (S i) last else (last, S i)
  end.

Definition zeroResult : Result := mkResult false "" [] [].

(** Whether the gate converged, and after how many reads; [None] when [fuel] passes were
    not enough. *)
Fixpoint pollLoop (fuel : nat) (g : gate) (cfg : Config) (stableReads : nat) (deadline : Z) (i : nat) :
    option (bool * nat) :=
  match fuel with
  | O => None
  | S fuel =>
      let '(r, i) := readStable g cfg stableReads i zeroResult in
      if Converged r then Some (true, i)
      else if (deadline <=? g_elapsed g i)%Z then Some (false, i)
      else pollLoop fuel g cfg stableReads deadline i
  end.

Definition pollFuel (pollInterval deadline : Z) : nat := Z.to_nat (deadline / pollInterval) + 2.

Definition pollUntilConverged (g : gate) (cfg : Config) (stableReads : nat) (pollInterval deadline : Z) :
    option (bool * nat) := pollLoop (pollFuel pollInterval deadline) g cfg stableReads deadline 0.

(** *** The orchestrator *)

Inductive revokeError :=
| NoNamespace | NoEdgeID | NoPromURL | NoProbe | NoCpCA | FewReads | Cadence | Tokens | NotDisabled
| PromClient | K8sInit | RotateFailed | NoFingerprint | NoCAID | WidenGate | FlipFailed | DropGate | TrimFailed
| OutOfFuel.

(** The calls on the Secret, and the gates with the configuration they were waited at. *)
Inductive call := CRotate | CGate (cfg : Config) | CFlip (fp : string) | CTrim (fp : string).

Section revoke.
Context {Cert Pub Key : Type} `{!PKIOps Cert Pub Key} `{!EtagOps}.
Context (Getenv : string -> string) (ReadFile : string -> option string) (ParseFloat : string -> option f64).
Context (Sum256 : string -> string).
(** The registry as [loadTokens] reads it, and the orders in which it is ranged over. *)
Context (load : string -> string -> option (gmap string Authz.Entry)).
Context (ordTok ordTok' : gmap string Authz.Entry -> list (string * Authz.Entry)).
(** The set-up of the clients. *)
Context (NewPromQuerier : string -> bool) (k8sInit : bool).

Definition envOr (key def : string) : string := if String.eqb (Getenv key) "" then def else Getenv key.
Definition envInt (key : string) (def : Z) : Z :=
  if String.eqb (Getenv key) "" then def else default def (ParseInt (Getenv key)).
Definition envFloat (key : string) (def : f64) : f64 :=
  if String.eqb (Getenv key) "" then def else default def (ParseFloat (Getenv key)).
Definition DefaultDuration (key : string) (def : Z) : Z :=
  if String.eqb (Getenv key) "" then def else default def (ParseDuration (Getenv key)).

Definition lastCertFP (bundlePEM : string) : option string :=
  sumHex (Cert := Cert) (Pub := Pub) (Key := Key) <$>
    last (Signer.certBlocks (Cert := Cert) (Pub := Pub) (Key := Key) bundlePEM).

(** [base] of both gates. *)
Definition baseConfig (target fp : string) (authzGen : f64) (revokedID : string) : Config :=
  mkConfig (envInt "EDGE_CONVERGE_EXPECTED_CP" 0) (envInt "EDGE_CONVERGE_EXPECTED_CORE" 0)
    (envInt "EDGE_CONVERGE_MIN_EDGES" 0) (parseExcludes (Getenv "EDGE_CONVERGE_EXCLUDE")) target fp authzGen revokedID.

Definition floatZero : f64 := S754_zero false.

(** The attempts that the three calls meet, and the two gates. *)
Record revokeWorld := mkWorld {
  w_rotate : list (Rotation.attempt Key);
  w_flip : list (Rotation.attempt Key);
  w_trim : list (Rotation.attempt Key);
  w_widen : gate;
  w_drop : gate;
}.

Definition stableReadsEnv : Z := envInt "EDGE_CONVERGE_STABLE_READS" 2.
Definition pollIntervalEnv : Z := DefaultDuration "EDGE_CONVERGE_POLL_INTERVAL" (30 * second)%Z.

(** Everything before the first step. *)
Definition preflight : result revokeError (string * gmap string Authz.Entry) :=
  let revokedID := to_lower (trim_space (Getenv "EDGE_CA_REVOKE_EDGE_ID")) in
  let promURL := Getenv "EDGE_CONVERGE_PROM_URL" in
  let token := Getenv "EDGE_CONVERGE_REVOKED_TOKEN" in
  let cpURL := Getenv "EDGE_CONVERGE_CP_URL" in
  let caPath := Getenv "EDGE_CONVERGE_CP_CA" in
  if String.eqb (Getenv "POD_NAMESPACE") "" then Err NoNamespace
  else if String.eqb revokedID "" then Err NoEdgeID
  else if String.eqb promURL "" then Err NoPromURL
  else if String.eqb token "" || String.eqb cpURL "" then Err NoProbe
  else if negb (String.eqb caPath "") && match ReadFile caPath with None => true | Some _ => false end then Err NoCpCA
  else if (stableReadsEnv <? 2)%Z then Err FewReads
  else if negb (checkCadence (cadenceWindow pollIntervalEnv stableReadsEnv)
                  (DefaultDuration "EDGE_CONVERGE_SCRAPE_INTERVAL" (15 * second)%Z)
                  (DefaultDuration "EDGE_REFRESH_INTERVAL" (300 * second)%Z)) then Err Cadence
  else match load (Getenv "CP_TOKENS") (Getenv "CP_TOKENS_FILE") with
  | None => Err Tokens
  | Some tokens =>
      if negb (idDisabled (ordTok tokens) revokedID) then Err NotDisabled
      else if negb (NewPromQuerier promURL) then Err PromClient
      else if negb k8sInit then Err K8sInit
      else Ok (revokedID, tokens)
  end.

Definition gateA (target revokedID : string) : Config := baseConfig target "" floatZero revokedID.
Definition gateB (target newFP revokedID : string) (tokens : gmap string Authz.Entry) : Config :=
  baseConfig target newFP (Metrics.AuthzGeneration Sum256 (ordTok' tokens)) revokedID.

(** The exit and the calls, in order. *)
Definition runRevoke (w : revokeWorld) : result revokeError string * list call :=
  match preflight with
  | Err e => (Err e, [])
  | Ok (revokedID, tokens) =>
      let reads := Z.to_nat stableReadsEnv in
      let deadline := DefaultDuration "EDGE_CA_REVOKE_TIMEOUT" (30 * minute)%Z in
      match Rotation.RotateCA (Cert := Cert) (Pub := Pub) (DefaultDuration "EDGE_CA_TTL" Signer.DefaultCATTL) (w_rotate w) with
      | Err _ => (Err RotateFailed, [CRotate])
      | Ok bundle =>
          match lastCertFP bundle with
          | None => (Err NoFingerprint, [CRotate])
          | Some newFP =>
              match Signer.FromPEM (Cert := Cert) (Pub := Pub) (Key := Key) bundle with
              | None => (Err NoCAID, [CRotate])
              | Some target =>
                  let cA := gateA target revokedID in
                  match pollUntilConverged (w_widen w) cA reads pollIntervalEnv deadline with
                  | None => (Err OutOfFuel, [CRotate; CGate cA])
                  | Some (false, _) => (Err WidenGate, [CRotate; CGate cA])
                  | Some (true, _) =>
                      match Rotation.SetActiveNew (Cert := Cert) (Pub := Pub) newFP (w_flip w) with
                      | Err _ => (Err FlipFailed, [CRotate; CGate cA; CFlip newFP])
                      | Ok _ =>
                          let cB := gateB target newFP revokedID tokens in
                          match pollUntilConverged (w_drop w) cB reads pollIntervalEnv deadline with
                          | None => (Err OutOfFuel, [CRotate; CGate cA; CFlip newFP; CGate cB])
                          | Some (false, _) => (Err DropGate, [CRotate; CGate cA; CFlip newFP; CGate cB])
                          | Some (true, _) =>
                              match Rotation.TrimCA (Cert := Cert) (Pub := Pub) newFP (w_trim w) with
                              | Err _ => (Err TrimFailed, [CRotate; CGate cA; CFlip newFP; CGate cB; CTrim newFP])
                              | Ok trimmed => (Ok trimmed, [CRotate; CGate cA; CFlip newFP; CGate cB; CTrim newFP])
                              end
                          end
                      end
                  end
              end
          end
      end
  end.

(** [runConvergeStatus], from its own environment. *)
Definition statusConfig : Config :=
  baseConfig (Getenv "EDGE_CONVERGE_EXPECTED_CA_ID") (Getenv "EDGE_CONVERGE_EXPECTED_SIGNER_FP")
    (envFloat "EDGE_CONVERGE_EXPECTED_AUTHZ_GEN" floatZero) (Getenv "EDGE_CONVERGE_REVOKED_EDGE_ID").

(** A failed query ends it at once; an unset probe is not run. *)
Definition runConvergeStatus (g : gate) : bool :=
  if String.eqb (Getenv "EDGE_CONVERGE_PROM_URL") "" || (stableReadsEnv <? 2)%Z || (pollIntervalEnv <=? 0)%Z ||
     negb (checkCadence (cadenceWindow pollIntervalEnv stableReadsEnv)
             (DefaultDuration "EDGE_CONVERGE_SCRAPE_INTERVAL" (15 * second)%Z)
             (DefaultDuration "EDGE_REFRESH_INTERVAL" (300 * second)%Z)) ||
     negb (NewPromQuerier (Getenv "EDGE_CONVERGE_PROM_URL")) ||
     (negb (String.eqb (Getenv "EDGE_CONVERGE_CP_CA") "") &&
      match ReadFile (Getenv "EDGE_CONVERGE_CP_CA") with None => true | Some _ => false end)
  then false
  else
    let probing := negb (String.eqb (Getenv "EDGE_CONVERGE_REVOKED_TOKEN") "") &&
                   negb (String.eqb (Getenv "EDGE_CONVERGE_CP_URL") "") in
    let g := mkGate (g_obs g) (fun i => if probing then g_probe g i else None) (g_elapsed g) in
    Converged (readStable g statusConfig (Z.to_nat stableReadsEnv) 0 zeroResult).1.

End revoke.
Arguments revokeWorld Key : clear implicits.

End Revoke.

(** ** Lemmas *)

Module RevokeLemmas.
Import EdgeStores Revoke.

(** Membership in a list of given strings, and inclusion between two. *)
Ltac in_list := by apply (bool_decide_unpack _); vm_compute.
Ltac in_sub := intros ? Hin; repeat (apply elem_of_cons in Hin as [->|Hin]); [in_list..|by apply elem_of_nil in Hin].

(** *** The gates *)

Section gate.
Context (g : gate) (cfg : Config).

Lemma readStable_spec n i last :
  i <= (readStable g cfg n i last).2 <= i + n /\ (0 < n -> i < (readStable g cfg n i last).2) /\
  (Converged (readStable g cfg n i last).1 = true ->
     (n = 0 -> Converged last = true) /\ forall k, k < n -> Converged (verdict g cfg (i + k)) = true).
Proof.
  revert i last. induction n as [|n IH]; intros i lst; cbn [readStable].
  { simpl. split; [lia|]. split; [lia|]. intros H. split; [done|lia]. }
  destruct (Converged (verdict g cfg i)) eqn:Hv; [|simpl; split; [lia|]; split; [lia|congruence]].
  destruct (IH (S i) (verdict g cfg i)) as (H1 & H2 & H3). split; [lia|]. split; [lia|].
  intros Hc. split; [done|]. intros [|k] Hk; [by rewrite Nat.add_0_r|].
  replace (i + S k) with (S i + k) by lia. apply H3; [done|lia].
Qed.

Lemma pollLoop_converged fuel n deadline i j :
  pollLoop fuel g cfg n deadline i = Some (true, j) ->
  0 < n /\ exists i0, forall k, k < n -> Converged (verdict g cfg (i0 + k)) = true.
Proof.
  revert i. induction fuel as [|fuel IH]; intros i; cbn [pollLoop]; [done|].
  pose proof (readStable_spec n i zeroResult) as (_ & _ & Hc). destruct (readStable g cfg n i zeroResult) as [r i'].
  simpl in Hc. destruct (Converged r).
  - intros _. destruct (Hc eq_refl) as [Hz Hk]. split; [|by exists i]. destruct n; [by discriminate Hz|lia].
  - destruct (_ <=? _)%Z; [done|apply IH].
Qed.

(** Reads are [poll] apart. *)
Definition paced (poll : Z) : Prop :=
  (0 <= g_elapsed g 1)%Z /\ forall i, (g_elapsed g (S (S i)) >= g_elapsed g (S i) + poll)%Z.

Lemma paced_elapsed poll i : paced poll -> (Z.of_nat i * poll <= g_elapsed g (S i))%Z.
Proof.
  intros [H1 Hs]. induction i as [|i IH]; [simpl; lia|]. specialize (Hs i). lia.
Qed.

Lemma pollLoop_ends fuel n poll deadline i :
  (0 < poll)%Z -> paced poll -> 0 < n -> (deadline <= (Z.of_nat fuel + Z.of_nat i - 1) * poll)%Z -> 0 < fuel ->
  pollLoop fuel g cfg n deadline i <> None.
Proof.
  intros Hpoll Hpaced Hn. revert i. induction fuel as [|fuel IH]; intros i Hd Hf; [lia|]. cbn [pollLoop].
  pose proof (readStable_spec n i zeroResult) as (_ & Hi & _). destruct (readStable g cfg n i zeroResult) as [r i'].
  simpl in Hi. specialize (Hi Hn). destruct (Converged r); [done|].
  destruct (Z.leb_spec deadline (g_elapsed g i')) as [|Hlt]; [done|].
  destruct i' as [|i']; [lia|]. pose proof (paced_elapsed poll i' Hpaced) as He.
  destruct fuel as [|fuel]; [nia|]. apply IH; nia.
Qed.

End gate.

(** *** Quoting *)

(** What the control plane accepts in an id that it issues under, and the digits of a
    fingerprint, is quoted as it is. *)
Lemma promLabel_plain s : all_chars (fun c => negb (Ascii.eqb c (ascii_of_nat 34)) && negb (Ascii.eqb c (ascii_of_nat 92))) s = true ->
  promLabel s = s.
Proof.
  induction s as [|c s IH]; [done|]. simpl. intros [Hc Hs]%andb_prop. rewrite (IH Hs).
  assert (Hn : ((nat_of_ascii c =? 92)%nat || (nat_of_ascii c =? 34)%nat) = false).
  { clear -Hc. destruct c as [[] [] [] [] [] [] [] []]; vm_compute in Hc |- *; congruence. }
  by rewrite Hn.
Qed.

(** *** The duplicates of a registry *)

Lemma duplicateFrom_none l seen :
  duplicateFrom seen l = "" <->
  NoDup (List.filter (fun id => negb (String.eqb id "")) ((Authz.ID ∘ snd) <$> l)) /\
  forall id, id <> "" -> id ∈ ((Authz.ID ∘ snd) <$> l) -> id ∉ seen.
Proof.
  revert seen. induction l as [|[tok e] l IH]; intros seen; simpl.
  - split; [|done]. intros _. split; [constructor|]. by intros id _ ?%elem_of_nil.
  - destruct (String.eqb_spec (Authz.ID e) "") as [He|Hne]; simpl.
    + rewrite IH. setoid_rewrite elem_of_cons. rewrite He. naive_solver.
    + case_decide as Hin.
      * split; [done|]. intros [_ H]. destruct (H (Authz.ID e) Hne); [by left|done].
      * rewrite IH, NoDup_cons, list_elem_of_In, List.filter_In, <- list_elem_of_In. setoid_rewrite elem_of_cons.
        rewrite (proj2 (String.eqb_neq _ _) Hne). simpl. set_solver.
Qed.

(** *** What the snapshot sees of a scraped fleet *)

(** A scraped series: the labels of the target prevail. *)
Definition renamed (target : gmap string string) (kv : string * string) : string * string :=
  (match target !! kv.1 with Some _ => "exported_" +:+ kv.1 | None => kv.1 end, kv.2).

Definition scraped (target : gmap string string) (m : Metrics.Metric f64) : sample :=
  mkSample (target ∪ list_to_map (renamed target <$> Metrics.m_Label m)) (Metrics.m_Value m).

Record target := mkTarget { t_labels : gmap string string; t_families : list (Metrics.MetricFamily f64) }.

Definition series (name : string) (t : target) : list sample :=
  match List.find (MetricsLemmas.named name) (t_families t) with
  | Some f => scraped (t_labels t) <$> Metrics.mf_Metric f
  | None => []
  end.

Definition scrape (ts : list target) (name : string) : list sample := flat_map (series name) ts.

(** The entries of [byKey]. *)
Definition keyed {A} (key : string) (f : sample -> A) (vec : list sample) : list (string * A) :=
  flat_map (fun s => match default "" (s_Metric s !! key) with "" => [] | k => [(k, f s)] end) vec.

Lemma byKey_keyed {A} key (f : sample -> A) vec : byKey key f vec = insertAll (keyed key f vec) ∅.
Proof.
  unfold byKey, insertAll. generalize (∅ : gmap string A).
  induction vec as [|s vec IH]; intros m; [done|]. simpl. destruct (default "" (s_Metric s !! key)); simpl; apply IH.
Qed.

Lemma keyed_in {A} key (f : sample -> A) vec k v :
  (k, v) ∈ keyed key f vec <-> exists s, s ∈ vec /\ s_Metric s !! key = Some k /\ k <> "" /\ f s = v.
Proof.
  unfold keyed. rewrite list_elem_of_In, in_flat_map. setoid_rewrite <- list_elem_of_In. split.
  - intros (s & Hs & Hin). exists s. destruct (s_Metric s !! key) as [k'|]; simpl in Hin; [|by apply elem_of_nil in Hin].
    destruct k'; [by apply elem_of_nil in Hin|]. by apply list_elem_of_singleton in Hin as [= -> ->].
  - intros (s & Hs & Hk & Hne & <-). exists s. split; [done|]. rewrite Hk. simpl. destruct k; [done|]. by left.
Qed.

Section fleet.
Context {Cert Pub Key : Type} `{!PKIOps Cert Pub Key}.
#[local] Abbreviation server := (EdgeServer.Server Cert Key).

(** A replica of the control plane: its instance label, its state, and what edges pushed
    to it. *)
Record replica := mkReplica {
  rp_instance : string;
  rp_server : server;
  rp_gauges : Metrics.signerGauges;
  rp_registry : Metrics.registryGauges;
  rp_pushed : list (Metrics.MetricFamily f64);
}.

Definition replicaTarget (r : replica) : target :=
  mkTarget {["instance" := rp_instance r]}
    (Metrics.mergeFamilies (Metrics.ownFamilies (rp_server r) (rp_gauges r) (rp_registry r)) (rp_pushed r)).1.

(** The series by which the interlock knows the control plane. *)
Definition ownNames : list string :=
  ["parapet_edge_ca_signer_fingerprint"; "parapet_edge_ca_signer_generation"; "parapet_edge_ca_bundle_certs";
   "parapet_edge_ca_target_ca_id"; "parapet_edge_ca_active_signer_fp"; "parapet_edge_ca_issued_total";
   "parapet_edge_registry_total"; "parapet_edge_authz_generation"].

(** No edge pushed a series of such a name. *)
Definition honest (r : replica) : Prop := forall f, f ∈ rp_pushed r -> Metrics.mf_Name f ∉ ownNames.

(** The gauges are those of the signer. *)
Definition truthful (r : replica) : Prop :=
  rp_gauges r = match EdgeServer.signerState (rp_server r) with
                | None => Metrics.noSigner
                | Some st => Metrics.setSignerMetrics (EdgeServer.CurrentCAID (rp_server r))
                               (EdgeServer.CurrentActiveFP (rp_server r)) (EdgeServer.sg_gen st)
                               (Signer.BundleLen (EdgeServer.sg st))
                end.

Lemma own_find r n : honest r -> n ∈ ownNames ->
  List.find (MetricsLemmas.named n) (t_families (replicaTarget r)) =
  List.find (MetricsLemmas.named n) (Metrics.ownFamilies (rp_server r) (rp_gauges r) (rp_registry r)).
Proof.
  intros Hh Hn. unfold replicaTarget. simpl t_families. set (own := Metrics.ownFamilies _ _ _).
  pose proof (MetricsLemmas.mergeFamilies_spec own (rp_pushed r)) as H.
  destruct (Metrics.mergeFamilies own (rp_pushed r)) as [out d]. destruct H as (_ & _ & Hf & _). simpl. rewrite Hf.
  unfold MetricsLemmas.mergedAs. rewrite find_app.
  assert (Hp : forall f : Metrics.MetricFamily f64, Metrics.mf_Name f = n ->
    List.filter (MetricsLemmas.alike f) (rp_pushed r) = []).
  { clear Hf. intros f Hfn. unfold honest in Hh. induction (rp_pushed r) as [|g l IH]; [done|]. simpl.
    unfold MetricsLemmas.alike at 1, MetricsLemmas.named. destruct (String.eqb_spec (Metrics.mf_Name g) (Metrics.mf_Name f)) as [He|].
    - exfalso. apply (Hh g); [by left|by rewrite He, Hfn].
    - apply IH. intros f' Hf'. apply Hh. by right. }
  apply list_elem_of_In in Hn. simpl in Hn. unfold own, Metrics.ownFamilies.
  repeat (destruct Hn as [<-|Hn]; [cbn; rewrite Hp by done; simpl; by rewrite ?app_nil_r|]). done.
Qed.

(** The series of one replica, under each name. *)
Definition ownSeries (n : string) (r : replica) : list (Metrics.Metric f64) :=
  match List.find (MetricsLemmas.named n) (Metrics.ownFamilies (rp_server r) (rp_gauges r) (rp_registry r)) with
  | Some f => Metrics.mf_Metric f
  | None => []
  end.

Lemma series_own r n : honest r -> n ∈ ownNames -> series n (replicaTarget r) = scraped {["instance" := rp_instance r]} <$> ownSeries n r.
Proof. intros Hh Hn. unfold series, ownSeries. rewrite own_find by done. by destruct (List.find _ _). Qed.

(** A label of the control plane's own. *)
Lemma scraped_label i (m : Metrics.Metric f64) k v :
  (Metrics.m_Label m).*1 ⊆ ["ca_id"; "sigfp"; "edge_id"] -> NoDup (Metrics.m_Label m).*1 ->
  s_Metric (scraped {["instance" := i]} m) !! k = Some v <->
  (k = "instance" /\ v = i) \/ (k, v) ∈ Metrics.m_Label m.
Proof.
  intros Hsub Hnd. unfold scraped. cbn [s_Metric].
  assert (Hren : renamed {["instance" := i]} <$> Metrics.m_Label m = Metrics.m_Label m).
  { rewrite <- (list_fmap_id (Metrics.m_Label m)) at 2. apply list_fmap_ext. intros j [k' v'] Hj. unfold renamed. cbn [fst snd].
    assert (Hne : "instance" <> k').
    { intros <-. assert (Hin : "instance" ∈ ["ca_id"; "sigfp"; "edge_id"]).
      { apply Hsub. apply list_elem_of_fmap. exists ("instance", v'). split; [done|]. by eapply list_elem_of_lookup_2. }
      set_solver. }
    by rewrite lookup_singleton_ne. }
  rewrite Hren, lookup_union_Some_raw, lookup_singleton_Some, lookup_singleton_None, <- elem_of_list_to_map by done.
  split; [intros [[<- <-]|[_ ?]]; auto|]. intros [[-> ->]|Hin]; [by left|]. right. split; [|done]. intros <-.
  assert (H : "instance" ∈ ["ca_id"; "sigfp"; "edge_id"]).
  { apply Hsub. apply list_elem_of_fmap. exists ("instance", v). split; [done|exact Hin]. }
  set_solver.
Qed.

(** The labels of the own series. *)
Definition plainSeries (m : Metrics.Metric f64) : Prop :=
  (Metrics.m_Label m).*1 ⊆ ["ca_id"; "sigfp"; "edge_id"] /\ NoDup (Metrics.m_Label m).*1.

Lemma ownSeries_plain n r m : m ∈ ownSeries n r -> plainSeries m.
Proof.
  unfold ownSeries. destruct (List.find _ _) as [f|] eqn:Hf; [|by intros ?%elem_of_nil].
  apply List.find_some in Hf as [Hf _]. unfold Metrics.ownFamilies in Hf. simpl in Hf.
  assert (Hone : forall l (g : gmap string f64), l ∈ ["ca_id"; "sigfp"; "edge_id"] ->
    m ∈ (fun kv => Metrics.mkMetric kv.1 kv.2) <$> Metrics.by_label l g -> plainSeries m).
  { intros l g Hl (kv & -> & (e & -> & _)%list_elem_of_fmap)%list_elem_of_fmap. split; simpl; [set_solver|].
    apply NoDup_singleton. }
  assert (Htwo : forall l1 l2 (g : gmap (string * string) f64), l1 ∈ ["ca_id"; "edge_id"] -> l2 = "sigfp" ->
    m ∈ (fun kv => Metrics.mkMetric kv.1 kv.2) <$> Metrics.by_labels l1 l2 g -> plainSeries m).
  { intros l1 l2 g Hl -> (kv & -> & (e & -> & _)%list_elem_of_fmap)%list_elem_of_fmap. split; simpl; [set_solver|].
    apply NoDup_cons. split; [|apply NoDup_singleton]. set_solver. }
  repeat (destruct Hf as [<-|Hf]; [intros Hm; simpl in Hm; first [eapply Hone; [|exact Hm]; set_solver
    |eapply Htwo; [| |exact Hm]; set_solver|apply list_elem_of_singleton in Hm as ->; split; simpl; [set_solver|constructor]]|]).
  done.
Qed.

(** What a scrape of the fleet says of one replica, when its instance is its own. *)
Section scrape.
Context (rs : list replica) (others : list target).
Context (Hinst : NoDup (rp_instance <$> rs)) (Hne : Forall (fun r => rp_instance r <> "") rs).
Context (Hhonest : Forall honest rs).
(** The other targets do not expose the control plane's series. *)
Context (Hothers : Forall (fun t => forall n, n ∈ ownNames -> series n t = []) others).

Definition targets : list target := (replicaTarget <$> rs) ++ others.

Lemma scrape_in n s : n ∈ ownNames ->
  s ∈ scrape targets n <-> exists r m, r ∈ rs /\ m ∈ ownSeries n r /\ s = scraped {["instance" := rp_instance r]} m.
Proof using Hhonest Hothers.
  intros Hn. unfold scrape. rewrite list_elem_of_In, in_flat_map. setoid_rewrite <- list_elem_of_In.
  rewrite Forall_forall in Hhonest. rewrite Forall_forall in Hothers. split.
  - intros (t & [(r & -> & Hr)%list_elem_of_fmap|Ht]%elem_of_app & Hs).
    + rewrite series_own in Hs by auto. apply list_elem_of_fmap in Hs as (m & -> & Hm). eauto.
    + rewrite Hothers in Hs by done. by apply elem_of_nil in Hs.
  - intros (r & m & Hr & Hm & ->). exists (replicaTarget r). split.
    + apply elem_of_app. left. apply list_elem_of_fmap. eauto.
    + rewrite series_own by auto. apply list_elem_of_fmap. eauto.
Qed.

(** A map keyed by instance, read off the selected series of the replicas. *)
Lemma keyed_instance {A} n (P : sample -> Prop) vec (f : sample -> A) r v :
  n ∈ ownNames -> r ∈ rs -> (forall s, s ∈ vec <-> P s /\ s ∈ scrape targets n) ->
  (rp_instance r, v) ∈ keyed "instance" f vec <->
  exists m, m ∈ ownSeries n r /\ P (scraped {["instance" := rp_instance r]} m) /\
    v = f (scraped {["instance" := rp_instance r]} m).
Proof using Hinst Hne Hhonest Hothers.
  intros Hn Hr Hvec. rewrite keyed_in. split.
  - intros (s & [HP Hs]%Hvec & Hk & _ & <-). apply scrape_in in Hs as (r' & m & Hr' & Hm & ->); [|done].
    assert (r' = r) as ->; [|eauto]. eapply (NoDup_fmap_inj rp_instance); [exact Hinst|done|done|].
    destruct (ownSeries_plain _ _ _ Hm) as [Hsub Hnd]. apply scraped_label in Hk as [[_ Hk]|Hk]; [done| |done|done].
    assert (H : "instance" ∈ ["ca_id"; "sigfp"; "edge_id"]).
    { apply Hsub, list_elem_of_fmap. by eexists (_, _). }
    set_solver.
  - intros (m & Hm & HP & ->). exists (scraped {["instance" := rp_instance r]} m). split; [|split; [|split; [|done]]].
    + apply Hvec. split; [done|]. apply scrape_in; [done|]. eauto.
    + destruct (ownSeries_plain _ _ _ Hm). apply scraped_label; auto.
    + rewrite Forall_forall in Hne. by apply Hne.
Qed.

Lemma byInstance {A} n (P : sample -> Prop) vec (f : sample -> A) r m :
  n ∈ ownNames -> r ∈ rs -> (forall s, s ∈ vec <-> P s /\ s ∈ scrape targets n) ->
  m ∈ ownSeries n r -> P (scraped {["instance" := rp_instance r]} m) ->
  (forall m', m' ∈ ownSeries n r -> P (scraped {["instance" := rp_instance r]} m') -> m' = m) ->
  byKey "instance" f vec !! rp_instance r = Some (f (scraped {["instance" := rp_instance r]} m)).
Proof using Hinst Hne Hhonest Hothers.
  intros Hn Hr Hvec Hm HP Huniq. rewrite byKey_keyed. apply insertAll_iff.
  - intros v1 v2. rewrite !(keyed_instance n P vec f r) by done.
    intros (m1 & Hm1 & HP1 & ->) (m2 & Hm2 & HP2 & ->). by rewrite (Huniq m1), (Huniq m2).
  - apply (keyed_instance n P vec f r); eauto.
Qed.

Lemma byInstance_inv {A} n (P : sample -> Prop) vec (f : sample -> A) r v :
  n ∈ ownNames -> r ∈ rs -> (forall s, s ∈ vec <-> P s /\ s ∈ scrape targets n) ->
  byKey "instance" f vec !! rp_instance r = Some v ->
  exists m, m ∈ ownSeries n r /\ v = f (scraped {["instance" := rp_instance r]} m).
Proof using Hinst Hne Hhonest Hothers.
  intros Hn Hr Hvec. rewrite byKey_keyed. intros [Hin|Hm]%insertAll_in; [|by rewrite lookup_empty in Hm].
  apply (keyed_instance n P vec f r) in Hin as (m & Hm & _ & ->); eauto.
Qed.

End scrape.
(** Prometheus answers a bare name with the scraped series, and a query with matchers with
    those of them whose labels are the quoted values. *)
Record answers (Query : string -> option (list sample)) (ts : list target) : Prop := {
  an_bare : forall n, n ∈ ownNames -> Query n = Some (scrape ts n);
  an_issued : forall a b,
    Query ("parapet_edge_ca_issued_total{edge_id=" +:+ Quote a +:+ ",sigfp=" +:+ Quote b +:+ "}") =
    Some (filter (fun s => s_Metric s !! "edge_id" = Some a /\ s_Metric s !! "sigfp" = Some b)
            (scrape ts "parapet_edge_ca_issued_total"));
}.

End fleet.

(** The characters of a label that no quoting changes. *)
Definition plainLabel (s : string) : Prop :=
  all_chars (fun c => negb (Ascii.eqb c (ascii_of_nat 34)) && negb (Ascii.eqb c (ascii_of_nat 92))) s = true.

(** The entry of a replica in a snapshot. *)
Lemma Snapshot_cp Query fmt ord fresh id fp obs :
  (forall m, ord m ≡ₚ map_to_list m) -> Snapshot Query fmt ord fresh id fp = Some obs -> id <> "" -> fp <> "" ->
  exists fpVec authzVec activeVec issuedVec,
    Query "parapet_edge_ca_signer_fingerprint" = Some fpVec /\ Query "parapet_edge_authz_generation" = Some authzVec /\
    Query "parapet_edge_ca_active_signer_fp" = Some activeVec /\ Query (issuedQuery id fp) = Some issuedVec /\
    forall inst ca, byKey "instance" (fun s => default "" (s_Metric s !! "ca_id")) fpVec !! inst = Some ca ->
      exists cp, cp ∈ CP obs /\ SignerCAID cp = ca /\
        AuthzGen cp = num (byKey "instance" s_Value authzVec) inst /\
        ActiveSignerFP cp = str (byKey "instance" (fun s => default "" (s_Metric s !! "sigfp")) activeVec) inst /\
        RevokedIssuedUnderNew cp = num (byKey "instance" s_Value issuedVec) inst.
Proof.
  intros Hord H Hid Hfp. unfold Snapshot in H. rewrite (proj2 (String.eqb_neq _ _) Hid), (proj2 (String.eqb_neq _ _) Hfp) in H.
  simpl negb in H. cbn [andb] in H.
  repeat (apply bind_Some in H as (? & ? & H)). injection H as <-. unfold labelByInstance, labelByLabel, valueByInstance in *.
  repeat match goal with
         | Hf : _ <$> Query ?q = Some _ |- _ => apply fmap_Some in Hf as (? & ? & ->)
         end.
  do 4 eexists. split; [eassumption|]. split; [eassumption|]. split; [eassumption|]. split; [eassumption|].
  intros inst ca Hca. eexists. split; [|split; [|split; [|split]]].
  - simpl CP. apply list_elem_of_fmap. exists (inst, ca). split; [reflexivity|]. rewrite Hord. by apply elem_of_map_to_list.
  - done.
  - done.
  - done.
  - done.
Qed.

(** The labels of the series that the interlock reads. *)
Lemma label_ca i ca v :
  s_Metric (scraped {["instance" := i]} (Metrics.mkMetric [("ca_id", ca)] v)) !! "ca_id" = Some ca.
Proof. apply scraped_label; simpl; [in_sub|apply NoDup_singleton|]. right. by left. Qed.

Lemma label_pair i l a b v : l = "ca_id" \/ l = "edge_id" ->
  s_Metric (scraped {["instance" := i]} (Metrics.mkMetric [(l, a); ("sigfp", b)] v)) !! l = Some a /\
  s_Metric (scraped {["instance" := i]} (Metrics.mkMetric [(l, a); ("sigfp", b)] v)) !! "sigfp" = Some b.
Proof.
  intros Hl. assert (Hne : l <> "sigfp") by by intros ->; destruct Hl.
  split; (apply scraped_label; simpl;
    [destruct Hl as [->| ->]; in_sub|apply NoDup_cons; split; [by intros ->%list_elem_of_singleton|apply NoDup_singleton]|right]);
    [left|right; left].
Qed.

(** *** The ledger *)

Lemma ledger_counts (l : list (string * string)) (k : string * string) (m : gmap (string * string) Z) :
  default 0%Z ((fold_left (fun (m : gmap (string * string) Z) k => <[k := (default 0 (m !! k) + 1)%Z]> m) l m) !! k) =
  (default 0 (m !! k) + Z.of_nat (countb (fun k' => bool_decide (k' = k)) l))%Z.
Proof.
  revert m. induction l as [|k' l IH]; intros m; simpl; [lia|]. rewrite IH. case_bool_decide as Hk.
  - subst k'. rewrite lookup_insert_eq. simpl. lia.
  - rewrite lookup_insert_ne by done. simpl. lia.
Qed.

Lemma countb_pos {A} (f : A -> bool) (l : list A) x : x ∈ l -> f x = true -> 0 < countb f l.
Proof. induction 1 as [x l|x y l Hx IH]; simpl; intros H; [rewrite H; lia|]. specialize (IH H). lia. Qed.

Lemma fl_positive_Z z : (0 < z < 2 ^ 53)%Z -> fl_positive (f64_of_Z z) = true.
Proof. intros Hz. by destruct (f64_of_Z_finite z Hz) as (m & e & -> & _). Qed.

(** *** What the interlock sees of a replica *)

Section seen.
Context {Cert Pub Key : Type} `{!PKIOps Cert Pub Key}.
Context (rs : list (replica (Cert := Cert) (Key := Key))) (others : list target).
Context (Hnd : NoDup (rp_instance <$> rs)) (Hne : Forall (fun r => rp_instance r <> "") rs).
Context (Hhon : Forall honest rs).
Context (Hoth : Forall (fun t => forall n, n ∈ ownNames -> series n t = []) others).

Lemma all_scraped n s : s ∈ scrape (targets rs others) n <-> True /\ s ∈ scrape (targets rs others) n.
Proof. naive_solver. Qed.

Lemma seen_target r : r ∈ rs -> truthful r -> EdgeServer.SignerLoaded (rp_server r) = true ->
  byKey "instance" (fun s => default "" (s_Metric s !! "ca_id")) (scrape (targets rs others) "parapet_edge_ca_signer_fingerprint")
    !! rp_instance r = Some (EdgeServer.CurrentCAID (rp_server r)).
Proof using Hnd Hne Hhon Hoth.
  unfold truthful, EdgeServer.SignerLoaded. intros Hr Ht Hload.
  destruct (EdgeServer.signerState (rp_server r)) as [st|]; [|done].
  set (m := Metrics.mkMetric [("ca_id", EdgeServer.CurrentCAID (rp_server r))] (f64_of_Z 1)).
  assert (Hone : ownSeries "parapet_edge_ca_signer_fingerprint" r = [m]).
  { unfold ownSeries. simpl. rewrite Ht. simpl. unfold Metrics.by_label. by rewrite map_to_list_singleton. }
  rewrite (byInstance rs others Hnd Hne Hhon Hoth "parapet_edge_ca_signer_fingerprint" (fun _ => True) _ _ r m);
    [|in_list|done|apply all_scraped|rewrite Hone; by left|done|rewrite Hone; by intros ? ->%list_elem_of_singleton].
  assert (Hl : s_Metric (scraped {["instance" := rp_instance r]} m) !! "ca_id" = Some (EdgeServer.CurrentCAID (rp_server r)))
    by apply label_ca.
  by rewrite Hl.
Qed.

Lemma seen_signer r v : r ∈ rs -> truthful r ->
  byKey "instance" (fun s => default "" (s_Metric s !! "sigfp")) (scrape (targets rs others) "parapet_edge_ca_active_signer_fp")
    !! rp_instance r = Some v -> v = EdgeServer.CurrentActiveFP (rp_server r).
Proof using Hnd Hne Hhon Hoth.
  intros Hr Ht Hv.
  apply (byInstance_inv rs others Hnd Hne Hhon Hoth "parapet_edge_ca_active_signer_fp" (fun _ => True)) in Hv as (m & Hm & ->);
    [|in_list|done|apply all_scraped].
  unfold ownSeries, truthful in *. simpl in Hm. rewrite Ht in Hm.
  destruct (EdgeServer.signerState (rp_server r)) as [st|]; simpl in Hm; unfold Metrics.by_labels in Hm;
    [destruct (String.eqb _ "")|];
    [by rewrite map_to_list_empty in Hm; apply elem_of_nil in Hm| |by rewrite map_to_list_empty in Hm; apply elem_of_nil in Hm].
  rewrite map_to_list_singleton in Hm.
  assert (Hm' : m = Metrics.mkMetric [("ca_id", EdgeServer.CurrentCAID (rp_server r));
                                      ("sigfp", EdgeServer.CurrentActiveFP (rp_server r))] (f64_of_Z 1))
    by by apply list_elem_of_singleton in Hm.
  assert (Hl : s_Metric (scraped {["instance" := rp_instance r]} m) !! "sigfp" = Some (EdgeServer.CurrentActiveFP (rp_server r)))
    by (rewrite Hm'; apply label_pair; by left).
  by rewrite Hl.
Qed.

Lemma seen_authz r : r ∈ rs ->
  byKey "instance" s_Value (scrape (targets rs others) "parapet_edge_authz_generation") !! rp_instance r =
  Some (Metrics.authzGeneration (rp_registry r)).
Proof using Hnd Hne Hhon Hoth.
  intros Hr. set (m := Metrics.mkMetric [] (Metrics.authzGeneration (rp_registry r))).
  assert (Hone : ownSeries "parapet_edge_authz_generation" r = [m]) by done.
  by rewrite (byInstance rs others Hnd Hne Hhon Hoth "parapet_edge_authz_generation" (fun _ => True) _ _ r m);
    [|in_list|done|apply all_scraped|rewrite Hone; left|done|rewrite Hone; intros ? ->%list_elem_of_singleton].
Qed.

Lemma seen_ledger r id fp vec : r ∈ rs ->
  (forall s, s ∈ vec <-> (s_Metric s !! "edge_id" = Some id /\ s_Metric s !! "sigfp" = Some fp) /\
     s ∈ scrape (targets rs others) "parapet_edge_ca_issued_total") -> (id, fp) ∈ EdgeServer.issued (rp_server r) ->
  (Z.of_nat (length (EdgeServer.issued (rp_server r))) < 2 ^ 53)%Z ->
  fl_positive (num (byKey "instance" s_Value vec) (rp_instance r)) = true.
Proof using Hnd Hne Hhon Hoth.
  intros Hr Hvec Hiss Hsmall. pose proof (ledger_counts (EdgeServer.issued (rp_server r)) (id, fp) ∅) as Hcnt.
  rewrite lookup_empty in Hcnt. simpl in Hcnt.
  pose proof (countb_pos (fun k' => bool_decide (k' = (id, fp))) _ _ Hiss (bool_decide_eq_true_2 _ eq_refl)) as Hpos.
  pose proof (MetricsLemmas.countb_le (fun k' => bool_decide (k' = (id, fp))) (EdgeServer.issued (rp_server r))) as Hle.
  destruct (fold_left _ (EdgeServer.issued (rp_server r)) ∅ !! (id, fp)) as [c|] eqn:Hlk; simpl in Hcnt; [|lia].
  set (m := Metrics.mkMetric [("edge_id", id); ("sigfp", fp)] (f64_of_Z c)).
  assert (Hm : m ∈ ownSeries "parapet_edge_ca_issued_total" r).
  { unfold ownSeries. simpl. apply list_elem_of_fmap. exists ([("edge_id", id); ("sigfp", fp)], f64_of_Z c). split; [done|].
    apply list_elem_of_fmap. exists ((id, fp), f64_of_Z c). split; [done|]. apply elem_of_map_to_list.
    unfold Metrics.issuedCounts. by rewrite lookup_fmap, Hlk. }
  pose proof (fun a b v => label_pair (rp_instance r) "edge_id" a b v (or_intror eq_refl)) as Hlab.
  unfold num. rewrite (byInstance rs others Hnd Hne Hhon Hoth "parapet_edge_ca_issued_total"
    (fun s => s_Metric s !! "edge_id" = Some id /\ s_Metric s !! "sigfp" = Some fp) _ _ r m);
    [simpl; apply fl_positive_Z; lia|in_list|done|apply Hvec|done|apply Hlab|].
  intros m' Hm' [He Hs]. unfold ownSeries in Hm'. simpl in Hm'. apply list_elem_of_fmap in Hm' as (kv & -> & Hkv).
  apply list_elem_of_fmap in Hkv as ([[a b] v] & -> & Hkv%elem_of_map_to_list).
  destruct (Hlab a b v) as [H1 H2]. pose proof (eq_trans (eq_sym H1) He) as E1. pose proof (eq_trans (eq_sym H2) Hs) as E2.
  injection E1 as ->. injection E2 as ->. unfold Metrics.issuedCounts in Hkv. rewrite lookup_fmap, Hlk in Hkv.
  by injection Hkv as <-.
Qed.

End seen.

(** *** Samples of one key *)

Lemma keyed_app {A} key (f : sample -> A) l1 l2 : keyed key f (l1 ++ l2) = keyed key f l1 ++ keyed key f l2.
Proof. apply flat_map_app. Qed.

(** A later sample of the key hides an earlier one. *)
Lemma byKey_hidden {A} key (f : sample -> A) l1 s l2 :
  (exists s', s' ∈ l2 /\ s_Metric s' !! key = s_Metric s !! key) -> byKey key f (l1 ++ s :: l2) = byKey key f (l1 ++ l2).
Proof.
  intros (s' & Hin & Hk). rewrite !byKey_keyed, (keyed_app key f l1 (s :: l2)), (keyed_app key f l1 l2), !insertAll_app.
  unfold keyed at 1 4. simpl. destruct (default "" (s_Metric s !! key)) as [|c k] eqn:Hs; [done|].
  simpl. apply map_eq. intros k'. destruct (decide (k' = String c k)) as [->|Hne].
  - apply insertAll_over. exists (f s'). apply keyed_in. exists s'. split; [done|]. rewrite Hk.
    destruct (s_Metric s !! key); simpl in Hs; [by subst|done].
  - apply (insertAll_ext (keyed key f l2)). by rewrite lookup_insert_ne.
Qed.

Lemma idDisabled_spec l id e tok :
  NoDup (List.filter (fun i => negb (String.eqb i "")) ((fun kv => to_lower (trim_space (Authz.ID kv.2))) <$> l)) ->
  id <> "" -> idDisabled l id = true -> (tok, e) ∈ l -> to_lower (trim_space (Authz.ID e)) = id -> Authz.Disabled e = true.
Proof.
  intros Hnd Hid. induction l as [|[tok' e'] l IH]; [by intros _ ?%elem_of_nil|]. simpl in *.
  destruct (String.eqb_spec (to_lower (trim_space (Authz.ID e'))) id) as [He'|Hne].
  - intros Hd [[= -> ->]|Hin]%elem_of_cons He; [done|]. rewrite He', (proj2 (String.eqb_neq _ _) Hid) in Hnd. simpl in Hnd.
    apply NoDup_cons in Hnd as [Hn _]. destruct Hn. rewrite list_elem_of_In, List.filter_In, <- list_elem_of_In.
    split; [|by rewrite (proj2 (String.eqb_neq _ _) Hid)]. apply list_elem_of_fmap. by exists (tok, e).
  - intros Hd [[= -> ->]|Hin]%elem_of_cons He; [done|]. apply IH; [|done..].
    destruct (negb _); [by apply NoDup_cons in Hnd as [_ ?]|done].
Qed.

End RevokeLemmas.

Module RevokeProps.
Import EdgeStores Revoke RevokeLemmas.

Section rerun.
Context {Cert Pub Key : Type} {pki : PKIOps Cert Pub Key} {plaws : PKILaws Cert Pub Key}.
Context {ops : EtagOps} {elaws : EtagLaws}.

(** C34: a gate always comes to a verdict: when its reads are at least the poll interval
    apart, it converges or reports its failure within the passes that the deadline has room
    for. *)
Theorem gate_terminates (g : gate) cfg n poll deadline :
  (0 < poll)%Z -> paced g poll -> 0 < n -> pollUntilConverged g cfg n poll deadline <> None.
Proof.
  intros Hpoll Hpaced Hn.
  assert (Hroom : (deadline <= (Z.of_nat (pollFuel poll deadline) + Z.of_nat 0 - 1) * poll)%Z).
  { unfold pollFuel. rewrite Nat2Z.inj_add. pose proof (Z.mul_succ_div_gt deadline poll Hpoll) as Hlt.
    destruct (Z.le_gt_cases 0 (deadline / poll)) as [Hd|Hd]; [rewrite Z2Nat.id by done; nia|].
    rewrite (Z2Nat.nonpos (deadline / poll)) by lia. nia. }
  apply (pollLoop_ends g cfg _ n poll); [done|done|done|done|]. unfold pollFuel. lia.
Qed.

(** A rerun resumes a rotation under way and starts another once one is complete. Over
    a Secret in the overlap the first step writes nothing and pins the same certificate,
    and a flip is written only if none was; over the Secret that the trim left, it widens
    the bundle again. *)
Theorem rerun_resumes sec old new flipped gen now :
  RotationLemmas.Repr sec (RotationLemmas.Overlap old new flipped) ->
  (exists crt, Rotation.rotateDecide gen now sec = Rotation.DDone crt /\
     lastCertFP crt = Some (sumHex (RotationLemmas.ca_der new))) /\
  (flipped = true -> RotationLemmas.write (RotationLemmas.OFlip (sumHex (RotationLemmas.ca_der new))) gen now sec = None) /\
  (forall sec' ca, RotationLemmas.Repr sec' (RotationLemmas.Single new true) ->
     RotationLemmas.genuine ca -> RotationLemmas.ca_der ca <> RotationLemmas.ca_der new ->
     exists s v, Rotation.rotateDecide (Some (RotationLemmas.pems ca)) now sec' = Rotation.DWrite s v /\
       RotationLemmas.Repr s (RotationLemmas.Overlap new ca false)).
Proof using plaws elaws.
  intros Hr. split; [|split].
  - pose proof Hr as (Ho & Hn & Hne & Hcrt & Hk & Hnk & Hph & Ha). unfold Rotation.rotateDecide.
    rewrite (RotationLemmas.Repr_pair _ _ Hr). simpl negb. cbv iota. rewrite Hcrt, RotationLemmas.reencode_pair by done. simpl.
    rewrite Hph, Hnk, (RotationLemmas.genuine_key new Hn). simpl. eexists. split; [done|].
    unfold lastCertFP. by rewrite RotationLemmas.certBlocks_pair.
  - intros ->. pose proof (RotationLemmas.flip_implements (sumHex (RotationLemmas.ca_der new)) None gen now _ _ Hr) as Hi.
    unfold RotationLemmas.implements in Hi. by destruct (RotationLemmas.write _ gen now sec).
  - intros sec' ca Hs Hg Hne. pose proof (RotationLemmas.rotate_implements (Some ca) now _ _ Hs) as Hi.
    simpl in Hi. unfold RotationLemmas.wrote in Hi.
    destruct (Rotation.rotateDecide (Some (RotationLemmas.pems ca)) now sec') as [e|v|s v];
      (exfalso; apply Hi; split; [done|set_solver]) || (exists s, v; split; [done|]). apply Hi. split; [done|set_solver].
Qed.

End rerun.

Section revoke.
Context {Cert Pub Key : Type} {pki : PKIOps Cert Pub Key} {plaws : PKILaws Cert Pub Key}.
Context {ops : EtagOps} {elaws : EtagLaws}.
Context (Getenv : string -> string) (ReadFile : string -> option string).
Context (Sum256 : string -> string) (load : string -> string -> option (gmap string Authz.Entry)).
Context (ordTok ordTok' : gmap string Authz.Entry -> list (string * Authz.Entry)).
Context (NewPromQuerier : string -> bool) (k8sInit : bool).

#[local] Abbreviation run := (runRevoke (Cert := Cert) (Pub := Pub) (Key := Key) Getenv ReadFile Sum256 load ordTok ordTok' NewPromQuerier k8sInit).
#[local] Abbreviation checked := (preflight Getenv ReadFile load ordTok NewPromQuerier k8sInit).
#[local] Abbreviation reads := (Z.to_nat (stableReadsEnv Getenv)).
#[local] Abbreviation pinned := (gateB Getenv Sum256 ordTok').

Lemma FromPEM_nonempty bundle id : Signer.FromPEM bundle = Some id -> id <> "".
Proof using elaws.
  unfold Signer.FromPEM, Signer.FromDER. destruct (Signer.certBlocks bundle); [done|]. intros [= <-].
  apply hexSum16_nonempty.
Qed.

(** The preflight that a run passed. *)
Lemma preflight_ok id tokens :
  checked = Ok (id, tokens) -> id <> "" /\ (2 <= stableReadsEnv Getenv)%Z /\ idDisabled (ordTok tokens) id = true.
Proof.
  unfold preflight. intros H.
  repeat (match type of H with (if ?b then _ else _) = _ => destruct b eqn:?; [done|] end).
  destruct (load _ _) as [tk|]; [|done].
  repeat (match type of H with (if ?b then _ else _) = _ => destruct b eqn:?; [done|] end).
  injection H as <- <-. split; [by apply String.eqb_neq|]. split; [|by apply negb_false_iff].
  by apply Z.ltb_ge.
Qed.

(** C8: the old CA is dropped only through the interlock. A run that calls the trim has
    passed the preflight with the edge's entry present and disabled; widened the bundle to
    two certificates, of which the last is the one it pins; flipped the signer to it; and
    then read the fleet at least twice in a row, each time finding everything that
    [ready] asks for with the bundle's id, the pinned signer, the fingerprint of the
    registry and the edge's id as pins. If it then exits cleanly, the pinned certificate is
    the only one left. *)
Theorem trim_is_gated w fp :
  CTrim fp ∈ (run w).2 ->
  exists id tokens bundle target i,
    checked = Ok (id, tokens) /\ idDisabled (ordTok tokens) id = true /\
    Rotation.RotateCA (Cert := Cert) (DefaultDuration Getenv "EDGE_CA_TTL" Signer.DefaultCATTL) (w_rotate w) = Ok bundle /\
    length (Signer.certBlocks bundle) = 2 /\ last (Signer.certBundleFPs bundle) = Some fp /\
    Signer.FromPEM bundle = Some target /\ is_ok (Rotation.SetActiveNew (Cert := Cert) fp (w_flip w)) = true /\
    let cfg := pinned target fp id tokens in
    ExpectedTargetCAID cfg = target /\ ExpectedActiveSignerFP cfg = fp /\ RevokedEdgeID cfg = id /\
    ExpectedAuthzGen cfg = Metrics.AuthzGeneration Sum256 (ordTok' tokens) /\
    2 <= reads /\
    (forall k, k < reads -> exists obs, g_obs (w_drop w) (i + k) = Some obs /\
       ready (stamp (g_probe (w_drop w) (i + k)) obs) cfg target) /\
    (forall trimmed, (run w).1 = Ok trimmed -> Signer.certBundleFPs trimmed = [fp]).
Proof using plaws elaws.
  unfold runRevoke. destruct checked as [[id tokens]|e] eqn:Hpre; [|by intros ?%elem_of_nil].
  destruct (preflight_ok id tokens Hpre) as (Hid & Hreads & Hdis).
  destruct (Rotation.RotateCA _ (w_rotate w)) as [bundle|e] eqn:Hrot; [|simpl; set_solver].
  destruct (lastCertFP bundle) as [newFP|] eqn:Hfp; [|simpl; set_solver].
  destruct (Signer.FromPEM bundle) as [target|] eqn:Hca; [|simpl; set_solver].
  destruct (pollUntilConverged (w_widen w) _ _ _ _) as [[[] ja]|] eqn:Ha; [|simpl; set_solver..].
  destruct (Rotation.SetActiveNew newFP (w_flip w)) as [b|e] eqn:Hflip; [|simpl; set_solver].
  destruct (pollUntilConverged (w_drop w) _ _ _ _) as [[[] jb]|] eqn:Hb; [|simpl; set_solver..].
  intros Hin. assert (fp = newFP) as ->.
  { destruct (Rotation.TrimCA newFP (w_trim w)); simpl in Hin; set_solver. }
  apply pollLoop_converged in Hb as [Hpos [i Hi]].
  exists id, tokens, bundle, target, i. split; [done|]. split; [done|]. split; [done|].
  split; [by eapply RotationLemmas.rotate_result|].
  split. { unfold lastCertFP in Hfp. unfold Signer.certBundleFPs. by rewrite fmap_last. }
  split; [done|]. split; [by rewrite Hflip|]. do 4 (split; [done|]). split; [lia|]. split.
  - intros k Hk. specialize (Hi k Hk). unfold verdict in Hi. destruct (g_obs (w_drop w) (i + k)) as [obs|]; [|done].
    exists obs. split; [done|]. apply Evaluate_ready in Hi as [T Hr]. destruct (rd_pin _ _ _ Hr) as [Hp|Hp]; simpl in Hp.
    + by destruct (FromPEM_nonempty _ _ Hca).
    + by subst T.
  - intros trimmed. destruct (Rotation.TrimCA newFP (w_trim w)) as [tr|e] eqn:Htrim; [|done].
    intros [= <-]. by apply RotationLemmas.trim_result in Htrim as [_ ?].
Qed.

End revoke.
Section fleet.
Context {Cert Pub Key : Type} {pki : PKIOps Cert Pub Key}.

(** The interlock reads the fleet. Take the replicas of a control plane, each scraped
    under an instance of its own, whose gauges are those of their signer, and suppose that
    no edge pushed a series of a control-plane name. When the drop gate converges on a
    snapshot, every replica that signs does so with the pinned certificate, over the one
    target, with the pinned registry, and none has issued to the revoked edge under it. *)
Theorem converged_means_signed_new (rs : list (replica (Cert := Cert) (Key := Key))) others Query fmt ord fresh probe cfg id fp obs :
  NoDup (rp_instance <$> rs) -> Forall (fun r => rp_instance r <> "") rs -> Forall honest rs -> Forall truthful rs ->
  Forall (fun t => forall n, n ∈ ownNames -> series n t = []) others ->
  answers Query (targets rs others) -> (forall m, ord m ≡ₚ map_to_list m) ->
  id = RevokedEdgeID cfg -> id <> "" -> plainLabel id -> fp = ExpectedActiveSignerFP cfg -> fp <> "" -> plainLabel fp ->
  Snapshot Query fmt ord fresh id fp = Some obs -> Converged (Evaluate (stamp probe obs) cfg) = true ->
  exists T, forall r, r ∈ rs -> EdgeServer.SignerLoaded (rp_server r) = true ->
    (Z.of_nat (length (EdgeServer.issued (rp_server r))) < 2 ^ 53)%Z ->
    EdgeServer.CurrentCAID (rp_server r) = T /\ EdgeServer.CurrentActiveFP (rp_server r) = fp /\
    SFeqb (Metrics.authzGeneration (rp_registry r)) (ExpectedAuthzGen cfg) = true /\
    (id, fp) ∉ EdgeServer.issued (rp_server r).
Proof.
  intros Hnd Hne Hhon Htru Hoth [Hbare Hissued] Hord Hid Hidne Hidp Hfp Hfpne Hfpp Hsnap Hc.
  apply Evaluate_ready in Hc as [T Hr]. exists T. intros r Hin Hload Hsmall.
  destruct (Snapshot_cp Query fmt ord fresh id fp obs Hord Hsnap Hidne Hfpne)
    as (fpV & auV & acV & isV & HfpV & HauV & HacV & HisV & Hcp).
  rewrite Hbare in HfpV, HauV, HacV by in_list. injection HfpV as <-. injection HauV as <-. injection HacV as <-.
  unfold issuedQuery in HisV. rewrite (promLabel_plain _ Hidp), (promLabel_plain _ Hfpp), Hissued in HisV. injection HisV as <-.
  rewrite Forall_forall in Htru. specialize (Htru r Hin).
  destruct (Hcp _ _ (seen_target rs others Hnd Hne Hhon Hoth r Hin Htru Hload)) as (cp & Hcpin & Hsig & Hau & Hac & His).
  pose proof (rd_cp _ _ _ Hr) as Hready. rewrite Forall_forall in Hready.
  assert (Hcpin' : cp ∈ CP (stamp probe obs)) by by destruct probe.
  destruct (Hready cp Hcpin') as (_ & HT & _ & Hpin). rewrite <- Hfp in Hpin. destruct (Hpin Hfpne) as (Hnew & Hgen & Hled).
  rewrite <- Hid in Hled. specialize (Hled Hidne). split; [congruence|]. split; [|split].
  - rewrite Hac in Hnew. unfold str in Hnew.
    destruct (byKey _ _ (scrape _ "parapet_edge_ca_active_signer_fp") !! rp_instance r) as [v|] eqn:Hv; [|simpl in Hnew; congruence].
    apply (seen_signer rs others Hnd Hne Hhon Hoth) in Hv; [|done..]. simpl in Hnew. congruence.
  - rewrite Hau in Hgen. unfold num in Hgen. by rewrite (seen_authz rs others Hnd Hne Hhon Hoth) in Hgen.
  - intros Hiss. rewrite His in Hled.
    eapply eq_true_false_abs; [|exact Hled].
    apply (seen_ledger rs others Hnd Hne Hhon Hoth r id fp _ Hin); [|done|done].
    intros s. rewrite list_elem_of_filter. reflexivity.
Qed.

End fleet.

(** What the checks of a registry establish. The start-up check passes exactly when the
    ids as written are distinct. If they are distinct in the form in which they become
    identities, the preflight of a revocation means that no live token has the id. If they
    are distinct only as written, a registry passes the check with a live and a disabled
    token of one identity, and the preflight depends on the order of a map. *)
Theorem registry_checks (l : list (string * Authz.Entry)) id :
  (duplicateEdgeID l = "" <-> NoDup (List.filter (fun i => negb (String.eqb i "")) ((Authz.ID ∘ snd) <$> l))) /\
  (NoDup (List.filter (fun i => negb (String.eqb i "")) ((fun kv => to_lower (trim_space (Authz.ID kv.2))) <$> l)) ->
   id <> "" -> idDisabled l id = true -> NoDup l.*1 ->
   forall tok, Authz.Identity (Authz.NewAuthzEntries (list_to_map l)) tok <> Some id) /\
  (exists l1 l2, l1 ≡ₚ l2 /\ duplicateEdgeID l1 = "" /\ idDisabled l1 "edge-1" = true /\ idDisabled l2 "edge-1" = false /\
     Authz.Identity (Authz.NewAuthzEntries (list_to_map l1)) "tok-2" = Some "edge-1").
Proof.
  split; [|split].
  - unfold duplicateEdgeID. rewrite duplicateFrom_none. split; [by intros [? _]|]. intros ?. split; [done|].
    intros ? _ _. set_solver.
  - intros Hnd Hid Hdis Hkeys tok Hlive. unfold Authz.Identity in Hlive. rewrite Authz.lookup_NewAuthzEntries in Hlive.
    destruct (list_to_map l !! tok) as [e|] eqn:He; [|done]. apply elem_of_list_to_map_2 in He.
    destruct (Authz.Disabled e) eqn:Hd; [done|]. simpl in Hlive. destruct (String.eqb _ ""); [done|]. injection Hlive as Hlive.
    rewrite (idDisabled_spec l id e tok Hnd Hid Hdis He Hlive) in Hd. done.
  - exists [("tok-1", Authz.mkEntry "edge-1" [] true); ("tok-2", Authz.mkEntry "Edge-1" [] false)],
           [("tok-2", Authz.mkEntry "Edge-1" [] false); ("tok-1", Authz.mkEntry "edge-1" [] true)].
    split; [apply perm_swap|]. by vm_compute.
Qed.

(** *** Concrete fleets *)

#[local] Existing Instances SignerProps.toyPKI SignerProps.toyPKILaws SignerProps.lettersEtag SignerProps.lettersEtagLaws.

(** Two tokens: one edge in service, one revoked. *)
Definition demoTokens : gmap string Authz.Entry :=
  {["tok-1" := Authz.mkEntry "e1" [] false; "tok-r" := Authz.mkEntry "revoked" [] true]}.

Definition demoServer : EdgeServer.Server string ascii :=
  EdgeServer.SetSigner SignerProps.newSigner 7
    (EdgeServer.NewServer (CPCerts.mkStore ∅ true "") (Authz.NewAuthzEntries demoTokens)).

Definition demoRegistry : Metrics.registryGauges :=
  Metrics.SetRegistryMetrics id (map_to_list demoTokens) (map_to_list demoTokens).

(** The replica with what edges pushed to it. *)
Definition demoReplica (pushed : list (Metrics.MetricFamily f64)) : replica :=
  mkReplica "cp-0" demoServer (Metrics.setSignerMetrics "id" "fp" 7 2) demoRegistry pushed.

Definition coreTarget (i ca : string) : target :=
  mkTarget {["instance" := i]} [Metrics.gaugeFamily "parapet_trust_bundle_generation" [([("ca_id", ca)], f64_of_Z 1)]].

(** An edge's process, with the certificate that its leaf chains to. *)
Definition edgeTarget (i id fp : string) : target :=
  mkTarget {["instance" := i; "edge_id" := id]}
    [Metrics.gaugeFamily "parapet_edge_clientcert_ca_id" [([("ca_id", "id")], f64_of_Z 1)];
     Metrics.gaugeFamily "parapet_edge_cp_target_ca_id" [([("ca_id", "id")], f64_of_Z 1)];
     Metrics.gaugeFamily "parapet_edge_clientcert_signer_fp" [([("sigfp", fp)], f64_of_Z 1)];
     Metrics.gaugeFamily "parapet_edge_cp_active_signer_fp" [([("sigfp", fp)], f64_of_Z 1)]].

(** A Prometheus over live targets, in which every edge refreshed and none failed. *)
Definition demoQuery (ts : list target) (q : string) : option (list sample) :=
  if String.eqb q "up" then Some ((fun t => mkSample (t_labels t) (f64_of_Z 1)) <$> ts)
  else if String.eqb q "parapet_edge_registry_total == 1"
  then Some (List.filter (fun s => one (s_Value s)) (scrape ts "parapet_edge_registry_total"))
  else if String.eqb q (refreshQuery "5m") then Some ((fun t => mkSample (t_labels t) (f64_of_Z 1)) <$> ts)
  else if String.eqb q (remintQuery "5m") then Some []
  else if has_prefix q "parapet_edge_ca_issued_total" then Some []
  else Some (scrape ts q).

Definition demoConfig (cores : Z) : Config :=
  mkConfig 1 cores 1 [] "id" "fp" (Metrics.authzGeneration demoRegistry) "revoked".

(** The verdict of the drop gate over a fleet, the probe having been refused. *)
Definition demoVerdict (cores : Z) (ts : list target) : bool :=
  match Snapshot (demoQuery ts) (fun _ => "5m") map_to_list (5 * minute) "revoked" "fp" with
  | Some obs => Converged (Evaluate (stamp (Some 401%Z) obs) (demoConfig cores))
  | None => false
  end.

(** The body that an edge in service pushes, as parsed: a series of a core. *)
Definition forgedParse (r : string * bool) : result Metrics.parseError (gmap string (Metrics.MetricFamily f64)) :=
  Ok {["parapet_trust_bundle_generation" :=
         Metrics.gaugeFamily "parapet_trust_bundle_generation" [([("ca_id", "id")], f64_of_Z 1)]]}.

Definition forgedPush : Metrics.MetricsStore f64 * EdgeServer.Response :=
  MetricsProps.receive map_to_list forgedParse (Metrics.NewMetricsStore (300 * second))
    (MetricsProps.mkArrival demoServer (MetricsProps.pushReq "tok-1" "i1" "x") second).

(** An edge can vouch for a core. The interlock takes a series for a core's by its name
    alone, and a push may carry any name: with one of two expected cores missing the drop
    gate is held, and the accepted push of one edge, merged into what the control plane
    exposes, lets it pass. *)
Theorem push_forges_a_core :
  EdgeServer.Status forgedPush.2 = 204%Z /\
  let fleet pushed := [replicaTarget (demoReplica pushed); coreTarget "core-0" "id"; edgeTarget "edge-0" "e1" "fp"] in
  demoVerdict 2 (fleet []) = false /\
  demoVerdict 2 (fleet (Metrics.families map_to_list (2 * second) forgedPush.1).2) = true.
Proof. by vm_compute. Qed.

(** One replica of an edge hides the others. In a snapshot the last sample of an edge
    id is the only one that counts, so of two processes under one id, one still on a leaf
    of the old signer, the drop gate judges only one, and which one is the order of the
    samples. *)
Theorem replica_hides_replica :
  (forall A key (f : sample -> A) l1 s l2,
     (exists s', s' ∈ l2 /\ s_Metric s' !! key = s_Metric s !! key) ->
     byKey key f (l1 ++ s :: l2) = byKey key f (l1 ++ l2)) /\
  let fleet := [replicaTarget (demoReplica []); coreTarget "core-0" "id"] in
  demoVerdict 1 (fleet ++ [edgeTarget "edge-0" "e1" "old-fp"; edgeTarget "edge-1" "e1" "fp"]) = true /\
  demoVerdict 1 (fleet ++ [edgeTarget "edge-1" "e1" "fp"; edgeTarget "edge-0" "e1" "old-fp"]) = false.
Proof. split; [intros A; apply byKey_hidden|]. by vm_compute. Qed.

(** *** Witnesses *)

Lemma replica_hides_replica_witness :
  let s i v := mkSample {["instance" := i]} (f64_of_Z v) in
  byKey "instance" s_Value ([] ++ s "a" 1%Z :: [s "a" 2%Z]) = byKey "instance" s_Value ([] ++ [s "a" 2%Z]).
Proof.
  apply (proj1 replica_hides_replica). eexists. split; [left|reflexivity].
Defined.

Lemma gate_terminates_witness :
  let g := mkGate (fun _ => None) (fun _ => None) (fun i => (Z.of_nat i * (30 * second))%Z) in
  pollUntilConverged g (demoConfig 1) 2 (30 * second) (1800 * second) <> None.
Proof. apply gate_terminates; [done| |lia]. split; [vm_compute; discriminate|]. intros i. simpl. lia. Defined.

Lemma registry_checks_witness :
  let l := [("tok-1", Authz.mkEntry "e1" [] false); ("tok-r", Authz.mkEntry "revoked" [] true)] in
  Authz.Identity (Authz.NewAuthzEntries (list_to_map l)) "tok-1" <> Some "revoked".
Proof.
  intros l. refine (proj1 (proj2 (registry_checks l "revoked")) _ _ _ _ "tok-1").
  - by apply (bool_decide_unpack _); vm_compute.
  - done.
  - by vm_compute.
  - by apply (bool_decide_unpack _); vm_compute.
Defined.

Definition demoFleet : list target := [coreTarget "core-0" "id"; edgeTarget "edge-0" "e1" "fp"].

(** [demoQuery] with the matchers of the ledger's query. *)
Definition ledgerQuery (ts : list target) (q : string) : option (list sample) :=
  if has_prefix q "parapet_edge_ca_issued_total{" then
    Some (filter (fun s => q = "parapet_edge_ca_issued_total{edge_id=" +:+ Quote (default "" (s_Metric s !! "edge_id")) +:+
                               ",sigfp=" +:+ Quote (default "" (s_Metric s !! "sigfp")) +:+ "}")
            (scrape ts "parapet_edge_ca_issued_total"))
  else if String.eqb q "parapet_edge_ca_issued_total" then Some (scrape ts q) else demoQuery ts q.

Lemma demoFleet_answers : answers (ledgerQuery (targets [demoReplica []] demoFleet)) (targets [demoReplica []] demoFleet).
Proof.
  split.
  - intros n Hn. apply list_elem_of_In in Hn. simpl in Hn.
    repeat (destruct Hn as [<-|Hn]; [reflexivity|]). done.
  - intros a b. unfold ledgerQuery.
    assert (Hp : has_prefix ("parapet_edge_ca_issued_total{edge_id=" +:+ Quote a +:+ ",sigfp=" +:+ Quote b +:+ "}")
                   "parapet_edge_ca_issued_total{" = true) by done.
    by rewrite Hp.
Qed.

Lemma converged_means_signed_new_witness :
  exists obs, Snapshot (ledgerQuery (targets [demoReplica []] demoFleet)) (fun _ => "5m") map_to_list (5 * minute)
      "revoked" "fp" = Some obs /\ Converged (Evaluate (stamp (Some 401%Z) obs) (demoConfig 1)) = true /\
    exists T, forall r, r ∈ [demoReplica []] -> EdgeServer.SignerLoaded (rp_server r) = true ->
      (Z.of_nat (length (EdgeServer.issued (rp_server r))) < 2 ^ 53)%Z ->
      EdgeServer.CurrentCAID (rp_server r) = T /\ EdgeServer.CurrentActiveFP (rp_server r) = "fp" /\
      SFeqb (Metrics.authzGeneration (rp_registry r)) (ExpectedAuthzGen (demoConfig 1)) = true /\
      ("revoked", "fp") ∉ EdgeServer.issued (rp_server r).
Proof.
  destruct (Snapshot (ledgerQuery (targets [demoReplica []] demoFleet)) (fun _ => "5m") map_to_list (5 * minute)
      "revoked" "fp") as [obs|] eqn:Hs; [|by vm_compute in Hs].
  exists obs. split; [done|].
  assert (Hc : Converged (Evaluate (stamp (Some 401%Z) obs) (demoConfig 1)) = true).
  { vm_compute in Hs. injection Hs as <-. by vm_compute. }
  split; [exact Hc|].
  apply (converged_means_signed_new [demoReplica []] demoFleet
           (ledgerQuery (targets [demoReplica []] demoFleet)) (fun _ => "5m") map_to_list (5 * minute) (Some 401%Z)
           (demoConfig 1) "revoked" "fp" obs); try done.
  - apply NoDup_singleton.
  - by repeat constructor.
  - constructor; [|constructor]. by intros f ?%elem_of_nil.
  - repeat constructor.
  - repeat constructor; intros n Hn; apply list_elem_of_In in Hn; simpl in Hn;
      repeat (destruct Hn as [<-|Hn]; [reflexivity|]); done.
  - apply demoFleet_answers.
Defined.

(** A fleet that has widened, and then one that has re-minted. *)
Definition runFleet (fp : string) : option Observations :=
  let ca := default "" (Signer.FromPEM (Signer.encodeCert "Aold" +:+ Signer.encodeCert "Bnew")) in
  let gauges := Metrics.setSignerMetrics ca fp 7 2 in
  let replica := mkReplica "cp-0" demoServer gauges demoRegistry [] in
  let edge := mkTarget {["instance" := "edge-0"; "edge_id" := "e1"]}
    [Metrics.gaugeFamily "parapet_edge_clientcert_ca_id" [([("ca_id", ca)], f64_of_Z 1)];
     Metrics.gaugeFamily "parapet_edge_cp_target_ca_id" [([("ca_id", ca)], f64_of_Z 1)];
     Metrics.gaugeFamily "parapet_edge_clientcert_signer_fp" [([("sigfp", fp)], f64_of_Z 1)];
     Metrics.gaugeFamily "parapet_edge_cp_active_signer_fp" [([("sigfp", fp)], f64_of_Z 1)]] in
  Snapshot (demoQuery [replicaTarget replica; coreTarget "core-0" ca; edge]) (fun _ => "5m") map_to_list (5 * minute)
    "revoked" fp.

(** A gate whose every read, five minutes apart, finds that. *)
Definition runGate (fp : string) : gate :=
  mkGate (fun _ => runFleet fp) (fun _ => Some 401%Z) (fun i => (Z.of_nat i * (300 * second))%Z).

Definition trimmedCA : Rotation.Secret :=
  Rotation.mkSecret "edge-ca" (<["tls.crt" := Signer.encodeCert "Bnew"]>
    (<["tls.key" := RotationLemmas.ca_key RotationProps.newCA]> ∅))
    (<[Rotation.caRotationPhaseAnnotation := Rotation.caPhaseTrimmed]> ∅) "10".

(** The operator reran after the flip: nothing is written until the trim. *)
Definition runWorld : revokeWorld ascii :=
  mkWorld
    [Rotation.mkAttempt (Ok RotationProps.overlapCA) None None 0 Rotation.Updated (Ok RotationProps.overlapCA)]
    [Rotation.mkAttempt (Ok RotationProps.overlapCA) None None 0 Rotation.Updated (Ok RotationProps.overlapCA)]
    [Rotation.mkAttempt (Ok RotationProps.overlapCA) None None 0 Rotation.Updated (Ok trimmedCA)]
    (runGate (sumHex "Bnew")) (runGate (sumHex "Bnew")).

Definition runEnv (k : string) : string :=
  default "" ((list_to_map [("POD_NAMESPACE", "ns"); ("EDGE_CA_REVOKE_EDGE_ID", "Revoked"); ("EDGE_CONVERGE_PROM_URL", "http://prom");
    ("EDGE_CONVERGE_REVOKED_TOKEN", "tok-r"); ("EDGE_CONVERGE_CP_URL", "https://cp"); ("EDGE_CONVERGE_POLL_INTERVAL", "5m");
    ("EDGE_CONVERGE_EXPECTED_CP", "1"); ("EDGE_CONVERGE_EXPECTED_CORE", "1"); ("EDGE_CONVERGE_MIN_EDGES", "1")]
    : gmap string string) !! k).

Definition runDemo := runRevoke (Cert := string) (Pub := ascii) (Key := ascii) runEnv (fun _ => None) id (fun _ _ => Some demoTokens)
  map_to_list map_to_list (fun _ => true) true runWorld.

Lemma trim_is_gated_witness :
  CTrim (sumHex "Bnew") ∈ runDemo.2 /\ runDemo.1 = Ok (Signer.encodeCert "Bnew") /\
  exists bundle, Rotation.RotateCA (Cert := string) (Pub := ascii) (Key := ascii) Signer.DefaultCATTL (w_rotate runWorld) = Ok bundle /\
    length (Signer.certBlocks bundle) = 2 /\ last (Signer.certBundleFPs bundle) = Some (sumHex "Bnew").
Proof.
  assert (Hin : CTrim (sumHex "Bnew") ∈ runDemo.2).
  { apply (list_elem_of_lookup_2 _ 4). by vm_compute. }
  split; [exact Hin|]. split; [by vm_compute|].
  destruct (trim_is_gated runEnv (fun _ => None) id (fun _ _ => Some demoTokens) map_to_list map_to_list (fun _ => true) true
              runWorld _ Hin) as (? & ? & bundle & ? & ? & _ & _ & Hrot & Hlen & Hlast & _).
  exists bundle. auto.
Defined.

Lemma rerun_resumes_witness :
  (exists crt, Rotation.rotateDecide None 0 RotationProps.overlapCA = Rotation.DDone crt /\
     lastCertFP crt = Some (sumHex "Bnew")) /\
  exists s v, Rotation.rotateDecide (Some (RotationLemmas.pems RotationProps.oldCA)) 0 trimmedCA = Rotation.DWrite s v.
Proof.
  pose proof (rerun_resumes RotationProps.overlapCA RotationProps.oldCA RotationProps.newCA true None 0
                RotationProps.overlapCA_Repr) as (H1 & _ & H3). split; [exact H1|].
  destruct (H3 trimmedCA RotationProps.oldCA) as (s & v & H & _).
  - split; [apply RotationProps.newCA_genuine|]. by vm_compute.
  - apply RotationProps.oldCA_genuine.
  - done.
  - by exists s, v.
Defined.

End RevokeProps.
