(* ===== verification/Events.v ===== *)
(** * Change notification

    Models [src/edgecp/events.go] and [handleEvents] of [src/edgecp/server.go] (the hub
    that samples a version of every store and wakes its subscribers), and on the other
    side [src/edge/events.go] and [runRefreshLoop] of [src/edge/refresh.go] (the stream
    as an edge reads it, the wake-ups of its refresh loops, and reconnecting).

    A channel of capacity one is the snapshot it holds; a wake-up channel is a bit.
    [Feed] interleaves the hub, one stream and the loops of one edge.  There a refresh
    reads the store and completes in one step: a wake-up that comes while it runs stays
    pending, and the loop then runs again, as in the source. *)

From S2P Require Import Prelude GoString GoURL Certs PurgeJournal EdgeStores Signer EdgeServer CpClient.

Set Default Proof Using "Type".

(** ** The hub *)

Module Events.

Record EventsSnapshot := mkSnap {
  WAF : string;
  RateLimit : string;
  Cache : string;
  Coraza : string;
  Hosts : string;
  Certs : string;
  Purges : Z;
}.
#[export] Instance EventsSnapshot_eq_dec : EqDecision EventsSnapshot.
Proof. solve_decision. Defined.

(** The snapshot that the control plane's hub samples. *)
Definition snapshot {Cert Key} `{!EtagOps} (s : EdgeServer.Server Cert Key) : EventsSnapshot :=
  let version {D} (st : option (EdgeStores.Store D)) := match st with Some st => EdgeStores.Version st | None => "" end in
  mkSnap (version (EdgeServer.waf s)) (version (EdgeServer.ratelimit s)) (version (EdgeServer.cache s))
    (version (EdgeServer.coraza s))
    (match EdgeServer.hosts s with Some h => EdgeStores.h_etag h | None => "" end)
    (CPCerts.version (EdgeServer.certs s))
    (match EdgeServer.purge s with Some p => lastSeq p | None => 0%Z end).

(** [subs] maps a channel to its token, [chans] to what it holds; [next] is the first
    channel not yet made. *)
Record EventsHub := mkHub {
  SampleInterval : Z;
  PingInterval : Z;
  MaxSubscribers : Z;
  MaxPerToken : Z;
  RetryAfterSecs : Z;
  subs : gmap nat string;
  perToken : gmap string Z;
  chans : gmap nat (option EventsSnapshot);
  next : nat;
}.

Definition NewEventsHub : EventsHub :=
  mkHub second (20 * second) 1024 32 30 ∅ ∅ ∅ 0.

Definition withSubs (h : EventsHub) subs perToken chans next : EventsHub :=
  mkHub (SampleInterval h) (PingInterval h) (MaxSubscribers h) (MaxPerToken h) (RetryAfterSecs h) subs perToken chans next.

Definition tokenCount (h : EventsHub) (token : string) : Z := default 0%Z (perToken h !! token).

(** The channel is made before the caps are looked at; a refused one is garbage. *)
Definition Subscribe (token : string) (h : EventsHub) : EventsHub * option nat :=
  let c := next h in
  if (0 <? MaxSubscribers h)%Z && (MaxSubscribers h <=? Z.of_nat (size (subs h)))%Z then (h, None)
  else if (0 <? MaxPerToken h)%Z && (MaxPerToken h <=? tokenCount h token)%Z then (h, None)
  else (withSubs h (<[c := token]> (subs h)) (<[token := (tokenCount h token + 1)%Z]> (perToken h))
          (<[c := None]> (chans h)) (S c), Some c).

(** The closure that [Subscribe] returns with channel [c] and [token]. *)
Definition cancel (c : nat) (token : string) (h : EventsHub) : EventsHub :=
  match subs h !! c with
  | None => h
  | Some _ =>
      withSubs h (delete c (subs h))
        (if (tokenCount h token <=? 1)%Z then delete token (perToken h)
         else <[token := (tokenCount h token - 1)%Z]> (perToken h))
        (chans h) (next h)
  end.

(** The two non-blocking selects on one channel: drop what it holds, then send. *)
Definition offer (snap : EventsSnapshot) (buf : option EventsSnapshot) : option EventsSnapshot :=
  let buf := match buf with Some _ => None | None => None end in
  match buf with None => Some snap | Some old => Some old end.

Definition broadcast (snap : EventsSnapshot) (h : EventsHub) : EventsHub :=
  withSubs h (subs h) (perToken h)
    (map_imap (fun c buf => Some (match subs h !! c with Some _ => offer snap buf | None => buf end)) (chans h)) (next h).

(** One tick of [Run], which holds the snapshot it saw [last]. *)
Definition tick (cur last : EventsSnapshot) (h : EventsHub) : EventsSnapshot * EventsHub :=
  if decide (cur = last) then (last, h) else (cur, broadcast cur h).

Definition sampleInterval (h : EventsHub) : Z := if (SampleInterval h <=? 0)%Z then second else SampleInterval h.

(** *** The stream of the control plane *)

Section stream.
Context {Cert Key : Type} `{!JSON EventsSnapshot}.
#[local] Abbreviation Server := (EdgeServer.Server Cert Key).

(** What [writeEvent] writes; nothing when the snapshot does not encode. *)
Definition eventFrame (snap : EventsSnapshot) : option string :=
  (fun body => "event: change" +:+ EdgeServer.newline +:+ "data: " +:+ body +:+ EdgeServer.newline +:+ EdgeServer.newline)
    <$> marshal snap.
Definition pingFrame : string := ": ping" +:+ EdgeServer.newline +:+ EdgeServer.newline.

Definition pingInterval (h : EventsHub) : Z := if (PingInterval h <=? 0)%Z then (20 * second)%Z else PingInterval h.

Definition streamHeader : GoURL.Header :=
  HeaderSet "X-Accel-Buffering" "no" (HeaderSet "Cache-Control" "no-store" (HeaderSet "Content-Type" "text/event-stream" ∅)).

(** The stream that a handler has opened: its channel and what it wrote first. *)
Inductive opened := Refused (resp : EdgeServer.Response) | Opened (c : nat) (first : option string).

(** [flusher]: the writer can flush; [current] is read after subscribing. *)
Definition handleEvents (flusher : bool) (s : Server) (r : EdgeServer.Request) (current : EventsSnapshot)
    (events : option EventsHub) : option EventsHub * opened :=
  match EdgeServer.bearer r with
  | None => (events, Refused EdgeServer.unauthorized)
  | Some token =>
      if negb (Authz.Known (EdgeServer.authz s) token) then (events, Refused EdgeServer.unauthorized)
      else match events with
      | None => (None, Refused (EdgeServer.Error ∅ "events disabled" 404))
      | Some h =>
          if negb flusher then (Some h, Refused (EdgeServer.Error ∅ "streaming unsupported" 500))
          else match Subscribe token h with
          | (h', None) =>
              let retryAfter := if (RetryAfterSecs h <=? 0)%Z then 30%Z else RetryAfterSecs h in
              (Some h', Refused (EdgeServer.Error (HeaderSet "Retry-After" (itoa retryAfter) ∅) "too many event subscribers" 503))
          | (h', Some c) =>
              match eventFrame current with
              | None => (Some (cancel c token h'), Opened c None)
              | Some frame => (Some h', Opened c (Some frame))
              end
          end
      end
  end.

(** What the loop of the handler reacts to. [WriteFails]: the next write fails. *)
Inductive wake := CtxDone | Recv (snap : EventsSnapshot) | Ping | WriteFails.

(** What an iteration writes; [None] ends the handler. *)
Definition streamStep (e : wake) : option string :=
  match e with
  | CtxDone | WriteFails => None
  | Recv snap => eventFrame snap
  | Ping => Some pingFrame
  end.
End stream.

End Events.

(** ** The edge *)

Module Feed.
Import Events.

(** The refresh loops, one per field of the snapshot. *)
Inductive resource := RWAF | RCoraza | RRateLimit | RCache | RHosts | RCerts | RPurges.
#[export] Instance resource_eq_dec : EqDecision resource.
Proof. solve_decision. Defined.

Definition resources : list resource := [RWAF; RCoraza; RRateLimit; RCache; RHosts; RCerts; RPurges].

#[export] Program Instance resource_finite : finite.Finite resource := {| finite.enum := resources |}.
Next Obligation. by apply (bool_decide_unpack _); vm_compute. Qed.
Next Obligation. intros []; by apply (bool_decide_unpack _); vm_compute. Qed.

(** The field of the snapshot that a loop follows. *)
Definition version (r : resource) (s : EventsSnapshot) : string + Z :=
  match r with
  | RWAF => inl (WAF s)
  | RCoraza => inl (Coraza s)
  | RRateLimit => inl (RateLimit s)
  | RCache => inl (Cache s)
  | RHosts => inl (Hosts s)
  | RCerts => inl (Certs s)
  | RPurges => inr (Purges s)
  end.

(** [wired]: the loops that run; [pending]: the wake-ups that their channels hold. *)
Section pokes.
Context (wired : gset resource).

Definition poke (r : resource) (pending : gset resource) : gset resource :=
  if decide (r ∈ wired) then {[r]} ∪ pending else pending.

Definition pokeAll (pending : gset resource) : gset resource := fold_left (fun p r => poke r p) resources pending.

Definition pokeChanged (snap last : EventsSnapshot) (pending : gset resource) : gset resource :=
  fold_left (fun p r => if decide (version r snap = version r last) then p else poke r p) resources pending.

(** A decoded event, the event before it on the stream being [last]. *)
Definition dispatch (last : option EventsSnapshot) (snap : EventsSnapshot) (pending : gset resource) : gset resource :=
  match last with None => pending | Some l => pokeChanged snap l pending end.

(** *** The lines of a stream *)

(** [last] is unset while [first] holds. *)
Record reader := mkReader { r_last : option EventsSnapshot; r_data : string; r_pending : gset resource }.

Definition trimPrefix (p s : string) : string := if has_prefix s p then str_drop (String.length p) s else s.

Definition readLine `{!JSON EventsSnapshot} (st : reader) (line : string) : reader :=
  if has_prefix line ":" then st
  else if has_prefix line "data:" then
    mkReader (r_last st) (r_data st +:+ trimPrefix " " (trimPrefix "data:" line)) (r_pending st)
  else if String.eqb line "" then
    if String.eqb (r_data st) "" then st
    else match unmarshal (r_data st) with
         | None => mkReader (r_last st) "" (r_pending st)
         | Some snap => mkReader (Some snap) "" (dispatch (r_last st) snap (r_pending st))
         end
  else st.

(** [bufio.ScanLines] under a buffer of 1 MiB: the lines, and whether the scanner stopped
    at one that does not fit. *)
Definition maxLine : Z := 1048576.

Definition dropCR (line : string) : string := trim_suffix_char (ascii_of_nat 13) line.

Fixpoint scanFrom (l : list string) : list string * bool :=
  match l with
  | [] => ([], false)
  | line :: rest =>
      if (maxLine <=? Z.of_nat (String.length line))%Z then ([], true)
      else match rest with
           | [] => (if String.eqb line "" then [] else [dropCR line], false)
           | _ => let '(lines, tooLong) := scanFrom rest in (dropCR line :: lines, tooLong)
           end
  end.
Definition scan (body : string) : list string * bool := scanFrom (split_char (ascii_of_nat 10) body).

(** How a connection ends: with the terminal chunk, with a read error, or closed by the
    watchdog after ninety seconds of silence. *)
Inductive ending := EOF | Broken | Watchdog.
Inductive eventsError := EOpen (e : CpClient.cpError) | ESilent | ERead | ENoInitial.

(** [body] is what arrives before the end; [done_] tells whether the caller's context ended
    first.  [resp] is the answer to [OpenEvents]. *)
Definition runEventsOnce `{!JSON EventsSnapshot} (resp : result CpClient.cpError EdgeServer.Response)
    (body : string) (how : ending) (done_ : bool) (pending : gset resource) :
    gset resource * bool * option eventsError :=
  match resp with
  | Err e => (pending, false, Some (EOpen e))
  | Ok _ =>
      let '(lines, tooLong) := scan body in
      let st := fold_left readLine lines (mkReader None "" (pokeAll pending)) in
      let delivered := match r_last st with Some _ => true | None => false end in
      let failed := tooLong || match how with EOF => false | _ => true end in
      let silent := negb tooLong && match how with Watchdog => true | _ => false end in
      (r_pending st, delivered,
       if failed && negb done_ then Some (if silent then ESilent else ERead)
       else if negb delivered && negb done_ then Some ENoInitial else None)
  end.

(** *** Reconnecting *)

Definition backoffBase : Z := second.
Definition backoffMax : Z := minute.
Definition eventsUnsupportedRetry : Z := (5 * minute)%Z.
Definition eventsConnectJitter : Z := (5 * second)%Z.
Definition eventsReconnectJitter : Z := (2 * second)%Z.

Definition minDur (a b : Z) : Z := if (a <? b)%Z then a else b.

(** [fullJitter d], a draw [j] being the random number below [d]. *)
Definition fullJitter (draw : Z) (d : Z) : Z := if (d <=? 0)%Z then 0%Z else (draw mod d)%Z.

(** The pause before the next connection and the backoff that it starts with. *)
Definition reconnect (draw : Z) (delivered : bool) (err : option eventsError) (backoff : Z) : Z * Z :=
  let backoff := if delivered then backoffBase else backoff in
  match err with
  | Some (EOpen CpClient.EEventsUnsupported) => (eventsUnsupportedRetry, backoffBase)
  | Some _ =>
      ((backoff + fullJitter draw backoffBase)%Z, if negb delivered then minDur (backoff * 2) backoffMax else backoff)
  | None => (fullJitter draw eventsReconnectJitter, backoff)
  end.

(** The backoff after the streams of a run of [RunEvents]. *)
Definition RunEvents (l : list (Z * bool * option eventsError)) : Z :=
  fold_left (fun b x => (reconnect x.1.1 x.1.2 x.2 b).2) l backoffBase.
End pokes.

(** *** A refresh loop *)

(** Before the jittered deadline, and after, when the ticker runs. *)
Inductive phase := Jitter | Ticking.
Inductive loopEvent := Done | Timer | Poked.

(** The next phase ([None]: the loop has returned) and whether [fn] runs. *)
Definition runRefreshLoop (ph : phase) (e : loopEvent) : option phase * bool :=
  match ph, e with
  | _, Done => (None, false)
  | Jitter, Timer => (Some Ticking, false)
  | Jitter, Poked => (Some Jitter, true)
  | Ticking, Timer => (Some Ticking, true)
  | Ticking, Poked => (Some Ticking, true)
  end.

(** ** The hub, a stream and an edge, interleaved *)

Section world.
(** The snapshots that the stores go through. *)
Context (V : nat -> EventsSnapshot) (wired : gset resource) (token : string).

(** A stream: the channel of its handler, the events written to it and not yet read, and,
    once the edge has the response, its last event. *)
Inductive link :=
| Off
| Subscribed (c : nat)
| Live (c : nat) (written : list EventsSnapshot) (open : bool) (last : option EventsSnapshot).

(** [busy]: the loops whose refresh runs; [have]: the version of what each holds; [stale]:
    those whose latest refresh failed. *)
Record world := mkWorld {
  now : nat;
  hubLast : EventsSnapshot;
  hub : EventsHub;
  conn : link;
  pending : gset resource;
  busy : gset resource;
  have : resource -> string + Z;
  stale : gset resource;
}.

Definition withHub (h : EventsHub) (l : EventsSnapshot) (w : world) : world :=
  mkWorld (now w) l h (conn w) (pending w) (busy w) (have w) (stale w).
Definition withConn (h : EventsHub) (k : link) (p : gset resource) (w : world) : world :=
  mkWorld (now w) (hubLast w) h k p (busy w) (have w) (stale w).
Definition withLoops (p b : gset resource) (hv : resource -> string + Z) (st : gset resource) (w : world) : world :=
  mkWorld (now w) (hubLast w) (hub w) (conn w) p b hv st.

(** Whether a channel is that of the edge's stream. *)
Definition ours (c : nat) (k : link) : Prop :=
  match k with Off => False | Subscribed c' => c = c' | Live c' _ _ _ => c = c' end.

(** The stores change; the hub ticks; other streams come and go; a handler subscribes,
    then writes the current snapshot; the edge sees the response; the handler forwards
    what its channel holds; the edge reads an event; a loop takes a wake-up or its timer
    fires; its refresh, which reads the stores, succeeds or fails; the stream breaks, and
    its channel is then one of the others. *)
Inductive step (w : world) : world -> Prop :=
| s_change : step w (mkWorld (S (now w)) (hubLast w) (hub w) (conn w) (pending w) (busy w) (have w) (stale w))
| s_tick : step w (let '(l, h) := tick (V (now w)) (hubLast w) (hub w) in withHub h l w)
| s_subscribe_other tok : step w (withHub (Subscribe tok (hub w)).1 (hubLast w) w)
| s_cancel_other c tok : ~ ours c (conn w) -> default tok (subs (hub w) !! c) = tok -> step w (withHub (cancel c tok (hub w)) (hubLast w) w)
| s_subscribe c h : conn w = Off -> Subscribe token (hub w) = (h, Some c) ->
    step w (withConn h (Subscribed c) (pending w) w)
| s_current c : conn w = Subscribed c -> step w (withConn (hub w) (Live c [V (now w)] false None) (pending w) w)
| s_response c l : conn w = Live c l false None ->
    step w (withConn (hub w) (Live c l true None) (pokeAll wired (pending w)) w)
| s_forward c l o last snap : conn w = Live c l o last -> chans (hub w) !! c = Some (Some snap) ->
    step w (withConn (withSubs (hub w) (subs (hub w)) (perToken (hub w)) (<[c := None]> (chans (hub w))) (next (hub w)))
              (Live c (l ++ [snap]) o last) (pending w) w)
| s_read c snap l last : conn w = Live c (snap :: l) true last ->
    step w (withConn (hub w) (Live c l true (Some snap)) (dispatch wired last snap (pending w)) w)
| s_wake r : r ∈ pending w -> r ∉ busy w ->
    step w (withLoops (pending w ∖ {[r]}) ({[r]} ∪ busy w) (have w) (stale w) w)
| s_timer r : r ∉ busy w -> step w (withLoops (pending w) ({[r]} ∪ busy w) (have w) (stale w) w)
| s_refreshed r : r ∈ busy w ->
    step w (withLoops (pending w) (busy w ∖ {[r]})
              (fun r' => if decide (r' = r) then version r (V (now w)) else have w r') (stale w ∖ {[r]}) w)
| s_failed r : r ∈ busy w ->
    step w (withLoops (pending w) (busy w ∖ {[r]}) (have w) ({[r]} ∪ stale w) w)
| s_break : step w (withConn (hub w) Off (pending w) w).

(** A hub that has taken its first sample, and an edge whose loops hold something. *)
Definition boot (h : resource -> string + Z) : world := mkWorld 0 (V 0) NewEventsHub Off ∅ ∅ h (list_to_set resources).

Definition reachable (w : world) : Prop := exists h, star step (boot h) w.
End world.

End Feed.

(** ** Lemmas *)

Module EventsLemmas.
Import Events Feed.

(** *** Subscriptions *)

(** The streams of a token. *)
Definition streams (tok : string) (h : EventsHub) : nat := size (filter (fun kv => kv.2 = tok) (subs h)).

(** What the hub goes through: its own ticks, handlers subscribing, receiving and
    cancelling, each cancel with the token that it subscribed with. *)
Inductive hstep (h : EventsHub) : EventsHub -> Prop :=
| h_subscribe tok : hstep h (Subscribe tok h).1
| h_cancel c tok : default tok (subs h !! c) = tok -> hstep h (cancel c tok h)
| h_tick cur last : hstep h (tick cur last h).2
| h_receive c : hstep h (withSubs h (subs h) (perToken h) (<[c := None]> (chans h)) (next h)).

Record HubInv (h : EventsHub) : Prop := {
  hi_fresh : forall c, next h <= c -> subs h !! c = None;
  hi_count : forall tok, tokenCount h tok = Z.of_nat (streams tok h);
  hi_live : forall tok n, perToken h !! tok = Some n -> (0 < n)%Z;
  hi_max : (0 < MaxSubscribers h)%Z -> (Z.of_nat (size (subs h)) <= MaxSubscribers h)%Z;
  hi_token : (0 < MaxPerToken h)%Z -> forall tok, (tokenCount h tok <= MaxPerToken h)%Z;
}.

Lemma streams_insert tok tok' c h :
  subs h !! c = None ->
  size (filter (fun kv => kv.2 = tok) (<[c := tok']> (subs h))) = (if decide (tok' = tok) then 1 else 0) + streams tok h.
Proof.
  intros Hc. unfold streams. rewrite map_filter_insert. simpl. case_decide.
  - rewrite map_size_insert_None; [done|]. rewrite map_lookup_filter_None. by left.
  - by rewrite delete_id.
Qed.

Lemma streams_delete tok tok' c h :
  subs h !! c = Some tok' ->
  (if decide (tok' = tok) then 1 else 0) + size (filter (fun kv => kv.2 = tok) (delete c (subs h))) = streams tok h.
Proof.
  intros Hc. unfold streams. rewrite map_filter_delete. case_decide as He.
  - rewrite map_size_delete_Some by (eexists; by apply map_lookup_filter_Some).
    assert (0 < size (filter (fun kv => kv.2 = tok) (subs h))); [|lia].
    apply Nat.neq_0_lt_0, (map_size_ne_0_lookup_2 _ c). exists tok'. by apply map_lookup_filter_Some.
  - rewrite delete_id; [done|]. apply map_lookup_filter_None. right. intros x Hx. simpl. congruence.
Qed.

Lemma HubInv_subscribe tok h : HubInv h -> HubInv (Subscribe tok h).1.
Proof.
  intros [Hf Hc Hl Hm Ht]. unfold Subscribe.
  destruct ((0 <? MaxSubscribers h)%Z && _) eqn:Hmax; [done|].
  destruct ((0 <? MaxPerToken h)%Z && _) eqn:Hper; [done|]. simpl.
  assert (Hnone : subs h !! next h = None) by (apply Hf; lia). unfold tokenCount in *.
  split; simpl.
  - intros c Hge. rewrite lookup_insert_ne by lia. apply Hf. lia.
  - intros tok'. unfold tokenCount, streams. simpl. rewrite (streams_insert _ _ _ _ Hnone).
    destruct (decide (tok = tok')) as [->|Hne].
    + rewrite lookup_insert_eq. simpl. rewrite Hc. lia.
    + rewrite lookup_insert_ne by done. apply Hc.
  - intros tok' n. destruct (decide (tok = tok')) as [->|Hne].
    + rewrite lookup_insert_eq. intros [= <-]. rewrite Hc. lia.
    + rewrite lookup_insert_ne by done. apply Hl.
  - intros Hpos. rewrite map_size_insert_None by done. specialize (Hm Hpos). apply andb_false_iff in Hmax as [H|H]; lia.
  - intros Hpos tok'. unfold tokenCount. simpl. destruct (decide (tok = tok')) as [->|Hne].
    + rewrite lookup_insert_eq. simpl. apply andb_false_iff in Hper as [H|H]; lia.
    + rewrite lookup_insert_ne by done. by apply Ht.
Qed.

Lemma HubInv_cancel c tok h : default tok (subs h !! c) = tok -> HubInv h -> HubInv (cancel c tok h).
Proof.
  intros Htok [Hf Hc Hl Hm Ht]. unfold cancel. destruct (subs h !! c) as [t|] eqn:Hs; [|done]. simpl in Htok. subst t.
  assert (Hcnt : forall tok', tokenCount (withSubs h (delete c (subs h))
      (if (tokenCount h tok <=? 1)%Z then delete tok (perToken h) else <[tok := (tokenCount h tok - 1)%Z]> (perToken h))
      (chans h) (next h)) tok' = Z.of_nat (size (filter (fun kv => kv.2 = tok') (delete c (subs h))))).
  { intros tok'. pose proof (streams_delete tok' tok c h Hs) as Hd. unfold tokenCount at 1. simpl.
    pose proof (Hc tok') as Hc'. pose proof (Hc tok) as Hct. destruct (decide (tok = tok')) as [<-|Hne].
    - destruct (Z.leb_spec (tokenCount h tok) 1).
      + rewrite lookup_delete_eq. simpl. lia.
      + rewrite lookup_insert_eq. simpl. lia.
    - destruct (tokenCount h tok <=? 1)%Z.
      + rewrite lookup_delete_ne by done. unfold tokenCount in Hc'. lia.
      + rewrite lookup_insert_ne by done. unfold tokenCount in Hc'. lia. }
  split; simpl.
  - intros c' Hge. apply lookup_delete_None. right. by apply Hf.
  - exact Hcnt.
  - intros tok' n. destruct (Z.leb_spec (tokenCount h tok) 1).
    + intros [_ Hn]%lookup_delete_Some. by eapply Hl.
    + intros [[<- <-]|[_ Hn]]%lookup_insert_Some; [lia|by eapply Hl].
  - intros Hpos. specialize (Hm Hpos). rewrite map_size_delete_Some by by eexists. lia.
  - intros Hpos tok'. rewrite Hcnt. specialize (Ht Hpos tok'). pose proof (streams_delete tok' tok c h Hs).
    rewrite Hc in Ht. lia.
Qed.

Lemma HubInv_same h sb ch :
  sb = subs h -> HubInv h -> HubInv (withSubs h sb (perToken h) ch (next h)).
Proof. intros -> [Hf Hc Hl Hm Ht]. by split. Qed.

Lemma HubInv_tick cur last h : HubInv h -> HubInv (tick cur last h).2.
Proof. unfold tick. case_decide; [done|]. by apply HubInv_same. Qed.

Lemma HubInv_step h h' : HubInv h -> hstep h h' -> HubInv h'.
Proof.
  intros Hi []; [by apply HubInv_subscribe|by apply HubInv_cancel|by apply HubInv_tick|by apply HubInv_same].
Qed.

Lemma Subscribe_cancel tok h h' c :
  HubInv h -> Subscribe tok h = (h', Some c) ->
  subs (cancel c tok h') = subs h /\ perToken (cancel c tok h') = perToken h /\
  cancel c tok (cancel c tok h') = cancel c tok h'.
Proof.
  intros [Hf Hc Hl _ _] Hsub. unfold Subscribe in Hsub. destruct (_ && _); [done|]. destruct (_ && _); [done|].
  injection Hsub as Hh' <-. assert (Hn : subs h !! next h = None) by (apply Hf; lia).
  assert (Hs : subs h' !! next h = Some tok) by (subst h'; apply lookup_insert_eq).
  assert (Hcnt : tokenCount h' tok = (tokenCount h tok + 1)%Z) by (subst h'; unfold tokenCount at 1; simpl; by rewrite lookup_insert_eq).
  assert (H1 : subs (cancel (next h) tok h') = subs h).
  { unfold cancel. rewrite Hs. subst h'. by apply delete_insert_id. }
  split; [exact H1|]. split; [|unfold cancel at 1; by rewrite H1, Hn].
  unfold cancel. rewrite Hs, Hcnt. subst h'. simpl. specialize (Hc tok). unfold tokenCount in *.
  destruct (perToken h !! tok) as [n|] eqn:Hp; simpl in *; [|by apply delete_insert_id].
  pose proof (Hl tok n Hp). destruct (Z.leb_spec (n + 1) 1); [lia|]. rewrite insert_insert_eq.
  replace (n + 1 - 1)%Z with n by lia. by apply insert_id.
Qed.

(** *** Wake-ups *)

Section feed.
Context (V : nat -> EventsSnapshot) (wired : gset resource) (token : string).
#[local] Abbreviation step := (step V wired token).

Lemma fold_poke (P : resource -> Prop) `{!forall r, Decision (P r)} l p r :
  r ∈ fold_left (fun p r => if decide (P r) then p else poke wired r p) l p <->
  r ∈ p \/ (r ∈ l /\ r ∈ wired /\ ~ P r).
Proof.
  revert p. induction l as [|r' l IH]; intros p; simpl; [set_solver|]. rewrite IH. unfold poke.
  destruct (decide (P r')); [|destruct (decide (r' ∈ wired))]; set_unfold; naive_solver.
Qed.

Lemma elem_of_pokeChanged snap last p r :
  r ∈ pokeChanged wired snap last p <-> r ∈ p \/ (r ∈ wired /\ version r snap <> version r last).
Proof.
  unfold pokeChanged. rewrite (fold_poke (fun r => version r snap = version r last)).
  pose proof (finite.elem_of_enum r). naive_solver.
Qed.

Lemma elem_of_pokeAll p r : r ∈ pokeAll wired p <-> r ∈ p \/ r ∈ wired.
Proof.
  unfold pokeAll. pose proof (fold_poke (fun _ => False) resources p r) as H. simpl in *.
  pose proof (finite.elem_of_enum r). naive_solver.
Qed.

(** A field that never returns to an earlier value. *)
Definition settles (r : resource) : Prop :=
  forall i j k, i <= j <= k -> version r (V i) = version r (V k) -> version r (V j) = version r (V i).

(** A snapshot that the stores have had. *)
Definition sampled (w : world) (s : EventsSnapshot) : Prop := exists p, p <= now w /\ s = V p.

(** The event that the edge has read last, or will read first; and the latest written. *)
Definition base (lst : option EventsSnapshot) (l : list EventsSnapshot) : option EventsSnapshot :=
  match lst with Some s => Some s | None => head l end.
Definition newest (lst : option EventsSnapshot) (l : list EventsSnapshot) : option EventsSnapshot :=
  match last l with Some s => Some s | None => lst end.

Definition chanOk (w : world) (c : nat) : Prop :=
  c < next (hub w) /\ is_Some (subs (hub w) !! c) /\
  exists buf, chans (hub w) !! c = Some buf /\ forall s, buf = Some s -> s = hubLast w.

(** What the loop of [r] holds is as new as what the edge has seen, or it is to refresh. *)
Definition fresh (r : resource) (w : world) (b : option EventsSnapshot) : Prop :=
  r ∈ pending w \/ r ∈ busy w \/ r ∈ stale w \/
  exists p h, b = Some (V p) /\ p <= h <= now w /\ have w r = version r (V h).

Record Inv (r : resource) (w : world) : Prop := {
  i_hub : sampled w (hubLast w);
  i_chan : forall c, ours c (conn w) -> chanOk w c;
  i_newest : forall c l o lst, conn w = Live c l o lst -> chans (hub w) !! c = Some None ->
    exists hp tp, hubLast w = V hp /\ hp <= tp <= now w /\ newest lst l = Some (V tp);
  i_seen : forall c l o lst, conn w = Live c l o lst ->
    Forall (sampled w) l /\ (o = false -> lst = None) /\ is_Some (base lst l) /\ (forall s, lst = Some s -> sampled w s);
  i_fresh : forall c l lst, conn w = Live c l true lst -> fresh r w (base lst l);
}.

Lemma base_snoc lst l s : is_Some (base lst l) -> base lst (l ++ [s]) = base lst l.
Proof. destruct lst, l; simpl; [done..|intros [??]; done|done]. Qed.

Lemma newest_snoc lst l s : newest lst (l ++ [s]) = Some s.
Proof. unfold newest. by rewrite last_snoc. Qed.

Lemma newest_read lst s l : newest (Some s) l = newest lst (s :: l).
Proof. unfold newest. rewrite last_cons. by destruct (last l). Qed.

(** The hub's other streams leave a channel alone. *)
Definition sameChan (c : nat) (h h' : EventsHub) : Prop :=
  subs h' !! c = subs h !! c /\ chans h' !! c = chans h !! c /\ next h <= next h'.

Lemma Subscribe_same c tok h : c < next h -> sameChan c h (Subscribe tok h).1.
Proof.
  intros Hc. unfold sameChan, Subscribe. destruct (_ && _); [done|]. destruct (_ && _); [done|]. simpl.
  rewrite !lookup_insert_ne by lia. auto with lia.
Qed.

Lemma cancel_same c c' tok h : c <> c' -> sameChan c h (cancel c' tok h).
Proof.
  intros Hne. unfold sameChan, cancel. destruct (subs h !! c'); [|done]. simpl. by rewrite lookup_delete_ne by done.
Qed.

Lemma Inv_others r w h' :
  (forall c, ours c (conn w) -> sameChan c (hub w) h') -> Inv r w -> Inv r (withHub h' (hubLast w) w).
Proof.
  intros Hsame [Hhub Hchan Hnew Hseen Hfresh]. split; simpl; [done| |  |done|done].
  - intros c Ho. destruct (Hsame c Ho) as (H1 & H2 & H3), (Hchan c Ho) as (Hc & Hs & Hb). unfold chanOk. simpl.
    rewrite H1, H2. split; [lia|done].
  - intros c l o lst Hk Hc. apply (Hnew c l o lst); [done|]. destruct (Hsame c) as (_ & <- & _); [by rewrite Hk|done].
Qed.

Lemma Inv_change r w :
  Inv r w -> Inv r (mkWorld (S (now w)) (hubLast w) (hub w) (conn w) (pending w) (busy w) (have w) (stale w)).
Proof.
  assert (Hs : forall s, sampled w s -> exists p, p <= S (now w) /\ s = V p) by (intros s (p & ? & ?); exists p; auto).
  intros [Hhub Hchan Hnew Hseen Hfresh]. split; simpl; [by apply Hs|done| | |].
  - intros c l o lst Hk Hc. destruct (Hnew c l o lst Hk Hc) as (hp & tp & ? & ? & ?). exists hp, tp. auto with lia.
  - intros c l o lst Hk. destruct (Hseen c l o lst Hk) as (Hl & Ho & Hb & Hlst). split; [by eapply Forall_impl|].
    split; [done|]. split; [done|]. intros s Heq. by apply Hs, Hlst.
  - intros c l lst Hk. unfold fresh. simpl. destruct (Hfresh c l lst Hk) as [|[|[|(p & h & ? & ? & ?)]]]; [auto..|].
    right. right. right. exists p, h. auto with lia.
Qed.

Lemma Inv_tick r w :
  Inv r w -> Inv r (let '(l, h) := tick (V (now w)) (hubLast w) (hub w) in withHub h l w).
Proof.
  intros [Hhub Hchan Hnew Hseen Hfresh]. unfold tick. case_decide as Heq; [by split|].
  assert (Hheld : forall c buf, is_Some (subs (hub w) !! c) -> chans (hub w) !! c = Some buf ->
    chans (broadcast (V (now w)) (hub w)) !! c = Some (Some (V (now w)))).
  { intros c buf [t Ht] Hb. simpl. rewrite map_lookup_imap, Hb. simpl. rewrite Ht. by destruct buf. }
  split; simpl; [by exists (now w)| | |done|done].
  - intros c Ho. destruct (Hchan c Ho) as (Hc & Hs & buf & Hb & _). split; [done|]. split; [done|].
    eexists. split; [by eapply Hheld|]. by intros s [= <-].
  - intros c l o lst Hk Hc. destruct (Hchan c) as (_ & Hs & buf & Hb & _); [by rewrite Hk|].
    pose proof (Hheld c buf Hs Hb) as H. simpl in H. congruence.
Qed.

(** A stream that the handler has just opened. *)
Lemma Inv_subscribe r w c h :
  conn w = Off -> Subscribe token (hub w) = (h, Some c) -> Inv r w -> Inv r (withConn h (Subscribed c) (pending w) w).
Proof.
  intros Hk Hsub [Hhub Hchan Hnew Hseen Hfresh]. unfold Subscribe in Hsub.
  destruct (_ && _); [done|]. destruct (_ && _); [done|]. injection Hsub as <- <-.
  split; simpl; [done| |done..]. intros c ->. unfold chanOk. simpl. rewrite !lookup_insert_eq. split; [lia|].
  split; [by eexists|]. by eexists.
Qed.

Lemma Inv_current r w c : conn w = Subscribed c -> Inv r w -> Inv r (withConn (hub w) (Live c [V (now w)] false None) (pending w) w).
Proof.
  intros Hk [Hhub Hchan Hnew Hseen Hfresh]. split; simpl; [done| | | |].
  - intros c' ->. unfold chanOk. simpl. apply Hchan. by rewrite Hk.
  - intros c' l o lst [= <- <- <- <-] Hc. destruct Hhub as (hp & Hle & ->). by exists hp, (now w).
  - intros c' l o lst [= <- <- <- <-]. split; [|split; [done|split; [by eexists|done]]].
    apply Forall_singleton. by exists (now w).
  - by intros c' l lst [= <- <- <-].
Qed.

Lemma Inv_response r w c l :
  r ∈ wired -> conn w = Live c l false None -> Inv r w ->
  Inv r (withConn (hub w) (Live c l true None) (pokeAll wired (pending w)) w).
Proof.
  intros Hr Hk [Hhub Hchan Hnew Hseen Hfresh]. split; simpl; [done| | | |].
  - intros c' ->. unfold chanOk. simpl. apply Hchan. by rewrite Hk.
  - intros c' l' o lst [= <- <- <- <-]. by apply (Hnew c l false None).
  - intros c' l' o lst [= <- <- <- <-]. destruct (Hseen c l false None Hk) as (? & _ & ? & ?). done.
  - intros c' l' lst [= <- <- <-]. left. simpl. apply elem_of_pokeAll. by right.
Qed.

Lemma Inv_forward r w c l o lst snap :
  conn w = Live c l o lst -> chans (hub w) !! c = Some (Some snap) -> Inv r w ->
  Inv r (withConn (withSubs (hub w) (subs (hub w)) (perToken (hub w)) (<[c := None]> (chans (hub w))) (next (hub w)))
           (Live c (l ++ [snap]) o lst) (pending w) w).
Proof.
  intros Hk Hc [Hhub Hchan Hnew Hseen Hfresh].
  destruct (Hchan c) as (Hn & Hs & buf & Hb & Hlast); [by rewrite Hk|]. rewrite Hc in Hb. injection Hb as <-.
  assert (snap = hubLast w) as -> by by apply Hlast.
  destruct (Hseen c l o lst Hk) as (Hl & Ho & Hbase & Hlst). split; simpl; [done| | | |].
  - intros c' ->. split; [done|]. split; [done|]. exists None. split; [apply lookup_insert_eq|done].
  - intros c' l' o' lst' [= <- <- <- <-] _. rewrite newest_snoc. destruct Hhub as (hp & Hle & ->). by exists hp, hp.
  - intros c' l' o' lst' [= <- <- <- <-]. rewrite base_snoc by done. split; [|done].
    apply Forall_app. split; [done|]. by apply Forall_singleton.
  - intros c' l' lst' [= <- <- -> <-]. rewrite base_snoc by done. by apply (Hfresh c l lst).
Qed.

Lemma Inv_read r w c snap l lst :
  settles r -> r ∈ wired -> conn w = Live c (snap :: l) true lst -> Inv r w ->
  Inv r (withConn (hub w) (Live c l true (Some snap)) (dispatch wired lst snap (pending w)) w).
Proof.
  intros Hset Hr Hk [Hhub Hchan Hnew Hseen Hfresh].
  destruct (Hseen c (snap :: l) true lst Hk) as ([Hsnap Hl]%Forall_cons & _ & _ & Hlst). split; simpl; [done| | | |].
  - intros c' ->. unfold chanOk. simpl. apply Hchan. by rewrite Hk.
  - intros c' l' o lst' [= <- <- <- <-]. rewrite newest_read with (lst := lst). by apply (Hnew c (snap :: l) true lst).
  - intros c' l' o lst' [= <- <- <- <-]. split; [done|]. split; [done|]. split; [by eexists|]. by intros s [= <-].
  - intros c' l' lst' [= <- <- <-]. simpl. specialize (Hfresh c (snap :: l) lst Hk). unfold fresh in *. simpl.
    destruct lst as [q|]; simpl in *; [|done]. rewrite elem_of_pokeChanged.
    destruct Hfresh as [|[|[|(p & h & [= ->] & Hh & Hhave)]]]; [auto..|].
    destruct (decide (version r snap = version r (V p))) as [He|]; [|by auto].
    destruct Hsnap as (s & Hs & ->). right. right. right. destruct (decide (s <= h)).
    + exists s, h. auto with lia.
    + exists s, s. split; [done|]. split; [lia|]. rewrite Hhave, He. apply (Hset p h s); [lia|done].
Qed.

(** The loops do not touch the stream. *)
Lemma Inv_loops r w p b hv st :
  (forall bs, fresh r w bs -> (forall s, bs = Some s -> sampled w s) -> is_Some bs -> fresh r (withLoops p b hv st w) bs) ->
  Inv r w -> Inv r (withLoops p b hv st w).
Proof.
  intros Hf [Hhub Hchan Hnew Hseen Hfresh]. split; simpl; [done..|]. intros c l lst Hk.
  destruct (Hseen c l true lst Hk) as (Hl & _ & Hb & Hlst). apply Hf; [by apply (Hfresh c l lst)| |done].
  intros s. destruct lst as [x|]; simpl; [apply Hlst|]. destruct l; [done|]. simpl. intros [= <-]. by apply Forall_cons in Hl as [? _].
Qed.

Lemma Inv_feedstep r w w' : settles r -> r ∈ wired -> Inv r w -> step w w' -> Inv r w'.
Proof.
  intros Hset Hr Hi Hs. destruct Hs.
  - by apply Inv_change.
  - by apply Inv_tick.
  - apply Inv_others; [|done]. intros c Hc. by apply Subscribe_same, Hi.
  - apply Inv_others; [|done]. intros c' Hc. apply cancel_same. by intros ->.
  - by apply Inv_subscribe.
  - by apply Inv_current.
  - by apply Inv_response.
  - by apply Inv_forward.
  - by apply Inv_read.
  - apply Inv_loops; [|done]. intros bs Hf _ _. unfold fresh in *. simpl. set_unfold.
    destruct (decide (r = r0)); naive_solver.
  - apply Inv_loops; [|done]. intros bs Hf _ _. unfold fresh in *. simpl. set_unfold. naive_solver.
  - apply Inv_loops; [|done]. intros bs Hf Hb [s ->]. unfold fresh in *. simpl. set_unfold. case_decide as He.
    + right. right. right. destruct (Hb s eq_refl) as (p & Hp & ->). exists p, (now w). by subst.
    + naive_solver.
  - apply Inv_loops; [|done]. intros bs Hf _ _. unfold fresh in *. simpl. set_unfold.
    destruct (decide (r = r0)); naive_solver.
  - destruct Hi as [Hhub Hchan Hnew Hseen Hfresh]. by split.
Qed.

Lemma Inv_fed r w : settles r -> r ∈ wired -> reachable V wired token w -> Inv r w.
Proof.
  intros Hset Hr [h Hw]. eapply (star_invariant step (Inv r)); [|done|].
  - intros a b Ha Hs. by eapply Inv_feedstep.
  - split; [by exists 0|done..].
Qed.

(** Nothing is under way between the stores and the loop of [r]. *)
Definition quiet (r : resource) (w : world) : Prop :=
  (exists c s, conn w = Live c [] true (Some s) /\ chans (hub w) !! c = Some None) /\
  hubLast w = V (now w) /\ (r ∉ pending w) /\ (r ∉ busy w) /\ r ∉ stale w.

Lemma quiet_current r w : settles r -> Inv r w -> quiet r w -> have w r = version r (V (now w)).
Proof.
  intros Hset [_ _ Hnew _ Hfresh] ((c & s & Hk & Hc) & Hlast & Hp & Hb & Hs).
  destruct (Hnew c [] true (Some s) Hk Hc) as (hp & tp & Hhp & Hle & [= Htp]).
  destruct (Hfresh c [] (Some s) Hk) as [|[|[|(p & h & [= Hp'] & Hh & ->)]]]; [done..|].
  assert (Ht : version r (V tp) = version r (V (now w))).
  { transitivity (version r (V hp)); [|congruence]. apply (Hset hp tp (now w)); [lia|congruence]. }
  transitivity (version r (V p)); [|congruence]. apply (Hset p h (now w)); [lia|congruence].
Qed.

(** The stores standing still, whatever is under way can run its course. *)
Lemma settle_channel w c l lst :
  conn w = Live c l true lst -> chanOk w c -> is_Some (base lst l) ->
  exists w' l', star step w w' /\ now w' = now w /\ is_Some (base lst l') /\ conn w' = Live c l' true lst /\
    chans (hub w') !! c = Some None /\ hubLast w' = V (now w).
Proof.
  intros Hk (_ & [t Ht] & buf & Hb & _) Hbase.
  set (w1 := let '(ls, h) := tick (V (now w)) (hubLast w) (hub w) in withHub h ls w).
  assert (H1 : step w w1) by apply s_tick.
  assert (Hw1 : now w1 = now w /\ conn w1 = Live c l true lst /\ hubLast w1 = V (now w) /\
    exists buf1, chans (hub w1) !! c = Some buf1).
  { unfold w1, tick. case_decide as He; simpl; [by eauto|]. split; [done|]. split; [done|]. split; [done|].
    rewrite map_lookup_imap, Hb. simpl. by eexists. }
  destruct Hw1 as (Hn & Hk1 & Hl1 & [s|] & Hc1).
  - eexists _, (l ++ [s]). split; [eapply star_step; [done|]; eapply star_step; [by eapply s_forward|apply star_refl]|].
    simpl. split; [done|]. rewrite base_snoc by done. split; [done|]. split; [done|]. split; [apply lookup_insert_eq|done].
  - exists w1, l. split; [eapply star_step; [done|apply star_refl]|done].
Qed.

Lemma settle_stream w c l lst :
  conn w = Live c l true lst -> is_Some (base lst l) ->
  exists w' s, star step w w' /\ now w' = now w /\ conn w' = Live c [] true (Some s) /\ hub w' = hub w /\ hubLast w' = hubLast w.
Proof.
  revert w lst. induction l as [|s l IH]; intros w lst Hk Hb.
  - destruct lst as [s|]; [|by destruct Hb]. exists w, s. split; [apply star_refl|done].
  - destruct (IH (withConn (hub w) (Live c l true (Some s)) (dispatch wired lst s (pending w)) w) (Some s))
      as (w' & s' & Hs & H1 & H2 & H3 & H4); [done|by eexists|].
    exists w', s'. split; [eapply star_step; [by apply s_read|done]|done].
Qed.

Lemma settle_loop r w :
  exists w', star step w w' /\ now w' = now w /\ conn w' = conn w /\ hub w' = hub w /\ hubLast w' = hubLast w /\
    (r ∉ pending w') /\ (r ∉ busy w') /\ r ∉ stale w'.
Proof.
  assert (Hbusy : forall w, r ∈ busy w -> exists w', star step w w' /\ now w' = now w /\ conn w' = conn w /\ hub w' = hub w /\
    hubLast w' = hubLast w /\ pending w' = pending w /\ (r ∉ busy w') /\ r ∉ stale w').
  { intros w0 Hr. eexists. split; [eapply star_step; [by eapply (s_refreshed _ _ _ w0 r)|apply star_refl]|]. simpl.
    do 5 (split; [done|]). set_solver. }
  assert (Hidle : exists w', star step w w' /\ now w' = now w /\ conn w' = conn w /\ hub w' = hub w /\
    hubLast w' = hubLast w /\ r ∉ busy w').
  { destruct (decide (r ∈ busy w)) as [Hr|Hr]; [|by (exists w; split; [apply star_refl|])].
    destruct (Hbusy w Hr) as (w' & ? & ? & ? & ? & ? & _ & ? & _). by exists w'. }
  destruct Hidle as (w1 & Hs1 & Hn1 & Hk1 & Hh1 & Hl1 & Hb1).
  assert (Hstart : exists w', step w1 w' /\ now w' = now w1 /\ conn w' = conn w1 /\ hub w' = hub w1 /\
    hubLast w' = hubLast w1 /\ (r ∉ pending w') /\ r ∈ busy w').
  { destruct (decide (r ∈ pending w1)) as [Hp|Hp]; (eexists; split; [by eapply s_wake|]) || (eexists; split; [by eapply (s_timer _ _ _ w1 r)|]);
      simpl; do 4 (split; [done|]); set_solver. }
  destruct Hstart as (w2 & Hs2 & Hn2 & Hk2 & Hh2 & Hl2 & Hp2 & Hb2).
  destruct (Hbusy w2 Hb2) as (w3 & Hs3 & Hn3 & Hk3 & Hh3 & Hl3 & Hp3 & Hb3 & Hst3).
  exists w3. split; [eapply star_trans; [done|]; by eapply star_step|]. rewrite Hp3. split; [congruence|]. split; [congruence|].
  split; [congruence|]. split; [congruence|done].
Qed.

Lemma settle r w c l lst :
  Inv r w -> conn w = Live c l true lst -> exists w', star step w w' /\ now w' = now w /\ quiet r w'.
Proof.
  intros Hi Hk. destruct (settle_channel w c l lst Hk) as (w1 & l1 & Hs1 & Hn1 & Hb1 & Hk1 & Hc1 & Hl1).
  { apply (i_chan r w Hi). by rewrite Hk. }
  { by destruct (i_seen r w Hi c l true lst Hk) as (_ & _ & ? & _). }
  destruct (settle_stream w1 c l1 lst Hk1 Hb1) as (w2 & s & Hs2 & Hn2 & Hk2 & Hh2 & Hl2).
  destruct (settle_loop r w2) as (w3 & Hs3 & Hn3 & Hk3 & Hh3 & Hl3 & Hq).
  exists w3. split; [eapply star_trans; [done|]; by eapply star_trans|]. split; [congruence|].
  split; [|split; [congruence|done]]. exists c, s. split; [congruence|]. congruence.
Qed.

End feed.
(** *** The stream, cut anywhere *)

Definition isPrefix (p s : string) : Prop := exists rest, s = p +:+ rest.

Lemma isPrefix_cons c p s : isPrefix (String c p) (String c s) <-> isPrefix p s.
Proof. split; intros [r H]; exists r; [by injection H|simpl; by f_equal]. Qed.

(** A cut falls into the first line or behind it. *)
Lemma isPrefix_line x p s : mem_char (ascii_of_nat 10) x = false -> isPrefix p (x +:+ EdgeServer.newline +:+ s) ->
  isPrefix p x \/ exists p', p = x +:+ EdgeServer.newline +:+ p' /\ isPrefix p' s.
Proof.
  revert p. induction x as [|c x IH]; intros p; simpl.
  - intros _ [r H]. destruct p as [|c p]; [left; by exists ""|]. injection H as <- ->. right. exists p. split; [done|by exists r].
  - intros [_ Hx]%orb_false_iff [r H]. destruct p as [|c' p]; [left; by exists (String c x)|]. injection H as <- H.
    destruct (IH p Hx) as [Hp|(p' & -> & Hp)]; [by exists r|left; by apply isPrefix_cons|right; by exists p'].
Qed.

Lemma isPrefix_mem c p s : isPrefix p s -> mem_char c s = false -> mem_char c p = false.
Proof. intros [r ->]. rewrite mem_char_app. by intros [? _]%orb_false_iff. Qed.

Lemma isPrefix_length p s : isPrefix p s -> String.length p <= String.length s.
Proof. intros [r ->]. rewrite str_length_app. lia. Qed.

Section stream.
Context `{!JSON EventsSnapshot, !JSONLaws EventsSnapshot} (wired : gset resource).
(** [json.Marshal] writes one line, and something. *)
Context (marshal_line : forall s j, marshal (A := EventsSnapshot) s = Some j ->
  mem_char (ascii_of_nat 10) j = false /\ mem_char (ascii_of_nat 13) j = false /\ j <> "").
#[local] Abbreviation readLine := (readLine wired).

Definition reads (st : reader) (body : string) : reader := fold_left readLine (scan body).1 st.

Definition short (x : string) : Prop := (Z.of_nat (String.length x) < maxLine)%Z.

Lemma scan_line x body :
  mem_char (ascii_of_nat 10) x = false -> short x ->
  scan (x +:+ EdgeServer.newline +:+ body) = (dropCR x :: (scan body).1, (scan body).2).
Proof.
  intros Hx Hs. change (EdgeServer.newline +:+ body) with (String (ascii_of_nat 10) body). unfold scan. rewrite (split_char_app _ x body Hx).
  destruct (split_char_cons (ascii_of_nat 10) body) as (y & ys & ->).
  assert (He : scanFrom (x :: y :: ys) = if (maxLine <=? Z.of_nat (String.length x))%Z then ([], true)
    else let '(lines, tooLong) := scanFrom (y :: ys) in (dropCR x :: lines, tooLong)) by done.
  rewrite He. unfold short in Hs. destruct (Z.leb_spec maxLine (Z.of_nat (String.length x))); [lia|].
  by destruct (scanFrom (y :: ys)).
Qed.

Lemma scan_last x :
  mem_char (ascii_of_nat 10) x = false -> short x -> scan x = (if String.eqb x "" then [] else [dropCR x], false).
Proof.
  intros Hx Hs. unfold scan. rewrite (split_char_none _ x Hx). cbn [scanFrom]. unfold short in Hs.
  by destruct (Z.leb_spec maxLine (Z.of_nat (String.length x))); [lia|].
Qed.

Lemma dropCR_none x : mem_char (ascii_of_nat 13) x = false -> dropCR x = x.
Proof.
  unfold dropCR. induction x as [|c x IH]; [done|]. simpl. intros [Hc Hx]%orb_false_iff. rewrite (IH Hx).
  destruct x; [by rewrite Hc|done].
Qed.

(** What an edge has made of the events so far. *)
Definition seen (st : reader) : option EventsSnapshot * gset resource := (r_last st, r_pending st).
Definition take1 (a : option EventsSnapshot * gset resource) (s : EventsSnapshot) : option EventsSnapshot * gset resource :=
  (Some s, dispatch wired a.1 s a.2).

Lemma readLine_seen st line : line <> "" -> seen (readLine st line) = seen st.
Proof.
  intros Hl. unfold Feed.readLine. destruct (has_prefix line ":"); [done|]. destruct (has_prefix line "data:"); [done|].
  by rewrite (proj2 (String.eqb_neq _ _) Hl).
Qed.

(** A stream that stops inside a line dispatches nothing more. *)
Lemma reads_partial st p x :
  isPrefix p x -> mem_char (ascii_of_nat 10) x = false -> mem_char (ascii_of_nat 13) x = false -> short x ->
  seen (reads st p) = seen st /\ (scan p).2 = false.
Proof.
  intros Hp Hn Hr Hs. assert (Hps : short p) by (unfold short in *; pose proof (isPrefix_length _ _ Hp); lia).
  unfold reads. rewrite (scan_last p (isPrefix_mem _ _ _ Hp Hn) Hps). rewrite (dropCR_none p (isPrefix_mem _ _ _ Hp Hr)).
  split; [|done]. destruct (String.eqb_spec p ""); [done|]. simpl. by apply readLine_seen.
Qed.

Lemma reads_line st x body :
  mem_char (ascii_of_nat 10) x = false -> mem_char (ascii_of_nat 13) x = false -> short x ->
  reads st (x +:+ EdgeServer.newline +:+ body) = reads (readLine st x) body /\
  (scan (x +:+ EdgeServer.newline +:+ body)).2 = (scan body).2.
Proof. intros Hn Hr Hs. unfold reads. rewrite scan_line by done. simpl. by rewrite dropCR_none. Qed.

(** A line, whole or cut: the lines before the cut have been read. *)
Lemma reads_cut st x p s :
  isPrefix p (x +:+ EdgeServer.newline +:+ s) ->
  mem_char (ascii_of_nat 10) x = false -> mem_char (ascii_of_nat 13) x = false -> short x ->
  (seen (reads st p) = seen st /\ (scan p).2 = false /\ String.length p <= String.length x) \/
  exists p', isPrefix p' s /\ p = x +:+ EdgeServer.newline +:+ p' /\
    reads st p = reads (readLine st x) p' /\ (scan p).2 = (scan p').2.
Proof.
  intros Hp Hn Hr Hs. destruct (isPrefix_line x p s Hn Hp) as [H|(p' & -> & H)].
  - left. destruct (reads_partial st p x H Hn Hr Hs). split; [done|]. split; [done|]. by apply isPrefix_length.
  - right. exists p'. destruct (reads_line st x p' Hn Hr Hs). done.
Qed.

(** What a handler writes: an event or a ping. *)
Definition frame (f : option EventsSnapshot) : option string := match f with Some s => eventFrame s | None => Some pingFrame end.
Definition written (fs : list (option EventsSnapshot)) : option string := String.concat "" <$> mapM frame fs.

Definition fits (f : option EventsSnapshot) : Prop :=
  match f with
  | Some s => jvalid s /\ forall j, marshal s = Some j -> (Z.of_nat (String.length j) + 6 < maxLine)%Z
  | None => True
  end.

Lemma concat_empty_cons x l : String.concat "" (x :: l) = x +:+ String.concat "" l.
Proof. destruct l; simpl; [by rewrite str_app_nil_r|done]. Qed.

Lemma readLine_data st j :
  readLine st ("data: " +:+ j) = mkReader (r_last st) (r_data st +:+ j) (r_pending st).
Proof. done. Qed.

Lemma written_cons f fs bytes : written (f :: fs) = Some bytes ->
  exists b rest, frame f = Some b /\ written fs = Some rest /\ bytes = b +:+ rest.
Proof.
  unfold written. simpl. destruct (frame f) as [b|]; [|done]. simpl. destruct (mapM frame fs) as [bs|]; [|done].
  simpl. intros [= <-]. exists b, (String.concat "" bs). split; [done|]. split; [done|]. apply concat_empty_cons.
Qed.

(** What has been read of what was written. *)
Definition readsPart (fs : list (option EventsSnapshot)) (bytes body : string) (st : reader) : Prop :=
  exists k, seen (reads st body) = fold_left take1 (take k (omap id fs)) (seen st) /\ (scan body).2 = false /\
    (body = bytes -> length (omap id fs) <= k).

Lemma reads_ping fs rest body st :
  (forall body st, isPrefix body rest -> r_data st = "" -> readsPart fs rest body st) ->
  isPrefix body (pingFrame +:+ rest) -> r_data st = "" -> readsPart (None :: fs) (pingFrame +:+ rest) body st.
Proof.
  intros IH Hp Hd. change (pingFrame +:+ rest) with (": ping" +:+ EdgeServer.newline +:+ ("" +:+ EdgeServer.newline +:+ rest)) in *.
  apply (reads_cut st) in Hp as [(H1 & H2 & H3)|(p1 & Hp & -> & E1 & T1)]; [| |done..].
  { exists 0. split; [done|]. split; [done|]. intros ->. exfalso. revert H3. rewrite !str_length_app. simpl. lia. }
  apply (reads_cut st) in Hp as [(H1 & H2 & H3)|(p2 & Hp & -> & E2 & T2)]; [| |done..].
  { exists 0. rewrite E1, T1. split; [done|]. split; [done|]. intros H. exfalso. revert H3.
    apply str_app_inj_l, str_app_inj_l in H as ->. simpl. lia. }
  assert (Hst : readLine st "" = st) by (unfold Feed.readLine; simpl; by rewrite Hd).
  rewrite Hst in E2. destruct (IH p2 st Hp Hd) as (k & Hk & Hs & Hall). exists k. rewrite E1, T1, T2.
  change (readLine st ": ping") with st. rewrite E2. split; [done|]. split; [done|]. intros H. apply Hall.
  do 4 apply str_app_inj_l in H. done.
Qed.

Lemma reads_event s fs j rest body st :
  jvalid s -> marshal s = Some j -> (Z.of_nat (String.length j) + 6 < maxLine)%Z ->
  (forall body st, isPrefix body rest -> r_data st = "" -> readsPart fs rest body st) ->
  let bytes := "event: change" +:+ EdgeServer.newline +:+ (("data: " +:+ j) +:+ EdgeServer.newline +:+ ("" +:+ EdgeServer.newline +:+ rest)) in
  isPrefix body bytes -> r_data st = "" -> readsPart (Some s :: fs) bytes body st.
Proof using marshal_line.
  intros Hv Hj Hlen IH bytes Hp Hd. destruct (marshal_line s j Hj) as (Hn & Hr & Hne). subst bytes.
  apply (reads_cut st) in Hp as [(H1 & H2 & H3)|(p1 & Hp & -> & E1 & T1)]; [| |done..].
  { exists 0. split; [done|]. split; [done|]. intros ->. exfalso. revert H3. rewrite !str_length_app. simpl. lia. }
  change (readLine st "event: change") with st in E1.
  apply (reads_cut st) in Hp as [(H1 & H2 & H3)|(p2 & Hp & -> & E2 & T2)];
    [| |by rewrite mem_char_app, Hn|by rewrite mem_char_app, Hr|unfold short; rewrite str_length_app; simpl; lia].
  { exists 0. rewrite E1, T1. split; [done|]. split; [done|]. intros H. exfalso. revert H3.
    do 2 apply str_app_inj_l in H. subst p1. rewrite !str_length_app. simpl. lia. }
  set (st2 := mkReader (r_last st) j (r_pending st)).
  assert (Hst2 : readLine st ("data: " +:+ j) = st2) by by rewrite readLine_data, Hd.
  rewrite Hst2 in E2.
  apply (reads_cut st2) in Hp as [(H1 & H2 & H3)|(p3 & Hp & -> & E3 & T3)]; [| |done..].
  { exists 0. rewrite E1, E2, T1, T2. split; [done|]. split; [done|]. intros H. exfalso. revert H3.
    do 4 apply str_app_inj_l in H. subst p2. simpl. lia. }
  destruct (unmarshal_marshal s Hv) as (j' & Hj' & Hu). assert (j' = j) as -> by congruence.
  assert (Hst : readLine st2 "" = mkReader (Some s) "" (dispatch wired (r_last st) s (r_pending st))).
  { unfold Feed.readLine. simpl. by rewrite (proj2 (String.eqb_neq _ _) Hne), Hu. }
  rewrite Hst in E3. destruct (IH p3 (mkReader (Some s) "" (dispatch wired (r_last st) s (r_pending st))) Hp eq_refl) as (k & Hk & Hs & Hall).
  exists (S k). rewrite E1, E2, E3, T1, T2, T3.
  split; [exact Hk|]. split; [done|]. intros H. simpl. apply le_n_S, Hall. do 6 apply str_app_inj_l in H. done.
Qed.

Lemma reads_written fs bytes body st :
  Forall fits fs -> written fs = Some bytes -> isPrefix body bytes -> r_data st = "" -> readsPart fs bytes body st.
Proof using marshal_line.
  intros Hf. revert bytes body st. induction Hf as [|f fs Hfit _ IH]; intros bytes body st Hw Hp Hd.
  { injection Hw as <-. destruct Hp as [r Hr]. exists 0. destruct body; [|done]. done. }
  apply written_cons in Hw as (b & rest & Hb & Hrest & ->). specialize (IH rest).
  destruct f as [s|]; cbn [frame] in Hb.
  - destruct Hfit as [Hv Hlen]. destruct (marshal s) as [j|] eqn:Hj; [|unfold eventFrame in Hb; by rewrite Hj in Hb].
    assert (b = "event: change" +:+ EdgeServer.newline +:+ "data: " +:+ j +:+ EdgeServer.newline +:+ EdgeServer.newline) as ->.
    { unfold eventFrame in Hb. rewrite Hj in Hb. by injection Hb as <-. }
    assert (He : ("event: change" +:+ EdgeServer.newline +:+ "data: " +:+ j +:+ EdgeServer.newline +:+ EdgeServer.newline) +:+ rest =
      "event: change" +:+ EdgeServer.newline +:+ (("data: " +:+ j) +:+ EdgeServer.newline +:+ ("" +:+ EdgeServer.newline +:+ rest)))
      by by rewrite !str_app_assoc.
    rewrite He in Hp |- *. eapply reads_event; eauto.
  - injection Hb as <-. apply reads_ping; auto.
Qed.
End stream.

End EventsLemmas.

(** ** Properties *)

Module EventsProps.
Import Events Feed EventsLemmas.

Lemma HubInv_idle h : subs h = ∅ -> perToken h = ∅ -> HubInv h.
Proof.
  intros Hs Hp. split; unfold tokenCount, streams; rewrite ?Hs, ?Hp; [done..| |].
  - rewrite map_size_empty. lia.
  - intros ? tok. rewrite lookup_empty. simpl. lia.
Qed.

(** The hub holds its caps and leaks nothing. Whatever handlers subscribe and cancel,
    it has no more streams than [MaxSubscribers], no token more than [MaxPerToken], and no
    count for a token without a stream; it refuses exactly at a cap; and a cancelled
    subscription leaves the hub as it was before, however often it is cancelled. *)
Theorem subscriptions_capped h0 h :
  subs h0 = ∅ -> perToken h0 = ∅ -> star hstep h0 h ->
  ((0 < MaxSubscribers h)%Z -> (Z.of_nat (size (subs h)) <= MaxSubscribers h)%Z) /\
  ((0 < MaxPerToken h)%Z -> forall tok, (Z.of_nat (streams tok h) <= MaxPerToken h)%Z) /\
  (forall tok, is_Some (perToken h !! tok) -> 0 < streams tok h) /\
  (forall tok, (Subscribe tok h).2 = None <->
     (0 < MaxSubscribers h <= Z.of_nat (size (subs h)))%Z \/ (0 < MaxPerToken h <= Z.of_nat (streams tok h))%Z) /\
  (forall tok h' c, Subscribe tok h = (h', Some c) ->
     let h2 := cancel c tok h' in subs h2 = subs h /\ perToken h2 = perToken h /\ cancel c tok h2 = h2).
Proof.
  intros Hs Hp Hrun. assert (Hi : HubInv h).
  { eapply (star_invariant hstep HubInv); [apply HubInv_step|done|by apply HubInv_idle]. }
  destruct Hi as [Hf Hc Hl Hm Ht]. split; [done|]. split; [|split; [|split]].
  - intros Hpos tok. rewrite <- Hc. by apply Ht.
  - intros tok [n Hn]. pose proof (Hl tok n Hn). specialize (Hc tok). unfold tokenCount in Hc. rewrite Hn in Hc. simpl in Hc. lia.
  - intros tok. rewrite <- Hc. unfold Subscribe.
    destruct (Z.ltb_spec 0 (MaxSubscribers h)), (Z.leb_spec (MaxSubscribers h) (Z.of_nat (size (subs h)))),
      (Z.ltb_spec 0 (MaxPerToken h)), (Z.leb_spec (MaxPerToken h) (tokenCount h tok)); simpl;
      (split; [intros [=]|]; done || lia).
  - intros tok h' c Hsub. apply Subscribe_cancel; [by split|done].
Qed.

(** A stream that breaks is a shorter stream. Cut after any byte, what the control
    plane has written wakes the edge for a first part of its events and for nothing else,
    and for all of them when it is not cut; pings are not noticed, and the edge calls the
    stream delivered exactly when an event of it arrived. *)
Theorem cut_stream_is_shorter `{!JSON EventsSnapshot, !JSONLaws EventsSnapshot} (wired : gset resource) fs bytes body how done_ p resp :
  (forall s j, marshal (A := EventsSnapshot) s = Some j ->
     mem_char (ascii_of_nat 10) j = false /\ mem_char (ascii_of_nat 13) j = false /\ j <> "") ->
  Forall fits fs -> written fs = Some bytes -> isPrefix body bytes ->
  exists k, let events := take k (omap id fs) in
    runEventsOnce wired (Ok resp) body how done_ p =
      ((fold_left (take1 wired) events (None, pokeAll wired p)).2, negb (bool_decide (events = [])),
       if done_ then None
       else match how with
            | EOF => if bool_decide (events = []) then Some ENoInitial else None
            | Broken => Some ERead
            | Watchdog => Some ESilent
            end) /\
    (body = bytes -> events = omap id fs).
Proof.
  intros Hline Hf Hw Hp.
  destruct (reads_written wired Hline fs bytes body (mkReader None "" (pokeAll wired p)) Hf Hw Hp eq_refl)
    as (k & Hk & Hs & Hall).
  exists k. set (events := take k (omap id fs)) in *. split; [|intros Hb; by apply take_ge, Hall].
  unfold runEventsOnce. unfold reads in Hk. destruct (scan body) as [lines tooLong]. simpl in Hs, Hk. subst tooLong.
  destruct (fold_left (readLine wired) lines _) as [lst dat pd]. unfold seen in Hk. simpl in *.
  assert (Hlast : (match lst with Some _ => true | None => false end) = negb (bool_decide (events = []))).
  { pose proof (f_equal fst Hk) as H. simpl in H. rewrite H. clear. destruct events as [|e l] using rev_ind; [done|].
    rewrite fold_left_app. simpl. rewrite bool_decide_false; [done|]. by destruct l. }
  rewrite Hlast. pose proof (f_equal snd Hk) as <-. simpl. destruct (bool_decide _), how, done_; done.
Qed.

(** C29: wake-ups converge. Take a field of the snapshot that never returns to a value it
    had before. Whenever nothing is under way any more between the stores and the loop of
    that field on an edge with an open stream, a failed refresh included, the loop holds the current version; and from
    any state with an open stream that point can be reached while the stores stand still. *)
Theorem wakeups_converge V wired token r w :
  settles V r -> r ∈ wired -> reachable V wired token w ->
  (quiet V r w -> have w r = version r (V (now w))) /\
  (forall c l lst, conn w = Live c l true lst ->
     exists w', star (step V wired token) w w' /\ now w' = now w /\ quiet V r w').
Proof.
  intros Hset Hr Hw. pose proof (Inv_fed V wired token r w Hset Hr Hw) as Hi.
  split; [by apply quiet_current|]. intros c l lst Hk. by eapply settle.
Qed.

Definition transient (e : eventsError) : Prop := e <> EOpen CpClient.EEventsUnsupported.

Lemma reconnect_failed draw e b : transient e -> (reconnect draw false (Some e) b).2 = minDur (b * 2) backoffMax.
Proof. unfold transient. destruct e as [[]| | |]; done. Qed.

Lemma reconnect_delivered draw e b : (reconnect draw true e b).2 = backoffBase.
Proof. by destruct e as [[[]| | |]|]. Qed.

Lemma reconnect_range draw d e b :
  (backoffBase <= b <= backoffMax)%Z -> (backoffBase <= (reconnect draw d e b).2 <= backoffMax)%Z.
Proof.
  unfold reconnect, minDur, backoffBase, backoffMax, second, minute, second.
  destruct e as [[[]| | |]|], d; simpl; try destruct (_ <? _)%Z eqn:?; lia.
Qed.

Lemma backoff_range l b :
  (backoffBase <= b <= backoffMax)%Z ->
  (backoffBase <= fold_left (fun b x => (reconnect x.1.1 x.1.2 x.2 b).2) l b <= backoffMax)%Z.
Proof. revert b. induction l as [|x l IH]; intros b H; [done|]. by apply IH, reconnect_range. Qed.

Lemma reconnect_doubles n draw e :
  transient e ->
  fold_left (fun b x => (reconnect x.1.1 x.1.2 x.2 b).2) (replicate n (draw, false, Some e)) backoffBase =
  Z.min (2 ^ Z.of_nat n * backoffBase) backoffMax.
Proof.
  intros He. induction n as [|n IH]; [done|]. rewrite replicate_S_end, fold_left_app, IH. cbn [fold_left fst snd].
  rewrite reconnect_failed by done. unfold minDur, backoffBase, backoffMax, minute, second.
  rewrite Nat2Z.inj_succ, Z.pow_succ_r by lia. destruct (Z.ltb_spec (Z.min (2 ^ Z.of_nat n * 1000000000) (60 * 1000000000) * 2) (60 * 1000000000)); lia.
Qed.

(** Pauses between streams are bounded. The backoff stays between a second and a
    minute whatever happens; after a stream that delivered it starts from a second and
    doubles with each failure in a row; and a failed stream is followed by a pause of a
    second at least and of five minutes at most. *)
Theorem reconnect_bounded l :
  (backoffBase <= RunEvents l <= backoffMax)%Z /\
  (forall draw d e, (backoffBase <= (reconnect draw d (Some e) (RunEvents l)).1 <= eventsUnsupportedRetry)%Z) /\
  (forall x err n draw e, transient e ->
     RunEvents (l ++ (x, true, err) :: replicate n (draw, false, Some e)) = Z.min (2 ^ Z.of_nat n * backoffBase) backoffMax).
Proof.
  assert (Hb : (backoffBase <= RunEvents l <= backoffMax)%Z).
  { apply backoff_range. unfold backoffBase, backoffMax, minute, second. lia. }
  split; [done|]. split.
  - intros draw d e. assert (Hj : (0 <= fullJitter draw backoffBase < backoffBase)%Z) by apply (Z.mod_pos_bound draw backoffBase eq_refl).
    unfold reconnect, backoffBase, backoffMax, eventsUnsupportedRetry, minute, second in *.
    destruct e as [[]| | |], d; simpl in *; lia.
  - intros x err n draw e He. unfold RunEvents. rewrite fold_left_app. cbn [fold_left fst snd]. rewrite reconnect_delivered.
    by apply reconnect_doubles.
Qed.

(** A WAF document that is changed and changed back. *)
Definition revisit (n : nat) : EventsSnapshot := mkSnap (if (n =? 1)%nat then "b" else "a") "" "" "" "" "" 0.

(** The edge connects and fetches between the change and its reversal. *)
Definition lost : world :=
  let w := boot revisit (fun _ => inl "") in
  let w := mkWorld 1 (hubLast w) (Subscribe "tok" (hub w)).1 (Live 0 [] true (Some (revisit 1)))
             (pokeAll {[RWAF]} (pending w) ∖ {[RWAF]}) (({[RWAF]} ∪ busy w) ∖ {[RWAF]})
             (fun r => if decide (r = RWAF) then version RWAF (revisit 1) else have w r) (stale w ∖ {[RWAF]}) in
  mkWorld 2 (hubLast w) (hub w) (conn w) (pending w) (busy w) (have w) (stale w).

Lemma lost_reachable : reachable revisit {[RWAF]} "tok" lost.
Proof.
  exists (fun _ => inl ""). eapply star_step; [apply s_change|]. eapply star_step; [by apply s_subscribe|].
  eapply star_step; [by eapply s_current|]. eapply star_step; [by eapply s_response|].
  eapply star_step; [by eapply s_read|].
  eapply star_step; [apply (s_wake _ _ _ _ RWAF); apply (bool_decide_unpack _); vm_compute; exact I|].
  eapply star_step; [apply (s_refreshed _ _ _ _ RWAF); apply (bool_decide_unpack _); vm_compute; exact I|].
  eapply star_step; [apply s_change|]. apply star_refl.
Qed.

(** A change that is undone may not be noticed. The hub compares with its own last
    sample, while a new stream starts from the stores themselves: an edge that connects
    between a change and its reversal, both between two ticks, keeps what it fetched
    meanwhile, with nothing left to wake it. *)
Theorem revisit_loses_wakeup :
  exists w, reachable revisit {[RWAF]} "tok" w /\ quiet revisit RWAF w /\
    have w RWAF = version RWAF (revisit 1) /\ have w RWAF <> version RWAF (revisit (now w)).
Proof.
  assert (Hset : forall (x : gset resource), bool_decide (RWAF ∈ x) = false -> RWAF ∉ x) by (intros x; apply bool_decide_eq_false).
  exists lost. split; [apply lost_reachable|]. split; [|split; by vm_compute].
  split; [exists 0, (revisit 1); split; by vm_compute|]. split; [by vm_compute|].
  split; [|split]; apply Hset; by vm_compute.
Qed.

(** *** Witnesses *)

Lemma subscriptions_capped_witness :
  let h := (Subscribe "tok" NewEventsHub).1 in
  (Z.of_nat (size (subs h)) <= 1024)%Z /\ subs (cancel 1 "tok" (Subscribe "tok" h).1) = subs h.
Proof.
  destruct (subscriptions_capped NewEventsHub (Subscribe "tok" NewEventsHub).1) as (H1 & _ & _ & _ & H2);
    [done|done|eapply star_step; [apply h_subscribe|apply star_refl]|].
  split; [by apply H1|]. by apply (H2 "tok" (Subscribe "tok" (Subscribe "tok" NewEventsHub).1).1 1).
Defined.

(** A codec of the snapshots that have nothing but a WAF version. *)
#[local] Instance toyJSON : JSON EventsSnapshot := {
  marshal s := if all_chars is_digit (WAF s) then Some ("w" +:+ WAF s) else None;
  unmarshal j := Some (mkSnap (str_drop 1 j) "" "" "" "" "" 0);
}.
#[local] Instance toyJSONLaws : JSONLaws EventsSnapshot.
Proof.
  refine {| jvalid s := exists w, all_chars is_digit w = true /\ s = mkSnap w "" "" "" "" "" 0 |}.
  intros s (w & Hw & ->). exists ("w" +:+ w). simpl. by rewrite Hw.
Defined.

Definition toySnap (w : string) : EventsSnapshot := mkSnap w "" "" "" "" "" 0.

(** The second of two events is cut inside its payload. *)
Lemma cut_stream_is_shorter_witness :
  let body := "event: change" +:+ EdgeServer.newline +:+ "data: w1" +:+ EdgeServer.newline +:+ EdgeServer.newline +:+
              ": ping" +:+ EdgeServer.newline +:+ EdgeServer.newline +:+ "event: change" +:+ EdgeServer.newline +:+ "data: w" in
  exists k, (runEventsOnce {[RWAF]} (Ok (EdgeServer.mkResp 200 ∅ "")) body EOF false ∅).1.2 =
    negb (bool_decide (take k [toySnap "1"; toySnap "2"] = [])).
Proof.
  intros body.
  destruct (cut_stream_is_shorter {[RWAF]} [Some (toySnap "1"); None; Some (toySnap "2")]
    (body +:+ "2" +:+ EdgeServer.newline +:+ EdgeServer.newline) body EOF false ∅ (EdgeServer.mkResp 200 ∅ "")) as (k & Hk & _).
  - intros s j. simpl. destruct (all_chars is_digit (WAF s)) eqn:Hd; [|done]. intros [= <-]. simpl.
    split; [by eapply all_chars_mem|]. split; [by eapply all_chars_mem|done].
  - apply Forall_cons. split; [split; [by exists "1"|by intros j [= <-]]|].
    apply Forall_cons. split; [done|]. apply Forall_singleton. split; [by exists "2"|by intros j [= <-]].
  - by vm_compute.
  - by exists ("2" +:+ EdgeServer.newline +:+ EdgeServer.newline).
  - exists k. by rewrite Hk.
Defined.

(** The last number of a purge journal never returns. *)
Definition purged (n : nat) : EventsSnapshot := mkSnap "" "" "" "" "" "" (Z.of_nat n).

Lemma purged_settles : settles purged RPurges.
Proof. intros i j k Hle [= H]. simpl. f_equal. lia. Defined.

Lemma wakeups_converge_witness :
  exists w, reachable purged {[RPurges]} "tok" w /\ have w RPurges = inr 1%Z.
Proof.
  set (w1 := mkWorld 1 (purged 0) (Subscribe "tok" NewEventsHub).1 (Live 0 [purged 1] true None) (pokeAll {[RPurges]} ∅) ∅
    (fun _ => inl "") (list_to_set resources)).
  assert (H1 : reachable purged {[RPurges]} "tok" w1).
  { exists (fun _ => inl ""). eapply star_step; [apply s_change|]. eapply star_step; [by apply s_subscribe|].
    eapply star_step; [by eapply s_current|]. eapply star_step; [by eapply s_response|]. apply star_refl. }
  destruct (proj2 (wakeups_converge purged {[RPurges]} "tok" RPurges w1 purged_settles ltac:(set_solver) H1) 0 [purged 1] None eq_refl)
    as (w & Hw & Hn & Hq).
  assert (H2 : reachable purged {[RPurges]} "tok" w).
  { destruct H1 as [h H1]. exists h. by eapply star_trans. }
  exists w. split; [exact H2|].
  rewrite (proj1 (wakeups_converge purged {[RPurges]} "tok" RPurges w purged_settles ltac:(set_solver) H2) Hq). by rewrite Hn.
Defined.

Lemma reconnect_bounded_witness :
  RunEvents ([] ++ (0%Z, true, None) :: replicate 3 (0%Z, false, Some ERead)) = (8 * second)%Z.
Proof. exact (proj2 (proj2 (reconnect_bounded [])) 0%Z None 3 0%Z ERead ltac:(done)). Defined.

End EventsProps.
