(* ===== verification/Upstream.v ===== *)
(** * Towards the pods

    Models [src/retry.go] and the decisions of [src/proxy]: proxy.go (the reverse proxy's
    error handler), dialer.go, transport.go, gateway.go and autoh2c.go, with the request
    function of [makeHandler] in [src/controller.go].  The route table is that of [Route].

    A transport is an argument: what a call of it returns, and whether it read the
    request's body.  A [ResponseWriter] is what was sent and whether a length was
    declared; [httputil.ReverseProxy] is written out as far as its result is seen there. *)

From S2P Require Import Prelude GoString GoURL Route EdgeServer.

Set Default Proof Using "Type".

(** ** Errors *)

Module GoErr.

(** An error with what it wraps. *)
Inductive goErr :=
| OpError (op : string) (inner : goErr)
| Canceled
| DeadlineExceeded
| AbortHandler
| Plain (msg : string)
| Wrapped (msg : string) (inner : goErr).

(** [errors.As] with a [*net.OpError]: the operation of the first one. *)
Fixpoint asOpError (e : goErr) : option string :=
  match e with
  | OpError op _ => Some op
  | Wrapped _ e => asOpError e
  | _ => None
  end.

(** [errors.Is(err, context.Canceled)]. *)
Fixpoint isCanceled (e : goErr) : bool :=
  match e with
  | Canceled => true
  | OpError _ e => isCanceled e
  | Wrapped _ e => isCanceled e
  | _ => false
  end.

Definition isDialError (e : option goErr) : bool :=
  match e with
  | Some e => match asOpError e with Some op => String.eqb op "dial" | None => false end
  | None => false
  end.

Definition IsRetryable (e : option goErr) : bool := isDialError e.

End GoErr.

(** ** Responses *)

Module Writer.
Import GoErr.

(** What a transport returns as a response: the length it declares, the bytes of the body
    that can be copied, and whether copying then fails. *)
Record UpstreamResponse := mkUpResp {
  u_status : Z;
  u_length : option Z;
  u_body : string;
  u_broken : bool;
}.

(** [w_length] is the [Content-Length] header; both are fixed when the status is sent. *)
Record Writer := mkWriter { w_length : option Z; w_sent : option Z; w_body : string }.

Definition newWriter : Writer := mkWriter None None "".

Definition WriteHeader (code : Z) (w : Writer) : Writer :=
  match w_sent w with
  | Some _ => w
  | None => mkWriter (w_length w) (Some code) (w_body w)
  end.

(** A write beyond the declared length is refused. *)
Definition Write (s : string) (w : Writer) : Writer :=
  let w := match w_sent w with Some _ => w | None => WriteHeader 200 w end in
  match w_length w with
  | Some n => if (n <? Z.of_nat (String.length (w_body w +:+ s)))%Z then w
              else mkWriter (w_length w) (w_sent w) (w_body w +:+ s)
  | None => mkWriter (w_length w) (w_sent w) (w_body w +:+ s)
  end.

Definition setLength (n : option Z) (w : Writer) : Writer :=
  match w_sent w with
  | Some _ => w
  | None => mkWriter n None (w_body w)
  end.

(** [http.Error], which drops the declared length. *)
Definition httpError (msg : string) (code : Z) (w : Writer) : Writer :=
  Write (msg +:+ EdgeServer.newline) (WriteHeader code (setLength None w)).

(** What the client has when the handler has returned: the status, the body, and whether
    the response ends the way it announced.  A handler that panics aborts it. *)
Definition received (aborted : bool) (w : Writer) : Z * string * bool :=
  (default 200%Z (w_sent w), w_body w,
   negb aborted && match w_length w with Some n => (Z.of_nat (String.length (w_body w)) =? n)%Z | None => true end).

(** How a handler ends; [None] is a panic whose value is not an error. *)
Inductive outcome := Returned | Panicked (e : option goErr).

End Writer.

(** ** The reverse proxy *)

Module Proxy.
Import GoErr Writer.

(** [r_stream]: the body is neither nil nor [NoBody]. *)
Record Request := mkRequest {
  r_scheme : string;
  r_upgrade : bool;
  r_contentLength : Z;
  r_stream : bool;
  r_key : string;
}.

Definition hasBody (r : Request) : bool := negb (r_contentLength r =? 0)%Z.

(** HTTP/1.1, with TLS for [https], and HTTP/2 in cleartext. *)
Inductive kind := H1 | H1TLS | H2C.

(** What a call of a transport does; [t_reads]: it read the body of the request. *)
Record trip := mkTrip { t_result : result goErr UpstreamResponse; t_reads : bool }.

(** The request left the process. *)
Definition delivered (t : trip) : bool :=
  match t_result t with
  | Ok _ => true
  | Err e => negb (isDialError (Some e))
  end.

(** [h2cTransport.RoundTrip]: upgrades ride on HTTP/1.1. *)
Definition h2cRoundTrip (r : Request) : kind := if r_upgrade r then H1 else H2C.

(** *** The cache of probe outcomes *)

Definition defaultH2CProbeTTL : Z := (10 * minute)%Z.

Record h2cEntry := mkEntry { e_h2c : bool; e_deadline : Z }.

Record autoH2C := mkAuto {
  a_ttl : Z;
  a_entries : gmap string h2cEntry;
  a_probing : gset string;
}.

Definition newAutoH2CTransport (ttl : Z) : autoH2C :=
  mkAuto (if (ttl <=? 0)%Z then defaultH2CProbeTTL else ttl) ∅ ∅.

Definition lookup (now : Z) (key : string) (t : autoH2C) : option h2cEntry :=
  match a_entries t !! key with
  | None => None
  | Some e => if negb (now <? e_deadline e)%Z then None else Some e
  end.

Definition freshPositive (now : Z) (key : string) (t : autoH2C) : bool :=
  match lookup now key t with Some e => e_h2c e | None => false end.

Definition store (now : Z) (key : string) (supportsH2C : bool) (t : autoH2C) : autoH2C :=
  mkAuto (a_ttl t) (<[key := mkEntry supportsH2C (now + a_ttl t)]> (a_entries t)) (a_probing t).

Definition forget (key : string) (t : autoH2C) : autoH2C :=
  mkAuto (a_ttl t) (delete key (a_entries t)) (a_probing t).

Definition withProbing (p : gset string) (t : autoH2C) : autoH2C := mkAuto (a_ttl t) (a_entries t) p.

(** What [RoundTrip] does until its first call, and what it does with the result of a call
    over h2c: the response or error to return, or a replay over HTTP/1.1. *)
Inductive plan := Fallback | Fast | Probe.

Definition look (now : Z) (r : Request) (t : autoH2C) : option plan :=
  if r_upgrade r then Some Fallback
  else match lookup now (r_key r) t with
       | Some e => Some (if e_h2c e then Fast else Fallback)
       | None => if hasBody r then Some Fallback else None
       end.

(** [probing.LoadOrStore]. *)
Definition claim (r : Request) (t : autoH2C) : plan * autoH2C :=
  if decide (r_key r ∈ a_probing t) then (Fallback, t)
  else (Probe, withProbing ({[r_key r]} ∪ a_probing t) t).

Definition begin (now : Z) (r : Request) (t : autoH2C) : plan * autoH2C :=
  match look now r t with
  | Some p => (p, t)
  | None => claim r t
  end.

Inductive next := Return | Replay.

Definition afterFast (now : Z) (r : Request) (res : result goErr UpstreamResponse) (t : autoH2C) : next * autoH2C :=
  match res with
  | Ok _ => (Return, t)
  | Err e =>
      if isDialError (Some e) then (Return, t)
      else if hasBody r then (Return, forget (r_key r) t)
      else (Replay, store now (r_key r) false t)
  end.

Definition afterProbe (now : Z) (r : Request) (res : result goErr UpstreamResponse) (t : autoH2C) : next * autoH2C :=
  match res with
  | Ok _ => (Return, store now (r_key r) true t)
  | Err e => if isDialError (Some e) then (Return, t) else (Replay, store now (r_key r) false t)
  end.

(** The probe is over once [RoundTrip] returns, after the replay. *)
Definition endProbe (r : Request) (t : autoH2C) : autoH2C := withProbing (a_probing t ∖ {[r_key r]}) t.

(** A whole [RoundTrip], [call] being what each transport does with the request; the calls
    made are listed.  [now'] is the clock when an outcome is stored. *)
Definition autoRoundTrip (call : kind -> trip) (now now' : Z) (r : Request) (t : autoH2C) :
    result goErr UpstreamResponse * list trip * autoH2C :=
  let '(p, t) := begin now r t in
  match p with
  | Fallback => (t_result (call H1), [call H1], t)
  | Fast =>
      match afterFast now' r (t_result (call H2C)) t with
      | (Return, t) => (t_result (call H2C), [call H2C], t)
      | (Replay, t) => (t_result (call H1), [call H2C; call H1], t)
      end
  | Probe =>
      match afterProbe now' r (t_result (call H2C)) t with
      | (Return, t) => (t_result (call H2C), [call H2C], endProbe r t)
      | (Replay, t) => (t_result (call H1), [call H2C; call H1], endProbe r t)
      end
  end.

(** [gateway.RoundTrip]; [None]: auto-detection is off. *)
Definition gatewayRoundTrip (call : kind -> trip) (now now' : Z) (r : Request) (auto : option autoH2C) :
    result goErr UpstreamResponse * list trip * option autoH2C :=
  if String.eqb (r_scheme r) "h2c" then
    let t := call (h2cRoundTrip r) in (t_result t, [t], auto)
  else if String.eqb (r_scheme r) "https" then (t_result (call H1TLS), [call H1TLS], auto)
  else match auto with
       | Some a => let '(res, calls, a) := autoRoundTrip call now now' r a in (res, calls, Some a)
       | None => (t_result (call H1), [call H1], None)
       end.

(** *** Serving *)

Definition ErrorHandler (e : goErr) (w : Writer) : Writer * outcome :=
  if isCanceled e then (WriteHeader 499 w, Returned)
  else if IsRetryable (Some e) then (w, Panicked (Some e))
  else (httpError "Bad Gateway" 502 w, Returned).

(** The reverse proxy with a response; when copying its body fails it panics, so that the
    server aborts the response. *)
Definition relay (u : UpstreamResponse) (w : Writer) : Writer * outcome :=
  (Write (u_body u) (WriteHeader (u_status u) (setLength (u_length u) w)),
   if u_broken u then Panicked (Some AbortHandler) else Returned).

Definition reverseProxy (res : result goErr UpstreamResponse) (w : Writer) : Writer * outcome :=
  match res with
  | Ok u => relay u w
  | Err e => ErrorHandler e w
  end.

End Proxy.

(** ** Retrying *)

Module Retry.
Import GoErr Writer Proxy Route.Table.

Definition maxRetry : nat := 5.
Definition maxBackoffDuration : Z := (3 * second)%Z.

Definition backoffDuration (round : nat) : Z :=
  let t := (Z.shiftl 1 (Z.of_nat round) * (10 * millisecond))%Z in
  if (maxBackoffDuration <? t)%Z then maxBackoffDuration else t.

(** The retry middleware over a handler [h], which is told the attempt. *)
Section middleware.
Context {S : Type}.
(** [h i s w]: the state after attempt [i], the writer, how it ended, and whether the body
    of the request has been read by then. *)
Context (h : nat -> S -> Writer -> S * Writer * outcome * bool).

Definition canRequestRetry (r : Request) (read : bool) : bool := if r_stream r then negb read else true.

Definition tryServe (r : Request) (i : nat) (s : S) (w : Writer) : S * Writer * bool :=
  let '(s, w, o, read) := h i s w in
  match o with
  | Returned => (s, w, true)
  | Panicked e =>
      if match e with Some e => isCanceled e | None => false end then (s, w, true)
      else if canRequestRetry r read && IsRetryable e then (s, w, false)
      else (s, httpError "Bad Gateway" 502 w, true)
  end.

(** [gone i]: the context is done before the pause after attempt [i] is over.  The waits
    are listed. *)
Fixpoint retryLoop (n i : nat) (gone : nat -> bool) (r : Request) (s : S) (w : Writer) : S * Writer * list Z :=
  match n with
  | O => (s, httpError "Bad Gateway" 502 w, [])
  | Datatypes.S n =>
      let '(s, w, ok) := tryServe r i s w in
      if ok then (s, w, [])
      else if gone i then (s, httpError "Bad Gateway" 502 w, [])
      else let '(s, w, waits) := retryLoop n (Datatypes.S i) gone r s w in (s, w, backoffDuration i :: waits)
  end.

Definition retryMiddleware (gone : nat -> bool) (r : Request) (s : S) (w : Writer) : S * Writer * list Z :=
  retryLoop maxRetry 0 gone r s w.
End middleware.

(** *** A route *)

(** What a route's handler meets at an attempt: the clock of its lookup, the clock of a
    failed dial, whether the request's context is done by then, the cache of probe outcomes
    as other requests left it, the clocks of the cache, and the transports towards an
    address, which are told whether the body of the request has been closed. *)
Record situation := mkSituation {
  s_now : nat -> Z;
  s_dialed : Z;
  s_done : bool;
  s_auto : option autoH2C;
  s_cacheNow : Z * Z;
  s_call : bool -> string -> kind -> trip;
}.

(** The route table, whether the body has been read and whether it has been closed, and the
    calls made: address and trip. *)
Record progress := mkProgress { p_table : Table; p_read : bool; p_closed : bool; p_calls : list (string * trip) }.

(** The dialer reports an address that it cannot connect to. *)
Definition dialFeedback (at_ : Z) (done_ : bool) (target : string) (calls : list trip) (t : Table) : Table :=
  if existsb (fun c => match t_result c with Err e => isDialError (Some e) | Ok _ => false end) calls && negb done_
  then MarkBad at_ target t else t.

(** [makeHandler]'s request function with the proxy behind it.  The reverse proxy drops the
    body of a request that declares none; a transport closes the body in any case. *)
Definition serveRoute (target : string) (r : Request) (env : nat -> situation) (i : nat) (s : progress) (w : Writer) :
    progress * Writer * outcome * bool :=
  let e := env i in
  let '(addr, t) := Lookup (s_now e) (p_table s) target in
  if String.eqb addr "" then (mkProgress t (p_read s) (p_closed s) (p_calls s), httpError "Service Unavailable" 503 w, Returned, p_read s)
  else
    let '(res, calls, _) := gatewayRoundTrip (s_call e (p_closed s) addr) (s_cacheNow e).1 (s_cacheNow e).2 r (s_auto e) in
    let read := p_read s || existsb t_reads calls in
    let s := mkProgress (dialFeedback (s_dialed e) (s_done e) addr calls t) read (p_closed s || hasBody r)
               (p_calls s ++ ((fun c => (addr, c)) <$> calls)) in
    let '(w, o) := reverseProxy res w in
    (s, w, o, read).

Definition serve (target : string) (r : Request) (env : nat -> situation) (gone : nat -> bool) (t : Table) :
    progress * Writer * list Z :=
  retryMiddleware (serveRoute target r env) gone r (mkProgress t false false []) newWriter.

End Retry.

(** *** Round trips that overlap *)

Module Probes.
Import GoErr Writer Proxy.

(** Where a round trip is: it found no verdict and has yet to claim the probe; in its first
    call; in its call over HTTP/1.1 after one over h2c; back, with the probe it claimed yet
    to be released. *)
Inductive phase := Asking | Calling (p : plan) | Replaying (probe : bool) | Releasing.

(** The round trips in flight, and every call over h2c that came back without a dial error:
    the upstream, whether it answered, and when. *)
Record world := mkWorld {
  g_cache : autoH2C;
  g_flights : gmap nat (Request * phase);
  g_log : list (string * bool * Z);
}.

Definition verdict (res : result goErr UpstreamResponse) : option bool :=
  match res with
  | Ok _ => Some true
  | Err e => if isDialError (Some e) then None else Some false
  end.

Definition noted (r : Request) (res : result goErr UpstreamResponse) (now : Z) (l : list (string * bool * Z)) :=
  match verdict res with Some b => (r_key r, b, now) :: l | None => l end.

Definition go (id : nat) (r : Request) (ph : phase) (w : world) : world :=
  mkWorld (g_cache w) (<[id := (r, ph)]> (g_flights w)) (g_log w).

Definition leave (id : nat) (w : world) : world := mkWorld (g_cache w) (delete id (g_flights w)) (g_log w).

(** After the last call of a round trip. *)
Definition finish (id : nat) (r : Request) (probe : bool) (w : world) : world :=
  if probe then go id r Releasing w else leave id w.

Definition isProbe (p : plan) : bool := match p with Probe => true | _ => false end.

(** After a call over h2c. *)
Definition back (id : nat) (r : Request) (p : plan) (res : result goErr UpstreamResponse) (now : Z) (w : world) : world :=
  let '(n, t) := if isProbe p then afterProbe now r res (g_cache w) else afterFast now r res (g_cache w) in
  let w := mkWorld t (g_flights w) (noted r res now (g_log w)) in
  match n with
  | Return => finish id r (isProbe p) w
  | Replay => go id r (Replaying (isProbe p)) w
  end.

Inductive step : world -> world -> Prop :=
| step_look id r now w :
    g_flights w !! id = None ->
    step w (go id r (match look now r (g_cache w) with Some p => Calling p | None => Asking end) w)
| step_claim id r w :
    g_flights w !! id = Some (r, Asking) ->
    step w (let '(p, t) := claim r (g_cache w) in go id r (Calling p) (mkWorld t (g_flights w) (g_log w)))
| step_back id r p res now w :
    g_flights w !! id = Some (r, Calling p) -> p <> Fallback ->
    step w (back id r p res now w)
| step_plain id r w :
    g_flights w !! id = Some (r, Calling Fallback) -> step w (leave id w)
| step_replayed id r probe w :
    g_flights w !! id = Some (r, Replaying probe) -> step w (finish id r probe w)
| step_release id r w :
    g_flights w !! id = Some (r, Releasing) ->
    step w (leave id (mkWorld (endProbe r (g_cache w)) (g_flights w) (g_log w))).

Definition start (ttl : Z) : world := mkWorld (newAutoH2CTransport ttl) ∅ [].

(** The phases in which a round trip holds the probe of its upstream. *)
Definition holds (ph : phase) : bool :=
  match ph with Calling Probe | Replaying true | Releasing => true | _ => false end.

Definition holder (F : gmap nat (Request * phase)) (key : string) (id : nat) : Prop :=
  exists r ph, F !! id = Some (r, ph) /\ holds ph = true /\ r_key r = key.

Definition claims_ok (P : gset string) (F : gmap nat (Request * phase)) : Prop :=
  (forall key, key ∈ P <-> exists id, holder F key id) /\
  (forall key i j, holder F key i -> holder F key j -> i = j).

(** Every verdict is that of a call over h2c that ended a lifetime before it expires. *)
Definition grounded (ttl : Z) (t : autoH2C) (l : list (string * bool * Z)) : Prop :=
  a_ttl t = ttl /\
  forall key e, a_entries t !! key = Some e -> (key, e_h2c e, (e_deadline e - ttl)%Z) ∈ l.

Definition probes_ok (ttl : Z) (w : world) : Prop :=
  claims_ok (a_probing (g_cache w)) (g_flights w) /\ grounded ttl (g_cache w) (g_log w).

End Probes.

(** ** Lemmas *)

Module UpstreamLemmas.
Import GoErr Writer Proxy Retry Route.Table Route.RRLB.

#[local] Arguments isDialError : simpl never.

(** *** One trip through the gateway *)

(** The first call decides, unless it is an h2c call that is replayed. *)
Lemma gateway_single call now now' r auto :
  auto = None \/ hasBody r = true \/ r_upgrade r = true \/ r_scheme r = "h2c" \/ r_scheme r = "https" ->
  exists k, (gatewayRoundTrip call now now' r auto).1 = (t_result (call k), [call k]).
Proof.
  intros Hr. unfold gatewayRoundTrip. destruct (String.eqb_spec (r_scheme r) "h2c"); [by eexists|].
  destruct (String.eqb_spec (r_scheme r) "https"); [by eexists|]. destruct auto as [a|]; [|by exists H1].
  destruct Hr as [|[Hb|[Hu|[|]]]]; [done| | |done|done].
  - unfold autoRoundTrip, begin, look. rewrite Hb. destruct (r_upgrade r); [by exists H1|].
    destruct (lookup now (r_key r) a) as [[h d]|]; [|by exists H1]. simpl. destruct h; [|by exists H1].
    unfold afterFast. rewrite Hb. destruct (t_result (call H2C)) eqn:Ht; [rewrite <- Ht; by exists H2C|].
    destruct (isDialError _); rewrite <- Ht; by exists H2C.
  - unfold autoRoundTrip, begin, look. rewrite Hu. by exists H1.
Qed.

(** A trip that ends in a dial error left the process at no call, or at a replay only. *)
Lemma gateway_calls call now now' r auto :
  exists k, (gatewayRoundTrip call now now' r auto).1 = (t_result (call k), [call k]) \/
    (k = H1 /\ delivered (call H2C) = true /\ hasBody r = false /\
     (gatewayRoundTrip call now now' r auto).1 = (t_result (call H1), [call H2C; call H1])).
Proof.
  unfold gatewayRoundTrip. destruct (String.eqb (r_scheme r) "h2c"); [eexists; by left|].
  destruct (String.eqb (r_scheme r) "https"); [eexists; by left|]. destruct auto as [a|]; [|exists H1; by left].
  unfold autoRoundTrip. destruct (begin now r a) as [p a'] eqn:Hp. destruct p; [exists H1; by left| |].
  - unfold afterFast, delivered. destruct (t_result (call H2C)) as [u|e] eqn:Ht; [exists H2C; left; by rewrite Ht|].
    destruct (isDialError (Some e)) eqn:Hd; [exists H2C; left; by rewrite Ht|].
    destruct (hasBody r) eqn:Hb; [exists H2C; left; by rewrite Ht|]. exists H1. right. done.
  - assert (Hb : hasBody r = false).
    { unfold begin, look in Hp. destruct (r_upgrade r); [done|]. destruct (lookup _ _ _) as [[[] ?]|]; [done..|].
      by destruct (hasBody r). }
    unfold afterProbe, delivered. destruct (t_result (call H2C)) as [u|e] eqn:Ht; [exists H2C; left; by rewrite Ht|].
    destruct (isDialError (Some e)) eqn:Hd; [exists H2C; left; by rewrite Ht|]. exists H1. right. done.
Qed.

(** What is left of a response that breaks off, once a 502 page is written behind it. *)
Lemma patched_received u :
  u_length u = None \/ u_length u = Some (Z.of_nat (String.length (u_body u) + 12)) ->
  received false (httpError "Bad Gateway" 502 (relay u newWriter).1) =
  (u_status u, u_body u +:+ "Bad Gateway" +:+ EdgeServer.newline, true).
Proof.
  destruct u as [st len body br]. simpl. intros Hlen. unfold relay, httpError, setLength. simpl.
  destruct Hlen as [->| ->]; unfold Write; simpl; [done|].
  rewrite (proj2 (Z.ltb_ge _ _)) by lia. simpl. rewrite str_length_app, (proj2 (Z.ltb_ge _ _)) by (simpl; lia).
  unfold received. simpl. rewrite str_length_app. simpl. by rewrite Z.eqb_refl.
Qed.

(** *** The retry loop *)

(** A retried attempt failed to connect and wrote nothing. *)
Lemma reverseProxy_retry res w w' e :
  reverseProxy res w = (w', Panicked e) -> IsRetryable e = true -> exists e', res = Err e' /\ e = Some e' /\ w' = w.
Proof.
  destruct res as [u|e']; simpl.
  - unfold relay. destruct (u_broken u); intros [= <- <-]; done.
  - unfold ErrorHandler. destruct (isCanceled e'); [done|]. destruct (IsRetryable (Some e')) eqn:Hr; [|done].
    intros [= <- <-]. by exists e'.
Qed.

Section route.
Context (target : string) (r : Request) (env : nat -> situation).
#[local] Abbreviation route := (serveRoute target r env).

(** The trip of an attempt towards an address. *)
Definition tripAt (i : nat) (s : progress) (addr : string) : result goErr UpstreamResponse * list trip :=
  (gatewayRoundTrip (s_call (env i) (p_closed s) addr) (s_cacheNow (env i)).1 (s_cacheNow (env i)).2 r (s_auto (env i))).1.

Definition afterTrip (i : nat) (s : progress) (addr : string) (t : Table) (calls : list trip) : progress :=
  mkProgress (dialFeedback (s_dialed (env i)) (s_done (env i)) addr calls t) (p_read s || existsb t_reads calls)
    (p_closed s || hasBody r) (p_calls s ++ ((fun c => (addr, c)) <$> calls)).

Lemma serveRoute_eq i s w :
  let '(addr, t) := Lookup (s_now (env i)) (p_table s) target in
  route i s w =
  if String.eqb addr "" then (mkProgress t (p_read s) (p_closed s) (p_calls s), httpError "Service Unavailable" 503 w, Returned, p_read s)
  else let '(res, calls) := tripAt i s addr in
       let '(w', o) := reverseProxy res w in
       (afterTrip i s addr t calls, w', o, p_read (afterTrip i s addr t calls)).
Proof.
  unfold serveRoute, tripAt. destruct (Lookup _ _ _) as [addr t]. destruct (String.eqb addr ""); [done|].
  destruct (gatewayRoundTrip _ _ _ _ _) as [[res calls] a]. simpl. by destruct (reverseProxy res w).
Qed.

(** How an attempt of the loop ends: with an answer, or by a failed connection that left
    the writer as it was. *)
Lemma tryServe_cases i s w :
  let '(s', w', ok) := tryServe route r i s w in
  let '(addr, t) := Lookup (s_now (env i)) (p_table s) target in
  if String.eqb addr "" then
    s' = mkProgress t (p_read s) (p_closed s) (p_calls s) /\ w' = httpError "Service Unavailable" 503 w /\ ok = true
  else let '(res, calls) := tripAt i s addr in
    s' = afterTrip i s addr t calls /\
    match ok with
    | false => w' = w /\ exists e, res = Err e /\ isDialError (Some e) = true /\ isCanceled e = false /\
                 canRequestRetry r (p_read s') = true
    | true =>
        match res with
        | Ok u => w' = if u_broken u then httpError "Bad Gateway" 502 (relay u w).1 else (relay u w).1
        | Err e => if isCanceled e then w' = WriteHeader 499 w
                   else w' = httpError "Bad Gateway" 502 w /\ isDialError (Some e) && canRequestRetry r (p_read s') = false
        end
    end.
Proof.
  unfold tryServe. pose proof (serveRoute_eq i s w) as H. destruct (Lookup _ _ _) as [addr t]. rewrite H. clear H.
  destruct (String.eqb addr ""); [done|]. destruct (tripAt i s addr) as [res calls].
  destruct res as [u|e]; simpl.
  - unfold relay. by destruct (u_broken u); simpl; rewrite ?andb_false_r.
  - unfold ErrorHandler. destruct (isCanceled e) eqn:Hc; [done|]. unfold IsRetryable.
    destruct (isDialError (Some e)) eqn:Hd; [|done]. rewrite Hc, Hd.
    destruct (canRequestRetry r _) eqn:Hr; [|done]. split; [done|]. split; [done|]. by exists e.
Qed.

(** Attempts, one after the other, that could not connect and may be retried. *)
Inductive dialed : nat -> progress -> nat -> progress -> Prop :=
| dialed_none i s : dialed i s i s
| dialed_more i s addr t e calls j s' :
    Lookup (s_now (env i)) (p_table s) target = (addr, t) -> addr <> "" ->
    tripAt i s addr = (Err e, calls) -> isDialError (Some e) = true -> isCanceled e = false ->
    canRequestRetry r (p_read (afterTrip i s addr t calls)) = true ->
    dialed (Datatypes.S i) (afterTrip i s addr t calls) j s' ->
    dialed i s j s'.

(** What the loop does: some attempts that could not connect, then an attempt that answers,
    or the end of the attempts, or of the request. *)
Lemma retryLoop_spec n gone i s w s' w' waits :
  retryLoop route n i gone r s w = (s', w', waits) ->
  exists j s1, dialed i s j s1 /\ i <= j <= i + n /\ waits = backoffDuration <$> seq i (length waits) /\
    ((s' = s1 /\ w' = httpError "Bad Gateway" 502 w /\
        (j = i + n /\ length waits = n \/ exists k, j = Datatypes.S k /\ i <= k < i + n /\ gone k = true /\ length waits = k - i)) \/
     (j < i + n /\ length waits = j - i /\ tryServe route r j s1 w = (s', w', true))).
Proof.
  revert i s s' w' waits. induction n as [|n IH]; intros i s s' w' waits; simpl.
  { intros [= <- <- <-]. exists i, s. split; [constructor|]. repeat (split; [done || lia|]). left. naive_solver lia. }
  pose proof (tryServe_cases i s w) as Hc. destruct (tryServe route r i s w) as [[s1 w1] ok] eqn:Ht.
  destruct ok.
  { intros [= <- <- <-]. exists i, s. split; [constructor|]. split; [lia|]. split; [done|]. right. simpl.
    split; [lia|]. split; [lia|done]. }
  destruct (Lookup _ _ _) as [addr t] eqn:Hl. destruct (String.eqb_spec addr ""); [naive_solver|].
  destruct (tripAt i s addr) as [res calls] eqn:Htr. destruct Hc as (-> & -> & e & -> & Hd & Hcan & Hr).
  destruct (gone i) eqn:Hg.
  { intros [= <- <- <-]. exists (Datatypes.S i). eexists. split; [eapply dialed_more; [done..|constructor]|].
    split; [lia|]. split; [done|]. left. split; [done|]. split; [done|]. right. exists i. simpl. repeat split; try done; lia. }
  destruct (retryLoop _ n _ _ _ _ _) as [[s2 w2] waits'] eqn:Hloop. intros [= <- <- <-].
  destruct (IH _ _ _ _ _ Hloop) as (j & s3 & Hdi & Hj & Hw & Hend). exists j, s3.
  split; [by eapply dialed_more|]. split; [lia|]. simpl. split; [f_equal; exact Hw|].
  destruct Hend as [(? & ? & [[? ?]|(k & ? & ? & ? & ?)])|(? & ? & ?)].
  - left. repeat (split; [done|]). left. lia.
  - left. repeat (split; [done|]). right. exists k. repeat split; try done; lia.
  - right. repeat split; try done; lia.
Qed.

(** After the first of them a body is closed. *)
Lemma dialed_closed i s j s' :
  dialed i s j s' -> hasBody r = true -> p_closed s = true -> p_closed s' = true.
Proof. induction 1; [done|]. intros Hb Hc. apply IHdialed; [done|]. simpl. by rewrite Hc. Qed.

Lemma none_delivered (l : list (string * trip)) :
  Forall (fun c => delivered c.2 = false) l -> filter (fun c => delivered c.2 = true) l = [].
Proof. induction 1 as [|c l Hc _ IH]; [done|]. rewrite filter_cons_False, IH; [done|congruence]. Qed.

(** No call of such attempts leaves the process when a trip is a single call. *)
Lemma dialed_not_delivered i s j s' :
  (forall i, s_auto (env i) = None) \/ hasBody r = true \/ r_upgrade r = true \/ r_scheme r = "h2c" \/ r_scheme r = "https" ->
  dialed i s j s' ->
  Forall (fun c => delivered c.2 = false) (p_calls s) -> Forall (fun c => delivered c.2 = false) (p_calls s').
Proof.
  intros Hr Hdi. induction Hdi as [|i s addr t e calls j s' Hl Hne Ht Hd Hcan Hrr Hdi IH]; [done|]. intros Hs. apply IH.
  simpl. apply Forall_app. split; [done|]. unfold tripAt in Ht.
  edestruct (gateway_single (s_call (env i) (p_closed s) addr)) as [k Hk].
  2: { rewrite Hk in Ht. injection Ht as Hres <-. apply Forall_singleton. simpl. unfold delivered. by rewrite Hres, Hd. }
  naive_solver.
Qed.

End route.

(** *** A pool with dead pods *)

Section pool.
Context (host port targetPort : string) (r : Request) (env : nat -> situation).
Context (live : string -> option UpstreamResponse) (T0 : Z) (ips : list string) (t0 : Table).
#[local] Abbreviation target := (host +:+ String c_colon port).

(** The service has at least two pods; the clocks stay within one penalty; the pods for
    which [live] has a response give it, the others refuse connections. *)
Record pool_ok : Prop := {
  sv_port : mem_char c_colon port = false;
  sv_target : addrToTargetPort t0 !! target = Some targetPort;
  sv_pods : IPs <$> addrToTargetHost t0 !! host = Some ips;
  sv_two : 2 <= length ips;
  sv_plain : Forall RouteProps.plain ips;
  sv_plain_port : RouteProps.plain_port targetPort;
  sv_clock : forall i k, (s_now (env i) k <= T0 + BadAddr.badDuration)%Z;
  sv_dialed : forall i, (T0 <= s_dialed (env i))%Z;
  sv_done : forall i, s_done (env i) = false;
  sv_calls : forall i closed ip k, ip ∈ ips ->
    match live ip, t_result (s_call (env i) closed (join_host_port ip targetPort) k) with
    | Some u, Ok u' => u' = u /\ u_broken u = false
    | None, Err e => isDialError (Some e) = true /\ isCanceled e = false
    | _, _ => False
    end;
}.

Context (Hpool : pool_ok).

(** The pods [ds] have been found dead since [t0]. *)
Record marked (t : Table) (ds : list string) : Prop := {
  mk_target : addrToTargetPort t !! target = Some targetPort;
  mk_pods : IPs <$> addrToTargetHost t !! host = Some ips;
  mk_nodup : NoDup ds;
  mk_dead : forall d, d ∈ ds -> d ∈ ips /\ live d = None /\ exists at_, badAddr t !! d = Some at_ /\ (T0 <= at_)%Z;
  mk_other : forall x, x ∉ ds -> badAddr t !! x = badAddr t0 !! x;
}.

Lemma Lookup_keeps now t addr :
  addrToTargetPort (Lookup now t addr).2 = addrToTargetPort t /\ badAddr (Lookup now t addr).2 = badAddr t.
Proof. unfold Lookup. repeat case_match; done. Qed.

Lemma lookup_marked i t ds :
  marked t ds ->
  let '(addr, t') := Lookup (s_now (env i)) t target in
  marked t' ds /\
  if String.eqb addr "" then forall x, x ∈ ips -> exists k, BadAddr.IsBad (s_now (env i) k) (Some (badAddr t)) x = true
  else exists ip, addr = join_host_port ip targetPort /\ ip ∈ ips /\ ip ∉ ds.
Proof using Type*.
  intros Hm. destruct Hm as [Hp Hpods Hnd Hdead Ho]. destruct (Lookup_keeps (s_now (env i)) t target) as [Hk1 Hk2].
  pose proof (Lookup_pool (s_now (env i)) t target host) as Hk3.
  pose proof (RouteProps.Lookup_spec (s_now (env i)) t host port (sv_port Hpool)) as Hs. cbv zeta in Hs.
  destruct (Lookup _ _ _) as [addr t']. simpl in *. split; [by split; rewrite ?Hk1, ?Hk2, ?Hk3|]. rewrite Hp in Hs.
  apply fmap_Some in Hpods as (lb & Hlb & Hips). rewrite Hlb in Hs.
  pose proof (sv_two Hpool) as H2. pose proof (sv_plain Hpool) as Hpl. rewrite Forall_forall in Hpl. rewrite Hips in *.
  assert (Hne : "" ∉ IPs lb) by (intros Hin; by destruct (Hpl _ Hin)).
  pose proof (RouteProps.Get_sound (s_now (env i)) (Some (badAddr t)) lb H2 Hne) as HG.
  destruct (Get _ _ lb) as [ip lb']. destruct HG as (_ & _ & HG). simpl in Hs.
  destruct (String.eqb ip "") eqn:Hip; subst addr; simpl.
  - intros x Hx. destruct (HG x Hx) as (k & _ & ?). by exists k.
  - destruct (String.eqb_spec (join_host_port ip targetPort) ""); [by destruct (join_host_port_ne ip targetPort)|].
    destruct HG as [Hin (k & _ & Hgood)]. exists ip. repeat split; [done|]. intros Hd.
    destruct (Hdead _ Hd) as (_ & _ & at_ & Hat & ?). unfold BadAddr.IsBad in Hgood. rewrite Hat in Hgood.
    apply Z.leb_gt in Hgood. pose proof (sv_clock Hpool i k). lia.
Qed.

Lemma trip_pool i s ip :
  ip ∈ ips ->
  let '(res, calls) := tripAt r env i s (join_host_port ip targetPort) in
  match live ip with
  | Some u => res = Ok u /\ u_broken u = false
  | None => exists e c, res = Err e /\ isDialError (Some e) = true /\ isCanceled e = false /\ calls = [c] /\ t_result c = Err e
  end.
Proof using Type*.
  intros Hip. unfold tripAt. pose proof (sv_calls Hpool i (p_closed s) ip) as Hc.
  edestruct (gateway_calls (s_call (env i) (p_closed s) (join_host_port ip targetPort))) as [k [Hk|(-> & Hd & _ & Hk)]]; rewrite Hk.
  - specialize (Hc k Hip). destruct (t_result _) as [u|e] eqn:Ht, (live ip); [naive_solver|done..|].
    destruct Hc as [Hd Hcan]. by exists e, (s_call (env i) (p_closed s) (join_host_port ip targetPort) k).
  - pose proof (Hc H1 Hip) as Hc1. specialize (Hc H2C Hip). unfold delivered in Hd. destruct (live ip).
    + destruct (t_result (s_call _ _ _ H1)); naive_solver.
    + destruct (t_result (s_call _ _ _ H2C)); [done|]. destruct Hc as [Hc _]. by rewrite Hc in Hd.
Qed.

Lemma dialed_marked i s j s' ds :
  dialed target r env i s j s' -> marked (p_table s) ds ->
  exists ds', marked (p_table s') ds' /\ length ds' + i = length ds + j.
Proof using Type*.
  intros Hdi. revert ds. induction Hdi as [|i s addr t e calls j s' Hl Hne Ht Hd Hcan Hr Hdi IH]; intros ds Hm; [by exists ds|].
  pose proof (lookup_marked i _ _ Hm) as HL. rewrite Hl in HL. destruct HL as [Hm' HL].
  destruct (String.eqb_spec addr ""); [done|]. destruct HL as (ip & -> & Hin & Hnew).
  pose proof (trip_pool i s ip Hin) as HT. rewrite Ht in HT. destruct (live ip) as [u|] eqn:Hlive; [naive_solver|].
  destruct HT as (e' & c & [= <-] & _ & _ & -> & Hc).
  assert (Hm2 : marked (p_table (afterTrip r env i s (join_host_port ip targetPort) t [c])) (ip :: ds)).
  { simpl. unfold dialFeedback. simpl. rewrite Hc, Hd, (sv_done Hpool). simpl. destruct Hm' as [Hp Hpods Hnd Hdead Ho].
    assert (Hb : BadAddr.MarkBad (s_dialed (env i)) (badAddr t) (join_host_port ip targetPort) = <[ip := s_dialed (env i)]> (badAddr t)).
    { pose proof (sv_plain Hpool) as Hpl. rewrite Forall_forall in Hpl. destruct (Hpl _ Hin) as (? & ? & ?).
      destruct (sv_plain_port Hpool) as (? & ? & ?). by apply BadAddr.MarkBad_join. }
    split; simpl; [done|done|by constructor| |]; rewrite Hb.
    - intros d Hd'. destruct (decide (d = ip)) as [->|Hdne].
      + split; [done|]. split; [done|]. exists (s_dialed (env i)). rewrite lookup_insert_eq. split; [done|apply (sv_dialed Hpool)].
      + rewrite lookup_insert_ne by done. apply Hdead. set_solver.
    - intros x Hx. rewrite lookup_insert_ne by set_solver. apply Ho. set_solver. }
  destruct (IH _ Hm2) as (ds' & ? & Hlen). exists ds'. split; [done|]. simpl in Hlen. lia.
Qed.

(** Dead pods are found dead once each. *)
Lemma marked_length t ds : marked t ds -> length ds <= length (filter (fun ip => live ip = None) ips).
Proof.
  intros Hm. apply submseteq_length, NoDup_submseteq; [apply (mk_nodup _ _ Hm)|]. intros d Hd.
  apply list_elem_of_filter. destruct (mk_dead _ _ Hm _ Hd) as (? & ? & _). done.
Qed.

Lemma pool_start : marked t0 [].
Proof using Type*. split; [apply (sv_target Hpool)|apply (sv_pods Hpool)|constructor|by intros d ?%not_elem_of_nil|done]. Qed.
End pool.

(** *** Overlapping round trips *)

Import Probes.

Lemma holder_insert F id r ph key i :
  holder (<[id := (r, ph)]> F) key i <->
  i = id /\ holds ph = true /\ r_key r = key \/ i <> id /\ holder F key i.
Proof.
  unfold holder. destruct (decide (i = id)) as [->|Hne].
  - rewrite lookup_insert_eq. naive_solver.
  - rewrite lookup_insert_ne by done. naive_solver.
Qed.

Lemma holder_delete F id key i : holder (delete id F) key i <-> i <> id /\ holder F key i.
Proof.
  unfold holder. destruct (decide (i = id)) as [->|Hne].
  - rewrite lookup_delete_eq. naive_solver.
  - rewrite lookup_delete_ne by done. naive_solver.
Qed.

Lemma holder_at F id r ph key : F !! id = Some (r, ph) -> holder F key id <-> holds ph = true /\ r_key r = key.
Proof. unfold holder. intros ->. naive_solver. Qed.

Lemma claims_ext P F F' :
  (forall key i, holder F' key i <-> holder F key i) -> claims_ok P F -> claims_ok P F'.
Proof.
  intros HF [H1 H2]. split.
  - intros key. rewrite H1. by setoid_rewrite HF.
  - intros key i j. rewrite !HF. apply H2.
Qed.

(** A round trip that moves on keeps what it holds. *)
Lemma claims_go P F id r ph ph' :
  F !! id = Some (r, ph) -> holds ph' = holds ph -> claims_ok P F -> claims_ok P (<[id := (r, ph')]> F).
Proof.
  intros Hl Hh. apply claims_ext. intros key i. rewrite holder_insert, Hh. pose proof (holder_at _ _ _ _ key Hl).
  destruct (decide (i = id)); naive_solver.
Qed.

Lemma claims_enter P F id r ph :
  F !! id = None -> holds ph = false -> claims_ok P F -> claims_ok P (<[id := (r, ph)]> F).
Proof.
  intros Hl Hh. apply claims_ext. intros key i. rewrite holder_insert, Hh. unfold holder. destruct (decide (i = id)); naive_solver.
Qed.

Lemma claims_leave P F id r ph :
  F !! id = Some (r, ph) -> holds ph = false -> claims_ok P F -> claims_ok P (delete id F).
Proof.
  intros Hl Hh. apply claims_ext. intros key i. rewrite holder_delete.
  destruct (decide (i = id)) as [->|Hne]; [|tauto]. rewrite (holder_at _ _ _ _ key Hl), Hh. naive_solver.
Qed.

Lemma claims_claim P F id r ph ph' :
  F !! id = Some (r, ph) -> holds ph = false -> holds ph' = true -> r_key r ∉ P ->
  claims_ok P F -> claims_ok ({[r_key r]} ∪ P) (<[id := (r, ph')]> F).
Proof.
  intros Hl Hh Hh' Hn [H1 H2]. pose proof (fun key => holder_at _ _ _ _ key Hl) as Ha. rewrite Hh in Ha. split.
  - intros key. rewrite elem_of_union, elem_of_singleton, H1. setoid_rewrite holder_insert. rewrite Hh'. split.
    + intros [->|[i Hi]]; [exists id; naive_solver|]. exists i. right. split; [|done]. intros ->. naive_solver.
    + intros [i [(_ & _ & <-)|[_ Hi]]]; [by left|right; by exists i].
  - intros key i j. rewrite !holder_insert. intros [(-> & _ & <-)|[Hi Hi']] [(-> & _ & Hj)|[Hj Hj']]; [done| | |by eapply H2].
    + destruct Hn. apply H1. by exists j.
    + subst key. destruct Hn. apply H1. by exists i.
Qed.

Lemma claims_release P F id r ph :
  F !! id = Some (r, ph) -> holds ph = true ->
  claims_ok P F -> claims_ok (P ∖ {[r_key r]}) (delete id F).
Proof.
  intros Hl Hh [H1 H2]. pose proof (fun key => holder_at _ _ _ _ key Hl) as Ha. rewrite Hh in Ha. split.
  - intros key. rewrite elem_of_difference, elem_of_singleton, H1. setoid_rewrite holder_delete. split.
    + intros [[i Hi] Hne]. exists i. split; [|done]. intros ->. apply Hne. symmetry. by apply Ha in Hi as [_ ?].
    + intros [i [Hne Hi]]. split; [by exists i|]. intros ->. apply Hne. eapply H2; [done|]. by apply Ha.
  - intros key i j. rewrite !holder_delete. intros [_ ?] [_ ?]. by eapply H2.
Qed.

(** A verdict is stored with the call it is about, and the lifetime is kept. *)
Lemma grounded_back ttl now r res t l p :
  grounded ttl t l ->
  grounded ttl (if isProbe p then afterProbe now r res t else afterFast now r res t).2 (noted r res now l) /\
  a_probing (if isProbe p then afterProbe now r res t else afterFast now r res t).2 = a_probing t.
Proof.
  intros [Ht Hg].
  assert (Hs : forall b, verdict res = Some b -> grounded ttl (store now (r_key r) b t) (noted r res now l)).
  { intros b Hb. split; [done|]. unfold noted. rewrite Hb. simpl. intros key e. rewrite lookup_insert. case_decide as Hk.
    - intros [= <-]. subst. simpl. rewrite Z.add_simpl_r. apply list_elem_of_here.
    - intros He. apply list_elem_of_further. by apply Hg. }
  assert (Hk : grounded ttl t (noted r res now l)).
  { split; [done|]. intros key e He. unfold noted. destruct (verdict res); [apply list_elem_of_further|]; by apply Hg. }
  unfold afterProbe, afterFast, verdict in *. destruct res as [u|e]; [|destruct (isDialError (Some e)) eqn:Hd].
  - destruct p; simpl; auto.
  - destruct p; simpl; auto.
  - destruct p; simpl; [destruct (hasBody r)|destruct (hasBody r)|]; simpl; auto.
    all: split; [|done]; split; [done|]; intros key e'; simpl; rewrite lookup_delete_Some; intros [_ He]; by apply Hk.
Qed.

(** Every step keeps the invariant. *)
Lemma step_ok ttl w1 w2 : step w1 w2 -> probes_ok ttl w1 -> probes_ok ttl w2.
Proof.
  unfold probes_ok. destruct 1 as [id r now w Hl|id r w Hl|id r p res now w Hl Hp|id r w Hl|id r probe w Hl|id r w Hl]; intros [HC HG].
  - split; [|done]. simpl. apply claims_enter; [done| |done]. unfold look. by repeat case_match; simplify_eq.
  - unfold claim. case_decide as Hd; simpl.
    + split; [|done]. by apply (claims_go _ _ _ _ Asking).
    + split; [|done]. by apply (claims_claim _ _ _ _ Asking).
  - unfold back. destruct (grounded_back ttl now r res (g_cache w) (g_log w) p HG) as [HG' HP].
    destruct (if isProbe p then _ else _) as [n t]. simpl in HG', HP.
    destruct n; destruct p; try done; unfold finish, go, leave; simpl; (split; [|done]); rewrite HP.
    + by apply (claims_leave _ _ _ r (Calling Fast)).
    + by apply (claims_go _ _ _ _ (Calling Probe)).
    + by apply (claims_go _ _ _ _ (Calling Fast)).
    + by apply (claims_go _ _ _ _ (Calling Probe)).
  - split; [|done]. simpl. by apply (claims_leave _ _ _ r (Calling Fallback)).
  - destruct probe; unfold finish, go, leave; simpl; (split; [|done]).
    + by apply (claims_go _ _ _ _ (Replaying true)).
    + by apply (claims_leave _ _ _ r (Replaying false)).
  - split; [|done]. simpl. by apply (claims_release _ _ _ _ Releasing).
Qed.

End UpstreamLemmas.

(** ** Properties *)

Module UpstreamProps.
Import GoErr Writer Proxy Retry Probes UpstreamLemmas Route.Table Route.RRLB.

(** *** Inputs of the witnesses *)

Definition dialErr : goErr := OpError "dial" (Plain "connection refused").
Definition answer (body : string) : UpstreamResponse := mkUpResp 200 None body false.
Definition pods2 : Table :=
  mkTable {["web.ns.svc.cluster.local" := mkRRLB ["10.0.0.1"; "10.0.0.2"] 0]} {["web.ns.svc.cluster.local:80" := "8080"]} ∅ ∅.
Definition web : string := "web.ns.svc.cluster.local:80".
Definition get : Request := mkRequest "http" false 0 false "ns/web:80".
Definition post : Request := mkRequest "http" false 7 true "ns/web:80".

(** The second pod is dead; a closed body cannot be read. *)
Definition halfDead (closed : bool) (addr : string) (k : kind) : trip :=
  if String.eqb addr "10.0.0.2:8080" then mkTrip (Err dialErr) false
  else if closed then mkTrip (Err (Plain "http: invalid Read on closed Body")) true
  else mkTrip (Ok (answer "hello")) true.
Definition at0 (call : bool -> string -> kind -> trip) (auto : option autoH2C) : nat -> situation :=
  fun _ => mkSituation (fun _ => 0%Z) 0 false auto (0%Z, 0%Z) call.
Definition probed : autoH2C := mkAuto defaultH2CProbeTTL {["ns/web:80" := mkEntry true 1]} ∅.

(** *** The attempts *)

(** C1: the request leaves the process at most once.  However many attempts are made, at
    most one call of a transport ends otherwise than in a dial error -- without
    auto-detection of h2c, for a request with a body or an upgrade, and towards a backend
    declared https or h2c. *)
Theorem delivered_at_most_once target r env gone t :
  (forall i, s_auto (env i) = None) \/ hasBody r = true \/ r_upgrade r = true \/ r_scheme r = "h2c" \/ r_scheme r = "https" ->
  let '(s, _, _) := serve target r env gone t in
  length (filter (fun c => delivered c.2 = true) (p_calls s)) <= 1.
Proof.
  intros Hr. destruct (serve target r env gone t) as [[s w] waits] eqn:Hs. unfold serve, retryMiddleware in Hs.
  destruct (retryLoop_spec _ _ _ _ _ _ _ _ _ _ _ Hs) as (j & s1 & Hdi & _ & _ & Hend).
  assert (Hnil : filter (fun c => delivered c.2 = true) (p_calls s1) = []).
  { apply none_delivered. by eapply dialed_not_delivered. }
  destruct Hend as [(-> & _)|(_ & _ & Ht)]; [rewrite Hnil; simpl; lia|].
  pose proof (tryServe_cases target r env j s1 newWriter) as Hc. rewrite Ht in Hc.
  destruct (Lookup _ _ _) as [addr t']. destruct (String.eqb addr "").
  { destruct Hc as (-> & _). simpl. rewrite Hnil. simpl. lia. }
  destruct (tripAt r env j s1 addr) as [res calls] eqn:Htr. destruct Hc as [-> _]. simpl.
  rewrite filter_app, Hnil. simpl. unfold tripAt in Htr.
  edestruct (gateway_single (s_call (env j) (p_closed s1) addr)) as [k Hk];
    [|rewrite Hk in Htr; injection Htr as _ <-; simpl; rewrite filter_cons; case_decide; simpl; lia].
  naive_solver.
Qed.

Lemma delivered_at_most_once_witness :
  let '(s, w, waits) := serve web get (at0 halfDead None) (fun _ => false) pods2 in
  length (filter (fun c => delivered c.2 = true) (p_calls s)) <= 1 /\
  (length (p_calls s), waits, received false w) = (2, [(10 * millisecond)%Z], (200%Z, "hello", true)).
Proof.
  pose proof (delivered_at_most_once web get (at0 halfDead None) (fun _ => false) pods2 (or_introl (fun _ => eq_refl))) as H.
  destruct (serve _ _ _ _ _) as [[s w] waits] eqn:E. split; [exact H|].
  vm_compute in E. injection E as <- <- <-. vm_compute. reflexivity.
Defined.

(** With auto-detection on, a request without a body is sent again.  When its call over
    h2c, fast path or probe, fails once connected -- a reset, a timeout, a broken stream --
    it is replayed over HTTP/1.1, so the upstream can receive it twice. *)
Theorem bodyless_sent_twice call now now' r a e u :
  r_scheme r = "http" -> r_upgrade r = false -> hasBody r = false -> r_key r ∉ a_probing a ->
  (forall d, lookup now (r_key r) a = Some d -> e_h2c d = true) ->
  t_result (call H2C) = Err e -> isDialError (Some e) = false -> t_result (call H1) = Ok u ->
  let '(res, calls, _) := gatewayRoundTrip call now now' r (Some a) in
  res = Ok u /\ length (filter (fun c => delivered c = true) calls) = 2.
Proof.
  intros Hs Hu Hb Hp Hl H2 Hd HH1. unfold gatewayRoundTrip. rewrite Hs. simpl. unfold autoRoundTrip, begin, look. rewrite Hu, Hb.
  assert (Hdel : length (filter (fun c => delivered c = true) [call H2C; call H1]) = 2).
  { unfold delivered. rewrite !filter_cons, H2, HH1, Hd. done. }
  destruct (lookup now (r_key r) a) as [d|].
  - rewrite (Hl d eq_refl). unfold afterFast. rewrite H2, Hd, Hb. done.
  - unfold claim. rewrite decide_False by done. unfold afterProbe. rewrite H2, Hd. done.
Qed.

Lemma bodyless_sent_twice_witness :
  let call k := match k with H2C => mkTrip (Err (Plain "http2: server sent GOAWAY")) false | _ => mkTrip (Ok (answer "done")) false end in
  let '(res, calls, _) := gatewayRoundTrip call 0 0 get (Some probed) in
  res = Ok (answer "done") /\ length (filter (fun c => delivered c = true) calls) = 2.
Proof.
  apply (bodyless_sent_twice _ 0 0 get probed (Plain "http2: server sent GOAWAY")); try reflexivity.
  - by apply (bool_decide_unpack _).
  - intros d. vm_compute. by intros [= <-].
Defined.
(** *** The answer *)

(** What the client gets.  A response of an upstream is relayed as it is; when there
    is none the answer is 499, 502 or 503, and is complete.  There are at most five
    attempts, the pauses are 10, 20, 40, ... milliseconds, and together at most 310. *)
Theorem answer_of_serve target r env gone t :
  let '(s, w, waits) := serve target r env gone t in
  length waits <= maxRetry /\
  waits = (fun i => (2 ^ Z.of_nat i * (10 * millisecond))%Z) <$> seq 0 (length waits) /\
  (fold_right Z.add 0 waits <= 310 * millisecond)%Z /\
  ((exists u i closed addr k, t_result (s_call (env i) closed addr k) = Ok u /\
      (w = (relay u newWriter).1 \/ u_broken u = true /\ w = httpError "Bad Gateway" 502 (relay u newWriter).1)) \/
   received false w ∈ [(499%Z, "", true); (502%Z, "Bad Gateway" +:+ EdgeServer.newline, true);
                       (503%Z, "Service Unavailable" +:+ EdgeServer.newline, true)]).
Proof.
  destruct (serve target r env gone t) as [[s w] waits] eqn:Hs. unfold serve, retryMiddleware in Hs.
  destruct (retryLoop_spec _ _ _ _ _ _ _ _ _ _ _ Hs) as (j & s1 & _ & Hj & Hw & Hend).
  assert (Hn : length waits <= maxRetry) by (unfold maxRetry in *; destruct Hend as [(_ & _ & [[_ ?]|(k & ? & ? & _ & ?)])|(? & ? & _)]; lia).
  split; [done|].
  assert (Hb : backoffDuration <$> seq 0 (length waits) = (fun i => (2 ^ Z.of_nat i * (10 * millisecond))%Z) <$> seq 0 (length waits) /\
               (fold_right Z.add 0 (backoffDuration <$> seq 0 (length waits)) <= 310 * millisecond)%Z).
  { unfold maxRetry in Hn. destruct (length waits) as [|[|[|[|[|[|?]]]]]]; [..|lia]; by vm_compute. }
  destruct Hb as [Hb1 Hb2]. split; [by rewrite <- Hb1|]. split; [by rewrite Hw|].
  destruct Hend as [(_ & -> & _)|(_ & _ & Ht)]; [right; set_solver|].
  pose proof (tryServe_cases target r env j s1 newWriter) as Hc. rewrite Ht in Hc.
  destruct (Lookup _ _ _) as [addr t']. destruct (String.eqb addr ""); [destruct Hc as (_ & -> & _); right; set_solver|].
  destruct (tripAt r env j s1 addr) as [res calls] eqn:Htr. destruct Hc as [_ Hc]. destruct res as [u|e].
  - left. unfold tripAt in Htr. edestruct (gateway_calls (s_call (env j) (p_closed s1) addr)) as [k Hk].
    exists u, j, (p_closed s1), addr, k. split.
    + destruct Hk as [Hk|(-> & _ & _ & Hk)]; rewrite Hk in Htr; congruence.
    + subst w. destruct (u_broken u); [by right|by left].
  - right. destruct (isCanceled e); [subst w; set_solver|]. destruct Hc as [-> _]. set_solver.
Qed.

(** An interrupted response is patched.  When the upstream breaks off in the middle of
    a body, the reverse proxy panics so that the server aborts the response; the retry
    middleware recovers that panic and writes a 502 page behind the bytes already sent.
    The response then ends cleanly when no length was declared, or when exactly the size
    of that page was missing: the client takes the truncated body for a complete one. *)
Theorem interrupted_response_patched target r env gone t u addr t' :
  Lookup (s_now (env 0)) t target = (addr, t') -> addr <> "" ->
  (gatewayRoundTrip (s_call (env 0) false addr) (s_cacheNow (env 0)).1 (s_cacheNow (env 0)).2 r (s_auto (env 0))).1.1 = Ok u ->
  u_broken u = true ->
  (u_length u = None \/ u_length u = Some (Z.of_nat (String.length (u_body u) + 12))) ->
  let '(_, w, waits) := serve target r env gone t in
  waits = [] /\ received false w = (u_status u, u_body u +:+ "Bad Gateway" +:+ EdgeServer.newline, true).
Proof.
  intros Hl Hne Hres Hb Hlen. destruct (serve target r env gone t) as [[s w] waits] eqn:Hs.
  unfold serve, retryMiddleware in Hs. simpl in Hs.
  pose proof (tryServe_cases target r env 0 (mkProgress t false false []) newWriter) as Hc.
  destruct (tryServe _ r 0 _ newWriter) as [[s1 w1] ok]. simpl in Hc. rewrite Hl in Hc.
  destruct (String.eqb_spec addr ""); [done|]. unfold tripAt in Hc. simpl in Hc.
  destruct (gatewayRoundTrip _ _ _ _ _) as [[res calls] a]. simpl in Hres, Hc. subst res.
  destruct Hc as [_ Hc]. destruct ok; [|by destruct Hc as (_ & e & ? & _)]. injection Hs as <- <- <-. split; [done|]. subst w1. rewrite Hb.
  by apply patched_received.
Qed.

Definition cut : UpstreamResponse := mkUpResp 200 None "half of " true.

Lemma interrupted_response_patched_witness :
  let call _ _ _ := mkTrip (Ok cut) false in
  let '(_, w, waits) := serve web get (at0 call None) (fun _ => false) pods2 in
  waits = [] /\ received false w = (200%Z, "half of Bad Gateway" +:+ EdgeServer.newline, true).
Proof.
  apply (interrupted_response_patched web get (at0 (fun _ _ _ => mkTrip (Ok cut) false) None) (fun _ => false) pods2 cut
           "10.0.0.2:8080" (Lookup (fun _ => 0%Z) pods2 web).2); [by vm_compute|done|by vm_compute|done|by left].
Defined.

(** *** Live and dead pods *)

(** C2: a request reaches a pod that lives.  When a request with no body is for a service
    of at least two pods, each alive or dead throughout, of which at most four refuse
    connections, one is alive and not
    under a penalty, and all of it happens within one penalty, the client gets the
    response of a pod that is alive: dead pods cost attempts, never the answer. *)
Theorem retry_reaches_live_pod host port targetPort r env live T0 ips t :
  pool_ok host port targetPort env live T0 ips t ->
  r_stream r = false -> length (filter (fun ip => live ip = None) ips) <= 4 ->
  (exists ip, ip ∈ ips /\ live ip <> None /\ forall i k, BadAddr.IsBad (s_now (env i) k) (Some (badAddr t)) ip = false) ->
  let '(_, w, _) := serve (host +:+ String c_colon port) r env (fun _ => false) t in
  exists ip u, ip ∈ ips /\ live ip = Some u /\ w = (relay u newWriter).1.
Proof.
  intros Hpool Hst Hfew (good & Hgood & Hlg & Hnb). destruct (serve _ _ _ _ _) as [[s w] waits] eqn:Hs.
  unfold serve, retryMiddleware in Hs.
  destruct (retryLoop_spec _ _ _ _ _ _ _ _ _ _ _ Hs) as (j & s1 & Hdi & Hj & _ & Hend).
  destruct (dialed_marked _ _ _ _ _ _ _ _ _ Hpool _ _ _ _ [] Hdi (pool_start _ _ _ _ _ _ _ _ Hpool)) as (ds & Hm & Hlen).
  pose proof (marked_length _ _ _ _ _ _ _ _ _ Hm) as Hds. simpl in Hlen. unfold maxRetry in *.
  destruct Hend as [(_ & _ & [[? _]|(k & _ & _ & ? & _)])|(_ & _ & Ht)]; [lia|done|].
  pose proof (tryServe_cases (host +:+ String c_colon port) r env j s1 newWriter) as Hc. rewrite Ht in Hc.
  pose proof (lookup_marked _ _ _ _ _ _ _ _ Hpool j _ _ Hm) as HL.
  destruct (Lookup _ _ _) as [addr t']. destruct HL as [_ HL]. destruct (String.eqb addr "").
  { destruct (HL good Hgood) as [k Hk]. unfold BadAddr.IsBad in Hk, Hnb. rewrite (mk_other _ _ _ _ _ _ _ _ _ Hm) in Hk; [by rewrite Hnb in Hk|].
    intros Hin. destruct (mk_dead _ _ _ _ _ _ _ _ _ Hm _ Hin) as (_ & ? & _). done. }
  destruct HL as (ip & -> & Hin & _). pose proof (trip_pool _ _ _ r _ _ _ _ _ Hpool j s1 ip Hin) as HT.
  destruct (tripAt r env j s1 _) as [res calls]. destruct Hc as [-> Hc]. destruct (live ip) as [u|] eqn:Hlive.
  - destruct HT as [-> Hb]. rewrite Hb in Hc. by exists ip, u.
  - destruct HT as (e & c & -> & Hd & Hcan & _). rewrite Hcan, Hd in Hc. destruct Hc as [_ Hc].
    unfold canRequestRetry in Hc. by rewrite Hst in Hc.
Qed.

Definition liveOnly1 (ip : string) : option UpstreamResponse :=
  if String.eqb ip "10.0.0.1" then Some (answer "hello") else None.

Lemma retry_reaches_live_pod_witness :
  let call _ addr _ := if String.eqb addr "10.0.0.1:8080" then mkTrip (Ok (answer "hello")) false else mkTrip (Err dialErr) false in
  let '(_, w, _) := serve web get (at0 call None) (fun _ => false) pods2 in
  exists ip u, ip ∈ ["10.0.0.1"; "10.0.0.2"] /\ liveOnly1 ip = Some u /\ w = (relay u newWriter).1.
Proof.
  apply (retry_reaches_live_pod "web.ns.svc.cluster.local" "80" "8080" get
    (at0 (fun _ addr _ => if String.eqb addr "10.0.0.1:8080" then mkTrip (Ok (answer "hello")) false else mkTrip (Err dialErr) false) None)
    liveOnly1 0 ["10.0.0.1"; "10.0.0.2"] pods2).
  - split; try reflexivity; try (simpl; unfold BadAddr.badDuration, second; lia).
    + repeat constructor; done.
    + done.
    + intros i closed ip k Hin. rewrite !elem_of_cons in Hin. by destruct Hin as [->|[->|?%not_elem_of_nil]].
  - reflexivity.
  - vm_compute. lia.
  - exists "10.0.0.1". split; [set_solver|]. split; [done|]. by vm_compute.
Defined.

(** A body does not survive a failed connection.  The reverse proxy closes the body of
    a request when it returns, also after a dial error; the retry, which takes an unread
    body for a whole one, sends the request with a body that cannot be read.  So when the
    first pod refuses the connection a request with a body is answered with an error page,
    though other pods are alive. *)
Theorem retried_body_is_lost target r env gone t addr t' e calls :
  hasBody r = true ->
  (forall i addr k u, t_result (s_call (env i) true addr k) <> Ok u) ->
  Lookup (s_now (env 0)) t target = (addr, t') -> addr <> "" ->
  (gatewayRoundTrip (s_call (env 0) false addr) (s_cacheNow (env 0)).1 (s_cacheNow (env 0)).2 r (s_auto (env 0))).1 = (Err e, calls) ->
  let '(_, w, _) := serve target r env gone t in
  w_sent w ∈ [Some 499%Z; Some 502%Z; Some 503%Z].
Proof.
  intros Hbody Hclosed Hl Hne Htrip. destruct (serve target r env gone t) as [[s w] waits] eqn:Hs.
  unfold serve, retryMiddleware in Hs.
  destruct (retryLoop_spec _ _ _ _ _ _ _ _ _ _ _ Hs) as (j & s1 & Hdi & _ & _ & Hend).
  destruct Hend as [(_ & -> & _)|(_ & _ & Ht)]; [set_solver|].
  pose proof (tryServe_cases target r env j s1 newWriter) as Hc. rewrite Ht in Hc.
  destruct (Lookup (s_now (env j)) _ _) as [addr' t''] eqn:Hl'. destruct (String.eqb addr' ""); [destruct Hc as (_ & -> & _); set_solver|].
  destruct (tripAt r env j s1 addr') as [res calls'] eqn:Htr. destruct Hc as [_ Hc]. destruct res as [u|e'].
  - exfalso. unfold tripAt in Htr. inversion Hdi; subst.
    + simpl in Hl'. rewrite Hl in Hl'. injection Hl' as <- <-. simpl in Htr. rewrite Htrip in Htr. done.
    + match goal with H : dialed _ _ _ 1 _ _ _ |- _ => apply dialed_closed in H as Hcl; [rewrite Hcl in Htr|done|done] end.
      edestruct (gateway_calls (s_call (env j) true addr')) as [k [Hk|(-> & _ & _ & Hk)]]; rewrite Hk in Htr; injection Htr as Htr _; by apply Hclosed in Htr.
  - destruct (isCanceled e'); [subst w; set_solver|]. destruct Hc as [-> _]. set_solver.
Qed.

Lemma retried_body_is_lost_witness :
  let '(_, w, _) := serve web post (at0 halfDead None) (fun _ => false) pods2 in
  w_sent w ∈ [Some 499%Z; Some 502%Z; Some 503%Z].
Proof.
  apply (retried_body_is_lost web post (at0 halfDead None) (fun _ => false) pods2 "10.0.0.2:8080"
    (Lookup (fun _ => 0%Z) pods2 web).2 dialErr [mkTrip (Err dialErr) false]); try reflexivity.
  - intros i addr k u. simpl. unfold halfDead. by destruct (String.eqb addr _).
  - done.
Defined.

(** *** Detection of h2c *)

(** Probes are single-flight and verdicts are grounded.  However round trips overlap --
    lookups, claims, calls, replays and releases in any order, at any clocks -- an
    upstream is marked as being probed exactly while one round trip, and only one, holds
    its probe; and every cached verdict is the outcome of a call over h2c to that upstream
    that came back one lifetime before the verdict expires. *)
Theorem probes_single_flight ttl w :
  rtc step (start ttl) w -> probes_ok (if (ttl <=? 0)%Z then defaultH2CProbeTTL else ttl) w.
Proof.
  set (ttl' := if (ttl <=? 0)%Z then _ else _). intros Hr.
  assert (H0 : probes_ok ttl' (start ttl)).
  { split; [split|split]; simpl; [|by intros key i j (r & ph & H & _)|done|done].
    intros key. split; [set_solver|]. by intros (id & r & ph & H & _). }
  induction Hr; eauto using step_ok.
Qed.

Lemma probes_single_flight_witness :
  exists w, rtc step (start 0) w /\ probes_ok defaultH2CProbeTTL w /\
    a_probing (g_cache w) = {["ns/web:80"]} /\ holder (g_flights w) "ns/web:80" 1 /\
    g_flights w !! 2 = Some (get, Calling Fallback).
Proof.
  set (w1 := go 1 get Asking (start 0)). set (w2 := go 2 get Asking w1).
  set (w3 := go 1 get (Calling Probe) (mkWorld (claim get (g_cache w2)).2 (g_flights w2) [])).
  set (w4 := go 2 get (Calling Fallback) w3).
  assert (Hr : rtc step (start 0) w4).
  { eapply rtc_l; [apply (step_look 1 get 0); reflexivity|]. eapply rtc_l; [apply (step_look 2 get 0); reflexivity|].
    eapply rtc_l; [apply (step_claim 1 get); reflexivity|]. eapply rtc_l; [apply (step_claim 2 get); reflexivity|]. apply rtc_refl. }
  exists w4. split; [exact Hr|]. split; [exact (probes_single_flight 0 w4 Hr)|]. split; [by vm_compute|]. split; [|reflexivity].
  exists get, (Calling Probe). repeat split; reflexivity.
Defined.

(** A client that goes away decides the protocol.  When the request that probes an
    upstream, or one that uses its positive verdict, has no body and is cancelled during
    its call over h2c, the upstream is recorded as not speaking h2c: for a whole lifetime
    every request without an upgrade goes over HTTP/1.1, whatever that brings from an
    upstream that only speaks h2c. *)
Theorem cancel_poisons_verdict call now now' r a :
  r_upgrade r = false -> hasBody r = false -> r_key r ∉ a_probing a ->
  (forall d, lookup now (r_key r) a = Some d -> e_h2c d = true) ->
  t_result (call H2C) = Err Canceled ->
  let '(_, _, a') := autoRoundTrip call now now' r a in
  forall call' later later' r', r_key r' = r_key r -> (later < now' + a_ttl a)%Z ->
    autoRoundTrip call' later later' r' a' = (t_result (call' H1), [call' H1], a').
Proof.
  intros Hu Hb Hp Hl Hc. unfold autoRoundTrip at 1. unfold begin, look. rewrite Hu, Hb.
  assert (Hneg : forall a' call' later later' r', a_entries a' = <[r_key r := mkEntry false (now' + a_ttl a)]> (a_entries a) ->
            r_key r' = r_key r -> (later < now' + a_ttl a)%Z ->
            autoRoundTrip call' later later' r' a' = (t_result (call' H1), [call' H1], a')).
  { intros a' call' later later' r' Ha Hk Hlt. unfold autoRoundTrip, begin, look, lookup. rewrite Ha, Hk, lookup_insert_eq. simpl.
    rewrite (proj2 (Z.ltb_lt _ _)) by done. by destruct (r_upgrade r'). }
  destruct (lookup now (r_key r) a) as [d|] eqn:Hd.
  - rewrite (Hl d eq_refl). unfold afterFast. rewrite Hc, Hb. simpl. intros. by apply Hneg.
  - unfold claim. rewrite decide_False by done. unfold afterProbe. rewrite Hc. simpl. intros. by apply Hneg.
Qed.

Lemma cancel_poisons_verdict_witness :
  let '(_, _, a') := autoRoundTrip (fun _ => mkTrip (Err Canceled) false) 0 0 get (newAutoH2CTransport 0) in
  forall call' later later' r', r_key r' = "ns/web:80" -> (later < 0 + defaultH2CProbeTTL)%Z ->
    autoRoundTrip call' later later' r' a' = (t_result (call' H1), [call' H1], a').
Proof.
  apply (cancel_poisons_verdict (fun _ => mkTrip (Err Canceled) false) 0 0 get (newAutoH2CTransport 0)); try reflexivity; done.
Defined.

End UpstreamProps.
