(* ===== verification/Debounce.v ===== *)
(** * Debounced reloads

    Models [src/debounce/debounce.go] with the reloads it runs: [src/controller.go] debounces
    every rebuild ([reloadIngressDebounced] and its kin), which reads the watched objects and
    then publishes what it built.  Calls, the mutex, the timer and the rebuilds, which the
    timer starts in goroutines of their own, are the steps of one relation; a version is how
    often the watched objects have changed. *)

From S2P Require Import Prelude.

Set Default Proof Using "Type".

(** ** The timer, the callers and the rebuilds *)

Module Debounce.

(** [time.AfterFunc]'s timer: armed for an instant, or stopped or fired. *)
Inductive timer := Stopped | Armed (at_ : Z).

(** A rebuild that has yet to read the objects, or holds what it built from a version. *)
Inductive phase := Starting | Holding (v : nat).

Record world := mkWorld {
  d_now : Z;
  d_timer : option timer;           (* the field [t]; [None] is nil *)
  d_first : option phase;           (* the first call runs [f] under the mutex *)
  d_callers : nat;                  (* goroutines entering [Call] *)
  d_runs : gmap nat (Z * phase);    (* [f] started by the timer: since when *)
  d_source : nat;                   (* the version of the watched objects *)
  d_read : nat;                     (* the newest version a rebuild has read *)
  d_out : option nat;               (* the version published last *)
}.

Definition start : world := mkWorld 0 None None 0 ∅ 0 0 None.

Definition withTimer (t : option timer) (w : world) : world :=
  mkWorld (d_now w) t (d_first w) (d_callers w) (d_runs w) (d_source w) (d_read w) (d_out w).
Definition withFirst (p : option phase) (w : world) : world :=
  mkWorld (d_now w) (d_timer w) p (d_callers w) (d_runs w) (d_source w) (d_read w) (d_out w).
Definition withCallers (n : nat) (w : world) : world :=
  mkWorld (d_now w) (d_timer w) (d_first w) n (d_runs w) (d_source w) (d_read w) (d_out w).
Definition withRuns (r : gmap nat (Z * phase)) (w : world) : world :=
  mkWorld (d_now w) (d_timer w) (d_first w) (d_callers w) r (d_source w) (d_read w) (d_out w).

(** An object changes, and the watcher calls [Call]. *)
Definition change (w : world) : world :=
  mkWorld (d_now w) (d_timer w) (d_first w) (Datatypes.S (d_callers w)) (d_runs w) (Datatypes.S (d_source w)) (d_read w) (d_out w).

(** A rebuild reads the objects, and publishes. *)
Definition note (w : world) : world :=
  mkWorld (d_now w) (d_timer w) (d_first w) (d_callers w) (d_runs w) (d_source w) (d_source w) (d_out w).
Definition publish (v : nat) (w : world) : world :=
  mkWorld (d_now w) (d_timer w) (d_first w) (d_callers w) (d_runs w) (d_source w) (d_read w) (Some v).

(** [Call] with the mutex taken: the first one runs [f] before it lets go, the others stop
    the timer and arm it anew. *)
Definition Call (d : Z) (w : world) : world :=
  match d_timer w with
  | None => withFirst (Some Starting) w
  | Some _ => withTimer (Some (Armed (d_now w + d))) w
  end.

Definition tick (w : world) : world :=
  mkWorld (d_now w + 1) (d_timer w) (d_first w) (d_callers w) (d_runs w) (d_source w) (d_read w) (d_out w).

Inductive step (d : Z) : world -> world -> Prop :=
| step_change w : step d w (change w)
| step_call n w : d_callers w = Datatypes.S n -> d_first w = None -> step d w (Call d (withCallers n w))
| step_first_read w : d_first w = Some Starting -> step d w (withFirst (Some (Holding (d_source w))) (note w))
| step_first_publish v w :
    d_first w = Some (Holding v) -> step d w (withTimer (Some Stopped) (withFirst None (publish v w)))
| step_fire at_ id w :
    d_timer w = Some (Armed at_) -> (at_ <= d_now w)%Z -> d_runs w !! id = None ->
    step d w (withTimer (Some Stopped) (withRuns (<[id := (d_now w, Starting)]> (d_runs w)) w))
| step_read id s w :
    d_runs w !! id = Some (s, Starting) ->
    step d w (withRuns (<[id := (s, Holding (d_source w))]> (d_runs w)) (note w))
| step_publish id s v w :
    d_runs w !! id = Some (s, Holding v) -> step d w (withRuns (delete id (d_runs w)) (publish v w))
| step_tick w : step d w (tick w).

(** Nothing is under way and the timer is not armed. *)
Definition quiet (w : world) : Prop :=
  d_callers w = 0 /\ d_first w = None /\ d_runs w = ∅ /\ (forall at_, d_timer w <> Some (Armed at_)).

(** No rebuild takes as long as the delay. *)
Definition prompt (d : Z) (w1 w2 : world) : Prop :=
  step d w1 w2 /\ forall id s ph, d_runs w2 !! id = Some (s, ph) -> (d_now w2 < s + d)%Z.

(** The timer is due. *)
Definition due (w : world) : Prop := exists at_, d_timer w = Some (Armed at_) /\ (at_ <= d_now w)%Z.

End Debounce.

(** ** Lemmas *)

Module DebounceLemmas.
Import Debounce.

(** A version nobody has read has a caller, the timer or a rebuild to read it. *)
Definition attended (w : world) : Prop :=
  d_read w = d_source w \/ d_callers w <> 0 \/ d_first w = Some Starting \/
  (exists at_, d_timer w = Some (Armed at_)) \/ exists id s, d_runs w !! id = Some (s, Starting).

(** The first call excludes the others. *)
Definition locked_ok (w : world) : Prop :=
  (d_timer w = None -> d_runs w = ∅) /\ (d_first w <> None -> d_timer w = None).

Lemma locked_step d w1 w2 : step d w1 w2 -> locked_ok w1 -> locked_ok w2.
Proof.
  unfold locked_ok. destruct 1 as [w|n w Hc Hf|w Hf|v w Hf|at_ id w Ht Ha Hid|id s w Hid|id s v w Hid|w]; simpl; intros [HR HF].
  - done.
  - unfold Call. simpl. destruct (d_timer w) eqn:Ht; simpl; [|naive_solver]. split; [done|]. by rewrite Hf.
  - split; [done|]. intros _. apply HF. by rewrite Hf.
  - done.
  - split; [done|]. intros Hf. rewrite HF in Ht by done. done.
  - split; [|done]. intros Ht. by rewrite HR in Hid.
  - split; [|done]. intros Ht. by rewrite HR, delete_empty.
  - done.
Qed.

Lemma attended_step d w1 w2 : step d w1 w2 -> locked_ok w1 -> attended w1 -> attended w2.
Proof.
  unfold attended. destruct 1 as [w|n w Hc Hf|w Hf|v w Hf|at_ id w Ht Ha Hid|id s w Hid|id s v w Hid|w]; simpl; intros [HR HF] H.
  - right. by left.
  - unfold Call. simpl. destruct (d_timer w) eqn:Ht; simpl; [|by right; right; left]. right; right; right; left. by eexists.
  - by left.
  - assert (Hn : d_timer w = None) by (apply HF; by rewrite Hf). rewrite HR, Hn in H by done.
    destruct H as [?|[?|[?|[[at_ ?]|(id & s & ?)]]]]; [by left|by right; left|congruence|done|done].
  - do 4 right. exists id, (d_now w). by rewrite lookup_insert_eq.
  - by left.
  - destruct H as [?|[?|[?|[?|(id' & s' & Hr)]]]]; [by left|by right; left|by right; right; left|by right; right; right; left|].
    do 4 right. exists id', s'. rewrite lookup_delete_ne; congruence.
  - done.
Qed.

(** Under the promptness of rebuilds: one at most, since the timer, armed after it began,
    fires a delay later; and what it holds, or what is published, is the newest read. *)
Definition current (w : world) : Prop :=
  (forall v, d_first w = Some (Holding v) -> v = d_read w) /\
  (forall id s v, d_runs w !! id = Some (s, Holding v) -> v = d_read w) /\
  (d_read w = 0 \/ d_out w = Some (d_read w) \/ d_first w = Some (Holding (d_read w)) \/
   exists id s, d_runs w !! id = Some (s, Holding (d_read w))).

Definition alone (d : Z) (w : world) : Prop :=
  (forall i j, is_Some (d_runs w !! i) -> is_Some (d_runs w !! j) -> i = j) /\
  forall id s ph, d_runs w !! id = Some (s, ph) ->
    (s <= d_now w < s + d)%Z /\ forall at_, d_timer w = Some (Armed at_) -> (s + d <= at_)%Z.

Lemma alone_step d w1 w2 : (0 < d)%Z -> prompt d w1 w2 -> alone d w1 -> alone d w2.
Proof.
  unfold alone. intros Hd [Hs Hp]. destruct Hs as [w|n w Hc Hf|w Hf|v w Hf|at_ id w Ht Ha Hid|id s w Hid|id s v w Hid|w]; simpl in *; intros [H1 H2].
  - done.
  - unfold Call. simpl. destruct (d_timer w) eqn:Ht; simpl; (split; [done|]); intros id s ph Hr;
      destruct (H2 _ _ _ Hr) as [? _]; (split; [done|]); intros at_; [intros [= <-]; lia|congruence].
  - done.
  - split; [done|]. intros id s ph Hr. destruct (H2 _ _ _ Hr) as [? _]. done.
  - assert (Hno : d_runs w = ∅).
    { apply map_empty. intros j. destruct (d_runs w !! j) as [[s ph]|] eqn:Hj; [|done]. destruct (H2 _ _ _ Hj) as [? H3].
      specialize (H3 _ Ht). lia. }
    rewrite Hno. split.
    + intros i j. rewrite !lookup_insert. repeat case_decide; subst; try done; rewrite ?lookup_empty; by intros [? ?] [? ?].
    + intros j s ph. rewrite lookup_insert. case_decide; [|by rewrite lookup_empty]. intros [= <- <-]. split; [lia|done].
  - split.
    + intros i j [x Hi] [y Hj]. apply H1.
      * destruct (decide (id = i)) as [<-|Hne]; [by eexists|]. rewrite lookup_insert_ne in Hi by done. by eexists.
      * destruct (decide (id = j)) as [<-|Hne]; [by eexists|]. rewrite lookup_insert_ne in Hj by done. by eexists.
    + intros j s' ph. rewrite lookup_insert. case_decide; [|apply H2]. intros [= <- <-]. subst. apply (H2 _ _ _ Hid).
  - split.
    + intros i j [x [_ Hi]%lookup_delete_Some] [y [_ Hj]%lookup_delete_Some]. apply H1; by eexists.
    + intros j s' ph [_ Hr]%lookup_delete_Some. by apply (H2 j s' ph).
  - split; [done|]. intros id s ph Hr. destruct (H2 _ _ _ Hr) as [? H3]. specialize (Hp _ _ _ Hr). split; [lia|done].
Qed.

Lemma current_step d w1 w2 : step d w1 w2 -> locked_ok w1 -> alone d w1 -> current w1 -> current w2.
Proof.
  unfold current. destruct 1 as [w|n w Hc Hf|w Hf|v w Hf|at_ id w Ht Ha Hid|id s w Hid|id s v w Hid|w]; simpl; intros [HR HF] [H1 _] (HA & HB & HC).
  - done.
  - unfold Call. simpl. destruct (d_timer w) eqn:Ht; simpl; [done|]. split; [done|]. split; [done|].
    rewrite Hf in HC. destruct HC as [?|[?|[?|?]]]; auto; done.
  - assert (Hr : d_runs w = ∅) by (apply HR, HF; by rewrite Hf). rewrite Hr. split; [by intros v [= ->]|]. split; [done|]. auto.
  - assert (Hr : d_runs w = ∅) by (apply HR, HF; by rewrite Hf). rewrite Hr. rewrite (HA _ Hf). split; [done|]. split; [done|]. auto.
  - split; [done|]. split.
    + intros j s v. rewrite lookup_insert. case_decide; [done|]. apply HB.
    + destruct HC as [?|[?|[?|(j & s & Hj)]]]; auto. do 3 right. exists j, s. rewrite lookup_insert_ne; congruence.
  - split; [|split].
    + intros v Hv. assert (Hr : d_runs w = ∅) by (apply HR, HF; by rewrite Hv). by rewrite Hr in Hid.
    + intros j s' v. rewrite lookup_insert. case_decide as Hj; [by intros [= _ <-]|]. intros Hr. destruct Hj. by apply H1; eexists.
    + do 3 right. exists id, s. by rewrite lookup_insert_eq.
  - rewrite (HB _ _ _ Hid). split; [done|]. split; [|auto]. intros j s' v' [_ Hr]%lookup_delete_Some. by apply (HB j s' v').
  - done.
Qed.

Lemma start_ok d : locked_ok start /\ attended start /\ alone d start /\ current start.
Proof.
  split; [done|]. split; [by left|]. split; [split|split; [done|split; [done|by left]]].
  - by intros i j [? ?].
  - done.
Qed.

Lemma reached_ok d w : rtc (step d) start w -> locked_ok w /\ attended w.
Proof.
  pose proof (start_ok d) as (H1 & H2 & _). revert H1 H2. generalize start. intros w0 H1 H2 Hr.
  induction Hr; eauto using locked_step, attended_step.
Qed.

Lemma prompt_ok d w : (0 < d)%Z -> rtc (prompt d) start w -> locked_ok w /\ attended w /\ alone d w /\ current w.
Proof.
  intros Hd. pose proof (start_ok d) as (H1 & H2 & H3 & H4). revert H1 H2 H3 H4. generalize start. intros w0 H1 H2 H3 H4 Hr.
  induction Hr as [|w0 w1 w2 Hp Hr IH]; [done|]. pose proof Hp as [Hs _].
  apply IH; eauto using locked_step, attended_step, alone_step, current_step.
Qed.

(** The clock can advance by itself. *)
Lemma ticks d n w :
  rtc (step d) w (mkWorld (d_now w + Z.of_nat n) (d_timer w) (d_first w) (d_callers w) (d_runs w) (d_source w) (d_read w) (d_out w)).
Proof.
  revert w. induction n as [|n IH]; intros w.
  - replace (d_now w + Z.of_nat 0)%Z with (d_now w) by lia. by destruct w.
  - eapply rtc_l; [apply step_tick|]. specialize (IH (tick w)). simpl in IH.
    by replace (d_now w + Z.of_nat (Datatypes.S n))%Z with (d_now w + 1 + Z.of_nat n)%Z by lia.
Qed.

Lemma quiet_read w : attended w -> quiet w -> d_read w = d_source w.
Proof.
  intros Ha (Hc & Hf & Hr & Ht). unfold attended in Ha. rewrite Hc, Hf, Hr in Ha.
  destruct Ha as [H|[H|[H|[[at_ H]|(id & s & H)]]]]; [done..|by destruct (Ht at_)|by rewrite lookup_empty in H].
Qed.

(** *** Letting things finish *)

(** [w2] is reached from [w1] without a change. *)
Definition settles (d : Z) (w1 w2 : world) : Prop := rtc (step d) w1 w2 /\ d_source w2 = d_source w1.

#[export] Instance settles_trans d : Transitive (settles d).
Proof. intros w1 w2 w3 [H1 E1] [H2 E2]. split; [by etrans|congruence]. Qed.

Lemma settles_step d w1 w2 : step d w1 w2 -> d_source w2 = d_source w1 -> settles d w1 w2.
Proof. intros H E. split; [by apply rtc_once|done]. Qed.

Lemma finish_first d w :
  exists w', settles d w w' /\ d_first w' = None /\ d_runs w' = d_runs w /\ d_callers w' = d_callers w.
Proof.
  destruct (d_first w) as [[|v]|] eqn:Hf.
  - eexists. split; [etrans; [by apply settles_step; [apply step_first_read|]|by apply settles_step; [by apply step_first_publish|]]|]. done.
  - eexists. split; [by apply settles_step; [by apply step_first_publish|]|]. done.
  - exists w. split; [by split|]. done.
Qed.

Lemma finish_run d w id s ph m :
  d_runs w = <[id := (s, ph)]> m -> m !! id = None ->
  exists w', settles d w w' /\ d_runs w' = m /\ d_first w' = d_first w /\ d_callers w' = d_callers w /\ d_timer w' = d_timer w.
Proof.
  intros Hr Hm. assert (Hid : d_runs w !! id = Some (s, ph)) by (by rewrite Hr, lookup_insert_eq). destruct ph as [|v].
  - eexists. split; [etrans; [apply settles_step; [by apply step_read|done]|apply settles_step; [eapply (step_publish d id s (d_source w)); apply lookup_insert_eq|done]]|].
    simpl. by rewrite Hr, insert_insert_eq, delete_insert_id.
  - eexists. split; [apply settles_step; [by eapply step_publish|done]|]. simpl. by rewrite Hr, delete_insert_id.
Qed.

Lemma finish_runs d w :
  exists w', settles d w w' /\ d_runs w' = ∅ /\ d_first w' = d_first w /\ d_callers w' = d_callers w /\ d_timer w' = d_timer w.
Proof.
  remember (d_runs w) as m eqn:Hm. revert w Hm. induction m as [|id [s ph] m Hid IH] using map_ind; intros w Hm.
  - exists w. split; [by split|]. done.
  - edestruct (finish_run d w) as (w1 & Hs & Hr & Hf & Hc & Ht); [by rewrite <- Hm|done|].
    destruct (IH w1 (eq_sym Hr)) as (w2 & Hs2 & ? & ? & ? & ?). exists w2. split; [by etrans|]. repeat split; congruence.
Qed.

(** Every caller gets through, the timer fires, the rebuilds end. *)
Lemma finish_callers d w : exists w', settles d w w' /\ d_callers w' = 0 /\ d_first w' = None.
Proof.
  remember (d_callers w) as n eqn:Hn. revert w Hn. induction n as [|n IH]; intros w Hn.
  - destruct (finish_first d w) as (w1 & ? & ? & _ & ?). exists w1. split; [done|]. split; [congruence|done].
  - destruct (finish_first d w) as (w1 & Hs & Hf & _ & Hc).
    assert (Hstep : settles d w1 (Call d (withCallers n w1))).
    { apply settles_step; [apply step_call; congruence|]. unfold Call. by destruct (d_timer _). }
    destruct (IH (Call d (withCallers n w1))) as (w2 & Hs2 & ? & ?); [unfold Call; by destruct (d_timer _)|].
    exists w2. split; [|done]. etrans; [exact Hs|]. by etrans.
Qed.

Lemma finish_timer d w :
  d_callers w = 0 -> d_first w = None -> exists w', settles d w w' /\ quiet w'.
Proof.
  intros Hc Hf. destruct (finish_runs d w) as (w1 & Hs & Hr & Hf1 & Hc1 & Ht1).
  destruct (d_timer w1) as [[|at_]|] eqn:Ht.
  - exists w1. split; [done|]. repeat split; congruence.
  - pose (w2 := mkWorld (d_now w1 + Z.of_nat (Z.to_nat (at_ - d_now w1))) (d_timer w1) (d_first w1) (d_callers w1) (d_runs w1) (d_source w1) (d_read w1) (d_out w1)).
    assert (Hs2 : settles d w1 w2) by (split; [apply ticks|done]).
    assert (Hs3 : settles d w2 (withTimer (Some Stopped) (withRuns (<[0 := (d_now w2, Starting)]> (d_runs w2)) w2))).
    { apply settles_step; [|done]. apply (step_fire d at_); [done|unfold w2; simpl; lia|unfold w2; simpl; by rewrite Hr]. }
    destruct (finish_runs d (withTimer (Some Stopped) (withRuns (<[0 := (d_now w2, Starting)]> (d_runs w2)) w2))) as (w3 & Hs4 & Hr3 & Hf3 & Hc3 & Ht3).
    simpl in *. exists w3. split; [etrans; [exact Hs|]; etrans; [exact Hs2|]; by etrans|]. repeat split; congruence.
  - exists w1. split; [done|]. repeat split; congruence.
Qed.

End DebounceLemmas.

(** ** Properties *)

Module DebounceProps.
Import Debounce DebounceLemmas.

(** No change is missed.  From every state the calls can reach, everything under way
    can finish with nothing left armed; and whenever nothing is under way or armed, a
    rebuild has read the newest version, whatever the interleaving. *)
Theorem no_change_missed d w :
  rtc (step d) start w ->
  (quiet w -> d_read w = d_source w) /\
  exists w', rtc (step d) w w' /\ quiet w' /\ d_source w' = d_source w /\ d_read w' = d_source w.
Proof.
  assert (Hq : forall w, rtc (step d) start w -> quiet w -> d_read w = d_source w).
  { intros w1 Hr. destruct (reached_ok d w1 Hr) as [_ ?]. by apply quiet_read. }
  intros Hr. split; [by apply Hq|]. destruct (finish_callers d w) as (w1 & Hs1 & Hc & Hf).
  destruct (finish_timer d w1 Hc Hf) as (w2 & Hs2 & Hquiet). destruct (transitivity Hs1 Hs2) as [Hrtc Hsrc].
  exists w2. rewrite <- Hsrc. split; [done|]. split; [done|]. split; [done|]. apply Hq; [by etrans|done].
Qed.

(** The first change, handled by the first call. *)
Definition first : world := mkWorld 0 (Some Stopped) None 0 ∅ 1 1 (Some 1).

Lemma first_reached d : rtc (fun w1 w2 => prompt d w1 w2 /\ ~ due w2) start first.
Proof.
  assert (Hn : forall w1 w2, step d w1 w2 -> d_runs w2 = ∅ -> d_timer w2 = None \/ d_timer w2 = Some Stopped -> prompt d w1 w2 /\ ~ due w2).
  { intros w1 w2 Hs Hr Ht. split; [split; [done|by rewrite Hr]|]. intros (at_ & Hat & _). destruct Ht; congruence. }
  eapply rtc_l; [apply Hn; [apply step_change|done|by left]|]. eapply rtc_l; [apply Hn; [by apply (step_call d 0)|done|by left]|].
  eapply rtc_l; [apply Hn; [by apply step_first_read|done|by left]|]. apply rtc_once, Hn; [by apply (step_first_publish d 1)|done|by right].
Qed.

Lemma first_step d : rtc (step d) start first.
Proof. eapply rtc_subrel; [|apply (first_reached d)]. by intros x y [[? _] _]. Qed.

Lemma no_change_missed_witness :
  (quiet first -> d_read first = 1) /\
  exists w', rtc (step 300) first w' /\ quiet w' /\ d_source w' = 1 /\ d_read w' = 1.
Proof.
  apply (no_change_missed 300 first). apply first_step.
Defined.

(** C28: what is published is current.  As long as no rebuild takes as long as the delay,
    rebuilds never overlap, and whenever nothing is under way or armed the version that
    was published last is the newest one. *)
Theorem prompt_publishes_newest d w :
  (0 < d)%Z -> rtc (prompt d) start w ->
  (forall i j, is_Some (d_runs w !! i) -> is_Some (d_runs w !! j) -> i = j) /\
  (quiet w -> d_source w <> 0 -> d_out w = Some (d_source w)).
Proof.
  intros Hd Hr. destruct (prompt_ok d w Hd Hr) as (_ & Ha & [Hone _] & (_ & _ & Hcur)). split; [done|].
  intros Hq Hne. pose proof (quiet_read w Ha Hq) as Hread. destruct Hq as (Hc & Hf & Hruns & Ht).
  rewrite Hread, Hruns, Hf in Hcur. destruct Hcur as [?|[?|[?|(id & s & Hi)]]]; [done..|]. done.
Qed.

Lemma prompt_publishes_newest_witness :
  (forall i j, is_Some (d_runs first !! i) -> is_Some (d_runs first !! j) -> i = j) /\
  (quiet first -> 1 <> 0 -> d_out first = Some 1).
Proof. apply (prompt_publishes_newest 300 first); [reflexivity|]. eapply rtc_subrel; [|apply first_reached]. by intros x y [? _]. Defined.

(** A slow rebuild overwrites a newer one.  The timer starts a rebuild while another
    still runs; when the one that read first publishes last, the older version stays
    published, and nothing is left that would replace it. *)
Theorem overlap_publishes_stale d :
  (0 < d)%Z -> exists w, rtc (step d) start w /\ quiet w /\ d_source w = 3 /\ d_out w = Some 2.
Proof.
  intros Hd.
  pose proof (first_step d) as H0.
  set (n := Z.to_nat d).
  eexists. split.
  { etrans; [exact H0|]. eapply rtc_l; [apply step_change|]. eapply rtc_l; [by apply (step_call d 0)|]. simpl.
    etrans; [apply (ticks d n)|]. simpl. eapply rtc_l; [apply (step_fire d d 0); simpl; [done|lia|done]|].
    eapply rtc_l; [apply (step_read d 0); apply lookup_insert_eq|]. simpl.
    eapply rtc_l; [apply step_change|]. eapply rtc_l; [by apply (step_call d 0)|]. simpl.
    etrans; [apply (ticks d n)|]. simpl.
    eapply rtc_l; [eapply (step_fire d _ 1); simpl; [done|lia|by vm_compute]|]. simpl.
    eapply rtc_l; [apply (step_read d 1); apply lookup_insert_eq|]. simpl.
    eapply rtc_l; [eapply (step_publish d 1); simpl; apply lookup_insert_eq|]. simpl.
    eapply rtc_l; [eapply (step_publish d 0); simpl; rewrite lookup_delete_ne, !lookup_insert_ne by done; apply lookup_insert_eq|].
    apply rtc_refl. }
  simpl. split; [|done]. split; [done|]. split; [done|]. split; [|done]. simpl. apply map_eq. intros i. by destruct i as [|[|i]].
Qed.

Lemma overlap_publishes_stale_witness :
  exists w, rtc (step 300) start w /\ quiet w /\ d_source w = 3 /\ d_out w = Some 2.
Proof. apply (overlap_publishes_stale 300). reflexivity. Defined.

(** Calls starve the rebuild.  Every call puts the timer off, without a limit: while
    changes keep coming faster than the delay the timer is never due, and the version of
    the first change stays published however long that lasts. *)
Theorem calls_starve_rebuild d n :
  (1 < d)%Z ->
  exists w, rtc (fun w1 w2 => step d w1 w2 /\ ~ due w2) start w /\
    d_now w = Z.of_nat n /\ d_source w = Datatypes.S n /\ d_read w = 1 /\ d_out w = Some 1.
Proof.
  intros Hd.
  assert (H : exists t, rtc (fun w1 w2 => step d w1 w2 /\ ~ due w2) start (mkWorld (Z.of_nat n) (Some t) None 0 ∅ (Datatypes.S n) 1 (Some 1)) /\
            forall at_, t = Armed at_ -> (Z.of_nat n < at_)%Z); [|destruct H as (t & H & _); by eexists].
  induction n as [|n (t & IH & Ht)].
  - exists Stopped. split; [|done]. eapply rtc_subrel; [|apply (first_reached d)]. by intros x y [[? _] ?].
  - exists (Armed (Z.of_nat n + d)). split; [|intros at_ [= <-]; lia]. etrans; [exact IH|].
    eapply rtc_l; [split; [apply step_change|]|].
    { intros (at_ & [= ->] & Hle). specialize (Ht _ eq_refl). simpl in Hle. lia. }
    eapply rtc_l; [split; [by apply (step_call d 0)|]|].
    { intros (at_ & [= <-] & Hle). simpl in Hle. lia. }
    apply rtc_once. split; [|intros (at_ & [= <-] & Hle); simpl in Hle; lia].
    replace (Z.of_nat (Datatypes.S n)) with (Z.of_nat n + 1)%Z by lia. apply step_tick.
Qed.

Lemma calls_starve_rebuild_witness :
  exists w, rtc (fun w1 w2 => step 300 w1 w2 /\ ~ due w2) start w /\
    d_now w = 1000%Z /\ d_source w = 1001 /\ d_read w = 1 /\ d_out w = Some 1.
Proof. apply (calls_starve_rebuild 300 1000). reflexivity. Defined.

End DebounceProps.
