(* ===== verification/Plugins.v ===== *)
(** * Plugins

    Models [src/plugin]: what the annotations of an ingress put around its routes, in the
    order in which [src/cmd/parapet-ingress-controller/main.go] registers it, and the
    redirects they add to the route map; with the client address and the result cache of
    [src/geoip].

    The middlewares that parapet provides, YAML, IP addresses and the tracing exporter are
    the class [PluginOps]; the zones a registry holds are middlewares found in the state of
    the world, and the transform set of an annotation is one too. *)

From Stdlib Require Import FunctionalExtensionality.
From S2P Require Import Prelude GoString GoURL ServeMux Controller.

Set Default Proof Using "Type".

(** ** Requests, handlers, middlewares *)

(** [r_State] is the map of [state.Get]. *)
Record Request := mkRequest {
  r_RequestURI : string;
  r_Host : string;
  r_RemoteAddr : string;
  r_URL : URL;
  r_Header : Header;
  r_State : gmap string string;
}.

Definition setState (k v : string) (r : Request) : Request :=
  mkRequest (r_RequestURI r) (r_Host r) (r_RemoteAddr r) (r_URL r) (r_Header r) (<[k := v]> (r_State r)).
Definition setURL (u : URL) (r : Request) : Request :=
  mkRequest (r_RequestURI r) (r_Host r) (r_RemoteAddr r) u (r_Header r) (r_State r).
Definition setHost (h : string) (r : Request) : Request :=
  mkRequest (r_RequestURI r) h (r_RemoteAddr r) (r_URL r) (r_Header r) (r_State r).

(** What a handler answers: an error page, a redirect, a panic, or a reply of the upstream
    or of a middleware that is not of this package. *)
Inductive Reply (A : Type) :=
| Error (msg : string) (code : Z)
| RedirectTo (url : string) (code : Z)
| Panic
| Answer (a : A).
Arguments Error {A}. Arguments RedirectTo {A}. Arguments Panic {A}. Arguments Answer {A}.

(** A handler changes the world [W]: counters, connections, the upstream. *)
Definition Handler (A W : Type) : Type := Request -> W -> Reply A * W.
Definition Middleware (A W : Type) : Type := Handler A W -> Handler A W.

Definition Forbidden {A W} : Handler A W := fun _ w => (Error "Forbidden" 403, w).

(** [http.Redirect]: a status outside three digits panics in [WriteHeader]. *)
Definition Redirect {A W} (url : string) (code : Z) : Handler A W :=
  fun _ w => (if ((code <? 100) || (999 <? code))%Z then Panic else RedirectTo url code, w).

(** The windows of the fixed-window limiter, and the YAML of [forward-auth]. *)
Inductive window := Second | Minute | Hour.
Record AuthDoc := mkAuthDoc { a_URL : string; AuthRequestHeaders : list string; AuthResponseHeaders : list string }.

(** What this package calls.  A transform set that parses is empty, or does something. *)
Class PluginOps (A W IP IPNet Float : Type) := {
  (* parapet *)
  block_New : (Request -> bool) -> Middleware A W -> Middleware A W;
  hsts_Preload : Middleware A W;
  hsts_Default : Middleware A W;
  FixedWindow : window -> Z -> string -> Middleware A W;
  LimitRequest : Z -> Middleware A W;
  stripprefix_New : string -> Middleware A W;
  authn_Basic : string -> string -> Middleware A W;
  ForwardAuthenticator : URL -> list string -> list string -> Middleware A W;
  SetResponse : string -> string -> Middleware A W;
  (* YAML, in the order in which the map is ranged over *)
  yaml_redirect : string -> option (list (string * string));
  yaml_forwardAuth : string -> option AuthDoc;
  (* net and net/url *)
  url_Parse : string -> option URL;
  url_ParseRequestURI : string -> option URL;
  ParseCIDR : string -> option IPNet;
  ParseIP : string -> option IP;
  Contains : IPNet -> option IP -> bool;
  (* tracing *)
  ParseFloat : string -> Float;
  positive : Float -> bool;
  one : Float;
  texporter_New : string -> bool;
  traceHandler : string -> Float -> Middleware A W;
  (* the registries, and the compiler of inline transform sets *)
  LookupZone : W -> string -> option (Middleware A W);
  LookupCorazaZone : W -> string -> option (Middleware A W);
  LookupRateLimitZone : W -> string -> option (Middleware A W);
  LookupTransformZone : W -> string -> option (Middleware A W);
  transform_Parse : string -> option (bool * Middleware A W);
}.

(** The block middleware runs its own chain for the requests it picks, and no network
    contains the nil address. *)
Class PluginLaws (A W IP IPNet Float : Type) `{!PluginOps A W IP IPNet Float} : Prop := {
  block_spec p inner h r w : block_New p inner h r w = if p r then inner h r w else h r w;
  Contains_nil n : Contains n None = false;
}.

(** ** Client addresses *)

Module GeoIP.

(** The text that [ClientIP] parses. *)
Definition clientText (r : Request) : string :=
  let v := HeaderGet "X-Real-Ip" (r_Header r) in
  if negb (String.eqb v "") then trim_space v
  else
    let v := HeaderGet "X-Forwarded-For" (r_Header r) in
    if negb (String.eqb v "") then
      trim_space (match index_byte c_comma v with Some (S i) => str_take (S i) v | _ => v end)
    else match split_host_port (r_RemoteAddr r) with Some (h, _) => h | None => r_RemoteAddr r end.

Definition ClientIP {A W IP IPNet Float} `{!PluginOps A W IP IPNet Float} (r : Request) : option IP :=
  ParseIP (clientText r).

(** *** The result cache *)

Definition cacheCap : Z := 16384.

Section cache.
Context {V : Type}.

Definition newResultCache : gmap string V := ∅.

(** [get]: the read, and the insertion with what was computed on a miss. *)
Definition hit (key : string) (m : gmap string V) : option V := m !! key.
Definition insertResult (key : string) (v : V) (m : gmap string V) : gmap string V :=
  <[key := v]> (if (cacheCap <=? Z.of_nat (size m))%Z then ∅ else m).

Definition get (key : string) (compute : V) (m : gmap string V) : V * gmap string V :=
  match hit key m with
  | Some v => (v, m)
  | None => (compute, insertResult key compute m)
  end.

(** Calls that overlap: reads and insertions in any order. *)
Inductive cacheOp := Miss (key : string) | Insert (key : string).
Definition runOp (lookup : string -> V) (m : gmap string V) (o : cacheOp) : gmap string V :=
  match o with
  | Miss _ => m
  | Insert key => insertResult key (lookup key) m
  end.
End cache.

End GeoIP.

(** ** The plugins *)

Module Plugin.
Import GeoIP.

Section plugins.
Context {A W IP IPNet Float : Type} `{!PluginOps A W IP IPNet Float}.

Definition namespace : string := "parapet.moonrhythm.io".

Record Context_ := mkContext {
  Middlewares : list (Middleware A W);
  Routes : gmap string (Handler A W);
  Ingress_ : Controller.Ingress;
}.

Definition Plugin : Type := Context_ -> Context_.

Definition Use (m : Middleware A W) (ctx : Context_) : Context_ :=
  mkContext (Middlewares ctx ++ [m]) (Routes ctx) (Ingress_ ctx).
Definition setRoute (k : string) (h : Handler A W) (ctx : Context_) : Context_ :=
  mkContext (Middlewares ctx) (<[k := h]> (Routes ctx)) (Ingress_ ctx).

(** [Middlewares.ServeHandler]: the first one used is the outermost. *)
Definition ServeHandler (ms : list (Middleware A W)) (h : Handler A W) : Handler A W :=
  foldr (fun m h => m h) h ms.

(** The value of an annotation; an absent one is empty. *)
Definition annotation (name : string) (ctx : Context_) : string :=
  default "" (Controller.Annotations (Ingress_ ctx) !! (namespace +:+ name)).

Definition ingressID (ctx : Context_) : string :=
  Controller.ing_Namespace (Ingress_ ctx) +:+ "/" +:+ Controller.ing_Name (Ingress_ ctx).

(** A middleware that changes the request and goes on. *)
Definition rewrite_ (f : Request -> Request) : Middleware A W := fun h r w => h (f r) w.

Definition InjectStateIngress : Plugin := fun ctx =>
  Use (rewrite_ (fun r => setState "ingress" (Controller.ing_Name (Ingress_ ctx))
                            (setState "namespace" (Controller.ing_Namespace (Ingress_ ctx)) r))) ctx.

Definition acme : string := "/.well-known/acme-challenge".

Definition RedirectHTTPS : Plugin := fun ctx =>
  if String.eqb (annotation "/redirect-https" ctx) "true" then
    Use (fun h r w =>
      if has_prefix (r_RequestURI r) acme then h r w
      else if String.eqb (HeaderGet "X-Forwarded-Proto" (r_Header r)) "http"
           then Redirect ("https://" +:+ r_Host r +:+ r_RequestURI r) 301 r w
           else h r w) ctx
  else ctx.

Definition InjectHSTS : Plugin := fun ctx =>
  let a := annotation "/hsts" ctx in
  if String.eqb a "" then ctx
  else Use (if String.eqb a "preload" then hsts_Preload else hsts_Default) ctx.

(** The host that a redirect rule registers, and the status and target of its value. *)
Definition redirectSource (srcHost targetURL : string) : option string :=
  if String.eqb srcHost "" || String.eqb targetURL "" || has_prefix srcHost "/" then None
  else Some (if Lit.has_slash_suffix srcHost then srcHost else srcHost +:+ "/").

Definition redirectTarget (targetURL : string) : string * Z :=
  match index_byte c_comma targetURL with
  | Some i =>
      let st := default 0%Z (Atoi (str_take i targetURL)) in
      if (0 <? st)%Z then (str_drop (S i) targetURL, st) else (targetURL, 302%Z)
  | None => (targetURL, 302%Z)
  end.

Definition redirectRule (ctx : Context_) (kv : string * string) : Context_ :=
  match redirectSource kv.1 kv.2 with
  | None => ctx
  | Some src =>
      let '(target, status) := redirectTarget kv.2 in
      setRoute src (ServeHandler (Middlewares ctx) (Redirect target status)) ctx
  end.

Definition RedirectRules : Plugin := fun ctx =>
  let a := annotation "/redirect" ctx in
  if String.eqb a "" then ctx
  else match yaml_redirect a with
       | None => ctx
       | Some obj => fold_left redirectRule obj ctx
       end.

Definition rate (suffix : string) (ctx : Context_) : Z :=
  let a := annotation suffix ctx in
  if String.eqb a "" then 0%Z else default 0%Z (ParseInt a).

Definition useRate (w : window) (name suffix : string) (ctx : Context_) : Context_ :=
  let n := rate suffix ctx in
  if (0 <? n)%Z then Use (FixedWindow w n (ingressID ctx +:+ ":" +:+ name)) ctx else ctx.

Definition RateLimit : Plugin := fun ctx =>
  useRate Hour "h" "/ratelimit-h" (useRate Minute "m" "/ratelimit-m" (useRate Second "s" "/ratelimit-s" ctx)).

Definition BodyLimit : Plugin := fun ctx =>
  let a := annotation "/body-limitrequest" ctx in
  if String.eqb a "" then ctx
  else match ParseInt a with
       | None => ctx
       | Some size => if (0 <? size)%Z then Use (LimitRequest size) ctx else ctx
       end.

Definition setScheme (s : string) (u : URL) : URL :=
  mkURL s (Opaque_ u) (GoURL.Path u) (RawPath u) (ForceQuery u) (RawQuery u).

Definition UpstreamProtocol : Plugin := fun ctx =>
  let scheme := if String.eqb (annotation "/upstream-protocol" ctx) "https" then "https" else "http" in
  Use (rewrite_ (fun r => setURL (setScheme scheme (r_URL r)) r)) ctx.

Definition UpstreamHost : Plugin := fun ctx =>
  let host := annotation "/upstream-host" ctx in
  if String.eqb host "" then ctx else Use (rewrite_ (setHost host)) ctx.

Definition singleJoiningSlash (a b : string) : string :=
  let aslash := Lit.has_slash_suffix a in
  let bslash := has_prefix b "/" in
  if aslash && bslash then a +:+ str_drop 1 b
  else if negb aslash && negb bslash then a +:+ "/" +:+ b
  else a +:+ b.

(** The request's URL with a path and a query in front; [RawPath] is left as it was. *)
Definition joinURL (target u : URL) : URL :=
  mkURL (Scheme u) (Opaque_ u) (singleJoiningSlash (GoURL.Path target) (GoURL.Path u)) (RawPath u) (ForceQuery u)
    (if String.eqb (RawQuery target) "" || String.eqb (RawQuery u) "" then RawQuery target +:+ RawQuery u
     else RawQuery target +:+ "&" +:+ RawQuery u).

Definition UpstreamPath : Plugin := fun ctx =>
  let prefix := annotation "/upstream-path" ctx in
  if String.eqb prefix "" then ctx
  else match url_ParseRequestURI prefix with
       | None => ctx
       | Some target => Use (rewrite_ (fun r => setURL (joinURL target (r_URL r)) r)) ctx
       end.

(** The networks of [allow-remote]; malformed ones are left out. *)
Definition allowList (allowRemote : string) : list IPNet :=
  omap (fun x => let x := trim_space x in if String.eqb x "" then None else ParseCIDR x) (split_char c_comma allowRemote).

Definition blocked (allow : list IPNet) (r : Request) : bool :=
  if has_prefix (r_RequestURI r) acme then false
  else negb (existsb (fun n => Contains n (ClientIP r)) allow).

Definition AllowRemote : Plugin := fun ctx =>
  let a := annotation "/allow-remote" ctx in
  if String.eqb a "" then ctx
  else Use (block_New (blocked (allowList a)) (fun _ => Forbidden)) ctx.

Definition StripPrefix : Plugin := fun ctx =>
  let prefix := annotation "/strip-prefix" ctx in
  if String.eqb prefix "" then ctx else Use (stripprefix_New prefix) ctx.

(** *** Authentication *)

Definition denyAll (ctx : Context_) : Context_ := Use (fun _ => Forbidden) ctx.

Definition BasicAuth : Plugin := fun ctx =>
  let ba := annotation "/basic-auth" ctx in
  if String.eqb ba "" then ctx
  else match index_byte c_colon ba with
       | None => denyAll ctx
       | Some i =>
           let user := str_take i ba in
           let pass := str_drop (S i) ba in
           if String.eqb user "" || String.eqb pass "" then denyAll ctx
           else Use (authn_Basic user pass) ctx
       end.

Definition ForwardAuth : Plugin := fun ctx =>
  let a := annotation "/forward-auth" ctx in
  if String.eqb a "" then ctx
  else match yaml_forwardAuth a with
       | None => denyAll ctx
       | Some obj =>
           if String.eqb (a_URL obj) "" then denyAll ctx
           else match url_Parse (a_URL obj) with
                | None => denyAll ctx
                | Some u => Use (ForwardAuthenticator u (AuthRequestHeaders obj) (AuthResponseHeaders obj))
                              (Use (SetResponse "Cache-Control" "private") ctx)
                end
       end.

(** *** Zones *)

Definition ZoneKey (ingressNamespace annotation : string) : option string :=
  let v := trim_space annotation in
  if String.eqb v "" then None
  else match index_byte c_slash v with
       | Some i =>
           let ns := trim_space (str_take i v) in
           let name := trim_space (str_drop (S i) v) in
           if String.eqb ns "" || String.eqb name "" || mem_char c_slash name then None
           else Some (ns +:+ "/" +:+ name)
       | None => Some (ingressNamespace +:+ "/" +:+ v)
       end.

Definition zoneKey (name : string) (ctx : Context_) : option string :=
  ZoneKey (Controller.ing_Namespace (Ingress_ ctx)) (annotation name ctx).

(** The zone of a key, looked up at each request; none passes the request on. *)
Definition zoneMiddleware (lookup : W -> string -> option (Middleware A W)) (key : string) : Middleware A W :=
  fun h r w => match lookup w key with Some z => z h r w | None => h r w end.

Definition WAFZone (skip : option (Request -> bool)) : Plugin := fun ctx =>
  match zoneKey "/waf-zone" ctx with
  | None => ctx
  | Some key =>
      Use (fun h r w => if match skip with Some skip => skip r | None => false end then h r w
                        else zoneMiddleware LookupZone key h r w) ctx
  end.

Definition CorazaZone : Plugin := fun ctx =>
  match zoneKey "/coraza-zone" ctx with
  | None => ctx
  | Some key => Use (zoneMiddleware LookupCorazaZone key) ctx
  end.

Definition RateLimitZone : Plugin := fun ctx =>
  match zoneKey "/ratelimit-zone" ctx with
  | None => ctx
  | Some key =>
      if negb (has_prefix key (Controller.ing_Namespace (Ingress_ ctx) +:+ "/")) then ctx
      else Use (zoneMiddleware LookupRateLimitZone key) ctx
  end.

Definition TransformZone : Plugin := fun ctx =>
  match zoneKey "/transform-zone" ctx with
  | None => ctx
  | Some key => Use (zoneMiddleware LookupTransformZone key) ctx
  end.

Definition Transform : Plugin := fun ctx =>
  let doc := annotation "/transform" ctx in
  if String.eqb (trim_space doc) "" then ctx
  else match transform_Parse doc with
       | None => ctx
       | Some (true, _) => ctx
       | Some (false, z) => Use z ctx
       end.

(** *** Tracing *)

Definition OperationsTrace : Plugin := fun ctx =>
  if negb (String.eqb (annotation "/operations-trace" ctx) "true") then ctx
  else
    let projectID := annotation "/operations-trace-project" ctx in
    if String.eqb projectID "" then ctx
    else
      let s := annotation "/operations-trace-sampler" ctx in
      let sampler := if String.eqb s "" then one else ParseFloat s in
      if negb (String.eqb s "") && negb (positive sampler) then ctx
      else if negb (texporter_New projectID) then ctx
      else Use (traceHandler (ingressID ctx) sampler) ctx.

(** *** The chain of the controller *)

Record Config := mkPluginConfig {
  WAFEnabled : bool;
  SkipValidated : option (Request -> bool);
  CorazaEnabled : bool;
  RateLimitEnabled : bool;
  TransformEnabled : bool;
}.

Definition when (b : bool) (ps : list Plugin) : list Plugin := if b then ps else [].

(** The plugins that see the request before transforms, and the others. *)
Definition guards (cfg : Config) : list Plugin :=
  [InjectStateIngress; AllowRemote] ++ when (WAFEnabled cfg) [WAFZone (SkipValidated cfg)] ++
  when (CorazaEnabled cfg) [CorazaZone] ++ [RedirectHTTPS; InjectHSTS; RedirectRules] ++
  when (RateLimitEnabled cfg) [RateLimitZone] ++ [RateLimit].

Definition plugins (cfg : Config) : list Plugin :=
  guards cfg ++ when (TransformEnabled cfg) [TransformZone; Transform] ++
  [BodyLimit; UpstreamProtocol; UpstreamHost; UpstreamPath; OperationsTrace; BasicAuth; ForwardAuth; StripPrefix].

Definition runPlugins (ps : list Plugin) (ctx : Context_) : Context_ := fold_left (fun ctx p => p ctx) ps ctx.

(** The middlewares of an ingress, around the handler of one of its paths. *)
Definition chain (cfg : Config) (routes : gmap string (Handler A W)) (ing : Controller.Ingress) (h : Handler A W) : Handler A W :=
  ServeHandler (Middlewares (runPlugins (plugins cfg) (mkContext [] routes ing))) h.

End plugins.

End Plugin.

(** ** Lemmas *)

Module PluginLemmas.
Import GeoIP Plugin.

Section lemmas.
Context {A W IP IPNet Float : Type} `{!PluginOps A W IP IPNet Float}.

Lemma ServeHandler_app (ms ns : list (Middleware A W)) (h : Handler A W) :
  ServeHandler (ms ++ ns) h = ServeHandler ms (ServeHandler ns h).
Proof. unfold ServeHandler. by rewrite foldr_app. Qed.

(** What a plugin mounts for an ingress. *)
Definition mounted (p : Plugin) (ing : Controller.Ingress) : list (Middleware A W) :=
  Middlewares (p (mkContext [] ∅ ing)).

(** A plugin only adds middlewares, by the ingress alone. *)
Class Mounts (p : Plugin) : Prop := {
  mounts_ingress ctx : Ingress_ (p ctx) = Ingress_ ctx;
  mounts_spec ctx : Middlewares (p ctx) = Middlewares ctx ++ mounted p (Ingress_ ctx);
}.

Ltac mounts :=
  unfold mounted, zoneKey, ingressID, Use, rate; cbn [Ingress_ Middlewares Routes];
  repeat match goal with |- context [annotation ?n {| Middlewares := []; Routes := ∅; Ingress_ := Ingress_ ?c |}] =>
    change (annotation n {| Middlewares := []; Routes := ∅; Ingress_ := Ingress_ c |}) with (annotation n c) end;
  repeat case_match; simpl; rewrite ?app_nil_r; try done.

#[export] Instance InjectStateIngress_mounts : Mounts InjectStateIngress.
Proof. split; intros ctx; unfold InjectStateIngress; mounts. Qed.
#[export] Instance AllowRemote_mounts : Mounts AllowRemote.
Proof. split; intros ctx; unfold AllowRemote; mounts. Qed.
#[export] Instance WAFZone_mounts skip : Mounts (WAFZone skip).
Proof. split; intros ctx; unfold WAFZone; mounts. Qed.
#[export] Instance CorazaZone_mounts : Mounts CorazaZone.
Proof. split; intros ctx; unfold CorazaZone; mounts. Qed.
#[export] Instance RedirectHTTPS_mounts : Mounts RedirectHTTPS.
Proof. split; intros ctx; unfold RedirectHTTPS; mounts. Qed.
#[export] Instance InjectHSTS_mounts : Mounts InjectHSTS.
Proof. split; intros ctx; unfold InjectHSTS; mounts. Qed.
#[export] Instance RateLimitZone_mounts : Mounts RateLimitZone.
Proof. split; intros ctx; unfold RateLimitZone; mounts. Qed.
#[export] Instance TransformZone_mounts : Mounts TransformZone.
Proof. split; intros ctx; unfold TransformZone; mounts. Qed.
#[export] Instance Transform_mounts : Mounts Transform.
Proof. split; intros ctx; unfold Transform; mounts. Qed.
#[export] Instance BodyLimit_mounts : Mounts BodyLimit.
Proof. split; intros ctx; unfold BodyLimit; mounts. Qed.
#[export] Instance UpstreamProtocol_mounts : Mounts UpstreamProtocol.
Proof. split; intros ctx; unfold UpstreamProtocol; mounts. Qed.
#[export] Instance UpstreamHost_mounts : Mounts UpstreamHost.
Proof. split; intros ctx; unfold UpstreamHost; mounts. Qed.
#[export] Instance UpstreamPath_mounts : Mounts UpstreamPath.
Proof. split; intros ctx; unfold UpstreamPath; mounts. Qed.
#[export] Instance OperationsTrace_mounts : Mounts OperationsTrace.
Proof. split; intros ctx; unfold OperationsTrace; mounts. Qed.
#[export] Instance BasicAuth_mounts : Mounts BasicAuth.
Proof. split; intros ctx; unfold BasicAuth, denyAll; mounts. Qed.
#[export] Instance ForwardAuth_mounts : Mounts ForwardAuth.
Proof. split; intros ctx; unfold ForwardAuth, denyAll; mounts; by rewrite <- app_assoc. Qed.
#[export] Instance StripPrefix_mounts : Mounts StripPrefix.
Proof. split; intros ctx; unfold StripPrefix; mounts. Qed.

Lemma redirectRule_ctx (ctx : Context_ (A := A) (W := W)) kv : Ingress_ (redirectRule ctx kv) = Ingress_ ctx /\ Middlewares (redirectRule ctx kv) = Middlewares ctx.
Proof. unfold redirectRule. by repeat case_match. Qed.

Lemma redirectRules_ctx l (ctx : Context_ (A := A) (W := W)) :
  Ingress_ (fold_left redirectRule l ctx) = Ingress_ ctx /\ Middlewares (fold_left redirectRule l ctx) = Middlewares ctx.
Proof.
  revert ctx. induction l as [|kv l IH]; intros ctx; simpl; [done|]. destruct (IH (redirectRule ctx kv)) as [-> ->].
  apply redirectRule_ctx.
Qed.

Lemma mounted_RedirectRules ing : mounted RedirectRules ing = [].
Proof.
  unfold mounted, RedirectRules. case_match; [done|]. case_match; [|done]. by rewrite (proj2 (redirectRules_ctx _ _)).
Qed.

#[export] Instance RedirectRules_mounts : Mounts RedirectRules.
Proof.
  split; intros ctx; rewrite ?mounted_RedirectRules, ?app_nil_r; unfold RedirectRules; (case_match; [done|]); (case_match; [|done]);
    apply redirectRules_ctx.
Qed.

#[export] Instance useRate_mounts w name suffix : Mounts (useRate w name suffix).
Proof. split; intros ctx; unfold useRate, rate; mounts. Qed.

Lemma Mounts_compose p q : Mounts p -> Mounts q -> Mounts (fun ctx => q (p ctx)).
Proof.
  intros Hp Hq. assert (H : forall ctx, Middlewares (q (p ctx)) = Middlewares ctx ++ mounted p (Ingress_ ctx) ++ mounted q (Ingress_ ctx)).
  { intros ctx. by rewrite (mounts_spec (p := q)), (mounts_spec (p := p)), (mounts_ingress (p := p)), app_assoc. }
  split; intros ctx.
  - by rewrite (mounts_ingress (p := q)), (mounts_ingress (p := p)).
  - unfold mounted at 1. by rewrite !H.
Qed.

#[export] Instance RateLimit_mounts : Mounts RateLimit.
Proof.
  unfold RateLimit. apply (Mounts_compose (fun ctx => useRate Minute "m" "/ratelimit-m" (useRate Second "s" "/ratelimit-s" ctx)) (useRate Hour "h" "/ratelimit-h")); [|apply _].
  apply (Mounts_compose (useRate Second "s" "/ratelimit-s") (useRate Minute "m" "/ratelimit-m")); apply _.
Qed.

(** The chain of a list of plugins is that of what they mount, one after the other. *)
Lemma runPlugins_mounted ps ctx :
  Forall Mounts ps ->
  Ingress_ (runPlugins ps ctx) = Ingress_ ctx /\
  Middlewares (runPlugins ps ctx) = Middlewares ctx ++ List.concat ((fun p => mounted p (Ingress_ ctx)) <$> ps).
Proof.
  intros Hps. revert ctx. induction Hps as [|p ps Hp Hps IH]; intros ctx; simpl; [by rewrite app_nil_r|].
  destruct (IH (p ctx)) as [H1 H2]. unfold runPlugins in *. simpl. rewrite H1, H2, (mounts_ingress (p := p)), (mounts_spec (p := p)).
  by rewrite <- app_assoc.
Qed.

Lemma plugins_mount cfg : Forall Mounts (plugins cfg).
Proof. unfold plugins, guards, when. repeat case_match; simpl; repeat (apply Forall_cons; split; [apply _|]); by apply Forall_nil. Qed.

Definition mountedAll (ps : list Plugin) (ing : Controller.Ingress) : list (Middleware A W) :=
  List.concat ((fun p => mounted p ing) <$> ps).

Lemma mountedAll_app ps qs ing : mountedAll (ps ++ qs) ing = mountedAll ps ing ++ mountedAll qs ing.
Proof. unfold mountedAll. by rewrite fmap_app, concat_app. Qed.

Lemma chain_mounted cfg routes ing h : chain cfg routes ing h = ServeHandler (mountedAll (plugins cfg) ing) h.
Proof. unfold chain. by rewrite (proj2 (runPlugins_mounted _ _ (plugins_mount cfg))). Qed.

(** An ingress without one annotation. *)
Definition without (name : string) (ing : Controller.Ingress) : Controller.Ingress :=
  Controller.mkIngress (Controller.ing_Namespace ing) (Controller.ing_Name ing) (Controller.IngressClassName ing)
    (delete (namespace +:+ name) (Controller.Annotations ing)) (Controller.Rules ing) (Controller.TLSSecretNames ing).

Lemma annotation_without ms rs (name n : string) ing :
  String.eqb n name = false ->
  annotation n (mkContext (A := A) (W := W) ms rs (without name ing)) = annotation n (mkContext (A := A) (W := W) ms rs ing).
Proof.
  intros Hne. unfold annotation, without. cbn [Ingress_ Controller.Annotations]. rewrite lookup_delete_ne; [done|]. intros H.
  apply (str_app_inj_l namespace) in H. subst. by rewrite String.eqb_refl in Hne.
Qed.

(** A chain that has a middleware that never goes on does not depend on the handler. *)
Lemma deny_chain ms ns h1 h2 :
  ServeHandler (ms ++ (fun _ => Forbidden) :: ns) h1 = ServeHandler (ms ++ (fun _ => Forbidden) :: ns) (h2 : Handler A W).
Proof. by rewrite !ServeHandler_app. Qed.

Lemma mountedAll_in p ps ing : In p ps -> exists ms ns, mountedAll ps ing = ms ++ mounted p ing ++ ns.
Proof.
  intros (l1 & l2 & ->)%in_split. rewrite mountedAll_app. exists (mountedAll l1 ing), (mountedAll l2 ing).
  unfold mountedAll at 2. by simpl.
Qed.

(** What is decoded first stays in front. *)
Lemma unescape_app mode s s' t : unescape mode s = Some s' -> unescape mode (s +:+ t) = (fun t' => s' +:+ t') <$> unescape mode t.
Proof.
  assert (H : forall n s s', String.length s <= n -> unescape mode s = Some s' -> unescape mode (s +:+ t) = (fun t' => s' +:+ t') <$> unescape mode t);
    [|by apply (H (String.length s))].
  clear s s'. induction n as [|n IH]; intros [|c s] s' Hn; simpl in Hn; try lia; [by intros [= <-]; simpl; destruct (unescape mode t)..|].
  cbn [unescape String.append]. destruct (Ascii.eqb c "%").
  - destruct s as [|a [|b s]]; [done..|]. cbn [String.append]. destruct (ishex a && ishex b); [|done].
    intros (s1 & Hs & ->)%fmap_Some. rewrite (IH s s1) by (simpl in Hn; lia || done). by rewrite <- option_fmap_compose.
  - destruct (Ascii.eqb c "+"); intros (s1 & Hs & ->)%fmap_Some; rewrite (IH s s1) by (lia || done); by rewrite <- option_fmap_compose.
Qed.

(** *** Plugins and the annotations they read *)

(** [p] mounts the same without the annotation. *)
Definition ignores (name : string) (p : Plugin (A := A) (W := W)) : Prop := forall ing, mounted p (without name ing) = mounted p ing.

Lemma mounted_compose p q ing : Mounts p -> Mounts q -> mounted (fun ctx => q (p ctx)) ing = mounted p ing ++ mounted q ing.
Proof. intros Hp Hq. unfold mounted at 1. by rewrite (mounts_spec (p := q)), (mounts_ingress (p := p)). Qed.

Lemma useRate_ignores name w n suffix : String.eqb suffix name = false -> ignores name (useRate w n suffix).
Proof.
  intros Hne ing. unfold mounted, useRate, rate. rewrite annotation_without by done. by repeat case_match.
Qed.

Lemma RateLimit_ignores name :
  String.eqb "/ratelimit-s" name = false -> String.eqb "/ratelimit-m" name = false -> String.eqb "/ratelimit-h" name = false ->
  ignores name RateLimit.
Proof.
  intros Hs Hm Hh ing. unfold RateLimit.
  pose proof (Mounts_compose (useRate Second "s" "/ratelimit-s") (useRate Minute "m" "/ratelimit-m") _ _) as Hc.
  rewrite !(mounted_compose (fun ctx => useRate Minute "m" "/ratelimit-m" (useRate Second "s" "/ratelimit-s" ctx)) (useRate Hour "h" "/ratelimit-h")),
    !(mounted_compose (useRate Second "s" "/ratelimit-s") (useRate Minute "m" "/ratelimit-m")) by apply _.
  by rewrite !useRate_ignores.
Qed.

Lemma mountedAll_ignores name ps ing : Forall (ignores name) ps -> mountedAll ps (without name ing) = mountedAll ps ing.
Proof. unfold mountedAll. induction 1 as [|p ps Hp _ IH]; [done|]. rewrite !fmap_cons. cbn [List.concat]. by rewrite IH, Hp. Qed.

Ltac ignores := intros ing; unfold mounted, zoneKey, ingressID; rewrite ?annotation_without by reflexivity;
  cbn [Ingress_ Controller.ing_Namespace Controller.ing_Name without]; by repeat case_match.

(** Only [AllowRemote] reads [allow-remote]. *)
Lemma others_ignore_allow cfg : Forall (ignores "/allow-remote") (drop 2 (plugins cfg)).
Proof.
  unfold plugins, guards, when. destruct (WAFEnabled cfg), (CorazaEnabled cfg), (RateLimitEnabled cfg), (TransformEnabled cfg); simpl.
  all: repeat (apply Forall_cons; split; [|]); try (by apply Forall_nil).
  all: first [by apply RateLimit_ignores|by intros ing; rewrite !mounted_RedirectRules|idtac].
  all: unfold WAFZone, CorazaZone, RateLimitZone, TransformZone, Transform, RedirectHTTPS, InjectHSTS, BodyLimit, UpstreamProtocol,
    UpstreamHost, UpstreamPath, OperationsTrace, BasicAuth, ForwardAuth, StripPrefix, denyAll; ignores.
Qed.

Lemma plugins_split cfg : plugins (A := A) (W := W) cfg = InjectStateIngress :: AllowRemote :: drop 2 (plugins cfg).
Proof. done. Qed.

End lemmas.
End PluginLemmas.

(** ** Properties *)

Module PluginProps.
Import GeoIP Plugin PluginLemmas.

(** *** Inputs of the witnesses *)

(** Middlewares that pass, a limiter that counts, networks of one address. *)
Definition pass : Middleware string nat := fun h => h.
#[export] Instance toyOps : PluginOps string nat string string Z := {
  block_New p inner h := fun r w => if p r then inner h r w else h r w;
  hsts_Preload := pass; hsts_Default := pass;
  FixedWindow _ n _ := fun h r w => if (n <=? Z.of_nat w)%Z then (Error "Too Many Requests" 429, w) else h r (Datatypes.S w);
  LimitRequest _ := pass; stripprefix_New _ := pass; authn_Basic _ _ := pass;
  ForwardAuthenticator _ _ _ := fun h r w =>
    if String.eqb (HeaderGet "Cookie" (r_Header r)) "ok" then h (mkRequest (r_RequestURI r) (r_Host r) (r_RemoteAddr r) (r_URL r) (HeaderSet "X-Auth-User" "alice" (r_Header r)) (r_State r)) w
    else (Error "Unauthorized" 401, w);
  SetResponse _ _ := pass;
  yaml_redirect _ := None;
  yaml_forwardAuth s := if String.eqb s "{" then None else Some (mkAuthDoc s [] ["x-auth-user"]);
  url_Parse s := Some (mkURL "http" "" s "" false "");
  url_ParseRequestURI s := Some (mkURL "" "" s "" false "");
  ParseCIDR s := if mem_char c_slash s then Some (default "" (head (split_char c_slash s))) else None;
  ParseIP s := if String.eqb s "" then None else Some s;
  Contains n ip := match ip with Some ip => String.eqb n ip | None => false end;
  ParseFloat _ := 0%Z; positive := Z.ltb 0; one := 1%Z; texporter_New _ := false; traceHandler _ _ := pass;
  LookupZone _ _ := None; LookupCorazaZone _ _ := None; LookupRateLimitZone _ _ := None; LookupTransformZone _ _ := None;
  transform_Parse _ := None;
}.
#[export] Instance toyLaws : PluginLaws string nat string string Z.
Proof. split; done. Qed.

Definition ingressWith (l : list (string * string)) : Controller.Ingress :=
  Controller.mkIngress "shop" "web" (Some "parapet") (list_to_map ((fun kv => (namespace +:+ kv.1, kv.2)) <$> l)) [] [].
Definition everything : Config := mkPluginConfig true None true true true.
Definition from (ip uri : string) : Request :=
  mkRequest uri "shop.example" (ip +:+ ":1234") (mkURL "" "" uri "" false "") ∅ ∅.
Definition upstream : Handler string nat := fun r w => (Answer (HeaderGet "X-Auth-User" (r_Header r)), w).

(** The value an ingress gives an annotation. *)
Definition value (name : string) (ing : Controller.Ingress) : string :=
  default "" (Controller.Annotations ing !! (namespace +:+ name)).

Section props.
Context {A W IP IPNet Float : Type} `{!PluginOps A W IP IPNet Float}.

(** *** Authentication *)

Definition malformedBasic (ba : string) : Prop :=
  ba <> "" /\ (mem_char c_colon ba = false \/
    exists user pass, ba = user +:+ String c_colon pass /\ mem_char c_colon user = false /\ (user = "" \/ pass = "")).

Definition malformedForward (a : string) : Prop :=
  a <> "" /\ match yaml_forwardAuth a with
             | None => True
             | Some d => a_URL d = "" \/ url_Parse (a_URL d) = None
             end.

(** C36: authentication fails closed.  When an ingress has a [basic-auth] or a
    [forward-auth] annotation that is malformed, whatever else it declares and whatever
    the middlewares do, its backend is never reached: what the routes do does not depend
    on their handlers. *)
Theorem auth_fails_closed cfg routes ing (h1 h2 : Handler A W) :
  malformedBasic (value "/basic-auth" ing) \/ malformedForward (value "/forward-auth" ing) ->
  chain cfg routes ing h1 = chain cfg routes ing h2.
Proof.
  intros Hm. rewrite !chain_mounted.
  assert (H : exists p, In p (plugins cfg) /\ mounted p ing = [fun _ => Forbidden]).
  { destruct Hm as [[Hne Hb]|[Hne Hf]].
    - exists BasicAuth. split; [apply in_or_app; right; apply in_or_app; right; simpl; tauto|].
      unfold mounted, BasicAuth. change (annotation "/basic-auth" _) with (value "/basic-auth" ing).
      destruct (String.eqb_spec (value "/basic-auth" ing) ""); [done|]. destruct Hb as [Hc|(user & pass & -> & Hc & He)].
      + by rewrite (proj2 (index_byte_none _ _) Hc).
      + rewrite index_byte_app, str_take_app by done. change (String c_colon pass) with (String c_colon "" +:+ pass).
        replace (Datatypes.S (String.length user)) with (String.length user + 1) by lia.
        rewrite str_drop_app_plus. by destruct He as [->| ->]; simpl; rewrite ?orb_true_r.
    - exists ForwardAuth. split; [apply in_or_app; right; apply in_or_app; right; simpl; tauto|].
      unfold mounted, ForwardAuth. change (annotation "/forward-auth" _) with (value "/forward-auth" ing).
      destruct (String.eqb_spec (value "/forward-auth" ing) ""); [done|]. destruct (yaml_forwardAuth _) as [d|]; [|done].
      destruct (String.eqb_spec (a_URL d) ""); [done|]. by destruct Hf as [?| ->]. }
  destruct H as (p & Hin & Hp). destruct (mountedAll_in p _ ing Hin) as (ms & ns & ->). rewrite Hp. apply deny_chain.
Qed.

(** *** The allow list *)

(** C27: the allow list decides first.  With an [allow-remote] annotation a request that
    does not ask for the ACME path and whose client address is in no network of the list
    is answered 403, and nothing else happens: no firewall, limiter, authentication or
    backend sees it.  Any other request is served as if the annotation were not there.  A
    list without a valid network blocks everything but that path. *)
Theorem allow_remote_exact {laws : PluginLaws A W IP IPNet Float} cfg routes ing (h : Handler A W) r w :
  value "/allow-remote" ing <> "" ->
  let allow := allowList (value "/allow-remote" ing) in
  chain cfg routes ing h r w =
    (if negb (has_prefix (r_RequestURI r) acme) && forallb (fun n => negb (Contains n (ClientIP r))) allow
     then (Error "Forbidden" 403, w)
     else chain cfg routes (without "/allow-remote" ing) h r w) /\
  (Forall (fun x => trim_space x = "" \/ ParseCIDR (trim_space x) = None) (split_char c_comma (value "/allow-remote" ing)) ->
   allow = []).
Proof.
  intros Hne allow. split.
  - rewrite !chain_mounted, plugins_split. unfold mountedAll. rewrite !fmap_cons. cbn [List.concat].
    fold (mountedAll (drop 2 (plugins cfg)) ing). fold (mountedAll (drop 2 (plugins cfg)) (without "/allow-remote" ing)).
    rewrite (mountedAll_ignores _ _ _ (others_ignore_allow cfg)), !ServeHandler_app.
    assert (H1 : mounted AllowRemote (without "/allow-remote" ing) = []).
    { unfold mounted, AllowRemote, annotation. cbn [Ingress_ without Controller.Annotations]. by rewrite lookup_delete_eq. }
    assert (H2 : mounted AllowRemote ing = [block_New (blocked allow) (fun _ => Forbidden)]).
    { unfold mounted, AllowRemote. change (annotation "/allow-remote" _) with (value "/allow-remote" ing).
      by destruct (String.eqb_spec (value "/allow-remote" ing) ""). }
    rewrite H1, H2. generalize (ServeHandler (mountedAll (drop 2 (plugins cfg)) ing) h). intros rest.
    set (inject := fun r => setState "ingress" (Controller.ing_Name ing) (setState "namespace" (Controller.ing_Namespace ing) r)).
    assert (HI : mounted (A := A) (W := W) InjectStateIngress ing = [rewrite_ inject] /\
                 mounted (A := A) (W := W) InjectStateIngress (without "/allow-remote" ing) = [rewrite_ inject]) by done.
    destruct HI as [-> ->]. cbn [ServeHandler foldr app]. unfold rewrite_. rewrite block_spec. unfold blocked.
    change (r_RequestURI (inject r)) with (r_RequestURI r). change (ClientIP (inject r)) with (ClientIP r : option IP).
    destruct (has_prefix (r_RequestURI r) acme); [done|]. cbn [negb andb].
    replace (negb (existsb _ allow)) with (forallb (fun n => negb (Contains n (ClientIP r))) allow); [done|].
    generalize allow. intros l. induction l as [|n l IH]; [done|]. simpl. by rewrite IH, negb_orb.
  - unfold allow, allowList. induction 1 as [|x l Hx _ IH]; [done|]. cbn [omap list_omap].
    assert (Hx' : (if String.eqb (trim_space x) "" then None else ParseCIDR (trim_space x)) = None :> option IPNet).
    { destruct Hx as [->|Hx]; [done|]. rewrite Hx. by case_match. }
    rewrite Hx'. exact IH.
Qed.

(** The exemption reaches any path.  For every clean path there is a request whose URI
    starts with the ACME path, that the mux does not redirect to a cleaned one, that no
    allow list blocks, and whose decoded path is the clean one behind two parent
    references: [/.well-known/acme-challenge/%2e%2e/%2e%2e/admin] comes from anywhere, and
    is [/admin] to a backend that resolves them. *)
Theorem acme_exemption_reaches_any_path (allow : list IPNet) p r :
  Lit.isClean p = true ->
  let uri := acme +:+ "/%2e%2e/%2e%2e" +:+ p in
  r_RequestURI r = uri ->
  Lit.isClean uri = true /\ blocked allow r = false /\
  unescape encodePath uri = (fun q => acme +:+ "/../.." +:+ q) <$> unescape encodePath p.
Proof.
  intros Hp uri Hr. unfold Lit.isClean in Hp. apply andb_prop in Hp as [Hsl Hc]. apply has_prefix_spec in Hsl as (q & ->).
  split; [|split].
  - unfold uri, Lit.isClean, acme. simpl in *. by destruct (split_char c_slash q).
  - unfold blocked. rewrite Hr. by assert (has_prefix uri acme = true) as -> by reflexivity.
  - unfold uri. rewrite <- str_app_assoc. rewrite (unescape_app _ (acme +:+ "/%2e%2e/%2e%2e") (acme +:+ "/../..")) by reflexivity.
    apply option_fmap_ext. intros t. by rewrite str_app_assoc.
Qed.

(** *** Identity headers *)

(** The headers of the request as [authResponseHeaders] leaves them. *)
Definition stamp (names : list string) (vals : gmap string string) (hdr : Header) : Header :=
  fold_left (fun hdr n => match vals !! CanonicalMIMEHeaderKey n with
                          | Some v => HeaderSet n v hdr
                          | None => HeaderDel n hdr
                          end) names hdr.

Definition setHeader (hdr : Header) (r : Request) : Request :=
  mkRequest (r_RequestURI r) (r_Host r) (r_RemoteAddr r) (r_URL r) hdr (r_State r).

Definition stamped (names : list string) (vals : gmap string string) (hdr : Header) : Prop :=
  forall n, n ∈ names -> hdr !! CanonicalMIMEHeaderKey n = (fun v => [v]) <$> vals !! CanonicalMIMEHeaderKey n.

Lemma stamp_step k n (vals : gmap string string) (hdr : Header) :
  (match vals !! CanonicalMIMEHeaderKey n with Some v => HeaderSet n v hdr | None => HeaderDel n hdr end) !! k =
  if decide (CanonicalMIMEHeaderKey n = k) then (fun v => [v]) <$> vals !! k else hdr !! k.
Proof.
  case_decide as Hk; [subst k|]; destruct (vals !! CanonicalMIMEHeaderKey n) as [v|] eqn:Hv; unfold HeaderSet, HeaderDel.
  - by rewrite lookup_insert_eq.
  - by rewrite lookup_delete_eq.
  - by rewrite lookup_insert_ne.
  - by rewrite lookup_delete_ne.
Qed.

Lemma stamp_stamped names vals hdr : stamped names vals (stamp names vals hdr).
Proof.
  enough (H : forall k, (exists n, n ∈ names /\ CanonicalMIMEHeaderKey n = k) \/ hdr !! k = (fun v => [v]) <$> vals !! k ->
            stamp names vals hdr !! k = (fun v => [v]) <$> vals !! k).
  { intros n Hn. apply H. left. by exists n. }
  unfold stamp. revert hdr. induction names as [|n names IH]; intros hdr k Hk; simpl.
  - destruct Hk as [(n & Hn & _)|Hk]; [by apply not_elem_of_nil in Hn|done].
  - apply IH. rewrite stamp_step. case_decide as Hd; [by right|].
    destruct Hk as [(m & [->|Hm]%elem_of_cons & Hk)|Hk]; [by destruct Hd|left; by exists m|by right].
Qed.

(** C26: identity headers come from the authentication server.  When a well-formed
    [forward-auth] names response headers, and the authenticator sets or deletes exactly
    those on a request it lets through, the backend only ever sees requests in which each
    of them is what the server answered: two backends that agree on such requests are
    served alike, whatever clients send and transforms, zones and the other middlewares
    do, since all of them are outside the authenticator. *)
Theorem identity_headers_from_auth cfg routes ing d u
    (auth : Request -> W -> (gmap string string + Reply A) * W) (strip : string -> Request -> URL + Reply A) (h h' : Handler A W) :
  value "/forward-auth" ing <> "" -> yaml_forwardAuth (value "/forward-auth" ing) = Some d ->
  a_URL d <> "" -> url_Parse (a_URL d) = Some u ->
  (forall g, ForwardAuthenticator u (AuthRequestHeaders d) (AuthResponseHeaders d) g =
     fun r w => match auth r w with
                | (inl vals, w) => g (setHeader (stamp (AuthResponseHeaders d) vals (r_Header r)) r) w
                | (inr rep, w) => (rep, w)
                end) ->
  (forall p g, stripprefix_New p g = fun r w => match strip p r with inl u => g (setURL u r) w | inr rep => (rep, w) end) ->
  (forall r w, (exists r0 w0 vals w1, auth r0 w0 = (inl vals, w1) /\ stamped (AuthResponseHeaders d) vals (r_Header r)) ->
     h r w = h' r w) ->
  chain cfg routes ing h = chain cfg routes ing h'.
Proof.
  intros Hne Hy Hu Hp Hfa Hst Hh. rewrite !chain_mounted.
  assert (Hsplit : plugins (A := A) (W := W) cfg = take (length (plugins (A := A) (W := W) cfg) - 2) (plugins cfg) ++ [ForwardAuth; StripPrefix]).
  { unfold plugins, guards, when. by destruct (WAFEnabled cfg), (CorazaEnabled cfg), (RateLimitEnabled cfg), (TransformEnabled cfg). }
  rewrite Hsplit, mountedAll_app, !ServeHandler_app. f_equal.
  assert (HF : mounted ForwardAuth ing =
            [SetResponse "Cache-Control" "private"; ForwardAuthenticator u (AuthRequestHeaders d) (AuthResponseHeaders d)]).
  { unfold mounted, ForwardAuth. change (annotation "/forward-auth" _) with (value "/forward-auth" ing). rewrite Hy, Hp.
    by destruct (String.eqb_spec (value "/forward-auth" ing) ""), (String.eqb_spec (a_URL d) ""). }
  unfold mountedAll. simpl. rewrite HF. simpl. f_equal. rewrite !Hfa.
  apply functional_extensionality. intros r. apply functional_extensionality. intros w.
  destruct (auth r w) as [[vals|rep] w'] eqn:Ha; [|done].
  assert (Hend : forall r' w', stamped (AuthResponseHeaders d) vals (r_Header r') -> h r' w' = h' r' w').
  { intros r' w'' Hs. apply Hh. by exists r, w, vals, w'. }
  pose proof (stamp_stamped (AuthResponseHeaders d) vals (r_Header r)) as Hs.
  unfold mounted, StripPrefix. case_match; simpl; [by apply Hend|]. rewrite !Hst.
  destruct (strip _ _); [by apply Hend|done].
Qed.

(** *** Zones *)

(** A rate-limit zone is the namespace's own.  Whatever the [ratelimit-zone] annotation
    says, the middlewares an ingress mounts for it look up, at every request, one key: a
    non-empty name without a slash in the ingress's own namespace; another namespace's
    zone, a malformed reference or no reference mounts nothing.  The other zones accept a
    reference to any namespace. *)
Theorem ratelimit_zone_is_own ing :
  mem_char c_slash (Controller.ing_Namespace ing) = false ->
  (forall ns name, value "/ratelimit-zone" ing = ns +:+ "/" +:+ name -> mem_char c_slash ns = false ->
     trim_space ns <> Controller.ing_Namespace ing -> trim_space (ns +:+ "/" +:+ name) = ns +:+ "/" +:+ name ->
     mounted (A := A) (W := W) RateLimitZone ing = []) /\
  (mounted (A := A) (W := W) RateLimitZone ing = [] \/
   exists name, name <> "" /\ mem_char c_slash name = false /\
     mounted RateLimitZone ing = [zoneMiddleware LookupRateLimitZone (Controller.ing_Namespace ing +:+ "/" +:+ name)]).
Proof.
  intros Hns. unfold mounted, RateLimitZone, zoneKey. change (annotation "/ratelimit-zone" _) with (value "/ratelimit-zone" ing).
  cbn [Ingress_]. set (own := Controller.ing_Namespace ing) in *.
  assert (Hown : forall x y, mem_char c_slash x = false -> has_prefix (x +:+ "/" +:+ y) (own +:+ "/") = true -> x = own).
  { intros x y Hx (t & Ht)%has_prefix_spec. rewrite str_app_assoc in Ht. by destruct (str_app_sep_inj c_slash x own y t Hx Hns Ht). }
  split.
  - intros ns name Hv Hnsl Hne Htrim. unfold ZoneKey. rewrite Hv, Htrim. destruct (String.eqb (ns +:+ "/" +:+ name) ""); [done|].
    change ("/" +:+ name) with (String c_slash name). rewrite index_byte_app, str_take_app by done.
    destruct (_ || _ || _); [done|].
    destruct (has_prefix _ _) eqn:Hp; [|done]. apply Hown in Hp; [done|]. by apply mem_char_trim_space.
  - destruct (ZoneKey own (value "/ratelimit-zone" ing)) as [key|] eqn:Hk; [|by left].
    destruct (has_prefix key (own +:+ "/")) eqn:Hp; [|by left]. right. simpl. unfold ZoneKey in Hk.
    destruct (String.eqb_spec (trim_space (value "/ratelimit-zone" ing)) ""); [done|].
    destruct (index_byte c_slash _) as [i|] eqn:Hi.
    + destruct (index_byte_some _ _ _ Hi) as [_ Hb].
      destruct (String.eqb_spec (trim_space (str_take i (trim_space (value "/ratelimit-zone" ing)))) ""); [done|].
      destruct (String.eqb_spec (trim_space (str_drop (Datatypes.S i) (trim_space (value "/ratelimit-zone" ing)))) ""); [done|].
      cbn [orb] in Hk. destruct (mem_char c_slash _) eqn:Hm in Hk; [done|]. injection Hk as <-.
      apply Hown in Hp as ->; [|by apply mem_char_trim_space]. by eexists.
    + injection Hk as <-. exists (trim_space (value "/ratelimit-zone" ing)). split; [done|]. split; [by apply index_byte_none|done].
Qed.

(** *** The upstream path *)

(** A path prefix decodes the path.  [UpstreamPath] puts the prefix in front of the
    decoded path and leaves the encoded one, which no longer spells it; so what is sent
    is the whole path encoded anew, in which an encoded slash of the client's path is a
    separator, and an encoded parent reference a plain one. *)
Theorem upstream_path_decodes target u p :
  unescape encodePath (RawPath u) = Some (GoURL.Path u) ->
  singleJoiningSlash p (GoURL.Path u) <> GoURL.Path u -> singleJoiningSlash p (GoURL.Path u) <> "*" ->
  GoURL.Path target = p ->
  EscapedPath (joinURL target u) = escape encodePath (singleJoiningSlash p (GoURL.Path u)).
Proof.
  intros Hraw Hne Hst <-. unfold EscapedPath, joinURL. cbn [RawPath GoURL.Path]. rewrite Hraw.
  destruct (String.eqb_spec (GoURL.Path u) (singleJoiningSlash (GoURL.Path target) (GoURL.Path u))); [congruence|].
  rewrite andb_false_r. by destruct (String.eqb_spec (singleJoiningSlash (GoURL.Path target) (GoURL.Path u)) "*").
Qed.

(** *** Redirect rules *)

(** A redirect rule whose host has a capital letter is dead.  Rules register the host
    as it is written, while requests are routed by their host in lower case: whatever
    routes are registered, no request finds such a rule, though the same spelling in the
    host of an ingress rule works. *)
Theorem uppercase_redirect_is_dead {V} (l : list (string * V)) src v host target r :
  mem_char c_slash src = false -> to_lower src <> src -> redirectSource src target = Some host ->
  to_lower (r_host r) = r_host r ->
  Lit.find (Lit.registerAll l) r <> Some (host, v).
Proof.
  intros Hsl Hup Hsrc Hlow Hf.
  assert (Hhost : host = src +:+ "/").
  { unfold redirectSource in Hsrc. case_match; [done|]. destruct (Lit.has_slash_suffix src) eqn:Hs; [|by injection Hsrc].
    unfold Lit.has_slash_suffix in Hs. by rewrite (proj2 (last_index_byte_none c_slash src) Hsl) in Hs. }
  subst host. unfold Lit.find in Hf. destruct (negb _); [done|]. destruct (_ && _); [done|].
  destruct (Lit.matchTree _ _ _) as [[k pv]|] eqn:Hm; [|done]. injection Hf as ->.
  assert (Hk : (k.1.1 = r_host r \/ k.1.1 = "") /\ Lit.registerAll l !! k = Some (src +:+ "/", v)).
  { unfold Lit.matchTree in Hm. destruct (String.eqb (r_host r) "").
    - apply Lit.matchPath_host in Hm as [? ?]. auto.
    - destruct (Lit.matchPath _ (r_host r) _ _) as [[k' pv']|] eqn:Hm'.
      + injection Hm as -> ->. apply Lit.matchPath_host in Hm' as [? ?]. auto.
      + apply Lit.matchPath_host in Hm as [? ?]. auto. }
  destruct Hk as [Hk Hl]. apply (Lit.registerAll_wf l) in Hl. unfold Lit.parsePattern in Hl.
  change (src +:+ "/") with (src +:+ String c_slash "") in Hl. rewrite index_byte_app, str_take_app in Hl by done.
  destruct (Lit.segmentsOf _) as [ss multi]. injection Hl as <-. simpl in Hk. destruct Hk as [->| ->]; done.
Qed.

End props.

(** *** The cache of geographic results *)

(** The cache is transparent and bounded.  However calls overlap -- reads and
    insertions in any order -- every cached value is what the database says, so [get]
    always returns that, and there are never more than the cap of them. *)
Theorem geoip_cache_transparent {V} (lookup : string -> V) ops key :
  let m := fold_left (runOp lookup) ops (newResultCache (V := V)) in
  (get key (lookup key) m).1 = lookup key /\ (Z.of_nat (size m) <= cacheCap)%Z.
Proof.
  assert (H : forall m, (forall k v, m !! k = Some v -> v = lookup k) /\ (Z.of_nat (size m) <= cacheCap)%Z ->
            let m' := fold_left (runOp lookup) ops m in
            (forall k v, m' !! k = Some v -> v = lookup k) /\ (Z.of_nat (size m') <= cacheCap)%Z).
  { induction ops as [|o ops IH]; intros m [Hm Hs]; [done|]. apply IH. destruct o as [k0|k0]; [done|]. unfold runOp, insertResult. split.
    - intros k v. rewrite lookup_insert. case_decide; [by intros [= <-]; subst|]. case_match; [by rewrite lookup_empty|apply Hm].
    - rewrite map_size_insert. destruct (cacheCap <=? Z.of_nat (size m))%Z eqn:Hc; [rewrite lookup_empty, map_size_empty; unfold cacheCap; lia|].
      apply Z.leb_gt in Hc. case_match; unfold id; lia. }
  destruct (H ∅) as [Hm Hs]; [split; [done|rewrite map_size_empty; unfold cacheCap; lia]|]. split; [|done].
  unfold get, hit. destruct (_ !! key) as [v|] eqn:Hk; [by apply Hm in Hk|done].
Qed.

(** *** Witnesses *)

Lemma ratelimit_zone_is_own_witness :
  mounted (A := string) (W := nat) RateLimitZone (ingressWith [("/ratelimit-zone", "bank/api")]) = [].
Proof.
  destruct (ratelimit_zone_is_own (A := string) (W := nat) (ingressWith [("/ratelimit-zone", "bank/api")]) eq_refl) as [H _].
  apply (H "bank" "api"); done.
Defined.

Lemma upstream_path_decodes_witness :
  EscapedPath (joinURL (mkURL "" "" "/api" "" false "") (mkURL "" "" "/a/b" "/a%2Fb" false "")) = "/api/a/b".
Proof.
  etransitivity; [apply (upstream_path_decodes (mkURL "" "" "/api" "" false "") (mkURL "" "" "/a/b" "/a%2Fb" false "") "/api"); done|].
  by vm_compute.
Defined.

Lemma uppercase_redirect_is_dead_witness :
  Lit.find (Lit.registerAll [("Shop.example/", 1)]) (mkMuxRequest "shop.example" "/") <> Some ("Shop.example/", 1).
Proof. apply (uppercase_redirect_is_dead [("Shop.example/", 1)] "Shop.example" 1 "Shop.example/" "https://x" (mkMuxRequest "shop.example" "/")); done. Defined.

Lemma auth_fails_closed_witness :
  chain everything ∅ (ingressWith [("/basic-auth", "alice"); ("/waf-zone", "z")]) upstream =
  chain everything ∅ (ingressWith [("/basic-auth", "alice"); ("/waf-zone", "z")]) (fun _ w => (Panic, w)).
Proof. apply auth_fails_closed. left. split; [done|by left]. Defined.

Lemma allow_remote_exact_witness :
  let ing := ingressWith [("/allow-remote", "10.0.0.1/32, bad"); ("/ratelimit-s", "3")] in
  (chain everything ∅ ing upstream (from "10.0.0.9" "/x") 0 = (Error "Forbidden" 403, 0)) /\
  (chain everything ∅ ing upstream (from "10.0.0.1" "/x") 0 =
   chain everything ∅ (without "/allow-remote" ing) upstream (from "10.0.0.1" "/x") 0).
Proof.
  intros ing. split.
  - etransitivity; [apply (allow_remote_exact everything ∅ ing upstream (from "10.0.0.9" "/x") 0); done|by vm_compute].
  - etransitivity; [apply (allow_remote_exact everything ∅ ing upstream (from "10.0.0.1" "/x") 0); done|by vm_compute].
Defined.

Lemma acme_exemption_reaches_any_path_witness :
  let uri := "/.well-known/acme-challenge/%2e%2e/%2e%2e/admin" in
  Lit.isClean uri = true /\ blocked ["10.0.0.1"] (from "10.0.0.9" uri) = false /\
  unescape encodePath uri = Some "/.well-known/acme-challenge/../../admin" /\
  snd <$> Lit.find (Lit.registerAll [("shop.example/", 1)]) (mkMuxRequest "shop.example" uri) = Some 1.
Proof.
  intros uri. destruct (acme_exemption_reaches_any_path ["10.0.0.1"] "/admin" (from "10.0.0.9" uri) eq_refl eq_refl) as (H1 & H2 & H3).
  split; [exact H1|]. split; [exact H2|]. split; [exact H3|by vm_compute].
Defined.

Definition forged : Request := setHeader {["X-Auth-User" := ["root"]; "Cookie" := ["ok"]]} (from "10.0.0.9" "/x").

Lemma identity_headers_from_auth_witness :
  let ing := ingressWith [("/forward-auth", "http://auth")] in
  chain everything ∅ ing upstream = chain everything ∅ ing (fun r w => (Answer "alice", w)) /\
  chain everything ∅ ing upstream forged 0 = (Answer "alice", 0).
Proof.
  intros ing. split; [|by vm_compute].
  apply (identity_headers_from_auth everything ∅ ing (mkAuthDoc "http://auth" [] ["x-auth-user"]) (mkURL "http" "" "http://auth" "" false "")
    (fun r w => if String.eqb (HeaderGet "Cookie" (r_Header r)) "ok" then (inl {["X-Auth-User" := "alice"]}, w) else (inr (Error "Unauthorized" 401), w))
    (fun _ r => inl (r_URL r))); [done|done|done|done| | |].
  - intros g. apply functional_extensionality. intros r. apply functional_extensionality. intros w. simpl. by case_match.
  - intros p g. apply functional_extensionality. intros [? ? ? ? ? ?]. done.
  - intros r w (r0 & w0 & vals & w1 & Ha & Hs). unfold upstream. f_equal. f_equal. case_match; [|done]. injection Ha as <- <-.
    specialize (Hs "x-auth-user" ltac:(set_solver)). unfold HeaderGet.
    change (CanonicalMIMEHeaderKey "x-auth-user") with "X-Auth-User" in Hs. change (CanonicalMIMEHeaderKey "X-Auth-User") with "X-Auth-User".
    by rewrite Hs, lookup_singleton_eq.
Defined.

End PluginProps.
