(* ===== verification/Watch.v ===== *)
(** * Watching the cluster

    Models the loops that keep a process in step with the API server:
    [src/edgecp/reload.go] with [signerreload.go], [wafreload.go], [ratelimitreload.go],
    [corazareload.go], [cachereload.go] and [ingressreload.go] (module [Relist]: a watch
    that only triggers full reloads), and the start and the watches of
    [src/controller.go] (modules [Startup] and [Mirror]: a list with retry, then a watch
    that is replayed into a store).

    The API server is part of the state: its objects, and the events of an open watch
    that are not yet received.  A watch can close at any moment and lose a suffix of
    them.  The steps are executable ([step]), one per communication of the code. *)

From S2P Require Import Prelude GoString Route Certs Controller Reload EdgeStores Signer EdgeServer Rotation.

Set Default Proof Using "Type".

(** ** The control plane's reloaders *)

Module Relist.
Import Controller Reload EdgeStores.

(** What a reloader is to the loop: the key of an object, the events its [drain] heeds,
    its [reload] on a list, and the writes of other goroutines to the same store. *)
Record Reloader (V T : Type) := mkReloader {
  r_key : V -> string;
  r_relevant : string -> bool;
  r_reload : list V -> T -> T;
  r_Other : Type;
  r_other : r_Other -> T -> T;
}.
Arguments mkReloader {V T}.
Arguments r_key {V T}.
Arguments r_relevant {V T}.
Arguments r_reload {V T}.
Arguments r_Other {V T}.
Arguments r_other {V T}.

(** What the loop needs of a reloader: a second reload of the same list changes nothing,
    objects whose events it ignores do not matter, and other goroutines leave the part
    it writes alone. *)
Class ReloaderLaws {V T} (r : Reloader V T) : Prop := {
  reload_idem l s : r_reload r l (r_reload r l s) = r_reload r l s;
  reload_relevant l s :
    r_reload r l s = r_reload r (filter (fun v => r_relevant r (r_key r v)) l) s;
  reload_other l x s : r_reload r l s = s -> r_reload r l (r_other r x s) = r_other r x s;
}.

(** A list of the API server, in the order of the keys. *)
Definition listing {V} (c : gmap string V) : list V :=
  omap (fun k => c !! k) (merge_sort str_le (elements (dom c))).

Section loop.
Context {V T : Type} (r : Reloader V T).

(** Where the goroutine is: retrying the watch, in a list, storing what it listed,
    in the two selects of [drain], or returned. *)
Inductive phase := Connecting | Listing | Applying (l : list V) | Waiting | Coalescing | Stopped.

Record world := mkWorld {
  cluster : gmap string V;
  queue : list string;       (* the keys of the events not received *)
  live : bool;               (* the watch is open *)
  ph : phase;
  store : T;
  failed : bool;             (* the last list failed *)
}.

Inductive action :=
| Change (k : string) (o : option V)   (* the API server stores or deletes an object *)
| Other (x : r_Other r)                (* another goroutine writes the store *)
| Watch (ok : bool) (initial : list string)
| List_ (ok : bool)
| Apply
| Close (n : nat)                      (* the watch closes after n more events *)
| Recv                                 (* from the watch, or that it is closed *)
| Timer
| Cancel.

Definition at_ (p : phase) (w : world) : world :=
  mkWorld (cluster w) (queue w) (live w) p (store w) (failed w).
Definition to (p : phase) (q : list string) (w : world) : world :=
  mkWorld (cluster w) q (live w) p (store w) (failed w).
Definition hangUp (p : phase) (w : world) : world :=
  mkWorld (cluster w) [] false p (store w) (failed w).

Definition change (k : string) (o : option V) (w : world) : world :=
  mkWorld (partial_alter (fun _ => o) k (cluster w)) (if live w then queue w ++ [k] else queue w)
    (live w) (ph w) (store w) (failed w).

Definition keyedAt (k : string) (o : option V) : bool :=
  match o with Some v => String.eqb (r_key r v) k | None => true end.

(** A receive from the watch in either select. *)
Definition recv (w : world) : option world :=
  match ph w, queue w with
  | Waiting, k :: q => Some (to (if r_relevant r k then Coalescing else Waiting) q w)
  | Coalescing, k :: q => Some (to Coalescing q w)
  | Waiting, [] => if live w then None else Some (hangUp Connecting w)
  | Coalescing, [] => if live w then None else Some (at_ Listing w)
  | _, _ => None
  end.

(** [drain]: what its two selects choose from. *)
Definition drain (a : action) (w : world) : option world :=
  match a with
  | Recv => recv w
  | Timer => match ph w with Coalescing => Some (at_ Listing w) | _ => None end
  | Cancel => match ph w with Waiting | Coalescing => Some (hangUp Stopped w) | _ => None end
  | _ => None
  end.

(** The API server, the other goroutines and [watchAndRelist]. *)
Definition step (a : action) (w : world) : option world :=
  match a with
  | Change k o => if keyedAt k o then Some (change k o w) else None
  | Other x => Some (mkWorld (cluster w) (queue w) (live w) (ph w) (r_other r x (store w)) (failed w))
  | Watch ok initial =>
      match ph w with
      | Connecting => if ok then Some (mkWorld (cluster w) initial true Listing (store w) (failed w))
                      else Some w
      | _ => None
      end
  | List_ ok =>
      match ph w with
      | Listing => if ok then Some (at_ (Applying (listing (cluster w))) w)
                   else Some (mkWorld (cluster w) (queue w) (live w) Waiting (store w) true)
      | _ => None
      end
  | Apply =>
      match ph w with
      | Applying l => Some (mkWorld (cluster w) (queue w) (live w) Waiting (r_reload r l (store w)) false)
      | _ => None
      end
  | Close n =>
      if live w then Some (mkWorld (cluster w) (take n (queue w)) false (ph w) (store w) (failed w)) else None
  | Recv | Timer => drain a w
  | Cancel => match ph w with Connecting => Some (hangUp Stopped w) | _ => drain Cancel w end
  end.

Fixpoint runs (tr : list action) (w : world) : option world :=
  match tr with [] => Some w | a :: tr => match step a w with Some w => runs tr w | None => None end end.

(** [Start]: whatever the store holds before. *)
Definition initial (c : gmap string V) (s : T) : world := mkWorld c [] false Connecting s false.

(** A reload now would change nothing. *)
Definition inSync (w : world) : Prop := r_reload r (listing (cluster w)) (store w) = store w.

(** Rest: the goroutine waits on an open watch that has nothing to say. *)
Definition atRest (w : world) : Prop := ph w = Waiting /\ live w = true /\ queue w = [].

(** The last list failed, and no event is queued that would trigger another. *)
Definition forgotten (w : world) : Prop :=
  failed w = true /\ ph w = Waiting /\ live w = true /\ Forall (fun k => r_relevant r k = false) (queue w).

(** The steps that neither the environment makes nor a failure. *)
Definition quiet (a : action) : Prop :=
  match a with Watch true [] | List_ true | Apply | Recv | Timer => True | _ => False end.

(** What the loop has left to do, in steps. *)
Definition work (w : world) : nat :=
  4 * length (queue w) +
  match ph w with
  | Connecting => 3
  | Listing => 2 + if live w then 0 else 4
  | Applying _ => 1 + if live w then 0 else 4
  | Waiting => if live w then 0 else 4
  | Coalescing => 3 + if live w then 0 else 4
  | Stopped => 0
  end.
End loop.
Arguments world : clear implicits.
Arguments Connecting {V}.
Arguments Listing {V}.
Arguments Applying {V}.
Arguments Waiting {V}.
Arguments Coalescing {V}.
Arguments Stopped {V}.
Arguments mkWorld {V T}.
Arguments cluster {V T}.
Arguments queue {V T}.
Arguments live {V T}.
Arguments ph {V T}.
Arguments store {V T}.
Arguments failed {V T}.
Arguments work {V T}.
Arguments initial {V T}.
Arguments atRest {V T}.
Arguments Change {V T r}.
Arguments Other {V T r}.
Arguments Watch {V T r}.
Arguments List_ {V T r}.
Arguments Apply {V T r}.
Arguments Close {V T r}.
Arguments Recv {V T r}.
Arguments Timer {V T r}.
Arguments Cancel {V T r}.

(** *** The reloaders *)

(** The fields of a [v1.Secret] that the reloaders read. *)
Record V1Secret := mkV1 { v_Namespace : string; v_Type : string; v_Secret : Rotation.Secret }.

Definition SecretTypeTLS : string := "kubernetes.io/tls".
Definition v_Name (s : V1Secret) : string := Rotation.s_Name (v_Secret s).
Definition secretKey (s : V1Secret) : string := objectKey (v_Namespace s) (v_Name s).
Definition cmKey (cm : ConfigMap) : string := objectKey (cm_Namespace cm) (cm_Name cm).
Definition ingKey (i : Ingress) : string := objectKey (ing_Namespace i) (ing_Name i).
Definition all (_ : string) : bool := true.

(** [Reloader.reload]: the pairs it collects. *)
Definition tlsPair (skipSecret : string) (s : V1Secret) : option CPCerts.PEMPair :=
  if negb (String.eqb skipSecret "") && String.eqb (v_Name s) skipSecret then None
  else if negb (String.eqb (v_Type s) SecretTypeTLS) then None
  else if String.eqb (Rotation.field "tls.crt" (v_Secret s)) "" then None
  else Some (CPCerts.mkPair (Rotation.field "tls.crt" (v_Secret s)) (Rotation.field "tls.key" (v_Secret s))).

Section reloaders.
Context {Cert Pub Key : Type} `{!PKIOps Cert Pub Key} `{!EtagOps}.
Context (sanDNSNames : string -> list string) (etagOf : string -> string -> string).

Definition NewReloader (skipSecret : string) : Reloader V1Secret CPCerts.CertStore :=
  mkReloader secretKey all
    (fun l => CPCerts.Set_ sanDNSNames etagOf etagOfString (omap (tlsPair skipSecret) l))
    Empty_set (fun x _ => match x with end).

(** [isCASecret], on the secrets of one namespace, where the name is the key.  The
    signer's server also records issuances. *)
Definition NewSignerReloader (caSecret : string) (ttl skew : Z) :
    Reloader V1Secret (Rotation.gauges * EdgeServer.Server Cert Key) :=
  mkReloader v_Name (fun k => String.eqb k caSecret)
    (fun l st => Rotation.reload caSecret ttl skew (v_Secret <$> l) st.1 st.2)
    (string * string) (fun x st => (st.1, EdgeServer.recordIssuance x.1 x.2 st.2)).

(** The other writer of a rule store is the [IngressReloader]. *)
Definition bindings : Type := gmap string string * gmap string string * list string.
Definition bind {D} (fp : Store D -> string) (b : bindings) : Store D -> Store D :=
  SetIngressDerived fp b.1.1 b.1.2 b.2.

Definition NewWafReloader (podNamespace : string) : Reloader ConfigMap (Store string) :=
  mkReloader cmKey all (reloadWaf podNamespace) bindings (bind wafFingerprint).
Definition NewRateLimitReloader (podNamespace : string) : Reloader ConfigMap (Store (list string)) :=
  mkReloader cmKey all (reloadRateLimit podNamespace) bindings (bind rateLimitFingerprint).
Definition NewCorazaReloader (podNamespace : string) : Reloader ConfigMap (Store string) :=
  mkReloader cmKey all (reloadCoraza podNamespace) bindings (bind corazaFingerprint).
Definition NewCacheReloader (podNamespace : string) : Reloader ConfigMap (Store (list string)) :=
  mkReloader cmKey all (reloadCache podNamespace) bindings (bind cacheFingerprint).

(** The other writers of what the ingresses feed are the four rule reloaders. *)
Inductive ruleWrite :=
| WafWrite (podNamespace : string) (cms : list ConfigMap)
| RateLimitWrite (podNamespace : string) (cms : list ConfigMap)
| CorazaWrite (podNamespace : string) (cms : list ConfigMap)
| CacheWrite (podNamespace : string) (cms : list ConfigMap).

Definition writeRules (x : ruleWrite) (ss : Stores) : Stores :=
  match x with
  | WafWrite p cms => mkStores (reloadWaf p cms <$> st_waf ss) (st_coraza ss) (st_rl ss) (st_cache ss) (st_hosts ss)
  | RateLimitWrite p cms => mkStores (st_waf ss) (st_coraza ss) (reloadRateLimit p cms <$> st_rl ss) (st_cache ss) (st_hosts ss)
  | CorazaWrite p cms => mkStores (st_waf ss) (reloadCoraza p cms <$> st_coraza ss) (st_rl ss) (st_cache ss) (st_hosts ss)
  | CacheWrite p cms => mkStores (st_waf ss) (st_coraza ss) (st_rl ss) (reloadCache p cms <$> st_cache ss) (st_hosts ss)
  end.

Definition NewIngressReloader : Reloader Ingress Stores :=
  mkReloader ingKey all reloadIngress ruleWrite writeRules.


(** Every reloader has a [drain] of its own. *)
Definition certDrain (skipSecret : string) := drain (NewReloader skipSecret).
Definition signerDrain (caSecret : string) (ttl skew : Z) := drain (NewSignerReloader caSecret ttl skew).
Definition wafDrain (podNamespace : string) := drain (NewWafReloader podNamespace).
Definition rateLimitDrain (podNamespace : string) := drain (NewRateLimitReloader podNamespace).
Definition corazaDrain (podNamespace : string) := drain (NewCorazaReloader podNamespace).
Definition cacheDrain (podNamespace : string) := drain (NewCacheReloader podNamespace).
Definition ingressDrain := drain NewIngressReloader.

End reloaders.
#[global] Typeclasses Opaque NewReloader NewSignerReloader NewWafReloader NewRateLimitReloader
  NewCorazaReloader NewCacheReloader NewIngressReloader.
End Relist.

(** *** Lemmas *)

Module RelistLemmas.
Import Controller Reload EdgeStores Relist.

Lemma StronglySorted_filter {A} (R : A -> A -> Prop) (P : A -> Prop) `{!forall x, Decision (P x)} l :
  StronglySorted R l -> StronglySorted R (filter P l).
Proof.
  induction 1 as [|x l Hl IH Hx]; [constructor|]. rewrite filter_cons. case_decide; [|done].
  constructor; [done|]. rewrite Forall_forall in *. intros y [_ Hy]%list_elem_of_filter. by apply Hx.
Qed.

Definition sortedKeysOf {V} (c : gmap string V) : list string := merge_sort str_le (elements (dom c)).

Lemma sortedKeysOf_sorted {V} (c : gmap string V) : StronglySorted str_le (sortedKeysOf c).
Proof. apply (StronglySorted_merge_sort str_le). Qed.

Lemma sortedKeysOf_elem {V} (c : gmap string V) k : k ∈ sortedKeysOf c <-> is_Some (c !! k).
Proof. unfold sortedKeysOf. by rewrite (merge_sort_Permutation str_le), elem_of_elements, elem_of_dom. Qed.

Lemma sortedKeysOf_nodup {V} (c : gmap string V) : NoDup (sortedKeysOf c).
Proof. unfold sortedKeysOf. rewrite (merge_sort_Permutation str_le). apply NoDup_elements. Qed.

(** The listed objects of the keys a test selects. *)
Lemma filter_listing {V} (key : V -> string) (P : string -> bool) (c : gmap string V) :
  (forall k v, c !! k = Some v -> key v = k) ->
  filter (fun v => P (key v)) (listing c) = omap (fun k => c !! k) (filter P (sortedKeysOf c)).
Proof.
  intros Hk. unfold listing. fold (sortedKeysOf c).
  assert (H : Forall (fun k => forall v, c !! k = Some v -> key v = k) (sortedKeysOf c)).
  { apply Forall_forall. intros k _ v. apply Hk. }
  revert H. generalize (sortedKeysOf c). induction l as [|k l IH]; [done|].
  intros [Hkv H]%Forall_cons. rewrite filter_cons. cbn [omap list_omap].
  destruct (c !! k) as [v|] eqn:Hv.
  - rewrite filter_cons, (Hkv v eq_refl). case_decide; [|by apply IH].
    cbn [omap list_omap]. rewrite Hv. f_equal. by apply IH.
  - rewrite IH by done. case_decide; [|done]. cbn [omap list_omap]. by rewrite Hv.
Qed.

(** A change at a key that the test rejects is not seen among the selected objects. *)
Lemma filter_listing_alter {V} (key : V -> string) (P : string -> bool) (c : gmap string V) k o :
  (forall k v, c !! k = Some v -> key v = k) -> (forall v, o = Some v -> key v = k) -> P k = false ->
  filter (fun v => P (key v)) (listing (partial_alter (fun _ => o) k c)) =
  filter (fun v => P (key v)) (listing c).
Proof.
  intros Hc Ho HP. rewrite !filter_listing; [|done|].
  2:{ intros k' v. destruct (decide (k' = k)) as [-> | Hne].
      - rewrite lookup_partial_alter_eq. apply Ho.
      - rewrite lookup_partial_alter_ne by done. apply Hc. }
  assert (Hsame : filter P (sortedKeysOf (partial_alter (fun _ => o) k c)) = filter P (sortedKeysOf c)).
  { apply (StronglySorted_unique str_le); [apply StronglySorted_filter, sortedKeysOf_sorted..|].
    apply NoDup_Permutation; [apply NoDup_filter, sortedKeysOf_nodup..|].
    intros k'. rewrite !list_elem_of_filter, !sortedKeysOf_elem.
    destruct (decide (k' = k)) as [->|]; [rewrite HP; naive_solver|]. by rewrite lookup_partial_alter_ne. }
  rewrite Hsame. assert (H : Forall (fun k' => k' <> k) (filter P (sortedKeysOf c))).
  { apply Forall_forall. intros k' [HP' _]%list_elem_of_filter ->. by rewrite HP in HP'. }
  revert H. generalize (filter P (sortedKeysOf c)). induction l as [|k' l IH]; [done|].
  intros [Hne H]%Forall_cons. cbn [omap list_omap]. rewrite lookup_partial_alter_ne, IH by done. done.
Qed.

(** **** The stores are gated by their content *)

Section stores.
Set Default Proof Using "Type*".
Context `{!EtagOps} {D : Type} (fp : Store D -> string).
Context (fp_content : forall s g e, fp (mkStore (global s) (zones s) (hostZone s) (routeZone s) (hosts s) g e) = fp s).

Definition gated (s : Store D) : Prop := curEtag s = etagOfString (fp s).

Lemma recompute_gated s : gated (recompute fp s).
Proof.
  unfold gated, recompute. destruct (String.eqb_spec (curEtag s) (etagOfString (fp s))); [done|].
  simpl. by rewrite fp_content.
Qed.

Lemma recompute_id s : gated s -> recompute fp s = s.
Proof. unfold gated, recompute. intros ->. by rewrite String.eqb_refl. Qed.

Lemma recompute_content s :
  global (recompute fp s) = global s /\ zones (recompute fp s) = zones s /\
  hostZone (recompute fp s) = hostZone s /\ routeZone (recompute fp s) = routeZone s /\
  hosts (recompute fp s) = hosts s.
Proof. unfold recompute. by case_match. Qed.

(** [SetGlobal] then [SetZones], the body of the four rule reloads. *)
Definition setRules (g : D) (zs : gmap string D) (s : Store D) : Store D :=
  SetZones fp zs (SetGlobal fp g s).

Lemma setRules_fixed g zs s : setRules g zs s = s <-> global s = g /\ zones s = zs /\ gated s.
Proof.
  split.
  - intros <-. unfold setRules, SetZones. split_and!; [..|apply recompute_gated].
    + rewrite (proj1 (recompute_content _)). simpl. unfold SetGlobal. apply recompute_content.
    + by rewrite (proj1 (proj2 (recompute_content _))).
  - destruct s. intros (<- & <- & Hg). unfold setRules, SetZones, SetGlobal. simpl in *.
    rewrite (recompute_id _ Hg). simpl. by rewrite (recompute_id _ Hg).
Qed.

Lemma setRules_idem g zs s : setRules g zs (setRules g zs s) = setRules g zs s.
Proof.
  apply setRules_fixed. unfold setRules, SetZones. split_and!; [..|apply recompute_gated].
  - rewrite (proj1 (recompute_content _)). simpl. unfold SetGlobal. apply recompute_content.
  - by rewrite (proj1 (proj2 (recompute_content _))).
Qed.

Lemma setRules_bind g zs b s : setRules g zs s = s -> setRules g zs (bind fp b s) = bind fp b s.
Proof.
  rewrite !setRules_fixed. intros (<- & <- & _). unfold bind, SetIngressDerived.
  split_and!; [..|apply recompute_gated]; by rewrite ?(proj1 (recompute_content _)), ?(proj1 (proj2 (recompute_content _))).
Qed.

Lemma bind_fixed b s :
  bind fp b s = s <-> hostZone s = b.1.1 /\ routeZone s = b.1.2 /\ hosts s = b.2 /\ gated s.
Proof.
  split.
  - intros <-. unfold bind, SetIngressDerived. split_and!; [..|apply recompute_gated]; apply recompute_content.
  - destruct s. intros (H1 & H2 & H3 & Hg). simpl in *. subst. unfold bind, SetIngressDerived. simpl.
    by rewrite (recompute_id _ Hg).
Qed.

Lemma bind_idem b s : bind fp b (bind fp b s) = bind fp b s.
Proof. apply bind_fixed. unfold bind, SetIngressDerived. split_and!; [..|apply recompute_gated]; apply recompute_content. Qed.

Lemma bind_setRules g zs b s : bind fp b s = s -> bind fp b (setRules g zs s) = setRules g zs s.
Proof.
  rewrite !bind_fixed. intros (<- & <- & <- & _). unfold setRules, SetZones.
  destruct (recompute_content (mkStore g (zones s) (hostZone s) (routeZone s) (hosts s) (gen s) (curEtag s)))
    as (_ & _ & H1 & H2 & H3).
  destruct (recompute_content (mkStore (global (SetGlobal fp g s)) zs (hostZone (SetGlobal fp g s))
      (routeZone (SetGlobal fp g s)) (hosts (SetGlobal fp g s)) (gen (SetGlobal fp g s))
      (curEtag (SetGlobal fp g s)))) as (_ & _ & H4 & H5 & H6).
  split_and!; [by rewrite H4|by rewrite H5|by rewrite H6|apply recompute_gated].
Qed.
End stores.

Lemma SetHosts_idem `{!EtagOps} hs s : SetHosts hs (SetHosts hs s) = SetHosts hs s.
Proof.
  unfold SetHosts at 2 3. destruct (String.eqb_spec (h_etag s) (etagOfString (concatStrings ((fun h => h +:+ byte 0) <$> hs)))) as [He|];
    unfold SetHosts; simpl; rewrite ?He, String.eqb_refl; by rewrite ?He.
Qed.
(** **** The reloaders keep the laws *)

Lemma heeds_all {V T} (r : Reloader V T) :
  (forall k, r_relevant r k = true) ->
  forall l s, r_reload r l s = r_reload r (filter (fun v => r_relevant r (r_key r v)) l) s.
Proof.
  intros H l s. f_equal. induction l as [|x l IH]; [done|].
  rewrite filter_cons, decide_True by (by rewrite H). by rewrite <- IH.
Qed.

Section laws.
Context {Cert Pub Key : Type} `{!PKIOps Cert Pub Key} `{!EtagOps}.
Context (sanDNSNames : string -> list string) (etagOf : string -> string -> string).

#[export] Instance certReloaderLaws skip : ReloaderLaws (NewReloader sanDNSNames etagOf skip).
Proof.
  split; [done|by apply heeds_all|intros _ []].
Qed.

Lemma find_relevant caSecret l :
  List.find (fun s => String.eqb (Rotation.s_Name s) caSecret) (v_Secret <$> l) =
  List.find (fun s => String.eqb (Rotation.s_Name s) caSecret)
    (v_Secret <$> filter (fun v => String.eqb (v_Name v) caSecret) l).
Proof.
  induction l as [|v l IH]; [done|]. rewrite fmap_cons, filter_cons. simpl. unfold v_Name in *.
  destruct (String.eqb (Rotation.s_Name (v_Secret v)) caSecret) eqn:E.
  - rewrite decide_True by done. simpl. by rewrite E.
  - by rewrite decide_False by naive_solver.
Qed.

Lemma signer_reload_idem caSecret ttl skew secs (st : Rotation.gauges * EdgeServer.Server Cert Key) :
  let reload st := Rotation.reload caSecret ttl skew secs st.1 st.2 in reload (reload st) = reload st.
Proof.
  destruct st as [g srv]. cbv beta zeta. unfold Rotation.reload at 2 3. simpl.
  destruct (List.find _ secs) as [sec|] eqn:Hf; [|by unfold Rotation.reload; rewrite Hf].
  destruct (String.eqb (Rotation.field "tls.crt" sec) "") eqn:Hcrt;
    [by unfold Rotation.reload; rewrite Hf, Hcrt|].
  destruct (EdgeServer.rvToU64 (Rotation.s_ResourceVersion sec)) as [generation|] eqn:Hrv;
    [|by unfold Rotation.reload; rewrite Hf, Hcrt, Hrv].
  set (new := String.eqb (Rotation.annotation Rotation.caActiveAnnotation sec) Rotation.caActiveNew).
  destruct (String.eqb (if new then _ else _) "") eqn:Hkey;
    [by unfold Rotation.reload; rewrite Hf, Hcrt, Hrv; fold new; rewrite Hkey|].
  destruct (Signer.NewProvidedSignerActive _ _ _ ttl skew) as [[cand ws]|e] eqn:Hn.
  2:{ unfold Rotation.reload. rewrite Hf, Hcrt, Hrv. fold new. rewrite Hkey, Hn. simpl. by destruct new. }
  destruct (String.eqb (Signer.CAID cand) (EdgeServer.CurrentCAID srv) && _) eqn:Hsame.
  - unfold Rotation.reload. rewrite Hf, Hcrt, Hrv. fold new. rewrite Hkey, Hn. cbn [fst snd].
    rewrite Hsame. simpl. by destruct new.
  - unfold Rotation.reload. rewrite Hf, Hcrt, Hrv. fold new. rewrite Hkey, Hn. cbn [fst snd].
    destruct (EdgeServerLemmas.SetSigner_cases cand generation srv) as [(st & Hst & Hle & Heq)|(Hlt & Hset & Hgn)].
    + rewrite Heq, Hsame. rewrite Heq. simpl. clear. clearbody new. by destruct new.
    + rewrite Hsame. unfold EdgeServer.CurrentCAID, EdgeServer.CurrentActiveFP, EdgeServer.currentSignerKey.
      rewrite Hset. simpl. rewrite !String.eqb_refl. simpl. clear. clearbody new. by destruct new.
Qed.

Ltac kept := let H := fresh in intros [H _]%pair_equal_spec; f_equal; exact H.

(** An issuance is not seen by the reload of the signer. *)
Lemma signer_reload_frame caSecret ttl skew secs g (srv srv' : EdgeServer.Server Cert Key) :
  EdgeServer.signerState srv' = EdgeServer.signerState srv ->
  Rotation.reload caSecret ttl skew secs g srv = (g, srv) ->
  Rotation.reload caSecret ttl skew secs g srv' = (g, srv').
Proof.
  intros Hs. unfold Rotation.reload, EdgeServer.CurrentCAID, EdgeServer.CurrentActiveFP,
    EdgeServer.currentSignerKey. rewrite Hs.
  destruct (List.find _ secs) as [sec|]; [|kept].
  case_match; [kept|].
  destruct (EdgeServer.rvToU64 _) as [generation|]; [|kept].
  case_match; [kept|].
  destruct (Signer.NewProvidedSignerActive _ _ _ ttl skew) as [[cand ws]|e]; [|kept].
  destruct (String.eqb (Signer.CAID cand) _ && _); [kept|]. intros [Hg Hsrv]%pair_equal_spec. f_equal; [exact Hg|].
  destruct (EdgeServerLemmas.SetSigner_cases cand generation srv) as [(st & Hst & Hle & _)|(_ & _ & Hgn)].
  - unfold EdgeServer.SetSigner. rewrite Hs, Hst. by rewrite (proj2 (Z.leb_le _ _) Hle).
  - rewrite Hsrv in Hgn. lia.
Qed.

#[export] Instance signerReloaderLaws caSecret ttl skew :
  ReloaderLaws (NewSignerReloader (Cert := Cert) (Pub := Pub) (Key := Key) caSecret ttl skew).
Proof.
  split; simpl.
  - intros l s. apply (signer_reload_idem caSecret ttl skew (v_Secret <$> l) s).
  - intros l s. unfold Rotation.reload. by rewrite find_relevant.
  - intros l x [g srv] Hs. by apply signer_reload_frame with srv.
Qed.

Ltac content := by intros [] ? ?.
Ltac fold_rules fp :=
  repeat match goal with
  | |- context [SetZones fp ?zs (SetGlobal fp ?g ?s)] => change (SetZones fp zs (SetGlobal fp g s)) with (setRules fp g zs s)
  end.

#[export] Instance wafReloaderLaws pod : ReloaderLaws (NewWafReloader pod).
Proof.
  split; [intros l s|by apply heeds_all|intros l x s].
  - unfold NewWafReloader, reloadWaf. cbn [r_reload]. cbv zeta. fold_rules wafFingerprint.
    apply setRules_idem. content.
  - unfold NewWafReloader, reloadWaf. cbn [r_reload r_other]. cbv zeta. fold_rules wafFingerprint.
    apply setRules_bind. content.
Qed.
#[export] Instance rateLimitReloaderLaws pod : ReloaderLaws (NewRateLimitReloader pod).
Proof.
  split; [intros l s|by apply heeds_all|intros l x s].
  - unfold NewRateLimitReloader, reloadRateLimit. cbn [r_reload]. cbv zeta. fold_rules rateLimitFingerprint.
    apply setRules_idem. content.
  - unfold NewRateLimitReloader, reloadRateLimit. cbn [r_reload r_other]. cbv zeta. fold_rules rateLimitFingerprint.
    apply setRules_bind. content.
Qed.
#[export] Instance corazaReloaderLaws pod : ReloaderLaws (NewCorazaReloader pod).
Proof.
  split; [intros l s|by apply heeds_all|intros l x s].
  - unfold NewCorazaReloader, reloadCoraza. cbn [r_reload]. cbv zeta. fold_rules corazaFingerprint.
    apply setRules_idem. content.
  - unfold NewCorazaReloader, reloadCoraza. cbn [r_reload r_other]. cbv zeta. fold_rules corazaFingerprint.
    apply setRules_bind. content.
Qed.
#[export] Instance cacheReloaderLaws pod : ReloaderLaws (NewCacheReloader pod).
Proof.
  split; [intros l s|by apply heeds_all|intros l x s].
  - unfold NewCacheReloader, reloadCache. cbn [r_reload]. cbv zeta. fold_rules cacheFingerprint.
    apply setRules_idem. content.
  - unfold NewCacheReloader, reloadCache. cbn [r_reload r_other]. cbv zeta. fold_rules cacheFingerprint.
    apply setRules_bind. content.
Qed.

Lemma fmap_fixed {A} (f g : A -> A) (o : option A) :
  (forall a, f a = a -> f (g a) = g a) -> f <$> o = o -> f <$> (g <$> o) = g <$> o.
Proof. destruct o; [|done]. intros Hfg [= Hf]. simpl. by rewrite Hfg. Qed.

Lemma fmap_idem {A} (f : A -> A) (o : option A) :
  (forall a, f (f a) = f a) -> f <$> (f <$> o) = f <$> o.
Proof. destruct o; [|done]. intros Hf. simpl. by rewrite Hf. Qed.

#[export] Instance ingressReloaderLaws : ReloaderLaws NewIngressReloader.
Proof.
  split; [intros l s|by apply heeds_all|intros l x [w c r h ho]].
  - destruct s as [w c r h ho]. unfold NewIngressReloader. simpl. unfold reloadIngress. simpl. f_equal; apply fmap_idem; intros s.
    + apply (bind_idem wafFingerprint ltac:(content) (_, _, _)).
    + apply (bind_idem corazaFingerprint ltac:(content) (_, _, _)).
    + apply (bind_idem rateLimitFingerprint ltac:(content) (_, _, _)).
    + apply (bind_idem cacheFingerprint ltac:(content) (_, _, _)).
    + apply SetHosts_idem.
  - intros [= H1 H2 H3 H4 H5].
    destruct x; unfold NewIngressReloader; simpl; unfold reloadIngress; simpl; rewrite ?H1, ?H2, ?H3, ?H4, ?H5; f_equal.
    all: apply fmap_fixed; [|done]; intros s Hs.
    + apply (bind_setRules wafFingerprint ltac:(content) _ _ (_, _, _)), Hs.
    + apply (bind_setRules rateLimitFingerprint ltac:(content) _ _ (_, _, _)), Hs.
    + apply (bind_setRules corazaFingerprint ltac:(content) _ _ (_, _, _)), Hs.
    + apply (bind_setRules cacheFingerprint ltac:(content) _ _ (_, _, _)), Hs.
Qed.

End laws.

(** **** The loop *)

Section loop.
Context {V T : Type} (r : Reloader V T) `{!ReloaderLaws r}.

Lemma runs_app tr1 tr2 w : runs r (tr1 ++ tr2) w = runs r tr1 w ≫= runs r tr2.
Proof. revert w. induction tr1 as [|a tr1 IH]; intros w; simpl; [done|]. by destruct (step r a w). Qed.

(** What is not announced by a queued event is already in the list under way, or in the
    store. *)
Record Inv (w : world V T) : Prop := {
  inv_keyed : forall k v, cluster w !! k = Some v -> r_key r v = k;
  inv_closed : ph w = Connecting \/ ph w = Stopped -> live w = false;
  inv_applying : live w = true -> Forall (fun k => r_relevant r k = false) (queue w) ->
    forall l, ph w = Applying l -> forall s, r_reload r (listing (cluster w)) s = r_reload r l s;
  inv_waiting : live w = true -> Forall (fun k => r_relevant r k = false) (queue w) ->
    ph w = Waiting -> failed w = false -> inSync r w;
}.

Lemma initial_inv c s : (forall k v, c !! k = Some v -> r_key r v = k) -> Inv (initial c s).
Proof. by split. Qed.

(** A change whose event is ignored changes no reload. *)
Lemma change_irrelevant c k o s :
  (forall k v, c !! k = Some v -> r_key r v = k) -> keyedAt r k o = true -> r_relevant r k = false ->
  r_reload r (listing (partial_alter (fun _ => o) k c)) s = r_reload r (listing c) s.
Proof.
  intros Hc Ho Hk. rewrite reload_relevant. rewrite (filter_listing_alter (r_key r)); [|done| |done].
  - by rewrite <- reload_relevant.
  - intros v ->. by apply String.eqb_eq.
Qed.

Lemma change_inv k o w : Inv w -> keyedAt r k o = true -> Inv (change k o w).
Proof.
  intros [Hk Hc Ha Hw] Ho. split; simpl; [|done|..].
  - intros k' v. destruct (decide (k' = k)) as [->|Hne].
    + rewrite lookup_partial_alter_eq. intros ->. by apply String.eqb_eq.
    + rewrite lookup_partial_alter_ne by done. apply Hk.
  - intros Hl. rewrite Hl. intros [Hq [Hrel _]%Forall_cons]%Forall_app l Hp s.
    rewrite change_irrelevant by done. by apply Ha.
  - intros Hl. rewrite Hl. intros [Hq [Hrel _]%Forall_cons]%Forall_app Hp Hf.
    unfold inSync. simpl. rewrite change_irrelevant by done. by apply Hw.
Qed.

Lemma recv_inv w w' : Inv w -> recv r w = Some w' -> Inv w'.
Proof.
  intros [Hk Hc Ha Hw] Hs. unfold recv in Hs.
  destruct (ph w) eqn:Hp, (queue w) as [|k q] eqn:Hq, (live w) eqn:Hl; simplify_eq;
    split; simpl; try done.
  all: try (destruct (r_relevant r k) eqn:Hrel); try done.
  all: try by intros [|].
  all: intros Hl' Hall _ Hf; apply Hw; [congruence| |done|done]; by constructor.
Qed.

Lemma step_inv a w w' : Inv w -> step r a w = Some w' -> Inv w'.
Proof.
  intros HI Hs. destruct a as [k o|x|ok init|ok| |n| | |]; simpl in Hs.
  - destruct (keyedAt r k o) eqn:Hko; [|done]. injection Hs as <-. by apply change_inv.
  - destruct HI as [Hk Hc Ha Hw]. injection Hs as <-. split; try done.
    simpl. intros. unfold inSync. simpl. apply reload_other. by apply Hw.
  - destruct HI as [Hk Hc Ha Hw]. destruct (ph w) eqn:Hp; try done. destruct ok; injection Hs as <-; [|by split; rewrite ?Hp].
    split; simpl; try done. by intros [|].
  - destruct HI as [Hk Hc Ha Hw]. destruct (ph w) eqn:Hp; try done. destruct ok; injection Hs as <-.
    + split; simpl; try done; [by intros [|]|]. by intros _ _ l [= <-].
    + split; simpl; try done. by intros [|].
  - destruct HI as [Hk Hc Ha Hw]. destruct (ph w) eqn:Hp; try done. injection Hs as <-.
    split; simpl; try done; [by intros [|]|]. intros Hl Hq _ _. unfold inSync. simpl.
    rewrite (Ha Hl Hq _ eq_refl). apply reload_idem.
  - destruct HI as [Hk Hc Ha Hw]. destruct (live w); [|done]. injection Hs as <-. by split.
  - by apply recv_inv with w.
  - destruct HI as [Hk Hc Ha Hw]. destruct (ph w) eqn:Hp; try done. injection Hs as <-. split; simpl; try done. by intros [|].
  - destruct HI as [Hk Hc Ha Hw]. destruct (ph w) eqn:Hp; try done; injection Hs as <-; by split.
Qed.

Lemma runs_inv tr w w' : Inv w -> runs r tr w = Some w' -> Inv w'.
Proof.
  revert w. induction tr as [|a tr IH]; simpl; intros w HI; [by intros [= <-]|].
  destruct (step r a w) as [w1|] eqn:Hs; [|done]. intros Hr. apply (IH w1); [|done]. by apply step_inv with a w.
Qed.

(** Every quiet step is progress. *)
Lemma quiet_work a w w' :
  Inv w -> quiet r a -> step r a w = Some w' -> work w' < work w.
Proof.
  intros HI Hqt Hs. destruct a as [k o|x|[] []|[]| |n| | |]; try done; simpl in Hs.
  - destruct (ph w) eqn:Hp; try done. injection Hs as <-. unfold work. simpl. rewrite Hp. lia.
  - destruct (ph w) eqn:Hp; try done. injection Hs as <-. unfold work. simpl. rewrite Hp. lia.
  - destruct (ph w) eqn:Hp; try done. injection Hs as <-. unfold work. simpl. rewrite Hp. lia.
  - unfold recv in Hs. destruct (ph w) eqn:Hp, (queue w) as [|k q] eqn:Hq, (live w) eqn:Hl; simplify_eq;
      unfold work; simpl; rewrite ?Hp, ?Hq, ?Hl; simpl; try lia.
    all: destruct (r_relevant r k); simpl; lia.
  - destruct (ph w) eqn:Hp; try done. injection Hs as <-. unfold work. simpl. rewrite Hp. lia.
Qed.

(** Where no quiet step is possible. *)
Lemma quiet_stuck w :
  (forall a, quiet r a -> step r a w = None) ->
  ph w = Stopped \/ ph w = Waiting /\ live w = true /\ queue w = [].
Proof.
  intros Hst. destruct (ph w) eqn:Hp.
  - specialize (Hst (Watch true []) I). simpl in Hst. by rewrite Hp in Hst.
  - specialize (Hst (List_ true) I). simpl in Hst. by rewrite Hp in Hst.
  - specialize (Hst Apply I). simpl in Hst. by rewrite Hp in Hst.
  - right. specialize (Hst Recv I). simpl in Hst. unfold recv in Hst. rewrite Hp in Hst.
    destruct (queue w); [|done]. by destruct (live w).
  - specialize (Hst Timer I). simpl in Hst. by rewrite Hp in Hst.
  - by left.
Qed.

(** The last list succeeded, or another is due. *)
Definition due (w : world V T) : Prop :=
  failed w = false \/ live w = false \/ ph w <> Waiting \/ Exists (fun k => r_relevant r k = true) (queue w).

Lemma quiet_due a w w' : due w -> quiet r a -> step r a w = Some w' -> due w'.
Proof.
  intros Hd Hqt Hs. destruct a as [k o|x|[] []|[]| |n| | |]; try done; simpl in Hs.
  1,2,5: destruct (ph w) eqn:Hp; try done; injection Hs as <-; right; right; left; done.
  { destruct (ph w) eqn:Hp; try done. injection Hs as <-. by left. }
  unfold recv in Hs. destruct (ph w) eqn:Hp, (queue w) as [|k q] eqn:Hq, (live w) eqn:Hl; simplify_eq;
    try (right; right; left; done); try (right; left; done).
  destruct (r_relevant r k) eqn:Hrel; [right; right; left; done|].
  destruct Hd as [Hd|[Hd|[Hd|Hd]]]; [by left|congruence|congruence|].
  rewrite Hq in Hd. right. right. right. apply Exists_cons in Hd as [Hd|Hd]; [congruence|done].
Qed.

Lemma due_or_forgotten (w : world V T) : due w \/ forgotten r w.
Proof.
  unfold due, forgotten. destruct (failed w); [|by left; left]. destruct (live w); [|by left; right; left].
  destruct (ph w) eqn:Hp; try (left; right; right; left; discriminate).
  destruct (decide (Forall (fun k => r_relevant r k = false) (queue w))) as [H|H]; [by right|].
  left. right; right; right. apply (not_Forall_Exists _) in H.
  eapply Exists_impl; [exact H|]. intros k Hk. simpl in Hk. by destruct (r_relevant r k).
Qed.

Lemma forgotten_not_due (w : world V T) : forgotten r w -> ~ due w.
Proof.
  intros (Hf & Hp & Hl & Hq) [?|[?|[?|Hx]]]; try congruence.
  rewrite Forall_forall in Hq. apply Exists_exists in Hx as (k & Hk & Hr). specialize (Hq k Hk). congruence.
Qed.

(** A forgotten failure stays forgotten: the loop only discards events. *)
Lemma quiet_forgotten tr w w' :
  Forall (quiet r) tr -> runs r tr w = Some w' -> forgotten r w ->
  forgotten r w' /\ store w' = store w /\ cluster w' = cluster w.
Proof.
  revert w. induction tr as [|a tr IH]; simpl; intros w; [by intros _ [= <-]|].
  intros [Ha Htr]%Forall_cons. destruct (step r a w) as [w1|] eqn:Hs; [|done]. intros Hr Hfg.
  assert (H1 : forgotten r w1 /\ store w1 = store w /\ cluster w1 = cluster w).
  { clear IH Htr Hr. destruct Hfg as (Hf & Hp & Hl & Hq).
    destruct a as [k o|x|[] []|[]| |n| | |]; try done; simpl in Hs; try (by rewrite Hp in Hs).
    unfold recv in Hs. rewrite Hp, Hl in Hs. destruct (queue w) as [|k q]; [done|].
    apply Forall_cons in Hq as [Hk Hq]. rewrite Hk in Hs. by injection Hs as <-. }
  destruct H1 as (H1 & <- & <-). by apply (IH w1).
Qed.

Lemma quiet_running a w w' : ph w <> Stopped -> quiet r a -> step r a w = Some w' -> ph w' <> Stopped.
Proof.
  intros Hns Hqt Hs. destruct a as [k o|x|[] []|[]| |n| | |]; try done; simpl in Hs.
  1,2,3,5: destruct (ph w) eqn:Hp; try done; by injection Hs as <-.
  unfold recv in Hs. destruct (ph w), (queue w), (live w); simplify_eq; simpl; try done; by case_match.
Qed.

Lemma quiet_runs tr w w' :
  Inv w -> Forall (quiet r) tr -> runs r tr w = Some w' ->
  Inv w' /\ length tr + work w' <= work w /\ (due w -> due w') /\ (ph w <> Stopped -> ph w' <> Stopped).
Proof.
  revert w. induction tr as [|a tr IH]; simpl; intros w HI; [intros _ [= <-]; split_and!; [done|lia|done|done]|].
  intros [Ha Htr]%Forall_cons. destruct (step r a w) as [w1|] eqn:Hs; [|done]. intros Hr.
  destruct (IH w1 (step_inv a w w1 HI Hs) Htr Hr) as (H1 & H2 & H3 & H4).
  pose proof (quiet_work a w w1 HI Ha Hs). split_and!; [done|lia|..]; intros ?.
  - apply H3. by apply quiet_due with a w.
  - apply H4. by apply quiet_running with a w.
Qed.

(** The quiet step a goroutine takes where it is. *)
Definition nextQuiet (w : world V T) : action r :=
  match ph w with
  | Connecting => Watch true []
  | Listing => List_ true
  | Applying _ => Apply
  | Waiting => Recv
  | _ => Timer
  end.

Lemma nextQuiet_stuck w : step r (nextQuiet w) w = None -> forall a, quiet r a -> step r a w = None.
Proof.
  unfold nextQuiet. intros Hst a Ha.
  destruct a as [k o|x|[] []|[]| |n| | |]; try done; simpl; destruct (ph w) eqn:Hp; simpl in Hst;
    rewrite ?Hp in Hst; try done; unfold recv; by rewrite Hp.
Qed.

Lemma quiet_finish w : Inv w -> exists tr w',
  Forall (quiet r) tr /\ runs r tr w = Some w' /\ forall a, quiet r a -> step r a w' = None.
Proof.
  intros HI. remember (work w) as n eqn:Hn. revert w HI Hn.
  induction (lt_wf n) as [n _ IH]. intros w HI ->.
  destruct (step r (nextQuiet w) w) as [w1|] eqn:Hs.
  2:{ exists [], w. split_and!; [done..|]. by apply nextQuiet_stuck. }
  assert (Hq : quiet r (nextQuiet w)) by (unfold nextQuiet; by destruct (ph w)).
  destruct (IH (work w1) (quiet_work _ _ _ HI Hq Hs) w1 (step_inv _ _ _ HI Hs) eq_refl)
    as (tr & w' & Htr & Hr & Hst).
  exists (nextQuiet w :: tr), w'. split_and!; [by constructor| |done]. simpl. by rewrite Hs.
Qed.

Lemma rest_sync w : Inv w -> atRest w -> due w -> inSync r w.
Proof.
  intros [_ _ _ Hw] (Hp & Hl & Hq) Hd. apply Hw; [done|by rewrite Hq|done|].
  unfold due in Hd. rewrite Hp, Hl, Hq in Hd. destruct Hd as [?|[?|[?|Hd]]]; [done..|]. by apply Exists_nil in Hd.
Qed.
End loop.

End RelistLemmas.

(** *** Properties *)

Module RelistProps.
Import Controller Reload EdgeStores Relist RelistLemmas.

Definition keyed {V T} (r : Reloader V T) (c : gmap string V) : Prop := forall k v, c !! k = Some v -> r_key r v = k.

(** C12: whatever the history of changes, reconnections, failures and writes of other
    goroutines, while the loop waits on an open watch with no relevant event left to
    receive and its last list succeeded, the store is what a reload of the cluster as it
    is now would make it: no change is missed, those between two watches included. *)
Theorem relist_loop_misses_nothing {V T} (r : Reloader V T) `{!ReloaderLaws r} c s tr w :
  keyed r c -> runs r tr (initial c s) = Some w ->
  ph w = Waiting -> live w = true -> failed w = false ->
  Forall (fun k => r_relevant r k = false) (queue w) -> inSync r w.
Proof. intros Hc Hr Hp Hl Hf Hq. by apply (runs_inv r tr (initial c s) w (initial_inv r c s Hc) Hr). Qed.

(** C13: without further changes or failures the loop settles from every reachable state in
    which it has not returned: each of its steps is progress, so at most [work w] of them
    are possible, and when none is left it waits on an open watch with nothing queued.
    The store is then in step with the cluster, with one exception: when the last list
    had failed and nothing relevant was left to receive on the open watch, the loop does
    not retry ([failed_list_is_not_retried]) and rests with the store as it was. *)
Theorem relist_loop_settles {V T} (r : Reloader V T) `{!ReloaderLaws r} c s tr w :
  keyed r c -> runs r tr (initial c s) = Some w -> ph w <> Stopped ->
  (forall tr' w', Forall (quiet r) tr' -> runs r tr' w = Some w' ->
     length tr' <= work w /\
     ((forall a, quiet r a -> step r a w' = None) ->
      atRest w' /\
      (~ forgotten r w -> inSync r w') /\
      (forgotten r w -> failed w' = true /\ store w' = store w /\ cluster w' = cluster w))) /\
  (exists tr' w', Forall (quiet r) tr' /\ runs r tr' w = Some w' /\ forall a, quiet r a -> step r a w' = None).
Proof.
  intros Hc Hr Hns. assert (HI : Inv r w) by (apply (runs_inv r tr (initial c s)); [by apply initial_inv|done]).
  split; [|by apply quiet_finish].
  intros tr' w' Htr Hr'. destruct (quiet_runs r tr' w w' HI Htr Hr') as (HI' & Hlen & Hd & Hrun).
  split; [lia|]. intros Hst.
  destruct (quiet_stuck r w' Hst) as [Hs|Hrest]; [by apply Hrun in Hns|].
  split; [done|]. split.
  - intros Hnf. apply rest_sync; [done..|]. apply Hd. by destruct (due_or_forgotten r w).
  - intros Hf. by destruct (quiet_forgotten r tr' w w' Htr Hr' Hf) as ((? & _) & ? & ?).
Qed.

Definition idempotent {V T} (r : Reloader V T) : Prop :=
  forall l s, r_reload r l (r_reload r l s) = r_reload r l s.

Lemma laws_idempotent {V T} (r : Reloader V T) `{!ReloaderLaws r} : idempotent r.
Proof. intros l s. apply reload_idem. Qed.

Section props.
Context {Cert Pub Key : Type} {pki : PKIOps Cert Pub Key} {ops : EtagOps}.
Context (sanDNSNames : string -> list string) (etagOf : string -> string -> string).

(** A relist that finds the cluster as the last one left it changes no store of the
    control plane: no ETag, no generation, no signer and no gauge, so that a reconnection
    wakes no edge. *)
Theorem idle_relist_is_a_noop skip caSecret ttl skew pod :
  idempotent (NewReloader sanDNSNames etagOf skip) /\
  idempotent (NewSignerReloader (Cert := Cert) (Pub := Pub) (Key := Key) caSecret ttl skew) /\
  idempotent (NewWafReloader pod) /\ idempotent (NewRateLimitReloader pod) /\
  idempotent (NewCorazaReloader pod) /\ idempotent (NewCacheReloader pod) /\
  idempotent NewIngressReloader.
Proof.
  refine (conj (laws_idempotent (NewReloader sanDNSNames etagOf skip)) _).
  refine (conj (laws_idempotent (NewSignerReloader caSecret ttl skew)) _).
  refine (conj (laws_idempotent (NewWafReloader pod)) _).
  refine (conj (laws_idempotent (NewRateLimitReloader pod)) _).
  refine (conj (laws_idempotent (NewCorazaReloader pod)) _).
  exact (conj (laws_idempotent (NewCacheReloader pod)) (laws_idempotent NewIngressReloader)).
Qed.
End props.

(** *** Witnesses *)

Section demo.
#[local] Existing Instances SignerProps.toyPKI SignerProps.toyPKILaws SignerProps.lettersEtag.

Definition demoSigner := NewSignerReloader (Cert := string) (Pub := ascii) (Key := ascii) "edge-ca" 3600 60.
Definition caSecret : V1Secret := mkV1 "sys" "Opaque" RotationProps.providedCA.
Definition rotatedSecret : V1Secret := mkV1 "sys" "Opaque" RotationProps.overlapCA.
Definition tenantSecret (crt : string) : V1Secret :=
  mkV1 "sys" SecretTypeTLS (Rotation.mkSecret "tls-a" (<["tls.crt" := crt]> (<["tls.key" := "k"]> ∅)) ∅ "8").
Definition demoCluster : gmap string V1Secret := <["edge-ca" := caSecret]> (<["tls-a" := tenantSecret "C"]> ∅).

(** The CA is rotated while no watch is open, and a tenant's Secret after that. *)
Definition demoHistory : list (action demoSigner) :=
  [Watch true []; List_ true; Apply; Close 0; Recv; Change "edge-ca" (Some rotatedSecret);
   Watch false []; Watch true []; List_ true; Apply; Change "tls-a" (Some (tenantSecret "D"))].
Definition demoStart := (Rotation.mkGauges None false false, RotationProps.noSigner).

Lemma demoCluster_keyed : keyed demoSigner demoCluster.
Proof.
  intros k v. unfold demoCluster. rewrite !lookup_insert_Some, lookup_empty. by naive_solver.
Defined.

(** What a history leads to, without the store. *)
Definition seen {V T} (w : world V T) : list string * bool * bool * bool :=
  (queue w, live w, failed w, match ph w with Waiting => true | _ => false end).

Lemma relist_loop_misses_nothing_witness :
  match runs demoSigner demoHistory (initial demoCluster demoStart) with
  | Some w => seen w = (["tls-a"], true, false, true) /\ inSync demoSigner w
  | None => False
  end.
Proof.
  assert (Hs : seen <$> runs demoSigner demoHistory (initial demoCluster demoStart) =
               Some (["tls-a"], true, false, true)) by (vm_compute; reflexivity).
  destruct (runs demoSigner demoHistory (initial demoCluster demoStart)) as [w|] eqn:Hr; [|discriminate Hs].
  injection Hs as Hq Hl Hf Hp. split; [unfold seen; by rewrite Hq, Hl, Hf, Hp|].
  apply (relist_loop_misses_nothing demoSigner demoCluster demoStart demoHistory w demoCluster_keyed Hr);
    [by destruct (ph w)|exact Hl|exact Hf|].
  rewrite Hq. by repeat constructor.
Defined.

Lemma relist_loop_settles_witness :
  exists w tr w', runs demoSigner demoHistory (initial demoCluster demoStart) = Some w /\
    Forall (quiet demoSigner) tr /\ runs demoSigner tr w = Some w' /\ atRest w' /\ inSync demoSigner w'.
Proof.
  assert (Hs : seen <$> runs demoSigner demoHistory (initial demoCluster demoStart) =
               Some (["tls-a"], true, false, true)) by (vm_compute; reflexivity).
  destruct (runs demoSigner demoHistory (initial demoCluster demoStart)) as [w|] eqn:Hr; [|discriminate Hs].
  injection Hs as Hq Hl Hf Hp. assert (Hns : ph w <> Stopped) by (by destruct (ph w)).
  destruct (relist_loop_settles demoSigner demoCluster demoStart demoHistory w demoCluster_keyed Hr Hns)
    as [Hall (tr & w' & Htr & Hr' & Hst)].
  destruct (Hall tr w' Htr Hr') as [_ Hend]. destruct (Hend Hst) as (Hrest & Hsync & _).
  exists w, tr, w'. split; [done|]. split; [exact Htr|]. split; [exact Hr'|]. split; [exact Hrest|].
  apply Hsync. intros [Hf' _]. rewrite Hf in Hf'. discriminate Hf'.
Defined.
End demo.

(** *** A list that fails *)

Section stale.
#[local] Existing Instance EdgeStoresProps.toyEtag.

Definition demoCerts := NewReloader (fun chain => [chain]) (fun chain key => chain +:+ key) "".
(** A certificate is renewed, and the list that its event triggers fails. *)
Definition failedList : list (action demoCerts) :=
  [Watch true []; List_ true; Apply; Change "sys/tls-a" (Some (tenantSecret "D")); Recv; Timer; List_ false].
Definition staleStart :=
  initial (<["sys/tls-a" := tenantSecret "C"]> ∅) (CPCerts.NewCertStore etagOfString).

(** A list that fails is not retried: the loop is then at rest with the store out of
    step, the old certificate served, and only another change to the cluster or the end of the watch
    moves it. *)
Theorem failed_list_is_not_retried :
  exists w, runs demoCerts failedList staleStart = Some w /\ atRest w /\ ~ inSync demoCerts w /\
    (CPCerts.ce_chainPEM <$> CPCerts.Get "c" (store w)) = Some "C" /\ CPCerts.Get "d" (store w) = None /\
    forall a w', step demoCerts a w = Some w' ->
      match a with Change _ _ | Close _ | Cancel => True | _ => False end.
Proof.
  destruct (runs demoCerts failedList staleStart) as [w|] eqn:Hr; [|by vm_compute in Hr].
  vm_compute in Hr. injection Hr as <-. eexists. split; [done|]. split; [done|]. split; [by vm_compute|].
  split; [by vm_compute|]. split; [by vm_compute|]. intros a w'. by destruct a as [| [] |[]|[]| | | | |].
Qed.
End stale.
End RelistProps.
