(* ===== verification/Mirror.v ===== *)
(** * The controller's start and its watches

    Models the start of [src/controller.go]: module [Startup] is [Watch] with
    [preloadResources], [preloadList] and [firstReload]; module [Mirror] is
    [watchResource] with [resyncStore], one goroutine per resource that applies the
    events of a watch to a store and reconciles it with a list when the watch ends.

    As in the control plane's loop the API server's objects and the events in flight are part
    of the state.  Whether the API server opens a watch with an event for every object it has is a
    parameter of the environment. *)

From S2P Require Import Prelude GoString Route Certs Controller.

Set Default Proof Using "Type".

(** ** The start *)

Module Startup.
Import Controller.

(** What [Watch] does, in order. *)
Inductive effect :=
| Listed (resource : string) (ok : bool)   (* one attempt of a list *)
| Slept (d : Z)
| Reloaded (table : string)
| WaitedTrust
| SetReady
| Watching (resource : string).            (* the goroutine of a resource is started *)

Record Config := mkConfig {
  WAFEnabled : bool;
  RateLimitEnabled : bool;
  CorazaEnabled : bool;
  TransformEnabled : bool;
  WaitTrustReady : bool;        (* the callback is set *)
}.

Section startup.
Context {O : Type} (key : O -> string).

(** The stores, and what has been done. *)
Record state := mkState { stores : gmap string (gmap string O); done : list effect }.

(** The outcomes of the successive lists of each resource. *)
Definition Lists : Type := string -> list (option (list O)).

Definition storeAll (os : list O) (m : gmap string O) : gmap string O :=
  fold_left (fun m o => <[key o := o]> m) os m.

(** [None]: the outcomes ran out, the loop still retries. *)
Fixpoint preload (name : string) (backoff : Z) (results : list (option (list O))) (s : state) :
    option state * list effect :=
  match results with
  | [] => (None, done s)
  | Some os :: _ =>
      let s' := mkState (<[name := storeAll os (default ∅ (stores s !! name))]> (stores s))
                  (done s ++ [Listed name true]) in
      (Some s', done s')
  | None :: rest =>
      preload name (nextBackoff backoff) rest (mkState (stores s) (done s ++ [Listed name false; Slept backoff]))
  end.

Fixpoint preloadAll (names : list string) (lists : Lists) (s : state) : option state * list effect :=
  match names with
  | [] => (Some s, done s)
  | n :: names =>
      match preload n baseBackoff (lists n) s with
      | (Some s', _) => preloadAll names lists s'
      | (None, tr) => (None, tr)
      end
  end.

Definition when (b : bool) (name : string) : list string := if b then [name] else [].

Definition resources (cfg : Config) : list string :=
  ["ingresses"; "services"; "secrets"; "endpointslices"; "endpoints"] ++
  when (WAFEnabled cfg) "configmaps" ++ when (RateLimitEnabled cfg) "ratelimit-configmaps" ++
  when (CorazaEnabled cfg) "coraza-configmaps" ++ when (TransformEnabled cfg) "transform-configmaps".

Definition preloadResources (cfg : Config) (lists : Lists) (s : state) : option state * list effect :=
  preloadAll (resources cfg) lists s.

(** The reloads run whether or not the feature is enabled. *)
Definition tables : list string :=
  ["service"; "ingress"; "secret"; "endpoint"; "waf"; "ratelimit"; "coraza"; "transform"].

Definition firstReload (cfg : Config) : list effect :=
  (Reloaded <$> tables) ++ (if WaitTrustReady cfg then [WaitedTrust] else []) ++ [SetReady].

Definition watchers (cfg : Config) : list string :=
  ["ingresses"; "services"; "secrets"; "endpointslices"; "endpoints"] ++
  when (WAFEnabled cfg) "configmaps" ++ when (RateLimitEnabled cfg) "ratelimit-configmaps" ++
  when (CorazaEnabled cfg) "coraza-configmaps" ++ when (TransformEnabled cfg) "transform-configmaps".

(** [Watch], from [New]'s empty stores. *)
Definition Watch (cfg : Config) (lists : Lists) : gmap string (gmap string O) * list effect :=
  match preloadResources cfg lists (mkState ∅ []) with
  | (Some s, tr) => (stores s, tr ++ firstReload cfg ++ (Watching <$> watchers cfg))
  | (None, tr) => (∅, tr)
  end.

(** The first list that succeeds. *)
Fixpoint firstOk (results : list (option (list O))) : option (list O) :=
  match results with [] => None | Some os :: _ => Some os | None :: rest => firstOk rest end.

End startup.
End Startup.

(** ** The watches *)

Module Mirror.
Import Controller.

Section mirror.
Context {V : Type} `{!EqDecision V} (key : V -> string).

Inductive phase := Connecting | Draining | Resyncing.

Record mirror := mkMirror {
  cluster : gmap string V;
  queue : list (EventType * V);    (* the events not received *)
  live : bool;                     (* the watch is open *)
  ph : phase;
  store : gmap string V;
  missed : gset string;            (* ghost: keys whose last change no event tells, nor a list since *)
}.

Inductive action :=
| Put (o : V)
| Del (k : string)
| Connect (ok : bool)
| Recv
| Close (n : nat)
| Resync (ok : bool).

(** The objects of the API server as the events that may open a watch. *)
Definition initialEvents (c : gmap string V) : list (EventType * V) :=
  (fun o => (Added, o)) <$> (map_to_list c).*2.

Definition put (o : V) (w : mirror) : mirror :=
  mkMirror (<[key o := o]> (cluster w))
    (if live w then queue w ++ [(match cluster w !! key o with Some _ => Modified | None => Added end, o)] else queue w)
    (live w) (ph w) (store w) (if live w then missed w ∖ {[key o]} else {[key o]} ∪ missed w).

Definition del (k : string) (old : V) (w : mirror) : mirror :=
  mkMirror (delete k (cluster w)) (if live w then queue w ++ [(Deleted, old)] else queue w)
    (live w) (ph w) (store w) (if live w then missed w ∖ {[k]} else {[k]} ∪ missed w).

(** The body of the loop over the watch's events. *)
Definition apply (store : gmap string V) (e : EventType * V) : gmap string V :=
  fst (watchEvent key e.1 e.2 store).
Definition applyAll (q : list (EventType * V)) (store : gmap string V) : gmap string V :=
  fold_left apply q store.

(** A step, and the callback it runs.  [replay]: a new watch opens with the objects. *)
Definition step (replay : bool) (a : action) (w : mirror) : option (mirror * bool) :=
  match a with
  | Put o => Some (put o w, false)
  | Del k => match cluster w !! k with Some old => Some (del k old w, false) | None => None end
  | Connect ok =>
      match ph w with
      | Connecting =>
          if ok then Some (mkMirror (cluster w) (if replay then initialEvents (cluster w) else []) true
                             Draining (store w) (if replay then missed w ∖ dom (cluster w) else missed w), false)
          else Some (w, false)
      | _ => None
      end
  | Recv =>
      match ph w, queue w with
      | Draining, e :: q =>
          let (st, cb) := watchEvent key e.1 e.2 (store w) in
          Some (mkMirror (cluster w) q (live w) Draining st (missed w), match cb with Some _ => true | None => false end)
      | Draining, [] =>
          if live w then None
          else Some (mkMirror (cluster w) [] false Resyncing (store w) (missed w), false)
      | _, _ => None
      end
  | Close n =>
      if live w then
        Some (mkMirror (cluster w) (take n (queue w)) false (ph w) (store w)
                (list_to_set ((fun e => key e.2) <$> drop n (queue w)) ∪ missed w), false)
      else None
  | Resync ok =>
      match ph w with
      | Resyncing =>
          let (st, cb) := resyncStore key (if ok then Some (map_to_list (cluster w)).*2 else None) (store w) in
          Some (mkMirror (cluster w) [] false Connecting st (if ok then ∅ else missed w), cb)
      | _ => None
      end
  end.

Fixpoint runs (replay : bool) (tr : list action) (w : mirror) : option mirror :=
  match tr with
  | [] => Some w
  | a :: tr => match step replay a w with Some (w, _) => runs replay tr w | None => None end
  end.

(** After the start, which listed [listed]; the cluster has changed since. *)
Definition initial (listed now : gmap string V) : mirror :=
  mkMirror now [] false Connecting listed
    (filter (fun k => listed !! k <> now !! k) (dom listed ∪ dom now)).

Definition atRest (w : mirror) : Prop := ph w = Draining /\ live w = true /\ queue w = [].

End mirror.
Arguments mirror : clear implicits.
Arguments mkMirror {V}.
Arguments cluster {V}.
Arguments queue {V}.
Arguments live {V}.
Arguments ph {V}.
Arguments store {V}.
Arguments missed {V}.
Arguments action : clear implicits.
Arguments Put {V}.
Arguments Del {V}.
Arguments Connect {V}.
Arguments Recv {V}.
Arguments Close {V}.
Arguments Resync {V}.
End Mirror.

(** ** Which tables a watch rebuilds *)

Module Wiring.

Inductive resource :=
| Ingresses | Services | Secrets | EndpointSlices | LegacyEndpoints
| WAFConfigMaps | RateLimitConfigMaps | CorazaConfigMaps | TransformConfigMaps.
Inductive table :=
| PortTable | RouteTable_ | CertTable_ | HostTable
| WAFZones | RateLimitZones | CorazaZones | TransformZones.
Inductive moment := OnUpsert | OnDelete | OnResync.

(** The reloads that each watch schedules; the rebuild of the routes schedules that of the certificates. *)
Definition callbacks (r : resource) (m : moment) : list table :=
  match r, m with
  | Ingresses, _ => [RouteTable_; CertTable_]
  | Services, _ => [PortTable; RouteTable_; CertTable_]
  | Secrets, _ => [CertTable_]
  | EndpointSlices, OnUpsert | LegacyEndpoints, OnUpsert => [HostTable; PortTable]
  | EndpointSlices, _ | LegacyEndpoints, _ => [HostTable]
  | WAFConfigMaps, _ => [WAFZones]
  | RateLimitConfigMaps, _ => [RateLimitZones]
  | CorazaConfigMaps, _ => [CorazaZones]
  | TransformConfigMaps, _ => [TransformZones]
  end.

(** The stores that a table is built from. *)
Definition reads (t : table) : list resource :=
  match t with
  | PortTable => [Services; EndpointSlices; LegacyEndpoints]
  | RouteTable_ => [Ingresses; Services]
  | CertTable_ => [Ingresses; Secrets]
  | HostTable => [EndpointSlices; LegacyEndpoints]
  | WAFZones => [WAFConfigMaps]
  | RateLimitZones => [RateLimitConfigMaps]
  | CorazaZones => [CorazaConfigMaps]
  | TransformZones => [TransformConfigMaps]
  end.

#[global] Instance table_eq_dec : EqDecision table.
Proof. solve_decision. Defined.
#[global] Instance resource_eq_dec : EqDecision resource.
Proof. solve_decision. Defined.

End Wiring.

(** ** Lemmas *)

Module MirrorLemmas.
Import Controller.

(** *** The start *)

Section startup.
Import Startup.
Context {O : Type} (key : O -> string).

(** What the preload leaves behind: attempts and waits within the bounds. *)
Definition preloading (e : effect) : Prop :=
  match e with Listed _ _ => True | Slept d => (0 < d <= maxBackoff)%Z | _ => False end.

Lemma nextBackoff_bounds b : (0 < b <= maxBackoff)%Z -> (0 < nextBackoff b <= maxBackoff)%Z.
Proof. unfold nextBackoff, maxBackoff. intros H. repeat case_match; bool_props; lia. Qed.

Lemma preload_spec name b results (s : state (O := O)) :
  (0 < b <= maxBackoff)%Z ->
  exists tr, Forall preloading tr /\
    match firstOk results with
    | Some os => preload key name b results s =
        (Some (mkState (<[name := storeAll key os (default ∅ (stores s !! name))]> (stores s)) (done s ++ tr)),
         done s ++ tr) /\ Listed name true ∈ tr
    | None => preload key name b results s = (None, done s ++ tr)
    end.
Proof.
  revert b s. induction results as [|[os|] results IH]; intros b s Hb; simpl.
  - exists []. by rewrite app_nil_r.
  - exists [Listed name true]. split; [by repeat constructor|]. split; [done|]. by left.
  - destruct (IH (nextBackoff b) (mkState (stores s) (done s ++ [Listed name false; Slept b]))) as (tr & Htr & H).
    { by apply nextBackoff_bounds. }
    exists ([Listed name false; Slept b] ++ tr). split; [by constructor; [done|constructor; [apply Hb|]]|].
    simpl in H. rewrite <- app_assoc in H. destruct (firstOk results); [|done].
    destruct H as [H Hin]. split; [done|]. set_solver.
Qed.

Lemma preloadAll_spec names lists (s : state (O := O)) :
  NoDup names ->
  exists tr, Forall preloading tr /\
    if forallb (fun n => match firstOk (lists n) with Some _ => true | None => false end) names
    then exists s', preloadAll key names lists s = (Some s', done s ++ tr) /\ done s' = done s ++ tr /\
      (forall n, n ∉ names -> stores s' !! n = stores s !! n) /\
      forall n os, n ∈ names -> firstOk (lists n) = Some os -> Listed n true ∈ tr /\
        stores s' !! n = Some (storeAll key os (default ∅ (stores s !! n)))
    else preloadAll key names lists s = (None, done s ++ tr).
Proof.
  intros Hnd. revert s. induction Hnd as [|n names Hn Hnd IH]; intros s; simpl.
  { exists []. split; [done|]. exists s. rewrite app_nil_r. split_and!; [done..|]. by intros n os ?%elem_of_nil. }
  destruct (preload_spec n baseBackoff (lists n) s) as (tr1 & Htr1 & H1).
  { unfold baseBackoff, maxBackoff, millisecond, second. lia. }
  destruct (firstOk (lists n)) as [os1|] eqn:Hok.
  2:{ exists tr1. rewrite H1. done. }
  destruct H1 as [H1 Hin1]. rewrite H1.
  set (s1 := mkState (<[n := storeAll key os1 (default ∅ (stores s !! n))]> (stores s)) (done s ++ tr1)).
  destruct (IH s1) as (tr2 & Htr2 & H2).
  exists (tr1 ++ tr2). split; [by apply Forall_app|]. simpl in *. rewrite app_assoc.
  destruct (forallb _ names); [|done].
  destruct H2 as (s' & He & Hd & Hfr & Hin). exists s'. rewrite He. split_and!; [done|done|..].
  - intros m [Hne Hm]%not_elem_of_cons. rewrite Hfr by done. simpl. by rewrite lookup_insert_ne.
  - intros m os [->|Hm]%elem_of_cons Hm'.
    + rewrite Hok in Hm'. injection Hm' as <-. split; [set_solver|]. rewrite Hfr by done. simpl.
      by rewrite lookup_insert_eq.
    + destruct (Hin m os Hm Hm') as [H3 H4]. split; [set_solver|]. rewrite H4. simpl.
      rewrite lookup_insert_ne; [done|]. by intros ->.
Qed.

Lemma resources_nodup cfg : NoDup (resources cfg).
Proof. destruct cfg as [[] [] [] [] w]; apply (bool_decide_unpack _); by vm_compute. Qed.

(** The resources a controller mirrors, by the feature that turns each on. *)
Inductive enabled (cfg : Config) : string -> Prop :=
| on_ingresses : enabled cfg "ingresses"
| on_services : enabled cfg "services"
| on_secrets : enabled cfg "secrets"
| on_slices : enabled cfg "endpointslices"
| on_endpoints : enabled cfg "endpoints"
| on_waf : WAFEnabled cfg = true -> enabled cfg "configmaps"
| on_ratelimit : RateLimitEnabled cfg = true -> enabled cfg "ratelimit-configmaps"
| on_coraza : CorazaEnabled cfg = true -> enabled cfg "coraza-configmaps"
| on_transform : TransformEnabled cfg = true -> enabled cfg "transform-configmaps".

Lemma elem_of_when_on b name n : n ∈ when b name <-> b = true /\ n = name.
Proof. destruct b; simpl; rewrite ?elem_of_cons, ?elem_of_nil; naive_solver. Qed.

Lemma enabled_listed cfg n : enabled cfg n <-> n ∈ resources cfg.
Proof.
  unfold resources. rewrite !elem_of_app, !elem_of_when_on, !elem_of_cons, elem_of_nil.
  split; [intros []; tauto|].
  intros [H|H]; [|naive_solver eauto using enabled].
  destruct H as [->|[->|[->|[->|[->|[]]]]]]; constructor.
Qed.

Lemma enabled_watched cfg n : enabled cfg n <-> n ∈ watchers cfg.
Proof. apply enabled_listed. Qed.

(** A store holds a list: what it holds was listed under its key, and all that was listed
    under distinct keys is held. *)
Definition holds (m : gmap string O) (os : list O) : Prop :=
  (forall k o, m !! k = Some o -> o ∈ os /\ key o = k) /\
  (NoDup (key <$> os) -> forall o, o ∈ os -> m !! key o = Some o).

Lemma storeAll_holds os : holds (storeAll key os ∅) os.
Proof.
  unfold holds, storeAll. induction os as [|o os [IH1 IH2]] using rev_ind.
  { split; [intros k o; simpl; by rewrite lookup_empty|]. by intros _ o ?%elem_of_nil. }
  rewrite fold_left_app, fmap_app. simpl. split.
  - intros k o' [[<- <-]|[Hne Ho]]%lookup_insert_Some.
    + split; [|done]. apply elem_of_app. right. by left.
    + apply IH1 in Ho as [Hin Hk]. split; [|done]. apply elem_of_app. by left.
  - intros (Hnd & Hdis & _)%NoDup_app o' [Hin|Hin%list_elem_of_singleton]%elem_of_app.
    + rewrite lookup_insert_ne; [by apply IH2|]. intros Heq.
      apply (Hdis (key o')); [by apply list_elem_of_fmap_2|]. rewrite <- Heq. by left.
    + subst. apply lookup_insert_eq.
Qed.

(** An effect that occurs once splits a trace in one way. *)
Lemma split_once {A} (x : A) a b l1 l2 :
  x ∉ a -> x ∉ b -> a ++ x :: b = l1 ++ x :: l2 -> l1 = a /\ l2 = b.
Proof.
  revert l1. induction a as [|y a IH]; intros [|z l1] Ha Hb; simpl.
  - by intros [= ->].
  - intros [= <- ->]. exfalso. apply Hb, elem_of_app. right. by left.
  - intros [= -> _]. exfalso. apply Ha. by left.
  - intros [= <- He]. apply not_elem_of_cons in Ha as [_ Ha].
    destruct (IH l1 Ha Hb He) as [-> ->]. done.
Qed.

Lemma Forall_preloading_not (tr : list effect) e : Forall preloading tr -> ~ preloading e -> e ∉ tr.
Proof. rewrite Forall_forall. intros Hf Hn Hin. by apply Hn, Hf. Qed.

Lemma slept_bounded (tr : list effect) d : Forall preloading tr -> Slept d ∈ tr -> (0 < d <= 10 * second)%Z.
Proof. rewrite Forall_forall. intros Hf Hin. exact (Hf _ Hin). Qed.

(** What comes before readiness: the attempts [pre], the reloads of [ts], the wait. *)
Definition upToReady (pre : list effect) (ts : list string) (wait : bool) : list effect :=
  pre ++ (Reloaded <$> ts) ++ (if wait then [WaitedTrust] else []).

Lemma elem_of_upToReady pre ts wait e :
  e ∈ upToReady pre ts wait <->
  e ∈ pre \/ (exists t, e = Reloaded t /\ t ∈ ts) \/ wait = true /\ e = WaitedTrust.
Proof.
  unfold upToReady. rewrite !elem_of_app, list_elem_of_fmap.
  destruct wait; rewrite ?list_elem_of_singleton, ?elem_of_nil; naive_solver.
Qed.

Lemma upToReady_only pre ts wait e :
  Forall preloading pre -> e ∈ upToReady pre ts wait ->
  match e with SetReady | Watching _ => False | _ => True end.
Proof.
  rewrite elem_of_upToReady, Forall_forall. intros Hf [Hin|[(t & -> & _)|[_ ->]]]; [|done..].
  specialize (Hf e Hin). by destruct e.
Qed.

(** A table of [ts] is reloaded, after all of [pre]. *)
Lemma upToReady_reloads pre ts wait t :
  t ∈ ts -> exists late l1, upToReady pre ts wait = (pre ++ l1) ++ Reloaded t :: late.
Proof.
  intros (l1 & l2 & ->)%list_elem_of_split. unfold upToReady. rewrite fmap_app, fmap_cons.
  eexists _, (Reloaded <$> l1). by rewrite <- !app_assoc.
Qed.

(** Nothing but lists, waits and reloads comes before a reload. *)
Lemma before_reload pre ts wait ws early t late e :
  Forall preloading pre ->
  upToReady pre ts wait ++ SetReady :: (Watching <$> ws) = early ++ Reloaded t :: late -> e ∈ early ->
  match e with Listed _ _ | Slept _ | Reloaded _ => True | _ => False end.
Proof.
  intros Hpre. unfold upToReady. rewrite <- !app_assoc, (app_assoc pre). intros He Hin.
  assert (Hno : Reloaded t ∉ (if wait then [WaitedTrust] else []) ++ SetReady :: (Watching <$> ws)).
  { rewrite elem_of_app, elem_of_cons, list_elem_of_fmap.
    destruct wait; rewrite ?list_elem_of_singleton, ?elem_of_nil; naive_solver. }
  apply app_eq_inv in He as [(k & Hk & _)|(k & -> & Hk)].
  - assert (Hin' : e ∈ pre ++ (Reloaded <$> ts)) by (rewrite Hk; apply elem_of_app; by left).
    apply elem_of_app in Hin' as [Hp|(t' & -> & _)%list_elem_of_fmap]; [|done].
    rewrite Forall_forall in Hpre. specialize (Hpre e Hp). by destruct e.
  - exfalso. apply Hno. rewrite Hk. apply elem_of_app. right. by left.
Qed.

Lemma elem_of_watching (ws : list string) n : Watching n ∈ Watching <$> ws <-> n ∈ ws.
Proof. rewrite list_elem_of_fmap. naive_solver. Qed.

(** The whole of [Watch]: the attempts, and when every resource was listed, the reloads, the
    wait for the trust bundle, readiness and the watches. *)
Lemma Watch_shape cfg (lists : Lists (O := O)) :
  exists pre, Forall preloading pre /\
    (snd (Watch key cfg lists) = pre /\ (exists n, enabled cfg n /\ firstOk (lists n) = None) \/
     snd (Watch key cfg lists) =
       upToReady pre ["service"; "ingress"; "secret"; "endpoint"; "waf"; "ratelimit"; "coraza"; "transform"]
         (WaitTrustReady cfg) ++ SetReady :: (Watching <$> watchers cfg) /\
     forall n, enabled cfg n -> exists os, firstOk (lists n) = Some os /\ Listed n true ∈ pre /\
       fst (Watch key cfg lists) !! n = Some (storeAll key os ∅)).
Proof.
  unfold Watch, preloadResources.
  destruct (preloadAll_spec (resources cfg) lists (mkState ∅ []) (resources_nodup cfg)) as (tr & Htr & H).
  cbn [done stores app] in H. exists tr. split; [done|].
  destruct (forallb _ (resources cfg)) eqn:Hall.
  - right. destruct H as (s' & -> & _ & _ & Hin). split.
    { unfold upToReady, firstReload, tables. simpl. rewrite <- !app_assoc. simpl. by destruct (WaitTrustReady cfg). }
    intros n Hn%enabled_listed. rewrite forallb_forall in Hall.
    specialize (Hall n (proj1 (list_elem_of_In _ _) Hn)).
    destruct (firstOk (lists n)) as [os|] eqn:Hok; [|done]. exists os. split; [done|].
    destruct (Hin n os Hn Hok) as [H1 H2]. by rewrite lookup_empty in H2.
  - left. rewrite H. split; [done|].
    assert (Hex : existsb (fun n => negb (match firstOk (lists n) with Some _ => true | None => false end))
                    (resources cfg) = true).
    { revert Hall. clear. induction (resources cfg) as [|n l IH]; simpl; [done|].
      destruct (firstOk (lists n)); simpl; auto. }
    apply existsb_exists in Hex as (n & Hn & Hf). exists n.
    split; [by apply enabled_listed, list_elem_of_In|]. by destruct (firstOk (lists n)).
Qed.
End startup.

(** *** The watches *)

Section mirror.
Import Mirror.
Context {V : Type} `{!EqDecision V} (key : V -> string).

Lemma apply_other e m k : key e.2 <> k -> apply key m e !! k = m !! k.
Proof.
  intros Hne. unfold apply, watchEvent. destruct e.1; simpl;
    [by rewrite lookup_insert_ne|by rewrite lookup_insert_ne|by rewrite lookup_delete_ne|done].
Qed.

Lemma applyAll_app q1 q2 m : applyAll key (q1 ++ q2) m = applyAll key q2 (applyAll key q1 m).
Proof. apply fold_left_app. Qed.

Lemma applyAll_other q m k : k ∉ (fun e => key e.2) <$> q -> applyAll key q m !! k = m !! k.
Proof.
  revert m. induction q as [|e q IH]; intros m; simpl; [done|].
  rewrite not_elem_of_cons. intros [Hne Hq]. rewrite IH by done. by apply apply_other.
Qed.

(** A watch that opens with the objects brings the live ones up to date. *)
Lemma initialEvents_lookup (c m : gmap string V) k :
  (forall k v, c !! k = Some v -> key v = k) ->
  applyAll key (initialEvents c) m !! k = match c !! k with Some v => Some v | None => m !! k end.
Proof.
  intros Hc. unfold initialEvents.
  assert (Hl : forall l m, (forall kv, kv ∈ l -> key kv.2 = kv.1) -> NoDup l.*1 ->
    applyAll key ((fun o => (Added, o)) <$> l.*2) m !! k =
    match (list_to_map l : gmap string V) !! k with Some v => Some v | None => m !! k end).
  { clear. induction l as [|[k1 v1] l IH]; intros m Hk Hnd; simpl; [by rewrite lookup_empty|].
    rewrite fmap_cons in Hnd. apply NoDup_cons in Hnd as [Hn Hnd]. simpl in Hn.
    rewrite IH; [|intros kv Hin; apply Hk; by right|done]. unfold apply. simpl.
    assert (key v1 = k1) as -> by (apply (Hk (k1, v1)); left).
    destruct (decide (k1 = k)) as [->|Hne]; [|by rewrite !lookup_insert_ne].
    rewrite !lookup_insert_eq. by rewrite not_elem_of_list_to_map_1. }
  rewrite Hl, list_to_map_to_list; [done| |apply NoDup_fst_map_to_list].
  intros [k1 v1] Hin. apply Hc. by apply elem_of_map_to_list.
Qed.

Lemma resync_exact (c m : gmap string V) :
  (forall k v, c !! k = Some v -> key v = k) ->
  resyncStore key (Some (map_to_list c).*2) m = (c, true).
Proof.
  intros Hc. unfold resyncStore. f_equal. apply map_eq. intros k.
  pose proof (initialEvents_lookup c m k Hc) as Hi. unfold initialEvents, applyAll in Hi.
  assert (Hf : forall l m, fold_left (apply key) ((fun o => (Added, o)) <$> l) m =
                           fold_left (fun m o => <[key o := o]> m) l m).
  { clear. induction l as [|o l IH]; intros m; simpl; [done|]. apply IH. }
  rewrite Hf in Hi. apply option_eq. intros v. rewrite map_lookup_filter_Some, Hi. simpl.
  rewrite elem_of_list_to_set.
  assert (Hin : k ∈ key <$> (map_to_list c).*2 <-> is_Some (c !! k)).
  { rewrite <- list_fmap_compose, list_elem_of_fmap. split.
    - intros ([k1 v1] & -> & H%elem_of_map_to_list). simpl. rewrite (Hc _ _ H). by exists v1.
    - intros [v1 H]. exists (k, v1). simpl. split; [by rewrite (Hc _ _ H)|by apply elem_of_map_to_list]. }
  rewrite Hin. destruct (c !! k); [naive_solver|]. split; [|done]. by intros [_ [? ?]].
Qed.

(** The store with the events in flight is the cluster on every key that is not missed; a
    watch that opened with the objects leaves nothing missed but deletions. *)
Record Inv (replay : bool) (w : mirror V) : Prop := {
  inv_keyed : forall k v, cluster w !! k = Some v -> key v = k;
  inv_live : live w = true -> ph w = Draining;
  inv_idle : ph w <> Draining -> queue w = [];
  inv_exact : forall k, k ∉ missed w -> applyAll key (queue w) (store w) !! k = cluster w !! k;
  inv_dead : replay = true -> live w = true -> forall k, k ∈ missed w -> cluster w !! k = None;
}.

Lemma mirror_initial_inv replay listed now :
  (forall k v, now !! k = Some v -> key v = k) -> Inv replay (initial listed now).
Proof.
  split; try done. simpl. intros k Hk. destruct (decide (listed !! k = now !! k)) as [|Hne]; [done|].
  exfalso. apply Hk, elem_of_filter. split; [done|]. apply elem_of_union. rewrite !elem_of_dom.
  destruct (listed !! k), (now !! k); [left; by eexists|left; by eexists|right; by eexists|done].
Qed.

(** A change of [k] that the queue [q] tells. *)
Lemma told_exact q e (m c c' : gmap string V) (ms : gset string) k :
  key e.2 = k -> (forall m, apply key m e !! k = c' !! k) ->
  (forall k', k' <> k -> c' !! k' = c !! k') ->
  (forall k', k' ∉ ms -> applyAll key q m !! k' = c !! k') ->
  forall k', k' ∉ ms ∖ {[k]} -> applyAll key (q ++ [e]) m !! k' = c' !! k'.
Proof.
  intros He Ht Hc Hx k' Hk'. rewrite applyAll_app. simpl.
  destruct (decide (k' = k)) as [->|Hne]; [apply Ht|].
  rewrite apply_other by congruence. rewrite Hc by done. apply Hx. set_solver.
Qed.

Lemma put_inv replay o w : Inv replay w -> Inv replay (put key o w).
Proof.
  intros [Hk Hl Hi Hx Hd]. split; simpl; [|done|..].
  - intros k v. destruct (decide (key o = k)) as [<-|Hne]; [|by rewrite lookup_insert_ne; [apply Hk|]].
    rewrite lookup_insert_eq. by intros [= ->].
  - intros Hnd. destruct (live w); [by specialize (Hl eq_refl)|by apply Hi].
  - destruct (live w).
    + apply (told_exact (queue w) _ (store w) (cluster w)); [done| |by intros; rewrite lookup_insert_ne|done].
      intros m. rewrite lookup_insert_eq. unfold apply. destruct (cluster w !! key o); apply lookup_insert_eq.
    + intros k Hn. rewrite lookup_insert_ne by set_solver. apply Hx. set_solver.
  - intros Hr Hlv k. rewrite Hlv. intros [Hin Hne]%elem_of_difference.
    rewrite lookup_insert_ne by set_solver. by apply Hd.
Qed.

Lemma del_inv replay k old w : Inv replay w -> cluster w !! k = Some old -> Inv replay (del k old w).
Proof.
  intros [Hk Hl Hi Hx Hd] Hold. pose proof (Hk k old Hold) as Hkey. split; simpl; [|done|..].
  - intros k' v [_ Hck]%lookup_delete_Some. by apply Hk.
  - intros Hnd. destruct (live w); [by specialize (Hl eq_refl)|by apply Hi].
  - destruct (live w).
    + apply (told_exact (queue w) _ (store w) (cluster w)); [done| |by intros; rewrite lookup_delete_ne|done].
      intros m. unfold apply. simpl. by rewrite Hkey, !lookup_delete_eq.
    + intros k' Hn. rewrite lookup_delete_ne by set_solver. apply Hx. set_solver.
  - intros Hr Hlv k'. rewrite Hlv. intros [Hin Hne]%elem_of_difference.
    apply lookup_delete_None. right. by apply Hd.
Qed.

Lemma connect_exact (replay : bool) (w : mirror V) k :
  (forall k v, cluster w !! k = Some v -> key v = k) ->
  (forall k, k ∉ missed w -> store w !! k = cluster w !! k) ->
  k ∉ (if replay then missed w ∖ dom (cluster w) else missed w : gset string) ->
  applyAll key (if replay then initialEvents (cluster w) else []) (store w) !! k = cluster w !! k.
Proof.
  intros Hk Hx. destruct replay; [|apply Hx]. intros Hn. rewrite initialEvents_lookup by done.
  destruct (cluster w !! k) as [v|] eqn:Hck; [done|]. rewrite Hx; [done|].
  intros Hin. apply Hn, elem_of_difference. split; [done|]. by apply not_elem_of_dom.
Qed.

Lemma mirror_step_inv replay a w w' cb : Inv replay w -> step key replay a w = Some (w', cb) -> Inv replay w'.
Proof.
  intros HI Hs. destruct a as [o|k|ok| |n|ok]; simpl in Hs.
  - injection Hs as <- _. by apply put_inv.
  - destruct (cluster w !! k) eqn:Hk; [|done]. injection Hs as <- _. by apply del_inv.
  - destruct HI as [Hk Hl Hi Hx Hd]. destruct (ph w) eqn:Hp; try done.
    rewrite (Hi ltac:(done)) in Hx. simpl in Hx.
    destruct ok; injection Hs as <- _; [|by split; rewrite ?Hp, ?Hi]. split; simpl; try done.
    + intros k. by apply connect_exact.
    + intros -> _ k [_ Hn]%elem_of_difference. by apply not_elem_of_dom.
  - destruct HI as [Hk Hl Hi Hx Hd]. destruct (ph w) eqn:Hp; try done. destruct (queue w) as [|e q] eqn:Hq.
    + destruct (live w) eqn:Hlv; [done|]. injection Hs as <- _. by split.
    + destruct (watchEvent key e.1 e.2 (store w)) as [st cb0] eqn:He. injection Hs as <- _.
      assert (st = apply key (store w) e) as -> by (unfold apply; by rewrite He). by split.
  - destruct HI as [Hk Hl Hi Hx Hd]. destruct (live w) eqn:Hlv; [|done]. injection Hs as <- _. split; simpl; try done.
    + intros Hnd. by specialize (Hl eq_refl).
    + intros k [Hn Hm]%not_elem_of_union. rewrite <- Hx by done.
      rewrite <- (take_drop n (queue w)) at 2. rewrite applyAll_app, (applyAll_other (drop n _)); [done|].
      intros Hin. by apply Hn, elem_of_list_to_set.
  - destruct HI as [Hk Hl Hi Hx Hd]. destruct (ph w) eqn:Hp; try done. destruct ok.
    + rewrite resync_exact in Hs by done. injection Hs as <- _. by split.
    + injection Hs as <- _. rewrite (Hi ltac:(done)) in Hx. by split.
Qed.

Lemma mirror_runs_inv replay tr w w' : Inv replay w -> runs key replay tr w = Some w' -> Inv replay w'.
Proof.
  revert w. induction tr as [|a tr IH]; simpl; intros w HI; [by intros [= <-]|].
  destruct (step key replay a w) as [[w1 cb]|] eqn:Hs; [|done]. intros Hr. apply (IH w1); [|done].
  by apply mirror_step_inv with a w cb.
Qed.

(** *** Keys *)

Definition keyed (c : gmap string V) : Prop := forall k v, c !! k = Some v -> key v = k.

Lemma step_keyed replay a w w' cb : keyed (cluster w) -> step key replay a w = Some (w', cb) -> keyed (cluster w').
Proof.
  intros Hk Hs. destruct a as [o|k|ok| |n|ok]; simpl in Hs.
  - injection Hs as <- _. intros k v. simpl. destruct (decide (key o = k)) as [<-|Hne].
    + rewrite lookup_insert_eq. by intros [= ->].
    + rewrite lookup_insert_ne by done. apply Hk.
  - destruct (cluster w !! k) eqn:Hck; [|done]. injection Hs as <- _. simpl.
    intros k' v' [_ H]%lookup_delete_Some. by apply Hk.
  - destruct (ph w); [|done..]. by destruct ok; injection Hs as <- _.
  - destruct (ph w); [done| |done]. destruct (queue w) as [|e q].
    + destruct (live w); [done|]. by injection Hs as <- _.
    + destruct (watchEvent key e.1 e.2 (store w)) as [st cb0]. by injection Hs as <- _.
  - destruct (live w); [|done]. by injection Hs as <- _.
  - destruct (ph w); [done..|]. destruct (resyncStore _ _ _) as [st cb0]. by injection Hs as <- _.
Qed.

Lemma runs_keyed replay tr w w' : keyed (cluster w) -> runs key replay tr w = Some w' -> keyed (cluster w').
Proof.
  revert w. induction tr as [|a tr IH]; simpl; intros w Hk; [by intros [= <-]|].
  destruct (step key replay a w) as [[w1 cb]|] eqn:Hs; [|done]. apply IH. by apply step_keyed with replay a w cb.
Qed.
End mirror.
End MirrorLemmas.

(** ** Properties *)

Module MirrorProps.
Import Controller MirrorLemmas.

Section start.
Import Startup.

(** C15: the controller becomes ready, and starts its watches, only after every enabled
    resource has been listed into its store and every table rebuilt from the stores.
    (1) It becomes ready exactly when each enabled resource has a list that succeeds.
    (2) Before it becomes ready all eight tables are rebuilt, each after every
    enabled resource was listed, and the trust bundle was waited for when there is one;
    no watch is started before, and one for each enabled resource and no other after.
    (3) The stores then hold what the first successful lists returned.  (4) Until
    the first reload, and for as long as a resource cannot be listed, it only lists and
    waits, never longer than 10 seconds between two attempts. *)
Theorem ready_serves_what_was_listed {O} (key : O -> string) cfg (lists : Lists) :
  let trace := snd (Watch key cfg lists) in
  ((SetReady ∈ trace) <-> (forall n, enabled cfg n -> is_Some (firstOk (lists n)))) /\
  (forall before after, trace = before ++ SetReady :: after ->
     ~ (SetReady ∈ before) /\ ~ (SetReady ∈ after) /\
     (forall t, t ∈ ["service"; "ingress"; "secret"; "endpoint"; "waf"; "ratelimit"; "coraza"; "transform"] ->
        exists early late, before = early ++ Reloaded t :: late /\
          forall n, enabled cfg n -> Listed n true ∈ early) /\
     (WaitTrustReady cfg = true -> WaitedTrust ∈ before) /\
     (forall n, Watching n ∉ before) /\
     (forall n, (Watching n ∈ after) <-> enabled cfg n) /\
     (forall n, enabled cfg n -> exists os m, firstOk (lists n) = Some os /\
        fst (Watch key cfg lists) !! n = Some m /\ holds key m os)) /\
  (forall d, Slept d ∈ trace -> (0 < d <= 10 * second)%Z) /\
  (~ (SetReady ∈ trace) -> forall e, e ∈ trace -> match e with Listed _ _ | Slept _ => True | _ => False end) /\
  (forall early t late, trace = early ++ Reloaded t :: late ->
     forall e, e ∈ early -> match e with Listed _ _ | Slept _ | Reloaded _ => True | _ => False end).
Proof.
  cbn zeta. destruct (Watch_shape key cfg lists) as (pre & Hpre & [[-> (n0 & Hn0 & Hnone)]|[-> Hin]]).
  - pose proof (fun e => Forall_preloading_not pre e Hpre) as Hno. split; [|split; [|split; [|split]]].
    + split; [intros Hr; exfalso; by apply (Hno SetReady); [intros []|]|]. intros Hall. destruct (Hall n0 Hn0) as [os Hos]. congruence.
    + intros before after ->. exfalso. apply (Hno SetReady); [by intros []|]. apply elem_of_app; right; by left.
    + intros d. by apply slept_bounded.
    + intros _ e He. rewrite Forall_forall in Hpre. specialize (Hpre e He). by destruct e.
    + intros early t late ->. exfalso. apply (Hno (Reloaded t)); [by intros []|]. apply elem_of_app; right; by left.
  - pose proof (fun e => upToReady_only pre
      ["service"; "ingress"; "secret"; "endpoint"; "waf"; "ratelimit"; "coraza"; "transform"]
      (WaitTrustReady cfg) e Hpre) as Honly.
    split; [|split; [|split; [|split]]].
    + split; [|intros _; rewrite elem_of_app; right; by left].
      intros _ n Hn. destruct (Hin n Hn) as (os & -> & _). by eexists.
    + intros before after He. apply split_once in He as [-> ->]; [|by intros ?%Honly|by intros (? & ? & _)%list_elem_of_fmap].
      split; [by intros ?%Honly|]. split; [by intros (? & ? & _)%list_elem_of_fmap|]. split_and!.
      * intros t Ht. destruct (upToReady_reloads pre _ (WaitTrustReady cfg) t Ht) as (late & l1 & ->).
        exists (pre ++ l1), late. split; [done|]. intros n Hn. apply elem_of_app. left.
        by destruct (Hin n Hn) as (os & _ & Hl & _).
      * intros Hw. apply elem_of_upToReady. by right; right.
      * by intros n ?%Honly.
      * intros n. by rewrite enabled_watched, elem_of_watching.
      * intros n Hn. destruct (Hin n Hn) as (os & Hos & _ & Hst).
        exists os, (storeAll key os ∅). split; [done|]. split; [done|]. apply storeAll_holds.
    + intros d [Hd|Hd]%elem_of_app; [|by apply elem_of_cons in Hd as [?|(? & ? & _)%list_elem_of_fmap]].
      apply elem_of_upToReady in Hd as [Hd|[(? & ? & _)|[_ ?]]]; [|done..]. by apply (slept_bounded pre).
    + intros Hn. destruct Hn. apply elem_of_app. right. by left.
    + intros early t late He e. by eapply before_reload.
Qed.
End start.

Section watch.
Import Mirror.
Context {V : Type} `{!EqDecision V} (key : V -> string).

(** C14: a watch with nothing left to deliver has mirrored the cluster but for what it
    missed, after any history and whether or not a new watch opens with the objects there
    are ([replay]; a bare watch of the API server does not).  The store agrees with the
    cluster, on what is there and on what is not, at every key outside [missed]: the keys
    whose last change fell where no watch was open or was lost with one, without a list or
    an event of theirs since.  When new watches do open with the objects, only deleted keys
    are missed, so that every live object is mirrored as it is.  With nothing missed the
    store is the cluster. *)
Theorem mirror_exact_up_to_gap replay listed now tr w :
  keyed key now -> runs key replay tr (initial listed now) = Some w -> atRest w ->
  (forall k, k ∉ missed w -> store w !! k = cluster w !! k) /\
  (replay = true ->
     (forall k, k ∈ missed w -> cluster w !! k = None) /\
     (forall k v, cluster w !! k = Some v -> store w !! k = Some v)) /\
  (missed w = ∅ -> store w = cluster w).
Proof.
  intros Hc Hr (Hp & Hl & Hq).
  destruct (mirror_runs_inv key replay tr _ w (mirror_initial_inv key replay listed now Hc) Hr) as [_ _ _ Hx Hd].
  rewrite Hq in Hx. simpl in Hx. split; [done|]. split.
  - intros Hrep. specialize (Hd Hrep Hl). split; [done|]. intros k v Hck.
    rewrite Hx; [done|]. intros Hin. rewrite (Hd k Hin) in Hck. done.
  - intros Hm. apply map_eq. intros k. apply Hx. rewrite Hm. set_solver.
Qed.

(** The list taken when a watch ends repairs everything: after it the store is the
    cluster whatever was missed, and the tables are rebuilt. *)
Theorem resync_repairs_the_mirror replay listed now tr w w' cb :
  keyed key now -> runs key replay tr (initial listed now) = Some w ->
  step key replay (Resync true) w = Some (w', cb) ->
  store w' = cluster w /\ cluster w' = cluster w /\ missed w' = ∅ /\ cb = true.
Proof.
  intros Hc Hr Hs. pose proof (runs_keyed key replay tr (initial listed now) w Hc Hr) as Hk.
  unfold step in Hs. destruct (ph w); [done..|]. rewrite resync_exact in Hs by done. by injection Hs as <- <-.
Qed.

(** No change of a store goes unannounced: every step that changes it runs the
    callback that schedules a rebuild. *)
Theorem mirror_change_is_announced replay a w w' cb :
  step key replay a w = Some (w', cb) -> cb = true \/ store w' = store w.
Proof.
  intros Hs. destruct a as [o|k|ok| |n|ok]; simpl in Hs.
  - injection Hs as <- <-. by right.
  - destruct (cluster w !! k); [|done]. injection Hs as <- <-. by right.
  - destruct (ph w); [|done..]. destruct ok; injection Hs as <- <-; by right.
  - destruct (ph w); [done| |done]. destruct (queue w) as [|[ev o] q].
    + destruct (live w); [done|]. injection Hs as <- <-. by right.
    + destruct ev; injection Hs as <- <-; by (left + right).
  - destruct (live w); [|done]. injection Hs as <- <-. by right.
  - destruct (ph w); [done..|]. destruct ok; injection Hs as <- <-; by (left + right).
Qed.
End watch.

(** *** Witnesses and the gap *)

Section demo.
Import Mirror.

(** Objects with a name and a revision. *)
Definition demoKey (o : string * Z) : string := o.1.
Definition demoObjects : gmap string (string * Z) := <["a" := ("a", 1%Z)]> (<["b" := ("b", 1%Z)]> ∅).

Lemma demoObjects_keyed : keyed demoKey demoObjects.
Proof. intros k v. unfold demoObjects. rewrite !lookup_insert_Some, lookup_empty. by naive_solver. Defined.

(** A deletion lost with a watch, a list, a modification while no watch is open, a new
    watch.  When it opens with the objects the modification is told; else it is missed
    until an event of that object comes. *)
Definition demoRun : list (action (string * Z)) :=
  [Connect true; Recv; Recv; Del "b"; Close 0; Recv; Resync true; Put ("a", 2%Z); Connect true; Recv].
Definition bareRun : list (action (string * Z)) :=
  [Connect true; Del "b"; Close 0; Recv; Resync true; Put ("a", 2%Z); Put ("c", 2%Z); Connect true; Put ("c", 3%Z); Recv].

Lemma mirror_exact_up_to_gap_witness :
  match runs demoKey true demoRun (initial demoObjects demoObjects) with
  | Some w => store w = cluster w /\ store w !! "a" = Some ("a", 2%Z) /\ store w !! "b" = None
  | None => False
  end /\
  match runs demoKey false bareRun (initial demoObjects demoObjects) with
  | Some w => missed w = {["a"]} /\ store w !! "a" = Some ("a", 1%Z) /\ cluster w !! "a" = Some ("a", 2%Z) /\
              forall k, k <> "a" -> store w !! k = cluster w !! k
  | None => False
  end.
Proof.
  split.
  - destruct (runs demoKey true demoRun (initial demoObjects demoObjects)) as [w|] eqn:Hr;
      [|vm_compute in Hr; discriminate Hr].
    assert (Hw : (queue w, live w, ph w) = ([], true, Draining) /\ missed w = ∅ /\
                 cluster w !! "a" = Some ("a", 2%Z) /\ cluster w !! "b" = None).
    { vm_compute in Hr. injection Hr as <-. repeat split; by vm_compute. }
    destruct Hw as (Hq & Hg & Ha & Hb). injection Hq as Hq Hl Hp.
    destruct (mirror_exact_up_to_gap demoKey true demoObjects demoObjects demoRun w demoObjects_keyed Hr
                (conj Hp (conj Hl Hq))) as (_ & _ & H).
    rewrite (H Hg). split; [reflexivity|]. split; [exact Ha|exact Hb].
  - destruct (runs demoKey false bareRun (initial demoObjects demoObjects)) as [w|] eqn:Hr;
      [|vm_compute in Hr; discriminate Hr].
    assert (Hw : (queue w, live w, ph w) = ([], true, Draining) /\ missed w = {["a"]} /\
                 store w !! "a" = Some ("a", 1%Z) /\ cluster w !! "a" = Some ("a", 2%Z)).
    { vm_compute in Hr. injection Hr as <-. repeat split; by vm_compute. }
    destruct Hw as (Hq & Hg & Ha & Hb). injection Hq as Hq Hl Hp.
    destruct (mirror_exact_up_to_gap demoKey false demoObjects demoObjects bareRun w demoObjects_keyed Hr
                (conj Hp (conj Hl Hq))) as (H & _).
    split; [exact Hg|]. split; [exact Ha|]. split; [exact Hb|].
    intros k Hk. apply H. rewrite Hg. by rewrite elem_of_singleton.
Defined.

(** The firewall on, a trust bundle to wait for, every first list failing. *)
Definition demoConfig : Startup.Config := Startup.mkConfig true false false false true.
Definition demoLists : Startup.Lists (O := string * Z) := fun _ => [None; Some [("a", 1%Z)]].

Lemma ready_serves_what_was_listed_witness :
  let trace := snd (Startup.Watch demoKey demoConfig demoLists) in
  exists before after, trace = before ++ Startup.SetReady :: after /\
    Startup.WaitedTrust ∈ before /\ Startup.Watching "configmaps" ∈ after /\
    (exists early late, before = early ++ Startup.Reloaded "transform" :: late /\
       Startup.Listed "configmaps" true ∈ early) /\
    (exists os m, Startup.firstOk (demoLists "configmaps") = Some os /\
       fst (Startup.Watch demoKey demoConfig demoLists) !! "configmaps" = Some m /\ holds demoKey m os).
Proof.
  destruct (ready_serves_what_was_listed demoKey demoConfig demoLists) as (Hready & Hbefore & _).
  assert (Hin : Startup.SetReady ∈ snd (Startup.Watch demoKey demoConfig demoLists)).
  { apply Hready. intros n Hn. by eexists. }
  apply list_elem_of_split in Hin as (before & after & He).
  destruct (Hbefore before after He) as (_ & _ & Ht & Hw & _ & Ha & Hst).
  exists before, after. split; [exact He|]. split; [by apply Hw|]. split; [apply Ha; by constructor|]. split.
  - destruct (Ht "transform") as (early & late & Hb & Hl); [by repeat constructor|].
    exists early, late. split; [exact Hb|]. apply Hl. by constructor.
  - apply Hst. by constructor.
Defined.

Lemma resync_repairs_the_mirror_witness :
  match runs demoKey false [Connect true; Del "b"; Close 0; Recv] (initial demoObjects demoObjects) with
  | Some w => match step demoKey false (Resync true) w with
              | Some (w', _) => store w' = cluster w
              | None => False
              end
  | None => False
  end.
Proof.
  destruct (runs demoKey false [Connect true; Del "b"; Close 0; Recv] (initial demoObjects demoObjects))
    as [w|] eqn:Hr; [|vm_compute in Hr; discriminate Hr].
  destruct (step demoKey false (Resync true) w) as [[w' cb]|] eqn:Hs.
  - apply (resync_repairs_the_mirror demoKey false demoObjects demoObjects _ w w' cb demoObjects_keyed Hr Hs).
  - vm_compute in Hr. injection Hr as <-. vm_compute in Hs. discriminate Hs.
Defined.

Definition oneEvent : mirror (string * Z) := mkMirror demoObjects [(Added, ("a", 2%Z))] true Draining ∅ ∅.
Definition noEvent : mirror (string * Z) := mkMirror demoObjects [] true Draining (<["a" := ("a", 2%Z)]> ∅) ∅.

Lemma mirror_change_is_announced_witness :
  step demoKey true Recv oneEvent = Some (noEvent, true) /\ (true = true \/ store noEvent = store oneEvent).
Proof.
  assert (Hs : step demoKey true Recv oneEvent = Some (noEvent, true)) by reflexivity.
  split; [exact Hs|]. apply (mirror_change_is_announced demoKey true Recv oneEvent noEvent true Hs).
Defined.

(** A deletion between the list and the next watch is never noticed: whether or not
    the watch opens with the objects, the goroutine is then at rest, every list and watch
    succeeded, and the deleted object stays until this watch ends.  When the watch opens
    with nothing, an object modified there stays stale too. *)
Theorem gap_deletion_lingers :
  (forall replay, exists tr w, Forall (fun a => match a with Connect ok | Resync ok => ok = true | _ => True end) tr /\
     runs demoKey replay tr (initial demoObjects demoObjects) = Some w /\ atRest w /\
     store w !! "b" = Some ("b", 1%Z) /\ cluster w !! "b" = None /\
     forall a w' cb, step demoKey replay a w = Some (w', cb) -> match a with Put _ | Del _ | Close _ => True | _ => False end) /\
  exists tr w, runs demoKey false tr (initial demoObjects demoObjects) = Some w /\ atRest w /\
    store w !! "a" = Some ("a", 1%Z) /\ cluster w !! "a" = Some ("a", 2%Z).
Proof.
  split.
  - intros [].
    + set (tr := [Connect true; Recv; Recv; Close 0; Recv; Resync true; Del "b"; Connect true; Recv] : list (action (string * Z))).
      destruct (runs demoKey true tr (initial demoObjects demoObjects)) as [w|] eqn:Hr; [|by vm_compute in Hr].
      vm_compute in Hr. injection Hr as <-. eexists tr, _. split; [by repeat constructor|]. split; [by vm_compute|].
      split; [done|]. split; [by vm_compute|]. split; [by vm_compute|]. intros a w' cb. by destruct a as [| |[]| | |[]].
    + set (tr := [Connect true; Close 0; Recv; Resync true; Del "b"; Connect true] : list (action (string * Z))).
      destruct (runs demoKey false tr (initial demoObjects demoObjects)) as [w|] eqn:Hr; [|by vm_compute in Hr].
      vm_compute in Hr. injection Hr as <-. eexists tr, _. split; [by repeat constructor|]. split; [by vm_compute|].
      split; [done|]. split; [by vm_compute|]. split; [by vm_compute|]. intros a w' cb. by destruct a as [| |[]| | |[]].
  - set (tr := [Put ("a", 2%Z); Connect true] : list (action (string * Z))).
    destruct (runs demoKey false tr (initial demoObjects demoObjects)) as [w|] eqn:Hr; [|by vm_compute in Hr].
    vm_compute in Hr. injection Hr as <-. eexists tr, _. split; [by vm_compute|].
    split; [done|]. split; by vm_compute.
Qed.
End demo.

(** *** The tables *)

Section wiring.
Import Wiring Route.Table.

(** A Service whose port is named, and the slice that resolves the name. *)
Definition namedPort : Service :=
  mkService "ns" "web" (OtherServiceType "ClusterIP") "" [mkSvcPort "http" 80 (StrVal "http") None].
Definition itsSlice : EndpointSlice :=
  mkSlice "ns" "web-1" {["kubernetes.io/service-name" := "web"]} IPv4
    [mkEndpoint (Some true) ["10.0.0.1"]] [mkEPPort (Some "http") (Some 8080%Z)].
(** The Service was loaded before the slice existed; a resync then brings the slice. *)
Definition loadedFirst : Controller :=
  reloadService [namedPort] [] (mkController ∅ {["ns/web" := namedPort]} ∅ ∅ ∅ ∅ Route.Table.empty).
Definition resynced : Controller :=
  mkController ∅ (watchedServices loadedFirst)
    (fst (resyncStore (fun es => objectKey (es_Namespace es) (es_Name es)) (Some [itsSlice]) (watchedEndpointSlices loadedFirst)))
    ∅ ∅ ∅ (routeTable loadedFirst).
Definition target (c : Controller) : string :=
  fst (Lookup (fun _ => 0%Z) (routeTable c) "web.ns.svc.cluster.local:80").

(** Every table is rebuilt when a store that it is built from changes, but for the ports when
    slices or legacy endpoints are deleted or resynced: after a resync that brings
    the slice of a named port, the callback leaves the Service without a port, and a
    rebuild of the ports would give it the pod. *)
Theorem resync_leaves_ports_stale :
  (forall t r m, r ∈ reads t ->
     t ∈ callbacks r m \/ t = PortTable /\ (r = EndpointSlices \/ r = LegacyEndpoints) /\ m <> OnUpsert) /\
  PortTable ∉ callbacks EndpointSlices OnResync /\
  target (reloadEndpoint [itsSlice] [] resynced) = "" /\
  target (reloadService [namedPort] [itsSlice] (reloadEndpoint [itsSlice] [] resynced)) = "10.0.0.1:8080".
Proof.
  split.
  - intros t r m Hr. destruct (decide (t ∈ callbacks r m)) as [Hin|Hn]; [by left|right].
    destruct t, r, m; simpl in *; try (exfalso; apply Hn; by repeat constructor); try set_solver.
  - split; [set_solver|]. split; [by vm_compute|]. by vm_compute.
Qed.
End wiring.
End MirrorProps.
