(* ===== verification/WebSocket.v ===== *)
(** * WebSocket over HTTP/2

    Models [src/wsh2] (the rewrite of an extended CONNECT into an HTTP/1.1 upgrade, the
    accept proof and the copy loop), the core's side in [src/proxy/wstunnel.go] and
    [wsh2c.go] (the tunnel to a pod) and the edge's side in [src/edge/wstunnel.go],
    [wsbridge.go] and [forward.go] (the tunnel and the bridge to the core, and which of
    them or the reverse proxy serves a request).

    A handler answers with the log of what it does on its connections.  What the other ends do is
    an argument: the outcome of the dial and of the handshakes, the response, the sizes of
    reads and the results of writes, and the bytes that the HTTP/2 transport has taken
    from the body by the time it returns. *)

From S2P Require Import Prelude GoString GoTime GoURL EdgeRules Upstream.

Set Default Proof Using "Type".

(** SHA-1 and base64. *)
Class WSOps := { sha1 : string -> string; base64 : string -> string }.

Definition CR : ascii := ascii_of_nat 13.
Definition LF : ascii := ascii_of_nat 10.
Definition crlf : string := String CR (String LF EmptyString).

(** ** The handshake and the copy loop *)

Module Wsh2.

(** A body: none, [http.NoBody], or a stream with the bytes that are still to come. *)
Inductive body := NilBody | NoBody | Live (bytes : string).

Record Request := mkReq {
  Method : string;
  URI : URL;
  Host : string;
  Hdr : Header;
  Body : body;
  ContentLength : Z;
  Tunnel : option body;       (* the stream parked in the context *)
  URLScheme : string;
  URLHost : string;
  RemoteAddr : string;
}.

Definition IsExtendedConnect (r : Request) : bool :=
  String.eqb (Method r) "CONNECT" && negb (String.eqb (HeaderGet ":protocol" (Hdr r)) "").

Definition Normalize (r : Request) : Request :=
  let h := HeaderSet "Connection" "Upgrade" (Hdr r) in
  let h := HeaderSet "Upgrade" "websocket" h in
  let h := HeaderDel ":protocol" h in
  let h := HeaderDel "Accept-Encoding" h in
  let h := HeaderDel "Content-Length" h in
  let h := HeaderDel "Transfer-Encoding" h in
  let h := HeaderDel "Expect" h in
  let stream := match Body r with NilBody => NoBody | b => b end in
  mkReq "GET" (URI r) (Host r) h NoBody 0 (Some stream) (URLScheme r) (URLHost r) (RemoteAddr r).

(** [onBadProtocol] and the 501 are the caller's. *)
Definition NormalizeHandler {A} (next : Request -> A) (onBadProtocol : A -> A) (notImplemented : A) (r : Request) : A :=
  if negb (IsExtendedConnect r) then next r
  else if negb (String.eqb (HeaderGet ":protocol" (Hdr r)) "websocket") then onBadProtocol notImplemented
  else next (Normalize r).

Section accept.
Context `{!WSOps}.

Definition wsGUID : string := "258EAFA5-E914-47DA-95CA-C5AB0DC85B11".
(** [rand]: sixteen random bytes. *)
Definition GenerateKey (rand : string) : string := base64 rand.
Definition AcceptKey (key : string) : string := base64 (sha1 (key +:+ wsGUID)).
Definition CheckAccept (accept key : string) : bool := String.eqb accept (AcceptKey key).
End accept.

Inductive ioErr := EOF | ErrShortWrite | IOErr (msg : string).

(** How a copy ended, if it has. *)
Inductive ended := Blocked | Clean | FailedWith (e : ioErr).

Record copied := mkCopied { c_data : string; c_flushes : nat; c_end : ended }.

(** [reads] are the results of successive reads, [writes] those of the writes. *)
Fixpoint Copy (flush : bool) (reads : list (string * option ioErr)) (writes : list (nat * option ioErr)) : copied :=
  match reads with
  | [] => mkCopied "" 0 Blocked
  | (d, er) :: reads =>
      let after writes (c : copied -> copied) :=
        match er with
        | Some EOF => c (mkCopied "" 0 Clean)
        | Some e => c (mkCopied "" 0 (FailedWith e))
        | None => c (Copy flush reads writes)
        end in
      if String.eqb d "" then after writes (fun c => c)
      else match writes with
      | [] => mkCopied "" 0 Blocked
      | (nw, ew) :: writes =>
          let out := str_take nw d in
          let fl := if flush then 1 else 0 in
          match ew with
          | Some e => mkCopied out fl (FailedWith e)
          | None =>
              if Nat.ltb nw (String.length d) then mkCopied out fl (FailedWith ErrShortWrite)
              else after writes (fun c => mkCopied (out +:+ c_data c) (fl + c_flushes c) (c_end c))
          end
      end
  end.

End Wsh2.

(** ** Headers on the wire *)

Module Wire.
Import Wsh2.

(** [Header.Write]: the line breaks of a value become spaces, the space around it goes, and a key that
    is not a token is left out. *)
Fixpoint breaksToSpaces (s : string) : string :=
  match s with
  | EmptyString => EmptyString
  | String c s => String (if Ascii.eqb c LF || Ascii.eqb c CR then " "%char else c) (breaksToSpaces s)
  end.

Definition blank (c : ascii) : bool := one_of (" " +:+ String (ascii_of_nat 9) crlf) c.
Fixpoint trimLeft (s : string) : string :=
  match s with String c s' => if blank c then trimLeft s' else s | EmptyString => EmptyString end.
Fixpoint trimRight (s : string) : string :=
  match s with
  | EmptyString => EmptyString
  | String c s => match trimRight s with
                  | EmptyString => if blank c then EmptyString else String c EmptyString
                  | t => String c t
                  end
  end.
Definition fieldValue (v : string) : string := trimRight (trimLeft (breaksToSpaces v)).

Definition ValidHeaderFieldName (k : string) : bool := negb (String.eqb k "") && all_chars tokenByte k.

Definition fieldLine (k v : string) : string := k +:+ ": " +:+ fieldValue v.

Definition headerLines (h : Header) : list string :=
  k ← merge_sort str_le (map_to_list h).*1;
  if ValidHeaderFieldName k then fieldLine k <$> default [] (h !! k) else [].

Definition writeLines (ls : list string) : string := foldr (fun l acc => l +:+ crlf +:+ acc) "" ls.

(** The request line and the host are written as they are. *)
Definition requestHead (uri : URL) (host : string) (h : Header) : list string :=
  ["GET " +:+ RequestURI uri +:+ " HTTP/1.1"; "Host: " +:+ host] ++ headerLines h ++ [""].

(** [hopHeaders] and [isHopHeader]. *)
Definition hopHeaders : list string :=
  ["Connection"; "Proxy-Connection"; "Keep-Alive"; "Proxy-Authenticate"; "Proxy-Authorization"; "Te";
   "Trailer"; "Transfer-Encoding"; "Upgrade"].
Definition isHopHeader (k : string) : bool := bool_decide (CanonicalMIMEHeaderKey k ∈ hopHeaders).

Definition HeaderAdd (k v : string) (h : Header) : Header :=
  <[CanonicalMIMEHeaderKey k := default [] (h !! CanonicalMIMEHeaderKey k) ++ [v]]> h.

(** [src] in the order of the range. *)
Definition copyFields (keep : string -> bool) (src : list (string * list string)) (dst : Header) : Header :=
  fold_left (fun dst kv => if keep kv.1 then fold_left (fun dst v => HeaderAdd kv.1 v dst) kv.2 dst else dst) src dst.

Definition copyHeader (src : list (string * list string)) (dst : Header) : Header :=
  copyFields (fun k => negb (isHopHeader k)) src dst.
Definition copyWSResponseHeader (src : list (string * list string)) (dst : Header) : Header :=
  copyFields (fun k => negb (isHopHeader k || String.eqb (CanonicalMIMEHeaderKey k) "Sec-Websocket-Accept")) src dst.

(** [http.Error]. *)
Definition errorHeader (h : Header) : Header :=
  HeaderSet "X-Content-Type-Options" "nosniff"
    (HeaderSet "Content-Type" "text/plain; charset=utf-8" (HeaderDel "Content-Length" h)).

(** [resp.Header.Get] on the fields of a response. *)
Definition fieldsGet (k : string) (fs : list (string * list string)) : string := HeaderGet k (list_to_map fs).

End Wire.

(** ** What a handler does *)

Module Log.
Import Wsh2.

Inductive event :=
| Sent (s : string)                                (* to the upstream, before the session *)
| Connected (r : Request) (took : string)          (* an extended CONNECT, and what was taken of its body *)
| Replied (code : Z) (h : Header) (b : string)     (* a complete response to the client *)
| Accepted (h : Header)                            (* a flushed 200, the stream stays open *)
| Switched (s : string)                            (* the 101 on the hijacked connection *)
| Uplink (s : string)                              (* the client's bytes delivered upstream *)
| Downlink (s : string)
| ReverseProxied (r : Request)
| CloseStream
| Counted (metric : string) (labels : list string).

Record Response := mkResp { code : Z; fields : list (string * list string); rbody : string }.

(** The round trip of an extended CONNECT: an error has its message, and the error that
    the dialer reported, if any. *)
Record rtError := mkRtErr { e_err : GoErr.goErr; e_msg : string; e_dial : option GoErr.goErr }.
Record connect := mkConnect { k_result : result rtError Response; k_took : string }.

(** The two directions of a session: what is read, and how the writes fare. *)
Record session := mkSession {
  up_reads : list (string * option ioErr);
  up_writes : list (nat * option ioErr);
  down_reads : list (string * option ioErr);
  down_writes : list (nat * option ioErr);
}.
Definition uplink (s : session) : copied := Copy false (up_reads s) (up_writes s).
Definition downlink (s : session) : copied := Copy true (down_reads s) (down_writes s).

(** The upgrade over HTTP/1.1: [u_wrote] bytes of the handshake were written. *)
Record upgrade := mkUpgrade {
  u_dial : option GoErr.goErr;
  u_tls : bool;
  u_rand : string;
  u_wrote : nat;
  u_answer : option Response;
  u_session : session;
}.

Fixpoint contains (s p : string) : bool :=
  has_prefix s p || match s with EmptyString => false | String _ s => contains s p end.

Definition errExtendedConnectNotSupported : string := "extended connect not supported by peer".
Definition notSupported (e : rtError) : bool := contains (e_msg e) errExtendedConnectNotSupported.

(** [http.Error(w, "Bad Gateway", 502)] on a response with the header [wh]. *)
Definition badGateway (wh : Header) : event :=
  Replied 502 (Wire.errorHeader wh) ("Bad Gateway" +:+ String LF EmptyString).

End Log.

(** ** The core *)

Module CoreTunnel.
Import Wsh2 Wire Log GoErr.

Definition wsH2CNegTTL : Z := (10 * minute)%Z.
Definition wafclaimHeader : string := "X-Parapet-Waf".

(** The verdicts against a Service, until when. *)
Abbreviation Negative := (gmap string Z).

Definition wsH2CNegativeFresh (now : Z) (key : string) (neg : Negative) : bool * Negative :=
  match neg !! key with
  | None => (false, neg)
  | Some t => if negb (now <? t)%Z then (false, delete key neg) else (true, neg)
  end.

Definition storeWSH2CNegative (now : Z) (key : string) (neg : Negative) : Negative :=
  <[key := (now + wsH2CNegTTL)%Z]> neg.

Definition wsH2CEligible (now : Z) (auto : option Proxy.autoH2C) (r : Request) (key : string) (neg : Negative) :
    bool * Negative :=
  let fresh := let (f, neg) := wsH2CNegativeFresh now key neg in (negb f, neg) in
  if String.eqb (URLScheme r) "h2c" then fresh
  else if String.eqb (URLScheme r) "http" then
    match auto with
    | Some a => if Proxy.freshPositive now key a then fresh else (false, neg)
    | None => (false, neg)
    end
  else (false, neg).

Definition buildWSConnect (r : Request) (stream : body) (addr : string) : Request :=
  let h := HeaderDel "Connection" (Hdr r) in
  let h := HeaderDel "Upgrade" h in
  let h := HeaderDel "Transfer-Encoding" h in
  let h := HeaderDel wafclaimHeader h in
  let h := HeaderSet ":protocol" "websocket" h in
  mkReq "CONNECT" (URI r) (Host r) h stream (-1) (Tunnel r) "http" addr (RemoteAddr r).

(** The header that [buildWSHandshake] leaves in the request, and the lines it writes. *)
Definition handshakeHeader (r : Request) (key : string) : Header :=
  HeaderSet "Sec-WebSocket-Key" key (HeaderDel wafclaimHeader (Hdr r)).
Definition buildWSHandshake (r : Request) (key : string) : string :=
  writeLines (requestHead (URI r) (Host r) (handshakeHeader r key)).

(** How the handler ends: served, not served (the h1 path is next), or a panic. *)
Inductive ended := Handled | NotHandled | Panics (e : goErr).

Section core.
Context `{!WSOps}.

(** [now] is read when the verdict is stored. *)
Definition tryWSTunnelH2C (now : Z) (k : connect) (down : session) (wh : Header) (r : Request) (stream : body)
    (key : string) (neg : Negative) : list event * ended * Negative :=
  let sent := Connected (buildWSConnect r stream (URLHost r)) (k_took k) in
  match k_result k with
  | Err e =>
      if notSupported e
      then ([sent; Counted "ws_upstream_h2c" ["not_supported"]], NotHandled, storeWSH2CNegative now key neg)
      else match e_dial e with
      | Some d => ([sent], Panics d, neg)
      | None =>
          if isDialError (Some (e_err e)) then ([sent], Panics (e_err e), neg)
          else ([sent; badGateway wh; Counted "ws_upstream_h2c" ["error"]; Counted "ws_tunnels" ["upstream_error"]],
                Handled, neg)
      end
  | Ok resp =>
      if negb (code resp / 100 =? 2)%Z
      then ([sent; Replied (code resp) (copyHeader (fields resp) wh) (rbody resp); CloseStream;
             Counted "ws_upstream_h2c" ["ok"]; Counted "ws_tunnels" ["refused"]], Handled, neg)
      else ([sent; Accepted (copyWSResponseHeader (fields resp) wh); Counted "ws_upstream_h2c" ["ok"];
             Counted "ws_tunnels" ["tunneled"]; Downlink (c_data (downlink down)); CloseStream], Handled, neg)
  end.

(** The dial of the pod and the upgrade. *)
Definition upgradeTunnel (u : upgrade) (wh : Header) (r : Request) : list event * ended :=
  match u_dial u with
  | Some e => ([], Panics e)
  | None =>
      let failed := [badGateway wh; Counted "ws_tunnels" ["upstream_error"]] in
      if String.eqb (URLScheme r) "https" && negb (u_tls u) then (failed, Handled)
      else
        let key := GenerateKey (u_rand u) in
        let handshake := buildWSHandshake r key in
        if Nat.ltb (u_wrote u) (String.length handshake)
        then (Sent (str_take (u_wrote u) handshake) :: failed, Handled)
        else match u_answer u with
        | None => (Sent handshake :: failed, Handled)
        | Some resp =>
            if negb (code resp =? 101)%Z
            then ([Sent handshake; Replied (code resp) (copyHeader (fields resp) wh) (rbody resp);
                   Counted "ws_tunnels" ["refused"]], Handled)
            else if negb (CheckAccept (fieldsGet "Sec-WebSocket-Accept" (fields resp)) key)
            then (Sent handshake :: failed, Handled)
            else ([Sent handshake; Accepted (copyWSResponseHeader (fields resp) wh);
                   Counted "ws_tunnels" ["tunneled"]; Uplink (c_data (uplink (u_session u)));
                   Downlink (c_data (downlink (u_session u))); CloseStream], Handled)
        end
  end.

(** What the request finds: the instant of the verdict's lookup and of its store, and
    the two ways to the pod. *)
Record pod := mkPod { p_now : Z; p_later : Z; p_connect : connect; p_down : session; p_upgrade : upgrade }.

Definition serveWSTunnel (wsUpstreamH2C : bool) (auto : option Proxy.autoH2C) (p : pod) (wh : Header) (r : Request)
    (stream : body) (key : string) (neg : Negative) : list event * ended * Negative :=
  let (eligible, neg) :=
    if wsUpstreamH2C then wsH2CEligible (p_now p) auto r key neg else (false, neg) in
  let '(log, e, neg) :=
    if eligible then tryWSTunnelH2C (p_later p) (p_connect p) (p_down p) wh r stream key neg
    else ([], NotHandled, neg) in
  match e with
  | NotHandled => let (log', e') := upgradeTunnel (p_upgrade p) wh r in (log ++ log', e', neg)
  | _ => (log, e, neg)
  end.

(** [ServeHTTP]; [None] is the reverse proxy. *)
Definition ServeHTTP (wsUpstreamH2C : bool) (auto : option Proxy.autoH2C) (p : pod) (wh : Header) (r : Request)
    (key : string) (neg : Negative) : option (list event * ended * Negative) :=
  match Tunnel r with
  | Some stream =>
      if String.eqb (HeaderGet "Upgrade" (Hdr r)) "websocket"
      then Some (serveWSTunnel wsUpstreamH2C auto p wh r stream key neg) else None
  | None => None
  end.

End core.
End CoreTunnel.

(** ** The edge *)

Module EdgeTunnel.
Import Wsh2 Wire Log.

(** *** The transports of the reverse proxy *)

Record ForwarderTuning := mkTuning { MaxConnsPerHost : Z; MaxIdleConnsPerHost : Z }.
Definition defaultMaxIdleConnsPerHost : Z := 32.
Definition idle (t : ForwarderTuning) : Z :=
  if (0 <? MaxIdleConnsPerHost t)%Z then MaxIdleConnsPerHost t else defaultMaxIdleConnsPerHost.

(** A connection pool: whether it prefers HTTP/2, encrypts, the bounds and the name and
    the client certificate it presents. *)
Record pool := mkPool {
  po_h2 : bool;
  po_tls : bool;
  po_max : Z;
  po_idle : Z;
  po_sni : string;
  po_clientCert : bool;
}.
Inductive transport :=
| Single (p : pool)
| Split (h2 h1 : pool).     (* upgrades on the second *)

Definition plaintextH1Transport (t : ForwarderTuning) : pool :=
  mkPool false false (MaxConnsPerHost t) (idle t) "" false.
Definition h1TLSTransport (sni : string) (cert : bool) (t : ForwarderTuning) : pool :=
  mkPool false true (MaxConnsPerHost t) (idle t) sni cert.
Definition h2TLSTransport (sni : string) (cert : bool) (t : ForwarderTuning) : pool :=
  mkPool true true (MaxConnsPerHost t) (idle t) sni cert.
(** parapet's h2c transport: multiplexed, without a bound on its connections. *)
Definition h2cPool : pool := mkPool true false 0 0 "" false.

Record wsTunnel := mkTunnel { t_scheme : string; t_addr : string }.
Record Forwarder := mkForwarder { f_transport : transport; f_scheme : string; f_addr : string; ws : option wsTunnel; f_TLS : bool }.

Definition NewForwarder (addr : string) (useTLS enableHTTP2 : bool) (sni : string) (tuning : ForwarderTuning)
    (getClientCert wsH2 : bool) : Forwarder :=
  let tr :=
    if useTLS then
      let h1 := h1TLSTransport sni getClientCert tuning in
      if enableHTTP2 then Split (h2TLSTransport sni getClientCert tuning) h1 else Single h1
    else if enableHTTP2 then Split h2cPool (plaintextH1Transport tuning)
    else Single (plaintextH1Transport tuning) in
  let scheme := if useTLS then "https" else "http" in
  mkForwarder tr scheme addr (if wsH2 && enableHTTP2 then Some (mkTunnel scheme addr) else None) useTLS.

(** [RoundTrip] of the transport: the pool a request rides. *)
Definition poolOf (t : transport) (r : Request) : pool :=
  match t with
  | Single p => p
  | Split h2 h1 => if String.eqb (HeaderGet "Upgrade" (Hdr r)) "" then h2 else h1
  end.

(** [isClientCertRejected]; [local]: the error holds a [*tls.AlertError]. *)
Definition rejections : list string :=
  ["bad certificate"; "certificate required"; "unknown certificate authority"; "unknown ca";
   "certificate unknown"; "certificate revoked"].
Definition isClientCertRejected (e : option (bool * string)) : bool :=
  match e with
  | None => false
  | Some (local, msg) =>
      if local then false
      else let s := to_lower msg in
        if negb (contains s "remote error: tls:") then false else existsb (contains s) rejections
  end.

(** *** WebSocket *)

Definition isWebSocketUpgrade (r : Request) : bool :=
  String.eqb (to_lower (HeaderGet "Upgrade" (Hdr r))) "websocket".

Definition translate (t : wsTunnel) (r : Request) (b : body) : Request :=
  let h := HeaderDel "Connection" (Hdr r) in
  let h := HeaderDel "Upgrade" h in
  let h := HeaderDel "Transfer-Encoding" h in
  let h := HeaderDel "Sec-WebSocket-Key" h in
  let h := HeaderDel "Content-Length" h in
  let h := HeaderDel "Expect" h in
  let h := HeaderSet ":protocol" "websocket" h in
  mkReq "CONNECT" (URI r) (Host r) h b (-1) (Tunnel r) (t_scheme t) (t_addr t) (RemoteAddr r).

Definition handshakeHeader (r : Request) (key : string) : Header := HeaderSet "Sec-WebSocket-Key" key (Hdr r).
Definition buildBridgeHandshake (r : Request) (key : string) : string :=
  writeLines (requestHead (URI r) (Host r) (handshakeHeader r key)).

Section edge.
Context `{!WSOps}.

(** The values are written as the core sent them. *)
Definition switchingLines (clientKey : string) (fs : list (string * list string)) : list string :=
  ["HTTP/1.1 101 Switching Protocols"; "Upgrade: websocket"; "Connection: Upgrade";
   "Sec-WebSocket-Accept: " +:+ AcceptKey clientKey] ++
  (h ← ["Sec-WebSocket-Protocol"; "Sec-WebSocket-Extensions"];
   (fun v => h +:+ ": " +:+ v) <$> default [] ((list_to_map fs : Header) !! CanonicalMIMEHeaderKey h)) ++ [""].

(** What a request finds: the client's connection can be hijacked, and is; the
    extended CONNECT; the 101 is written; the session. *)
Record core := mkCore {
  c_canHijack : bool;
  c_connect : connect;
  c_hijacked : bool;
  c_wrote101 : bool;
  c_session : session;
  c_upgrade : upgrade;
}.

Definition counted (protocol res : string) : event := Counted "ws_upstream" [protocol; res].

(** [serve]: an upgrade over HTTP/1.1.  The body of the CONNECT is a pipe, empty until
    the session. *)
Definition serve (t : wsTunnel) (c : core) (wh : Header) (r : Request) : list event * bool :=
  let clientKey := HeaderGet "Sec-WebSocket-Key" (Hdr r) in
  if negb (String.eqb (Method r) "GET") || String.eqb clientKey "" then
    ([Replied 400 (errorHeader wh) ("Bad Request" +:+ String LF EmptyString)], true)
  else if negb (c_canHijack c) then ([], false)
  else
    let sent := Connected (translate t r (Live "")) "" in
    match k_result (c_connect c) with
    | Err _ => ([sent; counted "http1" "fallback"], false)
    | Ok resp =>
        if negb (code resp =? 200)%Z then
          ([sent; Replied (code resp) (copyHeader (fields resp) wh) (rbody resp); counted "h2" "ok"], true)
        else if negb (c_hijacked c) then ([sent; badGateway wh; counted "h2" "error"], true)
        else if negb (c_wrote101 c) then ([sent; counted "h2" "error"], true)
        else ([sent; Switched (writeLines (switchingLines clientKey (fields resp))); counted "h2" "ok";
               Uplink (c_data (uplink (c_session c))); Downlink (c_data (downlink (c_session c)))], true)
    end.

(** [serveH2Inbound]: the parked stream is the body of the CONNECT. *)
Definition serveH2Inbound (t : wsTunnel) (c : core) (wh : Header) (r : Request) (stream : body) : list event * bool :=
  let sent := Connected (translate t r stream) (k_took (c_connect c)) in
  match k_result (c_connect c) with
  | Err e =>
      if notSupported e then ([sent], false)
      else ([sent; badGateway wh; CloseStream; counted "h2" "error"], true)
  | Ok resp =>
      if negb (code resp =? 200)%Z then
        ([sent; Replied (code resp) (copyHeader (fields resp) wh) (rbody resp); CloseStream; counted "h2" "ok"], true)
      else ([sent; Accepted (copyWSResponseHeader (fields resp) wh); counted "h2" "ok";
             Downlink (c_data (downlink (c_session c))); CloseStream], true)
  end.

(** The bridge: [wsBridge.serve]. *)
Definition bridge (useTLS : bool) (c : core) (wh : Header) (r : Request) (fallback : bool) : list event :=
  let u := c_upgrade c in
  let failed := [badGateway wh; CloseStream; counted "http1" "error"] in
  match u_dial u with
  | Some _ => failed
  | None =>
      if useTLS && negb (u_tls u) then failed
      else
        let key := GenerateKey (u_rand u) in
        let handshake := buildBridgeHandshake r key in
        if Nat.ltb (u_wrote u) (String.length handshake) then Sent (str_take (u_wrote u) handshake) :: failed
        else match u_answer u with
        | None => Sent handshake :: failed
        | Some resp =>
            let result := if fallback then "fallback" else "ok" in
            if negb (code resp =? 101)%Z then
              [Sent handshake; Replied (code resp) (copyHeader (fields resp) wh) (rbody resp); CloseStream;
               counted "http1" result]
            else if negb (CheckAccept (fieldsGet "Sec-WebSocket-Accept" (fields resp)) key) then Sent handshake :: failed
            else [Sent handshake; Accepted (copyWSResponseHeader (fields resp) wh); counted "http1" result;
                  Uplink (c_data (uplink (u_session u))); Downlink (c_data (downlink (u_session u))); CloseStream]
        end
  end.

(** The Director and the cleared remote address. *)
Definition reverseProxied (f : Forwarder) (r : Request) : event :=
  ReverseProxied (mkReq (Method r) (URI r) (Host r) (Hdr r) (Body r) (ContentLength r) (Tunnel r)
                    (f_scheme f) (f_addr f) "").

Definition ServeHandler (f : Forwarder) (c : core) (wh : Header) (r : Request) : list event :=
  if isWebSocketUpgrade r then
    match Tunnel r with
    | Some stream =>
        match ws f with
        | Some t =>
            let (log, handled) := serveH2Inbound t c wh r stream in
            if handled then log else log ++ bridge (f_TLS f) c wh r true
        | None => bridge (f_TLS f) c wh r false
        end
    | None =>
        match ws f with
        | Some t =>
            let (log, handled) := serve t c wh r in
            if handled then log else log ++ [reverseProxied f r]
        | None => [reverseProxied f r]
        end
    end
  else [reverseProxied f r].

End edge.
End EdgeTunnel.

(** ** Lemmas *)

Module WebSocketLemmas.
Import Wsh2 Wire Log.

(** *** Copies *)

Definition prefix_of (a s : string) : Prop := exists t, s = a +:+ t.

Lemma prefix_of_nil s : prefix_of "" s.
Proof. by exists s. Qed.
Lemma prefix_of_app a b s : prefix_of b s -> prefix_of (a +:+ b) (a +:+ s).
Proof. intros [t ->]. exists t. by rewrite str_app_assoc. Qed.
Lemma prefix_of_take n s t : prefix_of (str_take n s) (s +:+ t).
Proof. exists (str_drop n s +:+ t). by rewrite <- str_app_assoc, str_take_drop. Qed.
Lemma prefix_of_trans a b c : prefix_of a b -> prefix_of b c -> prefix_of a c.
Proof. intros [t ->] [u ->]. exists (t +:+ u). by rewrite str_app_assoc. Qed.

Lemma str_take_all n s : String.length s <= n -> str_take n s = s.
Proof.
  revert n. induction s as [|c s IH]; intros [|n] H; simpl in *; try done; [lia|]. rewrite IH; [done|lia].
Qed.

(** What the reads return. *)
Definition readAll {E} (reads : list (string * E)) : string := foldr (fun x acc => x.1 +:+ acc) "" reads.

Lemma Copy_prefix flush reads writes : prefix_of (c_data (Copy flush reads writes)) (readAll reads).
Proof.
  revert writes. induction reads as [|[d er] reads IH]; intros writes; simpl; [apply prefix_of_nil|].
  destruct (String.eqb_spec d "") as [->|Hd].
  { destruct er as [[]|]; simpl; [apply prefix_of_nil..|apply IH]. }
  destruct writes as [|[nw [e|]] writes]; simpl; [apply prefix_of_nil|apply prefix_of_take|].
  destruct (Nat.ltb_spec nw (String.length d)); [apply prefix_of_take|].
  destruct er as [[]|]; simpl; rewrite ?str_app_nil_r; try apply prefix_of_take.
  rewrite str_take_all by done. apply prefix_of_app, IH.
Qed.

(** *** The fields of a response *)

Definition canonical (fs : list (string * list string)) : Prop :=
  NoDup fs.*1 /\ Forall (fun kv => CanonicalMIMEHeaderKey kv.1 = kv.1) fs.

Lemma addAll_lookup k vs h k' :
  CanonicalMIMEHeaderKey k = k ->
  fold_left (fun dst v => HeaderAdd k v dst) vs h !! k' =
  if String.eqb k k' && negb (bool_decide (vs = [])) then Some (default [] (h !! k') ++ vs) else h !! k'.
Proof.
  intros Hk. revert h. induction vs as [|v vs IH]; intros h; [by rewrite andb_false_r|].
  simpl fold_left. rewrite IH. unfold HeaderAdd. rewrite Hk.
  destruct (String.eqb_spec k k') as [->|Hne]; simpl.
  - rewrite lookup_insert_eq. case_bool_decide; simpl.
    + subst. done.
    + by rewrite <- app_assoc.
  - by rewrite lookup_insert_ne.
Qed.

Lemma copyFields_lookup keep fs dst k :
  canonical fs ->
  copyFields keep fs dst !! k =
  match (list_to_map fs : Header) !! k with
  | Some (v :: vs) => if keep k then Some (default [] (dst !! k) ++ v :: vs) else dst !! k
  | _ => dst !! k
  end.
Proof.
  intros [Hnd Hc]. unfold copyFields. revert dst. induction fs as [|[k1 vs1] fs IH]; intros dst; [done|].
  rewrite fmap_cons in Hnd. apply NoDup_cons in Hnd as [Hn Hnd]. apply Forall_cons in Hc as [Hk Hc]. simpl in *.
  rewrite IH by done. destruct (decide (k1 = k)) as [->|Hne].
  - rewrite (proj1 (not_elem_of_list_to_map fs k)) by done. rewrite lookup_insert_eq.
    destruct (keep k) eqn:Hkeep; [|by destruct vs1].
    rewrite addAll_lookup, String.eqb_refl by done. by destruct vs1.
  - rewrite lookup_insert_ne by done.
    assert (Hd : (if keep k1 then fold_left (fun dst v => HeaderAdd k1 v dst) vs1 dst else dst) !! k = dst !! k).
    { destruct (keep k1); [|done]. rewrite addAll_lookup by done.
      destruct (String.eqb_spec k1 k); [done|]. done. }
    by rewrite Hd.
Qed.

(** *** Normalised requests *)

Lemma Normalize_lookup r k :
  Hdr (Normalize r) !! k =
    if bool_decide (k ∈ [":protocol"; "Accept-Encoding"; "Content-Length"; "Transfer-Encoding"; "Expect"]) then None
    else if String.eqb k "Upgrade" then Some ["websocket"]
    else if String.eqb k "Connection" then Some ["Upgrade"] else Hdr r !! k.
Proof.
  unfold Normalize, HeaderDel, HeaderSet. cbn [Hdr].
  change (CanonicalMIMEHeaderKey "Connection") with "Connection".
  change (CanonicalMIMEHeaderKey "Upgrade") with "Upgrade".
  change (CanonicalMIMEHeaderKey ":protocol") with ":protocol".
  change (CanonicalMIMEHeaderKey "Accept-Encoding") with "Accept-Encoding".
  change (CanonicalMIMEHeaderKey "Content-Length") with "Content-Length".
  change (CanonicalMIMEHeaderKey "Transfer-Encoding") with "Transfer-Encoding".
  change (CanonicalMIMEHeaderKey "Expect") with "Expect".
  case_bool_decide as Hin.
  - rewrite !lookup_delete_None. set_solver.
  - rewrite !lookup_delete_ne by set_solver.
    destruct (String.eqb_spec k "Upgrade") as [->|]; [by rewrite lookup_insert_eq|].
    rewrite lookup_insert_ne by done.
    destruct (String.eqb_spec k "Connection") as [->|]; [by rewrite lookup_insert_eq|].
    by rewrite lookup_insert_ne.
Qed.

(** *** The lines of a handshake *)

Definition plain (s : string) : Prop := mem_char LF s = false /\ mem_char CR s = false.

Lemma plain_app a b : plain (a +:+ b) <-> plain a /\ plain b.
Proof. unfold plain. rewrite !mem_char_app, !orb_false_iff. naive_solver. Qed.

Lemma breaksToSpaces_plain s : plain (breaksToSpaces s).
Proof.
  induction s as [|c s [IH1 IH2]]; [done|]. unfold plain. simpl. rewrite IH1, IH2, !orb_false_r.
  destruct (Ascii.eqb c LF) eqn:H1; [done|]. destruct (Ascii.eqb c CR) eqn:H2; [done|]. done.
Qed.

Lemma trimLeft_mem c s : mem_char c s = false -> mem_char c (trimLeft s) = false.
Proof.
  induction s as [|a s IH]; simpl; [done|]. intros [Ha Hs]%orb_false_iff.
  destruct (blank a); [by apply IH|]. simpl. by rewrite Ha.
Qed.
Lemma trimRight_mem c s : mem_char c s = false -> mem_char c (trimRight s) = false.
Proof.
  induction s as [|a s IH]; simpl; [done|]. intros [Ha Hs]%orb_false_iff. specialize (IH Hs).
  destruct (trimRight s); [destruct (blank a); simpl; by rewrite ?Ha|]. simpl in *. by rewrite Ha.
Qed.

Lemma fieldValue_plain v : plain (fieldValue v).
Proof.
  destruct (breaksToSpaces_plain v) as [H1 H2]. unfold fieldValue.
  split; by apply trimRight_mem, trimLeft_mem.
Qed.

Lemma headerLines_plain h : Forall plain (headerLines h).
Proof.
  apply Forall_forall. intros l [k [Hl Hk]]%list_elem_of_bind.
  destruct (ValidHeaderFieldName k) eqn:Hv; [|by apply elem_of_nil in Hl].
  apply list_elem_of_fmap in Hl as (v & -> & _). unfold fieldLine. rewrite !plain_app. split_and!.
  - apply andb_true_iff in Hv as [_ Hv]. split; by apply (all_chars_mem tokenByte).
  - done.
  - apply fieldValue_plain.
Qed.

(** Lines that hold no break are read back one by one. *)
Lemma writeLines_split ls :
  Forall plain ls -> split_char LF (writeLines ls) = ((fun l => l +:+ String CR EmptyString) <$> ls) ++ [""].
Proof.
  induction 1 as [|l ls [H1 H2] _ IH]; [done|]. cbn [writeLines foldr]. fold (writeLines ls).
  assert (He : l +:+ crlf +:+ writeLines ls = (l +:+ String CR EmptyString) +:+ String LF (writeLines ls)).
  { by rewrite str_app_assoc. }
  rewrite He, split_char_app, IH; [done|]. by rewrite mem_char_app, H1.
Qed.

Lemma requestHead_plain uri host h :
  plain (RequestURI uri) -> plain host -> Forall plain (requestHead uri host h).
Proof.
  intros Hu Hh. unfold requestHead. apply Forall_app. split; [|apply Forall_app; split; [apply headerLines_plain|]].
  - constructor; [|constructor; [|constructor]]; rewrite ?plain_app; done.
  - by repeat constructor.
Qed.

Lemma headerLines_elem h l :
  l ∈ headerLines h <-> exists k vs v, h !! k = Some vs /\ ValidHeaderFieldName k = true /\ v ∈ vs /\ l = fieldLine k v.
Proof.
  unfold headerLines. rewrite list_elem_of_bind. split.
  - intros (k & Hl & Hk). rewrite (merge_sort_Permutation str_le) in Hk.
    apply list_elem_of_fmap in Hk as ([k' vs] & -> & Hk%elem_of_map_to_list). simpl in *.
    destruct (ValidHeaderFieldName k') eqn:Hval; [|by apply elem_of_nil in Hl].
    rewrite Hk in Hl. apply list_elem_of_fmap in Hl as (v & -> & Hv). exists k', vs, v. split; [exact Hk|]. split; [assumption|]. split; [exact Hv|reflexivity].
  - intros (k & vs & v & Hk & Hv & Hin & ->). exists k. rewrite Hv, Hk. split; [by apply list_elem_of_fmap_2|].
    rewrite (merge_sort_Permutation str_le). apply list_elem_of_fmap. exists (k, vs). by rewrite elem_of_map_to_list.
Qed.

(** *** Logs *)

(** The client's bytes that left for the upstream, and how often the client was answered. *)
Definition taken (e : event) : string := match e with Connected _ s | Uplink s => s | _ => "" end.
Definition uploaded (log : list event) : string := foldr (fun e acc => taken e +:+ acc) "" log.
Definition answers (log : list event) : nat :=
  countb (fun e => match e with Replied _ _ _ | Accepted _ | Switched _ | ReverseProxied _ => true | _ => false end) log.
(** A request, or bytes of one, reached the upstream. *)
Definition reached (log : list event) : bool :=
  existsb (fun e => match e with Sent _ | Uplink _ => true | _ => false end) log.

Lemma uploaded_app l1 l2 : uploaded (l1 ++ l2) = uploaded l1 +:+ uploaded l2.
Proof.
  induction l1 as [|e l1 IH]; [done|].
  change (taken e +:+ uploaded (l1 ++ l2) = (taken e +:+ uploaded l1) +:+ uploaded l2).
  by rewrite IH, str_app_assoc.
Qed.
Lemma answers_app l1 l2 : answers (l1 ++ l2) = answers l1 + answers l2.
Proof. apply countb_app. Qed.

Definition bytes (b : body) : string := match b with Live s => s | _ => "" end.

(** What the HTTP/2 transport promises about the body of a request: it takes a prefix, and
    nothing when the peer does not support the method or could not be dialled. *)
Definition takesBody (k : connect) (b : body) : Prop :=
  prefix_of (k_took k) (bytes b) /\
  forall e, k_result k = Err e ->
    notSupported e = true \/ is_Some (e_dial e) \/ GoErr.isDialError (Some (e_err e)) = true -> k_took k = "".

(** The session of an upgrade reads the stream. *)
Definition readsStream (s : session) (b : body) : Prop := prefix_of (readAll (up_reads s)) (bytes b).

Lemma uplink_prefix s b : readsStream s b -> prefix_of (c_data (uplink s)) (bytes b).
Proof. intros H. eapply prefix_of_trans; [apply Copy_prefix|done]. Qed.

Section tunnels.
Context `{!WSOps}.

Lemma took_nil_prefix b : prefix_of (uploaded []) (bytes b).
Proof. apply prefix_of_nil. Qed.

(** *** The core *)

Section core.
Import CoreTunnel.

(** What both ways to a pod keep: a panic has touched nothing, and otherwise the client has one answer. *)
Definition sound (b : body) (log : list event) (e : CoreTunnel.ended) : Prop :=
  prefix_of (uploaded log) (bytes b) /\
  match e with
  | Handled => answers log = 1
  | _ => answers log = 0 /\ uploaded log = "" /\ reached log = false
  end.

Lemma upgradeTunnel_sound u wh r b :
  readsStream (u_session u) b -> sound b (upgradeTunnel u wh r).1 (upgradeTunnel u wh r).2.
Proof.
  intros Hs. pose proof (uplink_prefix _ _ Hs) as Hu. unfold upgradeTunnel, sound.
  destruct (u_dial u); [split; [apply prefix_of_nil|done]|].
  destruct (String.eqb (URLScheme r) "https" && _); [split; [apply prefix_of_nil|done]|].
  cbv zeta. destruct (Nat.ltb _ _); [split; [apply prefix_of_nil|done]|].
  destruct (u_answer u) as [resp|]; [|split; [apply prefix_of_nil|done]].
  destruct (negb _); [split; [apply prefix_of_nil|done]|].
  destruct (negb _); [split; [apply prefix_of_nil|done]|].
  split; [|done]. unfold uploaded. simpl. by rewrite str_app_nil_r.
Qed.

Lemma upgradeTunnel_ends u wh r : (upgradeTunnel u wh r).2 <> NotHandled.
Proof.
  unfold upgradeTunnel. destruct (u_dial u); [done|]. cbv zeta.
  repeat (case_match; try done).
Qed.

Lemma tryWSTunnelH2C_sound now k down wh r b key neg :
  takesBody k b ->
  sound b (tryWSTunnelH2C now k down wh r b key neg).1.1 (tryWSTunnelH2C now k down wh r b key neg).1.2.
Proof.
  intros [Hp He]. unfold tryWSTunnelH2C, sound.
  destruct (k_result k) as [resp|e] eqn:Hk.
  - case_match; (split; [|done]); unfold uploaded; simpl; by rewrite str_app_nil_r.
  - specialize (He e eq_refl). destruct (notSupported e).
    { rewrite (He (or_introl eq_refl)). split; [apply prefix_of_nil|done]. }
    destruct (e_dial e) as [d|].
    { rewrite He by (right; left; by eexists). split; [apply prefix_of_nil|done]. }
    destruct (GoErr.isDialError _).
    { rewrite He by (right; right; done). split; [apply prefix_of_nil|done]. }
    split; [|done]. unfold uploaded. simpl. by rewrite str_app_nil_r.
Qed.

Lemma sound_then b log1 log2 e :
  sound b log1 NotHandled -> sound b log2 e -> sound b (log1 ++ log2) e.
Proof.
  intros (_ & Ha & Hu & Hr) [Hp He]. unfold sound. rewrite uploaded_app, answers_app, Hu, Ha.
  split; [done|]. unfold reached in *. rewrite existsb_app, Hr. done.
Qed.
End core.

(** *** The edge *)

Section edge.
Import EdgeTunnel.

Lemma bridge_sound useTLS c wh r fallback b :
  readsStream (u_session (c_upgrade c)) b ->
  prefix_of (uploaded (bridge useTLS c wh r fallback)) (bytes b) /\
  answers (bridge useTLS c wh r fallback) = 1 /\
  existsb (fun e => match e with ReverseProxied _ => true | _ => false end) (bridge useTLS c wh r fallback) = false.
Proof.
  intros Hs. pose proof (uplink_prefix _ _ Hs) as Hu. unfold bridge.
  destruct (u_dial (c_upgrade c)); [split; [apply prefix_of_nil|done]|].
  destruct (useTLS && _); [split; [apply prefix_of_nil|done]|].
  cbv zeta. destruct (Nat.ltb _ _); [split; [apply prefix_of_nil|done]|].
  destruct (u_answer (c_upgrade c)) as [resp|]; [|split; [apply prefix_of_nil|done]].
  destruct (negb _); [split; [apply prefix_of_nil|done]|].
  destruct (negb _); [split; [apply prefix_of_nil|done]|].
  split; [|done]. unfold uploaded. simpl. by rewrite str_app_nil_r.
Qed.

Lemma serveH2Inbound_sound t c wh r b :
  takesBody (c_connect c) b ->
  let res := serveH2Inbound t c wh r b in
  existsb (fun e => match e with ReverseProxied _ => true | _ => false end) res.1 = false /\
  prefix_of (uploaded res.1) (bytes b) /\
  if res.2 then answers res.1 = 1 else answers res.1 = 0 /\ uploaded res.1 = "".
Proof.
  intros [Hp He]. unfold serveH2Inbound. cbv zeta.
  destruct (k_result (c_connect c)) as [resp|e].
  - case_match; (split; [done|]); (split; [|done]); unfold uploaded; simpl; by rewrite str_app_nil_r.
  - specialize (He e eq_refl). destruct (notSupported e).
    + rewrite (He (or_introl eq_refl)). split; [done|]. split; [apply prefix_of_nil|done].
    + split; [done|]. split; [|done]. unfold uploaded. simpl. by rewrite str_app_nil_r.
Qed.

(** An upgrade over HTTP/1.1 that is not served has not been answered. *)
Lemma serve_sound t c wh r :
  let res := serve t c wh r in
  existsb (fun e => match e with ReverseProxied _ => true | _ => false end) res.1 = false /\
  if res.2 then answers res.1 = 1 \/ answers res.1 = 0 /\ c_wrote101 c = false
  else answers res.1 = 0 /\ uploaded res.1 = "".
Proof.
  unfold serve. cbv zeta. destruct (negb (String.eqb (Method r) "GET") || _); [split; [done|by left]|].
  destruct (negb (c_canHijack c)); [done|].
  destruct (k_result (c_connect c)) as [resp|e]; [|done].
  destruct (negb _); [split; [done|by left]|]. destruct (negb (c_hijacked c)); [split; [done|by left]|].
  destruct (c_wrote101 c); simpl; (split; [done|]); [by left|by right].
Qed.
End edge.
End tunnels.

End WebSocketLemmas.

(** ** Properties *)

Module WebSocketProps.
Import Wsh2 Wire Log WebSocketLemmas.

(** An extended CONNECT for WebSocket reaches the next handler as an upgrade without a
    body, with its stream parked and every other header field as it came; another
    protocol is refused, and any other request passes as it is. *)
Theorem normalize_gives_an_upgrade {A} (next : Request -> A) onBadProtocol notImplemented r :
  (IsExtendedConnect r = false -> NormalizeHandler next onBadProtocol notImplemented r = next r) /\
  (IsExtendedConnect r = true -> HeaderGet ":protocol" (Hdr r) <> "websocket" ->
     NormalizeHandler next onBadProtocol notImplemented r = onBadProtocol notImplemented) /\
  (IsExtendedConnect r = true -> HeaderGet ":protocol" (Hdr r) = "websocket" ->
     exists r', NormalizeHandler next onBadProtocol notImplemented r = next r' /\
       Method r' = "GET" /\ Body r' = NoBody /\ ContentLength r' = 0%Z /\ IsExtendedConnect r' = false /\
       Tunnel r' = Some (match Body r with NilBody => NoBody | b => b end) /\
       URI r' = URI r /\ Host r' = Host r /\
       forall k, Hdr r' !! k =
         if bool_decide (k ∈ [":protocol"; "Accept-Encoding"; "Content-Length"; "Transfer-Encoding"; "Expect"]) then None
         else if String.eqb k "Upgrade" then Some ["websocket"]
         else if String.eqb k "Connection" then Some ["Upgrade"] else Hdr r !! k).
Proof.
  unfold NormalizeHandler. split; [by intros ->|]. split.
  - intros -> Hp. by destruct (String.eqb_spec (HeaderGet ":protocol" (Hdr r)) "websocket").
  - intros -> ->. exists (Normalize r). cbn [negb]. do 8 (split; [done|]). apply Normalize_lookup.
Qed.

(** The copy loop delivers a prefix of what it reads, and all of it when it ends
    cleanly, which it does only at the end of the stream. *)
Theorem copy_delivers_in_order flush reads writes :
  let c := Copy flush reads writes in
  prefix_of (c_data c) (readAll reads) /\
  (c_end c = Clean -> exists pre d post,
     reads = pre ++ (d, Some EOF) :: post /\ c_data c = readAll pre +:+ d /\ Forall (fun x => x.2 = None) pre).
Proof.
  split; [apply Copy_prefix|]. revert writes. induction reads as [|[d er] reads IH]; intros writes; simpl; [done|].
  destruct (String.eqb_spec d "") as [->|Hd].
  - destruct er as [[]|]; simpl; try done.
    + intros _. by exists [], "", reads.
    + intros Hc. destruct (IH writes Hc) as (pre & d & post & -> & -> & Hn).
      exists (("", None) :: pre), d, post. split; [done|]. split; [done|]. by constructor.
  - destruct writes as [|[nw [e|]] writes]; simpl; [done..|].
    destruct (Nat.ltb_spec nw (String.length d)) as [|Hw]; [done|].
    destruct er as [[]|]; simpl; try done.
    + intros _. exists [], d, reads. split; [done|]. split; [|done]. by rewrite str_app_nil_r, str_take_all.
    + intros Hc. destruct (IH writes Hc) as (pre & d' & post & -> & -> & Hn).
      exists ((d, None) :: pre), d', post. split; [done|]. split; [|by constructor].
      simpl. by rewrite str_take_all, str_app_assoc.
Qed.

(** Of a response only the fields of the payload are relayed: no hop-by-hop field, and
    for an accepted session no accept proof; each other field is appended, complete, to
    those of the client's response. *)
Theorem relayed_fields_exact fs wh k :
  canonical fs ->
  copyHeader fs wh !! k =
    match (list_to_map fs : Header) !! k with
    | Some (v :: vs) => if isHopHeader k then wh !! k else Some (default [] (wh !! k) ++ v :: vs)
    | _ => wh !! k
    end /\
  copyWSResponseHeader fs wh !! k =
    match (list_to_map fs : Header) !! k with
    | Some (v :: vs) => if isHopHeader k || String.eqb (CanonicalMIMEHeaderKey k) "Sec-Websocket-Accept" then wh !! k
                        else Some (default [] (wh !! k) ++ v :: vs)
    | _ => wh !! k
    end.
Proof.
  intros Hc. unfold copyHeader, copyWSResponseHeader. rewrite !copyFields_lookup by done.
  split; repeat case_match; done.
Qed.

(** Fields that the response's own [Connection] field names as hop-by-hop are relayed. *)
Theorem nominated_field_is_relayed :
  canonical [("Connection", ["X-Hop"]); ("X-Hop", ["1"])] /\
  copyHeader [("Connection", ["X-Hop"]); ("X-Hop", ["1"])] ∅ = {["X-Hop" := ["1"]]}.
Proof.
  split; [|by vm_compute]. split; [|by repeat constructor]. apply (bool_decide_unpack _). by vm_compute.
Qed.

(** *** The handshakes *)

(** C24: the handshake that the core sends a pod, and the one that the edge sends the
    core, for a request that came as an extended CONNECT are read back, line by line, as the request line, the host
    and the fields: no value of a field can add a line (the request URI and the Host have no line
    break, as [net/http] hands them over).  The fields are the request's with a fresh
    key, without anything that announces a body; the claim of the edge's WAF reaches the core and
    never a pod. *)
Theorem handshakes_carry_exactly_the_request r0 key :
  let r := Normalize r0 in
  let forPod := CoreTunnel.handshakeHeader r key in
  let forCore := EdgeTunnel.handshakeHeader r key in
  plain (RequestURI (URI r0)) -> plain (Host r0) ->
  split_char LF (CoreTunnel.buildWSHandshake r key) =
    ((fun l => l +:+ String CR EmptyString) <$> requestHead (URI r0) (Host r0) forPod) ++ [""] /\
  split_char LF (EdgeTunnel.buildBridgeHandshake r key) =
    ((fun l => l +:+ String CR EmptyString) <$> requestHead (URI r0) (Host r0) forCore) ++ [""] /\
  forCore !! "Sec-Websocket-Key" = Some [key] /\ forCore !! "Upgrade" = Some ["websocket"] /\
  forCore !! "Content-Length" = None /\ forCore !! "Transfer-Encoding" = None /\ forCore !! "Expect" = None /\
  forCore !! "X-Parapet-Waf" = Hdr r0 !! "X-Parapet-Waf" /\ forPod = delete "X-Parapet-Waf" forCore.
Proof.
  cbv zeta. intros Hu Hh. split; [by apply writeLines_split, requestHead_plain|].
  split; [by apply writeLines_split, requestHead_plain|].
  unfold EdgeTunnel.handshakeHeader, CoreTunnel.handshakeHeader, HeaderSet, HeaderDel, CoreTunnel.wafclaimHeader.
  change (CanonicalMIMEHeaderKey "Sec-WebSocket-Key") with "Sec-Websocket-Key".
  change (CanonicalMIMEHeaderKey "X-Parapet-Waf") with "X-Parapet-Waf".
  split; [apply lookup_insert_eq|].
  assert (Hn : forall k, k <> "Sec-Websocket-Key" ->
    (<["Sec-Websocket-Key" := [key]]> (Hdr (Normalize r0)) : Header) !! k = Hdr (Normalize r0) !! k).
  { intros k Hk. by rewrite lookup_insert_ne. }
  rewrite !Hn, !Normalize_lookup by done. do 5 (split; [done|]).
  rewrite delete_insert_ne by done. done.
Qed.
(** An HTTP/2 client that sends a [Host] field beside its authority has both written
    into the handshake: the pod gets two hosts. *)
Theorem host_field_is_sent_again :
  exists r0, let r := Normalize r0 in
    IsExtendedConnect r0 = true /\ HeaderGet ":protocol" (Hdr r0) = "websocket" /\
    forall key, "Host: a.example" ∈ requestHead (URI r) (Host r) (CoreTunnel.handshakeHeader r key) /\
      "Host: b.example" ∈ requestHead (URI r) (Host r) (CoreTunnel.handshakeHeader r key).
Proof.
  exists (mkReq "CONNECT" (mkURL "" "" "/" "" false "") "a.example"
            {[":protocol" := ["websocket"]; "Host" := ["b.example"]]} (Live "") 0 None "http" "10.0.0.1:80" "").
  split; [by vm_compute|]. split; [by vm_compute|]. intros key. split.
  - unfold requestHead. right. by left.
  - unfold requestHead. apply elem_of_app. right. apply elem_of_app. left. apply headerLines_elem.
    exists "Host", ["b.example"], "b.example". split_and!; [|by vm_compute|by left|by vm_compute].
    unfold CoreTunnel.handshakeHeader, HeaderSet, HeaderDel, CoreTunnel.wafclaimHeader.
    change (CanonicalMIMEHeaderKey "Sec-WebSocket-Key") with "Sec-Websocket-Key".
    change (CanonicalMIMEHeaderKey "X-Parapet-Waf") with "X-Parapet-Waf".
    rewrite lookup_insert_ne, lookup_delete_ne by done. by vm_compute.
Qed.

Section tunnels.
Context `{!WSOps}.

(** *** The core *)

Section core.
Import CoreTunnel.

(** C22: whatever the pod does, a tunnel delivers the client's bytes once and in order,
    answers the client exactly once, and panics, which has the request retried on another
    pod, only with nothing sent to a pod, taken from the stream or answered: falling back from the
    extended CONNECT to the upgrade loses and repeats nothing. *)
Theorem core_tunnel_delivers_once wsUpstreamH2C auto p wh r stream key neg :
  takesBody (p_connect p) stream -> readsStream (u_session (p_upgrade p)) stream ->
  let '(log, e, _) := serveWSTunnel wsUpstreamH2C auto p wh r stream key neg in
  prefix_of (uploaded log) (bytes stream) /\
  match e with
  | Handled => answers log = 1
  | NotHandled => False
  | Panics _ => answers log = 0 /\ uploaded log = "" /\ reached log = false
  end.
Proof.
  intros Hk Hu. unfold serveWSTunnel.
  destruct (if wsUpstreamH2C then wsH2CEligible _ _ _ _ _ else _) as [eligible neg1].
  pose proof (tryWSTunnelH2C_sound (p_later p) (p_connect p) (p_down p) wh r stream key neg1 Hk) as Ht.
  pose proof (upgradeTunnel_sound (p_upgrade p) wh r stream Hu) as Hup.
  pose proof (upgradeTunnel_ends (p_upgrade p) wh r) as Hend.
  destruct (upgradeTunnel (p_upgrade p) wh r) as [log' e']. simpl in Hup, Hend.
  destruct eligible.
  - destruct (tryWSTunnelH2C _ _ _ _ _ _ _ _) as [[log e] neg2]. simpl in Ht.
    destruct e as [| |d]; [by destruct Ht| |by destruct Ht].
    destruct (sound_then stream log log' e' Ht Hup) as [Hp He]. split; [done|]. by destruct e'.
  - destruct Hup as [Hp He]. simpl. split; [done|]. by destruct e'.
Qed.

(** A pod that turns out not to support the extended CONNECT is not asked again through
    its Service for the time of the verdict, and is asked again after it; other Services
    are not affected. *)
Theorem unsupported_pod_is_left_alone now k down wh r stream key neg e :
  k_result k = Err e -> notSupported e = true ->
  let '(_, end_, neg') := tryWSTunnelH2C now k down wh r stream key neg in
  end_ = NotHandled /\
  (forall later auto r', URLScheme r' = "h2c" ->
     fst (wsH2CEligible later auto r' key neg') = (now + wsH2CNegTTL <=? later)%Z) /\
  forall key', key' <> key -> neg' !! key' = neg !! key'.
Proof.
  intros Hk He. unfold tryWSTunnelH2C. rewrite Hk, He. split; [done|]. unfold storeWSH2CNegative. split.
  - intros later auto r' Hr. unfold wsH2CEligible, wsH2CNegativeFresh. rewrite Hr, lookup_insert_eq. cbn [String.eqb Ascii.eqb Bool.eqb].
    destruct (Z.ltb_spec later (now + wsH2CNegTTL)%Z), (Z.leb_spec (now + wsH2CNegTTL) later); simpl; try done; lia.
  - intros key' Hne. by rewrite lookup_insert_ne.
Qed.

(** On both hops a session over HTTP/1.1 is accepted only when the upstream switched
    protocols and proved that it saw the key of this very handshake. *)
Theorem unproven_upgrade_is_not_accepted u useTLS c wh r fallback h :
  let proven (u : upgrade) := exists resp, u_answer u = Some resp /\ code resp = 101%Z /\
    fieldsGet "Sec-WebSocket-Accept" (fields resp) = AcceptKey (GenerateKey (u_rand u)) /\
    h = copyWSResponseHeader (fields resp) wh in
  (Accepted h ∈ (upgradeTunnel u wh r).1 -> proven u) /\
  (Accepted h ∈ EdgeTunnel.bridge useTLS c wh r fallback -> proven (EdgeTunnel.c_upgrade c)).
Proof.
  cbv zeta. split.
  - unfold upgradeTunnel, badGateway. destruct (u_dial u); [by intros ?%elem_of_nil|].
    destruct (String.eqb (URLScheme r) "https" && _); [set_solver|]. cbv zeta.
    destruct (Nat.ltb _ _); [set_solver|]. destruct (u_answer u) as [resp|]; [|set_solver].
    destruct (Z.eqb_spec (code resp) 101) as [Hc|]; simpl; [|set_solver].
    unfold CheckAccept. destruct (String.eqb_spec (fieldsGet "Sec-WebSocket-Accept" (fields resp)) (AcceptKey (GenerateKey (u_rand u)))) as [Ha|];
      simpl; [|set_solver]. intros Hin. exists resp. split_and!; [done..|]. set_solver.
  - unfold EdgeTunnel.bridge, badGateway, EdgeTunnel.counted. set (v := EdgeTunnel.c_upgrade c).
    destruct (u_dial v); [set_solver|]. destruct (useTLS && _); [set_solver|]. cbv zeta.
    destruct (Nat.ltb _ _); [set_solver|]. destruct (u_answer v) as [resp|]; [|set_solver].
    destruct (Z.eqb_spec (code resp) 101) as [Hc|]; simpl; [|set_solver].
    unfold CheckAccept. destruct (String.eqb_spec (fieldsGet "Sec-WebSocket-Accept" (fields resp)) (AcceptKey (GenerateKey (u_rand v)))) as [Ha|];
      simpl; [|set_solver]. intros Hin. exists resp. split_and!; [done..|]. set_solver.
Qed.
End core.

(** *** The edge *)

Section edge.
Import EdgeTunnel.

(** C23: the edge serves each request once.  A client is answered by exactly one of the
    tunnel, the bridge and the reverse proxy, but for a connection that breaks during the
    101; a session that came over HTTP/2 never reaches the reverse proxy, which cannot carry it, and
    its bytes are delivered once and in order across the fallback; a request that falls back to
    the reverse proxy gets there as it came. *)
Theorem edge_serves_websocket_once f c wh r :
  (forall b, Tunnel r = Some b -> takesBody (c_connect c) b /\ readsStream (u_session (c_upgrade c)) b) ->
  let log := ServeHandler f c wh r in
  answers log <= 1 /\ (c_wrote101 c = true -> answers log = 1) /\
  (forall b, isWebSocketUpgrade r = true -> Tunnel r = Some b ->
     answers log = 1 /\ prefix_of (uploaded log) (bytes b) /\ forall r', ReverseProxied r' ∉ log) /\
  (forall r', ReverseProxied r' ∈ log ->
     uploaded log = "" /\ (Method r', URI r', Host r', Hdr r', Body r') = (Method r, URI r, Host r, Hdr r, Body r)).
Proof.
  intros Hlaw. cbv zeta.
  assert (Hno : forall l r', existsb (fun e => match e with ReverseProxied _ => true | _ => false end) l = false ->
                  ReverseProxied r' ∉ l).
  { intros l r' Hf%existsb_false_forall Hin. rewrite Forall_forall in Hf. by specialize (Hf _ Hin). }
  assert (Hrp : forall l : list event, answers l = 0 -> uploaded l = "" ->
    existsb (fun e => match e with ReverseProxied _ => true | _ => false end) l = false ->
    answers (l ++ [reverseProxied f r]) = 1 /\ uploaded (l ++ [reverseProxied f r]) = "" /\
    forall r', ReverseProxied r' ∈ l ++ [reverseProxied f r] ->
      (Method r', URI r', Host r', Hdr r', Body r') = (Method r, URI r, Host r, Hdr r, Body r)).
  { intros l Ha Hu Hf. rewrite answers_app, uploaded_app, Ha, Hu. split; [done|]. split; [done|].
    intros r' [Hin|Hin]%elem_of_app; [by apply Hno in Hin|]. apply list_elem_of_singleton in Hin. by injection Hin as ->. }
  unfold ServeHandler. destruct (isWebSocketUpgrade r) eqn:Hws.
  2:{ destruct (Hrp [] eq_refl eq_refl eq_refl) as (H1 & H2 & H3). simpl in *. split; [lia|]. split; [done|].
      split; [done|]. intros r' Hin. split; [done|by apply H3]. }
  destruct (Tunnel r) as [b|] eqn:Ht.
  - destruct (Hlaw b eq_refl) as [Hk Hs].
    pose proof (fun fb => bridge_sound (f_TLS f) c wh r fb b Hs) as Hb.
    assert (Hgoal : forall log, answers log = 1 -> prefix_of (uploaded log) (bytes b) ->
      existsb (fun e => match e with ReverseProxied _ => true | _ => false end) log = false ->
      answers log <= 1 /\ (c_wrote101 c = true -> answers log = 1) /\
      (forall b', true = true -> Some b = Some b' ->
         answers log = 1 /\ prefix_of (uploaded log) (bytes b') /\ forall r', ReverseProxied r' ∉ log) /\
      (forall r', ReverseProxied r' ∈ log ->
         uploaded log = "" /\ (Method r', URI r', Host r', Hdr r', Body r') = (Method r, URI r, Host r, Hdr r, Body r))).
    { intros log Ha Hp Hf. split; [lia|]. split; [done|]. split.
      - intros b' _ [= <-]. split; [done|]. split; [done|]. intros r'. by apply Hno.
      - intros r' Hin. by apply Hno in Hin. }
    destruct (ws f) as [t|]; [|destruct (Hb false) as (H1 & H2 & H3); by apply Hgoal].
    pose proof (serveH2Inbound_sound t c wh r b Hk) as (Hf & Hp & Hres).
    destruct (serveH2Inbound t c wh r b) as [log handled]. simpl in *. destruct handled; [by apply Hgoal|].
    destruct Hres as [Ha Hu]. destruct (Hb true) as (H1 & H2 & H3).
    apply Hgoal; [by rewrite answers_app, Ha|by rewrite uploaded_app, Hu|by rewrite existsb_app, Hf].
  - destruct (ws f) as [t|].
    2:{ destruct (Hrp [] eq_refl eq_refl eq_refl) as (H1 & H2 & H3). simpl in *. split; [lia|]. split; [done|].
        split; [done|]. intros r' Hin. split; [done|by apply H3]. }
    pose proof (serve_sound t c wh r) as (Hf & Hres).
    destruct (serve t c wh r) as [log handled]. simpl in *. destruct handled.
    + split; [lia|]. split; [intros Hw; destruct Hres as [?|[_ ?]]; [done|congruence]|].
      split; [done|]. intros r' Hin. by apply Hno in Hin.
    + destruct Hres as [Ha Hu]. destruct (Hrp log Ha Hu Hf) as (H1 & H2 & H3). split; [lia|]. split; [done|].
      split; [done|]. intros r' Hin. split; [done|by apply H3].
Qed.

(** No upgrade that the reverse proxy carries rides an HTTP/2 connection, whatever the
    edge is configured to prefer, and only a hop that encrypts presents the edge's certificate. *)
Theorem upgrades_ride_http1 addr useTLS enableHTTP2 sni tuning cert wsH2 r :
  let p := poolOf (f_transport (NewForwarder addr useTLS enableHTTP2 sni tuning cert wsH2)) r in
  po_h2 p = enableHTTP2 && String.eqb (HeaderGet "Upgrade" (Hdr r)) "" /\
  po_tls p = useTLS /\ po_clientCert p = useTLS && cert /\
  (po_h2 p && negb useTLS = false -> po_max p = MaxConnsPerHost tuning).
Proof.
  unfold NewForwarder, poolOf. destruct useTLS, enableHTTP2; simpl;
    destruct (String.eqb (HeaderGet "Upgrade" (Hdr r)) ""); done.
Qed.

(** Alerts that [crypto/tls] renders as a revoked or an unknown certificate do not
    count as a rejection of the edge's certificate, those for a bad one and for an unknown authority
    do, and an expired one does not. *)
Theorem revoked_alert_is_not_recognised :
  (fun alert => isClientCertRejected (Some (false, "remote error: tls: " +:+ alert))) <$>
    ["bad certificate"; "unknown certificate authority"; "certificate required"; "expired certificate";
     "revoked certificate"; "unknown certificate"] = [true; true; true; false; false; false].
Proof. by vm_compute. Qed.
End edge.
End tunnels.

(** *** Witnesses *)

Section demo.

(** Toy hashes, under which a proof still depends on its key. *)
#[local] Instance toyWS : WSOps := {| sha1 s := "sha:" +:+ s; base64 s := s |}.

Definition demoURL : URL := mkURL "" "" "/chat" "" false "room=1".
(** An extended CONNECT of a client that also announces a body. *)
Definition demoConnect : Request :=
  mkReq "CONNECT" demoURL "a.example"
    {[":protocol" := ["websocket"]; "Content-Length" := ["5"]; "Sec-Websocket-Protocol" := ["chat"];
      "X-Parapet-Waf" := ["7"]]} (Live "hello, pod") 5 None "h2c" "10.0.0.1:80" "192.0.2.1:9".
Definition demoUpgrade : Request := Normalize demoConnect.

Lemma normalize_gives_an_upgrade_witness :
  exists r', NormalizeHandler Some (fun x => x) None demoConnect = Some r' /\ Tunnel r' = Some (Live "hello, pod").
Proof.
  destruct (normalize_gives_an_upgrade Some (fun x => x) None demoConnect) as (_ & _ & H).
  destruct (H eq_refl eq_refl) as (r' & Hr & _ & _ & _ & _ & Ht & _). exists r'. split; [exact Hr|exact Ht].
Defined.

Lemma copy_delivers_in_order_witness :
  let c := Copy true [("ab", None); ("c", Some EOF)] [(2, None); (1, None)] in
  c = mkCopied "abc" 2 Clean /\ exists t, "abc" = c_data c +:+ t.
Proof.
  split; [reflexivity|].
  destruct (copy_delivers_in_order true [("ab", None); ("c", Some EOF)] [(2, None); (1, None)]) as [H _]. exact H.
Defined.

Lemma relayed_fields_exact_witness :
  copyWSResponseHeader [("Sec-Websocket-Accept", ["x"]); ("Sec-Websocket-Protocol", ["chat"])] ∅ !! "Sec-Websocket-Protocol"
  = Some ["chat"].
Proof.
  assert (Hc : canonical [("Sec-Websocket-Accept", ["x"]); ("Sec-Websocket-Protocol", ["chat"])]).
  { split; [apply (bool_decide_unpack _); by vm_compute|repeat constructor]. }
  destruct (relayed_fields_exact _ ∅ "Sec-Websocket-Protocol" Hc) as [_ H]. rewrite H. by vm_compute.
Defined.

(** A value with a break in it. *)
Definition demoSplit : Request :=
  mkReq "CONNECT" demoURL "a.example" {[":protocol" := ["websocket"]; "X-A" := ["1" +:+ crlf +:+ "X-B: 2"]]}
    (Live "") 0 None "h2c" "10.0.0.1:80" "".

Lemma handshakes_carry_exactly_the_request_witness :
  split_char LF (CoreTunnel.buildWSHandshake (Normalize demoSplit) "k") =
    ((fun l => l +:+ String CR EmptyString) <$>
      ["GET /chat?room=1 HTTP/1.1"; "Host: a.example"; "Connection: Upgrade"; "Sec-Websocket-Key: k";
       "Upgrade: websocket"; "X-A: 1  X-B: 2"; ""]) ++ [""].
Proof.
  destruct (handshakes_carry_exactly_the_request demoSplit "k") as (H & _); [by vm_compute..|].
  rewrite H. vm_compute. reflexivity.
Defined.

(** The pod does not support the extended CONNECT and takes the upgrade. *)
Definition oldPeer : rtError := mkRtErr (GoErr.Plain "net/http: extended connect not supported by peer") "net/http: extended connect not supported by peer" None.
Definition demoSession : session :=
  mkSession [("hello, ", None); ("pod", Some EOF)] [(7, None); (3, None)] [("hi", Some EOF)] [(2, None)].
Definition demoAnswer : Response :=
  mkResp 101 [("Sec-Websocket-Accept", ["sha:k258EAFA5-E914-47DA-95CA-C5AB0DC85B11"]); ("Upgrade", ["websocket"])] "".
Definition demoDial : upgrade := mkUpgrade None true "k" 4096 (Some demoAnswer) demoSession.
Definition demoPod : CoreTunnel.pod := CoreTunnel.mkPod 5 6 (mkConnect (Err oldPeer) "") demoSession demoDial.

Lemma demo_takes : takesBody (mkConnect (Err oldPeer) "") (Live "hello, pod").
Proof. split; [by exists "hello, pod"|]. by intros. Defined.
Lemma demo_reads : readsStream demoSession (Live "hello, pod").
Proof. by exists "". Defined.

Lemma core_tunnel_delivers_once_witness :
  let log := (CoreTunnel.serveWSTunnel true None demoPod ∅ demoUpgrade (Live "hello, pod") "ns/web:80" ∅).1.1 in
  uploaded log = "hello, pod" /\ answers log = 1 /\ prefix_of (uploaded log) "hello, pod".
Proof.
  cbv zeta. split; [by vm_compute|]. split; [by vm_compute|].
  pose proof (core_tunnel_delivers_once true None demoPod ∅ demoUpgrade (Live "hello, pod") "ns/web:80" ∅ demo_takes demo_reads) as H.
  destruct (CoreTunnel.serveWSTunnel _ _ _ _ _ _ _ _) as [[log e] neg]. exact (proj1 H).
Defined.

Lemma unsupported_pod_is_left_alone_witness :
  let '(_, _, neg') := CoreTunnel.tryWSTunnelH2C 6 (mkConnect (Err oldPeer) "") demoSession ∅ demoUpgrade (Live "hello, pod") "ns/web:80" ∅ in
  fst (CoreTunnel.wsH2CEligible 7 None demoUpgrade "ns/web:80" neg') = false.
Proof.
  pose proof (unsupported_pod_is_left_alone 6 (mkConnect (Err oldPeer) "") demoSession ∅ demoUpgrade (Live "hello, pod") "ns/web:80" ∅
                oldPeer eq_refl eq_refl) as H.
  destruct (CoreTunnel.tryWSTunnelH2C _ _ _ _ _ _ _ _) as [[log e] neg']. destruct H as (_ & H & _).
  by rewrite (H 7%Z None demoUpgrade eq_refl).
Defined.

Lemma unproven_upgrade_is_not_accepted_witness :
  let h := copyWSResponseHeader (fields demoAnswer) ∅ in
  Accepted h ∈ (CoreTunnel.upgradeTunnel demoDial ∅ demoUpgrade).1 /\
  exists resp, u_answer demoDial = Some resp /\ code resp = 101%Z.
Proof.
  cbv zeta. assert (H : Accepted (copyWSResponseHeader (fields demoAnswer) ∅) ∈ (CoreTunnel.upgradeTunnel demoDial ∅ demoUpgrade).1).
  { vm_compute. right. left. }
  split; [exact H|].
  destruct (unproven_upgrade_is_not_accepted demoDial false
              (EdgeTunnel.mkCore true (mkConnect (Err oldPeer) "") true true demoSession demoDial) ∅ demoUpgrade false
              (copyWSResponseHeader (fields demoAnswer) ∅))
    as [Hc _]. destruct (Hc H) as (resp & H1 & H2 & _). by exists resp.
Defined.

(** The core lost its support: the bridge serves. *)
Definition demoForwarder : EdgeTunnel.Forwarder :=
  EdgeTunnel.NewForwarder "core:80" false true "" (EdgeTunnel.mkTuning 0 0) false true.
Definition demoCore : EdgeTunnel.core :=
  EdgeTunnel.mkCore true (mkConnect (Err oldPeer) "") true true demoSession demoDial.

Lemma edge_serves_websocket_once_witness :
  let log := EdgeTunnel.ServeHandler demoForwarder demoCore ∅ demoUpgrade in
  uploaded log = "hello, pod" /\ answers log = 1 /\ forall r', ReverseProxied r' ∉ log.
Proof.
  cbv zeta. split; [by vm_compute|].
  destruct (edge_serves_websocket_once demoForwarder demoCore ∅ demoUpgrade) as (_ & _ & H & _).
  { intros b [= <-]. split; [exact demo_takes|exact demo_reads]. }
  destruct (H (Live "hello, pod") eq_refl eq_refl) as (H1 & _ & H2). split; [exact H1|exact H2].
Defined.

Lemma upgrades_ride_http1_witness :
  EdgeTunnel.po_h2 (EdgeTunnel.poolOf (EdgeTunnel.f_transport demoForwarder) demoUpgrade) = false /\
  EdgeTunnel.po_max (EdgeTunnel.poolOf (EdgeTunnel.f_transport demoForwarder) demoUpgrade) = 0%Z.
Proof.
  destruct (upgrades_ride_http1 "core:80" false true "" (EdgeTunnel.mkTuning 0 0) false true demoUpgrade) as (H1 & _ & _ & H2).
  split; [exact H1|]. apply H2. by vm_compute.
Defined.
End demo.
End WebSocketProps.
