(* ===== verification/Accounting.v ===== *)
(** * Accounting of requests

    Models the state that a request carries ([src/state/state.go]: pooled maps), the
    labels and counters of requests ([src/metric/requests.go], [host.go], [rejected.go],
    [cache.go], [backendconns.go], [trust.go] and on the edge [src/edge/requests.go] and
    [metrics.go]) and the edge's wrappers around the response cache
    ([src/edge/cachestatus.go], [cacheegress.go], [cachetotal.go]).

    A metric vector is a finite map from label values to a number.  A wrapper of a
    [ResponseWriter] acts on what [net/http] has of a response: the interim heads, the
    final head, which is the first one that is not interim, and the body. *)

From S2P Require Import Prelude GoString GoTime GoURL.

Set Default Proof Using "Type".

(** ** The state of a request *)

Module State.

Abbreviation State := (gmap string string).

(** The heap of maps, the free ones, and the map of each request that is being served. *)
Record world := mkWorld {
  heap : gmap nat State;
  pool : list nat;
  active : gmap nat nat;
}.

Inductive action :=
| Begin (r : nat) (reuse : bool)         (* [pool.Get]: it may also make a new map *)
| Put_ (r : nat) (k v : string)          (* a write to the map that [Get] returns *)
| End_ (r : nat).

Definition fresh_id (w : world) : nat := fresh (dom (heap w)).

Definition step (a : action) (w : world) : option world :=
  match a with
  | Begin r reuse =>
      match active w !! r with
      | Some _ => None
      | None =>
          match reuse, pool w with
          | true, i :: p => Some (mkWorld (heap w) p (<[r := i]> (active w)))
          | true, [] => None
          | false, p => let i := fresh_id w in Some (mkWorld (<[i := ∅]> (heap w)) p (<[r := i]> (active w)))
          end
      end
  | Put_ r k v =>
      match active w !! r with
      | Some i => Some (mkWorld (alter (insert k v) i (heap w)) (pool w) (active w))
      | None => None
      end
  | End_ r =>
      match active w !! r with
      | Some i => Some (mkWorld (<[i := ∅]> (heap w)) (i :: pool w) (delete r (active w)))   (* [clear], [Put] *)
      | None => None
      end
  end.

Fixpoint runs (tr : list action) (w : world) : option world :=
  match tr with [] => Some w | a :: tr => match step a w with Some w => runs tr w | None => None end end.

Definition start : world := mkWorld ∅ [] ∅.

(** [Get]; a request outside of the middleware has an empty map of its own. *)
Definition Get (w : world) (r : nat) : State :=
  match active w !! r with Some i => default ∅ (heap w !! i) | None => ∅ end.

(** What the access log gets on the way out. *)
Definition logged (logEnabled : bool) (w : world) (r : nat) : State := if logEnabled then Get w r else ∅.

(** The specification: every request has a map of its own, empty when it begins. *)
Abbreviation Spec := (gmap nat State).
Definition spec_step (a : action) (s : Spec) : Spec :=
  match a with
  | Begin r _ => <[r := ∅]> s
  | Put_ r k v => alter (insert k v) r s
  | End_ r => delete r s
  end.
Definition spec_runs (tr : list action) : Spec := fold_left (fun s a => spec_step a s) tr ∅.

End State.

(** ** Labels *)

Module Labels.

Definition unknownHostLabel : string := "other".

(** [HostLabel] and the edge's [hostLabel]; no oracle passes every host. *)
Definition HostLabel (host : string) (isKnownHost : option (string -> bool)) : string :=
  match isKnownHost with
  | None => host
  | Some known => if known host then host else unknownHostLabel
  end.

Definition methods : list string :=
  ["GET"; "HEAD"; "POST"; "PUT"; "PATCH"; "DELETE"; "CONNECT"; "OPTIONS"; "TRACE"].
Definition methodLabel (m : string) : string := if bool_decide (m ∈ methods) then m else "other".

Definition statusLabel (s : Z) : string := if (100 <=? s)%Z && (s <=? 599)%Z then itoa s else "other".

Definition containsSub (s p : string) : bool := existsb (fun n => has_prefix (str_drop n s) p) (seq 0 (S (String.length s))).

Definition kindLabel (h : Header) : string :=
  let upgrade := to_lower (trim_space (HeaderGet "Upgrade" h)) in
  if String.eqb upgrade "" then
    if containsSub (to_lower (HeaderGet "Accept" h)) "text/event-stream" then "sse" else "http"
  else if String.eqb upgrade "websocket" || String.eqb upgrade "h2c" then upgrade
  else "other".

Definition cacheResultLabel (v : string) : string :=
  if bool_decide (v ∈ ["HIT"; "STALE"; "MISS"]) then v
  else if String.eqb v "" || String.eqb v "BYPASS" then "" else "other".

Definition rejectReason (status : Z) : string :=
  if (status =? 404)%Z then "no_route"
  else if (status =? 403)%Z then "forbidden"
  else if (status =? 401)%Z then "unauthorized"
  else if (status =? 413)%Z then "body_limit"
  else if (status =? 429)%Z then "rate_limit"
  else "".
Definition edgeRejectReason (reachedBackend : bool) (status : Z) : string :=
  if reachedBackend then "" else rejectReason status.

End Labels.

(** ** Response writers *)

Module Writers.
Import Labels.

(** What [net/http] has of a response.  101 is a final head. *)
Record Response := mkResp {
  interim : list Z;
  head : option (Z * Header);      (* as sent *)
  header : Header;                 (* the map that handlers change *)
  sent : string;                   (* the bytes that [Write] accepted *)
}.

Definition isInterim (code : Z) : bool := (100 <=? code)%Z && (code <? 200)%Z && negb (code =? 101)%Z.

Definition baseWriteHeader (code : Z) (w : Response) : Response :=
  match head w with
  | Some _ => w
  | None =>
      if isInterim code then mkResp (interim w ++ [code]) None (header w) (sent w)
      else mkResp (interim w) (Some (code, header w)) (header w) (sent w)
  end.

(** [bodyAllowedForStatus]: a body that is not allowed is refused. *)
Definition bodyAllowed (code : Z) : bool :=
  negb ((100 <=? code)%Z && (code <=? 199)%Z || (code =? 204)%Z || (code =? 304)%Z).
Definition baseWrite (s : string) (w : Response) : Response :=
  let w := baseWriteHeader 200 w in
  match head w with
  | Some (code, _) => if bodyAllowed code then mkResp (interim w) (head w) (header w) (sent w +:+ s) else w
  | None => w
  end.
Definition newResponse (h : Header) : Response := mkResp [] None h "".

(** What a handler does with its writer.  [SetHeader] is a change of the header map. *)
Inductive op := WriteHeader (code : Z) | Write (s : string) | SetHeader (k v : string) | Flush.

Definition baseOp (o : op) (w : Response) : Response :=
  match o with
  | WriteHeader c => baseWriteHeader c w
  | Write s => baseWrite s w
  | SetHeader k v => mkResp (interim w) (head w) (HeaderSet k v (header w)) (sent w)
  | Flush => baseWriteHeader 200 w
  end.
Definition baseOps (os : list op) (w : Response) : Response := fold_left (fun w o => baseOp o w) os w.

(** *** [requestTrackRW] *)

Record track := mkTrack { t_wroteHeader : bool; t_status : Z; t_base : Response }.

Definition trackWriteHeader (code : Z) (w : track) : track :=
  if t_wroteHeader w then w else mkTrack true code (baseWriteHeader code (t_base w)).
Definition trackOp (o : op) (w : track) : track :=
  match o with
  | WriteHeader c => trackWriteHeader c w
  | Write s =>
      let w := if t_wroteHeader w then w else trackWriteHeader 200 w in
      mkTrack (t_wroteHeader w) (t_status w) (baseWrite s (t_base w))
  | _ => mkTrack (t_wroteHeader w) (t_status w) (baseOp o (t_base w))
  end.
Definition trackOps (os : list op) (w : track) : track := fold_left (fun w o => trackOp o w) os w.
Definition newTrack (w : Response) : track := mkTrack false 0 w.

(** *** [cacheStatusRW] *)

Record stamp := mkStamp { s_wroteHeader : bool; s_base : Response }.

Definition tagBypass (w : stamp) : stamp :=
  if s_wroteHeader w then w
  else let b := s_base w in
    mkStamp true
      (if String.eqb (HeaderGet "X-Cache" (header b)) ""
       then mkResp (interim b) (head b) (HeaderSet "X-Cache" "BYPASS" (header b)) (sent b) else b).
Definition stampOp (o : op) (w : stamp) : stamp :=
  match o with
  | WriteHeader c =>
      let w := if (100 <=? c)%Z && (c <? 200)%Z then w else tagBypass w in
      mkStamp (s_wroteHeader w) (baseWriteHeader c (s_base w))
  | Write s => let w := tagBypass w in mkStamp (s_wroteHeader w) (baseWrite s (s_base w))
  | _ => mkStamp (s_wroteHeader w) (baseOp o (s_base w))
  end.
Definition stampOps (os : list op) (w : stamp) : stamp := fold_left (fun w o => stampOp o w) os w.

(** *** [cacheEgressRW], around the stamp: the bytes and what is added to which series *)

Definition cacheEgress (known : option (string -> bool)) (host : string) (w : Response) : option (string * string * Z) :=
  let result := cacheResultLabel (HeaderGet "X-Cache" (header w)) in
  if String.eqb result "" then None
  else Some (HostLabel host known, result, Z.of_nat (String.length (sent w))).

End Writers.

(** ** Counters and gauges *)

Module Counters.
Import Labels Writers.

Definition inc {K} `{Countable K} (k : K) (m : gmap K Z) : gmap K Z := <[k := (default 0 (m !! k) + 1)%Z]> m.

(** A request as the metric sees it: the host, the method, the fields of its state and
    what its handler does. *)
Record served := mkServed {
  sv_host : string;
  sv_method : string;
  sv_state : gmap string string;
  sv_ops : list op;
}.
Definition field (k : string) (s : served) : string := default "" (sv_state s !! k).

(** [requestKey]. *)
Abbreviation requestKey := (string * string * string * string * string * string * string)%type.

(** The core's vectors: requests by key, rejections by reason.  The cache of handles
    creates each of them once. *)
Record metrics := mkMetrics { m_requests : gmap requestKey Z; m_rejected : gmap string Z }.

Definition keyOf (known : option (string -> bool)) (s : served) (status : Z) : requestKey :=
  (HostLabel (sv_host s) known, field "namespace" s, field "ingress" s, field "serviceName" s,
   field "serviceType" s, methodLabel (sv_method s), statusLabel status).

(** [Inc], after the handler, whether it returned or panicked. *)
Definition Inc (known : option (string -> bool)) (s : served) (status : Z) (m : metrics) : metrics :=
  let reason := edgeRejectReason (negb (String.eqb (field "serviceTarget" s) "")) status in
  mkMetrics (inc (keyOf known s status) (m_requests m))
    (if String.eqb reason "" then m_rejected m else inc reason (m_rejected m)).

Definition ServeHandler (known : option (string -> bool)) (s : served) (w : Response) (m : metrics) : Response * metrics :=
  let t := trackOps (sv_ops s) (newTrack w) in (t_base t, Inc known s (t_status t) m).

(** The edge's vector: by host, status and method. *)
Definition edgeKey (known : option (string -> bool)) (s : served) (status : Z) : string * string * string :=
  (HostLabel (sv_host s) known, statusLabel status, methodLabel (sv_method s)).
Definition edgeRequests (known : option (string -> bool)) (s : served) (w : Response)
    (m : gmap (string * string * string) Z) : Response * gmap (string * string * string) Z :=
  let t := trackOps (sv_ops s) (newTrack w) in (t_base t, inc (edgeKey known s (t_status t)) m).
Definition edgeServeAll (known : option (string -> bool)) (l : list (served * Response))
    (m : gmap (string * string * string) Z) : gmap (string * string * string) Z :=
  fold_left (fun m x => (edgeRequests known x.1 x.2 m).2) l m.

(** [host_active_requests]: the label is taken once, for the increment and the decrement.
    A request is (host, header); [known] is the oracle at its start. *)
Record tracker := mkTracker { g_active : gmap (string * string) Z; g_flights : gmap nat (string * string) }.

Inductive visit := Arrive (r : nat) (host : string) (h : Header) (known : option (string -> bool)) | Leave (r : nat).

Definition add {K} `{Countable K} (k : K) (d : Z) (m : gmap K Z) : gmap K Z := <[k := (default 0 (m !! k) + d)%Z]> m.

Definition trackStep (v : visit) (t : tracker) : option tracker :=
  match v with
  | Arrive r host h known =>
      match g_flights t !! r with
      | Some _ => None
      | None => let k := (HostLabel host known, kindLabel h) in
                Some (mkTracker (add k 1 (g_active t)) (<[r := k]> (g_flights t)))
      end
  | Leave r =>
      match g_flights t !! r with
      | Some k => Some (mkTracker (add k (-1) (g_active t)) (delete r (g_flights t)))
      | None => None
      end
  end.

Fixpoint visits (l : list visit) (t : tracker) : option tracker :=
  match l with [] => Some t | v :: l => match trackStep v t with Some t => visits l t | None => None end end.

(** [BackendConnections]: a connection is closed once in the gauge, at its first error or
    at [Close]. *)
Abbreviation backendKey := (string * string * string)%type.     (* type, namespace, name *)

Record conns := mkConns {
  b_open : gmap backendKey Z;                 (* [backend_connections] *)
  b_conns : gmap nat (backendKey * bool);     (* the connections, and whether [closed] is set *)
  b_read : gmap backendKey Z;
  b_written : gmap backendKey Z;
}.

Inductive connOp :=
| Dial (c : nat) (service : backendKey)
| ReadN (c : nat) (n : Z) (err : bool)
| WriteN (c : nat) (n : Z) (err : bool)        (* [Write] and [ReadFrom] *)
| CloseConn (c : nat).

Definition trackClose (c : nat) (t : conns) : conns :=
  match b_conns t !! c with
  | Some (s, false) => mkConns (add s (-1) (b_open t)) (<[c := (s, true)]> (b_conns t)) (b_read t) (b_written t)
  | _ => t
  end.

Definition connStep (o : connOp) (t : conns) : conns :=
  match o with
  | Dial c s =>
      match b_conns t !! c with
      | Some _ => t
      | None => mkConns (add s 1 (b_open t)) (<[c := (s, false)]> (b_conns t)) (b_read t) (b_written t)
      end
  | ReadN c n err =>
      match b_conns t !! c with
      | Some (s, _) =>
          let t := if (0 <? n)%Z then mkConns (b_open t) (b_conns t) (add s n (b_read t)) (b_written t) else t in
          if err then trackClose c t else t
      | None => t
      end
  | WriteN c n err =>
      match b_conns t !! c with
      | Some (s, _) =>
          let t := if (0 <? n)%Z then mkConns (b_open t) (b_conns t) (b_read t) (add s n (b_written t)) else t in
          if err then trackClose c t else t
      | None => t
      end
  | CloseConn c => trackClose c t
  end.

(** [cache.getOrCreate] of the metric handles. *)
Definition getOrCreate {K V} `{Countable K} (key : K) (create : V) (m : gmap K V) : V * gmap K V :=
  match m !! key with Some v => (v, m) | None => (create, <[key := create]> m) end.

(** [CacheTotal]: the outcome by host, and the time of a fill that contacted the origin. *)
Definition CacheTotal (known : option (string -> bool)) (host result : string) (fill : Z)
    (m : gmap (string * string) Z) (fills : list Z) : gmap (string * string) Z * list Z :=
  (inc (HostLabel host known, result) m, if (0 <? fill)%Z then fills ++ [fill] else fills).

(** The trust metrics: [Reset] and then [Set]. *)
Definition TrustBundleApplied (caID : string) (generation : Z) (m : gmap string Z) : gmap string Z :=
  if String.eqb caID "" then ∅ else {[caID := generation]}.

End Counters.

(** ** Lemmas *)

Module AccountingLemmas.

(** *** Request states *)

Section state.
Import State.

(** Live maps are distinct and hold what their request wrote; free maps are empty. *)
Record Inv (w : world) (s : Spec) : Prop := {
  inv_dom : forall r, is_Some (active w !! r) <-> is_Some (s !! r);
  inv_val : forall r i, active w !! r = Some i -> heap w !! i = s !! r;
  inv_inj : forall r r' i, active w !! r = Some i -> active w !! r' = Some i -> r = r';
  inv_free : forall i, i ∈ pool w -> heap w !! i = Some ∅ /\ forall r, active w !! r <> Some i;
  inv_pool : NoDup (pool w);
}.

Lemma begin_inv w s r reuse w' :
  Inv w s -> step (Begin r reuse) w = Some w' -> Inv w' (spec_step (Begin r reuse) s).
Proof.
  intros [Hd Hv Hi Hf Hp] Hs. simpl in Hs. destruct (active w !! r) as [|] eqn:Hr; [done|].
  assert (Hsr : s !! r = None) by (apply eq_None_not_Some; rewrite <- Hd, Hr; by intros [? ?]).
  destruct reuse.
  - destruct (pool w) as [|i p] eqn:Hpl; [done|]. injection Hs as <-.
    apply NoDup_cons in Hp as [Hip Hp]. destruct (Hf i) as [Hhi Hni]; [by left|].
    split; simpl; [| | | |done].
    + intros q. destruct (decide (q = r)) as [->|]; [rewrite !lookup_insert_eq; split; intros _; eexists; reflexivity|rewrite !lookup_insert_ne by done; apply Hd].
    + intros q j. destruct (decide (q = r)) as [->|]; [rewrite !lookup_insert_eq; intros [= <-]; exact Hhi|].
      rewrite !lookup_insert_ne by done. apply Hv.
    + intros q q' j. rewrite !lookup_insert_Some. naive_solver.
    + intros j Hj. destruct (Hf j) as [H1 H2]; [by right|]. split; [done|]. intros q.
      rewrite lookup_insert_Some. intros [[_ ->]|[_ H3]]; [done|]. by apply (H2 q).
  - injection Hs as <-. pose proof (is_fresh (dom (heap w))) as Hfr. fold (fresh_id w) in Hfr.
    apply not_elem_of_dom in Hfr.
    assert (Hna : forall q, active w !! q <> Some (fresh_id w)).
    { intros q Hq. pose proof (Hv q _ Hq) as H1. rewrite Hfr in H1.
      assert (is_Some (s !! q)) as [? H2] by (apply Hd; by eexists). congruence. }
    split; simpl; [| | | |done].
    + intros q. destruct (decide (q = r)) as [->|]; [rewrite !lookup_insert_eq; split; intros _; eexists; reflexivity|rewrite !lookup_insert_ne by done; apply Hd].
    + intros q j. destruct (decide (q = r)) as [->|].
      { rewrite lookup_insert_eq. intros [= <-]. by rewrite !lookup_insert_eq. }
      rewrite !(lookup_insert_ne _ r) by done. intros Hq.
      rewrite lookup_insert_ne by (intros <-; by apply (Hna q)). by apply Hv.
    + intros q q' j. rewrite !lookup_insert_Some. naive_solver.
    + intros j Hj. destruct (Hf j Hj) as [H1 H2].
      assert (fresh_id w <> j) by (intros <-; congruence).
      rewrite lookup_insert_ne by done. split; [done|]. intros q. rewrite lookup_insert_Some. naive_solver.
Qed.

Lemma put_state_inv w s r k v w' :
  Inv w s -> step (Put_ r k v) w = Some w' -> Inv w' (spec_step (Put_ r k v) s).
Proof.
  intros [Hd Hv Hi Hf Hp] Hs. simpl in Hs. destruct (active w !! r) as [i|] eqn:Hr; [|done]. injection Hs as <-.
  split; simpl; [| |done| |done].
  - intros q. rewrite lookup_alter_is_Some. apply Hd.
  - intros q j Hq. destruct (decide (q = r)) as [->|Hne].
    + rewrite Hr in Hq. injection Hq as <-. rewrite !lookup_alter_eq. by rewrite (Hv r i Hr).
    + rewrite (lookup_alter_ne _ s) by done. rewrite lookup_alter_ne; [by apply Hv|].
      intros ->. by apply Hne, (Hi q r j).
  - intros j Hj. destruct (Hf j Hj) as [H1 H2]. split; [|done]. rewrite lookup_alter_ne; [done|].
    intros ->. by apply (H2 r).
Qed.

Lemma end_inv w s r w' : Inv w s -> step (End_ r) w = Some w' -> Inv w' (spec_step (End_ r) s).
Proof.
  intros [Hd Hv Hi Hf Hp] Hs. simpl in Hs. destruct (active w !! r) as [i|] eqn:Hr; [|done]. injection Hs as <-.
  assert (Hni : forall q, q <> r -> active w !! q <> Some i) by (intros q Hne Hq; by apply Hne, (Hi q r i)).
  split; simpl.
  - intros q. destruct (decide (q = r)) as [->|]; [rewrite !lookup_delete_eq; split; by intros [? ?]|].
    rewrite !lookup_delete_ne by done. apply Hd.
  - intros q j [Hne Hq]%lookup_delete_Some. rewrite lookup_delete_ne by done.
    rewrite lookup_insert_ne; [by apply Hv|]. intros <-. by apply (Hni q).
  - intros q q' j [_ H1]%lookup_delete_Some [_ H2]%lookup_delete_Some. by apply (Hi q q' j).
  - intros j [->|Hj]%elem_of_cons.
    + rewrite lookup_insert_eq. split; [done|]. intros q [Hne Hq]%lookup_delete_Some. by apply (Hni q).
    + destruct (Hf j Hj) as [H1 H2]. split.
      * destruct (decide (i = j)) as [->|]; [by rewrite lookup_insert_eq|by rewrite lookup_insert_ne].
      * intros q [_ Hq]%lookup_delete_Some. by apply (H2 q).
  - constructor; [|done]. intros Hj. destruct (Hf i Hj) as [_ H2]. by apply (H2 r).
Qed.

Lemma pool_runs_inv tr w s w' :
  Inv w s -> runs tr w = Some w' -> Inv w' (fold_left (fun s a => spec_step a s) tr s).
Proof.
  revert w s. induction tr as [|a tr IH]; simpl; intros w s HI; [by intros [= <-]|].
  destruct (step a w) as [w1|] eqn:Hs; [|done]. intros Hr. apply (IH w1); [|done].
  destruct a; [by apply begin_inv with w|by apply put_state_inv with w|by apply end_inv with w].
Qed.
End state.

(** *** Vectors *)

Section vectors.
Import Labels Counters.

Lemma statusLabel_in s : statusLabel s ∈ "other" :: (itoa <$> (Z.of_nat <$> seq 100 500)).
Proof.
  unfold statusLabel. destruct (Z.leb_spec 100 s), (Z.leb_spec s 599); simpl andb; try (by left). right.
  apply list_elem_of_fmap_2, list_elem_of_fmap. exists (Z.to_nat s). split; [lia|]. apply elem_of_seq. lia.
Qed.
Lemma methodLabel_in m : methodLabel m ∈ "other" :: methods.
Proof. unfold methodLabel. case_bool_decide; [by right|by left]. Qed.
Lemma HostLabel_in (K : gset string) h :
  HostLabel h (Some (fun x => bool_decide (x ∈ K))) ∈ "other" :: elements K.
Proof. simpl. case_bool_decide; [right; by apply elem_of_elements|by left]. Qed.

(** Keys within a list bound the size of a map. *)
Lemma size_within {K A} `{Countable K} (m : gmap K A) (l : list K) :
  (forall k, is_Some (m !! k) -> k ∈ l) -> size m <= length l.
Proof.
  intros Hin. rewrite <- size_dom. transitivity (size (list_to_set (remove_dups l) : gset K)).
  - apply subseteq_size. intros k Hk. apply elem_of_list_to_set, elem_of_remove_dups, Hin. by apply elem_of_dom.
  - rewrite size_list_to_set by apply NoDup_remove_dups. apply submseteq_length, NoDup_submseteq; [apply NoDup_remove_dups|]. intros x. by rewrite elem_of_remove_dups.
Qed.

Lemma inc_lookup_some {K} `{Countable K} (k k' : K) m : is_Some (inc k m !! k') <-> k' = k \/ is_Some (m !! k').
Proof. unfold inc. rewrite lookup_insert_is_Some. destruct (decide (k = k')); naive_solver. Qed.

(** **** Gauges of pairs *)

Definition howMany {V} `{EqDecision V} (v : V) (m : gmap nat V) : Z :=
  Z.of_nat (size (filter (fun kv => kv.2 = v) m)).

Lemma howMany_insert {V} `{EqDecision V} (v v' : V) i m :
  m !! i = None -> howMany v' (<[i := v]> m) = (howMany v' m + if decide (v = v') then 1 else 0)%Z.
Proof.
  intros Hi. unfold howMany. destruct (decide (v = v')) as [->|Hne].
  - rewrite map_filter_insert_True by done. rewrite map_size_insert_None; [lia|].
    apply map_lookup_filter_None. by left.
  - rewrite map_filter_insert_False by done. rewrite delete_id by done. lia.
Qed.

Lemma howMany_delete {V} `{EqDecision V} (v v' : V) i m :
  m !! i = Some v -> howMany v' (delete i m) = (howMany v' m - if decide (v = v') then 1 else 0)%Z.
Proof.
  intros Hi. pose proof (howMany_insert v v' i (delete i m) (lookup_delete_eq _ _)) as H.
  rewrite insert_delete_id in H by done. lia.
Qed.

Lemma howMany_replace {V} `{EqDecision V} (v0 v v' : V) i m :
  m !! i = Some v0 ->
  howMany v' (<[i := v]> m) = (howMany v' m - (if decide (v0 = v') then 1 else 0) + if decide (v = v') then 1 else 0)%Z.
Proof.
  intros Hi. rewrite <- insert_delete_eq. rewrite howMany_insert by apply lookup_delete_eq.
  by rewrite (howMany_delete v0).
Qed.

Lemma add_lookup {K} `{Countable K} (k k' : K) d m :
  default 0%Z (add k d m !! k') = (default 0 (m !! k') + if decide (k = k') then d else 0)%Z.
Proof.
  unfold add. destruct (decide (k = k')) as [->|]; [by rewrite lookup_insert_eq|].
  rewrite lookup_insert_ne by done. lia.
Qed.
(** The gauge of a service and its open connections. *)
Definition gaugeOk (s : backendKey) (t : conns) : Prop :=
  default 0%Z (b_open t !! s) = howMany (s, false) (b_conns t).

Lemma trackClose_gauge c s t : gaugeOk s t -> gaugeOk s (trackClose c t).
Proof.
  unfold gaugeOk, trackClose. intros Hg. destruct (b_conns t !! c) as [[s' []]|] eqn:Hc; try done. simpl.
  rewrite add_lookup, Hg, (howMany_replace (s', false)) by done.
  rewrite (decide_False (P := (s', true) = (s, false))) by congruence.
  destruct (decide (s' = s)) as [->|]; [rewrite decide_True by done|rewrite decide_False by congruence]; lia.
Qed.

Lemma conn_step_gauge o s t : gaugeOk s t -> gaugeOk s (connStep o t).
Proof.
  intros Hg. destruct o as [c s'|c n err|c n err|c]; simpl.
  - destruct (b_conns t !! c) eqn:Hc; [done|]. unfold gaugeOk. simpl.
    rewrite add_lookup, Hg, howMany_insert by done.
    destruct (decide (s' = s)) as [->|]; [rewrite decide_True by done|rewrite decide_False by congruence]; lia.
  - destruct (b_conns t !! c) as [[s' b]|]; [|done]. destruct (0 <? n)%Z, err; try done; by apply trackClose_gauge.
  - destruct (b_conns t !! c) as [[s' b]|]; [|done]. destruct (0 <? n)%Z, err; try done; by apply trackClose_gauge.
  - by apply trackClose_gauge.
Qed.
End vectors.



(** *** Writers *)

Section writers.
Import Labels Writers.

(** What handlers do when nothing is sent ahead of the head. *)
Definition plainOp (o : op) : bool :=
  match o with
  | WriteHeader c => negb (isInterim c)
  | Flush => false
  | _ => true
  end.

(** The tracker is in step with the response below. *)
Definition tracked (w : track) (b : Response) : Prop :=
  t_base w = b /\ t_wroteHeader w = bool_decide (is_Some (head b)) /\
  t_status w = match head b with Some (c, _) => c | None => 0%Z end.

Lemma base_head_kept o b c h : head b = Some (c, h) -> head (baseOp o b) = Some (c, h).
Proof.
  intros Hb. destruct o; simpl; unfold baseWrite, baseWriteHeader; rewrite ?Hb; simpl; rewrite ?Hb; try done.
  by destruct (bodyAllowed c).
Qed.

Lemma base_write_header_new b c :
  head b = None -> isInterim c = false -> baseWriteHeader c b = mkResp (interim b) (Some (c, header b)) (header b) (sent b).
Proof. intros Hb Hc. unfold baseWriteHeader. by rewrite Hb, Hc. Qed.

Lemma base_write_new b s : head b = None -> baseWrite s (baseWriteHeader 200 b) = baseWrite s b.
Proof. intros Hb. unfold baseWrite. by rewrite (base_write_header_new b 200) by done. Qed.

Lemma track_plain o w b : plainOp o = true -> tracked w b -> tracked (trackOp o w) (baseOp o b).
Proof.
  destruct w as [wr st b']. intros Hp (Hb & Hw & Hs). simpl in Hb, Hw, Hs. subst b' wr st.
  destruct (head b) as [[c h]|] eqn:Hh.
  - assert (Hk := base_head_kept o b c h Hh).
    destruct o as [c'|s|k v|]; simpl in *; [|split; [done|]; simpl; by rewrite Hk..|done].
    unfold trackWriteHeader, baseWriteHeader. simpl. rewrite Hh. split; [done|]. simpl. by rewrite Hh.
  - destruct o as [c|s|k v|]; simpl in *; [| | |done].
    + apply negb_true_iff in Hp. unfold trackWriteHeader. simpl. rewrite base_write_header_new by done. by split.
    + unfold trackWriteHeader. simpl. rewrite base_write_new by done.
      split; [done|]. simpl. unfold baseWrite. rewrite base_write_header_new by done. by split.
    + split; [done|]. simpl. by rewrite Hh.
Qed.

Lemma track_plain_all ops w b :
  forallb plainOp ops = true -> tracked w b -> tracked (trackOps ops w) (baseOps ops b).
Proof.
  revert w b. induction ops as [|o ops IH]; [done|]. intros w b [Ho Hr]%andb_true_iff Ht.
  apply IH; [done|]. by apply track_plain.
Qed.

(** **** The stamp *)

Definition stampable (o : op) : bool :=
  match o with
  | WriteHeader c => negb (c =? 101)%Z
  | Flush => false
  | _ => true
  end.

(** The stamp of a header that is about to be sent. *)
Definition stamped (h : Header) : Header :=
  if String.eqb (HeaderGet "X-Cache" h) "" then HeaderSet "X-Cache" "BYPASS" h else h.

(** Both have sent the same; the head of the one is the stamp of the other's. *)
Definition stampRel (w : stamp) (b : Response) : Prop :=
  interim (s_base w) = interim b /\ sent (s_base w) = sent b /\
  s_wroteHeader w = bool_decide (is_Some (head b)) /\
  match head b with
  | None => s_base w = b
  | Some (c, h) => head (s_base w) = Some (c, stamped h)
  end.

Lemma tagBypass_new b : tagBypass (mkStamp false b) = mkStamp true (mkResp (interim b) (head b) (stamped (header b)) (sent b)).
Proof. unfold tagBypass, stamped. simpl. destruct b as [i hd h s]. simpl. by destruct (String.eqb _ _). Qed.

Lemma tagBypass_done b : tagBypass (mkStamp true b) = mkStamp true b.
Proof. done. Qed.

Lemma base_write_header_done b c c' h : head b = Some (c, h) -> baseWriteHeader c' b = b.
Proof. intros Hb. unfold baseWriteHeader. by rewrite Hb. Qed.

Lemma base_write_done b s c h :
  head b = Some (c, h) ->
  interim (baseWrite s b) = interim b /\ head (baseWrite s b) = Some (c, h) /\
  sent (baseWrite s b) = if bodyAllowed c then sent b +:+ s else sent b.
Proof.
  intros Hb. unfold baseWrite. rewrite (base_write_header_done b c 200 h Hb), Hb. by destruct (bodyAllowed c).
Qed.

Lemma stamp_op_rel o w b : stampable o = true -> stampRel w b -> stampRel (stampOp o w) (baseOp o b).
Proof.
  destruct w as [wr b']. intros Hp (Hi & Hs & Hw & Hm). simpl in *. subst wr.
  destruct (head b) as [[c h]|] eqn:Hh; simpl in *.
  - destruct o as [c'|s|k v|]; simpl in *; [| | |done].
    + rewrite (base_write_header_done b c c' h Hh).
      destruct (_ && _); rewrite ?tagBypass_done; simpl;
        rewrite (base_write_header_done b' c c' _ Hm); (split; [done|split; [done|simpl; by rewrite Hh]]).
    + destruct (base_write_done b s c h Hh) as (H1 & H2 & H3).
      destruct (base_write_done b' s c _ Hm) as (H4 & H5 & H6).
      split; simpl; [congruence|]. rewrite H2. split; [rewrite H6, H3; by destruct (bodyAllowed c); rewrite ?Hs|done].
    + split; [done|]. split; [done|]. simpl. by rewrite Hh.
  - subst b'. destruct o as [c|s|k v|]; simpl in Hp; [| | |done]; unfold stampOp, baseOp;
      change (bool_decide (is_Some None)) with false; cbv zeta; rewrite ?tagBypass_new.
    + destruct (_ && _) eqn:Hc.
      * assert (Hin : isInterim c = true) by (unfold isInterim; by rewrite Hc, Hp).
        simpl. unfold baseWriteHeader. rewrite Hh, Hin. repeat split.
      * assert (Hin : isInterim c = false) by (unfold isInterim; by rewrite Hc).
        simpl. rewrite !base_write_header_new by done. repeat split.
    + simpl. unfold baseWrite. rewrite !base_write_header_new by done. repeat split.
    + split; [done|]. split; [done|]. simpl. by rewrite Hh.
Qed.

Lemma stamp_all ops w b :
  forallb stampable ops = true -> stampRel w b -> stampRel (stampOps ops w) (baseOps ops b).
Proof.
  revert w b. induction ops as [|o ops IH]; [done|]. intros w b [Ho Hr]%andb_true_iff Ht.
  apply IH; [done|]. by apply stamp_op_rel.
Qed.
End writers.

End AccountingLemmas.

(** ** Properties *)

Module AccountingProps.
Import State Labels Writers Counters AccountingLemmas.

(** Requests do not see each other's state: after any sequence of beginnings, writes
    and ends, with maps reused from the pool or not, every request reads exactly what it
    wrote itself since it began, and what waits in the pool is empty. *)
Theorem request_states_are_isolated (tr : list action) (w : world) (r : nat) :
  runs tr start = Some w ->
  Get w r = default ∅ (spec_runs tr !! r) /\ (forall i, i ∈ pool w -> heap w !! i = Some ∅).
Proof.
  intros Hr. assert (HI : Inv start ∅).
  { split; simpl; [intros q; by rewrite !lookup_empty|intros q i; by rewrite lookup_empty
      |intros q q' i; by rewrite lookup_empty|intros i []%elem_of_nil|by apply NoDup_nil]. }
  destruct (pool_runs_inv _ _ _ _ HI Hr) as [Hd Hv _ Hf _].
  fold (spec_runs tr) in Hd, Hv. split; [|by intros i [H1 _]%Hf]. unfold Get.
  destruct (active w !! r) as [i|] eqn:Ha; [by rewrite (Hv r i Ha)|].
  assert (Hn : spec_runs tr !! r = None) by (apply eq_None_not_Some; rewrite <- Hd, Ha; by intros [? ?]).
  by rewrite Hn.
Qed.

(** Requests cannot grow the series of the edge's request counter: whatever hosts,
    methods and statuses they have, there are at most as many series as there are pairs of
    a label of the known hosts (or "other"), of the statuses 100 to 599 (or "other") and
    of the nine methods (or "other"). *)
Theorem series_are_bounded (K : gset string) (l : list (served * Response)) :
  size (edgeServeAll (Some (fun h => bool_decide (h ∈ K))) l ∅) <= S (size K) * 501 * 10.
Proof.
  set (hosts := "other" :: elements K).
  set (statuses := "other" :: (itoa <$> (Z.of_nat <$> seq 100 500))).
  assert (Hin : forall k, is_Some (edgeServeAll (Some (fun h => bool_decide (h ∈ K))) l ∅ !! k) ->
    k ∈ list_prod (list_prod hosts statuses) ("other" :: methods)).
  { intros k. assert (H0 : is_Some ((∅ : gmap (string * string * string) Z) !! k) ->
      k ∈ list_prod (list_prod hosts statuses) ("other" :: methods)) by (rewrite lookup_empty; by intros [? ?]).
    revert H0. generalize (∅ : gmap (string * string * string) Z).
    induction l as [|[s w] l' IH]; intros m H0; [exact H0|].
    apply (IH (edgeRequests _ s w m).2). unfold edgeRequests. cbn [snd].
    rewrite inc_lookup_some. intros [->|Hm]; [|by apply H0]. unfold edgeKey.
    apply list_elem_of_In, in_prod; [apply in_prod|]; apply list_elem_of_In;
      [apply HostLabel_in|apply statusLabel_in|apply methodLabel_in]. }
  etransitivity; [by apply size_within|]. rewrite !length_prod. unfold hosts, statuses.
  cbn [length]. rewrite !length_fmap, length_seq. change (length (elements K)) with (size K). done.
Qed.

(** A handler that sends no interim head and does not flush before its head gets, with the
    metric's writer around it, exactly the response that it would have without, and the
    status that is counted is the one that the client is sent (nothing is counted for a
    handler that sent none). *)
Theorem counted_status_is_the_clients (ops : list op) (h : Header) :
  forallb plainOp ops = true ->
  let t := trackOps ops (newTrack (newResponse h)) in
  t_base t = baseOps ops (newResponse h) /\
  t_status t = match head (t_base t) with Some (c, _) => c | None => 0%Z end.
Proof.
  intros Hp t. destruct (track_plain_all ops (newTrack (newResponse h)) (newResponse h) Hp) as (H1 & _ & H3);
    [by split|]. fold t in H1, H3. by rewrite H1.
Qed.

(** A response that the cache manages is left alone, and any other one gets
    [X-Cache: BYPASS] and nothing else: interim heads, status, the rest of the header and
    the body are those of the handler. *)
Theorem bypass_is_stamped_exactly (ops : list op) (h : Header) :
  forallb stampable ops = true ->
  let s := s_base (stampOps ops (mkStamp false (newResponse h))) in
  let b := baseOps ops (newResponse h) in
  interim s = interim b /\ sent s = sent b /\
  head s = match head b with Some (c, hd) => Some (c, stamped hd) | None => None end.
Proof.
  intros Hp s b.
  destruct (stamp_all ops (mkStamp false (newResponse h)) (newResponse h) Hp) as (H1 & H2 & _ & H4).
  { by repeat split. }
  fold s in H1, H2, H4. fold b in H1, H2, H4. split; [done|split; [done|]].
  destruct (head b) as [[c hd]|] eqn:Hb; [done|]. by rewrite H4.
Qed.

(** A relayed 103 hides the status: the writer of the request metric takes an interim head
    for the final one, drops the head that follows, and the client gets an implicit 200
    instead of the 404 of the backend; 103 is counted. *)
Theorem interim_head_hides_the_status :
  let ops := [WriteHeader 103; WriteHeader 404; Write "gone"] in
  let t := trackOps ops (newTrack (newResponse ∅)) in
  (fst <$> head (baseOps ops (newResponse ∅))) = Some 404%Z /\
  (fst <$> head (t_base t)) = Some 200%Z /\ t_status t = 103%Z.
Proof. by vm_compute. Qed.

(** The gauge of active requests is, for each label, the number of requests with that
    label that are being served, whatever the oracle of known hosts does in between. *)
Theorem active_gauge_counts_flights (l : list visit) (t : tracker) (k : string * string) :
  visits l (mkTracker ∅ ∅) = Some t ->
  default 0%Z (g_active t !! k) = howMany k (g_flights t).
Proof.
  set (t0 := mkTracker ∅ ∅).
  assert (H0 : default 0%Z (g_active t0 !! k) = howMany k (g_flights t0)) by done.
  revert H0. generalize t0. clear t0. induction l as [|v l IH]; intros t1 H1; [by intros [= <-]|].
  simpl. destruct (trackStep v t1) as [t2|] eqn:Hs; [|done]. apply IH.
  destruct v as [r host h known|r]; simpl in Hs; destruct (g_flights t1 !! r) as [k'|] eqn:Hr; try done;
    injection Hs as <-; simpl; rewrite add_lookup, H1.
  - by rewrite howMany_insert.
  - rewrite (howMany_delete k') by done. destruct (decide (k' = k)); lia.
Qed.

(** A backend connection is taken out of the gauge once, however often it fails, is closed or
    is used after that: the gauge of a service is the number of its connections that
    neither failed nor were closed. *)
Theorem connection_gauge_counts_open (l : list connOp) (s : backendKey) :
  let t := fold_left (fun t o => connStep o t) l (mkConns ∅ ∅ ∅ ∅) in
  default 0%Z (b_open t !! s) = howMany (s, false) (b_conns t).
Proof.
  set (t0 := mkConns ∅ ∅ ∅ ∅).
  assert (H0 : default 0%Z (b_open t0 !! s) = howMany (s, false) (b_conns t0)) by done.
  revert H0. generalize t0. clear t0. induction l as [|o l IH]; intros t1 H1; [exact H1|]. apply IH.
  by apply conn_step_gauge.
Qed.

(** *** Witnesses *)

Lemma request_states_are_isolated_witness :
  let tr := [Begin 1 false; Put_ 1 "ingress" "a"; End_ 1; Begin 2 true; Put_ 2 "namespace" "b"] in
  let w := default start (runs tr start) in
  runs tr start = Some w /\ Get w 2 = {["namespace" := "b"]}.
Proof.
  intros tr w. assert (Hw : runs tr start = Some w) by (vm_compute; reflexivity).
  split; [exact Hw|]. etransitivity; [exact (proj1 (request_states_are_isolated tr w 2 Hw))|].
  vm_compute. reflexivity.
Defined.

Lemma counted_status_is_the_clients_witness :
  let t := trackOps [SetHeader "Content-Type" "text/plain"; WriteHeader 404; WriteHeader 200; Write "gone"] (newTrack (newResponse ∅)) in
  t_status t = 404%Z /\ (fst <$> head (t_base t)) = Some 404%Z.
Proof.
  intros t.
  destruct (counted_status_is_the_clients
    [SetHeader "Content-Type" "text/plain"; WriteHeader 404; WriteHeader 200; Write "gone"] ∅ eq_refl) as [H1 H2].
  split; [|vm_compute; reflexivity]. etransitivity; [exact H2|]. vm_compute. reflexivity.
Defined.

Lemma bypass_is_stamped_exactly_witness :
  let s := s_base (stampOps [WriteHeader 103; WriteHeader 200; Write "x"] (mkStamp false (newResponse ∅))) in
  interim s = [103%Z] /\ HeaderGet "X-Cache" (default (0%Z, ∅) (head s)).2 = "BYPASS".
Proof.
  intros s.
  destruct (bypass_is_stamped_exactly [WriteHeader 103; WriteHeader 200; Write "x"] ∅ eq_refl) as (H1 & _ & H3).
  fold s in H1, H3. split; [rewrite H1; vm_compute; reflexivity|rewrite H3; vm_compute; reflexivity].
Defined.

Lemma active_gauge_counts_flights_witness :
  let l := [Arrive 1 "a.example" ∅ None; Arrive 2 "a.example" ∅ None; Leave 1] in
  let t := default (mkTracker ∅ ∅) (visits l (mkTracker ∅ ∅)) in
  visits l (mkTracker ∅ ∅) = Some t /\ default 0%Z (g_active t !! ("a.example", "http")) = 1%Z.
Proof.
  intros l t. assert (Ht : visits l (mkTracker ∅ ∅) = Some t) by (vm_compute; reflexivity).
  split; [exact Ht|]. etransitivity; [exact (active_gauge_counts_flights l t ("a.example", "http") Ht)|].
  vm_compute. reflexivity.
Defined.

End AccountingProps.
