(* ===== verification/Programs.v ===== *)
(** * The programs

    Models what the three programs decide before they serve, and the order in which they
    mount their middlewares: [src/cmd/edge-proxy/main.go] (Module [EdgeProxy]),
    [src/cmd/edge-controlplane/main.go] (Module [ControlPlane]) and
    [src/cmd/parapet-ingress-controller/main.go] (Module [Core]).

    The environment, the files and the host name are arguments.  A start is a [result]: a
    refusal (the program exits with 1), or what it goes on with.  A middleware on the way
    in either passes a request on or answers it; [reach] is the request that a stage of a
    chain gets.  What the stages do is in the files of their components; the ones that
    write a header here are definitions, the others are an argument of the chain. *)

From S2P Require Import Prelude GoString GoTime GoURL Certs Trust TrustCIDR EdgeStores Signer EdgeServer EdgeRules CpClient Revoke.

Set Default Proof Using "Type".

Record Request := mkReq { Host : string; Method : string; Hdr : GoURL.Header }.
Definition withHdr (h : GoURL.Header) (r : Request) : Request := mkReq (Host r) (Method r) h.

Inductive verdict (A : Type) := Pass (r : Request) | Answer (a : A).
Arguments Pass {A}.
Arguments Answer {A}.

Section chain.
Context {S A : Type} `{!EqDecision S} (act : S -> Request -> verdict A).

(** The request that stage [t] gets. *)
Fixpoint reach (t : S) (l : list S) (r : Request) : option Request :=
  match l with
  | [] => None
  | s :: l =>
      if decide (s = t) then Some r
      else match act s r with Pass r => reach t l r | Answer _ => None end
  end.

(** The request behind all of [l]. *)
Fixpoint through (l : list S) (r : Request) : option Request :=
  match l with
  | [] => Some r
  | s :: l => match act s r with Pass r => through l r | Answer _ => None end
  end.

End chain.

(** [forwardGeoHeaders], of the edge and of the core; a resolver may be nil. *)
Definition forwardGeoHeaders (country : option (Request -> string)) (asn : option (Request -> Z)) (r : Request) : Request :=
  let r := match country with Some c => withHdr (HeaderSet "X-Forwarded-Country" (c r) (Hdr r)) r | None => r end in
  match asn with Some a => withHdr (HeaderSet "X-Forwarded-ASN" (itoa (a r)) (Hdr r)) r | None => r end.

(** The country of a database that is loaded: an address that it cannot place is "XX". *)
Definition resolved (lookup : Request -> string) (r : Request) : string :=
  if String.eqb (lookup r) "" then "XX" else lookup r.

(** ** The edge proxy *)

Module EdgeProxy.

Section startup.
Context (LookupEnv ReadFile : string -> option string) (Hostname : string).
(** [url.Parse]: the scheme and the host; [AppendCertsFromPEM]. *)
Context (Parse : string -> option (string * string)) (appends : string -> bool).

Definition Getenv (key : string) : string := default "" (LookupEnv key).
Definition envOr (key def : string) : string := default def (LookupEnv key).
Definition envInt64 (key : string) (def : Z) : Z :=
  match LookupEnv key with Some v => default def (ParseInt (trim_space v)) | None => def end.
Definition isTrue (key def : string) : bool := String.eqb (envOr key def) "true".

(** [time.Duration(n) * time.Second]. *)
Definition seconds (n : Z) : Z := wrap64 (n * second).

Definition splitDomains (s : string) : list string :=
  List.filter (fun d => negb (String.eqb d "")) (trim_space <$> split_char c_comma s).

(** [edge.ForwarderTuning]. *)
Record ForwarderTuning := mkTuning { MaxConnsPerHost : Z; MaxIdleConnsPerHost : Z }.

Record Config := mkConfig {
  httpsListen : string;
  httpListen : string;
  metricsListen : string;
  cp : CpClient.CpClient.Client;
  pin : option string;             (* the roots of the channel; None: the system's *)
  upstreamAddr : string;
  upstreamTLS : bool;
  upstreamHTTP2 : bool;
  upstreamSNI : string;
  upstreamWSH2 : bool;
  upstreamTuning : ForwarderTuning;
  dataplaneMTLS : bool;
  edgeID : string;
  refreshInterval : Z;
  wafEnabled : bool;
  corazaEnabled : bool;
  ratelimitEnabled : bool;
  cacheEnabled : bool;
  cacheOverrideEnabled : bool;
  purgeEnabled : bool;
  eventsEnabled : bool;
  pushInterval : Z;
  disableLog : bool;
  waitBeforeShutdown : Z;
  domains : list string;
}.

Inductive refusal :=
| InvalidEndpoint | PlaintextEndpoint | NoToken | UnreadableCA | MTLSWithoutTLS | NoEdgeID | NoCpClient.

(** [NewCpClient] pins the roots when there are bytes in the file. *)
Definition pinOf (caPEM : string) : option string := if String.eqb caPEM "" then None else Some caPEM.

Definition checkEndpoint (cpEndpoint : string) : option refusal :=
  match Parse cpEndpoint with
  | None => Some InvalidEndpoint
  | Some (scheme, host) =>
      if String.eqb host "" then Some InvalidEndpoint
      else if negb (String.eqb scheme "https") && negb (isTrue "EDGE_CP_ALLOW_PLAINTEXT" "false") then Some PlaintextEndpoint
      else None
  end.

Definition readCA : result refusal string :=
  let p := Getenv "EDGE_CP_CA" in
  if String.eqb p "" then Ok "" else match ReadFile p with Some b => Ok b | None => Err UnreadableCA end.

Definition startup : result refusal Config :=
  let cpEndpoint := envOr "EDGE_CP_ENDPOINT" "https://controlplane:8443" in
  let cpToken := Getenv "EDGE_CP_TOKEN" in
  let upstreamTLS := isTrue "EDGE_UPSTREAM_TLS" "false" in
  let upstreamHTTP2 := isTrue "EDGE_UPSTREAM_HTTP2" "true" in
  let mtls := isTrue "EDGE_DATAPLANE_MTLS" "false" in
  let id := Getenv "EDGE_ID" in
  let interval := seconds (envInt64 "EDGE_REFRESH_INTERVAL" 300) in
  let cache := isTrue "EDGE_CACHE_ENABLED" "false" in
  match checkEndpoint cpEndpoint with
  | Some e => Err e
  | None =>
      if String.eqb cpToken "" then Err NoToken
      else (caPEM <-r readCA;
        if mtls && negb upstreamTLS then Err MTLSWithoutTLS
        else if mtls && String.eqb id "" then Err NoEdgeID
        else match CpClient.CpClient.NewCpClient (fun u => match Parse u with Some _ => true | None => false end) appends cpEndpoint cpToken caPEM with
        | None => Err NoCpClient
        | Some c =>
            Ok (mkConfig (envOr "EDGE_HTTPS_LISTEN" "0.0.0.0:443") (envOr "EDGE_HTTP_LISTEN" "0.0.0.0:80")
                  (envOr "EDGE_METRICS_LISTEN" ":9187") c (pinOf caPEM) (envOr "EDGE_UPSTREAM_ADDR" "parapet:80") upstreamTLS
                  upstreamHTTP2 (envOr "EDGE_UPSTREAM_SNI" "") (isTrue "EDGE_UPSTREAM_WS_H2" "true" && upstreamHTTP2)
                  (mkTuning (envInt64 "EDGE_UPSTREAM_MAX_CONNS_PER_HOST" 0) (envInt64 "EDGE_UPSTREAM_MAX_IDLE_CONNS_PER_HOST" 0))
                  mtls (if String.eqb id "" then Hostname else id) (if (interval <=? 0)%Z then seconds 300 else interval)
                  (isTrue "EDGE_WAF_ENABLED" "false") (isTrue "EDGE_CORAZA_ENABLED" "false") (isTrue "EDGE_RATELIMIT_ENABLED" "false")
                  cache (isTrue "EDGE_CACHE_OVERRIDE_ENABLED" "false" && cache) (isTrue "EDGE_CACHE_PURGE_ENABLED" "true")
                  (isTrue "EDGE_EVENTS_ENABLED" "true") (seconds (envInt64 "EDGE_METRICS_PUSH_INTERVAL" 0))
                  (isTrue "DISABLE_LOG" "false") (seconds (envInt64 "WAIT_BEFORE_SHUTDOWN" 30)) (splitDomains (Getenv "EDGE_DOMAINS")))
        end)%go
  end.

End startup.

(** *** What it starts *)

Definition serveAll (c : Config) : bool := bool_decide (domains c = []).

(** The loops, and the resources whose change events poke one.  [storage]: the cache has
    a backend. *)
Inductive loop := Hosts | Certs | EdgeCert | WAF | Coraza | RateLimit | CacheOverride | Purges | Reaper | Events | MetricsPush.

#[export] Instance loop_eq_dec : EqDecision loop.
Proof. solve_decision. Defined.

Definition when {A} (b : bool) (l : list A) : list A := if b then l else [].
Definition purgeLive (c : Config) (storage : bool) : bool := cacheEnabled c && storage && purgeEnabled c.

Definition loops (c : Config) (storage : bool) : list loop :=
  [Hosts; Certs] ++ when (dataplaneMTLS c) [EdgeCert] ++ when (wafEnabled c) [WAF] ++ when (corazaEnabled c) [Coraza] ++
  when (ratelimitEnabled c) [RateLimit] ++ when (cacheOverrideEnabled c) [CacheOverride] ++
  when (purgeLive c storage) [Purges; Reaper] ++ when (eventsEnabled c) [Events] ++ when (0 <? pushInterval c)%Z [MetricsPush].

(** [edge.EventPokes]. *)
Definition pokes (c : Config) (storage : bool) : list loop :=
  when (eventsEnabled c)
    ([Certs; Hosts] ++ when (wafEnabled c) [WAF] ++ when (corazaEnabled c) [Coraza] ++
     when (ratelimitEnabled c) [RateLimit] ++ when (cacheOverrideEnabled c) [CacheOverride] ++
     when (purgeLive c storage) [Purges]).

(** [edgeReady]: what the stores say that they have loaded. *)
Definition edgeReady (c : Config) (clientCertLoaded certLoaded : bool) : bool :=
  if dataplaneMTLS c && negb clientCertLoaded then false else serveAll c || certLoaded.

(** Readiness is set once the poll finds it, and stays. *)
Fixpoint readiness (c : Config) (ready : bool) (polls : list (bool * bool)) : bool :=
  match polls with
  | [] => ready
  | p :: polls => readiness c (ready || edgeReady c p.1 p.2) polls
  end.

(** *** The chain *)

Inductive stage :=
| WSNormalize | Health | StripPort | ToLower | Requests | Logger | StripClaim
| WAFGlobal | WAFZone | Stamp | CorazaGlobal | CorazaZone | RateGlobal | RateZone
| Geo | CacheEgress | CacheStatus | Cache | Forward.

#[export] Instance stage_eq_dec : EqDecision stage.
Proof. solve_decision. Defined.

(** The stages that may refuse a request. *)
Definition guards (c : Config) : list stage :=
  when (wafEnabled c) [WAFGlobal; WAFZone; Stamp] ++ when (corazaEnabled c) [CorazaGlobal; CorazaZone] ++
  when (ratelimitEnabled c) [RateGlobal; RateZone].

Definition chain (c : Config) (geo respCache : bool) : list stage :=
  [WSNormalize; Health; StripPort; ToLower; Requests] ++ when (negb (disableLog c)) [Logger] ++ [StripClaim] ++
  guards c ++ when geo [Geo] ++ when respCache [CacheEgress; CacheStatus; Cache] ++ [Forward].

Section serving.
Context {I M A : Type}.
Context (ext : stage -> Request -> verdict A) (ewaf : EdgeRules.EdgeRules.Edge I M).
(** The lookups of the databases that can be opened: the country of the client, or "". *)
Context (countryDB : option (Request -> string)) (asnDB : option (Request -> Z)) (c : Config).

(** They are opened when a feature needs them. *)
Definition needGeo : bool := wafEnabled c || ratelimitEnabled c || cacheOverrideEnabled c.
Definition country : option (Request -> string) := if needGeo then resolved <$> countryDB else None.
Definition asn : option (Request -> Z) := if needGeo then asnDB else None.

Definition act (s : stage) (r : Request) : verdict A :=
  match s with
  | StripClaim => Pass (withHdr (EdgeRules.EdgeRules.StripWAFClaim (Hdr r)) r)
  | Stamp => Pass (withHdr (EdgeRules.EdgeRules.ClaimStamp ewaf (Hdr r)) r)
  | Geo => Pass (forwardGeoHeaders country asn r)
  | s => ext s r
  end.

(** The request that [s] gets from a client that sends [r]. *)
Definition gets (respCache : bool) (s : stage) (r : Request) : option Request :=
  reach act s (chain c (bool_decide (is_Some country \/ is_Some asn)) respCache) r.
End serving.

End EdgeProxy.

(** ** The control plane *)

Module ControlPlane.

Section startup.
Context {Cert Pub Key : Type} `{!PKIOps Cert Pub Key} `{!EtagOps}.
Context (Getenv : string -> string) (ReadFile : string -> option string).
(** The modification time of a file, in seconds. *)
Context (ModTime : string -> option Z).
(** [loadTokens], the order in which the registry is ranged over, and [k8s.Init]. *)
Context (loadTokens : string -> string -> option (gmap string Authz.Entry)).
Context (ord : gmap string Authz.Entry -> list (string * Authz.Entry)) (k8sInit : bool).

Abbreviation envOr := (Revoke.Revoke.envOr Getenv).
Abbreviation envInt := (Revoke.Revoke.envInt Getenv).
Abbreviation Signer := (Signer.Signer.Signer Cert Key).
Definition isTrue (key : string) : bool := String.eqb (Getenv key) "true".

Definition providedGeneration (caCertPath : string) : Z :=
  let v := Getenv "EDGE_CA_PROVIDED_GENERATION" in
  let mtime := match ModTime caCertPath with Some mt => if (0 <? mt)%Z then mt else 1%Z | None => 1%Z end in
  if String.eqb v "" then mtime
  else match EdgeServer.ParseUint v with (n, true) => if (0 <? n)%Z then n else mtime | _ => mtime end.

Inductive refusal :=
| NoNamespace | K8s | TLSPair | BadTokens | NoTokens | DuplicateEdgeID (id : string)
| CAPair | UnreadableCA | BadSigner | ManagedWithoutNamespace | PurgeWithoutAdmin.

Inductive issuance := NoIssuance | Provided (s : Signer) (generation : Z) | Managed (secret : string).
Inductive store := WAF | RateLimit | Coraza | Cache | Hosts.

Record Config := mkConfig {
  addr : string;
  metricsListen : string;
  certKey : option (string * string);       (* None: plaintext *)
  tokens : gmap string Authz.Entry;
  signConcurrency : Z;
  watchConcurrency : Z;
  issues : issuance;
  stores : list store;
  purgeAdmin : option string;
  events : bool;
}.

(** What the process is: a job that runs once, or the server. *)
Inductive mode :=
| ConvergeStatus
| RevokeEdge
| Bootstrap (namespace name : string)
| Rotate (namespace name : string)
| Serve (c : Config).

Definition caName : string := if String.eqb (Getenv "EDGE_CA_SECRET") "" then "parapet-edge-ca" else Getenv "EDGE_CA_SECRET".

Definition job (m : string -> string -> mode) : result refusal mode :=
  let ns := Getenv "POD_NAMESPACE" in
  if String.eqb ns "" then Err NoNamespace
  else if negb k8sInit then Err K8s
  else Ok (m ns caName).

Definition tlsOf : result refusal (option (string * string)) :=
  let crt := Getenv "CP_TLS_CERT" in
  let key := Getenv "CP_TLS_KEY" in
  match String.eqb crt "", String.eqb key "" with
  | true, true => Ok None
  | false, false => Ok (Some (crt, key))
  | _, _ => Err TLSPair
  end.

Definition registry : result refusal (gmap string Authz.Entry) :=
  match loadTokens (Getenv "CP_TOKENS") (Getenv "CP_TOKENS_FILE") with
  | None => Err BadTokens
  | Some toks =>
      if bool_decide (toks = ∅) then Err NoTokens
      else
        let dup := Revoke.Revoke.duplicateEdgeID (ord toks) in
        if negb (String.eqb dup "") then Err (DuplicateEdgeID dup)
        else if negb k8sInit then Err K8s
        else Ok toks
  end.

Definition issuanceOf (ttl skew : Z) : result refusal issuance :=
  let crt := Getenv "EDGE_CA_CERT" in
  let key := Getenv "EDGE_CA_KEY" in
  let secret := Getenv "EDGE_CA_SECRET" in
  if negb (Bool.eqb (String.eqb crt "") (String.eqb key "")) then Err CAPair
  else if negb (String.eqb crt "") then
    match ReadFile crt, ReadFile key with
    | Some certPEM, Some keyPEM =>
        match Signer.Signer.NewProvidedSigner certPEM keyPEM ttl skew with
        | Ok (s, _) => Ok (Provided s (providedGeneration crt))
        | Err _ => Err BadSigner
        end
    | _, _ => Err UnreadableCA
    end
  else if negb (String.eqb secret "") then
    if String.eqb (Getenv "POD_NAMESPACE") "" then Err ManagedWithoutNamespace else Ok (Managed secret)
  else Ok NoIssuance.

Definition purgeOf : result refusal (option string) :=
  let admin := Getenv "CP_PURGE_ADMIN_TOKEN" in
  if negb (isTrue "CP_PURGE_ENABLED") then Ok None
  else if String.eqb admin "" then Err PurgeWithoutAdmin
  else Ok (Some admin).

Definition storesOf : list store :=
  (if isTrue "CP_WAF_ENABLED" then [WAF] else []) ++ (if isTrue "CP_RATELIMIT_ENABLED" then [RateLimit] else []) ++
  (if isTrue "CP_CORAZA_ENABLED" then [Coraza] else []) ++ (if isTrue "CP_CACHE_ENABLED" then [Cache] else []) ++
  (if String.eqb (envOr "CP_HOSTS_ENABLED" "true") "true" then [Hosts] else []).

Definition serving (GOMAXPROCS : Z) : result refusal mode :=
  (crtKey <-r tlsOf;
   toks <-r registry;
   iss <-r issuanceOf (Revoke.Revoke.DefaultDuration Getenv "EDGE_CLIENTCERT_TTL" Signer.Signer.DefaultClientCertTTL)
             (Revoke.Revoke.DefaultDuration Getenv "EDGE_CLIENTCERT_SKEW" Signer.Signer.DefaultClientCertSkew);
   admin <-r purgeOf;
   Ok (Serve (mkConfig (envOr "CP_LISTEN" ":8443") (envOr "CP_METRICS_LISTEN" ":9187") crtKey toks
                (envInt "CP_EDGE_SIGN_CONCURRENCY" GOMAXPROCS) (envInt "CP_TRUST_WATCH_CONCURRENCY" 1024) iss storesOf admin
                (String.eqb (envOr "CP_EVENTS_ENABLED" "true") "true"))))%go.

Definition startup (GOMAXPROCS : Z) : result refusal mode :=
  if isTrue "EDGE_CONVERGE_STATUS" then Ok ConvergeStatus
  else if isTrue "EDGE_CA_REVOKE" then Ok RevokeEdge
  else if isTrue "EDGE_CA_BOOTSTRAP" then job Bootstrap
  else if isTrue "EDGE_CA_ROTATE" then job Rotate
  else serving GOMAXPROCS.

End startup.

(** The one watch of Ingresses runs when a store takes what it derives, and the listener
    of the metrics when it has an address. *)
Definition watchesIngresses {Cert Key} (c : Config (Cert := Cert) (Key := Key)) : bool :=
  match stores c with [] => false | _ => true end.
Definition metricsServed {Cert Key} (c : Config (Cert := Cert) (Key := Key)) : bool := negb (String.eqb (metricsListen c) "").

End ControlPlane.

(** ** The core *)

Module Core.

Section startup.
Context {Cert TLS : Type} `{!EqDecision Cert} `{!TrustOps Cert} `{!CIDROps}.
(** The reader of the configuration, and the files. *)
Context (String_ : string -> string) (Bool_ : string -> bool) (Int_ : string -> Z).
Context (IntDefault DurationDefault : string -> Z -> Z).
Context (LookupEnv ReadFile : string -> option string) (k8sInit : bool).

Inductive refusal :=
| K8s | EndpointRejected | UnreadableCA | NoClient | WAFValidatedProxyRejected (e : TrustCIDR.TrustCIDR.buildError).

Definition trustClient : result refusal (option (Trust.Trust.Client Cert)) :=
  let ep := String_ "EDGE_TRUST_CP_ENDPOINT" in
  if String.eqb ep "" then Ok None
  else match Trust.Trust.ClassifyEndpoint ep with
  | None => Err EndpointRejected
  | Some Trust.Trust.ModeHTTPS =>
      let caPath := String_ "EDGE_TRUST_CP_CA" in
      if String.eqb caPath "" then Ok (Some (Trust.Trust.NewSystemRootsClient ep))
      else match ReadFile caPath with
           | None => Err UnreadableCA
           | Some caPEM =>
               match Trust.Trust.NewClient ep caPEM with Some c => Ok (Some c) | None => Err NoClient end
           end
  | Some Trust.Trust.ModeInsecureHTTP => Ok (Some (Trust.Trust.NewInsecureHTTPClient ep))
  end.

Record Config := mkConfig {
  client : option (Trust.Trust.Client Cert);       (* with auto-trust *)
  pollInterval : Z;
  readyWait : Z;
  SkipValidated : TrustCIDR.TrustCIDR.Conditional TLS;
  wafEnabled : bool;
  corazaEnabled : bool;
  rateLimitEnabled : bool;
  transformEnabled : bool;
  disableLog : bool;
}.

(** [verify] is the check of the manager, when there is one. *)
Definition wafSkip (verify : option (TLS -> bool)) : result refusal (TrustCIDR.TrustCIDR.Conditional TLS) :=
  let spec := String_ "WAF_VALIDATED_PROXY" in
  if String.eqb spec "" then Ok None
  else match TrustCIDR.TrustCIDR.buildWAFValidatedProxy spec verify with
       | Ok p => Ok p
       | Err e => Err (WAFValidatedProxyRejected e)
       end.

Definition readyWaitOf : Z :=
  let w := DurationDefault "EDGE_TRUST_READY_WAIT" (10 * second)%Z in if (w <? 0)%Z then 0%Z else w.

Definition startup (verify : TLS -> bool) : result refusal Config :=
  (_ <-r (if k8sInit then Ok tt else Err K8s);
   tc <-r trustClient;
   skip <-r wafSkip (match tc with Some _ => Some verify | None => None end);
   Ok (mkConfig tc (wrap64 (IntDefault "EDGE_TRUST_CP_POLL_INTERVAL" 300 * second)) readyWaitOf skip
         (Bool_ "WAF_ENABLED") (Bool_ "CORAZA_ENABLED") (Bool_ "RATELIMIT_ENABLED") (Bool_ "TRANSFORM_ENABLED")
         (Bool_ "DISABLE_LOG")))%go.

(** A database: where it is, and whether that was said. *)
Definition dbPath (env def : string) : string * bool :=
  match LookupEnv env with Some v => (v, true) | None => (def, false) end.

(** *** The limiters of hosts *)

Inductive strategy := Concurrent (capacity : Z) | ConcurrentQueue (capacity size : Z).

Definition limiter (capacity size : Z) : strategy :=
  if (0 <? size)%Z then ConcurrentQueue capacity size else Concurrent capacity.

Definition hostRateLimit : option (strategy * (Request -> string)) :=
  let capacity := Int_ "HOST_CONCURRENT_CAPACITY" in
  if (capacity <=? 0)%Z then None else Some (limiter capacity (Int_ "HOST_CONCURRENT_SIZE"), Host).

Definition countryHeaders (raw : string) : list string :=
  CanonicalMIMEHeaderKey <$> List.filter (fun h => negb (String.eqb h "")) (trim_space <$> split_char c_comma raw).

Definition countryOf (headers : list string) (h : GoURL.Header) : string :=
  match List.find (fun k => negb (String.eqb (HeaderGet k h) "")) headers with
  | Some k => HeaderGet k h
  | None => "XX"
  end.
Definition countryKey (headers : list string) (r : Request) : string := Host r +:+ "|" +:+ countryOf headers (Hdr r).

Definition hostCountryRateLimit : option (strategy * (Request -> string)) :=
  let capacity := Int_ "HOST_COUNTRY_CONCURRENT_CAPACITY" in
  let raw := trim_space (String_ "HOST_COUNTRY_HEADER") in
  if (capacity <=? 0)%Z then None
  else if String.eqb raw "" then None
  else match countryHeaders raw with
       | [] => None
       | hs => Some (limiter capacity (Int_ "HOST_COUNTRY_CONCURRENT_SIZE"), countryKey hs)
       end.

End startup.

(** *** The global firewall

    [firewall] is its verdict: what it answers, or nothing when it lets a request pass;
    there is none when the feature is off.  The zones of a request ask [skip] again. *)
Definition globalWAF {A} (firewall : Request -> option A) (skip : option (Request -> bool)) (r : Request) : verdict A :=
  let judge r := match firewall r with Some a => Answer a | None => Pass r end in
  match skip with
  | None => judge r
  | Some skip =>
      if skip r then Pass r
      else judge (withHdr (HeaderDel EdgeRules.EdgeRules.claimHeader (Hdr r)) r)
  end.

(** *** The chain *)

Inductive stage :=
| WSNormalize | Healthz | StripPort | ToLower | HostActive | HostCountryLimit | HostLimit | Logger | State
| Requests | Gzip | Zstd | GlobalWAF | GlobalCoraza | GlobalRateLimit | GlobalTransform | Geo | Controller.

#[export] Instance stage_eq_dec : EqDecision stage.
Proof. solve_decision. Defined.

Definition when {A} (b : bool) (l : list A) : list A := if b then l else [].

Section serving.
Context {Cert TLS A : Type} (ext : stage -> Request -> verdict A).
Context (countryDB : option (Request -> string)) (asnDB : option (Request -> Z)) (c : Config (Cert := Cert) (TLS := TLS)).

Definition needGeo : bool := wafEnabled c || rateLimitEnabled c.
Definition country : option (Request -> string) := if needGeo then resolved <$> countryDB else None.
Definition asn : option (Request -> Z) := if needGeo then asnDB else None.

Definition normalizers : list stage := [WSNormalize; Healthz; StripPort; ToLower].
Definition observers : list stage := [HostActive; HostCountryLimit; HostLimit] ++ when (negb (disableLog c)) [Logger] ++ [State; Requests; Gzip; Zstd].
Definition guards : list stage :=
  when (wafEnabled c) [GlobalWAF] ++ when (corazaEnabled c) [GlobalCoraza] ++ when (rateLimitEnabled c) [GlobalRateLimit].
Definition chain : list stage :=
  normalizers ++ observers ++ guards ++ when (transformEnabled c) [GlobalTransform] ++
  when (bool_decide (is_Some country \/ is_Some asn)) [Geo] ++ [Controller].

Definition act (s : stage) (r : Request) : verdict A :=
  match s with Geo => Pass (forwardGeoHeaders country asn r) | s => ext s r end.

Definition gets (s : stage) (r : Request) : option Request := reach act s chain r.
End serving.

End Core.

(** ** Lemmas *)

Module ProgramsLemmas.

Section chain.
Context {S A : Type} `{!EqDecision S} (act : S -> Request -> verdict A).

Lemma reach_app t l1 l2 r : t ∉ l1 -> reach act t (l1 ++ l2) r = through act l1 r ≫= reach act t l2.
Proof.
  revert r. induction l1 as [|s l1 IH]; intros r Ht; [done|].
  apply not_elem_of_cons in Ht as [Hne Ht]. simpl. rewrite decide_False by done. destruct (act s r); [by apply IH|done].
Qed.

Lemma through_app l1 l2 r : through act (l1 ++ l2) r = through act l1 r ≫= through act l2.
Proof. revert r. induction l1 as [|s l1 IH]; intros r; [done|]. simpl. by destruct (act s r). Qed.

Lemma reach_here t l r : reach act t (t :: l) r = Some r.
Proof. simpl. by rewrite decide_True. Qed.

(** A stage ahead of one that a request gets to let it pass. *)
Lemma reach_passed g t l1 l2 r r' :
  g ∉ l1 -> t ∉ l1 -> t <> g -> reach act t (l1 ++ g :: l2) r = Some r' ->
  exists q q', reach act g (l1 ++ g :: l2) r = Some q /\ act g q = Pass q'.
Proof.
  intros Hg Ht Hne. rewrite !reach_app by done. destruct (through act l1 r) as [q|]; [|done]. simpl.
  rewrite decide_False by done. rewrite decide_True by done.
  destruct (act g q) as [q'|] eqn:Hq; [|done]. intros _. by exists q, q'.
Qed.

Lemma reach_keeps {X} (f : Request -> X) t l r r' :
  (forall s q q', s ∈ l -> s <> t -> act s q = Pass q' -> f q' = f q) -> reach act t l r = Some r' -> f r' = f r.
Proof.
  revert r. induction l as [|s l IH]; intros r Hk; simpl; [done|]. case_decide as Hst; [by intros [= <-]|].
  destruct (act s r) as [q|] eqn:Hq; [|done]. intros Ht. rewrite (IH q); [by apply Hk with s; [left|..]| |done].
  intros s' q1 q2 Hs'. apply Hk. by right.
Qed.

(** What every stage of a segment keeps is kept by the segment. *)
Lemma through_keeps {X} (f : Request -> X) l r r' :
  (forall s q q', s ∈ l -> act s q = Pass q' -> f q' = f q) -> through act l r = Some r' -> f r' = f r.
Proof.
  revert r. induction l as [|s l IH]; intros r Hk; simpl; [by intros [= <-]|].
  destruct (act s r) as [q|] eqn:Hq; [|done]. intros Ht. rewrite (IH q); [by apply Hk with s; [left|]| |done].
  intros s' q1 q2 Hs'. apply Hk. by right.
Qed.
End chain.

Lemma geo_other country asn r k :
  k <> "X-Forwarded-Country" -> k <> "X-Forwarded-Asn" -> Hdr (forwardGeoHeaders country asn r) !! k = Hdr r !! k.
Proof.
  intros H1 H2. assert (Hc : CanonicalMIMEHeaderKey "X-Forwarded-Country" = "X-Forwarded-Country") by (vm_compute; reflexivity).
  assert (Ha : CanonicalMIMEHeaderKey "X-Forwarded-ASN" = "X-Forwarded-Asn") by (vm_compute; reflexivity).
  unfold forwardGeoHeaders, HeaderSet. rewrite Hc, Ha. destruct country, asn; simpl; by rewrite ?lookup_insert_ne.
Qed.

Lemma geo_country f asn r : Hdr (forwardGeoHeaders (Some f) asn r) !! "X-Forwarded-Country" = Some [f r].
Proof.
  assert (Hc : CanonicalMIMEHeaderKey "X-Forwarded-Country" = "X-Forwarded-Country") by (vm_compute; reflexivity).
  assert (Ha : CanonicalMIMEHeaderKey "X-Forwarded-ASN" = "X-Forwarded-Asn") by (vm_compute; reflexivity).
  unfold forwardGeoHeaders, HeaderSet. rewrite Hc, Ha. destruct asn; simpl.
  - rewrite lookup_insert_ne by discriminate. by rewrite lookup_insert_eq.
  - by rewrite lookup_insert_eq.
Qed.

Lemma geo_asn country a r : exists q, Host q = Host r /\ Hdr (forwardGeoHeaders country (Some a) r) !! "X-Forwarded-Asn" = Some [itoa (a q)].
Proof.
  assert (Ha : CanonicalMIMEHeaderKey "X-Forwarded-ASN" = "X-Forwarded-Asn") by (vm_compute; reflexivity).
  unfold forwardGeoHeaders, HeaderSet. rewrite Ha. destruct country as [f|]; simpl;
    (eexists; split; [|by rewrite lookup_insert_eq]; done).
Qed.

(** A separator that does not occur ahead of it. *)
Lemma separator_injective (a : ascii) (h h' s s' : string) :
  mem_char a h = false -> mem_char a h' = false ->
  h +:+ String a s = h' +:+ String a s' -> h = h' /\ s = s'.
Proof.
  revert h'. induction h as [|x h IH]; intros [|x' h'] H1 H2 He; simpl in *.
  - by injection He.
  - injection He as -> _. by rewrite Ascii.eqb_refl in H2.
  - injection He as <- _. by rewrite Ascii.eqb_refl in H1.
  - injection He as -> He. apply orb_false_iff in H1 as [_ H1], H2 as [_ H2]. destruct (IH h') as [-> ->]; done.
Qed.

(** A client of a pinned CA has a root. *)
Section pins.
Context {Cert : Type} `{!EqDecision Cert} `{!TrustOps Cert}.

Lemma append_pins fuel rest (pool : list Cert) ok pool' :
  (ok = true -> pool <> []) -> Trust.Trust.appendCertsLoop fuel rest pool ok = (pool', true) -> pool' <> [].
Proof.
  revert rest pool ok. induction fuel as [|fuel IH]; intros rest pool ok Hok; simpl; [intros [= <- ->]; by apply Hok|].
  destruct (Trust.pem_Decode rest) as [[[ty b] r]|]; [|intros [= <- ->]; by apply Hok].
  destruct (negb _); [by apply IH|]. destruct (Trust.ParseCertificate b) as [x|]; [|by apply IH].
  apply IH. intros _. unfold Trust.Trust.AddCert. case_decide as Hin; [by intros ->; apply elem_of_nil in Hin|].
  by destruct pool.
Qed.

Lemma newClient_pins ep pem (c : Trust.Trust.Client Cert) :
  Trust.Trust.NewClient ep pem = Some c -> exists root roots, Trust.Trust.cl_http c = Trust.Trust.Pinned (root :: roots).
Proof.
  unfold Trust.Trust.NewClient. destruct (Trust.Trust.appendCertsLoop _ _ _ _) as [pool ok] eqn:He.
  destruct ok; [|done]. intros [= <-]. apply append_pins in He; [|done]. destruct pool as [|root roots]; [done|].
  by exists root, roots.
Qed.
End pins.

(** The shape of the core's chain. *)
Section core_shape.
Import Core.
Context {Cert TLS : Type} (c : Config (Cert := Cert) (TLS := TLS)).

Lemma core_guards_in g : g ∈ guards c -> g ∈ [GlobalWAF; GlobalCoraza; GlobalRateLimit].
Proof. unfold guards. destruct (wafEnabled c), (corazaEnabled c), (rateLimitEnabled c); simpl; set_solver. Qed.

Lemma core_observers_in g :
  g ∈ observers c -> g ∈ [HostActive; HostCountryLimit; HostLimit; Logger; State; Requests; Gzip; Zstd].
Proof. unfold observers. destruct (disableLog c); simpl; set_solver. Qed.

Lemma core_not_geo s : s ∈ observers c ++ guards c -> s <> Geo.
Proof. intros [Hin%core_observers_in|Hin%core_guards_in]%elem_of_app ->; set_solver. Qed.

Lemma core_guard_once g g1 g2 : g ∈ guards c -> guards c = g1 ++ g :: g2 -> g ∉ observers c ++ g1.
Proof.
  intros Hg%core_guards_in Hs [Hin%core_observers_in|Hin]%elem_of_app; [set_solver|].
  assert (Hnd : NoDup (guards c)).
  { unfold guards. apply (bool_decide_unpack _). destruct (wafEnabled c), (corazaEnabled c), (rateLimitEnabled c); by vm_compute. }
  rewrite Hs in Hnd. apply NoDup_app in Hnd as (_ & Hnd & _). apply (Hnd g Hin). by left.
Qed.

Lemma core_geo_last :
  Geo ∉ normalizers ++ observers c ++ guards c ++ when (transformEnabled c) [GlobalTransform].
Proof.
  intros [Hin|[Hin%core_observers_in|[Hin%core_guards_in|Hin]%elem_of_app]%elem_of_app]%elem_of_app;
    [unfold normalizers in Hin; set_solver|set_solver|set_solver|].
  destruct (transformEnabled c); simpl in Hin; set_solver.
Qed.

Lemma core_routes_last :
  Controller ∉ normalizers ++ observers c ++ guards c ++ when (transformEnabled c) [GlobalTransform].
Proof.
  intros [Hin|[Hin%core_observers_in|[Hin%core_guards_in|Hin]%elem_of_app]%elem_of_app]%elem_of_app;
    [unfold normalizers in Hin; set_solver|set_solver|set_solver|].
  destruct (transformEnabled c); simpl in Hin; set_solver.
Qed.
End core_shape.

End ProgramsLemmas.

(** ** Properties *)

Module ProgramsProps.
Import ProgramsLemmas.

(** *** The edge proxy *)

Section edge.
Import EdgeProxy.
Context (LookupEnv ReadFile : string -> option string) (Hostname : string).
Context (Parse : string -> option (string * string)) (appends : string -> bool).

Abbreviation env := (Getenv LookupEnv).
Abbreviation start := (startup LookupEnv ReadFile Hostname Parse appends).

Lemma wrap64_range z : (- 2 ^ 63 <= wrap64 z < 2 ^ 63)%Z.
Proof. unfold wrap64. pose proof (Z.mod_pos_bound (z + 2 ^ 63) (2 ^ 64)). lia. Qed.

(** An edge that starts sends its token and receives keys over TLS, unless plaintext was
    asked for; it has a token; with client certificates it forwards over TLS and has been
    given the identity that the interlock joins on; its tickers have a positive period,
    whatever the number of seconds wraps to; and it never has a feature on without the one
    that it rests on. *)
Theorem edge_startup_guards (c : Config) :
  start = Ok c ->
  (exists scheme host, Parse (envOr LookupEnv "EDGE_CP_ENDPOINT" "https://controlplane:8443") = Some (scheme, host) /\
    host <> "" /\ (scheme = "https" \/ envOr LookupEnv "EDGE_CP_ALLOW_PLAINTEXT" "false" = "true")) /\
  CpClient.CpClient.token (cp c) <> "" /\
  (dataplaneMTLS c = true -> upstreamTLS c = true /\ edgeID c = env "EDGE_ID" /\ edgeID c <> "") /\
  (0 < refreshInterval c < 2 ^ 63)%Z /\
  (upstreamWSH2 c = true -> upstreamHTTP2 c = true) /\ (cacheOverrideEnabled c = true -> cacheEnabled c = true).
Proof.
  unfold startup, checkEndpoint. destruct (Parse _) as [[scheme host]|] eqn:HP; [|done].
  destruct (String.eqb_spec host "") as [|Hh]; [done|].
  destruct (negb _ && negb _) eqn:Hs; [done|]. destruct (String.eqb_spec (env "EDGE_CP_TOKEN") "") as [|Ht]; [done|].
  destruct (readCA _ _) as [ca|]; [|done]. cbn [rbind].
  destruct (isTrue _ "EDGE_DATAPLANE_MTLS" "false") eqn:Hm; cbn [andb];
    [destruct (isTrue _ "EDGE_UPSTREAM_TLS" "false") eqn:Hu; [|done]; cbn [negb];
     destruct (String.eqb_spec (env "EDGE_ID") "") as [|Hid]; [done|]|];
    (destruct (CpClient.CpClient.NewCpClient _ _ _ _ _) as [cl|] eqn:Hcl; [|done]);
    unfold CpClient.CpClient.NewCpClient in Hcl; (destruct (negb _) in Hcl; [done|]); (destruct (_ && _) in Hcl; [done|]);
    injection Hcl as <-; intros [= <-]; cbn.
  all: split; [exists scheme, host; split; [done|]; split; [done|];
         apply andb_false_iff in Hs as [Hs|Hs]; apply negb_false_iff, String.eqb_eq in Hs; auto|].
  all: split; [done|]; split; [by auto|].
  all: split; [unfold seconds; destruct (Z.leb_spec (wrap64 (envInt64 LookupEnv "EDGE_REFRESH_INTERVAL" 300 * second)) 0);
         [split; vm_compute; reflexivity|pose proof (wrap64_range (envInt64 LookupEnv "EDGE_REFRESH_INTERVAL" 300 * second)); lia]|].
  all: split; [by intros [_ ?]%andb_true_iff|by intros [_ ?]%andb_true_iff].
Qed.

(** A pinned CA that is empty is no pin: the edge starts, with the system's roots, when the
    file that [EDGE_CP_CA] names has no bytes, and the core, which takes the same kind of file
    for the same channel, does not. *)
Theorem empty_ca_file_fails_open {Cert : Type} `{!EqDecision Cert} `{!TrustOps Cert} `{!TrustLaws Cert} (c : Config) :
  start = Ok c -> env "EDGE_CP_CA" <> "" -> ReadFile (env "EDGE_CP_CA") = Some "" ->
  pin c = None /\ forall ep, Trust.Trust.NewClient (Cert := Cert) ep "" = None.
Proof.
  intros Hs Hp Hf. split.
  - revert Hs. unfold startup, readCA. destruct (checkEndpoint _ _ _); [done|]. destruct (String.eqb _ ""); [done|].
    destruct (String.eqb_spec (env "EDGE_CP_CA") "") as [|_]; [done|]. rewrite Hf. cbn [rbind].
    destruct (_ && _); [done|]. destruct (_ && _); [done|].
    destruct (CpClient.CpClient.NewCpClient _ _ _ _ _); [|done]. by intros [= <-].
  - intros ep. unfold Trust.Trust.NewClient. simpl.
    destruct (Trust.pem_Decode "") as [[[ty b] rest]|] eqn:Hd; [|done].
    apply Trust.pem_shrinks in Hd. simpl in Hd. lia.
Qed.

End edge.

Section edge_shape.
Import EdgeProxy.

(** Change events reach every loop that polls the control plane for a resource: with
    events on, a resource is poked exactly when its loop runs. *)
Theorem events_poke_every_loop (c : Config) (storage : bool) (l : loop) :
  eventsEnabled c = true ->
  l ∈ pokes c storage <-> l ∈ loops c storage /\ l ∉ [EdgeCert; Reaper; Events; MetricsPush].
Proof.
  intros He. unfold pokes, loops. rewrite He.
  assert (Hw : forall b (k : list loop), l ∈ when b k <-> b = true /\ l ∈ k).
  { intros [] k; simpl; [naive_solver|]. rewrite elem_of_nil. naive_solver. }
  rewrite !elem_of_app, !Hw, !not_elem_of_cons, !elem_of_app, !Hw, !elem_of_cons, !elem_of_nil.
  destruct l; naive_solver.
Qed.
Context (c : Config).

Definition ahead : list stage := [WSNormalize; Health; StripPort; ToLower; Requests] ++ when (negb (disableLog c)) [Logger].
Definition behind (geo respCache : bool) : list stage :=
  when geo [Geo] ++ when respCache [CacheEgress; CacheStatus; Cache] ++ [Forward].

Lemma chain_split geo respCache : chain c geo respCache = ahead ++ StripClaim :: guards c ++ behind geo respCache.
Proof. unfold chain, ahead, behind. by rewrite <- !app_assoc. Qed.

Lemma elem_of_when (b : bool) (l : list stage) s : s ∈ when b l -> s ∈ l.
Proof. destruct b; [done|]. by intros ?%elem_of_nil. Qed.

Lemma guards_NoDup : NoDup (guards c).
Proof. unfold guards. apply (bool_decide_unpack _). destruct (wafEnabled c), (corazaEnabled c), (ratelimitEnabled c); by vm_compute. Qed.

Lemma guards_in g : g ∈ guards c -> g ∈ [WAFGlobal; WAFZone; Stamp; CorazaGlobal; CorazaZone; RateGlobal; RateZone].
Proof. unfold guards. destruct (wafEnabled c), (corazaEnabled c), (ratelimitEnabled c); simpl; set_solver. Qed.

Lemma ahead_in s : s ∈ ahead -> s ∈ [WSNormalize; Health; StripPort; ToLower; Requests; Logger].
Proof. unfold ahead. destruct (disableLog c); simpl; set_solver. Qed.

End edge_shape.

Section chain_edge.
Import EdgeProxy.

Context {I M A : Type} (ext : stage -> Request -> verdict A) (ewaf : EdgeRules.EdgeRules.Edge I M).
Context (countryDB : option (Request -> string)) (asnDB : option (Request -> Z)) (c : Config).

(** The headers that only the stages of this program write on the way in. *)
Definition guarded : list string := [EdgeRules.EdgeRules.claimHeader; "X-Forwarded-Country"; "X-Forwarded-Asn"].
Context (ext_keeps : forall s q q' k, ext s q = Pass q' -> k ∈ guarded -> Hdr q' !! k = Hdr q !! k).

Abbreviation acts := (act ext ewaf countryDB asnDB c).

Definition writers (k : string) : list stage := if String.eqb k EdgeRules.EdgeRules.claimHeader then [StripClaim; Stamp] else [Geo].

Lemma acts_keep k s q q' :
  k ∈ guarded -> s ∉ writers k -> acts s q = Pass q' -> Hdr q' !! k = Hdr q !! k.
Proof using ext_keeps.
  intros Hk Hw Ha.
  assert (Hc : CanonicalMIMEHeaderKey EdgeRules.EdgeRules.claimHeader = EdgeRules.EdgeRules.claimHeader) by (vm_compute; reflexivity).
  assert (Hcases : k = EdgeRules.EdgeRules.claimHeader \/ (k <> EdgeRules.EdgeRules.claimHeader /\ writers k = [Geo])).
  { unfold writers. destruct (String.eqb_spec k EdgeRules.EdgeRules.claimHeader); auto. }
  destruct s; simpl in Ha; try (by apply (ext_keeps _ _ _ _ Ha)).
  - injection Ha as <-. destruct Hcases as [->|[Hne _]]; [by destruct Hw; left|].
    simpl. unfold EdgeRules.EdgeRules.StripWAFClaim, HeaderDel. rewrite Hc. by rewrite lookup_delete_ne.
  - injection Ha as <-. destruct Hcases as [->|[Hne _]]; [by destruct Hw; right; left|].
    simpl. unfold EdgeRules.EdgeRules.ClaimStamp, HeaderSet, HeaderDel. rewrite Hc.
    destruct (_ >? 0)%Z; [by rewrite lookup_insert_ne|by rewrite lookup_delete_ne].
  - injection Ha as <-. destruct Hcases as [->|[_ Hwk]]; [|rewrite Hwk in Hw; by destruct Hw; left].
    by apply geo_other.
Qed.

Lemma segment_keeps k l q q' :
  k ∈ guarded -> (forall s, s ∈ l -> s ∉ writers k) -> through acts l q = Some q' -> Hdr q' !! k = Hdr q !! k.
Proof using ext_keeps.
  intros Hk Hl. apply (through_keeps acts (fun q => Hdr q !! k)). intros s q1 q2 Hs. apply acts_keep; [done|by apply Hl].
Qed.

(** The rulesets and limits that are on, by the flag that turns each on. *)
Inductive mustPass : stage -> Prop :=
| must_waf_global : wafEnabled c = true -> mustPass WAFGlobal
| must_waf_zone : wafEnabled c = true -> mustPass WAFZone
| must_coraza_global : corazaEnabled c = true -> mustPass CorazaGlobal
| must_coraza_zone : corazaEnabled c = true -> mustPass CorazaZone
| must_rate_global : ratelimitEnabled c = true -> mustPass RateGlobal
| must_rate_zone : ratelimitEnabled c = true -> mustPass RateZone.

Lemma mustPass_guards g : mustPass g -> g ∈ guards c.
Proof.
  unfold guards. rewrite !elem_of_app. intros [E|E|E|E|E|E]; rewrite E; simpl.
  - left. apply (bool_decide_unpack _). by vm_compute.
  - left. apply (bool_decide_unpack _). by vm_compute.
  - right; left. apply (bool_decide_unpack _). by vm_compute.
  - right; left. apply (bool_decide_unpack _). by vm_compute.
  - right; right. apply (bool_decide_unpack _). by vm_compute.
  - right; right. apply (bool_decide_unpack _). by vm_compute.
Qed.

(** The claim behind the guards, for a request that comes to them without one. *)
Lemma claim_behind t geo rc q r' :
  t ∈ [Cache; Forward] -> Hdr q !! EdgeRules.EdgeRules.claimHeader = None ->
  reach acts t (guards c ++ behind geo rc) q = Some r' ->
  Hdr r' !! EdgeRules.EdgeRules.claimHeader =
    (if wafEnabled c && (EdgeRules.EdgeRules.e_generation ewaf >? 0)%Z
     then Some [itoa (EdgeRules.EdgeRules.e_generation ewaf)] else None).
Proof using ext_keeps.
  intros Ht Hq. unfold guards. rewrite <- app_assoc.
  rewrite reach_app by (intros Hin%elem_of_when; set_solver).
  destruct (through acts (when (wafEnabled c) _) q) as [q1|] eqn:Hw; [|done]. simpl. intros Hr.
  pose proof (fun Hk => reach_keeps acts (fun q => Hdr q !! EdgeRules.EdgeRules.claimHeader) _ _ _ _ Hk Hr) as Hkeep.
  cbv beta in Hkeep. rewrite Hkeep; clear Hkeep.
  2:{ intros s q' q'' Hs _. apply acts_keep; [by left|]. intros Hwr.
      assert (s ∈ [CorazaGlobal; CorazaZone; RateGlobal; RateZone; Geo; CacheEgress; CacheStatus; Cache; Forward]) as Hin.
      { revert Hs. unfold behind. destruct (corazaEnabled c), (ratelimitEnabled c), geo, rc; simpl; clear; set_solver. }
      clear Hs. unfold writers in Hwr. rewrite String.eqb_refl in Hwr. set_solver. }
  assert (Hc : CanonicalMIMEHeaderKey EdgeRules.EdgeRules.claimHeader = EdgeRules.EdgeRules.claimHeader) by (vm_compute; reflexivity).
  destruct (wafEnabled c); simpl in Hw |- *; [|by injection Hw as <-].
  destruct (ext WAFGlobal q) as [q2|] eqn:H1; [|done]. destruct (ext WAFZone q2) as [q3|] eqn:H2; [|done].
  injection Hw as <-. simpl. unfold EdgeRules.EdgeRules.ClaimStamp, HeaderSet, HeaderDel. rewrite Hc.
  destruct (_ >? 0)%Z; [by rewrite lookup_insert_eq|by rewrite lookup_delete_eq].
Qed.

(** C18: what the cache or the core behind it gets has been vetted.  With the firewall on it
    passed the global and the zone ruleset, with Coraza on the global and the zone
    directives, and with rate limits on the global and the zone limits: each of them got
    the request and let it pass.  It carries a claim of validation exactly when the firewall is on and
    has a ruleset from the control plane, and then the claim of this edge, whatever the
    client sent; and its country is the one this edge resolved. *)
Theorem edge_requests_are_vetted (respCache : bool) (t : stage) (r r' : Request) :
  t ∈ [Cache; Forward] -> gets ext ewaf countryDB asnDB c respCache t r = Some r' ->
  (forall g, mustPass g -> exists q q', gets ext ewaf countryDB asnDB c respCache g r = Some q /\ ext g q = Pass q') /\
  Hdr r' !! EdgeRules.EdgeRules.claimHeader =
    (if wafEnabled c && (EdgeRules.EdgeRules.e_generation ewaf >? 0)%Z
     then Some [itoa (EdgeRules.EdgeRules.e_generation ewaf)] else None) /\
  (forall f, country countryDB c = Some f -> exists q, gets ext ewaf countryDB asnDB c respCache Geo r = Some q /\
    Hdr r' !! "X-Forwarded-Country" = Some [f q]).
Proof using ext_keeps.
  intros Ht. unfold gets. rewrite chain_split. set (geo := bool_decide _). intros Hr.
  assert (Hta : t ∉ ahead c) by (intros Hin%(ahead_in c); set_solver).
  assert (Htg : t ∉ guards c) by (intros Hin%(guards_in c); set_solver).
  split; [|split].
  - intros g Hm. pose proof (mustPass_guards g Hm) as Hg. pose proof (guards_in c g Hg) as Hgi.
    assert (Hact : forall q, acts g q = ext g q) by (by destruct Hm). setoid_rewrite <- Hact. clear Hact. pose proof (guards_NoDup c) as Hnd.
    apply list_elem_of_split in Hg as (g1 & g2 & Hgs). rewrite Hgs in Hnd, Htg.
    apply NoDup_app in Hnd as (_ & Hnd & _). rewrite Hgs in Hr |- *.
    assert (Hsp : ahead c ++ StripClaim :: (g1 ++ g :: g2) ++ behind geo respCache =
                  (ahead c ++ StripClaim :: g1) ++ g :: g2 ++ behind geo respCache) by (simpl; by rewrite <- !app_assoc).
    rewrite Hsp in Hr |- *. apply reach_passed in Hr; [done|..].
    + intros [Hin%(ahead_in c)|[->|Hin]%elem_of_cons]%elem_of_app; [clear -Hgi Hin; set_solver|clear -Hgi; set_solver|].
      apply (Hnd g Hin). by left.
    + intros [Hin|[->|Hin]%elem_of_cons]%elem_of_app; [done|clear -Ht; set_solver|].
      apply Htg, elem_of_app. by left.
    + intros ->. apply Htg, elem_of_app. right. by left.
  - rewrite reach_app in Hr by done. destruct (through acts (ahead c) r) as [q|]; [|done]. simpl in Hr.
    rewrite decide_False in Hr by (intros <-; set_solver).
    apply claim_behind in Hr; [done|done|]. simpl.
    unfold EdgeRules.EdgeRules.StripWAFClaim, HeaderDel.
    assert (Hc : CanonicalMIMEHeaderKey EdgeRules.EdgeRules.claimHeader = EdgeRules.EdgeRules.claimHeader) by (vm_compute; reflexivity).
    rewrite Hc. apply lookup_delete_eq.
  - intros f Hf. assert (Hg : geo = true) by (unfold geo; rewrite Hf; apply bool_decide_true; left; by eexists).
    unfold behind in Hr |- *. rewrite Hg in Hr |- *.
    assert (Hsp : forall l, ahead c ++ StripClaim :: guards c ++ when true [Geo] ++ l = (ahead c ++ StripClaim :: guards c) ++ Geo :: l)
      by (intros l; by rewrite <- app_assoc).
    rewrite Hsp in Hr |- *.
    rewrite reach_app in Hr by (intros [?|[->|?]%elem_of_cons]%elem_of_app; set_solver).
    rewrite reach_app by (intros [Hin%(ahead_in c)|[?|Hin%(guards_in c)]%elem_of_cons]%elem_of_app; set_solver).
    destruct (through acts _ r) as [q|]; [|done]. exists q. split; [apply reach_here|].
    simpl in Hr. rewrite decide_False in Hr by (intros <-; set_solver).
    pose proof (fun Hk => reach_keeps acts (fun q => Hdr q !! "X-Forwarded-Country") _ _ _ _ Hk Hr) as Hkeep.
    cbv beta in Hkeep. rewrite Hkeep; [rewrite Hf; apply geo_country|]. clear Hkeep.
    intros s q1 q2 Hs _. apply acts_keep; [by right; left|].
    assert (Hw : writers "X-Forwarded-Country" = [Geo]) by (by vm_compute). rewrite Hw.
    destruct respCache; simpl in Hs; clear -Hs; set_solver.
Qed.

End chain_edge.

(** *** The control plane *)

Section control_plane.
Import ControlPlane.
Context {Cert Pub Key : Type} `{!PKIOps Cert Pub Key} `{!EtagOps}.
Context (Getenv : string -> string) (ReadFile : string -> option string) (ModTime : string -> option Z).
Context (loadTokens : string -> string -> option (gmap string Authz.Entry)).
Context (ord : gmap string Authz.Entry -> list (string * Authz.Entry)) (k8sInit : bool).

Abbreviation start := (startup Getenv ReadFile ModTime loadTokens ord k8sInit).

Lemma providedGeneration_pos p : (0 < providedGeneration Getenv ModTime p)%Z.
Proof.
  unfold providedGeneration.
  assert (Hm : (0 < match ModTime p with Some mt => if (0 <? mt)%Z then mt else 1%Z | None => 1%Z end)%Z).
  { destruct (ModTime p) as [mt|]; [|lia]. destruct (Z.ltb_spec 0 mt); lia. }
  destruct (String.eqb _ ""); [done|]. destruct (EdgeServer.ParseUint _) as [n []]; [|done].
  destruct (Z.ltb_spec 0 n); [done|exact Hm].
Qed.

Lemma issuance_provided ttl skew s g : issuanceOf Getenv ReadFile ModTime ttl skew = Ok (Provided s g) -> (0 < g)%Z.
Proof.
  unfold issuanceOf. destruct (negb (Bool.eqb _ _)); [done|]. destruct (negb (String.eqb _ "")).
  - destruct (ReadFile _) as [crt|]; [|done]. destruct (ReadFile _) as [key|]; [|done].
    destruct (Signer.Signer.NewProvidedSigner _ _ _ _) as [[s' ws]|]; [|done].
    intros [= _ <-]. apply providedGeneration_pos.
  - destruct (negb _); [|done]. by destruct (String.eqb _ "").
Qed.

(** A control plane never serves with an open door: it has tokens, no two of them with one
    edge identity; it has both halves of a key pair or neither; a mounted CA is published
    with a positive generation, so that a core takes its first bundle; purges are issued
    only with an admin token; and a job that was asked for never serves. *)
Theorem control_plane_never_serves_open (procs : Z) (c : Config) :
  start procs = Ok (Serve c) ->
  tokens c <> ∅ /\ Revoke.Revoke.duplicateEdgeID (ord (tokens c)) = "" /\
  match certKey c with
  | Some (crt, key) => crt <> "" /\ key <> ""
  | None => Getenv "CP_TLS_CERT" = "" /\ Getenv "CP_TLS_KEY" = ""
  end /\
  (forall s g, issues c = Provided s g -> (0 < g)%Z) /\ purgeAdmin c <> Some "" /\
  Forall (fun k => Getenv k <> "true") ["EDGE_CONVERGE_STATUS"; "EDGE_CA_REVOKE"; "EDGE_CA_BOOTSTRAP"; "EDGE_CA_ROTATE"].
Proof.
  unfold startup, isTrue, job.
  destruct (String.eqb_spec (Getenv "EDGE_CONVERGE_STATUS") "true") as [|H1]; [done|].
  destruct (String.eqb_spec (Getenv "EDGE_CA_REVOKE") "true") as [|H2]; [done|].
  destruct (String.eqb_spec (Getenv "EDGE_CA_BOOTSTRAP") "true") as [|H3];
    [destruct (String.eqb _ ""); [done|by destruct (negb k8sInit)]|].
  destruct (String.eqb_spec (Getenv "EDGE_CA_ROTATE") "true") as [|H4];
    [destruct (String.eqb _ ""); [done|by destruct (negb k8sInit)]|].
  unfold serving. destruct (tlsOf Getenv) as [ck|] eqn:Htls; [|done]. cbn [rbind].
  destruct (registry _ _ _ _) as [toks|] eqn:Hreg; [|done]. cbn [rbind].
  destruct (issuanceOf _ _ _ _ _) as [iss|] eqn:Hiss; [|done]. cbn [rbind].
  destruct (purgeOf Getenv) as [adm|] eqn:Hadm; [|done]. cbn [rbind]. intros [= <-]. cbn.
  unfold registry in Hreg. destruct (loadTokens _ _) as [m|]; [|done].
  destruct (bool_decide_reflect (m = ∅)) as [|Hm]; [done|].
  destruct (String.eqb_spec (Revoke.Revoke.duplicateEdgeID (ord m)) "") as [Hd|]; [|done]. cbn [negb] in Hreg.
  destruct (negb k8sInit); [done|]. injection Hreg as <-. split; [done|]. split; [done|]. split.
  { unfold tlsOf in Htls. destruct (String.eqb_spec (Getenv "CP_TLS_CERT") ""), (String.eqb_spec (Getenv "CP_TLS_KEY") "");
      try done; by injection Htls as <-. }
  split; [intros s g ->; by apply issuance_provided in Hiss|]. split; [|by repeat constructor].
  unfold purgeOf in Hadm. destruct (negb _); [by injection Hadm as <-|].
  destruct (String.eqb_spec (Getenv "CP_PURGE_ADMIN_TOKEN") "") as [|Hne]; [done|].
  injection Hadm as <-. congruence.
Qed.

(** The listener of the control plane's metrics cannot be turned off: an empty
    [CP_METRICS_LISTEN] is taken for one that is not set. *)
Theorem metrics_listener_stays_on (procs : Z) (c : Config) :
  start procs = Ok (Serve c) ->
  metricsServed c = true /\ (Getenv "CP_METRICS_LISTEN" = "" -> metricsListen c = ":9187").
Proof.
  unfold startup, job.
  destruct (isTrue _ _); [done|]. destruct (isTrue _ _); [done|].
  destruct (isTrue _ _); [destruct (String.eqb _ ""); [done|by destruct (negb k8sInit)]|].
  destruct (isTrue _ _); [destruct (String.eqb _ ""); [done|by destruct (negb k8sInit)]|].
  unfold serving. destruct (tlsOf Getenv) as [ck|]; [|done]. cbn [rbind].
  destruct (registry _ _ _ _) as [toks|]; [|done]. cbn [rbind].
  destruct (issuanceOf _ _ _ _ _) as [iss|]; [|done]. cbn [rbind].
  destruct (purgeOf Getenv) as [adm|]; [|done]. cbn [rbind]. intros [= <-].
  unfold metricsServed. cbn [metricsListen]. unfold Revoke.Revoke.envOr.
  destruct (String.eqb_spec (Getenv "CP_METRICS_LISTEN") "") as [He|Hne]; [by split|].
  split; [by apply negb_true_iff, String.eqb_neq|done].
Qed.
End control_plane.

(** *** The core *)

Section core.
Import Core.

(** The core never checks the control plane less strictly than it was told to: a pinned CA
    is used, with at least one root, or the core does not start, and plaintext is only ever
    what the endpoint says. *)
Theorem core_pin_is_never_downgraded {Cert : Type} `{!EqDecision Cert} `{!TrustOps Cert}
    (String_ : string -> string) (ReadFile : string -> option string) (cl : Trust.Trust.Client Cert) :
  trustClient String_ ReadFile = Ok (Some cl) ->
  let ep := String_ "EDGE_TRUST_CP_ENDPOINT" in
  let ca := String_ "EDGE_TRUST_CP_CA" in
  (Trust.Trust.cl_http cl = Trust.Trust.Plaintext <-> has_prefix ep "https://" = false) /\
  (has_prefix ep "https://" = true -> ca <> "" ->
    exists pem root roots, ReadFile ca = Some pem /\ Trust.Trust.NewClient ep pem = Some cl /\
      Trust.Trust.cl_http cl = Trust.Trust.Pinned (root :: roots)).
Proof.
  intros Hc ep ca. revert Hc. unfold trustClient. fold ep ca. destruct (String.eqb ep ""); [done|].
  unfold Trust.Trust.ClassifyEndpoint. destruct (has_prefix ep "https://").
  - destruct (String.eqb_spec ca "") as [Hca|Hca]; [by intros [= <-]|].
    destruct (ReadFile ca) as [pem|]; [|done]. destruct (Trust.Trust.NewClient ep pem) as [c|] eqn:Hn; [|done].
    intros [= <-]. apply newClient_pins in Hn as Hp. destruct Hp as (root & roots & Hp). rewrite Hp.
    split; [done|]. intros _ _. by exists pem, root, roots.
  - destruct (has_prefix ep "http://"); [|done]. intros [= <-]. by split.
Qed.

(** Two requests share the slots of the country limiter only when they are for the same host
    and come with the same country. *)
Theorem country_slots_are_separate (headers : list string) (r r' : Request) :
  mem_char "|" (Host r) = false -> mem_char "|" (Host r') = false ->
  countryKey headers r = countryKey headers r' <->
  Host r = Host r' /\ countryOf headers (Hdr r) = countryOf headers (Hdr r').
Proof.
  intros H1 H2. unfold countryKey. split; [by apply separator_injective|]. by intros [-> ->].
Qed.

(** The firewall is skipped as a whole or not at all.  With a predicate that asks for the claim
    and for something of the peer, a request that the global rules were skipped for comes
    to its zone as it is, to be skipped there too; any other one is judged without a
    claim, and carries none to the rules of its zone, which are not skipped. *)
Theorem waf_skip_is_all_or_nothing {A : Type} (firewall : Request -> option A) (peer : Request -> bool) (r r' : Request) :
  (forall h q, peer (withHdr h q) = peer q) ->
  let skip := fun q => negb (String.eqb (HeaderGet EdgeRules.EdgeRules.claimHeader (Hdr q)) "") && peer q in
  globalWAF firewall (Some skip) r = Pass r' ->
  skip r' = skip r /\
  if skip r then r' = r
  else r' = withHdr (HeaderDel EdgeRules.EdgeRules.claimHeader (Hdr r)) r /\ firewall r' = None.
Proof.
  intros Hp skip Hg. unfold globalWAF in Hg. destruct (skip r) eqn:Hs; [by injection Hg as <-|].
  destruct (firewall _) as [|] eqn:Hf; [done|]. injection Hg as <-. split; [|by split].
  unfold skip. simpl.
  assert (Hc : HeaderGet EdgeRules.EdgeRules.claimHeader (HeaderDel EdgeRules.EdgeRules.claimHeader (Hdr r)) = "").
  { unfold HeaderGet, HeaderDel. by rewrite lookup_delete_eq. }
  by rewrite Hc.
Qed.

Section serving.
Context {Cert TLS A : Type} (ext : stage -> Request -> verdict A).
Context (countryDB : option (Request -> string)) (asnDB : option (Request -> Z)) (c : Config (Cert := Cert) (TLS := TLS)).
(** Limiters, logs, metrics, firewalls and compression do not change a request. *)
Context (ext_pure : forall s q q', s ∈ observers c ++ guards c -> ext s q = Pass q' -> q' = q).

Lemma pure_segment l q q' :
  (forall s, s ∈ l -> s ∈ observers c ++ guards c) -> through (act ext countryDB asnDB c) l q = Some q' -> q' = q.
Proof using ext_pure.
  intros Hl. apply (through_keeps _ id). intros s q1 q2 Hs Ha. apply (ext_pure s); [by apply Hl|].
  pose proof (core_not_geo c s (Hl s Hs)) as Hg. by destruct s.
Qed.

(** The core's firewalls and limits judge what the client sent: every one of them gets the
    request as the normalizers left it, whatever transforms there are, and what is routed
    carries the country that this core resolved, whatever the client or a transform set. *)
Theorem core_judges_before_it_transforms (g : stage) (r q r' : Request) :
  g ∈ guards c -> gets ext countryDB asnDB c g r = Some q -> gets ext countryDB asnDB c Controller r = Some r' ->
  through (act ext countryDB asnDB c) normalizers r = Some q /\
  (forall f, country countryDB c = Some f ->
    exists t, gets ext countryDB asnDB c Geo r = Some t /\ Hdr r' !! "X-Forwarded-Country" = Some [f t]).
Proof using ext_pure.
  intros Hg Hq Hr. split.
  - pose proof (core_guards_in c g Hg) as Hgi. unfold gets, chain in Hq.
    rewrite reach_app in Hq by (unfold normalizers; clear -Hgi; set_solver).
    destruct (through _ normalizers r) as [r1|]; [|done]. unfold mbind, option_bind in Hq. f_equal.
    pose proof Hg as Hg0. apply list_elem_of_split in Hg as (g1 & g2 & Hs).
    assert (Hn : g ∉ observers c ++ g1) by (apply core_guard_once with g2; [done|exact Hs]).
    rewrite Hs in Hq. replace (observers c ++ (g1 ++ g :: g2) ++ _) with ((observers c ++ g1) ++ g :: g2 ++
      (when (transformEnabled c) [GlobalTransform] ++
       when (bool_decide (is_Some (country countryDB c) \/ is_Some (asn asnDB c))) [Geo] ++ [Controller])) in Hq
      by (by rewrite <- !app_assoc).
    rewrite reach_app in Hq by done. destruct (through _ (observers c ++ g1) r1) as [q1|] eqn:Ht; [|done].
    simpl in Hq. rewrite decide_True in Hq by done. injection Hq as <-. symmetry. apply (pure_segment _ _ _) with (2 := Ht).
    intros s [Hin|Hin]%elem_of_app; apply elem_of_app; [by left|]. right. rewrite Hs. apply elem_of_app. by left.
  - intros f Hf. unfold gets, chain in *. rewrite Hf in *. rewrite bool_decide_true in * by (left; by eexists).
    assert (Hsp : forall l, normalizers ++ observers c ++ guards c ++ when (transformEnabled c) [GlobalTransform] ++
      when true [Geo] ++ l = (normalizers ++ observers c ++ guards c ++ when (transformEnabled c) [GlobalTransform]) ++ Geo :: l)
      by (intros l; by rewrite <- !app_assoc).
    rewrite Hsp in *. rewrite reach_app by apply core_geo_last. rewrite reach_app in Hr by apply core_routes_last.
    destruct (through _ _ r) as [t|]; [|done]. exists t. split; [apply reach_here|].
    simpl in Hr. injection Hr as <-. rewrite Hf. apply geo_country.
Qed.
End serving.
End core.

(** *** Witnesses *)

Section demo.
Import EdgeProxy.

(** An edge with its features on, whose CA file is empty. *)
Definition demoEnv (key : string) : option string :=
  list_to_map (M := gmap string string)
    [("EDGE_CP_TOKEN", "s3cret"); ("EDGE_CP_CA", "/ca.pem"); ("EDGE_UPSTREAM_TLS", "true"); ("EDGE_DATAPLANE_MTLS", "true");
     ("EDGE_ID", "edge-1"); ("EDGE_REFRESH_INTERVAL", "9223372037"); ("EDGE_WAF_ENABLED", "true");
     ("EDGE_RATELIMIT_ENABLED", "true"); ("EDGE_CACHE_ENABLED", "true"); ("EDGE_DOMAINS", " a.example ,,b.example")] !! key.
Definition demoFiles (path : string) : option string := if String.eqb path "/ca.pem" then Some "" else None.
Definition demoParse (u : string) : option (string * string) :=
  if has_prefix u "https://" then Some ("https", str_drop 8 u) else None.

Definition demo : Config :=
  mkConfig "0.0.0.0:443" "0.0.0.0:80" ":9187" (CpClient.CpClient.mkClient "https://controlplane:8443" "s3cret") None
    "parapet:80" true true "" true (mkTuning 0 0) true "edge-1" 300000000000 true false true true false true true 0 false
    30000000000 ["a.example"; "b.example"].

Lemma demo_starts : startup demoEnv demoFiles "host" demoParse (fun _ => false) = Ok demo.
Proof. vm_compute. reflexivity. Qed.
End demo.

#[local] Existing Instances Trust.TrustModel.stringTrust Trust.TrustModel.stringTrustLaws EdgeProxy.loop_eq_dec EdgeProxy.stage_eq_dec
  Core.stage_eq_dec.

Lemma edge_startup_guards_witness :
  EdgeProxy.refreshInterval demo = 300000000000%Z /\ EdgeProxy.upstreamTLS demo = true /\ EdgeProxy.edgeID demo <> "".
Proof.
  destruct (edge_startup_guards demoEnv demoFiles "host" demoParse (fun _ => false) demo demo_starts)
    as (_ & _ & H & _). destruct (H eq_refl) as (H1 & _ & H2). split; [reflexivity|]. split; [exact H1|exact H2].
Defined.

Lemma empty_ca_file_fails_open_witness :
  EdgeProxy.pin demo = None /\ forall ep, Trust.Trust.NewClient (Cert := string) ep "" = None.
Proof.
  apply (empty_ca_file_fails_open demoEnv demoFiles "host" demoParse (fun _ => false) demo demo_starts).
  - vm_compute. discriminate.
  - vm_compute. reflexivity.
Defined.

Lemma events_poke_every_loop_witness : EdgeProxy.Purges ∈ EdgeProxy.pokes demo true /\ EdgeProxy.Coraza ∉ EdgeProxy.pokes demo true.
Proof.
  split.
  - apply (events_poke_every_loop demo true EdgeProxy.Purges eq_refl). split; apply (bool_decide_unpack _); vm_compute; reflexivity.
  - intros H. apply (events_poke_every_loop demo true EdgeProxy.Coraza eq_refl) in H as [H _].
    revert H. apply (bool_decide_unpack (EdgeProxy.Coraza ∉ EdgeProxy.loops demo true)). vm_compute. reflexivity.
Defined.

Lemma edge_requests_are_vetted_witness :
  let ext := fun (_ : EdgeProxy.stage) (r : Request) => Pass (A := unit) r in
  let ewaf := EdgeRules.EdgeRules.mkEdge tt ∅ tt 7 "" in
  let r := mkReq "a.example" "GET" (HeaderSet "X-Forwarded-Country" "ZZ" (HeaderSet EdgeRules.EdgeRules.claimHeader "spoofed" ∅)) in
  exists r', EdgeProxy.gets ext ewaf (Some (fun _ => "TH")) None demo true EdgeProxy.Cache r = Some r' /\
    (exists q q', EdgeProxy.gets ext ewaf (Some (fun _ => "TH")) None demo true EdgeProxy.RateZone r = Some q /\
                  ext EdgeProxy.RateZone q = Pass q') /\
    Hdr r' !! EdgeRules.EdgeRules.claimHeader = Some ["7"] /\ Hdr r' !! "X-Forwarded-Country" = Some ["TH"].
Proof.
  intros ext ewaf r. eexists. split; [vm_compute; reflexivity|].
  destruct (edge_requests_are_vetted ext ewaf (Some (fun _ => "TH")) None demo
    ltac:(intros s q q' k [= <-] _; reflexivity) true EdgeProxy.Cache r _
    ltac:(apply (bool_decide_unpack _); vm_compute; reflexivity) ltac:(vm_compute; reflexivity)) as (H0 & H1 & H2).
  split; [apply H0; by constructor|]. split; [exact H1|]. destruct (H2 _ eq_refl) as (q & _ & H3). exact H3.
Defined.

Lemma country_slots_are_separate_witness :
  Core.countryKey ["Cf-Ipcountry"] (mkReq "a.example" "GET" (HeaderSet "CF-IPCountry" "TH" ∅)) <>
  Core.countryKey ["Cf-Ipcountry"] (mkReq "a.example" "GET" ∅).
Proof.
  intros H. apply (country_slots_are_separate ["Cf-Ipcountry"] (mkReq "a.example" "GET" (HeaderSet "CF-IPCountry" "TH" ∅))
    (mkReq "a.example" "GET" ∅) eq_refl eq_refl) in H as [_ H].
  revert H. vm_compute. discriminate.
Defined.

#[local] Existing Instance SignerProps.toyPKI.
#[local] Existing Instance EdgeStoresProps.toyEtag.

(** A control plane without TLS, with one token, and its metrics turned off. *)
Definition demoCP (key : string) : string :=
  default "" (list_to_map (M := gmap string string)
    [("CP_TOKENS", "x"); ("CP_METRICS_LISTEN", ""); ("CP_PURGE_ENABLED", "true"); ("CP_PURGE_ADMIN_TOKEN", "a")] !! key).
Definition demoTokens (inline file : string) : option (gmap string Authz.Entry) := Some {["t1" := Authz.mkEntry "edge-1" [] false]}.
Definition demoServes : ControlPlane.Config (Cert := string) (Key := ascii) :=
  ControlPlane.mkConfig ":8443" ":9187" None {["t1" := Authz.mkEntry "edge-1" [] false]} 4 1024 ControlPlane.NoIssuance
    [ControlPlane.Hosts] (Some "a") true.

Lemma demo_serves :
  ControlPlane.startup demoCP (fun _ => None) (fun _ => None) demoTokens map_to_list true 4 = Ok (ControlPlane.Serve demoServes).
Proof. vm_compute. reflexivity. Qed.

Lemma control_plane_never_serves_open_witness :
  ControlPlane.tokens demoServes <> ∅ /\ demoCP "CP_TLS_CERT" = "" /\ ControlPlane.purgeAdmin demoServes <> Some "".
Proof.
  destruct (control_plane_never_serves_open demoCP (fun _ => None) (fun _ => None) demoTokens map_to_list true 4
    demoServes demo_serves) as (H1 & _ & [H3 _] & _ & H5 & _).
  split; [exact H1|]. split; [exact H3|exact H5].
Defined.

Lemma metrics_listener_stays_on_witness : ControlPlane.metricsListen demoServes = ":9187".
Proof.
  apply (metrics_listener_stays_on demoCP (fun _ => None) (fun _ => None) demoTokens map_to_list true 4
    demoServes demo_serves). vm_compute. reflexivity.
Defined.

Lemma core_pin_is_never_downgraded_witness :
  let conf := fun k => if String.eqb k "EDGE_TRUST_CP_ENDPOINT" then "https://cp" else "/ca" in
  let cl := Trust.Trust.mkClient (Trust.Trust.Pinned ["x"]) "https://cp" in
  exists pem root roots, (fun _ : string => Some "Cx") "/ca" = Some pem /\ Trust.Trust.NewClient "https://cp" pem = Some cl /\
    Trust.Trust.cl_http cl = Trust.Trust.Pinned (root :: roots).
Proof.
  intros conf cl.
  assert (Hc : Core.trustClient conf (fun _ => Some "Cx") = Ok (Some cl)) by (vm_compute; reflexivity).
  apply (core_pin_is_never_downgraded conf (fun _ => Some "Cx") cl Hc).
  - vm_compute. reflexivity.
  - discriminate.
Defined.

Lemma waf_skip_is_all_or_nothing_witness :
  let peer := fun q => String.eqb (Host q) "a.example" in
  let skip := fun q => negb (String.eqb (HeaderGet EdgeRules.EdgeRules.claimHeader (Hdr q)) "") && peer q in
  let r := mkReq "b.example" "GET" (HeaderSet EdgeRules.EdgeRules.claimHeader "spoofed" ∅) in
  skip r = false /\ exists r', Core.globalWAF (fun _ => @None unit) (Some skip) r = Pass r' /\ skip r' = false.
Proof.
  intros peer skip r. split; [vm_compute; reflexivity|].
  exists (withHdr (HeaderDel EdgeRules.EdgeRules.claimHeader (Hdr r)) r). split; [reflexivity|].
  exact (proj1 (waf_skip_is_all_or_nothing (fun _ => @None unit) peer r _ (fun _ _ => eq_refl) eq_refl)).
Defined.

Section demo_core.
Import Core.
Definition demoCore : Config (Cert := unit) (TLS := unit) := mkConfig None 0 0 None true true true true false.
End demo_core.

Lemma core_judges_before_it_transforms_witness :
  let ext := fun (s : Core.stage) (r : Request) =>
    match s with Core.GlobalTransform => Pass (A := unit) (withHdr (HeaderSet "X-Forwarded-Country" "ZZ" (Hdr r)) r) | _ => Pass r end in
  let r := mkReq "a.example" "GET" ∅ in
  exists r', Core.gets ext (Some (fun _ => "TH")) None demoCore Core.Controller r = Some r' /\
    Hdr r' !! "X-Forwarded-Country" = Some ["TH"].
Proof.
  intros ext r. eexists. split; [vm_compute; reflexivity|].
  destruct (core_judges_before_it_transforms ext (Some (fun _ => "TH")) None demoCore
    ltac:(intros s q q' Hs H; destruct s; try (by injection H as <-);
          exfalso; revert Hs; apply (bool_decide_unpack (Core.GlobalTransform ∉ _)); vm_compute; reflexivity)
    Core.GlobalWAF r r _ ltac:(apply (bool_decide_unpack _); vm_compute; reflexivity)
    ltac:(vm_compute; reflexivity) ltac:(vm_compute; reflexivity)) as (_ & H).
  destruct (H _ eq_refl) as (q & _ & H3). exact H3.
Defined.

End ProgramsProps.
