(* ===== verification/FsClient.v ===== *)
(** * The file-system backend of the Kubernetes client

    Models [src/k8s/fs.go]: the objects that a directory of manifests holds, and the reads
    and writes of secrets.  YAML and JSON are arguments: how a text splits into documents,
    what its type is, what a list contains, and the object of a kind that it decodes to.
    Documents and items are shorter than the text that they come from, so that the length
    of a text is fuel enough for what it nests. *)

From S2P Require Import Prelude GoString.

Set Default Proof Using "Type".

Module FsClient.

Inductive kind := Ingress | Service | EndpointSlice | Endpoints | Secret | ConfigMap.

#[export] Instance kind_eq_dec : EqDecision kind.
Proof. solve_decision. Defined.

Record Object (B : Type) := mkObject { Namespace : string; Name : string; body : B }.
Arguments mkObject {B}.
Arguments Namespace {B}.
Arguments Name {B}.
Arguments body {B}.

(** The lists of [fsClient], by kind. *)
Definition client (B : Type) : Type := kind -> list (Object B).
Definition reset {B} : client B := fun _ => [].
Definition append {B} (k : kind) (o : Object B) (c : client B) : client B :=
  fun k' => if decide (k = k') then c k' ++ [o] else c k'.

(** [runtime.TypeMeta] of what is supported; [None] is a list. *)
Definition kinds (meta : string * string) : option (option kind) :=
  if bool_decide (meta = ("v1", "List")) then Some None
  else if bool_decide (meta ∈ [("extensions/v1beta1", "Ingress"); ("networking.k8s.io/v1", "Ingress")]) then Some (Some Ingress)
  else if bool_decide (meta = ("v1", "Service")) then Some (Some Service)
  else if bool_decide (meta = ("discovery.k8s.io/v1", "EndpointSlice")) then Some (Some EndpointSlice)
  else if bool_decide (meta = ("v1", "Endpoints")) then Some (Some Endpoints)
  else if bool_decide (meta = ("v1", "Secret")) then Some (Some Secret)
  else if bool_decide (meta = ("v1", "ConfigMap")) then Some (Some ConfigMap)
  else None.

(** YAML and JSON. *)
Class YAMLOps (B : Type) := {
  decodeDocuments : string -> option (list string);
  decodeMeta : string -> option (string * string);
  decodeList : string -> option (list string);          (* the raw items *)
  decodeObject : kind -> string -> option (Object B);
}.
Class YAMLLaws (B : Type) `{!YAMLOps B} : Prop := {
  documents_shorter raw docs d :
    decodeDocuments raw = Some docs -> 1 < length docs -> d ∈ docs -> String.length d < String.length raw;
  items_shorter raw items i : decodeList raw = Some items -> i ∈ items -> String.length i < String.length raw;
}.

Section ops.
Context {B : Type} `{!YAMLOps B}.

Definition autofillMeta (o : Object B) : Object B :=
  if String.eqb (Namespace o) "" then mkObject "default" (Name o) (body o) else o.

(** A text that does not decode, or is of another type, is logged and adds nothing. *)
Fixpoint addObject (fuel : nat) (raw : string) (c : client B) : client B :=
  match fuel with
  | O => c
  | S fuel =>
      let docs := default [] (decodeDocuments raw) in
      if (1 <? length docs)%nat then fold_left (fun c d => addObject fuel d c) docs c
      else match decodeMeta raw with
      | None => c
      | Some meta =>
          match kinds meta with
          | None => c
          | Some None =>
              match decodeList raw with
              | None => c
              | Some items => fold_left (fun c i => addObject fuel i c) items c
              end
          | Some (Some k) =>
              match decodeObject k raw with None => c | Some o => append k (autofillMeta o) c end
          end
      end
  end.
Definition addRaw (raw : string) (c : client B) : client B := addObject (S (String.length raw)) raw c.

(** A walk visits directories and files; the path of a file is relative to [dir].  The file
    that is read is the one with its base name in [dir]. *)
Record entry := mkEntry { path : string; d_Name : string; IsDir : bool }.
Context (ReadFile : string -> option string).

Fixpoint walk (es : list entry) (c : client B) : option (client B) :=
  match es with
  | [] => Some c
  | e :: es =>
      if IsDir e then walk es c
      else data ← ReadFile (d_Name e); walk es (addRaw data c)
  end.
Definition load (es : list entry) : option (client B) := walk es reset.

(** A list ignores the namespace and the selector. *)
Definition GetList (k : kind) (namespace : string) (c : client B) : list (Object B) := c k.

Definition matches (namespace name : string) (s : Object B) : bool :=
  String.eqb (Name s) name &&
  (String.eqb namespace "" || String.eqb (Namespace s) "" || String.eqb (Namespace s) namespace).
Definition GetSecret (namespace name : string) (c : client B) : option (Object B) :=
  List.find (matches namespace name) (c Secret).

Fixpoint replaceFirst (s : Object B) (l : list (Object B)) : list (Object B) :=
  match l with
  | [] => [s]
  | x :: l => if String.eqb (Name x) (Name s) then s :: l else x :: replaceFirst s l
  end.
Definition UpdateSecret (s : Object B) (c : client B) : client B :=
  fun k => if decide (k = Secret) then replaceFirst s (c Secret) else c k.

End ops.

(** The specification: the objects that a text holds. *)
Inductive holds {B} `{!YAMLOps B} : string -> kind -> Object B -> Prop :=
| holds_document raw docs d k o :
    decodeDocuments raw = Some docs -> 1 < length docs -> d ∈ docs -> holds d k o -> holds raw k o
| holds_item raw meta items i k o :
    length (default [] (decodeDocuments raw)) <= 1 -> decodeMeta raw = Some meta -> kinds meta = Some None ->
    decodeList raw = Some items -> i ∈ items -> holds i k o -> holds raw k o
| holds_object raw meta k o :
    length (default [] (decodeDocuments raw)) <= 1 -> decodeMeta raw = Some meta -> kinds meta = Some (Some k) ->
    decodeObject k raw = Some o -> holds raw k (autofillMeta o).

End FsClient.

(** ** Lemmas *)

Module FsClientLemmas.
Import FsClient.

Section lemmas.
Context {B : Type} `{!YAMLOps B} `{!YAMLLaws B}.

Lemma append_in k k' (o o' : Object B) c : o' ∈ append k o c k' <-> o' ∈ c k' \/ (k = k' /\ o' = o).
Proof.
  unfold append. destruct (decide (k = k')) as [->|Hne]; [|naive_solver].
  rewrite elem_of_app, list_elem_of_singleton. naive_solver.
Qed.

Lemma fold_in (f : string -> client B -> client B) (P : string -> kind -> Object B -> Prop) l c k o :
  (forall x c, x ∈ l -> o ∈ f x c k <-> o ∈ c k \/ P x k o) ->
  o ∈ fold_left (fun c x => f x c) l c k <-> o ∈ c k \/ exists x, x ∈ l /\ P x k o.
Proof.
  revert c. induction l as [|x l IH]; intros c Hf; simpl.
  - split; [by left|]. intros [|(x & Hx & _)]; [done|]. by apply elem_of_nil in Hx.
  - rewrite IH by (intros y c' Hy; apply Hf; by right). rewrite Hf by (by left).
    setoid_rewrite elem_of_cons. naive_solver.
Qed.

Lemma addObject_in fuel raw (c : client B) k o :
  String.length raw < fuel -> o ∈ addObject fuel raw c k <-> o ∈ c k \/ holds raw k o.
Proof using YAMLLaws0.
  revert raw c. induction fuel as [|fuel IH]; intros raw c Hl; [lia|]. simpl.
  destruct (Nat.ltb_spec 1 (length (default [] (decodeDocuments raw)))) as [Hd|Hd].
  - destruct (decodeDocuments raw) as [docs|] eqn:He; simpl in Hd |- *; [|lia].
    rewrite (fold_in (addObject fuel) holds).
    2:{ intros d c' Hin. apply IH. pose proof (documents_shorter raw docs d He Hd Hin). lia. }
    split; intros [?|H]; try (by left); right.
    + destruct H as (d & ? & ?). by apply holds_document with docs d.
    + inversion H as [? docs' d ? ? He' ? ? ?|? ? ? ? ? ? Hlen|? ? ? ? Hlen]; subst.
      * rewrite He in He'. injection He' as <-. by exists d.
      * rewrite He in Hlen. simpl in Hlen. lia.
      * rewrite He in Hlen. simpl in Hlen. lia.
  - assert (Hone : forall docs, decodeDocuments raw = Some docs -> 1 < length docs -> False).
    { intros docs He. rewrite He in Hd. simpl in Hd. lia. }
    destruct (decodeMeta raw) as [meta|] eqn:Hm.
    2:{ split; [by left|]. intros [|H]; [done|]. inversion H; subst; solve [exfalso; eauto|congruence]. }
    destruct (kinds meta) as [[k'|]|] eqn:Hk.
    + destruct (decodeObject k' raw) as [o'|] eqn:Ho.
      * rewrite append_in. split; (intros [?|H]; [by left|right]).
        -- destruct H as [-> ->]. by apply holds_object with meta.
        -- inversion H; subst; [exfalso; by eauto|congruence|]. split; congruence.
      * split; [by left|]. intros [|H]; [done|]. inversion H; subst; solve [exfalso; eauto|congruence].
    + destruct (decodeList raw) as [items|] eqn:Hi.
      * rewrite (fold_in (addObject fuel) holds).
        2:{ intros i c' Hin. apply IH. pose proof (items_shorter raw items i Hi Hin). lia. }
        split; (intros [?|H]; [by left|right]).
        -- destruct H as (i & ? & ?). by apply holds_item with meta items i.
        -- inversion H as [|? meta' items' i|]; subst; [exfalso; by eauto| |congruence].
           assert (items' = items) as -> by congruence. by exists i.
      * split; [by left|]. intros [|H]; [done|]. inversion H; subst; solve [exfalso; eauto|congruence].
    + split; [by left|]. intros [|H]; [done|]. inversion H; subst; solve [exfalso; eauto|congruence].
Qed.

Lemma walk_in ReadFile es (c c' : client B) k o :
  walk ReadFile es c = Some c' ->
  o ∈ c' k <-> o ∈ c k \/ exists e raw, e ∈ es /\ IsDir e = false /\ ReadFile (d_Name e) = Some raw /\ holds raw k o.
Proof using YAMLLaws0.
  revert c. induction es as [|e es IH]; intros c; simpl.
  { intros [= ->]. split; [by left|]. intros [|(e & ? & He & _)]; [done|]. by apply elem_of_nil in He. }
  destruct (IsDir e) eqn:Hdir.
  - intros Hw. rewrite (IH c Hw). setoid_rewrite elem_of_cons. split.
    + intros [?|(e' & raw' & ? & ?)]; [by left|right; exists e', raw'; by auto].
    + intros [?|(e' & raw' & [->|Hin] & Hd & ?)]; [by left|congruence|by right; exists e', raw'].
  - destruct (ReadFile (d_Name e)) as [raw|] eqn:Hr; [|done]. simpl. intros Hw. rewrite (IH _ Hw).
    unfold addRaw. rewrite addObject_in by lia. setoid_rewrite elem_of_cons. split.
    + intros [[?|Hh]|(e' & raw' & ? & ?)]; [by left|right; by exists e, raw; auto|right; exists e', raw'; by auto].
    + intros [?|(e' & raw' & [->|Hin] & Hd & Hr' & Hh)]; [by left; left| |by right; exists e', raw'].
      left. right. rewrite Hr in Hr'. by injection Hr' as <-.
Qed.

Lemma replaceFirst_find (s : Object B) l namespace :
  matches namespace (Name s) s = true -> (forall x, x ∈ l -> Name x = Name s -> Namespace x = Namespace s) ->
  List.find (matches namespace (Name s)) (replaceFirst s l) = Some s.
Proof.
  intros Hm. induction l as [|x l IH]; intros Hl; simpl; [by rewrite Hm|].
  destruct (String.eqb_spec (Name x) (Name s)) as [He|Hne]; simpl; [by rewrite Hm|].
  unfold matches at 1. apply String.eqb_neq in Hne as ->. simpl. apply IH. intros y Hy. apply Hl. by right.
Qed.
End lemmas.

End FsClientLemmas.

(** ** Properties *)

Module FsClientProps.
Import FsClient FsClientLemmas.

Section props.
Context {B : Type} `{!YAMLOps B} `{!YAMLLaws B}.

(** A directory that loads is served as it is: a list has exactly the objects that the
    documents and lists in its files hold, however they nest, with an empty namespace
    taken for the default one. *)
Theorem manifests_are_served ReadFile es (c : client B) k namespace o :
  load ReadFile es = Some c ->
  o ∈ GetList k namespace c <->
  exists e raw, e ∈ es /\ IsDir e = false /\ ReadFile (d_Name e) = Some raw /\ holds raw k o.
Proof using YAMLLaws0.
  intros Hl. unfold GetList. rewrite (walk_in _ _ _ _ k o Hl). unfold reset. rewrite elem_of_nil. naive_solver.
Qed.

(** A file of a subdirectory is looked for in the root: when it is not there, nothing loads. *)
Theorem nested_manifest_breaks_the_load ReadFile es1 es2 e :
  IsDir e = false -> ReadFile (d_Name e) = None -> load (B := B) ReadFile (es1 ++ e :: es2) = None.
Proof.
  intros Hd Hr. unfold load. generalize (@reset B). induction es1 as [|e1 es1 IH]; intros c; simpl.
  - by rewrite Hd, Hr.
  - destruct (IsDir e1); [apply IH|]. destruct (ReadFile (d_Name e1)); [apply IH|done].
Qed.

(** A secret that was written is read back, as long as no secret of another namespace has its
    name. *)
Theorem written_secret_is_read (s : Object B) (c : client B) namespace :
  (forall x, x ∈ c Secret -> Name x = Name s -> Namespace x = Namespace s) ->
  namespace = "" \/ Namespace s = "" \/ Namespace s = namespace ->
  GetSecret namespace (Name s) (UpdateSecret s c) = Some s.
Proof.
  intros Hx Hn. unfold GetSecret, UpdateSecret. rewrite decide_True by done. apply replaceFirst_find; [|done].
  unfold matches. rewrite String.eqb_refl. simpl.
  destruct Hn as [-> | [-> | Hn]]; [| |rewrite Hn]; rewrite ?String.eqb_refl, ?orb_true_r; done.
Qed.

(** A write looks for the name only: it takes the place of the first secret of that name, which
    is lost, whatever namespace it is in, and the one it was meant for stays as it was. *)
Theorem write_takes_another_namespace (x y s : Object B) (c : client B) :
  c Secret = [x; y] -> Name x = Name s -> Name y = Name s -> Namespace y = Namespace s ->
  Namespace x <> Namespace s -> UpdateSecret s c Secret = [s; y].
Proof. intros Hc Hx _ _ _. unfold UpdateSecret. rewrite decide_True by done. rewrite Hc. simpl. by rewrite Hx, String.eqb_refl. Qed.
End props.

(** *** Witnesses: a document is a letter and a name, a text is a list of them. *)

Definition toyDocs (s : string) : list string :=
  match s with String a (String b (String c t)) => [String a (String b ""); String c t] | _ => [s] end.
#[local] Instance toyYAML : YAMLOps unit := {
  decodeDocuments s := Some (toyDocs s);
  decodeMeta s := match s with String "S" _ => Some ("v1", "Secret") | String "C" _ => Some ("v1", "ConfigMap") | _ => None end;
  decodeList s := None;
  decodeObject k s := match s with String _ n => Some (mkObject "" n tt) | _ => None end;
}.
#[local] Instance toyYAMLLaws : YAMLLaws unit.
Proof.
  split; [|done]. intros raw docs d [= <-] Hl Hd. destruct raw as [|a [|b [|c t]]]; simpl in Hl; try lia.
  apply elem_of_cons in Hd as [->|Hd]; [|apply list_elem_of_singleton in Hd as ->]; simpl; lia.
Qed.

Definition toyFiles (n : string) : option string := if String.eqb n "a.yaml" then Some "SxCy" else None.

Lemma manifests_are_served_witness :
  exists c, load toyFiles [mkEntry "a.yaml" "a.yaml" false] = Some c /\
    mkObject "default" "y" tt ∈ GetList ConfigMap "any" c.
Proof.
  eexists. split; [reflexivity|].
  apply (proj2 (manifests_are_served toyFiles [mkEntry "a.yaml" "a.yaml" false] _ ConfigMap "any" (mkObject "default" "y" tt) eq_refl)).
  exists (mkEntry "a.yaml" "a.yaml" false), "SxCy". split; [by left|]. split; [done|]. split; [done|].
  apply (holds_document "SxCy" ["Sx"; "Cy"] "Cy"); [done|simpl; lia|by right; left|].
  apply (holds_object "Cy" ("v1", "ConfigMap") ConfigMap (mkObject "" "y" tt)); [simpl; lia|done..].
Defined.

Lemma nested_manifest_breaks_the_load_witness :
  load (B := unit) toyFiles [mkEntry "a.yaml" "a.yaml" false; mkEntry "sub/b.yaml" "b.yaml" false] = None.
Proof. apply (nested_manifest_breaks_the_load toyFiles [mkEntry "a.yaml" "a.yaml" false] []); reflexivity. Defined.

Lemma written_secret_is_read_witness :
  GetSecret "ns" "s" (UpdateSecret (mkObject "ns" "s" tt) reset) = Some (mkObject "ns" "s" tt).
Proof. apply (written_secret_is_read (mkObject "ns" "s" tt)); [by intros x ?%elem_of_nil|by right; right]. Defined.

Lemma write_takes_another_namespace_witness :
  let c := fun k => if decide (k = Secret) then [mkObject "a" "s" 1; mkObject "b" "s" 2] else [] in
  UpdateSecret (mkObject "b" "s" 3) c Secret = [mkObject "b" "s" 3; mkObject "b" "s" 2].
Proof.
  intros c. apply (write_takes_another_namespace (mkObject "a" "s" 1) (mkObject "b" "s" 2)); [reflexivity..|discriminate].
Defined.

End FsClientProps.
